(* ===== verification/_CoqProject ===== *)
-Q . S2P
Prelude.v
PyVal.v
DateTime.v
Json.v
Contracts.v
ObservedAttributes.v
EventPayloads.v
Policy.v
ToolRegistry.v
ToolRegistryTheorems.v
PolicyValidator.v
PolicyValidatorTheorems.v
TaskStructure.v
ExecutionController.v
ExecutionProofs.v
ExecutionTheorems.v
AgentRuntime.v
Recovery.v
RecoveryTheorems.v
PostAction.v
PostActionTheorems.v
UartSpi.v
UartSpiTheorems.v
LinuxDma.v
LinuxDmaTheorems.v
LinuxGpio.v
LinuxGpioTheorems.v
LinuxIrq.v
LinuxIrqTheorems.v
LinuxPm.v
LinuxPmTheorems.v
VirtualMcu.v
Aging.v
Reducer.v
ReducerInvariant.v
EventPayloadProofs.v
ReducerTheorems.v
EventPayloadTheorems.v
EventStore.v
EventStoreProofs.v
EventStoreTheorems.v
WorldModelStore.v
WorldModelStoreTheorems.v
AgingTheorems.v
PyText.v
Verifier.v
VerifierParcels.v
VerifierTheorems.v
VerifierPolicy.v
VerifierReplay.v
PyFloat.v
MotionTypes.v
JointLimits.v
JointLimitsTheorems.v
Quintic.v
MotionSafety.v
InterpolationSpec.v
MotionSafetyTheorems.v
TrajectoryExecutor.v
TrajectoryExecutorGate.v
TrajectoryExecutorSafety.v
TrajectoryExecutorDwell.v
TrajectoryExecutorTheorems.v
ReferenceController.v
ControllerPort.v
ControllerTheorems.v
CanWire.v
CanWireTheorems.v
CanState.v
CanBus.v
CanSystem.v
CanScheduler.v
CanLifecycle.v
CanRefinement.v
CanSystemProofs.v
CanTheorems.v
CanBounds.v
CanTimeout.v
