(* ===== verification/Prelude.v ===== *)
(** * Workbench mobile home robot: a verification library

    The repository holds the software of a tabletop robot: an agent runtime that
    turns a task graph into device actions, a world model that turns observations
    into beliefs, drivers and firmware models below, and tools around them.  This
    library models the parts that carry the safety argument and proves what they
    promise.  Names of definitions are those of the Python source where Rocq
    allows it; paths are relative to [src/].

    ** Components and how they interact

    - _Agent runtime_ ([services/agent_runtime/workbench_agent_runtime]).  The
      execution controller snapshots a task graph, checks its structure, asks the
      policy validator about every step, sends allowed actions to an adapter one
      by one, and lets a STOP preempt.  The policy validator consults the tool
      registry, scans parameters for raw-control identifiers and requires
      confirmation of high-impact actions.  The recovery ledger decides what
      follows a failed verification.  The post-action loop runs the controller
      step by step and releases dependents only on fresh evidence.
    - _World model_ ([services/world_model/workbench_world_model]).  Events are
      normalized, checked as a stream and folded into a state; ageing lowers
      beliefs at an explicit boundary; the verifier answers a request about a
      state.  Events are kept in an append-only store of
      the kernel ([libs/kernel/workbench/kernel/event_store.py]) behind a typed
      adapter.
    - _CAN bus adapter_ ([libs/hardware/workbench/hardware/can_driver_safe.py]).
      A device runtime owns the lifecycle, one worker and the bounded planes; the
      bus adapter above it admits commands, sends and repeats them, correlates
      acknowledgements and preempts everything for a STOP.
    - _Motion control_ ([robot/control/workbench_motion/workbench_motion]).  A
      trajectory passes a preflight against joint limits and, as a piecewise
      quintic, an interpolation gate; the executor transmits what passed to a
      transport, supervises it, brakes, and latches faults.  Clients see the
      controller port, which an in-memory controller implements as well.
    - _Drivers and firmware_ ([hardware/linux_drivers],
      [firmware/virtual_mcu]).  UART/SPI frames and sessions, a DMA engine, GPIO
      lines, interrupt halves, suspend/resume, and the virtual controller.

    ** Files

    - [Prelude] (this file): outcomes and the state-and-exception monad, string
      enumerations ([StrEnum]), association lists, shared list lemmas.
      [PyVal]: Python strings, floats (IEEE binary64 as [spec_float]) and
      dynamically typed objects.  [DateTime], [Json]: the parts of the
      Python library that the sources use ([fromisoformat], [json.loads],
      [json.dumps] sizes and canonical text, [repr] of floats).  [PyText]: [repr]
      of texts and lists, the canonical JSON of a request and its UTF-8 bytes,
      NFKC and [casefold], and SHA-256.
    - [Contracts]: [libs/contracts/workbench_contracts/models.py] - actions, task
      graphs, results.  [ObservedAttributes]: [observed_attributes.py].
    - [Policy], [ToolRegistry], [PolicyValidator]: [policy_validator.py],
      [tool_registry.py], [tool_schemas.py].  [TaskStructure],
      [ExecutionController]: [execution_controller.py].  [AgentRuntime]: the
      controller with the validator as its port, through the type class
      [SoundValidator].
    - [Recovery]: [recovery.py].  [PostAction]: [post_action.py].
    - [EventPayloads]: [event_payloads.py].  [Aging]: [aging.py].  [Reducer]:
      [reducer.py].  [Verifier], [VerifierParcels]: [verifier.py];
      [VerifierPolicy] holds the reference definition of the parcel policy and
      [VerifierReplay] the composition of reducer, ageing and verifier.
    - [EventStore]: [libs/kernel/workbench/kernel/event_store.py].
      [WorldModelStore]: [event_store.py] of the world model.
    - [CanWire]: frames, configuration, [decode_can_frame] and external records of
      [can_driver_safe.py]; [CanState], [CanBus]: the state and the locked sections
      of [SafeCANBus] and [DeviceRuntime]; [CanSystem]: lifecycle and threads as a
      step relation; [CanScheduler]: an executable scheduler of it.
      [CanRefinement] has the abstract request machine, whose moves are guarded by
      the phase of the lifecycle, and shows that every section makes one of them,
      [CanSystemProofs] that every interleaving is one of its executions;
      [CanWireTheorems], [CanTheorems], [CanLifecycle], [CanBounds] and
      [CanTimeout] hold the properties.
    - [PyFloat]: arithmetic on floats, [round], [ceil], [nextafter], the decimal
      of a float.  [MotionTypes]: [motion_types.py].  [JointLimits]:
      [joint_limits.py].  [Quintic]: [quintic_trajectory.py].  [MotionSafety]:
      [motion_safety.py]; [InterpolationSpec] says, without its routines, what the
      quintic of an interval, its extrema and its bounds are.
      [TrajectoryExecutor]: [trajectory_executor.py], with
      [TrajectoryExecutorGate] (the invariant of its calls),
      [TrajectoryExecutorSafety] (the abstract lifecycle machine, stops, resets and
      completion) and [TrajectoryExecutorDwell] (what the dwell time counts from).
      [ReferenceController]: [reference_controller.py].  [ControllerPort]:
      [controller.py], the protocol as the type class [Controller] with the laws
      [ControllerLaws], from which the guarantees of clients are proved;
      [ControllerTheorems] discharges the laws for both controllers.
    - [UartSpi], [LinuxDma], [LinuxGpio], [LinuxIrq], [LinuxPm]: the contracts
      under [hardware/linux_drivers].  [VirtualMcu]: [state_machine.py] of the
      virtual firmware.

    A file with the suffix [Proofs] or [Invariant] holds lemmas, one with the
    suffix [Theorems] the properties with their witnesses.

    ** How state and effects are modelled

    An object with methods is a record and each method a function from the record
    to an outcome and the record it leaves behind ([prog]); an exception keeps
    the assignments made before it.  Functions without state return an [outcome]
    or an [option] when the only thing a caller can see is that it raised.
    Injected collaborators (adapters, validators, clocks, memory addresses,
    transports) are parameters; the controller's ports may run code that calls
    back into the controller, which [env_run] makes explicit.  Threads of the
    interrupt model and of the CAN adapter are step relations over all
    interleavings; a step is one section under the lock, and what a transport, a
    subscriber or a join does between two sections is up to the environment.  In
    particular [poll] picks a frame in one section, calls [transport.send] with the
    lock released, and records the transmission in another section: the choice
    ([EPick]) and the hand-over ([ESend]) are separate steps.  The
    CAN system has one poller, the worker or one manual caller, as its
    documentation asks.  The transport, the event sink, the configuration check
    and the clocks of the trajectory executor share a world of their own: a call
    may change it, return or raise anything, and the executor's record keeps the
    calls with their outcomes.  Floats are IEEE binary64 with round-to-nearest
    ([spec_float]); [pow] and [cbrt] of the C library are parameters ([Libm]), since
    their last digit is not fixed by any standard.  A SQLite connection is the durable database, the view of
    the connection and the open transaction.  pydantic is not
    part of the repository: its field validation is modelled where the contracts
    use it, and its JSON serializer of foreign objects is a field of [VObj].

    ** What the theorems show

    - Controller: an action reaches the adapter at most once and only with its
      own policy decision, in graph order; success means that every step was
      confirmed; an accepted STOP is never lost; a benign run of a graph that can
      be serialized, with confirmation where it is needed and no STOP pending,
      succeeds; the cycle search is exact where it stays within the recursion limit
      of Python, two frames are enough for an ordered graph, and a deep chain of
      forward references escapes as [RecursionError].
    - Registry, validator and runtime: validation is equivalent to the declared
      schema, the scan finds exactly the raw-control identifiers that occur (as
      long as no address is used twice), the validator allows exactly the graphs
      that pass all its rules, and every action the runtime ever sends is safe in
      that sense, under the confirmations of its own call.
    - Recovery and post-action loop: recovery ends within its budgets, completion
      cites a later observation, confirmation needs fresh evidence, dependents
      wait for confirmation, and the loop keeps the controller's guarantees.
    - World model: replay does not depend on arrival order or copies, and copies
      with different content are refused; reduced states are consistent, and aged
      ones are the aged form of a consistent state; an event changes one entity, newer beliefs survive
      late observations, normalization is idempotent, recovery events claim no
      success, ageing is fail-closed and overrides can only make it stricter.  The
      verifier gives a verdict only on current evidence, which its result cites;
      it confirms a kit, and a parcel policy, exactly when a declarative
      specification holds; what it confirms on an aged replay rests on
      observations within their staleness bounds.
    - Event stores: the log only grows under any sequence of calls, what was
      appended to a database of several runs is found, snapshots restore, a batch
      with a sequence that SQLite cannot hold is refused but becomes durable later, runs stay within the read ceiling and allocated events are numbered
      without gaps.
    - CAN adapter: the decoder accepts exactly the encodings of messages; the
      adapter refines an abstract request machine, from which it follows that after
      a STOP no command is picked until a recovery (one that was picked before and
      not yet handed over may still go out), that a confirmation
      answers a transmission and comes at most once per request; every plane is
      bounded; an unanswered command ends in a STOP, unless the identifiers run
      out; one thread cleans up.
    - Motion: the preflight accepts exactly the trajectories within the limits;
      a motion that the interpolation gate accepts is within its position,
      velocity, acceleration and jerk limits at both ends of every interval and at
      the zeros of the next derivative, isolated on floats; whatever the transport does, every transmission
      passed the whole gate, the executor refines a lifecycle machine, a stop is
      fail-closed, a fault is cleared only by a reset that twice read fresh feedback
      at rest, a motion ends only on feedback at rest at its goal and after all the
      samples of the dwell time were so; the laws of the controller port hold of both
      controllers, so that no client moves the arm between a stop and a reset and
      no identifier is accepted twice; the search for a brake ends.
    - Drivers: the codec is a bijection and detects every one-byte corruption,
      DMA buffers have one owner, GPIO events are delivered once in order, bottom
      halves run once after their top half, power states are fail-closed for finite
      costs and deadlines, a stop holds until reset.
    - Some theorems show behaviour that the sources do not intend; they are listed
      as findings of the manifest.

    ** Fuel and bounds

    The cycle search is run with the frames that the recursion limit leaves it,
    a parameter ([visit_frames]): running out is [RecursionError], as in the source; the writer of a frame with its length; a receive
    with the number of turns before its deadline; the observation loop with its
    attempt budget; the raw-control scan with one more than its node limit; the
    JSON parser with twice the length of the text plus two ([json_loads_total]);
    the decimal search of [repr] with its at most seventeen digits; the roots of a
    polynomial with its length ([roots_fuel_enough]), and their bisection
    with the 64 rounds of the source; the search for a brake with 3300 durations,
    which leave the range of a float ([brake_orbit_ends]).  Each of these is shown
    to be enough, or running out is the source's own limit.

    ** Not modelled

    Characters above code point 255 outside JSON scanning; the wording of error
    messages (constructors or parameters stand for it); the public projection and
    hash of a world state; the planner and the local-model client (prompts to a
    model service); perception and the ROS packages, whose behaviour is that of
    services and geometry libraries; of motion control the ROS adapters, probes,
    reachability and benchmark files, and the reading of configuration files; the SocketCAN transport and the ROS bridge;
    recovery of a torn JSONL file; two manual pollers of one CAN bus at once; the
    backend's HTTP servers; PCB, mechanical, power and release tooling; scripts,
    tests, launch files and generated data.

    ** Left to do

    The correlation ledger and alerts of [libs/application], the public
    projection of a world state, and the metrics and evidence of motion control. *)

From Stdlib Require Import ZArith Lia.
From stdpp Require Export base list gmap strings fin_maps sorting pretty.

(** ** Python exceptions and mutable objects

    A method of a Python class is a function from the object's state to an
    outcome and the state it leaves behind.  The state is kept on the [Raise]
    branch as well: an exception does not undo the assignments made before it. *)

Inductive outcome (E A : Type) : Type :=
| Ok (a : A)
| Raise (e : E).
Arguments Ok {E A} a.
Arguments Raise {E A} e.

(** A computation that reads no state: [let*] continues unless it raised. *)
Definition outcome_bind {E A B} (m : outcome E A) (k : A → outcome E B) : outcome E B :=
  match m with Ok a => k a | Raise e => Raise e end.
Notation "'let*' x := m 'in' k" := (outcome_bind m (λ x, k))
  (at level 10, x name, m at level 100, k at level 200).
(** [if not b: raise e] before the rest *)
Notation "'ensure' b 'else' e 'in' k" := (if b then k else Raise e)
  (at level 10, b at level 100, e at level 100, k at level 200).

Fixpoint outcome_map {E A B} (f : A → outcome E B) (l : list A) : outcome E (list B) :=
  match l with
  | [] => Ok []
  | a :: l' => outcome_bind (f a) (λ b, outcome_bind (outcome_map f l') (λ bs, Ok (b :: bs)))
  end.

(** [except] clauses that replace an exception *)
Definition outcome_except {E E' A} (f : E → E') (m : outcome E A) : outcome E' A :=
  match m with Ok a => Ok a | Raise e => Raise (f e) end.

Definition prog (S E A : Type) : Type := S → outcome E A * S.

Section Monad.
Context {S E : Type}.

Definition ret {A} (a : A) : prog S E A := λ s, (Ok a, s).
Definition raise {A} (e : E) : prog S E A := λ s, (Raise e, s).
Definition bind {A B} (m : prog S E A) (k : A → prog S E B) : prog S E B :=
  λ s, match m s with
       | (Ok a, s') => k a s'
       | (Raise e, s') => (Raise e, s')
       end.
Definition get : prog S E S := λ s, (Ok s, s).
Definition gets {A} (f : S → A) : prog S E A := λ s, (Ok (f s), s).
Definition modify (f : S → S) : prog S E () := λ s, (Ok (), f s).
(** [if not b: raise e] *)
Definition require (b : bool) (e : E) : prog S E () := if b then ret () else raise e.
(** A lookup that raises when the key is absent. *)
Definition of_option {A} (o : option A) (e : E) : prog S E A :=
  match o with Some a => ret a | None => raise e end.

(** [triple P m Q R]: from a state in [P], [m] either returns a value in [Q]
    or raises an error in [R]; both are about the state left behind. *)
Definition triple {A} (P : S → Prop) (m : prog S E A)
    (Q : A → S → Prop) (R : E → S → Prop) : Prop :=
  ∀ s, P s → match m s with
             | (Ok a, s') => Q a s'
             | (Raise e, s') => R e s'
             end.

(** [preserves I m]: [m] keeps [I], whether it returns or raises. *)
Definition preserves {A} (I : S → Prop) (m : prog S E A) : Prop :=
  ∀ s, I s → I (m s).2.

End Monad.

Declare Scope prog_scope.
Delimit Scope prog_scope with prog.
Notation "x <- m ;; k" := (bind m (λ x, k))
  (at level 100, m at next level, right associativity) : prog_scope.
Notation "m ;;; k" := (bind m (λ _, k))
  (at level 100, right associativity) : prog_scope.

Section MonadLaws.
Context {S E : Type}.

Lemma bind_ret_l {A B} (a : A) (k : A → prog S E B) s : bind (ret a) k s = k a s.
Proof. done. Qed.

Lemma bind_raise {A B} (e : E) (k : A → prog S E B) s :
  bind (raise e) k s = (Raise e, s).
Proof. done. Qed.

Lemma bind_assoc {A B C} (m : prog S E A) (f : A → prog S E B) (g : B → prog S E C) s :
  bind (bind m f) g s = bind m (λ a, bind (f a) g) s.
Proof. unfold bind. by destruct (m s) as [[?|?] ?]. Qed.

Lemma bind_Ok {A B} (m : prog S E A) (k : A → prog S E B) s b s' :
  bind m k s = (Ok b, s') ↔ ∃ a s1, m s = (Ok a, s1) ∧ k a s1 = (Ok b, s').
Proof. unfold bind. destruct (m s) as [[?|?] ?]; naive_solver. Qed.

Lemma bind_require {B} b (e : E) (k : () → prog S E B) s :
  bind (require b e) k s = if b then k () s else (Raise e, s).
Proof. by destruct b. Qed.

Lemma preserves_ret {A} (I : S → Prop) (a : A) : preserves (E:=E) I (ret a).
Proof. by intros s. Qed.

Lemma preserves_raise {A} (I : S → Prop) (e : E) : preserves (A:=A) I (raise e).
Proof. by intros s. Qed.

Lemma preserves_get (I : S → Prop) : preserves (E:=E) I get.
Proof. by intros s. Qed.

Lemma preserves_gets {A} (I : S → Prop) (f : S → A) : preserves (E:=E) I (gets f).
Proof. by intros s. Qed.

Lemma preserves_require (I : S → Prop) b (e : E) : preserves I (require b e).
Proof. by destruct b; intros s. Qed.

Lemma preserves_of_option {A} (I : S → Prop) (o : option A) (e : E) :
  preserves I (of_option o e).
Proof. by destruct o; intros s. Qed.

Lemma preserves_modify (I : S → Prop) (f : S → S) :
  (∀ s, I s → I (f s)) → preserves (E:=E) I (modify f).
Proof. by intros H s ?; apply H. Qed.

Lemma preserves_bind {A B} (I : S → Prop) (m : prog S E A) (k : A → prog S E B) :
  preserves I m → (∀ a, preserves I (k a)) → preserves I (bind m k).
Proof.
  intros Hm Hk s HI. unfold bind. specialize (Hm s HI).
  destruct (m s) as [[a|e] s']; simpl in *; [by apply Hk | done].
Qed.

End MonadLaws.

Create HintDb prog.
#[export] Hint Resolve preserves_ret preserves_raise preserves_get preserves_gets
  preserves_require preserves_of_option preserves_modify preserves_bind : prog.

(** Case analysis on every [match], [if] and [decide] of the goal or of a
    hypothesis, with the equations kept. *)
Ltac split_matches :=
  repeat (case_match; simplify_eq/=; try done).

(** Runs the monad's combinators on a hypothesis about one execution. *)
Ltac run_prog H :=
  unfold bind, ret, raise, get, gets, modify, require, of_option in H; simpl in H.

(** ** Enumerations ([enum.StrEnum])

    A StrEnum class is its members with their string values; [of_value] is the
    class called on a string, which raises [ValueError] for other strings. *)

Class StrEnum (A : Type) := {
  value : A → string;
  members : list A
}.

Definition of_value {A} `{StrEnum A} (s : string) : option A :=
  head (filter (λ a, value a = s) members).

Class StrEnumLaws (A : Type) `{StrEnum A} := {
  members_complete a : a ∈ members;
  value_inj :: Inj (=) (=) (value (A:=A))
}.

Section StrEnum.
Context {A : Type} `{StrEnumLaws A}.

Lemma filter_value_self (a : A) l :
  a ∈ l → head (filter (λ b, value b = value a) l) = Some a.
Proof.
  induction 1 as [l'|x b l' ? IH]; rewrite filter_cons; [by rewrite decide_True|].
  case_decide as Hv; [by apply value_inj in Hv as ->|done].
Qed.

Lemma of_value_value (a : A) : of_value (value a) = Some a.
Proof. apply filter_value_self, members_complete. Qed.

Lemma of_value_Some s (a : A) : of_value s = Some a ↔ s = value a.
Proof.
  split; [|intros ->; apply of_value_value].
  unfold of_value. generalize (members (A:=A)). intros l. induction l as [|b l IH]; [done|].
  rewrite filter_cons. case_decide; naive_solver.
Qed.

End StrEnum.

(** Proves the laws of an enumeration whose values are closed strings. *)
Ltac solve_enum_laws :=
  split;
  [ intros []; simpl; set_solver
  | intros [] []; simpl; intros; first [done | discriminate] ].

(** ** Insertion-ordered dicts

    [d[k] = v] keeps the position of an existing key and appends a new one. *)

Fixpoint assoc_set {K V} `{EqDecision K} (k : K) (v : V) (d : list (K * V)) : list (K * V) :=
  match d with
  | [] => [(k, v)]
  | (k', v') :: d' =>
      if decide (k = k') then (k, v) :: d' else (k', v') :: assoc_set k v d'
  end.

Fixpoint assoc_get {K V} `{EqDecision K} (k : K) (d : list (K * V)) : option V :=
  match d with
  | [] => None
  | (k', v') :: d' => if decide (k = k') then Some v' else assoc_get k d'
  end.

Section Assoc.
Context {K V : Type} `{EqDecision K}.
Implicit Types (d : list (K * V)).

Lemma assoc_get_set k k' (v : V) d :
  assoc_get k' (assoc_set k v d) = if decide (k' = k) then Some v else assoc_get k' d.
Proof. induction d as [|[k1 v1] d IH]; simpl; repeat (case_decide; simplify_eq/=); try done. Qed.

Lemma assoc_get_elem k d : is_Some (assoc_get k d) ↔ k ∈ d.*1.
Proof.
  induction d as [|[k1 v1] d IH]; simpl.
  - split; [by intros [? [=]]|by intros ?%elem_of_nil].
  - case_decide; simplify_eq/=; [split; [by left|eauto]|].
    rewrite elem_of_cons, IH. naive_solver.
Qed.

Lemma assoc_set_keys k (v : V) d :
  (assoc_set k v d).*1 = if decide (k ∈ d.*1) then d.*1 else d.*1 ++ [k].
Proof.
  induction d as [|[k1 v1] d IH]; [by rewrite decide_False by (by intros ?%elem_of_nil)|].
  cbn [assoc_set]. destruct (decide (k = k1)) as [->|Hne]; rewrite !fmap_cons; cbn [fst].
  - by rewrite decide_True by (by left).
  - rewrite IH. destruct (decide (k ∈ d.*1)).
    + by rewrite decide_True by (by right).
    + by rewrite decide_False by set_solver.
Qed.

Lemma assoc_set_NoDup k (v : V) d : NoDup d.*1 → NoDup (assoc_set k v d).*1.
Proof.
  intros Hd. rewrite assoc_set_keys. case_decide; [done|].
  apply NoDup_app; repeat split; [done|set_solver|apply NoDup_singleton].
Qed.

End Assoc.

(** ** Lists *)

Lemma filter_all {A} (P : A → Prop) `{∀ x, Decision (P x)} (l : list A) :
  (∀ x, x ∈ l → P x) → filter P l = l.
Proof.
  induction l as [|x l IH]; intros Hl; [done|].
  rewrite filter_cons, decide_True by (apply Hl; by left).
  f_equal. apply IH. intros y ?. apply Hl. by right.
Qed.

Lemma NoDup_incl_length {A} (l k : list A) :
  NoDup l → (∀ x, x ∈ l → x ∈ k) → length l ≤ length k.
Proof. intros. by apply submseteq_length, NoDup_submseteq. Qed.

(** ** Outcomes *)

Lemma Ok_inj {E A} (a b : A) : Ok (E:=E) a = Ok b → a = b.
Proof. congruence. Qed.

Lemma outcome_bind_Ok {E A B} (m : outcome E A) (k : A → outcome E B) b :
  outcome_bind m k = Ok b ↔ ∃ a, m = Ok a ∧ k a = Ok b.
Proof. destruct m; simpl; [|split; [done|intros (?&[=]&_)]]. split; [eauto|]. by intros (?&[= ->]&?). Qed.

Lemma outcome_map_Ok {E A B} (f : A → outcome E B) l bs :
  outcome_map f l = Ok bs ↔ Forall2 (λ a b, f a = Ok b) l bs.
Proof.
  revert bs. induction l as [|a l IH]; intros bs; simpl.
  - split; [intros [= <-]; constructor|]. by inversion 1.
  - rewrite outcome_bind_Ok. setoid_rewrite outcome_bind_Ok. setoid_rewrite IH. split.
    + intros (b & Hb & bs' & Hbs & [= <-]). by constructor.
    + inversion 1; subst. eauto 6.
Qed.

Lemma outcome_except_Ok {E E' A} (f : E → E') (m : outcome E A) a : outcome_except f m = Ok a ↔ m = Ok a.
Proof. destruct m; simpl; split; congruence. Qed.

(** Opens a successful computation: the results of its parts and its guards *)
Ltac run_outcome H :=
  repeat match type of H with
    | outcome_bind _ _ = Ok _ =>
        let a := fresh "v" in let Ha := fresh "Hv" in
        apply outcome_bind_Ok in H as (a & Ha & H)
    | (if ?b then _ else Raise _) = Ok _ =>
        let Hb := fresh "Hb" in destruct b eqn:Hb; [|discriminate H]
    end.

(** ** Lists *)

Lemma elem_of_snoc {A} (x y : A) l : x ∈ l ++ [y] ↔ x ∈ l ∨ x = y.
Proof. by rewrite elem_of_app, list_elem_of_singleton. Qed.

Lemma NoDup_fmap_inj {A B} (f : A → B) (l : list A) x y :
  NoDup (f <$> l) → x ∈ l → y ∈ l → f x = f y → x = y.
Proof.
  induction l as [|a l IH]; [by intros _ []%elem_of_nil|]. simpl. intros [Ha Hl]%NoDup_cons.
  intros [->|Hx]%elem_of_cons [->|Hy]%elem_of_cons Hf; [done| | |by apply IH]; exfalso; apply Ha, list_elem_of_fmap; eauto.
Qed.
