(* ===== verification/PyVal.v ===== *)
(** * Python values: strings, floats and dynamically typed objects

    Characters are code points below 256; [strip] removes what
    [str.isspace] accepts there.  Floats are IEEE 754 binary64 values in the
    Standard Library's [spec_float].  [pyval] is an object as the code under
    verification inspects one: by its class, its items and its truth value. *)

From Stdlib Require Import ZArith Ascii String SpecFloat.
From S2P Require Import Prelude.
Set Warnings "-register-all".
Local Open Scope Z_scope.

(** ** Strings *)

Definition is_space (c : ascii) : bool :=
  let n := Z.of_nat (nat_of_ascii c) in
  ((9 <=? n) && (n <=? 13)) || ((28 <=? n) && (n <=? 32)) || (n =? 133) || (n =? 160).

Fixpoint lstrip (s : string) : string :=
  match s with
  | String c s' => if is_space c then lstrip s' else s
  | EmptyString => EmptyString
  end.

Definition rstrip (s : string) : string := String.rev (lstrip (String.rev s)).

(** [str.strip()] *)
Definition strip (s : string) : string := rstrip (lstrip s).

(** [bool(s.strip())] *)
Definition non_blank (s : string) : bool := negb (String.eqb (strip s) "").

(** ", ".join(l) *)
Fixpoint join (sep : string) (l : list string) : string :=
  match l with
  | [] => ""
  | [s] => s
  | s :: l' => s +:+ sep +:+ join sep l'
  end.

Definition str_in (s : string) (l : list string) : bool := bool_decide (s ∈ l).

(** [text.partition(sep)] for a one-character separator: the part before the
    first separator, whether there is one, and the part after it. *)
Fixpoint partition_at (sep : ascii) (s : string) : string * bool * string :=
  match s with
  | EmptyString => (EmptyString, false, EmptyString)
  | String c s' =>
      if Ascii.eqb c sep then (EmptyString, true, s')
      else let '(a, found, b) := partition_at sep s' in (String c a, found, b)
  end.

(** ** Floats *)

Definition isfinite (f : spec_float) : bool :=
  match f with S754_zero _ | S754_finite _ _ _ => true | _ => false end.

Definition float_lt (x y : spec_float) : bool := SFltb x y.
Definition float_le (x y : spec_float) : bool := SFleb x y.

(** binary64 arithmetic, rounding to nearest even *)
Definition float_sub (x y : spec_float) : spec_float := SFsub 53 1024 x y.
Definition float_of_Z (z : Z) : spec_float := binary_normalize 53 1024 z 0 false.
(** The value [n * 2^e], for literals. *)
Definition float_lit (n e : Z) : spec_float := binary_normalize 53 1024 n e false.

Definition float_zero : spec_float := S754_zero false.

(** ** Dynamically typed objects *)

Inductive pyval : Type :=
| VNone
| VBool (b : bool)
| VInt (z : Z)
| VFloat (f : spec_float)
| VStr (s : string)
| VEnum (cls v : string)            (* a StrEnum member: also a [str] *)
| VList (l : list pyval)
| VTuple (l : list pyval)
| VSet (l : list pyval)
| VFrozenset (l : list pyval)
| VDict (kvs : list (pyval * pyval))
| VObj (ty : string) (json : option pyval).
(** [VObj]: any other object, by its class name and by what pydantic's JSON-mode
    serializer, which is not part of the repository, gives for it ([None] when
    it raises). *)

(** [isinstance(v, str)], with the text *)
Definition as_str (v : pyval) : option string :=
  match v with VStr s => Some s | VEnum _ s => Some s | _ => None end.

(** [type(v).__name__] *)
Definition type_name (v : pyval) : string :=
  match v with
  | VNone => "NoneType" | VBool _ => "bool" | VInt _ => "int" | VFloat _ => "float"
  | VStr _ => "str" | VEnum cls _ => cls | VList _ => "list"
  | VTuple _ => "tuple" | VSet _ => "set" | VFrozenset _ => "frozenset"
  | VDict _ => "dict" | VObj ty _ => ty
  end.

(** The items a [for] loop over the object visits; [None] when it is not
    iterable or is text, which the callers treat alike. *)
Definition iter_items (v : pyval) : option (list pyval) :=
  match v with
  | VList l | VTuple l | VSet l | VFrozenset l => Some l
  | VDict kvs => Some kvs.*1
  | _ => None
  end.

(** [d.get(k)] for a string key *)
Fixpoint dict_get (k : string) (kvs : list (pyval * pyval)) : option pyval :=
  match kvs with
  | [] => None
  | (k', v) :: kvs' =>
      if decide (as_str k' = Some k) then Some v else dict_get k kvs'
  end.

(** [d.get(k, default)] *)
Definition dict_get_or (k : string) (kvs : list (pyval * pyval)) (d : pyval) : pyval :=
  default d (dict_get k kvs).

(** [d[k] = v] for a string key *)
Fixpoint dict_set (k : string) (v : pyval) (kvs : list (pyval * pyval)) : list (pyval * pyval) :=
  match kvs with
  | [] => [(VStr k, v)]
  | (k', v') :: kvs' => if decide (as_str k' = Some k) then (k', v) :: kvs' else (k', v') :: dict_set k v kvs'
  end.

(** [k in expected] for a key of a dict *)
Definition key_in (expected : list string) (k : pyval) : bool :=
  match as_str k with Some s => str_in s expected | None => false end.

(** Keys outside a list of expected ones: [set(d) - expected] *)
Definition unknown_keys (expected : list string) (kvs : list (pyval * pyval)) : list pyval :=
  filter (λ k, key_in expected k = false) kvs.*1.

(** ** JSON-mode dump and Python equality *)

Definition json_key (k : pyval) : pyval :=
  match k with
  | VEnum _ s => VStr s
  | VInt z => VStr (pretty z)
  | VBool b => VStr (if b then "true" else "false")
  | VNone => VStr "None"
  | k => k
  end.

(** [model_dump(mode="json")] on one value; [None] when the serializer raises. *)
Fixpoint json_dump (v : pyval) : option pyval :=
  match v with
  | VEnum _ s => Some (VStr s)
  | VList l | VTuple l | VSet l | VFrozenset l => VList <$> mapM json_dump l
  | VDict kvs =>
      VDict <$> mapM (λ '(k, v), (λ v', (json_key k, v')) <$> json_dump v) kvs
  | VObj _ json => json
  | v => Some v
  end.

(** [n == f] for an integer and a float *)
Definition int_float_eqb (n : Z) (f : spec_float) : bool :=
  match f with
  | S754_zero _ => n =? 0
  | S754_finite s m e =>
      let m' := if s then Z.neg m else Z.pos m in
      if 0 <=? e then n =? m' * 2 ^ e else n * 2 ^ (- e) =? m'
  | _ => false
  end.

Definition bool_int (b : bool) : Z := if b then 1 else 0.

(** [a == b] for the values a JSON-mode dump produces: numbers compare by value
    across [bool], [int] and [float]; dicts compare without regard to order. *)
Fixpoint py_eqb (a b : pyval) {struct a} : bool :=
  let fix list_eqb (l1 l2 : list pyval) {struct l1} : bool :=
    match l1, l2 with
    | [], [] => true
    | x :: l1', y :: l2' => py_eqb x y && list_eqb l1' l2'
    | _, _ => false
    end in
  let fix dict_sub (d1 d2 : list (pyval * pyval)) {struct d1} : bool :=
    match d1 with
    | [] => true
    | (k, v) :: d1' =>
        existsb (λ kv, py_eqb k kv.1 && py_eqb v kv.2) d2 && dict_sub d1' d2
    end in
  match a, b with
  | VNone, VNone => true
  | VBool x, VBool y => Bool.eqb x y
  | VBool x, VInt y => bool_int x =? y
  | VInt x, VBool y => x =? bool_int y
  | VInt x, VInt y => x =? y
  | VBool x, VFloat f => int_float_eqb (bool_int x) f
  | VInt x, VFloat f => int_float_eqb x f
  | VFloat f, VBool y => int_float_eqb (bool_int y) f
  | VFloat f, VInt y => int_float_eqb y f
  | VFloat f, VFloat g => SFeqb f g
  | (VStr x | VEnum _ x), (VStr y | VEnum _ y) => String.eqb x y
  | VList l1, VList l2 => list_eqb l1 l2
  | VDict d1, VDict d2 => (length d1 =? length d2)%nat && dict_sub d1 d2
  | _, _ => false
  end.

(** ** Lemmas *)

Lemma str_in_spec s l : str_in s l = true ↔ s ∈ l.
Proof. unfold str_in. by rewrite bool_decide_eq_true. Qed.

Lemma non_blank_spec s : non_blank s = true ↔ strip s ≠ "".
Proof.
  unfold non_blank. rewrite negb_true_iff. split.
  - intros H Hs. by rewrite Hs in H.
  - intros H. by apply String.eqb_neq.
Qed.

Lemma non_blank_nonempty s : non_blank s = true → s ≠ "".
Proof. intros H ->. by vm_compute in H. Qed.

Lemma dict_get_set k v kvs : dict_get k (dict_set k v kvs) = Some v.
Proof.
  induction kvs as [|[k' v'] kvs IH]; simpl; [by rewrite decide_True|].
  case_decide as Hk; simpl; [by rewrite decide_True|]. by rewrite decide_False.
Qed.

Lemma dict_get_set_ne k k' v kvs : k ≠ k' → dict_get k (dict_set k' v kvs) = dict_get k kvs.
Proof.
  intros Hne. induction kvs as [|[k0 v0] kvs IH]; simpl.
  { rewrite decide_False by congruence. done. }
  case_decide as Hk; simpl.
  - rewrite !decide_False by congruence. done.
  - by case_decide.
Qed.

Lemma dict_set_set k v v' kvs : dict_set k v (dict_set k v' kvs) = dict_set k v kvs.
Proof.
  induction kvs as [|[k0 v0] kvs IH]; simpl; [by rewrite decide_True|].
  case_decide as Hk; simpl; [by rewrite decide_True|]. rewrite decide_False by done. by rewrite IH.
Qed.
