(* ===== verification/DateTime.v ===== *)
(** * Timestamps

    [datetime.fromisoformat] of the Standard Library, as its C implementation
    reads a string, and the comparisons that the gates and the world model make
    on its results.  A datetime is its local time in microseconds since
    0001-01-01 and its UTC offset in microseconds, when it has one. *)

From Stdlib Require Import ZArith Ascii String.
From S2P Require Import Prelude PyVal.
Local Open Scope Z_scope.

(** ** Calendar *)

Definition is_leap (y : Z) : bool :=
  (y mod 4 =? 0) && (negb (y mod 100 =? 0) || (y mod 400 =? 0)).

Definition days_before_year (y : Z) : Z :=
  let y := y - 1 in y * 365 + y / 4 - y / 100 + y / 400.

Definition days_in_month (y m : Z) : Z :=
  if m =? 2 then (if is_leap y then 29 else 28)
  else if (m =? 4) || (m =? 6) || (m =? 9) || (m =? 11) then 30 else 31.

Definition days_before_month (y m : Z) : Z :=
  foldl (λ acc i, acc + days_in_month y (Z.of_nat i)) 0 (seq 1 (Z.to_nat (m - 1))).

(** [date.toordinal]: 0001-01-01 is day 1. *)
Definition ymd2ord (y m d : Z) : Z := days_before_year y + days_before_month y m + d.

Definition valid_date (y m d : Z) : bool :=
  (1 <=? y) && (y <=? 9999) && (1 <=? m) && (m <=? 12) && (1 <=? d) && (d <=? days_in_month y m).

Definition MAXORDINAL : Z := 3652059.

(** The ordinal of an ISO week date. *)
Definition iso_to_ord (y week day : Z) : option Z :=
  let first := ymd2ord y 1 1 in
  let first_weekday := (first + 6) mod 7 in
  let long_year := (first_weekday =? 3) || ((first_weekday =? 2) && is_leap y) in
  let week1_monday := if 3 <? first_weekday then first - first_weekday + 7 else first - first_weekday in
  let ord := week1_monday + (week - 1) * 7 + (day - 1) in
  if (1 <=? y) && (y <=? 9999) && (1 <=? week) && ((week <=? 52) || ((week =? 53) && long_year)) &&
     (1 <=? day) && (day <=? 7) && (1 <=? ord) && (ord <=? MAXORDINAL)
  then Some ord else None.

(** ** Scanning *)

Definition digit (c : ascii) : option Z :=
  let n := Z.of_nat (nat_of_ascii c) in
  if (48 <=? n) && (n <=? 57) then Some (n - 48) else None.

Definition is_digit (c : ascii) : bool := match digit c with Some _ => true | None => false end.

(** [parse_digits]: exactly [n] digits, with what follows them. *)
Fixpoint parse_digits (n : nat) (acc : Z) (s : list ascii) : option (Z * list ascii) :=
  match n, s with
  | O, _ => Some (acc, s)
  | S n', c :: s' => match digit c with Some d => parse_digits n' (acc * 10 + d) s' | None => None end
  | S _, [] => None
  end.

(** The character at the scan position; the terminating NUL at the end. *)
Definition peek (s : list ascii) : ascii := match s with c :: _ => c | [] => "000"%char end.

Fixpoint skip_digits (s : list ascii) : list ascii :=
  match s with c :: s' => if is_digit c then skip_digits s' else s | [] => [] end.

(** A Latin-1 string in UTF-8, the bytes the scanner sees. *)
Definition utf8 (s : string) : list ascii :=
  mjoin ((λ c, let n := nat_of_ascii c in
    if (n <? 128)%nat then [c]
    else [ascii_of_nat (192 + n / 64); ascii_of_nat (128 + n mod 64)])
    <$> String.list_ascii_of_string s).

(** ** The date *)

(** [parse_isoformat_date] on the first [len] characters; the ordinal. *)
Definition parse_isoformat_date (s : list ascii) (len : nat) : option Z :=
  '(y, p) ← parse_digits 4 0 s;
  let sep := bool_decide (peek p = "-"%char) in
  let p := if sep then drop 1 p else p in
  if decide (peek p = "W"%char) then
    '(week, p) ← parse_digits 2 0 (drop 1 p);
    if decide (length s - length p < len)%nat then
      if sep && negb (bool_decide (peek p = "-"%char)) then None
      else '(day, _) ← parse_digits 1 0 (if sep then drop 1 p else p); iso_to_ord y week day
    else iso_to_ord y week 1
  else
    '(m, p) ← parse_digits 2 0 p;
    if sep && negb (bool_decide (peek p = "-"%char)) then None
    else
      '(d, p) ← parse_digits 2 0 (if sep then drop 1 p else p);
      if bool_decide ((length s - length p)%nat = len) && valid_date y m d
      then Some (ymd2ord y m d) else None.

(** [_find_isoformat_datetime_separator] for a string of more than 6 bytes *)
Definition find_separator (s : list ascii) : option nat :=
  let len := length s in
  let at_ i := default "000"%char (s !! i) in
  if decide (len = 7%nat) then Some 7%nat
  else if decide (at_ 4%nat = "-"%char) then
    if decide (at_ 5%nat = "W"%char) then
      if decide (8 < len ∧ at_ 8 = "-"%char)%nat then
        if decide (len = 9%nat) then None
        else if decide (10 < len)%nat then
          if is_digit (at_ 10%nat) then Some 8%nat else Some 10%nat
        else Some 10%nat
      else Some 8%nat
    else Some 10%nat
  else if decide (at_ 4%nat = "W"%char) then
    let pos := (len - length (skip_digits (drop 7 s)))%nat in
    if decide (pos < 9)%nat then Some pos
    else if Nat.even pos then Some 7%nat else Some 8%nat
  else Some 8%nat.

(** ** The time *)

Record clock := { hour : Z; minute : Z; second : Z; microsecond : Z }.

Definition clock_us (c : clock) : Z :=
  ((hour c * 60 + minute c) * 60 + second c) * 1000000 + microsecond c.

Definition correction (to_parse : nat) : Z := 10 ^ (6 - Z.of_nat to_parse).

(** The fraction of [parse_hh_mm_ss_ff]: at most six digits are read, further
    ones are skipped; the flag says that something is left. *)
Definition parse_fraction (s : list ascii) (n : nat) (h m sec : Z) : option (clock * bool) :=
  let to_parse := Nat.min n 6 in
  '(us, p) ← parse_digits to_parse 0 s;
  Some ({| hour := h; minute := m; second := sec; microsecond := us * correction to_parse |},
        negb (bool_decide (peek (skip_digits p) = "000"%char))).

(** The loop of [parse_hh_mm_ss_ff] from component [i], with [n] characters
    before the end of the component.  [None] is a negative return value. *)
Fixpoint parse_components (i : nat) (fuel : nat) (sep : bool) (vals : list Z) (s : list ascii) (n : nat)
    : option (clock * bool) :=
  let at_ k := default 0 (vals !! k) in
  match fuel with
  | O => parse_fraction s n (at_ 0%nat) (at_ 1%nat) (at_ 2%nat)
  | S fuel' =>
      '(v, p) ← parse_digits 2 0 s;
      let vals := vals ++ [v] in
      let at_ k := default 0 (vals !! k) in
      let c := peek p in
      let sep := if decide (i = 0%nat) then bool_decide (c = ":"%char) else sep in
      if decide (n ≤ 3)%nat then
        Some ({| hour := at_ 0%nat; minute := at_ 1%nat; second := at_ 2%nat; microsecond := 0 |},
              negb (bool_decide (c = "000"%char)))
      else if sep && bool_decide (c = ":"%char) then
        parse_components (S i) fuel' sep vals (drop 1 p) (n - 3)
      else if bool_decide (c = "."%char) || bool_decide (c = ","%char) then
        parse_fraction (drop 1 p) (n - 3) (at_ 0%nat) (at_ 1%nat) (at_ 2%nat)
      else if negb sep then parse_components (S i) fuel' sep vals p (n - 2)
      else None
  end.

Definition parse_hh_mm_ss_ff (s : list ascii) (n : nat) : option (clock * bool) :=
  parse_components 0 3 true [] s n.

Definition tz_char (c : ascii) : bool :=
  bool_decide (c = "+"%char) || bool_decide (c = "-"%char) || bool_decide (c = "Z"%char).

(** Characters before the first time-zone character (at least one is read). *)
Fixpoint tz_pos (s : list ascii) : nat :=
  match s with
  | [] => 0
  | c :: s' => if tz_char c then 0 else S (tz_pos s')
  end.

(** [parse_isoformat_time]: the clock and the offset in microseconds. *)
Definition parse_isoformat_time (s : list ascii) : option (clock * option Z) :=
  let n := tz_pos s in
  '(t, rest) ← parse_hh_mm_ss_ff s n;
  match drop n s with
  | [] => if (rest : bool) then None else Some (t, None)
  | z :: s' =>
      if decide (z = "Z"%char) then
        if decide (peek s' = "000"%char) then Some (t, Some 0) else None
      else
        '(o, rest) ← parse_hh_mm_ss_ff s' (length s');
        if (rest : bool) then None
        else Some (t, Some ((if decide (z = "-"%char) then -1 else 1) * clock_us o))
  end.

(** ** [datetime.fromisoformat] *)

Record datetime := { local_us : Z; utcoffset : option Z }.

Definition US_PER_DAY : Z := 86400000000.

Definition valid_clock (c : clock) : bool :=
  (hour c <=? 23) && (minute c <=? 59) && (second c <=? 59).

Definition valid_offset (o : option Z) : bool :=
  match o with Some o => (- US_PER_DAY <? o) && (o <? US_PER_DAY) | None => true end.

(** Bytes of the separator character. *)
Definition separator_length (c : ascii) : nat := if (nat_of_ascii c <? 128)%nat then 1 else 2.

Definition fromisoformat (str : string) : option datetime :=
  let s := utf8 str in
  if decide (String.length str < 7)%nat then None
  else
    loc ← find_separator s;
    ord ← parse_isoformat_date s loc;
    let rest := drop loc s in
    '(t, off) ← (if decide (0 < length rest)%nat
                 then parse_isoformat_time (drop (separator_length (peek rest)) rest)
                 else Some ({| hour := 0; minute := 0; second := 0; microsecond := 0 |}, None));
    if valid_clock t && valid_offset off
    then Some {| local_us := (ord - 1) * US_PER_DAY + clock_us t; utcoffset := off |}
    else None.

(** The instant of an aware datetime, in microseconds. *)
Definition instant (d : datetime) : Z := local_us d - default 0 (utcoffset d).
