(* ===== verification/Json.v ===== *)
(** * [json.loads]

    The decoder of Python's standard library on text as a list of code points:
    which inputs it accepts, what strings, objects and arrays it returns, and
    where it gives up (nesting beyond the interpreter's recursion limit, integer
    literals beyond the limit on digits).  Numbers, truth values and null carry
    no text and are one constructor.  Before it, [len], [isprintable] and
    [casefold] of texts, [repr] of floats and the sizes of [json.dumps]. *)

From Stdlib Require Import ZArith Ascii String SpecFloat.
From Stdlib Require Import ZArith Ascii String.
From S2P Require Import Prelude PyVal.
Local Open Scope Z_scope.

Definition code (c : ascii) : Z := Z.of_nat (nat_of_ascii c).

(** [str.isprintable] *)
Definition is_printable_char (c : ascii) : bool :=
  ((32 <=? code c) && (code c <=? 126)) || ((161 <=? code c) && negb (code c =? 173)).
Definition isprintable (s : string) : bool := forallb is_printable_char (list_ascii_of_string s).

(** [len(s.encode("utf-8"))] *)
Definition utf8_width (c : ascii) : Z := if code c <? 128 then 1 else 2.
Definition utf8_length (s : string) : Z := foldr (λ c n, utf8_width c + n) 0 (list_ascii_of_string s).

(** [len(s)] *)
Definition len (s : string) : Z := Z.of_nat (String.length s).

(** [str.casefold]; MICRO SIGN, whose folding is above 255, is left alone *)
Definition casefold_char (c : ascii) : string :=
  if code c =? 223 then "ss"
  else if ((65 <=? code c) && (code c <=? 90)) || ((192 <=? code c) && (code c <=? 222) && negb (code c =? 215))
  then String (ascii_of_nat (nat_of_ascii c + 32)) EmptyString else String c EmptyString.
Definition casefold (s : string) : string := String.concat "" (casefold_char <$> list_ascii_of_string s).

(** [s.replace(a, b)] for single characters *)
Definition replace_char (a b : ascii) (s : string) : string :=
  string_of_list_ascii ((λ c, if Ascii.eqb c a then b else c) <$> list_ascii_of_string s).

(** ** The size of a JSON text *)

(** The width of a character inside a JSON string, [ensure_ascii=False] *)
Definition json_char_width (c : ascii) : Z :=
  let n := code c in
  if (n =? 34) || (n =? 92) then 2
  else if (n =? 8) || (n =? 9) || (n =? 10) || (n =? 12) || (n =? 13) then 2
  else if n <? 32 then 6 else utf8_width c.

Definition json_string_size (s : string) : Z :=
  2 + foldr (λ c n, json_char_width c + n) 0 (list_ascii_of_string s).

(** The number of decimal digits of a positive number *)
Fixpoint digits_fuel (fuel : nat) (n : Z) : Z :=
  match fuel with
  | O => 1
  | S fuel' => if n <? 10 then 1 else 1 + digits_fuel fuel' (n / 10)
  end.
Definition decimal_digits (n : Z) : Z := digits_fuel (Z.to_nat (Z.log2 n)) n.

(** The binary64 nearest to [m * 10^k] *)
Definition float_of_decimal (m k : Z) : spec_float :=
  if m =? 0 then float_zero
  else if 0 <=? k then binary_normalize 53 1024 (m * 10 ^ k) 0 false
  else let '(q, e, l) := SFdiv_core_binary 53 1024 m 0 (10 ^ (- k)) 0 in binary_round_aux 53 1024 false q e l.

(** The decimal exponent: [10^(x-1) <= num/den < 10^x] *)
Fixpoint decimal_exponent (fuel : nat) (x num den : Z) : Z :=
  match fuel with
  | O => x
  | S fuel' =>
      if (if 0 <=? x then den * 10 ^ x <=? num else den <=? num * 10 ^ (- x)) then
        decimal_exponent fuel' (x + 1) num den
      else if (if 0 <=? x - 1 then num <? den * 10 ^ (x - 1) else num * 10 ^ (- (x - 1)) <? den) then
        decimal_exponent fuel' (x - 1) num den
      else x
  end.

(** [repr] of a positive finite float: the least number of digits that reads
    back as the float, and the position of the decimal point. *)
Definition reads_back (f : spec_float) (num den x n : Z) : option Z :=
  let k := x - n in
  let scaled_num := if 0 <=? k then num else num * 10 ^ (- k) in
  let scaled_den := if 0 <=? k then den * 10 ^ k else den in
  let lo := scaled_num / scaled_den in
  let good m := match SFcompare (float_of_decimal m k) f with Some Eq => true | _ => false end in
  match good lo, good (lo + 1) with
  | true, _ => Some (if lo =? 10 ^ n then x + 1 else x)
  | false, true => Some (if lo + 1 =? 10 ^ n then x + 1 else x)
  | false, false => None
  end.

Fixpoint shortest_digits (fuel : nat) (f : spec_float) (num den x n : Z) : Z * Z :=
  match fuel with
  | O => (17, x)
  | S fuel' =>
      match reads_back f num den x n with
      | Some x' => (n, x')
      | None => shortest_digits fuel' f num den x (n + 1)
      end
  end.

(** The length of [repr] with [n] digits and value [0.d1..dn * 10^x] *)
Definition repr_length (n x : Z) : Z :=
  if (-3 <=? x) && (x <=? 16) then
    if x <=? 0 then 2 + (- x) + n
    else if x <? n then n + 1 else x + 2
  else let e := Z.abs (x - 1) in
       (if n =? 1 then 1 else n + 1) + 2 + (if e <? 100 then 2 else 3).

Definition float_repr_length (f : spec_float) : Z :=
  match f with
  | S754_zero s => if s then 4 else 3
  | S754_infinity s => if s then 4 else 3
  | S754_nan => 3
  | S754_finite s m e =>
      let num := if 0 <=? e then Z.pos m * 2 ^ e else Z.pos m in
      let den := if 0 <=? e then 1 else 2 ^ (- e) in
      let x := decimal_exponent (Z.to_nat 800) (Z.log2 num * 3 / 10 - Z.log2 den * 3 / 10) num den in
      let '(n, x) := shortest_digits 17 (S754_finite false m e) num den x 1 in
      (if s then 1 else 0) + repr_length n x
  end.

Definition int_size (z : Z) : Z := (if z <? 0 then 1 else 0) + decimal_digits (Z.abs z).

(** Brackets and commas around [n] items of the given total size *)
Definition bracketed (n : nat) (total : Z) : Z := 2 + total + (if (n =? 0)%nat then 0 else Z.of_nat n - 1).

(** [len(json.dumps(v, ensure_ascii=False, separators=(",", ":")).encode("utf-8"))]
    of a value made of the types that a JSON-mode dump produces *)
Fixpoint json_size (v : pyval) : Z :=
  match v with
  | VBool b => if b then 4 else 5
  | VInt z => int_size z
  | VFloat f => float_repr_length f
  | VStr s | VEnum _ s => json_string_size s
  | VList l | VTuple l => bracketed (length l) (foldr Z.add 0 (json_size <$> l))
  | VDict kvs =>
      bracketed (length kvs)
        (foldr Z.add 0 ((λ '(k, v), json_string_size (default EmptyString (as_str k)) + 1 + json_size v) <$> kvs))
  | _ => 4
  end.

(** ** Canonical text

    [json.dumps(v, allow_nan=False, sort_keys=True, separators=(",", ":"))] as
    its list of tokens: [None] when it raises.  Two texts are equal exactly when
    their tokens are, since [repr] tells all finite floats apart and a number
    with a point or an exponent from an integer. *)

Inductive token : Type :=
| TNull | TBoolean (b : bool) | TInteger (z : Z) | TNumber (f : spec_float) | TText (s : string)
| TOpenArray | TCloseArray | TOpenObject | TCloseObject.

#[global] Instance spec_float_eq_dec : EqDecision spec_float.
Proof. solve_decision. Defined.
#[global] Instance token_eq_dec : EqDecision token.
Proof. solve_decision. Defined.

(** The order of [sorted] on text *)
Definition str_le (a b : string) : Prop := String.leb a b = true.
#[global] Instance str_le_dec : RelDecision str_le.
Proof. intros a b. unfold str_le. apply _. Defined.

Definition key_le {A} (a b : string * A) : Prop := String.leb a.1 b.1 = true.
#[global] Instance key_le_dec {A} : RelDecision (@key_le A).
Proof. intros a b. unfold key_le. apply _. Defined.

Definition object_tokens (entries : list (string * list token)) : list token :=
  [TOpenObject] ++ mjoin ((λ e, TText e.1 :: e.2) <$> merge_sort key_le entries) ++ [TCloseObject].

Fixpoint json_tokens (v : pyval) : option (list token) :=
  match v with
  | VNone => Some [TNull]
  | VBool b => Some [TBoolean b]
  | VInt z => Some [TInteger z]
  | VFloat f => if isfinite f then Some [TNumber f] else None
  | VStr s | VEnum _ s => Some [TText s]
  | VList l | VTuple l => (λ ts, [TOpenArray] ++ mjoin ts ++ [TCloseArray]) <$> mapM json_tokens l
  | VDict kvs =>
      object_tokens <$> mapM (λ '(k, v), as_str k ≫= λ s, (λ ts, (s, ts)) <$> json_tokens v) kvs
  | _ => None
  end.

Set Warnings "-register-all".
Local Open Scope Z_scope.

(** Text as code points, which JSON escapes can put beyond a byte *)
Abbreviation ustr := (list Z).

Definition ustr_of (s : string) : ustr := (λ c, Z.of_nat (nat_of_ascii c)) <$> list_ascii_of_string s.

Inductive json : Type :=
| JStr (s : ustr)
| JObj (kvs : list (ustr * json))
| JArr (l : list json)
| JAtom.

(** [JError] is a JSONDecodeError, [JLimit] a RecursionError or ValueError. *)
Inductive jres (A : Type) : Type :=
| JOk (a : A)
| JError
| JLimit
| JOutOfFuel.
Arguments JOk {A} a.
Arguments JError {A}.
Arguments JLimit {A}.
Arguments JOutOfFuel {A}.

Definition jbind {A B} (m : jres A) (k : A → jres B) : jres B :=
  match m with JOk a => k a | JError => JError | JLimit => JLimit | JOutOfFuel => JOutOfFuel end.

(** ** Characters *)

Definition between (lo hi c : Z) : bool := (lo <=? c) && (c <=? hi).
Definition is_jdigit (c : Z) : bool := between 48 57 c.
Definition is_jspace (c : Z) : bool := (c =? 32) || (c =? 9) || (c =? 10) || (c =? 13).

Fixpoint drop_while (f : Z → bool) (s : ustr) : ustr :=
  match s with
  | c :: s' => if f c then drop_while f s' else s
  | [] => []
  end.

Definition skip_ws (s : ustr) : ustr := drop_while is_jspace s.

(** The rest of the text after a fixed word *)
Fixpoint strip_prefix (w s : ustr) : option ustr :=
  match w, s with
  | [], _ => Some s
  | c :: w', d :: s' => if c =? d then strip_prefix w' s' else None
  | _, [] => None
  end.

(** The rest of the text after one given character *)
Definition expect (c : Z) (s : ustr) : option ustr :=
  match s with d :: s' => if d =? c then Some s' else None | [] => None end.

(** ** Strings *)

Definition hex_digit (c : Z) : option Z :=
  if is_jdigit c then Some (c - 48)
  else if between 97 102 c then Some (c - 87)
  else if between 65 70 c then Some (c - 55)
  else None.

Definition hex4 (a b c d : Z) : option Z :=
  a ← hex_digit a; b ← hex_digit b; c ← hex_digit c; d ← hex_digit d;
  Some (((a * 16 + b) * 16 + c) * 16 + d).

(** The one-letter escapes *)
Definition simple_escape (e : Z) : option Z :=
  if (e =? 34) || (e =? 92) || (e =? 47) then Some e
  else if e =? 98 then Some 8
  else if e =? 102 then Some 12
  else if e =? 110 then Some 10
  else if e =? 114 then Some 13
  else if e =? 116 then Some 9
  else None.

Definition cons_fst (c : Z) (r : option (ustr * ustr)) : option (ustr * ustr) :=
  match r with Some (s, rest) => Some (c :: s, rest) | None => None end.

(** [scanstring] after the opening quote: the text and what follows the closing quote *)
Fixpoint string_body (s : ustr) : option (ustr * ustr) :=
  match s with
  | [] => None
  | c :: s1 =>
      if c =? 34 then Some ([], s1)
      else if c =? 92 then
        match s1 with
        | [] => None
        | e :: s2 =>
            if e =? 117 then
              match s2 with
              | h1 :: h2 :: h3 :: h4 :: s3 =>
                  match hex4 h1 h2 h3 h4 with
                  | None => None
                  | Some u =>
                      match s3 with
                      | b :: v :: l1 :: l2 :: l3 :: l4 :: s4 =>
                          if between 55296 56319 u && (b =? 92) && (v =? 117) then
                            match hex4 l1 l2 l3 l4 with
                            | None => None
                            | Some w =>
                                if between 56320 57343 w
                                then cons_fst (65536 + (u - 55296) * 1024 + (w - 56320)) (string_body s4)
                                else cons_fst u (string_body s3)
                            end
                          else cons_fst u (string_body s3)
                      | _ => cons_fst u (string_body s3)
                      end
                  end
              | _ => None
              end
            else match simple_escape e with
                 | Some x => cons_fst x (string_body s2)
                 | None => None
                 end
        end
      else if c <? 32 then None
      else cons_fst c (string_body s1)
  end.

(** ** Numbers *)

Definition MAX_STR_DIGITS : nat := 4300.

Definition starts_digit (s : ustr) : bool := match s with c :: _ => is_jdigit c | [] => false end.

(** The fraction and the exponent: the rest, and whether there was either *)
Definition skip_fraction (s : ustr) : ustr * bool :=
  match expect 46 s with
  | Some s' => if starts_digit s' then (drop_while is_jdigit s', true) else (s, false)
  | None => (s, false)
  end.

Definition skip_exponent (s : ustr) : ustr * bool :=
  match s with
  | c :: s' =>
      if (c =? 101) || (c =? 69) then
        let s'' := match s' with d :: t => if (d =? 43) || (d =? 45) then t else s' | [] => [] end in
        if starts_digit s'' then (drop_while is_jdigit s'', true) else (s, false)
      else (s, false)
  | [] => (s, false)
  end.

(** [_match_number]: the text after the literal *)
Definition parse_number (s : ustr) : jres ustr :=
  let digits := default s (expect 45 s) in
  match digits with
  | c :: s1 =>
      if is_jdigit c then
        let after := if c =? 48 then s1 else drop_while is_jdigit s1 in
        let '(after_frac, frac) := skip_fraction after in
        let '(after_exp, exp) := skip_exponent after_frac in
        if negb (frac || exp) && (MAX_STR_DIGITS <? length digits - length after)%nat then JLimit
        else JOk after_exp
      else JError
  | [] => JError
  end.

(** ** Values *)

Fixpoint assoc_put (k : ustr) (v : json) (kvs : list (ustr * json)) : list (ustr * json) :=
  match kvs with
  | [] => [(k, v)]
  | (k', v') :: kvs' => if decide (k' = k) then (k', v) :: kvs' else (k', v') :: assoc_put k v kvs'
  end.

Definition word (s : string) : ustr := ustr_of s.

(** The constants of [scan_once] *)
Definition parse_constant (s : ustr) : option ustr :=
  head (omap (λ w, strip_prefix (word w) s) ["null"; "true"; "false"; "NaN"; "Infinity"; "-Infinity"]).

(** [scan_once] and the two loops inside objects and arrays.  [depth] counts the
    open containers, [limit] is what the interpreter's recursion limit leaves. *)
Fixpoint parse_value (limit fuel depth : nat) (s : ustr) {struct fuel} : jres (json * ustr) :=
  match fuel with
  | O => JOutOfFuel
  | S fuel' =>
      match s with
      | [] => JError
      | c :: s1 =>
          if c =? 34 then
            match string_body s1 with Some (t, rest) => JOk (JStr t, rest) | None => JError end
          else if c =? 123 then
            if (limit <=? depth)%nat then JLimit
            else match skip_ws s1 with
                 | [] => JError
                 | d :: s2 =>
                     if d =? 125 then JOk (JObj [], s2)
                     else parse_members limit fuel' (S depth) [] (d :: s2)
                 end
          else if c =? 91 then
            if (limit <=? depth)%nat then JLimit
            else match skip_ws s1 with
                 | [] => JError
                 | d :: s2 =>
                     if d =? 93 then JOk (JArr [], s2)
                     else parse_elements limit fuel' (S depth) [] (d :: s2)
                 end
          else match parse_constant s with
               | Some rest => JOk (JAtom, rest)
               | None => jbind (parse_number s) (λ rest, JOk (JAtom, rest))
               end
      end
  end
with parse_members (limit fuel depth : nat) (acc : list (ustr * json)) (s : ustr) {struct fuel} : jres (json * ustr) :=
  match fuel with
  | O => JOutOfFuel
  | S fuel' =>
      match expect 34 s ≫= string_body with
      | None => JError
      | Some (k, s2) =>
          match expect 58 (skip_ws s2) with
          | None => JError
          | Some s3 =>
              jbind (parse_value limit fuel' depth (skip_ws s3)) (λ '(v, s4),
                match expect 125 (skip_ws s4), expect 44 (skip_ws s4) with
                | Some s5, _ => JOk (JObj (assoc_put k v acc), s5)
                | None, Some s5 => parse_members limit fuel' depth (assoc_put k v acc) (skip_ws s5)
                | None, None => JError
                end)
          end
      end
  end
with parse_elements (limit fuel depth : nat) (acc : list json) (s : ustr) {struct fuel} : jres (json * ustr) :=
  match fuel with
  | O => JOutOfFuel
  | S fuel' =>
      jbind (parse_value limit fuel' depth s) (λ '(v, s1),
        match expect 93 (skip_ws s1), expect 44 (skip_ws s1) with
        | Some s2, _ => JOk (JArr (acc ++ [v]), s2)
        | None, Some s2 => parse_elements limit fuel' depth (acc ++ [v]) (skip_ws s2)
        | None, None => JError
        end)
  end.

(** [json.loads] *)
Definition json_loads (limit : nat) (s : ustr) : jres json :=
  jbind (parse_value limit (2 + 2 * length s) 0 (skip_ws s)) (λ '(v, rest),
    match skip_ws rest with [] => JOk v | _ => JError end).

(** ** The fuel is enough *)

Lemma drop_while_length f s : (length (drop_while f s) ≤ length s)%nat.
Proof. induction s as [|c s IH]; simpl; [done|]. destruct (f c); simpl; lia. Qed.

Lemma skip_ws_length s : (length (skip_ws s) ≤ length s)%nat.
Proof. apply drop_while_length. Qed.

Lemma strip_prefix_length w s rest : strip_prefix w s = Some rest → (length rest + length w = length s)%nat.
Proof.
  revert s. induction w as [|c w IH]; intros [|d s]; simpl; try done; try (intros [= <-]; simpl; lia).
  destruct (c =? d); [|done]. intros H%IH. lia.
Qed.

Lemma parse_constant_length s rest : parse_constant s = Some rest → (length rest < length s)%nat.
Proof.
  unfold parse_constant. intros H.
  assert (rest ∈ omap (λ w, strip_prefix (word w) s) ["null"; "true"; "false"; "NaN"; "Infinity"; "-Infinity"]) as Hin.
  { destruct (omap _ _); [done|]. injection H as ->. by left. }
  apply list_elem_of_omap in Hin as (w & Hw & Hs). apply strip_prefix_length in Hs.
  repeat (apply elem_of_cons in Hw as [->|Hw]; [simpl in Hs; lia|]). by apply elem_of_nil in Hw.
Qed.

Lemma cons_fst_Some c r t rest : cons_fst c r = Some (t, rest) → ∃ t', r = Some (t', rest).
Proof. destruct r as [[t' rest']|]; simpl; [|done]. intros [= _ <-]. eauto. Qed.

Lemma string_body_length n : ∀ s t rest,
  (length s ≤ n)%nat → string_body s = Some (t, rest) → (length rest < length s)%nat.
Proof.
  induction n as [|n IH]; intros s t rest Hn; [by destruct s; simpl in *; [|lia]|].
  destruct s as [|c s1]; [done|]. cbn [length string_body] in *.
  destruct (c =? 34); [intros [= _ <-]; lia|]. destruct (c =? 92).
  2: { destruct (c <? 32); [done|]. intros (t' & Ht)%cons_fst_Some. apply IH in Ht; lia. }
  destruct s1 as [|e s2]; [done|]. cbn [length] in *. destruct (e =? 117).
  2: { destruct (simple_escape e); [|done]. intros (t' & Ht)%cons_fst_Some. apply IH in Ht; lia. }
  destruct s2 as [|h1 [|h2 [|h3 [|h4 s3]]]]; try done. cbn [length] in *. destruct (hex4 h1 h2 h3 h4) as [u|]; [|done].
  assert (cons_fst u (string_body s3) = Some (t, rest) → (length rest < length s3)%nat) as Hs3
    by (intros (t' & Ht)%cons_fst_Some; apply IH in Ht; lia).
  destruct s3 as [|b [|v [|l1 [|l2 [|l3 [|l4 s4]]]]]]; try (intros H; apply Hs3 in H; cbn [length] in *; lia).
  destruct (_ && _); [|intros H; apply Hs3 in H; cbn [length] in *; lia].
  destruct (hex4 l1 l2 l3 l4) as [w|]; [|done].
  destruct (between 56320 57343 w); [|intros H; apply Hs3 in H; cbn [length] in *; lia].
  intros (t' & Ht)%cons_fst_Some. cbn [length] in *. apply IH in Ht; lia.
Qed.

Lemma expect_length c s rest : expect c s = Some rest → (length s = S (length rest))%nat.
Proof. destruct s as [|d s]; simpl; [done|]. destruct (d =? c); [by intros [= <-]|done]. Qed.

Lemma skip_fraction_length s : (length (skip_fraction s).1 ≤ length s)%nat.
Proof.
  unfold skip_fraction. destruct (expect 46 s) as [s'|] eqn:H; [|done]. apply expect_length in H.
  destruct (starts_digit s'); simpl; [|done]. pose proof (drop_while_length is_jdigit s'). lia.
Qed.

Lemma skip_exponent_length s : (length (skip_exponent s).1 ≤ length s)%nat.
Proof.
  unfold skip_exponent. destruct s as [|c s']; [done|]. destruct (_ || _); [|done].
  set (s'' := match s' with [] => [] | d :: t => if (d =? 43) || (d =? 45) then t else s' end).
  assert (length s'' ≤ length s')%nat by (unfold s''; destruct s' as [|d t]; [done|]; destruct (_ || _); simpl; lia).
  destruct (starts_digit s''); simpl; [|done]. pose proof (drop_while_length is_jdigit s''). lia.
Qed.

Lemma parse_number_length s rest : parse_number s = JOk rest → (length rest < length s)%nat.
Proof.
  unfold parse_number. set (digits := default s (expect 45 s)).
  assert (length digits ≤ length s)%nat as Hd.
  { unfold digits. destruct (expect 45 s) eqn:H; simpl; [apply expect_length in H; lia|done]. }
  destruct digits as [|c s1]; [done|]. destruct (is_jdigit c); [|done]. simpl in Hd.
  set (after := if c =? 48 then s1 else drop_while is_jdigit s1).
  assert (length after ≤ length s1)%nat by (unfold after; destruct (c =? 48); [done|apply drop_while_length]).
  pose proof (skip_fraction_length after). destruct (skip_fraction after) as [s2 fr].
  pose proof (skip_exponent_length s2). destruct (skip_exponent s2) as [s3 ex].
  destruct (_ && _); [done|]. intros [= <-]. simpl in *. lia.
Qed.

Lemma jbind_JOk {A B} (m : jres A) (k : A → jres B) b : jbind m k = JOk b ↔ ∃ a, m = JOk a ∧ k a = JOk b.
Proof. destruct m; simpl; naive_solver. Qed.

(** A value leaves less text than it was given. *)
Lemma parse_length limit fuel :
  (∀ depth s v rest, parse_value limit fuel depth s = JOk (v, rest) → (length rest < length s)%nat) ∧
  (∀ depth acc s v rest, parse_members limit fuel depth acc s = JOk (v, rest) → (length rest < length s)%nat) ∧
  (∀ depth acc s v rest, parse_elements limit fuel depth acc s = JOk (v, rest) → (length rest < length s)%nat).
Proof.
  induction fuel as [|fuel (IHv & IHm & IHe)]; [done|]. split_and!.
  - intros depth [|c s1] v rest; [done|]. cbn [parse_value].
    destruct (c =? 34).
    { destruct (string_body s1) as [[t r]|] eqn:H; [|done]. intros [= _ <-].
      apply (string_body_length (length s1)) in H; [simpl; lia|done]. }
    pose proof (skip_ws_length s1) as Hws.
    destruct (c =? 123); [|destruct (c =? 91)].
    1,2: destruct (limit <=? depth)%nat; [done|]; destruct (skip_ws s1) as [|d s2]; [done|]; simpl in Hws;
         destruct (_ =? _); [intros [= _ <-]; simpl; lia|];
         intros H; (apply IHm in H || apply IHe in H); simpl in *; lia.
    destruct (parse_constant _) as [r|] eqn:H; [apply parse_constant_length in H; by intros [= _ <-]|].
    rewrite jbind_JOk. intros (r & Hn & [= _ <-]). by apply parse_number_length.
  - intros depth acc s v rest. cbn [parse_members].
    destruct (expect 34 s) as [s1|] eqn:E1; [|done]. simpl. apply expect_length in E1.
    destruct (string_body s1) as [[k s2]|] eqn:E2; [|done]. apply (string_body_length (length s1)) in E2; [|done].
    destruct (expect 58 (skip_ws s2)) as [s3|] eqn:E3; [|done]. apply expect_length in E3.
    rewrite jbind_JOk. intros ([v' s4] & H4%IHv & H).
    pose proof (skip_ws_length s2). pose proof (skip_ws_length s3). pose proof (skip_ws_length s4).
    destruct (expect 125 (skip_ws s4)) as [s5|] eqn:E5.
    { apply expect_length in E5. injection H as _ <-. lia. }
    destruct (expect 44 (skip_ws s4)) as [s5|] eqn:E6; [|done]. apply expect_length in E6. apply IHm in H.
    pose proof (skip_ws_length s5). lia.
  - intros depth acc s v rest. cbn [parse_elements]. rewrite jbind_JOk. intros ([v' s1] & H1%IHv & H).
    pose proof (skip_ws_length s1). destruct (expect 93 (skip_ws s1)) as [s2|] eqn:E2.
    { apply expect_length in E2. injection H as _ <-. lia. }
    destruct (expect 44 (skip_ws s1)) as [s2|] eqn:E3; [|done]. apply expect_length in E3. apply IHe in H.
    pose proof (skip_ws_length s2). lia.
Qed.

Lemma jbind_fuel {A B} (m : jres A) (k : A → jres B) :
  m ≠ JOutOfFuel → (∀ a, m = JOk a → k a ≠ JOutOfFuel) → jbind m k ≠ JOutOfFuel.
Proof. destruct m; simpl; naive_solver. Qed.

Lemma parse_number_fuel s : parse_number s ≠ JOutOfFuel.
Proof.
  unfold parse_number. destruct (default _ _) as [|c s1]; [done|]. destruct (is_jdigit c); [|done].
  destruct (skip_fraction _), (skip_exponent _). by destruct (_ && _).
Qed.

(** Each call consumes a character before it calls again. *)
Lemma parse_fuel limit fuel :
  (∀ depth s, (2 * length s < fuel)%nat → parse_value limit fuel depth s ≠ JOutOfFuel) ∧
  (∀ depth acc s, (2 * length s < fuel)%nat → parse_members limit fuel depth acc s ≠ JOutOfFuel) ∧
  (∀ depth acc s, (2 * length s + 1 < fuel)%nat → parse_elements limit fuel depth acc s ≠ JOutOfFuel).
Proof.
  induction fuel as [|fuel (IHv & IHm & IHe)]; [split_and!; intros; lia|]. split_and!.
  - intros depth [|c s1] Hl; [done|]. cbn [parse_value]. cbn [length] in Hl. pose proof (skip_ws_length s1) as Hws.
    destruct (c =? 34); [by destruct (string_body s1) as [[]|]|].
    destruct (c =? 123); [|destruct (c =? 91)].
    1,2: destruct (limit <=? depth)%nat; [done|]; destruct (skip_ws s1) as [|d s2]; [done|];
         destruct (_ =? _); [done|]; (apply IHm || apply IHe); simpl in *; lia.
    destruct (parse_constant _); [done|]. apply jbind_fuel; [apply parse_number_fuel|done].
  - intros depth acc s Hl. cbn [parse_members]. destruct (expect 34 s) as [s1|] eqn:E1; [|done]. simpl.
    apply expect_length in E1. destruct (string_body s1) as [[k s2]|] eqn:E2; [|done].
    apply (string_body_length (length s1)) in E2; [|done].
    destruct (expect 58 (skip_ws s2)) as [s3|] eqn:E3; [|done]. apply expect_length in E3.
    pose proof (skip_ws_length s2). pose proof (skip_ws_length s3).
    apply jbind_fuel; [apply IHv; lia|]. intros [v s4] H4. apply parse_length in H4. pose proof (skip_ws_length s4).
    destruct (expect 125 _); [done|]. destruct (expect 44 (skip_ws s4)) as [s5|] eqn:E5; [|done].
    apply expect_length in E5. pose proof (skip_ws_length s5). apply IHm. lia.
  - intros depth acc s Hl. cbn [parse_elements]. apply jbind_fuel; [apply IHv; lia|]. intros [v s1] H1.
    apply parse_length in H1. pose proof (skip_ws_length s1). destruct (expect 93 _); [done|].
    destruct (expect 44 (skip_ws s1)) as [s2|] eqn:E2; [|done]. apply expect_length in E2.
    pose proof (skip_ws_length s2). apply IHe. lia.
Qed.

Lemma json_loads_total limit s : json_loads limit s ≠ JOutOfFuel.
Proof.
  unfold json_loads. apply jbind_fuel.
  - apply parse_fuel. pose proof (skip_ws_length s). lia.
  - intros [v rest] _. by destruct (skip_ws rest).
Qed.
