(* ===== verification/Contracts.v ===== *)
(** * Contracts: the typed vocabulary of the runtime

    [workbench_contracts.models]: the enumerations, the action, graph, result
    and verification records, and the model validators that run whenever a
    record is validated.  Enumerations are generated one module per class with
    the source's members and string values. *)

From Stdlib Require Import ZArith.
From S2P Require Import Prelude PyVal.
Local Open Scope Z_scope.

(** ** Enumerations *)

Module ActionType.
Inductive t : Type :=
| OBSERVE | GRASP | PLACE | ASK_CONFIRM | EXPRESS | STOP | NAVIGATE | OPEN | CLOSE.
#[global] Instance eq_dec : EqDecision t.
Proof. solve_decision. Defined.
#[global] Instance enum : StrEnum t := {|
  value x := match x with
    | OBSERVE => "observe"
    | GRASP => "grasp"
    | PLACE => "place"
    | ASK_CONFIRM => "ask_confirm"
    | EXPRESS => "express"
    | STOP => "stop"
    | NAVIGATE => "navigate"
    | OPEN => "open"
    | CLOSE => "close"
    end;
  members := [OBSERVE; GRASP; PLACE; ASK_CONFIRM; EXPRESS; STOP; NAVIGATE; OPEN; CLOSE]
|}.
#[global] Instance laws : StrEnumLaws t.
Proof. solve_enum_laws. Qed.
End ActionType.

Module ActionOutcome.
Inductive t : Type :=
| COMPLETED | FAILED | CANCELED | SAFE_STOP | TIMEOUT.
#[global] Instance eq_dec : EqDecision t.
Proof. solve_decision. Defined.
#[global] Instance enum : StrEnum t := {|
  value x := match x with
    | COMPLETED => "completed"
    | FAILED => "failed"
    | CANCELED => "canceled"
    | SAFE_STOP => "safe_stop"
    | TIMEOUT => "timeout"
    end;
  members := [COMPLETED; FAILED; CANCELED; SAFE_STOP; TIMEOUT]
|}.
#[global] Instance laws : StrEnumLaws t.
Proof. solve_enum_laws. Qed.
End ActionOutcome.

Module DispatchState.
Inductive t : Type :=
| NOT_SENT | SENT | SEND_FAILED.
#[global] Instance eq_dec : EqDecision t.
Proof. solve_decision. Defined.
#[global] Instance enum : StrEnum t := {|
  value x := match x with
    | NOT_SENT => "not_sent"
    | SENT => "sent"
    | SEND_FAILED => "send_failed"
    end;
  members := [NOT_SENT; SENT; SEND_FAILED]
|}.
#[global] Instance laws : StrEnumLaws t.
Proof. solve_enum_laws. Qed.
End DispatchState.

Module DeviceState.
Inductive t : Type :=
| UNCONFIRMED | CONFIRMED | REJECTED | STOPPED.
#[global] Instance eq_dec : EqDecision t.
Proof. solve_decision. Defined.
#[global] Instance enum : StrEnum t := {|
  value x := match x with
    | UNCONFIRMED => "unconfirmed"
    | CONFIRMED => "confirmed"
    | REJECTED => "rejected"
    | STOPPED => "stopped"
    end;
  members := [UNCONFIRMED; CONFIRMED; REJECTED; STOPPED]
|}.
#[global] Instance laws : StrEnumLaws t.
Proof. solve_enum_laws. Qed.
End DeviceState.

Module ClockId.
Inductive t : Type :=
| MONOTONIC | WALL.
#[global] Instance eq_dec : EqDecision t.
Proof. solve_decision. Defined.
#[global] Instance enum : StrEnum t := {|
  value x := match x with
    | MONOTONIC => "monotonic"
    | WALL => "wall"
    end;
  members := [MONOTONIC; WALL]
|}.
#[global] Instance laws : StrEnumLaws t.
Proof. solve_enum_laws. Qed.
End ClockId.

Module WorldBelief.
Inductive t : Type :=
| OBSERVED | INFERRED | STALE | LOST.
#[global] Instance eq_dec : EqDecision t.
Proof. solve_decision. Defined.
#[global] Instance enum : StrEnum t := {|
  value x := match x with
    | OBSERVED => "observed"
    | INFERRED => "inferred"
    | STALE => "stale"
    | LOST => "lost"
    end;
  members := [OBSERVED; INFERRED; STALE; LOST]
|}.
#[global] Instance laws : StrEnumLaws t.
Proof. solve_enum_laws. Qed.
End WorldBelief.

Module VerificationStatus.
Inductive t : Type :=
| CONFIRMED | REFUTED | INSUFFICIENT_EVIDENCE.
#[global] Instance eq_dec : EqDecision t.
Proof. solve_decision. Defined.
#[global] Instance enum : StrEnum t := {|
  value x := match x with
    | CONFIRMED => "confirmed"
    | REFUTED => "refuted"
    | INSUFFICIENT_EVIDENCE => "insufficient_evidence"
    end;
  members := [CONFIRMED; REFUTED; INSUFFICIENT_EVIDENCE]
|}.
#[global] Instance laws : StrEnumLaws t.
Proof. solve_enum_laws. Qed.
End VerificationStatus.

Module ReasonCode.
Inductive t : Type :=
| GOAL_SATISFIED | GOAL_NOT_SATISFIED | TARGET_NOT_OBSERVED
| CONFIDENCE_BELOW_THRESHOLD | CONFLICTING_OBSERVATIONS | EVIDENCE_MISSING
| STALE_OBSERVATION.
#[global] Instance eq_dec : EqDecision t.
Proof. solve_decision. Defined.
#[global] Instance enum : StrEnum t := {|
  value x := match x with
    | GOAL_SATISFIED => "goal_satisfied"
    | GOAL_NOT_SATISFIED => "goal_not_satisfied"
    | TARGET_NOT_OBSERVED => "target_not_observed"
    | CONFIDENCE_BELOW_THRESHOLD => "confidence_below_threshold"
    | CONFLICTING_OBSERVATIONS => "conflicting_observations"
    | EVIDENCE_MISSING => "evidence_missing"
    | STALE_OBSERVATION => "stale_observation"
    end;
  members := [GOAL_SATISFIED; GOAL_NOT_SATISFIED; TARGET_NOT_OBSERVED; CONFIDENCE_BELOW_THRESHOLD; CONFLICTING_OBSERVATIONS; EVIDENCE_MISSING; STALE_OBSERVATION]
|}.
#[global] Instance laws : StrEnumLaws t.
Proof. solve_enum_laws. Qed.
End ReasonCode.

Module RecoveryHint.
Inductive t : Type :=
| RE_OBSERVE | RETRY_ACTION | ASK_CONFIRM | ABORT | NONE.
#[global] Instance eq_dec : EqDecision t.
Proof. solve_decision. Defined.
#[global] Instance enum : StrEnum t := {|
  value x := match x with
    | RE_OBSERVE => "re_observe"
    | RETRY_ACTION => "retry_action"
    | ASK_CONFIRM => "ask_confirm"
    | ABORT => "abort"
    | NONE => "none"
    end;
  members := [RE_OBSERVE; RETRY_ACTION; ASK_CONFIRM; ABORT; NONE]
|}.
#[global] Instance laws : StrEnumLaws t.
Proof. solve_enum_laws. Qed.
End RecoveryHint.

Module McuFaultCode.
Inductive t : Type :=
| NONE | ACK_TIMEOUT | STOP_TIMEOUT | STOP_REJECTED | LINK_LOST | DUPLICATE_FRAME
| WATCHDOG_EXPIRED | MALFORMED_FRAME.
#[global] Instance eq_dec : EqDecision t.
Proof. solve_decision. Defined.
#[global] Instance enum : StrEnum t := {|
  value x := match x with
    | NONE => "none"
    | ACK_TIMEOUT => "ack_timeout"
    | STOP_TIMEOUT => "stop_timeout"
    | STOP_REJECTED => "stop_rejected"
    | LINK_LOST => "link_lost"
    | DUPLICATE_FRAME => "duplicate_frame"
    | WATCHDOG_EXPIRED => "watchdog_expired"
    | MALFORMED_FRAME => "malformed_frame"
    end;
  members := [NONE; ACK_TIMEOUT; STOP_TIMEOUT; STOP_REJECTED; LINK_LOST; DUPLICATE_FRAME; WATCHDOG_EXPIRED; MALFORMED_FRAME]
|}.
#[global] Instance laws : StrEnumLaws t.
Proof. solve_enum_laws. Qed.
End McuFaultCode.

Module McuDeviceMode.
Inductive t : Type :=
| IDLE | MOVING | HOLDING | STOPPED | FAULTED.
#[global] Instance eq_dec : EqDecision t.
Proof. solve_decision. Defined.
#[global] Instance enum : StrEnum t := {|
  value x := match x with
    | IDLE => "idle"
    | MOVING => "moving"
    | HOLDING => "holding"
    | STOPPED => "stopped"
    | FAULTED => "faulted"
    end;
  members := [IDLE; MOVING; HOLDING; STOPPED; FAULTED]
|}.
#[global] Instance laws : StrEnumLaws t.
Proof. solve_enum_laws. Qed.
End McuDeviceMode.

Module WorldRelationPredicate.
Inductive t : Type :=
| INSIDE | ON_TOP_OF | HELD_BY | ADJACENT_TO.
#[global] Instance eq_dec : EqDecision t.
Proof. solve_decision. Defined.
#[global] Instance enum : StrEnum t := {|
  value x := match x with
    | INSIDE => "inside"
    | ON_TOP_OF => "on_top_of"
    | HELD_BY => "held_by"
    | ADJACENT_TO => "adjacent_to"
    end;
  members := [INSIDE; ON_TOP_OF; HELD_BY; ADJACENT_TO]
|}.
#[global] Instance laws : StrEnumLaws t.
Proof. solve_enum_laws. Qed.
End WorldRelationPredicate.

(** ** Actions and task graphs *)

(** [SemanticAction]: [parameters] is a dict in insertion order. *)
Record SemanticAction := {
  action_id : string;
  action_type : ActionType.t;
  target_id : option string;
  parameters : list (pyval * pyval)
}.

(** [SemanticAction.validate_bounded_action_boundary]: [true] when the
    validator accepts the record. *)
Definition validate_bounded_action_boundary (a : SemanticAction) : bool :=
  let target_ok := match target_id a with Some t => non_blank t | None => false end in
  let params_empty := match parameters a with [] => true | _ => false end in
  match action_type a with
  | ActionType.NAVIGATE => target_ok && params_empty
  | ActionType.OPEN | ActionType.CLOSE => target_ok && params_empty
  | _ => true
  end.

Record TaskStep := {
  step_id : string;
  action : SemanticAction;
  depends_on : list string
}.

Record TaskGraph := {
  task_id : string;
  goal : string;
  steps : list TaskStep;
  planner : string;
  model_route : string
}.

(** [TaskGraph]: at least one step, and every action passes its validator. *)
Definition validate_task_graph (g : TaskGraph) : bool :=
  negb (bool_decide (length (steps g) = 0%nat)) &&
  forallb (λ st, validate_bounded_action_boundary (action st)) (steps g).

Definition action_ids (g : TaskGraph) : list string := (λ st, action_id (action st)) <$> steps g.
Definition step_ids (g : TaskGraph) : list string := step_id <$> steps g.

(** ** Action results *)

Record ActionResult := {
  result_id : string;
  result_action_id : string;
  result_run_id : string;
  outcome_of : ActionOutcome.t;
  dispatch_state : DispatchState.t;
  device_state : DeviceState.t;
  error_code : option Z;
  error_reason : option string;
  started_at : string;
  ended_at : string;
  result_clock_id : ClockId.t;
  retry_count : Z;
  entity_id : option string;
  resulting_location : option string;
  result_evidence_refs : list string
}.

(** [ActionResult]: a non-negative retry count, and a completed action was sent
    and confirmed by the device. *)
Definition validate_completion_state (r : ActionResult) : bool :=
  (0 <=? retry_count r) &&
  negb (bool_decide (outcome_of r = ActionOutcome.COMPLETED) &&
        (negb (bool_decide (dispatch_state r = DispatchState.SENT)) ||
         negb (bool_decide (device_state r = DeviceState.CONFIRMED)))).

(** ** Verification results *)

Record VerificationResult := {
  verification_id : string;
  vr_run_id : string;
  vr_task_id : string;
  claim : string;
  status : VerificationStatus.t;
  reason_code : option ReasonCode.t;
  completeness : option SpecFloat.spec_float;
  vr_evidence_refs : list string;
  recovery_hint : RecoveryHint.t;
  verified_at : string;
  vr_clock_id : ClockId.t;
  rule_version : string
}.

Definition unit_interval (f : SpecFloat.spec_float) : bool :=
  float_le float_zero f && float_le f (float_of_Z 1).

(** [VerificationResult]: the field constraints and
    [validate_status_semantics]. *)
Definition validate_status_semantics (v : VerificationResult) : bool :=
  negb (bool_decide (length (vr_evidence_refs v) = 0%nat)) &&
  match completeness v with Some c => unit_interval c | None => true end &&
  match status v with
  | VerificationStatus.CONFIRMED =>
      (bool_decide (reason_code v = None) ||
       bool_decide (reason_code v = Some ReasonCode.GOAL_SATISFIED)) &&
      match completeness v with
      | Some c => SpecFloat.SFeqb c (float_of_Z 1)
      | None => true
      end &&
      bool_decide (recovery_hint v = RecoveryHint.NONE)
  | _ => negb (bool_decide (reason_code v = Some ReasonCode.GOAL_SATISFIED))
  end.

(** [VerificationResult.completed] *)
Definition completed (v : VerificationResult) : bool :=
  bool_decide (status v = VerificationStatus.CONFIRMED).

(** [VerificationResult.reason] *)
Definition reason (v : VerificationResult) : string :=
  match reason_code v with Some r => value r | None => value (status v) end.

(** ** Objects at a boundary

    A contract object that arrives from a caller or an injected port can be of
    another class, or can have been mutated into a shape its class does not
    validate.  [Inst t] is an object whose fields have the declared types and
    currently hold [t]; [Broken err ident] one whose dump or validation raises
    [err] on the field types ([ident] is its identifier field when that is
    still a string); [Foreign ty] an object of another class. *)
Inductive pyobj (T : Type) : Type :=
| Inst (t : T)
| Broken (err : string) (ident : option string)
| Foreign (ty : string).
Arguments Inst {T} t.
Arguments Broken {T} err ident.
Arguments Foreign {T} ty.

(** Dump, deep-copy and strictly revalidate: the snapshot or the error text. *)
Definition snapshot {T} (cls : string) (validate : T → bool) (o : pyobj T)
    : option T * list string :=
  let failed err := (None, [cls +:+ " snapshot validation failed: " +:+ err]) in
  match o with
  | Inst t => if validate t then (Some t, []) else failed "ValidationError"
  | Broken err _ => failed err
  | Foreign _ => failed "AttributeError"
  end.

Lemma snapshot_Some {T} cls (validate : T → bool) o t errs :
  snapshot cls validate o = (Some t, errs) ↔ o = Inst t ∧ validate t = true ∧ errs = [].
Proof.
  unfold snapshot. split.
  - destruct o as [t'| |]; [destruct (validate t') eqn:?|..]; intros [=]; by subst.
  - intros (-> & -> & ->). done.
Qed.

(** ** JSON payload of a graph *)

Definition option_str (o : option string) : pyval :=
  match o with Some s => VStr s | None => VNone end.

Definition action_payload (a : SemanticAction) : pyval :=
  VDict [ (VStr "action_id", VStr (action_id a));
          (VStr "action_type", VEnum "ActionType" (value (action_type a)));
          (VStr "target_id", option_str (target_id a));
          (VStr "parameters", VDict (parameters a)) ].

Definition step_payload (st : TaskStep) : pyval :=
  VDict [ (VStr "step_id", VStr (step_id st));
          (VStr "action", action_payload (action st));
          (VStr "depends_on", VList (VStr <$> depends_on st)) ].

(** [graph.model_dump(mode="json")]; [None] when serialization raises. *)
Definition graph_payload (g : TaskGraph) : option pyval :=
  json_dump (VDict
    [ (VStr "task_id", VStr (task_id g));
      (VStr "goal", VStr (goal g));
      (VStr "steps", VList (step_payload <$> steps g));
      (VStr "planner", VStr (planner g));
      (VStr "model_route", VStr (model_route g)) ]).

(** ** Equal payloads have equal identifiers *)

Lemma py_eqb_VList l1 l2 :
  py_eqb (VList l1) (VList l2) = true → Forall2 (λ x y, py_eqb x y = true) l1 l2.
Proof.
  revert l2. induction l1 as [|x l1 IH]; intros [|y l2] H; try done.
  apply andb_true_iff in H as [Hx Hl]. constructor; [done|by apply IH].
Qed.

(** The JSON dump of a step has the step's identifier and its action's. *)
Definition step_dump_ids (v : pyval) (sid aid : string) : Prop :=
  ∃ ty ps tgt deps,
    v = VDict [ (VStr "step_id", VStr sid);
                (VStr "action", VDict [ (VStr "action_id", VStr aid); (VStr "action_type", ty);
                                        (VStr "target_id", tgt); (VStr "parameters", ps) ]);
                (VStr "depends_on", deps) ].

Lemma step_dump st v :
  json_dump (step_payload st) = Some v → step_dump_ids v (step_id st) (action_id (action st)).
Proof.
  unfold step_payload, action_payload. intros H. cbn in H.
  destruct (json_dump (option_str _)); [|done].
  destruct (mapM _ (parameters _)); [|done].
  destruct (mapM _ (VStr <$> depends_on st)); [|done].
  cbn in H. simplify_eq. by eexists _, _, _, _.
Qed.

Lemma step_dump_ids_eqb v1 v2 sid1 aid1 sid2 aid2 :
  step_dump_ids v1 sid1 aid1 → step_dump_ids v2 sid2 aid2 → py_eqb v1 v2 = true →
  sid1 = sid2 ∧ aid1 = aid2.
Proof.
  intros (ty1 & ps1 & tgt1 & deps1 & ->) (ty2 & ps2 & tgt2 & deps2 & ->) H.
  cbn in H. rewrite !orb_false_r, !andb_true_iff in H.
  destruct H as (H1 & (H2 & _) & _). by apply String.eqb_eq in H1, H2.
Qed.

Lemma graph_dump g p :
  graph_payload g = Some p →
  ∃ ps, mapM json_dump (step_payload <$> steps g) = Some ps ∧
    p = VDict [ (VStr "task_id", VStr (task_id g)); (VStr "goal", VStr (goal g));
                (VStr "steps", VList ps); (VStr "planner", VStr (planner g));
                (VStr "model_route", VStr (model_route g)) ].
Proof.
  unfold graph_payload. intros H. cbn in H.
  destruct (mapM _ (step_payload <$> steps g)) as [ps|]; [|done].
  cbn in H. simplify_eq. by exists ps.
Qed.

Lemma graph_payload_ids g1 g2 p1 p2 :
  graph_payload g1 = Some p1 → graph_payload g2 = Some p2 → py_eqb p1 p2 = true →
  step_ids g1 = step_ids g2 ∧ action_ids g1 = action_ids g2.
Proof.
  intros (ps1 & Hps1 & ->)%graph_dump (ps2 & Hps2 & ->)%graph_dump H.
  assert (Forall2 (λ x y, py_eqb x y = true) ps1 ps2) as Heq.
  { apply py_eqb_VList. cbn in H. rewrite !orb_false_r, !andb_true_iff in H. apply H. }
  clear H. apply mapM_Some in Hps1, Hps2. rewrite Forall2_fmap_l in Hps1, Hps2.
  unfold step_ids, action_ids.
  revert Hps1 Hps2 Heq. generalize (steps g1) (steps g2). intros l1 l2 H1. revert l2 ps2.
  induction H1 as [|st1 v1 l1 ps1 Hv1 _ IH]; intros l2 ps2 H2 Heq.
  - inversion Heq; subst. by inversion H2.
  - apply Forall2_cons_inv_l in Heq as (v2 & ps2' & Hv & Heq & ->).
    apply Forall2_cons_inv_r in H2 as (st2 & l2' & Hv2 & H2 & ->).
    destruct (IH l2' ps2') as [IH1 IH2]; [done..|].
    destruct (step_dump_ids_eqb v1 v2 _ _ _ _ (step_dump _ _ Hv1) (step_dump _ _ Hv2) Hv) as [Hs Ha].
    rewrite !fmap_cons. by rewrite Hs, Ha, IH1, IH2.
Qed.
