(* ===== verification/ObservedAttributes.v ===== *)
(** * Observed attributes

    [libs/contracts/workbench_contracts/observed_attributes.py]: the bounded
    vocabulary of attributes an observation may carry and the evidence metadata
    of each.  A [dict] is the list of its items; what a validator returns is the
    detached copy in the same order.  The exceptions are told apart only by
    class: [OverflowError] matters because the [except (TypeError, ValueError)]
    clauses of the callers do not catch it. *)

From Stdlib Require Import ZArith Ascii String SpecFloat.
From S2P Require Import Prelude PyVal Json Contracts.
Local Open Scope Z_scope.

(** The exceptions of the world model's validators; [EPayload] is
    [WorldEventPayloadValidationError] of [event_payloads.py]. *)
Inductive exn : Type := EValue | EType | EOverflow | EPayload.
#[global] Instance exn_eq_dec : EqDecision exn.
Proof. solve_decision. Defined.

Definition MAX_ATTRIBUTE_COUNT : nat := 32.
Definition MAX_ATTRIBUTE_KEY_LENGTH : Z := 64.
Definition MAX_ATTRIBUTE_VALUE_LENGTH : Z := 256.
Definition MAX_ATTRIBUTES_JSON_BYTES : Z := 4096.
Definition MAX_ATTRIBUTE_METADATA_JSON_BYTES : Z := 16 * 1024.
Definition MAX_ATTRIBUTE_METADATA_TEXT_LENGTH : Z := 256.
Definition MAX_ATTRIBUTE_EVIDENCE_REF_COUNT : nat := 32.
Definition MAX_ATTRIBUTE_EVIDENCE_REF_LENGTH : Z := 256.
Definition ATTRIBUTE_SCHEMA_VERSION : string := "observed-attributes-v1".
Definition LEGACY_ATTRIBUTE_MIGRATION_VERSION : string := "legacy-observed-attributes-v0".

Definition GENERIC_ATTRIBUTE_KEYS : list string := ["colour"; "presence"; "identity"; "orientation"].
Definition PARCEL_ATTRIBUTE_KEYS : list string := ["label_status"; "condition"; "tracking_id"; "barcode"; "parcel_uid"].
Definition APPLIANCE_ATTRIBUTE_KEYS : list string := ["door_state"; "rack_state"].
Definition MANAGED_SLOT_ATTRIBUTE_KEYS : list string := ["slot_state"; "slot_occupancy"].
Definition SUPPORTED_ATTRIBUTE_KEYS : list string :=
  GENERIC_ATTRIBUTE_KEYS ++ PARCEL_ATTRIBUTE_KEYS ++ APPLIANCE_ATTRIBUTE_KEYS ++ MANAGED_SLOT_ATTRIBUTE_KEYS.

Definition ATTRIBUTE_ENUMS : list (string * list string) :=
  [("label_status", ["verified"; "unreadable"; "missing"; "unknown"]);
   ("condition", ["intact"; "damaged"; "unknown"]);
   ("door_state", ["open"; "closed"; "unknown"]);
   ("rack_state", ["open"; "closed"; "unknown"]);
   ("slot_state", ["empty"; "occupied"; "blocked"; "unknown"]);
   ("slot_occupancy", ["empty"; "occupied"; "blocked"; "unknown"]);
   ("presence", ["present"; "absent"; "unknown"])].

Definition _PARCEL_ENTITY_TYPES : list string :=
  ["parcel"; "parcel_box"; "parcel_envelope"; "box"; "envelope"; "package"].
Definition _DOOR_ONLY_ENTITY_TYPES : list string := ["washer"; "washing_machine"; "washer_door"; "dishwasher_door"].
Definition _APPLIANCE_ENTITY_TYPES : list string := ["appliance"; "dishwasher"].
Definition _RACK_ENTITY_TYPES : list string := ["rack"; "dishwasher_rack"; "rack_fixture"].
Definition _SLOT_ENTITY_TYPES : list string := ["slot"; "managed_slot"; "rack_slot"; "dishwasher_slot"].

Module AttributeUpdateMode.
Inductive t : Type :=
| COMPLETE | PARTIAL.
#[global] Instance eq_dec : EqDecision t.
Proof. solve_decision. Defined.
#[global] Instance enum : StrEnum t := {|
  value x := match x with
    | COMPLETE => "complete"
    | PARTIAL => "partial"
    end;
  members := [COMPLETE; PARTIAL]
|}.
#[global] Instance laws : StrEnumLaws t.
Proof. solve_enum_laws. Qed.
End AttributeUpdateMode.

(** ** Text *)

(** Printable text without surrounding white space *)
Definition tidy (s : string) : bool := isprintable s && String.eqb s (strip s).

(** [_validate_metadata_text] *)
Definition _validate_metadata_text (v : pyval) : option string :=
  match v with
  | VStr s =>
      if non_blank s && (len s <=? MAX_ATTRIBUTE_METADATA_TEXT_LENGTH) &&
         (utf8_length s <=? MAX_ATTRIBUTE_METADATA_TEXT_LENGTH * 4) && tidy s
      then Some s else None
  | _ => None
  end.

(** [_validate_evidence_reference] *)
Definition _validate_evidence_reference (v : pyval) : option string :=
  match v with
  | VStr s =>
      if non_blank s && (len s <=? MAX_ATTRIBUTE_EVIDENCE_REF_LENGTH) &&
         (utf8_length s <=? MAX_ATTRIBUTE_EVIDENCE_REF_LENGTH) && tidy s
      then Some s else None
  | _ => None
  end.

(** [validate_attribute_evidence_refs] *)
Definition validate_attribute_evidence_refs (v : pyval) (require_non_empty : bool) : option (list string) :=
  match v with
  | VList l =>
      if require_non_empty && (length l =? 0)%nat then None
      else if (MAX_ATTRIBUTE_EVIDENCE_REF_COUNT <? length l)%nat then None
      else match mapM _validate_evidence_reference l with
           | Some refs => if decide (NoDup refs) then Some refs else None
           | None => None
           end
  | _ => None
  end.

(** [_validate_attribute_key] *)
Definition _validate_attribute_key (key : pyval) (applicable : option (list string)) (allow_unknown_keys : bool)
    : option string :=
  match key with
  | VStr k =>
      if non_blank k && (len k <=? MAX_ATTRIBUTE_KEY_LENGTH) && tidy k &&
         (str_in k SUPPORTED_ATTRIBUTE_KEYS || allow_unknown_keys) &&
         (match applicable with Some l => str_in k l | None => true end || allow_unknown_keys)
      then Some k else None
  | _ => None
  end.

(** [entity_type.strip().casefold().replace("-", "_")] *)
Definition normalized_type (t : string) : string := replace_char "-" "_" (casefold (strip t)).

(** [_applicable_keys] *)
Definition _applicable_keys (entity_type : option string) : option (list string) :=
  match entity_type with
  | None => None
  | Some t =>
      let n := normalized_type t in
      Some (if String.eqb n "legacy" then SUPPORTED_ATTRIBUTE_KEYS
            else if str_in n _PARCEL_ENTITY_TYPES then GENERIC_ATTRIBUTE_KEYS ++ PARCEL_ATTRIBUTE_KEYS
            else if str_in n _APPLIANCE_ENTITY_TYPES then GENERIC_ATTRIBUTE_KEYS ++ APPLIANCE_ATTRIBUTE_KEYS
            else if str_in n _DOOR_ONLY_ENTITY_TYPES then GENERIC_ATTRIBUTE_KEYS ++ ["door_state"]
            else if str_in n _RACK_ENTITY_TYPES then GENERIC_ATTRIBUTE_KEYS ++ ["rack_state"]
            else if str_in n _SLOT_ENTITY_TYPES then GENERIC_ATTRIBUTE_KEYS ++ MANAGED_SLOT_ATTRIBUTE_KEYS
            else GENERIC_ATTRIBUTE_KEYS)
  end.

(** [legacy_attribute_keys_allowed] *)
Definition legacy_attribute_keys_allowed (entity_type : option string) : bool := false.

(** ** Attribute values *)

Fixpoint enum_values (k : string) (l : list (string * list string)) : option (list string) :=
  match l with
  | [] => None
  | (k', vs) :: l' => if String.eqb k k' then Some vs else enum_values k l'
  end.

(** The value part of the loop of [validate_observed_attributes] *)
Definition valid_value (key : string) (item : pyval) : option string :=
  match item with
  | VStr s =>
      if non_blank s && (len s <=? MAX_ATTRIBUTE_VALUE_LENGTH) && tidy s &&
         match enum_values key ATTRIBUTE_ENUMS with Some vs => str_in s vs | None => true end
      then Some s else None
  | _ => None
  end.

Definition valid_entry (applicable : option (list string)) (allow : bool) (e : pyval * pyval) : option (string * string) :=
  _validate_attribute_key e.1 applicable allow ≫= λ k, (λ s, (k, s)) <$> valid_value k e.2.

(** A validated mapping as the [dict] it is *)
Definition attributes_dict (l : list (string * string)) : pyval := VDict ((λ '(k, v), (VStr k, VStr v)) <$> l).

Definition named_type (entity_type : option string) : bool :=
  match entity_type with Some t => non_blank t | None => true end.

(** [validate_observed_attributes]; [None] is its ValueError *)
Definition validate_observed_attributes (v : pyval) (entity_type : option string) (allow_unknown_keys : bool)
    : option (list (string * string)) :=
  match v with
  | VDict kvs =>
      if (MAX_ATTRIBUTE_COUNT <? length kvs)%nat then None
      else if negb (named_type entity_type) then None
      else match mapM (valid_entry (_applicable_keys entity_type) allow_unknown_keys) kvs with
           | Some l => if json_size (attributes_dict l) <=? MAX_ATTRIBUTES_JSON_BYTES then Some l else None
           | None => None
           end
  | _ => None
  end.

(** ** Attribute metadata *)

Record ObservedAttributeMetadata := {
  md_observed_at : string;
  md_confidence : spec_float;
  md_evidence_refs : list string;
  md_belief : WorldBelief.t;
  md_clock_id : ClockId.t;
  md_source : option string
}.

(** [normalize_confidence]: [float(value)] raises [OverflowError] on an integer
    that no float approximates. *)
Definition normalize_confidence (v : pyval) : outcome exn spec_float :=
  match v with
  | VInt z =>
      let f := float_of_Z z in
      ensure isfinite f else EOverflow in ensure unit_interval f else EValue in Ok f
  | VFloat f => ensure isfinite f && unit_interval f else EValue in Ok f
  | _ => Raise EValue
  end.

(** [d.get(k)] of a field, and the field's validator *)
Definition field {A} (k : string) (kvs : list (pyval * pyval)) (f : pyval → option A) : option A :=
  dict_get k kvs ≫= f.

Definition metadata_fields : list string :=
  ["observed_at"; "confidence"; "evidence_refs"; "belief"; "clock_id"; "source"].

(** [normalize_clock_id], with the field's default *)
Definition metadata_clock (kvs : list (pyval * pyval)) : option ClockId.t :=
  match dict_get "clock_id" kvs with Some v => as_str v ≫= of_value | None => Some ClockId.MONOTONIC end.

(** [reject_null_source], with the field's default *)
Definition metadata_source (kvs : list (pyval * pyval)) : option (option string) :=
  match dict_get "source" kvs with Some v => Some <$> _validate_metadata_text v | None => Some None end.

(** [ObservedAttributeMetadata.model_validate]: the fields' errors are collected,
    but an [OverflowError] leaves the validator at once. *)
Definition validate_metadata (raw : pyval) : outcome exn ObservedAttributeMetadata :=
  match raw with
  | VDict kvs =>
      let* confidence := match dict_get "confidence" kvs with Some v => normalize_confidence v | None => Raise EValue end in
      match field "observed_at" kvs _validate_metadata_text,
            field "evidence_refs" kvs (λ v, validate_attribute_evidence_refs v true),
            field "belief" kvs (λ v, as_str v ≫= of_value), metadata_clock kvs, metadata_source kvs,
            unknown_keys metadata_fields kvs with
      | Some observed_at, Some refs, Some belief, Some clock, Some source, [] =>
          Ok {| md_observed_at := observed_at; md_confidence := confidence; md_evidence_refs := refs;
                md_belief := belief; md_clock_id := clock; md_source := source |}
      | _, _, _, _, _, _ => Raise EValue
      end
  | _ => Raise EValue
  end.

(** [metadata.model_dump(mode="json", exclude_none=True)] *)
Definition metadata_items (m : ObservedAttributeMetadata) : list (string * pyval) :=
  [("observed_at", VStr (md_observed_at m)); ("confidence", VFloat (md_confidence m));
   ("evidence_refs", VList (VStr <$> md_evidence_refs m)); ("belief", VStr (value (md_belief m)));
   ("clock_id", VStr (value (md_clock_id m)))] ++
  match md_source m with Some s => [("source", VStr s)] | None => [] end.

Definition items_dict (l : list (string * pyval)) : pyval := VDict ((λ '(k, v), (VStr k, v)) <$> l).
Definition metadata_dump (m : ObservedAttributeMetadata) : pyval := items_dict (metadata_items m).

Definition metadata_map_dict (l : list (string * ObservedAttributeMetadata)) : pyval :=
  items_dict ((λ '(k, m), (k, metadata_dump m)) <$> l).

(** The flags of [validate_attribute_metadata_map] *)
Record metadata_rules := {
  r_attribute_keys : option (list string);
  r_entity_type : option string;
  r_allow_unknown_keys : bool;
  r_require_observed : bool;
  r_require_complete : bool;
  r_expected_clock_id : option string
}.

Definition clock_matches (expected : option string) (m : ObservedAttributeMetadata) : bool :=
  match expected with Some c => String.eqb (value (md_clock_id m)) c | None => true end.

(** The body of the loop of [validate_attribute_metadata_map] *)
Definition valid_metadata_entry (r : metadata_rules) (e : pyval * pyval)
    : outcome exn (string * ObservedAttributeMetadata) :=
  match _validate_attribute_key e.1 (_applicable_keys (r_entity_type r)) (r_allow_unknown_keys r) with
  | None => Raise EValue
  | Some key =>
      ensure match r_attribute_keys r with Some l => str_in key l | None => true end else EValue in
      let* m := validate_metadata e.2 in
      ensure negb (r_require_observed r) || bool_decide (md_belief m = WorldBelief.OBSERVED) else EValue in
      ensure clock_matches (r_expected_clock_id r) m else EValue in
      Ok (key, m)
  end.

(** The checks on [attribute_keys] *)
Definition valid_attribute_keys (r : metadata_rules) (kvs : list (pyval * pyval)) : bool :=
  match r_attribute_keys r with
  | None => true
  | Some keys =>
      forallb (λ k, bool_decide (is_Some (_validate_attribute_key (VStr k) (_applicable_keys (r_entity_type r))
                                            (r_allow_unknown_keys r)))) keys &&
      (negb (r_require_complete r) || forallb (λ k, bool_decide (is_Some (dict_get k kvs))) keys)
  end.

(** [validate_attribute_metadata_map] *)
Definition validate_attribute_metadata_map (v : pyval) (r : metadata_rules)
    : outcome exn (list (string * ObservedAttributeMetadata)) :=
  match v with
  | VDict kvs =>
      ensure (length kvs <=? MAX_ATTRIBUTE_COUNT)%nat else EValue in
      ensure valid_attribute_keys r kvs else EValue in
      ensure match r_expected_clock_id r with Some c => bool_decide (is_Some (of_value (A:=ClockId.t) c)) | None => true end
      else EValue in
      let* l := outcome_map (valid_metadata_entry r) kvs in
      ensure json_size (metadata_map_dict l) <=? MAX_ATTRIBUTE_METADATA_JSON_BYTES else EValue in
      Ok l
  | _ => Raise EValue
  end.

(** What [materialize_attribute_metadata] is told of the enclosing observation *)
Record observation_defaults := {
  d_observed_at : pyval;
  d_confidence : spec_float;
  d_evidence_refs : list string;
  d_clock_id : string;
  d_source : option string
}.

Definition default_items (d : observation_defaults) : list (pyval * pyval) :=
  [(VStr "observed_at", d_observed_at d); (VStr "confidence", VFloat (d_confidence d));
   (VStr "evidence_refs", VList (VStr <$> d_evidence_refs d)); (VStr "belief", VStr "observed");
   (VStr "clock_id", VStr (d_clock_id d))] ++
  match d_source d with Some s => [(VStr "source", VStr s)] | None => [] end.

(** [candidate = dict(defaults); candidate.update(explicit)] *)
Definition update_dict (kvs : list (pyval * pyval)) (items : list (string * pyval)) : list (pyval * pyval) :=
  foldl (λ d '(k, v), dict_set k v d) kvs items.

Fixpoint lookup_metadata (k : string) (l : list (string * ObservedAttributeMetadata)) : option ObservedAttributeMetadata :=
  match l with
  | [] => None
  | (k', m) :: l' => if String.eqb k k' then Some m else lookup_metadata k l'
  end.

Definition materialize_one (d : observation_defaults) (explicit : list (string * ObservedAttributeMetadata))
    (k : string) : outcome exn (string * ObservedAttributeMetadata) :=
  let updates := match lookup_metadata k explicit with Some m => metadata_items m | None => [] end in
  let* m := validate_metadata (VDict (update_dict (default_items d) updates)) in
  ensure bool_decide (md_belief m = WorldBelief.OBSERVED) else EValue in
  Ok (k, m).

(** The flags of both calls in [materialize_attribute_metadata] *)
Definition materialize_rules (keys : list string) (d : observation_defaults) (entity_type : option string)
    (allow complete : bool) : metadata_rules :=
  {| r_attribute_keys := Some keys; r_entity_type := entity_type; r_allow_unknown_keys := allow;
     r_require_observed := true; r_require_complete := complete; r_expected_clock_id := Some (d_clock_id d) |}.

(** [materialize_attribute_metadata] *)
Definition materialize_attribute_metadata (attributes : list (string * string)) (metadata : option pyval)
    (d : observation_defaults) (entity_type : option string) (allow : bool)
    : outcome exn (list (string * ObservedAttributeMetadata)) :=
  let keys := attributes.*1 in
  ensure bool_decide (is_Some (validate_observed_attributes (attributes_dict attributes) entity_type allow)) else EValue in
  let* explicit := match metadata with
                   | Some raw => validate_attribute_metadata_map raw (materialize_rules keys d entity_type allow false)
                   | None => Ok []
                   end in
  let* l := outcome_map (materialize_one d explicit) keys in
  let* _ := validate_attribute_metadata_map (metadata_map_dict l) (materialize_rules keys d entity_type allow true) in
  Ok l.
