(* ===== verification/EventPayloads.v ===== *)
(** * World events and their payloads

    [WorldEvent] of the contracts and
    [services/world_model/workbench_world_model/event_payloads.py]: the strict
    validation and normalization of the payloads that the world model stores and
    replays.  A payload is a [dict] in insertion order, copied where the source
    copies it deeply. *)

From Stdlib Require Import ZArith Ascii String SpecFloat.
From S2P Require Import Prelude PyVal Json Contracts ObservedAttributes.
Local Open Scope Z_scope.

Module WorldEventType.
Inductive t : Type :=
| OBSERVATION | ACTION_REQUEST | ACTION_RESULT | VERIFICATION | FAULT | EMOTION
| TASK_ACCEPTED | TASK_TERMINAL | TASK_START | TOOL_CALL | POLICY_VIOLATION
| RECOVERY_STARTED | RECOVERY_COMPLETE.
#[global] Instance eq_dec : EqDecision t.
Proof. solve_decision. Defined.
#[global] Instance enum : StrEnum t := {|
  value x := match x with
    | OBSERVATION => "observation"
    | ACTION_REQUEST => "action_request"
    | ACTION_RESULT => "action_result"
    | VERIFICATION => "verification"
    | FAULT => "fault"
    | EMOTION => "emotion"
    | TASK_ACCEPTED => "task_accepted"
    | TASK_TERMINAL => "task_terminal"
    | TASK_START => "task_start"
    | TOOL_CALL => "tool_call"
    | POLICY_VIOLATION => "policy_violation"
    | RECOVERY_STARTED => "recovery_started"
    | RECOVERY_COMPLETE => "recovery_complete"
    end;
  members := [OBSERVATION; ACTION_REQUEST; ACTION_RESULT; VERIFICATION; FAULT; EMOTION; TASK_ACCEPTED; TASK_TERMINAL; TASK_START; TOOL_CALL; POLICY_VIOLATION; RECOVERY_STARTED; RECOVERY_COMPLETE]
|}.
#[global] Instance laws : StrEnumLaws t.
Proof. solve_enum_laws. Qed.
End WorldEventType.

Abbreviation dict := (list (pyval * pyval)).

Record WorldEvent := {
  event_id : string;
  event_run_id : string;
  sequence_no : Z;
  event_type : WorldEventType.t;
  occurred_at : string;
  payload : dict;
  recorded_at : option string;
  event_clock_id : option ClockId.t;
  event_evidence_refs : list string
}.

(** [event.model_copy(update={"payload": payload}, deep=True)] *)
Definition with_payload (e : WorldEvent) (p : dict) : WorldEvent :=
  {| event_id := event_id e; event_run_id := event_run_id e; sequence_no := sequence_no e;
     event_type := event_type e; occurred_at := occurred_at e; payload := p; recorded_at := recorded_at e;
     event_clock_id := event_clock_id e; event_evidence_refs := event_evidence_refs e |}.

(** [key in d] *)
Definition has_key (k : string) (d : dict) : bool := bool_decide (is_Some (dict_get k d)).

(** [except (TypeError, ValueError) as error: raise WorldEventPayloadValidationError] *)
Definition as_payload_error (e : exn) : exn :=
  match e with EValue | EType | EPayload => EPayload | EOverflow => EOverflow end.

Definition of_valid {A} (o : option A) : outcome exn A := match o with Some a => Ok a | None => Raise EPayload end.

(** ** Recovery events *)

Definition RECOVERY_ACTIONS : list string := ["retry_observation"; "retry_action"; "ask_confirm"; "safe_stop"; "abort"].
Definition RECOVERY_RUNTIME_OWNED_ACTIONS : list string := ["safe_stop"].
Definition RECOVERY_TERMINAL_ACTIONS : list string := ["safe_stop"; "abort"].
Definition MAX_RECOVERY_ATTEMPTS : Z := 10.
Definition MAX_RECOVERY_TICKS : Z := 100.
Definition MAX_RECOVERY_ID_LENGTH : Z := 128.
Definition MAX_RECOVERY_REASON_LENGTH : Z := 512.
Definition MAX_RECOVERY_EVIDENCE_REFS : nat := 32.

Definition _RECOVERY_REQUIRED_FIELDS : list string :=
  ["recovery_id"; "task_id"; "action"; "state"; "attempt"; "max_attempts"; "reason_code"; "reason"].
Definition recovery_optional_fields : list string :=
  ["ticks"; "max_recovery_ticks"; "policy_version"; "runtime_owned"; "outcome"; "evidence_refs"].

Definition _recovery_bounded_int (v : pyval) (lo hi : Z) : outcome exn Z :=
  match v with VInt z => ensure (lo <=? z) && (z <=? hi) else EPayload in Ok z | _ => Raise EPayload end.

Definition _recovery_bounded_string (v : pyval) (hi : Z) : outcome exn string :=
  match v with VStr s => ensure non_blank s && (len s <=? hi) else EPayload in Ok s | _ => Raise EPayload end.

(** [hash(v)] does not raise *)
Fixpoint hashable (v : pyval) : bool :=
  match v with VList _ | VDict _ | VSet _ => false | VTuple l => forallb hashable l | _ => true end.

(** A field that the payload has: [payload[k]] after the required-key loop *)
Definition at_key (k : string) (d : dict) : pyval := dict_get_or k d VNone.

(** [ticks] and [max_recovery_ticks] *)
Definition recovery_ticks (d : dict) : outcome exn (list (string * pyval)) :=
  let maximum := _recovery_bounded_int (at_key "max_recovery_ticks" d) 1 MAX_RECOVERY_TICKS in
  if has_key "ticks" d then
    let* ticks := _recovery_bounded_int (at_key "ticks" d) 0 MAX_RECOVERY_TICKS in
    if has_key "max_recovery_ticks" d then
      let* m := maximum in
      ensure ticks <=? m else EPayload in Ok [("ticks", VInt ticks); ("max_recovery_ticks", VInt m)]
    else Ok [("ticks", VInt ticks)]
  else if has_key "max_recovery_ticks" d then let* m := maximum in Ok [("max_recovery_ticks", VInt m)]
  else Ok [].

Definition recovery_policy_version (d : dict) : outcome exn (list (string * pyval)) :=
  if has_key "policy_version" d then
    let* s := _recovery_bounded_string (at_key "policy_version" d) MAX_RECOVERY_ID_LENGTH in
    Ok [("policy_version", VStr s)]
  else Ok [].

(** The declared [runtime_owned] must be the action's own *)
Definition recovery_ownership (d : dict) (runtime_owned : bool) : outcome exn (list (string * pyval)) :=
  match dict_get "runtime_owned" d with
  | Some (VBool declared) =>
      ensure Bool.eqb declared runtime_owned else EPayload in Ok [("runtime_owned", VBool runtime_owned)]
  | Some _ => Raise EPayload
  | None => Ok [("runtime_owned", VBool runtime_owned)]
  end.

(** A [recovery_complete] event is terminal and its outcome is the action's; a
    [recovery_started] event is not terminal. *)
Definition recovery_outcome (d : dict) (complete : bool) (action : string) : outcome exn (list (string * pyval)) :=
  let terminal := str_in action RECOVERY_TERMINAL_ACTIONS in
  if complete then
    ensure terminal else EPayload in
    let expected := if String.eqb action "safe_stop" then "stopped" else "aborted" in
    ensure py_eqb (dict_get_or "outcome" d (VStr expected)) (VStr expected) else EPayload in
    Ok [("outcome", VStr expected)]
  else ensure negb terminal else EPayload in Ok [].

Definition recovery_refs (d : dict) : outcome exn (list (string * pyval)) :=
  match at_key "evidence_refs" d with
  | VNone => Ok []
  | VList refs =>
      ensure (length refs <=? MAX_RECOVERY_EVIDENCE_REFS)%nat else EPayload in
      let* l := outcome_map (λ r, _recovery_bounded_string r MAX_RECOVERY_ID_LENGTH) refs in
      Ok [("evidence_refs", VList (VStr <$> l))]
  | _ => Raise EPayload
  end.

(** [normalize_recovery_payload]; [complete] tells the two event types apart *)
Definition normalize_recovery_payload (d : dict) (complete : bool) : outcome exn dict :=
  ensure forallb (λ k, has_key k d) _RECOVERY_REQUIRED_FIELDS else EPayload in
  ensure forallb (key_in (_RECOVERY_REQUIRED_FIELDS ++ recovery_optional_fields)) d.*1 else EPayload in
  let* recovery_id := _recovery_bounded_string (at_key "recovery_id" d) MAX_RECOVERY_ID_LENGTH in
  let* task_id := _recovery_bounded_string (at_key "task_id" d) MAX_RECOVERY_ID_LENGTH in
  let* reason_code := _recovery_bounded_string (at_key "reason_code" d) MAX_RECOVERY_ID_LENGTH in
  let* reason := _recovery_bounded_string (at_key "reason" d) MAX_RECOVERY_REASON_LENGTH in
  ensure hashable (at_key "action" d) else EType in
  match as_str (at_key "action" d) with
  | None => Raise EPayload
  | Some action =>
      ensure str_in action RECOVERY_ACTIONS else EPayload in
      let* state := _recovery_bounded_string (at_key "state" d) MAX_RECOVERY_ID_LENGTH in
      let* attempt := _recovery_bounded_int (at_key "attempt" d) 0 MAX_RECOVERY_ATTEMPTS in
      let* max_attempts := _recovery_bounded_int (at_key "max_attempts" d) 1 MAX_RECOVERY_ATTEMPTS in
      ensure attempt <=? max_attempts else EPayload in
      let* ticks := recovery_ticks d in
      let* version := recovery_policy_version d in
      let* owned := recovery_ownership d (str_in action RECOVERY_RUNTIME_OWNED_ACTIONS) in
      let* result := recovery_outcome d complete action in
      let* refs := recovery_refs d in
      Ok ((λ '(k, v), (VStr k, v)) <$>
          [("recovery_id", VStr recovery_id); ("task_id", VStr task_id); ("action", at_key "action" d);
           ("state", VStr state); ("attempt", VInt attempt); ("max_attempts", VInt max_attempts);
           ("reason_code", VStr reason_code); ("reason", VStr reason)] ++ ticks ++ version ++ owned ++ result ++ refs)
  end.

(** ** Observations *)

(** [_strict_non_blank_string] *)
Definition _strict_non_blank_string (v : pyval) : outcome exn string :=
  match v with VStr s => ensure non_blank s else EPayload in Ok s | _ => Raise EPayload end.

(** An optional field that may be omitted but must be text when present *)
Definition optional_text (k : string) (d : dict) : outcome exn (option string) :=
  match dict_get k d with
  | None => Ok None
  | Some v => let* s := _strict_non_blank_string v in Ok (Some s)
  end.

(** [_normalize_attributes_mode]; the caller refuses [None] with the same error *)
Definition _normalize_attributes_mode (v : pyval) : outcome exn AttributeUpdateMode.t :=
  match v with
  | VEnum "AttributeUpdateMode" s | VStr s => of_valid (of_value s)
  | _ => Raise EPayload
  end.

(** [_normalize_attribute_schema_version] *)
Definition _normalize_attribute_schema_version (v : pyval) : outcome exn string :=
  match v with
  | VStr s =>
      ensure String.eqb s ATTRIBUTE_SCHEMA_VERSION || String.eqb s LEGACY_ATTRIBUTE_MIGRATION_VERSION else EPayload in Ok s
  | _ => Raise EPayload
  end.

(** [_looks_like_legacy_attribute_payload] *)
Definition _looks_like_legacy_attribute_payload (d : dict) : bool :=
  negb (existsb (λ k, has_key k d) ["entity_type"; "observed_at"; "clock_id"; "source"]).

(** The version of a payload with attributes *)
Definition payload_version (d : dict) : outcome exn string :=
  match dict_get "attributes_schema_version" d with
  | None => ensure _looks_like_legacy_attribute_payload d else EPayload in Ok LEGACY_ATTRIBUTE_MIGRATION_VERSION
  | Some v => _normalize_attribute_schema_version v
  end.

Definition payload_mode (d : dict) : outcome exn AttributeUpdateMode.t :=
  match dict_get "attributes_mode" d with
  | None => Ok AttributeUpdateMode.COMPLETE
  | Some v => _normalize_attributes_mode v
  end.

(** The clock of the metadata: the payload's own, the event's, or monotonic; it
    must be the event's when the event has one. *)
Definition payload_clock (d : dict) (event_clock : option ClockId.t) : outcome exn ClockId.t :=
  let* clock := match dict_get "clock_id" d with
                | None => Ok (default ClockId.MONOTONIC event_clock)
                | Some (VStr s) | Some (VEnum "ClockId" s) => of_valid (of_value s)
                | Some _ => Raise EPayload
                end in
  ensure match event_clock with Some c => bool_decide (c = clock) | None => true end else EPayload in
  Ok clock.

(** What an observation says about itself outside its attributes *)
Record observation_head := {
  h_entity_id : string;
  h_entity_type : option string;
  h_observed_at : option string;
  h_source : option string;
  h_location : option string;
  h_confidence : spec_float
}.

(** The checks before the attribute fields *)
Definition observation_fields (d : dict) : outcome exn observation_head :=
  let* entity_id := match dict_get "entity_id" d with Some v => _strict_non_blank_string v | None => Raise EPayload end in
  let* entity_type := optional_text "entity_type" d in
  let* observed_at := optional_text "observed_at" d in
  let* source := optional_text "source" d in
  ensure match dict_get "clock_id" d with Some VNone => false | _ => true end else EPayload in
  let* location := optional_text "location" d in
  let* confidence := match dict_get "confidence" d with
                     | Some v => outcome_except as_payload_error (normalize_confidence v)
                     | None => Raise EPayload
                     end in
  Ok {| h_entity_id := entity_id; h_entity_type := entity_type; h_observed_at := observed_at; h_source := source;
        h_location := location; h_confidence := confidence |}.

(** The fields a modern payload with attributes must carry *)
Definition modern_fields_present (h : observation_head) (refs : list string) : bool :=
  bool_decide (is_Some (h_entity_type h)) && bool_decide (is_Some (h_observed_at h)) &&
  bool_decide (is_Some (h_source h)) && negb (bool_decide (refs = [])).

(** [attributes], [attributes_mode], [attributes_schema_version] and
    [attribute_metadata] of an observation that has attributes *)
Definition normalize_attributes (d : dict) (h : observation_head) (e : WorldEvent) : outcome exn dict :=
  let* version := payload_version d in
  let legacy := String.eqb version LEGACY_ATTRIBUTE_MIGRATION_VERSION in
  let allow := legacy && legacy_attribute_keys_allowed (h_entity_type h) in
  let* mode := payload_mode d in
  let* attributes := of_valid (validate_observed_attributes (at_key "attributes" d) (h_entity_type h) allow) in
  let* refs := of_valid (validate_attribute_evidence_refs (VList (VStr <$> event_evidence_refs e)) false) in
  let* clock := payload_clock d (event_clock_id e) in
  ensure legacy || modern_fields_present h refs else EPayload in
  let observed_at := default (occurred_at e) (h_observed_at h) in
  ensure match dict_get "attribute_metadata" d with Some VNone => false | _ => true end else EPayload in
  let* metadata := outcome_except as_payload_error (materialize_attribute_metadata attributes
    (dict_get "attribute_metadata" d)
    {| d_observed_at := VStr observed_at; d_confidence := h_confidence h; d_evidence_refs := refs;
       d_clock_id := value clock; d_source := h_source h |} (h_entity_type h) allow) in
  Ok (update_dict d
    [("attributes_schema_version", VStr version); ("attributes_mode", VStr (value mode));
     ("attributes", attributes_dict attributes); ("clock_id", VStr (value clock));
     ("observed_at", VStr observed_at); ("attribute_metadata", metadata_map_dict metadata)]).

(** [_normalize_observation_payload] *)
Definition _normalize_observation_payload (e : WorldEvent) : outcome exn dict :=
  let* h := observation_fields (payload e) in
  let d := dict_set "confidence" (VFloat (h_confidence h)) (payload e) in
  if has_key "attributes" d then normalize_attributes d h e
  else
    ensure negb (existsb (λ k, has_key k d) ["attributes_mode"; "attributes_schema_version"; "attribute_metadata"])
      else EPayload in
    Ok d.

(** ** Action results *)

(** A field with a default that may be [None] *)
Definition nullable {A} (k : string) (d : dict) (f : pyval → option A) : option (option A) :=
  match at_key k d with VNone => Some None | v => Some <$> f v end.

Definition strict_text (v : pyval) : option string := match v with VStr s => if non_blank s then Some s else None | _ => None end.
Definition any_text (v : pyval) : option string := match v with VStr s => Some s | _ => None end.
Definition strict_int (v : pyval) : option Z := match v with VInt z => Some z | _ => None end.
Definition text_list (v : pyval) : option (list string) := match v with VList l => mapM any_text l | _ => None end.

(** A member of an enumeration or its text, [strict=False] *)
Definition enum_field (A : Type) `{StrEnum A} (v : pyval) : option A := as_str v ≫= of_value.

Definition action_result_fields : list string :=
  ["result_id"; "action_id"; "run_id"; "outcome"; "dispatch_state"; "device_state"; "error_code"; "error_reason";
   "started_at"; "ended_at"; "clock_id"; "retry_count"; "entity_id"; "resulting_location"; "evidence_refs"].

(** [TypedActionResult.validate_spatial_claim] *)
Definition validate_spatial_claim (r : ActionResult) : bool :=
  if decide (outcome_of r = ActionOutcome.COMPLETED)
  then Bool.eqb (bool_decide (is_Some (entity_id r))) (bool_decide (is_Some (resulting_location r)))
  else negb (bool_decide (is_Some (resulting_location r))).

(** [TypedActionResult.model_validate] *)
Definition typed_action_result (d : dict) : option ActionResult :=
  result_id ← field "result_id" d strict_text;
  action_id ← field "action_id" d strict_text;
  run_id ← field "run_id" d strict_text;
  started ← field "started_at" d strict_text;
  ended ← field "ended_at" d strict_text;
  outcome ← field "outcome" d (enum_field ActionOutcome.t);
  dispatch ← field "dispatch_state" d (enum_field DispatchState.t);
  device ← field "device_state" d (enum_field DeviceState.t);
  clock ← match dict_get "clock_id" d with Some v => enum_field ClockId.t v | None => Some ClockId.MONOTONIC end;
  code ← nullable "error_code" d strict_int;
  reason ← nullable "error_reason" d any_text;
  retries ← match dict_get "retry_count" d with Some v => strict_int v | None => Some 0 end;
  entity ← nullable "entity_id" d strict_text;
  location ← nullable "resulting_location" d strict_text;
  refs ← match dict_get "evidence_refs" d with Some v => text_list v | None => Some [] end;
  let r := {| result_id := result_id; result_action_id := action_id; result_run_id := run_id; outcome_of := outcome;
              dispatch_state := dispatch; device_state := device; error_code := code; error_reason := reason;
              started_at := started; ended_at := ended; result_clock_id := clock; retry_count := retries;
              Contracts.entity_id := entity; resulting_location := location; result_evidence_refs := refs |} in
  if forallb (key_in action_result_fields) d.*1 && validate_completion_state r && validate_spatial_claim r
  then Some r else None.

(** [normalize_action_result_payload]; [expected] is [expected_action_id] *)
Definition normalize_action_result_payload (d : dict) (run_id : string) (refs : list string) (expected : option string)
    : outcome exn ActionResult :=
  let* r := of_valid (typed_action_result d) in
  ensure String.eqb (result_run_id r) run_id else EPayload in
  ensure match expected with Some a => String.eqb (result_action_id r) a | None => true end else EPayload in
  ensure bool_decide (result_evidence_refs r = refs) else EPayload in
  Ok r.

(** [result.model_dump(mode="json")] *)
Definition action_result_dump (r : ActionResult) : dict :=
  (λ '(k, v), (VStr k, v)) <$>
  [("result_id", VStr (result_id r)); ("action_id", VStr (result_action_id r)); ("run_id", VStr (result_run_id r));
   ("outcome", VStr (value (outcome_of r))); ("dispatch_state", VStr (value (dispatch_state r)));
   ("device_state", VStr (value (device_state r)));
   ("error_code", match error_code r with Some z => VInt z | None => VNone end);
   ("error_reason", option_str (error_reason r)); ("started_at", VStr (started_at r)); ("ended_at", VStr (ended_at r));
   ("clock_id", VStr (value (result_clock_id r))); ("retry_count", VInt (retry_count r));
   ("entity_id", option_str (entity_id r)); ("resulting_location", option_str (resulting_location r));
   ("evidence_refs", VList (VStr <$> result_evidence_refs r))].

(** ** [normalize_world_event] *)

Definition normalize_world_event (e : WorldEvent) (expected_action_id : option string) : outcome exn WorldEvent :=
  match event_type e with
  | WorldEventType.OBSERVATION => let* p := _normalize_observation_payload e in Ok (with_payload e p)
  | WorldEventType.ACTION_RESULT =>
      let* r := normalize_action_result_payload (payload e) (event_run_id e) (event_evidence_refs e) expected_action_id in
      Ok (with_payload e (action_result_dump r))
  | WorldEventType.RECOVERY_STARTED => let* p := normalize_recovery_payload (payload e) false in Ok (with_payload e p)
  | WorldEventType.RECOVERY_COMPLETE => let* p := normalize_recovery_payload (payload e) true in Ok (with_payload e p)
  | _ => Ok e
  end.
