(* ===== verification/Policy.v ===== *)
(** * Policy evidence

    The immutable records of [policy_validator.py] that the execution
    controller consumes: decisions, reports, and when a report authorizes. *)

From S2P Require Import Prelude PyVal Contracts.

Module PolicyOutcome.
Inductive t : Type :=
| ALLOW | DENY | CONFIRMATION_REQUIRED.
#[global] Instance eq_dec : EqDecision t.
Proof. solve_decision. Defined.
#[global] Instance enum : StrEnum t := {|
  value x := match x with
    | ALLOW => "allow"
    | DENY => "deny"
    | CONFIRMATION_REQUIRED => "confirmation_required"
    end;
  members := [ALLOW; DENY; CONFIRMATION_REQUIRED]
|}.
#[global] Instance laws : StrEnumLaws t.
Proof. solve_enum_laws. Qed.
End PolicyOutcome.

Module PolicyReasonCode.
Inductive t : Type :=
| POLICY_ALLOWED | POLICY_CONFIG_MISSING | POLICY_VERSION_BLANK
| POLICY_CONFIG_UNKNOWN_ACTION | POLICY_CONFIG_MALFORMED | CONFIRMATION_INPUT_MALFORMED
| TOOL_REGISTRY_DENIED | RAW_CONTROL_PARAMETER | POLICY_INPUT_MALFORMED
| ACTION_CONFIRMATION_REQUIRED.
#[global] Instance eq_dec : EqDecision t.
Proof. solve_decision. Defined.
#[global] Instance enum : StrEnum t := {|
  value x := match x with
    | POLICY_ALLOWED => "policy_allowed"
    | POLICY_CONFIG_MISSING => "policy_config_missing"
    | POLICY_VERSION_BLANK => "policy_version_blank"
    | POLICY_CONFIG_UNKNOWN_ACTION => "policy_config_unknown_action"
    | POLICY_CONFIG_MALFORMED => "policy_config_malformed"
    | CONFIRMATION_INPUT_MALFORMED => "confirmation_input_malformed"
    | TOOL_REGISTRY_DENIED => "tool_registry_denied"
    | RAW_CONTROL_PARAMETER => "raw_control_parameter"
    | POLICY_INPUT_MALFORMED => "policy_input_malformed"
    | ACTION_CONFIRMATION_REQUIRED => "action_confirmation_required"
    end;
  members := [POLICY_ALLOWED; POLICY_CONFIG_MISSING; POLICY_VERSION_BLANK; POLICY_CONFIG_UNKNOWN_ACTION; POLICY_CONFIG_MALFORMED; CONFIRMATION_INPUT_MALFORMED; TOOL_REGISTRY_DENIED; RAW_CONTROL_PARAMETER; POLICY_INPUT_MALFORMED; ACTION_CONFIRMATION_REQUIRED]
|}.
#[global] Instance laws : StrEnumLaws t.
Proof. solve_enum_laws. Qed.
End PolicyReasonCode.

Record PolicyFinding := {
  finding_step_id : string;
  finding_action_id : string;
  finding_field : string;
  finding_message : string
}.

Record PolicyDecision := {
  decision_step_id : string;
  decision_action_id : string;
  decision_outcome : PolicyOutcome.t;
  decision_reason : PolicyReasonCode.t;
  policy_version : option string;
  decision_findings : list PolicyFinding
}.

(** An element of [report.decisions]: an injected validator may return anything. *)
Inductive decision_obj : Type :=
| ADecision (d : PolicyDecision)
| NotADecision (ty : string).

Record PolicyReport := {
  decisions_is_tuple : bool;
  decisions : list decision_obj
}.

Definition decision_allows (d : decision_obj) : bool :=
  match d with
  | ADecision d => bool_decide (decision_outcome d = PolicyOutcome.ALLOW)
  | NotADecision _ => false
  end.

(** [PolicyReport.is_valid] *)
Definition is_valid (r : PolicyReport) : bool := forallb decision_allows (decisions r).

(** [PolicyReport.findings] *)
Definition report_findings (r : PolicyReport) : list PolicyFinding :=
  mjoin ((λ d, match d with
               | ADecision d => decision_findings d
               | NotADecision _ => [] end) <$> decisions r).

Lemma is_valid_elem r d :
  is_valid r = true → ADecision d ∈ decisions r → decision_outcome d = PolicyOutcome.ALLOW.
Proof.
  unfold is_valid. rewrite forallb_forall. intros H Hd.
  apply list_elem_of_In, H in Hd. by apply bool_decide_eq_true in Hd.
Qed.
