(* ===== verification/ToolRegistry.v ===== *)
(** * Tool registry

    [services/agent_runtime/workbench_agent_runtime/tool_registry.py] and the
    schemas of [tool_schemas.py]: which parameters an action may carry.  A schema
    is a record of the kinds of value that [register] accepts, so that what is
    left of [_validate_schema] are the conditions between its parts.  Parameter
    names are text, as the field's type [dict[str, Any]] makes them; the wording
    of an error is its constructor with the data that goes into the message. *)

From Stdlib Require Import ZArith String SpecFloat.
From S2P Require Import Prelude PyVal Contracts.
Local Open Scope Z_scope.

(** ** Schemas *)

(** [_SUPPORTED_PARAM_TYPES] *)
Inductive param_type : Type := TStr | TInt | TFloat | TBool | TList.
#[global] Instance param_type_eq_dec : EqDecision param_type.
Proof. solve_decision. Defined.

(** One entry of [param_constraints]; a bound is a [VInt] or a [VFloat]. *)
Record rules := {
  non_blank_rule : bool;
  finite_rule : bool;
  minimum : option pyval;
  maximum : option pyval
}.

Record schema := {
  target_id_required : bool;
  required_params : list string;
  optional_params : list string;
  param_types : list (string * param_type);
  param_constraints : list (string * rules);
  relational_constraints : list string
}.

(** [required | optional] *)
Definition allowed_params (s : schema) : list string := required_params s ++ optional_params s.

(** [d.get(k)] on an association list *)
Fixpoint assoc {A} (k : string) (l : list (string * A)) : option A :=
  match l with
  | [] => None
  | (k', v) :: l' => if String.eqb k k' then Some v else assoc k l'
  end.

(** ** Numbers *)

(** [isinstance(v, int | float)] of a value that is not a bool *)
Definition is_number (v : pyval) : bool := match v with VInt _ | VFloat _ => true | _ => false end.

(** [_is_finite_number] *)
Definition _is_finite_number (v : pyval) : bool :=
  match v with VInt _ => true | VFloat f => isfinite f | _ => false end.

(** [n < f] for an integer and a float, compared exactly *)
Definition int_float_ltb (n : Z) (f : spec_float) : bool :=
  match f with
  | S754_zero _ => n <? 0
  | S754_infinity s => negb s
  | S754_nan => false
  | S754_finite s m e =>
      let m' := if s then Z.neg m else Z.pos m in
      if 0 <=? e then n <? m' * 2 ^ e else n * 2 ^ (- e) <? m'
  end.

(** [f < n] *)
Definition float_int_ltb (f : spec_float) (n : Z) : bool :=
  match f with
  | S754_zero _ => 0 <? n
  | S754_infinity s => s
  | S754_nan => false
  | S754_finite s m e =>
      let m' := if s then Z.neg m else Z.pos m in
      if 0 <=? e then m' * 2 ^ e <? n else m' <? n * 2 ^ (- e)
  end.

(** [a < b] on numbers *)
Definition num_ltb (a b : pyval) : bool :=
  match a, b with
  | VInt x, VInt y => x <? y
  | VInt x, VFloat g => int_float_ltb x g
  | VFloat f, VInt y => float_int_ltb f y
  | VFloat f, VFloat g => float_lt f g
  | _, _ => false
  end.

(** ** [_validate_schema] *)

Definition subset (l1 l2 : list string) : bool := forallb (λ x, str_in x l2) l1.

Definition valid_bound (b : option pyval) : bool :=
  match b with Some v => is_number v && _is_finite_number v | None => true end.

(** One iteration of [_validate_param_constraints] *)
Definition valid_rules (types : list (string * param_type)) (name : string) (r : rules) : bool :=
  let ty := assoc name types in
  (negb (non_blank_rule r) || bool_decide (ty = Some TStr)) &&
  (negb (finite_rule r || bool_decide (is_Some (minimum r)) || bool_decide (is_Some (maximum r))) ||
   bool_decide (ty = Some TInt) || bool_decide (ty = Some TFloat)) &&
  valid_bound (minimum r) && valid_bound (maximum r) &&
  match minimum r, maximum r with Some lo, Some hi => negb (num_ltb hi lo) | _, _ => true end.

Definition _validate_param_constraints (s : schema) : bool :=
  subset (param_constraints s).*1 (allowed_params s) &&
  forallb (λ '(name, r), valid_rules (param_types s) name r) (param_constraints s).

(** [_DESTINATION_COUNT_PARAMS] *)
Definition _DESTINATION_COUNT_PARAMS : list string :=
  ["destination_capacity"; "destination_occupancy_after"; "destination_remaining_after"].

Definition _validate_schema (s : schema) : bool :=
  forallb (λ x, negb (str_in x (optional_params s))) (required_params s) &&
  subset (allowed_params s) (param_types s).*1 && subset (param_types s).*1 (allowed_params s) &&
  _validate_param_constraints s &&
  subset (relational_constraints s) ["destination_counts_consistent"] &&
  (negb (str_in "destination_counts_consistent" (relational_constraints s)) ||
   (subset _DESTINATION_COUNT_PARAMS (allowed_params s) &&
    forallb (λ n, bool_decide (assoc n (param_types s) = Some TInt)) _DESTINATION_COUNT_PARAMS)).

(** ** The registry *)

Definition ToolRegistry : Type := list (ActionType.t * schema).

Fixpoint lookup_schema (t : ActionType.t) (r : ToolRegistry) : option schema :=
  match r with
  | [] => None
  | (t', s) :: r' => if decide (t = t') then Some s else lookup_schema t r'
  end.

(** [register]; [None] is its ValueError. *)
Definition register (t : ActionType.t) (s : schema) (r : ToolRegistry) : option ToolRegistry :=
  match lookup_schema t r with
  | Some _ => None
  | None => if _validate_schema s then Some (r ++ [(t, s)]) else None
  end.

(** [list_all] *)
Definition list_all (r : ToolRegistry) : list ActionType.t := r.*1.

(** ** [validate] *)

Inductive tool_error : Type :=
| UnknownActionType (t : ActionType.t)
| TargetRequired
| ForbiddenKeys (keys : list pyval)
| MissingKeys (keys : list string)
| WrongType (key : string) (expected : param_type) (got : string)
| Blank (key : string)
| NotFinite (key : string)
| BelowMinimum (key : string)
| AboveMaximum (key : string)
| CountsIncomplete (missing : list string)
| CountsInconsistent
| UnknownEmotion (e : string)
| UnknownAttributes (attrs : list pyval)
| NonStringAttributes (attrs : list pyval).

(** The [field] of the [ValidationError] *)
Definition error_field (e : tool_error) : string :=
  match e with
  | UnknownActionType _ => "action_type"
  | TargetRequired => "target_id"
  | ForbiddenKeys _ | MissingKeys _ | CountsIncomplete _ | CountsInconsistent => "parameters"
  | WrongType k _ _ | Blank k | NotFinite k | BelowMinimum k | AboveMaximum k => "parameters." +:+ k
  | UnknownEmotion _ => "parameters.emotion_state"
  | UnknownAttributes _ | NonStringAttributes _ => "parameters.attributes"
  end.

Record ValidationResult := { result_valid : bool; validated_action_id : string; errors : list tool_error }.

(** [ValidationResult.fail] and [ValidationResult.ok] *)
Definition fail (id : string) (es : list tool_error) : ValidationResult :=
  {| result_valid := false; validated_action_id := id; errors := es |}.
Definition ok (id : string) : ValidationResult :=
  {| result_valid := true; validated_action_id := id; errors := [] |}.

(** [isinstance] as step 4 uses it for each declared type *)
Definition has_type (ty : param_type) (v : pyval) : bool :=
  match ty, v with
  | TBool, VBool _ => true
  | TInt, VInt _ => true
  | TFloat, (VInt _ | VFloat _) => true
  | TStr, (VStr _ | VEnum _ _) => true
  | TList, VList _ => true
  | _, _ => false
  end.

(** Step 4: type safety *)
Definition type_errors (types : list (string * param_type)) (params : list (pyval * pyval)) : list tool_error :=
  mjoin ((λ '(k, v),
    match as_str k with
    | None => []
    | Some key =>
        match assoc key types with
        | None => []
        | Some ty => if has_type ty v then [] else [WrongType key ty (type_name v)]
        end
    end) <$> params).

(** One iteration of [_validate_parameter_values] *)
Definition value_errors (params : list (pyval * pyval)) (c : string * rules) : list tool_error :=
  let '(name, r) := c in
  match dict_get name params with
  | None => []
  | Some v =>
      (if non_blank_rule r && match as_str v with Some s => negb (non_blank s) | None => false end
       then [Blank name] else []) ++
      (if finite_rule r && is_number v && negb (_is_finite_number v) then [NotFinite name]
       else
         (match minimum r with Some lo => if num_ltb v lo then [BelowMinimum name] else [] | None => [] end) ++
         (match maximum r with Some hi => if num_ltb hi v then [AboveMaximum name] else [] | None => [] end))
  end.

Definition _validate_parameter_values (params : list (pyval * pyval)) (cs : list (string * rules)) : list tool_error :=
  mjoin (value_errors params <$> cs).

Definition present (params : list (pyval * pyval)) (k : string) : bool := bool_decide (is_Some (dict_get k params)).

Definition int_of (v : option pyval) : Z := match v with Some (VInt z) => z | _ => 0 end.

(** [_validate_parameter_relations] *)
Definition _validate_parameter_relations (params : list (pyval * pyval)) (relations : list string) : list tool_error :=
  if str_in "destination_counts_consistent" relations && existsb (present params) _DESTINATION_COUNT_PARAMS then
    let missing := filter (λ k, present params k = false) _DESTINATION_COUNT_PARAMS in
    match missing with
    | [] =>
        if int_of (dict_get "destination_capacity" params) =?
           int_of (dict_get "destination_occupancy_after" params) +
           int_of (dict_get "destination_remaining_after" params)
        then [] else [CountsInconsistent]
    | _ => [CountsIncomplete missing]
    end
  else [].

Definition EXPRESS_EMOTION_STATES : list string := ["idle"; "thinking"; "uncertain"; "pleased"].
Definition KNOWN_OBSERVE_ATTRIBUTES : list string :=
  ["presence"; "identity"; "orientation"; "label_status"; "condition"; "tracking_id"; "barcode"; "parcel_uid"].

Definition known_attribute (v : pyval) : bool :=
  match as_str v with Some s => str_in s KNOWN_OBSERVE_ATTRIBUTES | None => false end.

(** Step 6: semantic constraints *)
Definition semantic_errors (t : ActionType.t) (params : list (pyval * pyval)) : list tool_error :=
  match t with
  | ActionType.EXPRESS =>
      match dict_get "emotion_state" params ≫= as_str with
      | Some e => if str_in e EXPRESS_EMOTION_STATES then [] else [UnknownEmotion e]
      | None => []
      end
  | ActionType.OBSERVE =>
      match dict_get "attributes" params with
      | Some (VList attrs) =>
          let unknown := filter (λ a, known_attribute a = false) attrs in
          let non_strings := filter (λ a, as_str a = None) attrs in
          (match unknown with [] => [] | _ => [UnknownAttributes unknown] end) ++
          (match non_strings with [] => [] | _ => [NonStringAttributes non_strings] end)
      | _ => []
      end
  | _ => []
  end.

(** Steps 2 and 3: the target and the set of keys *)
Definition field_errors (s : schema) (a : SemanticAction) : list tool_error :=
  let extra := unknown_keys (allowed_params s) (parameters a) in
  let missing := filter (λ k, present (parameters a) k = false) (required_params s) in
  (if target_id_required s && negb match target_id a with Some t => non_blank t | None => false end
   then [TargetRequired] else []) ++
  (match extra with [] => [] | _ => [ForbiddenKeys extra] end) ++
  (match missing with [] => [] | _ => [MissingKeys missing] end).

(** [ToolRegistry.validate] *)
Definition validate (r : ToolRegistry) (a : SemanticAction) : ValidationResult :=
  match lookup_schema (action_type a) r with
  | None => fail (action_id a) [UnknownActionType (action_type a)]
  | Some s =>
      match field_errors s a with
      | [] =>
          match type_errors (param_types s) (parameters a) with
          | [] =>
              match _validate_parameter_values (parameters a) (param_constraints s) ++
                    _validate_parameter_relations (parameters a) (relational_constraints s) ++
                    semantic_errors (action_type a) (parameters a) with
              | [] => ok (action_id a)
              | es => fail (action_id a) es
              end
          | es => fail (action_id a) es
          end
      | es => fail (action_id a) es
      end
  end.

(** ** The default schemas ([tool_schemas.py]) *)

(** A string that must not be blank *)
Definition text : rules := {| non_blank_rule := true; finite_rule := false; minimum := None; maximum := None |}.

Definition schema_OBSERVE : schema := {|
  target_id_required := false;
  required_params := [];
  optional_params := ["required_confidence"; "attributes"];
  param_types := [("required_confidence", TFloat); ("attributes", TList)];
  param_constraints := [("required_confidence", {| non_blank_rule := false; finite_rule := true;
    minimum := Some (VFloat float_zero); maximum := Some (VFloat (float_of_Z 1)) |})];
  relational_constraints := [] |}.

Definition schema_GRASP : schema := {|
  target_id_required := true;
  required_params := [];
  optional_params := [];
  param_types := [];
  param_constraints := [];
  relational_constraints := [] |}.

Definition schema_PLACE : schema := {|
  target_id_required := true;
  required_params := ["destination_id"];
  optional_params := ["routing_reason"; "routing_priority"; "policy_version"; "identity_guard";
    "manifest_guard"; "manifest_id"; "destination_capacity"; "destination_occupancy_after";
    "destination_remaining_after"];
  param_types := [("destination_id", TStr); ("routing_reason", TStr); ("routing_priority", TStr);
    ("policy_version", TStr); ("identity_guard", TStr); ("manifest_guard", TStr); ("manifest_id", TStr);
    ("destination_capacity", TInt); ("destination_occupancy_after", TInt);
    ("destination_remaining_after", TInt)];
  param_constraints := [("destination_id", text);
    ("routing_reason", text);
    ("routing_priority", text);
    ("policy_version", text);
    ("identity_guard", text);
    ("manifest_guard", text);
    ("manifest_id", text);
    ("destination_capacity", {| non_blank_rule := false; finite_rule := false; minimum := Some (VInt 0);
    maximum := None |});
    ("destination_occupancy_after", {| non_blank_rule := false; finite_rule := false;
    minimum := Some (VInt 0); maximum := None |});
    ("destination_remaining_after", {| non_blank_rule := false; finite_rule := false;
    minimum := Some (VInt 0); maximum := None |})];
  relational_constraints := ["destination_counts_consistent"] |}.

Definition schema_ASK_CONFIRM : schema := {|
  target_id_required := false;
  required_params := ["question"];
  optional_params := ["timeout_s"];
  param_types := [("question", TStr); ("timeout_s", TInt)];
  param_constraints := [("question", text);
    ("timeout_s", {| non_blank_rule := false; finite_rule := false; minimum := Some (VInt 1);
    maximum := Some (VInt 600) |})];
  relational_constraints := [] |}.

Definition schema_EXPRESS : schema := {|
  target_id_required := false;
  required_params := ["emotion_state"];
  optional_params := ["duration_ms"];
  param_types := [("emotion_state", TStr); ("duration_ms", TInt)];
  param_constraints := [("emotion_state", text);
    ("duration_ms", {| non_blank_rule := false; finite_rule := false; minimum := Some (VInt 1);
    maximum := Some (VInt 600000) |})];
  relational_constraints := [] |}.

Definition schema_NAVIGATE : schema := {|
  target_id_required := true;
  required_params := [];
  optional_params := [];
  param_types := [];
  param_constraints := [];
  relational_constraints := [] |}.

Definition schema_OPEN : schema := {|
  target_id_required := true;
  required_params := [];
  optional_params := [];
  param_types := [];
  param_constraints := [];
  relational_constraints := [] |}.

Definition schema_CLOSE : schema := {|
  target_id_required := true;
  required_params := [];
  optional_params := [];
  param_types := [];
  param_constraints := [];
  relational_constraints := [] |}.

Definition schema_STOP : schema := {|
  target_id_required := false;
  required_params := [];
  optional_params := ["reason"];
  param_types := [("reason", TStr)];
  param_constraints := [("reason", text)];
  relational_constraints := [] |}.

(** [TOOL_SCHEMAS] *)
Definition TOOL_SCHEMAS : list (ActionType.t * schema) :=
  [(ActionType.OBSERVE, schema_OBSERVE);
   (ActionType.GRASP, schema_GRASP);
   (ActionType.PLACE, schema_PLACE);
   (ActionType.ASK_CONFIRM, schema_ASK_CONFIRM);
   (ActionType.EXPRESS, schema_EXPRESS);
   (ActionType.NAVIGATE, schema_NAVIGATE);
   (ActionType.OPEN, schema_OPEN);
   (ActionType.CLOSE, schema_CLOSE);
   (ActionType.STOP, schema_STOP)].

(** [ToolRegistry.__init__]: registers the default schemas one by one. *)
Definition new_registry : option ToolRegistry :=
  foldl (λ r '(t, s), r ≫= register t s) (Some []) TOOL_SCHEMAS.
