(* ===== verification/ToolRegistryTheorems.v ===== *)
(** * Tool registry: theorems

    [validate] accepts exactly the actions that conform to the registered schema
    of their type; the default registry is built without an error and what it
    accepts is bounded. *)

From Stdlib Require Import ZArith String SpecFloat.
From S2P Require Import Prelude PyVal Contracts ToolRegistry.
Local Open Scope Z_scope.

(** ** Conformance, without the order of the checks *)

(** A value meets its declared constraints. *)
Definition meets (r : rules) (v : pyval) : Prop :=
  (non_blank_rule r = true → ∀ s, as_str v = Some s → non_blank s = true) ∧
  (finite_rule r = true → is_number v = true → _is_finite_number v = true) ∧
  (∀ lo, minimum r = Some lo → num_ltb v lo = false) ∧
  (∀ hi, maximum r = Some hi → num_ltb hi v = false).

(** The destination counts are absent, or all present and consistent. *)
Definition counts_ok (params : list (pyval * pyval)) : Prop :=
  (∀ k, k ∈ _DESTINATION_COUNT_PARAMS → dict_get k params = None) ∨
  (∀ k, k ∈ _DESTINATION_COUNT_PARAMS → is_Some (dict_get k params)) ∧
  int_of (dict_get "destination_capacity" params) =
  int_of (dict_get "destination_occupancy_after" params) + int_of (dict_get "destination_remaining_after" params).

Record conforms (s : schema) (a : SemanticAction) : Prop := {
  c_target : target_id_required s = true → ∃ t, target_id a = Some t ∧ non_blank t = true;
  c_keys k v : (k, v) ∈ parameters a → ∃ key, as_str k = Some key ∧ key ∈ allowed_params s ∧
    ∀ ty, assoc key (param_types s) = Some ty → has_type ty v = true;
  c_required k : k ∈ required_params s → is_Some (dict_get k (parameters a));
  c_values n r v : (n, r) ∈ param_constraints s → dict_get n (parameters a) = Some v → meets r v;
  c_counts : "destination_counts_consistent" ∈ relational_constraints s → counts_ok (parameters a);
  c_emotion v e : action_type a = ActionType.EXPRESS → dict_get "emotion_state" (parameters a) = Some v →
    as_str v = Some e → e ∈ EXPRESS_EMOTION_STATES;
  c_attributes l v : action_type a = ActionType.OBSERVE → dict_get "attributes" (parameters a) = Some (VList l) →
    v ∈ l → ∃ s, as_str v = Some s ∧ s ∈ KNOWN_OBSERVE_ATTRIBUTES
}.

(** ** Each list of errors is empty exactly when its condition holds *)

Lemma match_nil {A B} (l : list A) (x : B) : (match l with [] => [] | _ => [x] end) = [] ↔ l = [].
Proof. by destruct l. Qed.

Lemma filter_nil_iff {A} (P : A → Prop) `{∀ x, Decision (P x)} l : filter P l = [] ↔ ∀ x, x ∈ l → ¬ P x.
Proof.
  split.
  - intros Hf x Hx HP. assert (x ∈ filter P l) by by apply list_elem_of_filter. rewrite Hf in *. set_solver.
  - intros H'. destruct (filter P l) as [|x l'] eqn:E; [done|].
    assert (x ∈ filter P l) as [HP Hx]%list_elem_of_filter by (rewrite E; by left). by destruct (H' x).
Qed.

Lemma mjoin_nil_iff {A B} (f : A → list B) l : mjoin (f <$> l) = [] ↔ ∀ x, x ∈ l → f x = [].
Proof.
  induction l as [|x l IH]; simpl; [set_solver|]. rewrite app_nil, IH. set_solver.
Qed.

Lemma present_false params k : present params k = false ↔ dict_get k params = None.
Proof. unfold present. rewrite bool_decide_eq_false, <- eq_None_not_Some. done. Qed.

Lemma field_errors_nil s a :
  field_errors s a = [] ↔
  (target_id_required s = true → ∃ t, target_id a = Some t ∧ non_blank t = true) ∧
  (∀ k v, (k, v) ∈ parameters a → ∃ key, as_str k = Some key ∧ key ∈ allowed_params s) ∧
  (∀ k, k ∈ required_params s → is_Some (dict_get k (parameters a))).
Proof.
  unfold field_errors, unknown_keys. rewrite !app_nil, !match_nil, !filter_nil_iff.
  assert (((if target_id_required s && negb match target_id a with Some t => non_blank t | None => false end
    then [TargetRequired] else []) = []) ↔
    (target_id_required s = true → ∃ t, target_id a = Some t ∧ non_blank t = true)) as ->.
  { destruct (target_id_required s); simpl; [|by split]. destruct (target_id a) as [t|]; simpl.
    - destruct (non_blank t) eqn:E; simpl; split; try done; [intros _ _; by exists t|].
      intros H. destruct (H eq_refl) as (? & [= <-] & ?). congruence.
    - split; [done|]. intros H. by destruct (H eq_refl) as (? & ? & _). }
  assert ((∀ x, x ∈ (parameters a).*1 → ¬ key_in (allowed_params s) x = false) ↔
    (∀ k v, (k, v) ∈ parameters a → ∃ key, as_str k = Some key ∧ key ∈ allowed_params s)) as ->.
  { unfold key_in. split.
    - intros H k v Hkv. specialize (H k). destruct (as_str k) as [key|].
      + exists key. split; [done|]. apply str_in_spec, not_false_iff_true, H. apply list_elem_of_fmap. by exists (k, v).
      + destruct H; [|done]. apply list_elem_of_fmap. by exists (k, v).
    - intros H x ([k v] & -> & Hkv)%list_elem_of_fmap. destruct (H k v Hkv) as (key & Hk & Hin). simpl. rewrite Hk.
      apply not_false_iff_true. by apply str_in_spec. }
  assert ((∀ k, k ∈ required_params s → ¬ present (parameters a) k = false) ↔
    (∀ k, k ∈ required_params s → is_Some (dict_get k (parameters a)))) as ->; [|done].
  setoid_rewrite present_false. setoid_rewrite <- not_eq_None_Some. done.
Qed.

Lemma type_errors_nil types params :
  type_errors types params = [] ↔
  ∀ k v key ty, (k, v) ∈ params → as_str k = Some key → assoc key types = Some ty → has_type ty v = true.
Proof.
  unfold type_errors. rewrite mjoin_nil_iff. split.
  - intros H k v key ty Hin Hk Hty. specialize (H _ Hin). simpl in H. rewrite Hk, Hty in H. by destruct (has_type ty v).
  - intros H [k v] Hin. destruct (as_str k) as [key|] eqn:Hk; [|done].
    destruct (assoc key types) as [ty|] eqn:Hty; [|done]. by rewrite (H k v key ty).
Qed.

Lemma if_nil {A} (b : bool) (x : A) l : (if b then [x] else l) = [] ↔ b = false ∧ l = [].
Proof. destruct b; naive_solver. Qed.

Lemma bound_nil {A B} (m : option A) (b : A → bool) (x : B) :
  (match m with Some y => if b y then [x] else [] | None => [] end) = [] ↔ ∀ y, m = Some y → b y = false.
Proof.
  destruct m as [y|]; [|by split]. rewrite if_nil. split; [by intros [? _] ? [= <-]|]. intros H. split; [by apply H|done].
Qed.

Lemma value_errors_nil params n r :
  value_errors params (n, r) = [] ↔ ∀ v, dict_get n params = Some v → meets r v.
Proof.
  unfold value_errors. destruct (dict_get n params) as [v|]; [|by split].
  transitivity (meets r v); [|by split; [intros ? ? [= <-]|eauto]].
  unfold meets. rewrite app_nil, !if_nil, app_nil, (bound_nil (minimum r) (num_ltb v)),
    (bound_nil (maximum r) (λ hi, num_ltb hi v)).
  assert (non_blank_rule r && match as_str v with Some s => negb (non_blank s) | None => false end = false ↔
    (non_blank_rule r = true → ∀ s, as_str v = Some s → non_blank s = true)) as ->.
  { destruct (non_blank_rule r), (as_str v) as [s|]; simpl; try by split.
    rewrite negb_false_iff. split; [by intros ? _ ? [= <-]|auto]. }
  assert (finite_rule r && is_number v && negb (_is_finite_number v) = false ↔
    (finite_rule r = true → is_number v = true → _is_finite_number v = true)) as ->; [|tauto].
  destruct (finite_rule r), (is_number v), (_is_finite_number v); simpl; split; auto; by intros ->.
Qed.

Lemma relations_nil params rel :
  _validate_parameter_relations params rel = [] ↔ ("destination_counts_consistent" ∈ rel → counts_ok params).
Proof.
  unfold _validate_parameter_relations. destruct (str_in _ rel) eqn:Hr.
  2: { apply not_true_iff_false in Hr. rewrite str_in_spec in Hr. naive_solver. }
  apply str_in_spec in Hr. cbn [andb]. destruct (existsb _ _) eqn:He.
  - assert (∃ k, k ∈ _DESTINATION_COUNT_PARAMS ∧ is_Some (dict_get k params)) as (k0 & Hk0 & Hs0).
    { apply existsb_exists in He as (k & Hk%list_elem_of_In & Hp). exists k. split; [done|].
      by apply bool_decide_eq_true in Hp. }
    destruct (filter (λ k, present params k = false) _DESTINATION_COUNT_PARAMS) as [|k1 ks] eqn:Hm.
    + assert (∀ k, k ∈ _DESTINATION_COUNT_PARAMS → is_Some (dict_get k params)) as Hall.
      { rewrite filter_nil_iff in Hm. intros k Hk. specialize (Hm k Hk). rewrite present_false in Hm.
        by apply not_eq_None_Some. }
      unfold counts_ok. destruct (Z.eqb_spec (int_of (dict_get "destination_capacity" params))
        (int_of (dict_get "destination_occupancy_after" params) + int_of (dict_get "destination_remaining_after" params)))
        as [Heq|Hne].
      * split; [|done]. intros _ _. by right.
      * split; [done|]. intros H. destruct (H Hr) as [Hn|[_ ?]]; [|done]. rewrite (Hn k0 Hk0) in Hs0. by destruct Hs0.
    + split; [done|]. intros H. exfalso.
      assert (k1 ∈ filter (λ k, present params k = false) _DESTINATION_COUNT_PARAMS) as [Hf Hin]%list_elem_of_filter
        by (rewrite Hm; by left). apply present_false in Hf.
      destruct (H Hr) as [Hn|[Ha _]]; [by rewrite (Hn k0 Hk0) in Hs0; destruct Hs0|].
      destruct (Ha k1 Hin) as [? Hx]. by rewrite Hf in Hx.
  - split; [|done]. intros _ _. left. intros k Hk. apply not_true_iff_false in He.
    destruct (dict_get k params) eqn:Hd; [|done]. destruct He. apply existsb_exists. exists k.
    split; [by apply list_elem_of_In|]. unfold present. apply bool_decide_eq_true. by rewrite Hd.
Qed.

Lemma semantic_errors_nil t params :
  semantic_errors t params = [] ↔
  (∀ v e, t = ActionType.EXPRESS → dict_get "emotion_state" params = Some v → as_str v = Some e →
     e ∈ EXPRESS_EMOTION_STATES) ∧
  (∀ l v, t = ActionType.OBSERVE → dict_get "attributes" params = Some (VList l) → v ∈ l →
     ∃ s, as_str v = Some s ∧ s ∈ KNOWN_OBSERVE_ATTRIBUTES).
Proof.
  destruct t; simpl; try (by split).
  - transitivity (∀ l v, dict_get "attributes" params = Some (VList l) → v ∈ l →
      ∃ s, as_str v = Some s ∧ s ∈ KNOWN_OBSERVE_ATTRIBUTES); [|by split; [intros H; split; [done|]; eauto|intros [_ H]; eauto]].
    destruct (dict_get "attributes" params) as [[]|]; try by split.
    rewrite app_nil, !match_nil, !filter_nil_iff. unfold known_attribute. split.
    + intros [H _] l' v [= <-] Hv. specialize (H v Hv). destruct (as_str v) as [s|]; [|done].
      exists s. split; [done|]. by apply str_in_spec, not_false_iff_true.
    + intros H. split; intros v Hv; destruct (H l v eq_refl Hv) as (s & Hs & Hin); [|congruence].
      rewrite Hs. apply not_false_iff_true. by apply str_in_spec.
  - transitivity (∀ v e, dict_get "emotion_state" params = Some v → as_str v = Some e → e ∈ EXPRESS_EMOTION_STATES);
      [|by split; [intros H; split; [|done]; eauto|intros [H _]; eauto]].
    destruct (dict_get "emotion_state" params) as [v|]; simpl; [|by split].
    destruct (as_str v) as [e|] eqn:He; [|split; [intros _ ? ? [= <-] ?; congruence|done]].
    destruct (str_in e EXPRESS_EMOTION_STATES) eqn:Hin.
    + split; [|done]. intros _ v' e' [= <-] He'. apply str_in_spec. congruence.
    + split; [done|]. intros H. apply not_true_iff_false in Hin. destruct Hin. apply str_in_spec. by eapply H.
Qed.

(** The staged checks are empty exactly on conforming actions. *)
Lemma conforms_errors s a :
  conforms s a ↔ field_errors s a = [] ∧ type_errors (param_types s) (parameters a) = [] ∧
    _validate_parameter_values (parameters a) (param_constraints s) ++
    _validate_parameter_relations (parameters a) (relational_constraints s) ++
    semantic_errors (action_type a) (parameters a) = [].
Proof.
  rewrite field_errors_nil, type_errors_nil, !app_nil, relations_nil, semantic_errors_nil.
  unfold _validate_parameter_values. rewrite mjoin_nil_iff. split.
  - intros [C1 C2 C3 C4 C5 C6 C7]. split_and!; try done.
    + intros k v Hkv. destruct (C2 k v Hkv) as (key & ? & ? & _). eauto.
    + intros k v key ty Hkv Hk Hty. destruct (C2 k v Hkv) as (key' & Hk' & _ & Ht). apply Ht. congruence.
    + intros [n rl] Hin. apply value_errors_nil. eauto.
  - intros ((C1 & C2 & C3) & C4 & C5 & C6 & C7 & C8). split; try done.
    + intros k v Hkv. destruct (C2 k v Hkv) as (key & Hk & Hin). exists key. split_and!; [done..|]. intros ty. by eapply C4.
    + intros n rl v Hin. by apply value_errors_nil, (C5 (n, rl)).
Qed.

Lemma validate_conforms r a :
  result_valid (validate r a) = true ↔ ∃ s, lookup_schema (action_type a) r = Some s ∧ conforms s a.
Proof.
  unfold validate. destruct (lookup_schema (action_type a) r) as [s|]; [|by split; [|intros (? & ? & _)]].
  transitivity (conforms s a); [|split; [eauto|by intros (? & [= <-] & ?)]]. rewrite conforms_errors.
  destruct (field_errors s a); [|by split; [|intros (? & _)]].
  destruct (type_errors _ _); [|by split; [|intros (_ & ? & _)]].
  destruct (_ ++ _); by split; [|intros (_ & _ & ?)].
Qed.

Lemma validate_errors r a :
  (result_valid (validate r a) = false ↔ errors (validate r a) ≠ []) ∧ validated_action_id (validate r a) = action_id a.
Proof.
  unfold validate. destruct (lookup_schema _ _) as [s|]; [|done]. destruct (field_errors s a); [|done].
  destruct (type_errors _ _); [|done]. by destruct (_ ++ _).
Qed.

(** C8: the registry's staged checks - target, key set, types, ranges,
    relations, action-specific lists - accept an action exactly when its type is
    registered and it conforms to the schema of that type, stated without their
    order; a refusal always carries an error, and the result names the action. *)
Theorem validate_is_conformance r a :
  (result_valid (validate r a) = true ↔ ∃ s, lookup_schema (action_type a) r = Some s ∧ conforms s a) ∧
  (result_valid (validate r a) = false ↔ errors (validate r a) ≠ []) ∧
  validated_action_id (validate r a) = action_id a.
Proof. split; [apply validate_conforms|apply validate_errors]. Qed.

(** ** The default registry *)

Definition default_registry : ToolRegistry := TOOL_SCHEMAS.

Lemma new_registry_ok : new_registry = Some default_registry.
Proof. vm_compute. reflexivity. Qed.

(** Parameter keys are distinct, as in any dict. *)
Definition distinct_keys (params : list (pyval * pyval)) : Prop := NoDup (as_str <$> params.*1).

Lemma dict_get_elem params k v key :
  distinct_keys params → (k, v) ∈ params → as_str k = Some key → dict_get key params = Some v.
Proof.
  unfold distinct_keys. induction params as [|[k0 v0] params IH]; [by intros _ []%elem_of_nil|].
  cbn [fmap list_fmap dict_get fst]. intros [Hn Hnd]%NoDup_cons [[= <- <-]|Hin]%elem_of_cons Hk.
  - by rewrite decide_True.
  - rewrite decide_False; [by apply IH|]. intros Hk0. apply Hn. rewrite Hk0, <- Hk.
    apply list_elem_of_fmap. exists k. split; [done|]. apply list_elem_of_fmap. by exists (k, v).
Qed.

(** What a parameter value of an accepted action can be. *)
Inductive plain_value : pyval → Prop :=
| plain_text v s : as_str v = Some s → non_blank s = true → plain_value v
| plain_int z : 0 <= z → plain_value (VInt z)
| plain_float f : isfinite f = true → float_lt f float_zero = false → float_lt (float_of_Z 1) f = false →
    plain_value (VFloat f)
| plain_attributes l : (∀ v, v ∈ l → ∃ s, as_str v = Some s ∧ s ∈ KNOWN_OBSERVE_ATTRIBUTES) → plain_value (VList l).

Definition targets_something (t : ActionType.t) : bool :=
  match t with
  | ActionType.GRASP | ActionType.PLACE | ActionType.NAVIGATE | ActionType.OPEN | ActionType.CLOSE => true
  | _ => false
  end.

Lemma plain_typed_text v : has_type TStr v = true → meets text v → plain_value v.
Proof.
  intros Ht [Hb _]. destruct v; try done; (eapply plain_text; [done|by apply Hb]).
Qed.

Lemma plain_typed_int v r lo : has_type TInt v = true → meets r v → minimum r = Some (VInt lo) → 0 <= lo → plain_value v.
Proof.
  intros Ht (_ & _ & Hm & _) Hr Hlo. destruct v as [| |z| | | | | | | | |]; try done. specialize (Hm _ Hr).
  simpl in Hm. apply plain_int. lia.
Qed.

Lemma plain_typed_fraction v r :
  has_type TFloat v = true → meets r v → finite_rule r = true → minimum r = Some (VFloat float_zero) →
  maximum r = Some (VFloat (float_of_Z 1)) → plain_value v.
Proof.
  intros Ht (_ & Hf & Hlo & Hhi) Hfin Hmin Hmax. specialize (Hf Hfin). specialize (Hlo _ Hmin). specialize (Hhi _ Hmax).
  destruct v as [| |z|f| | | | | | | |]; try done; simpl in *; [apply plain_int; lia|by apply plain_float; auto].
Qed.

Lemma assoc_elem {A} k (l : list (string * A)) x : assoc k l = Some x → (k, x) ∈ l.
Proof.
  induction l as [|[k' y] l IH]; simpl; [done|]. destruct (String.eqb_spec k k') as [->|]; [intros [= ->]; by left|].
  intros H. right. by apply IH.
Qed.

(** Every allowed parameter of a default schema is plain. *)
Lemma default_plain t s a key v :
  lookup_schema t default_registry = Some s → t = action_type a → conforms s a → key ∈ allowed_params s →
  (∀ ty, assoc key (param_types s) = Some ty → has_type ty v = true) →
  dict_get key (parameters a) = Some v → plain_value v.
Proof.
  intros Hs Ht C Hin Hty Hv. unfold allowed_params in Hin.
  assert (∀ r, assoc key (param_constraints s) = Some r → meets r v) as Hr
    by (intros r Hkr%assoc_elem; by eapply c_values).
  assert (t = ActionType.OBSERVE → ∀ l x, key = "attributes" → v = VList l → x ∈ l →
    ∃ a, as_str x = Some a ∧ a ∈ KNOWN_OBSERVE_ATTRIBUTES) as Hattr.
  { intros -> l x -> -> Hx. by apply (c_attributes s a C l x). }
  clear C Hv. destruct t; injection Hs as <-; simpl in Hin;
    repeat (apply elem_of_cons in Hin as [->|Hin]); try (by apply elem_of_nil in Hin);
    specialize (Hty _ eq_refl).
  all: first [ pose proof (Hr _ eq_refl) as Hm; clear Hr;
               first [ by apply plain_typed_text
                     | by apply (plain_typed_int _ _ _ Hty Hm eq_refl)
                     | by apply (plain_typed_fraction _ _ Hty Hm) ]
             | destruct v; try done; apply plain_attributes; eauto ].
Qed.

(** The default registry is built without an error, knows all nine action
    types, and bounds what it accepts: an action on a target names one, and
    every parameter is a non-blank text, a non-negative integer, a finite float
    between 0 and 1 or a list of known attribute names - never a nested object
    and never a key outside the schema. *)
Theorem accepted_actions_are_bounded a :
  new_registry = Some default_registry ∧ (∀ t, t ∈ list_all default_registry) ∧
  (distinct_keys (parameters a) → result_valid (validate default_registry a) = true →
   (targets_something (action_type a) = true → ∃ t, target_id a = Some t ∧ non_blank t = true) ∧
   (∀ s, lookup_schema (action_type a) default_registry = Some s → ∀ k v, (k, v) ∈ parameters a →
      (∃ key, as_str k = Some key ∧ key ∈ allowed_params s) ∧ plain_value v)).
Proof.
  split_and!; [apply new_registry_ok|by intros []; apply (bool_decide_unpack _); vm_compute|].
  intros Hd (s & Hs & C)%validate_conforms. split.
  - intros Ht. apply (c_target s a C). unfold default_registry in Hs.
    destruct (action_type a); try done; by injection Hs as <-.
  - intros s' Hs' k v Hkv. rewrite Hs in Hs'. injection Hs' as <-.
    destruct (c_keys s a C k v Hkv) as (key & Hk & Hin & Hty). split; [by exists key|].
    eapply default_plain; eauto using dict_get_elem.
Qed.
