(* ===== verification/PolicyValidator.v ===== *)
(** * Policy validator

    [services/agent_runtime/workbench_agent_runtime/policy_validator.py]: the
    configuration check, the registry check, the search for raw-control
    identifiers in parameters and the confirmation of high-impact actions.

    The search keeps the identities of the containers it has visited.  An
    identity is an address: [mem n] is the address of the container that is
    visited as the [n]-th item, and nothing stops two containers that do not
    live at the same time from having the same one.  Texts that only go into
    messages (list and key formatting) are parameters. *)

From Stdlib Require Import ZArith Ascii String.
From S2P Require Import Prelude PyVal Json Contracts Policy ToolRegistry.
Set Warnings "-register-all".
Local Open Scope Z_scope.

(** ** Characters and regular expressions *)

Definition is_lower (c : Z) : bool := between 97 122 c.
Definition is_upper (c : Z) : bool := between 65 90 c.
Definition is_alpha_ (c : Z) : bool := is_lower c || is_upper c || (c =? 95).
Definition is_alnum (c : Z) : bool := is_lower c || is_upper c || is_jdigit c.

(** [A-Za-z0-9_.\-\[\]] *)
Definition ident_char (c : Z) : bool :=
  is_alnum c || (c =? 95) || (c =? 46) || (c =? 45) || (c =? 91) || (c =? 93).

(** [str.isspace], which is also [\s] *)
Definition is_uspace (c : Z) : bool :=
  between 9 13 c || between 28 32 c || (c =? 133) || (c =? 160) || (c =? 5760) || between 8192 8202 c ||
  (c =? 8232) || (c =? 8233) || (c =? 8239) || (c =? 8287) || (c =? 12288).

(** [_PARAMETER_IDENTIFIER.fullmatch] *)
Definition is_parameter_identifier (s : ustr) : bool :=
  match s with c :: s' => is_alpha_ c && forallb ident_char s' | [] => false end.

Fixpoint take_while (f : Z → bool) (s : ustr) : ustr :=
  match s with c :: s' => if f c then c :: take_while f s' else [] | [] => [] end.

(** What may not stand before a serialized key: [A-Za-z0-9_.\-\]] *)
Definition blocks_key (prev : option Z) : bool :=
  match prev with Some c => is_alnum c || (c =? 95) || (c =? 46) || (c =? 45) || (c =? 93) | None => false end.

(** The rest after an equals sign with optional white space around it, or after a
    colon, if a character that is not white space follows; with the last
    character that was consumed *)
Definition after_separator (s : ustr) : option (Z * ustr) :=
  match expect 61 (drop_while is_uspace s) with
  | Some s' =>
      match drop_while is_uspace s' with
      | [] => None
      | rest => Some (default 61 (last (take_while is_uspace s')), rest)
      end
  | None =>
      match expect 58 s with
      | Some (c :: rest) => if is_uspace c then None else Some (58, c :: rest)
      | _ => None
      end
  end.

(** [_SERIALIZED_KEY.finditer]: the first groups of the matches *)
Fixpoint serialized_keys (fuel : nat) (prev : option Z) (s : ustr) : list ustr :=
  match fuel, s with
  | S fuel', c :: s' =>
      if is_alpha_ c && negb (blocks_key prev) then
        match after_separator (drop_while ident_char s') with
        | Some (lst, rest) => (c :: take_while ident_char s') :: serialized_keys fuel' (Some lst) rest
        | None => serialized_keys fuel' (Some c) s'
        end
      else serialized_keys fuel' (Some c) s'
  | _, _ => []
  end.

(** [str.casefold] on the characters that are left in tokens *)
Definition fold_char (c : Z) : Z := if is_upper c then c + 32 else c.

(** [_CAMEL_BOUNDARY.sub("_", s)] *)
Fixpoint separate_camel (prev : option Z) (s : ustr) : ustr :=
  match s with
  | [] => []
  | c :: s' =>
      let boundary := match prev with Some p => (is_lower p || is_jdigit p) && is_upper c | None => false end in
      (if boundary then [95; c] else [c]) ++ separate_camel (Some c) s'
  end.

(** [re.split(r"[^A-Za-z0-9]+", s)], including empty pieces *)
Fixpoint split_tokens (cur : ustr) (s : ustr) : list ustr :=
  match s with
  | [] => [cur]
  | c :: s' => if is_alnum c then split_tokens (cur ++ [c]) s' else cur :: split_tokens [] s'
  end.

Definition _RAW_CONTROL_TOKENS : list ustr := map ustr_of ["joint"; "velocity"; "torque"; "firmware"].

Definition starts_with (w s : ustr) : bool := bool_decide (is_Some (strip_prefix w s)).
Definition ends_with (w s : ustr) : bool := starts_with (reverse w) (reverse s).

(** [_contains_raw_control_token] *)
Definition _contains_raw_control_token (identifier : ustr) : bool :=
  let separated := separate_camel None identifier in
  let tokens := map (map fold_char) (split_tokens [] separated) in
  let compact := map fold_char (filter (λ c, is_alnum c = true) separated) in
  existsb (λ t, bool_decide (t ∈ _RAW_CONTROL_TOKENS)) tokens ||
  existsb (λ t, starts_with t compact || ends_with t compact) _RAW_CONTROL_TOKENS.

(** ** The scanned objects *)

Inductive node : Type :=
| NStr (s : ustr)
| NMap (kvs : list (option ustr * node))   (* [None]: a key that is not a string *)
| NSeq (l : list node)
| NOther.

Fixpoint node_of (v : pyval) : node :=
  match v with
  | VStr s | VEnum _ s => NStr (ustr_of s)
  | VDict kvs => NMap ((λ '(k, v), (ustr_of <$> as_str k, node_of v)) <$> kvs)
  | VList l | VTuple l => NSeq (node_of <$> l)
  | _ => NOther
  end.

Fixpoint node_of_json (j : json) : node :=
  match j with
  | JStr s => NStr s
  | JObj kvs => NMap ((λ '(k, v), (Some k, node_of_json v)) <$> kvs)
  | JArr l => NSeq (node_of_json <$> l)
  | JAtom => NOther
  end.

Definition is_container (n : node) : bool := match n with NMap _ | NSeq _ => true | _ => false end.

(** A path such as [parameters.a['b c'][0]] *)
Inductive seg : Type := Field (k : ustr) | Quoted (k : ustr) | Index (i : nat).
Abbreviation path := (list seg).

Definition key_seg (k : ustr) : seg := if is_parameter_identifier k then Field k else Quoted k.

(** Where a container comes from: the parameters, or the [g]-th string that was
    examined, as the decoded object itself or inside it *)
Inductive origin : Type := FromInput | DecodedRoot (g : nat) | DecodedInside (g : nat).

Definition inside (o : origin) : origin :=
  match o with FromInput => FromInput | DecodedRoot g | DecodedInside g => DecodedInside g end.

Record work := { w_item : node; w_path : path; w_depth : nat; w_origin : origin }.

(** [_PolicyInputMalformed] *)
Inductive malformed : Type := ScanLimit (p : path) | KeyNotString (p : path) | JsonLimit (p : path).

Definition _MAX_SCAN_DEPTH : nat := 64.
Definition _MAX_SCAN_NODES : nat := Z.to_nat 10000.

Section Scan.
Variable recursion_limit : nat.
Variable mem : nat → nat.

(** [_decode_serialized_container]; the outer [option] is [_PolicyInputMalformed] *)
Definition _decode_serialized_container (value : ustr) : option (option node) :=
  let stripped := reverse (drop_while is_uspace (reverse (drop_while is_uspace value))) in
  match stripped with
  | c :: _ =>
      if (c =? 123) || (c =? 91) then
        match json_loads recursion_limit stripped with
        | JOk j => Some (if is_container (node_of_json j) then Some (node_of_json j) else None)
        | JError => Some None
        | JLimit | JOutOfFuel => None
        end
      else Some None
  | [] => Some None
  end.

(** The findings in one string *)
Definition string_findings (p : path) (s : ustr) : list (path * ustr) :=
  (if is_parameter_identifier s && _contains_raw_control_token s then [(p, s)] else []) ++
  ((λ k, (p, k)) <$> filter (λ k, _contains_raw_control_token k = true) (serialized_keys (length s) None s)).

(** The loop over the entries of a mapping, from the last one to the first:
    the findings in their order, and the items pushed, the last pushed first *)
Fixpoint map_entries (p : path) (d : nat) (o : origin) (reversed : list (option ustr * node))
    (fs : list (path * ustr)) (stack : list work) : outcome malformed (list (path * ustr) * list work) :=
  match reversed with
  | [] => Ok (fs, stack)
  | (None, _) :: _ => Raise (KeyNotString p)
  | (Some k, child) :: rest =>
      let p' := p ++ [key_seg k] in
      map_entries p d o rest (if _contains_raw_control_token k then fs ++ [(p', k)] else fs)
        ({| w_item := child; w_path := p'; w_depth := S d; w_origin := o |} :: stack)
  end.

(** The items of a sequence, so that the first one is on top *)
Definition seq_items (p : path) (d : nat) (o : origin) (l : list node) : list work :=
  imap (λ i n, {| w_item := n; w_path := p ++ [Index i]; w_depth := S d; w_origin := o |}) l.

(** The loop of [_find_raw_control_identifiers].  [n] counts the scanned nodes,
    [g] the examined strings; the log lists the address and the origin of every
    container that was visited. *)
Fixpoint scan_loop (fuel n g : nat) (seen : gset nat) (stack : list work) (fs : list (path * ustr))
    (log : list (nat * origin)) : outcome malformed (list (path * ustr)) * list (nat * origin) :=
  match fuel, stack with
  | _, [] => (Ok fs, log)
  | O, w :: _ => (Raise (ScanLimit (w_path w)), log)
  | S fuel', w :: stack =>
      let p := w_path w in let d := w_depth w in
      if (_MAX_SCAN_DEPTH <? d)%nat || (_MAX_SCAN_NODES <? S n)%nat then (Raise (ScanLimit p), log)
      else
        match w_item w with
        | NStr s =>
            match _decode_serialized_container s with
            | None => (Raise (JsonLimit p), log)
            | Some decoded =>
                let pushed := match decoded with
                  | Some item => {| w_item := item; w_path := p; w_depth := S d; w_origin := DecodedRoot g |} :: stack
                  | None => stack end in
                scan_loop fuel' (S n) (S g) seen pushed (fs ++ string_findings p s) log
            end
        | NMap kvs =>
            let log := log ++ [(mem n, w_origin w)] in
            if decide (mem n ∈ seen) then scan_loop fuel' (S n) g seen stack fs log
            else match map_entries p d (inside (w_origin w)) (reverse kvs) fs stack with
                 | Raise e => (Raise e, log)
                 | Ok (fs, stack) => scan_loop fuel' (S n) g ({[mem n]} ∪ seen) stack fs log
                 end
        | NSeq l =>
            let log := log ++ [(mem n, w_origin w)] in
            if decide (mem n ∈ seen) then scan_loop fuel' (S n) g seen stack fs log
            else scan_loop fuel' (S n) g ({[mem n]} ∪ seen) (seq_items p d (inside (w_origin w)) l ++ stack) fs log
        | NOther => scan_loop fuel' (S n) g seen stack fs log
        end
  end.

(** [_find_raw_control_identifiers], with the log of visited containers *)
Definition scan (value : node) : outcome malformed (list (path * ustr)) * list (nat * origin) :=
  scan_loop (S _MAX_SCAN_NODES) 0 0 ∅
    [{| w_item := value; w_path := []; w_depth := 0; w_origin := FromInput |}] [] [].

Definition _find_raw_control_identifiers (value : node) : outcome malformed (list (path * ustr)) := (scan value).1.
End Scan.

(** ** Configuration *)

Record _PolicyConfigState := {
  config_version : option string;
  high_impact_actions : list ActionType.t;
  config_error : option (PolicyReasonCode.t * string * string)   (* code, field, message *)
}.

(** [isinstance(v, ActionType)], with the member *)
Definition as_action_type (v : pyval) : option ActionType.t :=
  match v with VEnum cls s => if String.eqb cls "ActionType" then of_value s else None | _ => None end.

(** An [ActionType] that the registry knows *)
Definition registered_action (r : ToolRegistry) (v : pyval) : bool :=
  match as_action_type v with Some t => bool_decide (t ∈ list_all r) | None => false end.

Section Validator.
Variable recursion_limit : nat.
Variable unknown_actions_text : list pyval → string.   (* "high_impact_actions contains unknown actions: ..." *)
Variable tool_error_text : ActionType.t → tool_error → string.
Variable path_text : path → string.
Variable raw_identifier_text : ustr → string.
Variable malformed_text : malformed → string.

(** [_config_error] *)
Definition _config_error (code : PolicyReasonCode.t) (field msg : string) (version : option string) : _PolicyConfigState :=
  {| config_version := version; high_impact_actions := []; config_error := Some (code, field, msg) |}.

Definition _POLICY_CONFIG_KEYS : list string := ["policy_version"; "high_impact_actions"].

(** [_validate_policy_config]; [VDict] is the mapping that [_snapshot_policy_config] copies. *)
Definition _validate_policy_config (config : pyval) (r : ToolRegistry) : _PolicyConfigState :=
  match config with
  | VNone => _config_error PolicyReasonCode.POLICY_CONFIG_MISSING "policy_config"
               "explicit policy configuration is required" None
  | VDict kvs =>
      match unknown_keys _POLICY_CONFIG_KEYS kvs, dict_get "policy_version" kvs, dict_get "high_impact_actions" kvs with
      | [], Some version, Some high_impact =>
          match as_str version with
          | None => _config_error PolicyReasonCode.POLICY_CONFIG_MALFORMED "policy_config.policy_version"
                      "policy_version must be a string" None
          | Some version =>
              if negb (non_blank version)
              then _config_error PolicyReasonCode.POLICY_VERSION_BLANK "policy_config.policy_version"
                     "policy_version must be non-blank" None
              else match high_impact with
                   | VFrozenset l =>
                       let unknown := filter (λ v, registered_action r v = false) l in
                       match unknown with
                       | [] => {| config_version := Some version; high_impact_actions := omap as_action_type l;
                                  config_error := None |}
                       | _ => _config_error PolicyReasonCode.POLICY_CONFIG_UNKNOWN_ACTION
                                "policy_config.high_impact_actions" (unknown_actions_text unknown) (Some version)
                       end
                   | _ => _config_error PolicyReasonCode.POLICY_CONFIG_MALFORMED "policy_config.high_impact_actions"
                            "high_impact_actions must be a frozenset" (Some version)
                   end
          end
      | _, _, _ => _config_error PolicyReasonCode.POLICY_CONFIG_MALFORMED "policy_config"
                     "policy configuration keys must be exactly ['high_impact_actions', 'policy_version']" None
      end
  | _ => _config_error PolicyReasonCode.POLICY_CONFIG_MALFORMED "policy_config"
           "policy configuration must be a mapping" None
  end.

(** ** Decisions *)

Definition finding (st : TaskStep) (field msg : string) : PolicyFinding :=
  {| finding_step_id := step_id st; finding_action_id := action_id (action st);
     finding_field := field; finding_message := msg |}.

Definition decide_step (st : TaskStep) (o : PolicyOutcome.t) (code : PolicyReasonCode.t) (version : option string)
    (fs : list PolicyFinding) : PolicyDecision :=
  {| decision_step_id := step_id st; decision_action_id := action_id (action st); decision_outcome := o;
     decision_reason := code; policy_version := version; decision_findings := fs |}.

(** [_config_error_decision] *)
Definition _config_error_decision (st : TaskStep) (c : _PolicyConfigState)
    (e : PolicyReasonCode.t * string * string) : PolicyDecision :=
  let '(code, field, msg) := e in
  decide_step st PolicyOutcome.DENY code (config_version c) [finding st field msg].

(** [_malformed_confirmation_decision] *)
Definition _malformed_confirmation_decision (st : TaskStep) (c : _PolicyConfigState) : PolicyDecision :=
  decide_step st PolicyOutcome.DENY PolicyReasonCode.CONFIRMATION_INPUT_MALFORMED (config_version c)
    [finding st "confirmed_action_ids" "confirmed_action_ids must be a set or frozenset of non-blank strings"].

(** [_snapshot_confirmed_action_ids] *)
Definition confirmed_ids (v : pyval) : option (list string) :=
  match v with
  | VSet l | VFrozenset l =>
      if forallb (λ x, match as_str x with Some s => non_blank s | None => false end) l
      then Some (omap as_str l) else None
  | _ => None
  end.

Definition parameters_node (a : SemanticAction) : node := node_of (VDict (parameters a)).

(** [_check_step]; [mem] is the memory during the scan of this step *)
Definition _check_step (r : ToolRegistry) (mem : nat → nat) (c : _PolicyConfigState) (confirmed : list string)
    (st : TaskStep) : PolicyDecision :=
  let a := action st in
  let v := validate r a in
  if negb (result_valid v) then
    decide_step st PolicyOutcome.DENY PolicyReasonCode.TOOL_REGISTRY_DENIED (config_version c)
      ((λ e, finding st (error_field e) (tool_error_text (action_type a) e)) <$> errors v)
  else
    match _find_raw_control_identifiers recursion_limit mem (parameters_node a) with
    | Raise e =>
        let p := match e with ScanLimit p | KeyNotString p | JsonLimit p => p end in
        decide_step st PolicyOutcome.DENY PolicyReasonCode.POLICY_INPUT_MALFORMED (config_version c)
          [finding st (path_text p) (malformed_text e)]
    | Ok [] =>
        if decide (action_type a ∈ high_impact_actions c ∧ action_id a ∉ confirmed) then
          decide_step st PolicyOutcome.CONFIRMATION_REQUIRED PolicyReasonCode.ACTION_CONFIRMATION_REQUIRED
            (config_version c)
            [finding st "confirmation"
               ("high-impact action '" +:+ action_id a +:+ "' requires confirmation for this exact action_id")]
        else decide_step st PolicyOutcome.ALLOW PolicyReasonCode.POLICY_ALLOWED (config_version c) []
    | Ok raw =>
        decide_step st PolicyOutcome.DENY PolicyReasonCode.RAW_CONTROL_PARAMETER (config_version c)
          ((λ '(p, k), finding st (path_text p) (raw_identifier_text k)) <$> raw)
    end.

(** [PolicyValidator.check]; [mem i] is the memory during the scan of step [i] *)
Definition check (r : ToolRegistry) (config : pyval) (mem : nat → nat → nat) (g : TaskGraph) (confirmed : pyval)
    : PolicyReport :=
  let c := _validate_policy_config config r in
  let report ds := {| decisions_is_tuple := true; decisions := ADecision <$> ds |} in
  match config_error c with
  | Some e => report ((λ st, _config_error_decision st c e) <$> steps g)
  | None =>
      match confirmed_ids confirmed with
      | None => report ((λ st, _malformed_confirmation_decision st c) <$> steps g)
      | Some ids => report (imap (λ i st, _check_step r (mem i) c ids st) (steps g))
      end
  end.

(** [PolicyValidator.enforce]: the report of the PolicyViolation it raises *)
Definition enforce (r : ToolRegistry) (config : pyval) (mem : nat → nat → nat) (g : TaskGraph) (confirmed : pyval)
    : outcome PolicyReport () :=
  let report := check r config mem g confirmed in
  if is_valid report then Ok () else Raise report.
End Validator.
