(* ===== verification/PolicyValidatorTheorems.v ===== *)
(** * Policy validator: theorems

    The search for raw-control identifiers finds exactly what occurs in the
    parameters as long as no address is used for two containers, and can miss an
    identifier when one is; and when the validator allows a task graph. *)

From Stdlib Require Import ZArith Ascii String.
From S2P Require Import Prelude PyVal Json Contracts Policy ToolRegistry ToolRegistryTheorems PolicyValidator.
Set Warnings "-register-all".
Local Open Scope Z_scope.

(** ** Where an identifier occurs *)

Inductive occurs (limit : nat) : ustr → node → Prop :=
| occ_text s : is_parameter_identifier s = true → _contains_raw_control_token s = true → occurs limit s (NStr s)
| occ_assigned s k : k ∈ serialized_keys (length s) None s → _contains_raw_control_token k = true →
    occurs limit k (NStr s)
| occ_decoded s n k : _decode_serialized_container limit s = Some (Some n) → occurs limit k n → occurs limit k (NStr s)
| occ_key kvs k n : (Some k, n) ∈ kvs → _contains_raw_control_token k = true → occurs limit k (NMap kvs)
| occ_value kvs k0 n k : (Some k0, n) ∈ kvs → occurs limit k n → occurs limit k (NMap kvs)
| occ_item l n k : n ∈ l → occurs limit k n → occurs limit k (NSeq l).

Section Scan.
Context (limit : nat) (mem : nat → nat).

Definition found (k : ustr) (fs : list (path * ustr)) : Prop := ∃ p, (p, k) ∈ fs.
Definition pending (k : ustr) (stack : list work) : Prop := ∃ w, w ∈ stack ∧ occurs limit k (w_item w).

Lemma found_app k fs fs' : found k (fs ++ fs') ↔ found k fs ∨ found k fs'.
Proof. unfold found. setoid_rewrite elem_of_app. naive_solver. Qed.

Lemma pending_cons k w stack : pending k (w :: stack) ↔ occurs limit k (w_item w) ∨ pending k stack.
Proof. unfold pending. setoid_rewrite elem_of_cons. naive_solver. Qed.

Lemma pending_app k s s' : pending k (s ++ s') ↔ pending k s ∨ pending k s'.
Proof. unfold pending. setoid_rewrite elem_of_app. naive_solver. Qed.

Lemma occurs_str_inv k s :
  occurs limit k (NStr s) ↔
  found k (string_findings [] s) ∨ ∃ n, _decode_serialized_container limit s = Some (Some n) ∧ occurs limit k n.
Proof.
  unfold string_findings. rewrite found_app. unfold found. split.
  - inversion 1; subst; [left; left|left; right|right; eauto].
    + exists []. match goal with H : is_parameter_identifier _ = true |- _ => rewrite H end.
      match goal with H : _contains_raw_control_token _ = true |- _ => rewrite H end. by left.
    + exists []. apply list_elem_of_fmap. eexists. split; [done|]. by apply list_elem_of_filter.
  - intros [[[p H]|[p H]]|(n & Hn & Ho)]; [| |by eapply occ_decoded].
    + destruct (is_parameter_identifier s) eqn:E1, (_contains_raw_control_token s) eqn:E2; simpl in H;
        try (by apply elem_of_nil in H). apply list_elem_of_singleton in H. injection H as -> ->. by apply occ_text.
    + apply list_elem_of_fmap in H as (k' & [= -> ->] & H). apply list_elem_of_filter in H as [? ?]. by apply occ_assigned.
Qed.

Lemma string_findings_path p s k : found k (string_findings p s) ↔ found k (string_findings [] s).
Proof.
  unfold string_findings. rewrite !found_app. unfold found.
  assert (∀ l : list ustr, (∃ q, (q, k) ∈ (λ k, (p, k)) <$> l) ↔ ∃ q, (q, k) ∈ (λ k, ([] : path, k)) <$> l) as ->.
  { intros l. setoid_rewrite list_elem_of_fmap. split; intros (q & k' & [= -> ->] & ?); eauto. }
  destruct (_ && _); [|done]. setoid_rewrite list_elem_of_singleton.
  assert ((∃ q, (q, k) = (p, s)) ↔ ∃ q, (q, k) = ([] : path, s)) as ->; [|done].
  split; intros (q & [= -> ->]); eauto.
Qed.

Lemma occurs_map_inv k kvs :
  occurs limit k (NMap kvs) ↔
  (∃ n, (Some k, n) ∈ kvs ∧ _contains_raw_control_token k = true) ∨ ∃ k0 n, (Some k0, n) ∈ kvs ∧ occurs limit k n.
Proof.
  split.
  - inversion 1; subst; [left; eauto|right; eauto].
  - intros [(n & ? & ?)|(k0 & n & ? & ?)]; [by eapply occ_key|by eapply occ_value].
Qed.

Lemma occurs_seq_inv k l : occurs limit k (NSeq l) ↔ ∃ n, n ∈ l ∧ occurs limit k n.
Proof. split; [inversion 1; subst; eauto|intros (n & ? & ?); by eapply occ_item]. Qed.

Lemma map_entries_spec p d o kvs : ∀ fs stack fs' stack',
  map_entries p d o kvs fs stack = Ok (fs', stack') →
  (∀ k, found k fs' ↔ found k fs ∨ ∃ n, (Some k, n) ∈ kvs ∧ _contains_raw_control_token k = true) ∧
  (∀ k, pending k stack' ↔ pending k stack ∨ ∃ k0 n, (Some k0, n) ∈ kvs ∧ occurs limit k n).
Proof.
  induction kvs as [|[[k0|] n] kvs IH]; intros fs stack fs' stack'; simpl; [|intros H|done].
  - intros [= <- <-]. setoid_rewrite elem_of_nil. naive_solver.
  - destruct (IH _ _ _ _ H) as [H1 H2]. split; intros k.
    + rewrite H1. setoid_rewrite elem_of_cons. destruct (_contains_raw_control_token k0) eqn:E.
      * rewrite found_app. unfold found at 2. setoid_rewrite list_elem_of_singleton. split.
        -- intros [[?|(q & [= _ ->])]|(n' & ? & ?)]; [by left|right; exists n; auto|right; exists n'; auto].
        -- intros [?|(n' & [[= -> ->]|?] & ?)]; [by left; left|left; right; eauto|right; eauto].
      * split.
        -- intros [?|(n' & ? & ?)]; [by left|right; exists n'; auto].
        -- intros [?|(n' & [[= -> ->]|?] & ?)]; [by left|congruence|right; eauto].
    + rewrite H2, pending_cons. simpl. setoid_rewrite elem_of_cons. split.
      * intros [[?|?]|(k1 & n1 & ? & ?)]; [right; exists k0, n; auto|by left|right; exists k1, n1; auto].
      * intros [?|(k1 & n1 & [[= -> ->]|?] & ?)]; [by left; right|by left; left|right; eauto].
Qed.

Lemma pending_seq_items k p d o l : pending k (seq_items p d o l) ↔ ∃ n, n ∈ l ∧ occurs limit k n.
Proof.
  unfold pending, seq_items. split.
  - intros (w & (i & Hi)%list_elem_of_lookup & Ho). rewrite list_lookup_imap in Hi.
    apply fmap_Some in Hi as (n & E & ->). exists n. split; [|done]. by eapply list_elem_of_lookup_2.
  - intros (n & (i & Hi)%list_elem_of_lookup & Ho). exists {| w_item := n; w_path := p ++ [Index i]; w_depth := S d; w_origin := o |}. split; [|done].
    eapply list_elem_of_lookup_2 with (i := i). by rewrite list_lookup_imap, Hi.
Qed.

Lemma scan_log_prefix fuel : ∀ n g seen stack fs log r log',
  scan_loop limit mem fuel n g seen stack fs log = (r, log') → log `prefix_of` log'.
Proof.
  assert (∀ (log log' : list (nat * origin)) x, log ++ [x] `prefix_of` log' → log `prefix_of` log') as Hp.
  { intros log log' x H. etrans; [by apply prefix_app_r|exact H]. }
  induction fuel as [|fuel IH]; intros n g seen [|w stack] fs log r log'; simpl; try (by intros [= _ <-]).
  destruct (_ || _); [by intros [= _ <-]|]. destruct (w_item w) as [s|kvs|l|].
  - destruct (_decode_serialized_container limit s); [apply IH|by intros [= _ <-]].
  - case_decide; [by intros ?%IH; eapply Hp|].
    destruct (map_entries _ _ _ _ _ _) as [[fs' stack']|e]; [by intros ?%IH; eapply Hp|].
    intros [= _ <-]. by apply prefix_app_r.
  - case_decide; by intros ?%IH; eapply Hp.
  - apply IH.
Qed.

Lemma scan_loop_exact fuel : ∀ n g seen stack fs log fs' log',
  scan_loop limit mem fuel n g seen stack fs log = (Ok fs', log') → NoDup log'.*1 →
  (∀ a, a ∈ seen → a ∈ log.*1) →
  ∀ k, found k fs' ↔ found k fs ∨ pending k stack.
Proof.
  induction fuel as [|fuel IH]; intros n g seen [|w stack] fs log fs' log' Hrun Hnd Hseen k; simpl in Hrun; try done.
  1, 2: injection Hrun as <- _; unfold pending; setoid_rewrite elem_of_nil; naive_solver.
  destruct (_ || _); [done|]. rewrite pending_cons.
  assert (∀ o, scan_loop limit mem fuel (S n) g seen stack fs (log ++ [(mem n, o)]) = (Ok fs', log') →
    mem n ∈ seen → False) as Hskip.
  { intros o Hr Hs. apply scan_log_prefix in Hr as [rest ->]. rewrite !fmap_app in Hnd. simpl in Hnd.
    rewrite <- (assoc_L (++)) in Hnd. apply NoDup_app in Hnd as (_ & Hd & _). apply (Hd (mem n)); [by apply Hseen|by left]. }
  assert (∀ o a, a ∈ {[mem n]} ∪ seen → a ∈ (log ++ [(mem n, o)]).*1) as Hseen'.
  { intros o a [->%elem_of_singleton|Ha]%elem_of_union; rewrite fmap_app, elem_of_app; [right; by left|left; auto]. }
  destruct (w_item w) as [s|kvs|l|] eqn:Hw.
  - destruct (_decode_serialized_container limit s) as [decoded|] eqn:Hd; [|done].
    apply IH with (k := k) in Hrun; [|done|auto]. rewrite Hrun, found_app, string_findings_path, occurs_str_inv.
    destruct decoded as [m|]; rewrite ?pending_cons; simpl; rewrite Hd; naive_solver.
  - case_decide as Hs; [by destruct (Hskip _ Hrun Hs)|].
    destruct (map_entries _ _ _ _ _ _) as [[fs1 stack1]|e] eqn:Hm; [|done].
    apply map_entries_spec in Hm as [H1 H2]. setoid_rewrite elem_of_reverse in H1. setoid_rewrite elem_of_reverse in H2.
    apply IH with (k := k) in Hrun; [|done|auto]. rewrite Hrun, H1, H2, occurs_map_inv. tauto.
  - case_decide as Hs; [by destruct (Hskip _ Hrun Hs)|].
    apply IH with (k := k) in Hrun; [|done|auto]. rewrite Hrun, pending_app, pending_seq_items, occurs_seq_inv. tauto.
  - apply IH with (k := k) in Hrun; [|done|auto]. rewrite Hrun. split; [tauto|].
    intros [?|[Ho|?]]; [tauto|inversion Ho|tauto].
Qed.

(** No address was used for two of the visited containers. *)
Definition no_reuse (v : node) : Prop := NoDup (scan limit mem v).2.*1.

Lemma scan_exact v fs :
  no_reuse v → _find_raw_control_identifiers limit mem v = Ok fs → ∀ k, found k fs ↔ occurs limit k v.
Proof.
  unfold no_reuse, _find_raw_control_identifiers. destruct (scan limit mem v) as [r log] eqn:Hr. simpl.
  intros Hnd -> k. rewrite (scan_loop_exact _ _ _ _ _ _ _ _ _ Hr Hnd) by set_solver. rewrite pending_cons. simpl.
  split; [|by right; left]. intros [[p []%elem_of_nil]|[?|(w & []%elem_of_nil & _)]]; done.
Qed.
End Scan.

(** C7: the search for raw-control identifiers is exact.  Whatever the nesting,
    including text that decodes as JSON, an identifier is reported exactly when
    it occurs as a key, as a text that is one identifier or as an assigned name,
    provided that no two visited containers share an address. *)
Theorem raw_scan_is_exact limit mem v fs :
  no_reuse limit mem v → _find_raw_control_identifiers limit mem v = Ok fs →
  ∀ k, (∃ p, (p, k) ∈ fs) ↔ occurs limit k v.
Proof. exact (scan_exact limit mem v fs). Qed.

(** ** Texts with quotes *)

Definition quote : string := String "034" EmptyString.
Definition json_field (k : string) : string := "{" +:+ quote +:+ k +:+ quote +:+ ":1}".

Definition nested : pyval := VDict [(VStr "note", VList [VStr (json_field "x"); VStr (json_field "maxTorque")])].

Lemma raw_scan_is_exact_witness :
  _find_raw_control_identifiers 900 id (node_of nested) =
    Ok [([Field (ustr_of "note"); Index 1; Field (ustr_of "maxTorque")], ustr_of "maxTorque")] ∧
  ((∃ p, (p, ustr_of "maxTorque") ∈
      [([Field (ustr_of "note"); Index 1; Field (ustr_of "maxTorque")], ustr_of "maxTorque")]) ↔
   occurs 900 (ustr_of "maxTorque") (node_of nested)).
Proof.
  assert (_find_raw_control_identifiers 900 id (node_of nested) =
    Ok [([Field (ustr_of "note"); Index 1; Field (ustr_of "maxTorque")], ustr_of "maxTorque")]) as H
    by (vm_compute; reflexivity).
  split; [exact H|]. apply (raw_scan_is_exact 900 id (node_of nested)); [|exact H].
  unfold no_reuse. apply (bool_decide_unpack _). vm_compute. exact I.
Defined.

(** ** Memory that is used again

    The object decoded from the [g]-th examined string is referenced by the
    variable [decoded] until the next string has been examined, and by nothing
    else once it has been visited; its memory can hold an object that is decoded
    from a later string than the next one. *)
Definition released (o o' : origin) : bool :=
  match o, o' with
  | DecodedRoot g, (DecodedRoot g' | DecodedInside g') => (S g <? g')%nat
  | _, _ => false
  end.

Fixpoint legal_log (log : list (nat * origin)) : bool :=
  match log with
  | [] => true
  | (a, o) :: rest => forallb (λ '(a', o'), negb (a =? a')%nat || released o o') rest && legal_log rest
  end.

Definition smuggle : SemanticAction := {|
  action_id := "a-1"; action_type := ActionType.PLACE; target_id := Some "cup-1";
  parameters := [(VStr "destination_id", VStr "bin"); (VStr "routing_reason", VStr (json_field "x"));
                 (VStr "routing_priority", VStr (json_field "y")); (VStr "policy_version", VStr "v1");
                 (VStr "identity_guard", VStr (json_field "torque"))] |}.

Definition smuggle_graph : TaskGraph := {|
  task_id := "t-1"; goal := "place"; steps := [{| step_id := "s-1"; action := smuggle; depends_on := [] |}];
  planner := "p"; model_route := "m" |}.

Definition demo_config : pyval :=
  VDict [(VStr "policy_version", VStr "v1"); (VStr "high_impact_actions", VFrozenset [])].

(** The last decoded object is put where the first one was. *)
Definition reusing (n : nat) : nat := if (n =? 10)%nat then 3%nat else n.

(** The search identifies containers by their address only, and keeps the
    addresses of objects that no longer exist.  With a memory that uses an
    address again only after the object there has been released, the validator
    allows an action whose parameters contain the identifier [torque]; with
    fresh addresses it denies the same action. *)
Theorem reused_address_hides_identifier texts1 texts2 texts3 texts4 texts5 :
  legal_log (scan 900 reusing (parameters_node smuggle)).2 = true ∧
  occurs 900 (ustr_of "torque") (parameters_node smuggle) ∧
  is_valid (check 900 texts1 texts2 texts3 texts4 texts5 default_registry demo_config (λ _, reusing) smuggle_graph
    (VFrozenset [])) = true ∧
  is_valid (check 900 texts1 texts2 texts3 texts4 texts5 default_registry demo_config (λ _, id) smuggle_graph
    (VFrozenset [])) = false.
Proof.
  split_and!; [vm_compute; reflexivity| |vm_compute; reflexivity|vm_compute; reflexivity].
  assert (∃ fs, _find_raw_control_identifiers 900 id (parameters_node smuggle) = Ok fs ∧
    found (ustr_of "torque") fs) as (fs & Hfs & Hf).
  { eexists. split; [vm_compute; reflexivity|]. eexists. left. }
  apply (scan_exact 900 id (parameters_node smuggle) fs); [|done|done].
  unfold no_reuse. apply (bool_decide_unpack _). vm_compute. exact I.
Qed.

(** ** When the validator allows *)

Section Check.
Context (limit : nat) (t1 : list pyval → string) (t2 : ActionType.t → tool_error → string) (t3 : path → string)
  (t4 : ustr → string) (t5 : malformed → string).

(** The conditions for one step. *)
Definition step_allowed (r : ToolRegistry) (c : _PolicyConfigState) (ids : list string) (mem : nat → nat)
    (st : TaskStep) : Prop :=
  result_valid (validate r (action st)) = true ∧
  _find_raw_control_identifiers limit mem (parameters_node (action st)) = Ok [] ∧
  (action_type (action st) ∈ high_impact_actions c → action_id (action st) ∈ ids).

Lemma check_step_spec r c ids mem st :
  let d := _check_step limit t2 t3 t4 t5 r mem c ids st in
  decision_step_id d = step_id st ∧ decision_action_id d = action_id (action st) ∧
  (decision_outcome d = PolicyOutcome.ALLOW ↔ step_allowed r c ids mem st) ∧
  (decision_outcome d ≠ PolicyOutcome.ALLOW → decision_findings d ≠ []).
Proof.
  unfold _check_step, step_allowed. pose proof (validate_errors r (action st)) as [Hv _].
  destruct (result_valid (validate r (action st))) eqn:E; simpl.
  2: { split_and!; try done; [naive_solver|]. intros _ Hf. apply fmap_nil_inv in Hf. by apply Hv. }
  destruct (_find_raw_control_identifiers limit mem _) as [[|f fs]|e]; simpl.
  - case_decide as H; simpl; split_and!; try done.
    + split; [done|]. intros (_ & _ & Hh). destruct H as [H1 H2]. by destruct H2; apply Hh.
    + split; [|done]. intros _. split_and!; [done..|]. intros Ht. destruct (decide (action_id (action st) ∈ ids)); [done|].
      by destruct H.
  - split_and!; try done. split; [done|]. by intros (_ & ? & _).
  - split_and!; try done. split; [done|]. by intros (_ & ? & _).
Qed.

Lemma is_valid_imap (f : nat → TaskStep → PolicyDecision) l :
  is_valid {| decisions_is_tuple := true; decisions := ADecision <$> imap f l |} = true ↔
  ∀ i st, l !! i = Some st → decision_outcome (f i st) = PolicyOutcome.ALLOW.
Proof.
  unfold is_valid. simpl. rewrite forallb_forall. split.
  - intros H i st Hst. specialize (H (ADecision (f i st))). apply (bool_decide_eq_true_1 _), H, list_elem_of_In.
    apply list_elem_of_fmap. eexists. split; [done|]. apply list_elem_of_lookup_2 with (i := i).
    by rewrite list_lookup_imap, Hst.
  - intros H d Hd%list_elem_of_In. apply list_elem_of_fmap in Hd as (d' & -> & Hd).
    apply list_elem_of_lookup in Hd as (i & Hi). rewrite list_lookup_imap in Hi.
    apply fmap_Some in Hi as (st & Hst & ->). simpl. apply bool_decide_eq_true. by apply H.
Qed.

Lemma is_valid_deny (f : TaskStep → PolicyDecision) l :
  (∀ st, decision_outcome (f st) = PolicyOutcome.DENY) →
  is_valid {| decisions_is_tuple := true; decisions := ADecision <$> (f <$> l) |} = true ↔ l = [].
Proof.
  intros Hd. destruct l as [|st l]; simpl; [done|]. unfold is_valid. simpl. rewrite Hd. by split.
Qed.

Lemma check_valid_iff r config mem g confirmed :
  is_valid (check limit t1 t2 t3 t4 t5 r config mem g confirmed) = true ↔
  steps g = [] ∨
  config_error (_validate_policy_config t1 config r) = None ∧
  ∃ ids, confirmed_ids confirmed = Some ids ∧
    ∀ i st, steps g !! i = Some st → step_allowed r (_validate_policy_config t1 config r) ids (mem i) st.
Proof.
  unfold check. set (c := _validate_policy_config t1 config r).
  destruct (config_error c) as [[[code field] msg]|].
  { rewrite is_valid_deny by done. naive_solver. }
  destruct (confirmed_ids confirmed) as [ids|].
  2: { rewrite is_valid_deny by done. naive_solver. }
  rewrite is_valid_imap. split.
  - intros H. right. split; [done|]. exists ids. split; [done|]. intros i st Hst.
    by apply (check_step_spec r c ids (mem i) st), H.
  - intros [->|(_ & ids' & [= <-] & H)] i st Hst; [done|]. by apply (check_step_spec r c ids (mem i) st), H.
Qed.

Lemma check_decisions r config mem g confirmed :
  (λ d, match d with ADecision d => Some (decision_step_id d, decision_action_id d) | NotADecision _ => None end) <$>
    decisions (check limit t1 t2 t3 t4 t5 r config mem g confirmed) =
  (λ st, Some (step_id st, action_id (action st))) <$> steps g.
Proof.
  unfold check. set (c := _validate_policy_config t1 config r).
  destruct (config_error c) as [[[code field] msg]|]; [simpl; by rewrite <- !list_fmap_compose|].
  destruct (confirmed_ids confirmed) as [ids|]; simpl; [|by rewrite <- !list_fmap_compose].
  apply list_eq. intros i. rewrite !list_lookup_fmap, list_lookup_imap. destruct (steps g !! i) as [st|]; simpl; [|done].
  pose proof (check_step_spec r c ids (mem i) st) as (-> & -> & _). done.
Qed.

End Check.

(** The validator allows a task graph exactly when the configuration is
    well formed, the confirmations are, and every step's action conforms to the
    registry, shows no raw-control identifier and, if its type is high-impact, is
    confirmed by its own identifier; every step gets exactly one decision, in
    order, under its own identifiers; [enforce] raises in all other cases. *)
Theorem policy_check_is_exact limit t1 t2 t3 t4 t5 r config mem g confirmed :
  let report := check limit t1 t2 t3 t4 t5 r config mem g confirmed in
  let c := _validate_policy_config t1 config r in
  (is_valid report = true ↔
   steps g = [] ∨
   config_error c = None ∧ ∃ ids, confirmed_ids confirmed = Some ids ∧
     ∀ i st, steps g !! i = Some st → step_allowed limit r c ids (mem i) st) ∧
  ((λ d, match d with ADecision d => Some (decision_step_id d, decision_action_id d) | NotADecision _ => None end) <$>
     decisions report = (λ st, Some (step_id st, action_id (action st))) <$> steps g) ∧
  (enforce limit t1 t2 t3 t4 t5 r config mem g confirmed = Ok () ↔ is_valid report = true).
Proof.
  cbv zeta. split; [apply check_valid_iff|]. split; [apply check_decisions|].
  unfold enforce. by destruct (is_valid _).
Qed.
