(* ===== verification/TaskStructure.v ===== *)
(** * Structure of a task graph

    The structural preflight of [execution_controller.py]: duplicate
    identifiers, dependencies that are missing, reflexive or forward, and the
    depth-first search for dependency cycles. *)

From S2P Require Import Prelude PyVal Contracts.

(** ** [_duplicates] *)

(** The loop of [_duplicates], with the set [seen] and the list [duplicates]. *)
Fixpoint duplicates_loop (seen duplicates values : list string) : list string :=
  match values with
  | [] => duplicates
  | v :: values' =>
      let duplicates' :=
        if decide (v ∈ seen ∧ v ∉ duplicates) then duplicates ++ [v] else duplicates in
      duplicates_loop (v :: seen) duplicates' values'
  end.

Definition _duplicates (values : list string) : list string := duplicates_loop [] [] values.

(** ** [_has_dependency_cycle] *)

Abbreviation deps := (list (string * list string)).

Record dfs := { visiting : list string; visited : list string }.

Definition known (d : deps) (s : string) : bool := bool_decide (s ∈ d.*1).

(** The loop of [visit] over the dependencies of one step, given the recursive
    call; [None] means that a call raised [RecursionError]. *)
Fixpoint visit_deps (rec : string → dfs → option (bool * dfs)) (d : deps)
    (ds : list string) (st : dfs) : option (bool * dfs) :=
  match ds with
  | [] => Some (false, st)
  | dep :: ds' =>
      if known d dep then
        match rec dep st with
        | None => None
        | Some (true, st') => Some (true, st')
        | Some (false, st') => visit_deps rec d ds' st'
        end
      else visit_deps rec d ds' st
  end.

(** The inner function [visit]; [frames] is the number of frames that the
    interpreter's recursion limit leaves for it, and [None] means that the call
    raised [RecursionError]. *)
Fixpoint visit (frames : nat) (d : deps) (s : string) (st : dfs) : option (bool * dfs) :=
  match frames with
  | O => None
  | S frames' =>
      if decide (s ∈ visiting st) then Some (true, st)
      else if decide (s ∈ visited st) then Some (false, st)
      else
        let st1 := {| visiting := s :: visiting st; visited := visited st |} in
        match visit_deps (visit frames' d) d (default [] (assoc_get s d)) st1 with
        | None => None
        | Some (true, st') => Some (true, st')
        | Some (false, st') =>
            Some (false, {| visiting := filter (λ x, x ≠ s) (visiting st');
                            visited := s :: visited st' |})
        end
  end.

(** [any(visit(step_id) for step_id in dependencies)] *)
Fixpoint visit_any (frames : nat) (d : deps) (keys : list string) (st : dfs) : option bool :=
  match keys with
  | [] => Some false
  | s :: keys' =>
      match visit frames d s st with
      | None => None
      | Some (true, _) => Some true
      | Some (false, st') => visit_any frames d keys' st'
      end
  end.

Definition _has_dependency_cycle (frames : nat) (d : deps) : option bool :=
  visit_any frames d d.*1 {| visiting := []; visited := [] |}.

(** ** [_graph_structure_errors] *)

(** [{step_id: index for index, step_id in enumerate(step_ids)}] *)
Fixpoint index_map (i : nat) (ids : list string) (m : gmap string nat) : gmap string nat :=
  match ids with
  | [] => m
  | s :: ids' => index_map (S i) ids' (<[s := i]> m)
  end.

(** The errors of one step's dependencies. *)
Definition dependency_errors (first_index : gmap string nat) (i : nat) (st : TaskStep)
    : list string :=
  mjoin ((λ dep,
    match first_index !! dep with
    | None => [step_id st +:+ " has missing dependency: " +:+ dep]
    | Some j =>
        if decide (dep = step_id st) then [step_id st +:+ " depends on itself"]
        else if decide (i < j) then [step_id st +:+ " has forward dependency: " +:+ dep]
        else []
    end) <$> depends_on st).

Fixpoint dependencies_of (sts : list TaskStep) (d : deps) : deps :=
  match sts with
  | [] => d
  | st :: sts' => dependencies_of sts' (assoc_set (step_id st) (depends_on st) d)
  end.

Fixpoint step_errors (first_index : gmap string nat) (i : nat) (sts : list TaskStep)
    : list string :=
  match sts with
  | [] => []
  | st :: sts' => dependency_errors first_index i st ++ step_errors first_index (S i) sts'
  end.

(** [None] means that the cycle search raised [RecursionError]. *)
Definition _graph_structure_errors (frames : nat) (g : TaskGraph) : option (list string) :=
  let errors :=
    ((λ s, "duplicate step_id: " +:+ s) <$> _duplicates (step_ids g)) ++
    ((λ s, "duplicate action_id: " +:+ s) <$> _duplicates (action_ids g)) ++
    step_errors (index_map 0 (step_ids g) ∅) 0 (steps g) in
  match _has_dependency_cycle frames (dependencies_of (steps g) []) with
  | None => None
  | Some true => Some (errors ++ ["cyclic dependency detected"])
  | Some false => Some errors
  end.

(** ** Duplicates *)

Lemma duplicates_loop_nil l seen dups :
  duplicates_loop seen dups l = [] ↔ dups = [] ∧ NoDup l ∧ (∀ x, x ∈ l → x ∉ seen).
Proof.
  revert seen dups. induction l as [|v l IH]; intros seen dups; simpl.
  - split; [intros ->; repeat split; [constructor|set_solver]|naive_solver].
  - rewrite IH, NoDup_cons. case_decide as Hd.
    + split; [intros [H _]; by destruct dups|].
      intros (_ & _ & H). destruct Hd as [Hd _]. by destruct (H v (list_elem_of_here _ _)).
    + split; intros (-> & H1 & H2); (split; [done|]); set_solver.
Qed.

Lemma _duplicates_nil l : _duplicates l = [] ↔ NoDup l.
Proof. unfold _duplicates. rewrite duplicates_loop_nil. set_solver. Qed.

(** ** The depth-first search decides acyclicity *)

(** [b] is a declared dependency of [a], and both are steps of the graph. *)
Definition edge (d : deps) (a b : string) : Prop :=
  ∃ ds, assoc_get a d = Some ds ∧ b ∈ ds ∧ b ∈ d.*1.

Definition cyclic (d : deps) : Prop := ∃ a, tc (edge d) a a.

(** [visiting] is the current path, deepest step first. *)
Fixpoint path_ok (d : deps) (l : list string) : Prop :=
  match l with
  | a :: ((b :: _) as l') => edge d b a ∧ path_ok d l'
  | _ => True
  end.

(** [visited] is in post-order: a step comes after all its dependencies. *)
Fixpoint post_order (d : deps) (l : list string) : Prop :=
  match l with
  | [] => True
  | a :: l' => (∀ b, edge d a b → b ∈ l') ∧ post_order d l'
  end.

Record dfs_inv (d : deps) (st : dfs) : Prop := {
  inv_path : path_ok d (visiting st);
  inv_nodup : NoDup (visiting st);
  inv_known : ∀ x, x ∈ visiting st → x ∈ d.*1;
  inv_post : post_order d (visited st);
  inv_visited : NoDup (visited st);
  inv_disjoint : ∀ x, x ∈ visiting st → x ∉ visited st
}.

Lemma path_reaches d l a h :
  path_ok d (h :: l) → a ∈ h :: l → rtc (edge d) a h.
Proof.
  revert h. induction l as [|b l IH]; intros h Hp [->|Hin]%elem_of_cons; try done.
  - by apply elem_of_nil in Hin.
  - destruct Hp as [He Hp]. eapply rtc_r; [by apply IH|done].
Qed.

Lemma post_order_acyclic d l a b :
  post_order d l → NoDup l → a ∈ l → tc (edge d) a b → b ∈ l ∧ a ≠ b.
Proof.
  intros Hpo Hnd. revert a b. induction l as [|x l IH]; intros a b Ha Ht.
  { by apply elem_of_nil in Ha. }
  destruct Hpo as [Hx Hpo]. apply NoDup_cons in Hnd as [Hxl Hnd].
  assert (∀ c y, c ∈ l → tc (edge d) c y → y ∈ l ∧ c ≠ y) as Hl by naive_solver.
  apply elem_of_cons in Ha as [->|Ha].
  - destruct Ht as [? ? He|? c ? He Ht].
    + apply Hx in He. set_solver.
    + apply Hx in He. destruct (Hl _ _ He Ht). set_solver.
  - destruct (Hl _ _ Ha Ht). set_solver.
Qed.

(** A chain of [n] different steps, each a dependency of the one after it. *)
Definition chain (d : deps) (n : nat) : Prop :=
  ∃ l, length l = n ∧ NoDup l ∧ (∀ x, x ∈ l → x ∈ d.*1) ∧ path_ok d l.

(** What one call of [visit] (or one pass of its loop) guarantees: a positive
    answer exhibits a cycle; a negative one restores the path and extends the
    visited steps by a post-order; an exception exhibits a chain as long as the
    stack was deep. *)
Definition visit_ok (frames : nat) (d : deps) (st : dfs) (seen : string → Prop)
    (res : option (bool * dfs)) : Prop :=
  match res with
  | None => chain d frames
  | Some (true, _) => cyclic d
  | Some (false, st') =>
      dfs_inv d st' ∧ visiting st' = visiting st ∧
      (∀ x, x ∈ visited st → x ∈ visited st') ∧ (∀ x, seen x → x ∈ visited st')
  end.

Definition extends_path (d : deps) (s : string) (st : dfs) : Prop :=
  match visiting st with [] => True | h :: _ => edge d h s end.

Lemma visit_deps_ok n d rec ds st :
  dfs_inv d st →
  (∀ s st', s ∈ ds → s ∈ d.*1 → dfs_inv d st' → visiting st' = visiting st →
     visit_ok n d st' (eq s) (rec s st')) →
  visit_ok n d st (λ x, x ∈ ds ∧ x ∈ d.*1) (visit_deps rec d ds st).
Proof.
  revert st. induction ds as [|dep ds IH]; intros st Hinv Hrec; simpl.
  { split_and!; [done..|set_solver]. }
  unfold known. case_bool_decide as Hk.
  - pose proof (Hrec dep st (list_elem_of_here _ _) Hk Hinv eq_refl) as Hv.
    destruct (rec dep st) as [[[] st1]|]; [done| |done].
    destruct Hv as (Hinv1 & Hvis1 & Hmono1 & Hseen1).
    assert (visit_ok n d st1 (λ x, x ∈ ds ∧ x ∈ d.*1) (visit_deps rec d ds st1)) as HIH.
    { apply IH; [done|]. intros s st' Hs Hsk Hi Hv. apply Hrec; [by right|done..|congruence]. }
    destruct (visit_deps rec d ds st1) as [[[] st2]|]; [done| |done].
    destruct HIH as (?&?&Hm&Hs). split_and!; [done|congruence|set_solver|].
    intros x [[->|?]%elem_of_cons ?]; [by apply Hm, Hseen1|set_solver].
  - assert (visit_ok n d st (λ x, x ∈ ds ∧ x ∈ d.*1) (visit_deps rec d ds st)) as HIH.
    { apply IH; [done|]. intros s st' Hs. apply Hrec. by right. }
    destruct (visit_deps rec d ds st) as [[[] st2]|]; [done| |done].
    destruct HIH as (?&?&Hm&Hs). split_and!; [done..|]. set_solver.
Qed.

Lemma visit_correct n d frames s st :
  dfs_inv d st → s ∈ d.*1 → extends_path d s st →
  n = frames + length (visiting st) →
  visit_ok n d st (eq s) (visit frames d s st).
Proof.
  revert s st. induction frames as [|frames IH]; intros s st Hinv Hs Hext Hn; simpl.
  { exists (visiting st). destruct Hinv. by split_and!. }
  case_decide as Hvis.
  { unfold extends_path in Hext. destruct (visiting st) as [|h l] eqn:E; [by apply elem_of_nil in Hvis|].
    exists s. eapply tc_rtc_l; [|by apply tc_once].
    eapply path_reaches; [|done]. rewrite <-E. apply Hinv. }
  case_decide as Hdone; [split_and!; naive_solver|].
  set (st1 := {| visiting := s :: visiting st; visited := visited st |}).
  assert (dfs_inv d st1) as Hinv1.
  { destruct Hinv. split; simpl; try done.
    - unfold extends_path in Hext. by destruct (visiting st).
    - by apply NoDup_cons.
    - set_solver.
    - set_solver. }
  assert (visit_ok n d st1 (λ x, x ∈ default [] (assoc_get s d) ∧ x ∈ d.*1)
    (visit_deps (visit frames d) d (default [] (assoc_get s d)) st1)) as Hloop.
  { apply visit_deps_ok; [done|]. intros s' st' Hs' Hk Hi' Hv'. apply IH; [done..| |].
    - unfold extends_path. rewrite Hv'. destruct (assoc_get s d) as [ds|] eqn:E; [|by apply elem_of_nil in Hs'].
      by exists ds.
    - rewrite Hv'. simpl. lia. }
  destruct (visit_deps _ _ _ _) as [[[] st2]|]; [done| |done].
  destruct Hloop as (Hi2 & Hv2 & Hm2 & Hs2). simpl in Hv2.
  assert (filter (λ x, x ≠ s) (visiting st2) = visiting st) as Hfilter.
  { rewrite Hv2, filter_cons, decide_False by naive_solver.
    apply filter_all. by intros x Hx ->. }
  rewrite Hfilter. destruct Hi2 as [Hp2 Hn2 Hk2 Hpo2 Hnv2 Hd2]. rewrite Hv2 in *.
  repeat split; simpl; try apply Hinv; try done.
  - intros b (ds & Hds & Hb & Hbk). apply Hs2. by rewrite Hds.
  - apply NoDup_cons. split; [|done]. apply Hd2. by left.
  - intros x Hx. apply not_elem_of_cons. split; [by intros ->|]. apply Hd2. by right.
  - intros x Hx. right. by apply Hm2.
  - intros x <-. by left.
Qed.

Lemma visit_any_correct n d keys st :
  dfs_inv d st → visiting st = [] → (∀ x, x ∈ keys → x ∈ d.*1) →
  match visit_any n d keys st with
  | None => chain d n
  | Some true => cyclic d
  | Some false => ∃ l, post_order d l ∧ NoDup l ∧ (∀ x, x ∈ keys → x ∈ l) ∧
                       (∀ x, x ∈ visited st → x ∈ l)
  end.
Proof.
  revert st. induction keys as [|k keys IH]; intros st Hinv Hv Hk; cbn [visit_any].
  { exists (visited st). destruct Hinv. split_and!; set_solver. }
  assert (visit_ok n d st (eq k) (visit n d k st)) as Hok.
  { apply visit_correct; [done|apply Hk; by left| |rewrite Hv; simpl; lia]. unfold extends_path. by rewrite Hv. }
  destruct (visit _ d k st) as [[[] st1]|]; [done| |done].
  destruct Hok as (Hinv1 & Hv1 & Hm1 & Hs1).
  specialize (IH st1 Hinv1). rewrite Hv1 in IH.
  specialize (IH Hv ltac:(set_solver)).
  destruct (visit_any _ d keys st1) as [[]|]; [done| |done].
  destruct IH as (l & Hpo & Hnd & Hkeys & Hvis). exists l. set_solver.
Qed.

Lemma dfs_inv_start d : dfs_inv d {| visiting := []; visited := [] |}.
Proof. split; simpl; try done; try constructor; set_solver. Qed.

(** An answer is exact. *)
Lemma has_dependency_cycle_spec n d b : _has_dependency_cycle n d = Some b → (b = true ↔ cyclic d).
Proof.
  unfold _has_dependency_cycle. intros Hb.
  pose proof (visit_any_correct n d d.*1 _ (dfs_inv_start d)) as H. rewrite Hb in H. destruct b.
  - split; [intros _|done]. by apply H.
  - split; [done|]. intros [a Ha]. exfalso. destruct H as (l & Hpo & Hnd & Hl & _); [done..|].
    assert (a ∈ l) as Hal.
    { apply Hl, assoc_get_elem.
      assert (∃ b, edge d a b) as (b & ds & -> & _) by (inversion Ha; eauto).
      eauto. }
    by destruct (post_order_acyclic d l a a Hpo Hnd Hal Ha).
Qed.

(** The search raises only below a chain that fills the stack. *)
Lemma has_dependency_cycle_raise n d : _has_dependency_cycle n d = None → chain d n.
Proof.
  unfold _has_dependency_cycle. intros Hb.
  pose proof (visit_any_correct n d d.*1 _ (dfs_inv_start d)) as H. rewrite Hb in H. by apply H.
Qed.

Lemma chain_length d n : chain d n → n ≤ length d.
Proof.
  intros (l & <- & Hnd & Hin & _). rewrite <- (length_fmap fst d). by apply NoDup_incl_length.
Qed.

(** ** Two frames are enough for a graph in dependency order *)

(** Every dependency comes before the step that declares it. *)
Definition in_order (d : deps) : Prop :=
  ∀ i s ds dep, d !! i = Some (s, ds) → dep ∈ ds → dep ∈ (take i d).*1.

Lemma visit_deps_visited d n ds st :
  (∀ dep, dep ∈ ds → dep ∈ visited st ∧ dep ∉ visiting st) →
  visit_deps (visit (S n) d) d ds st = Some (false, st).
Proof.
  induction ds as [|dep ds IH]; intros H; [done|]. cbn [visit_deps].
  destruct (H dep (list_elem_of_here _ _)) as [Hv Hn].
  assert (visit (S n) d dep st = Some (false, st)) as ->.
  { cbn [visit]. by rewrite decide_False, decide_True by done. }
  rewrite IH by (intros; apply H; by right). by destruct (known d dep).
Qed.

Lemma assoc_get_lookup (d : deps) i s ds : NoDup d.*1 → d !! i = Some (s, ds) → assoc_get s d = Some ds.
Proof.
  revert i. induction d as [|[s' ds'] d IH]; intros i Hnd Hi; [done|].
  apply NoDup_cons in Hnd as [Hn Hnd]. destruct i as [|i]; simplify_eq/=; [by rewrite decide_True|].
  rewrite decide_False; [by eapply IH|]. intros E. apply Hn. simpl. rewrite <- E.
  apply (list_elem_of_fmap_2 fst d (s, ds)). by eapply list_elem_of_lookup_2.
Qed.

Lemma visit_any_in_order n d i st :
  NoDup d.*1 → in_order d → visiting st = [] → (∀ x, x ∈ (take i d).*1 → x ∈ visited st) →
  visit_any (S (S n)) d (drop i d.*1) st = Some false.
Proof.
  intros Hnd Hord. remember (length d - i) as k eqn:Hk. revert i st Hk.
  induction k as [|k IH]; intros i st Hk Hv Hvis.
  { by rewrite drop_ge by (rewrite length_fmap; lia). }
  destruct (d !! i) as [[s ds]|] eqn:Hi; [|apply lookup_ge_None in Hi; lia].
  assert (d.*1 !! i = Some s) as Hs by by rewrite list_lookup_fmap, Hi.
  rewrite (drop_S _ s i Hs). cbn [visit_any].
  assert (∀ st', visiting st' = [] → (∀ x, x ∈ (take (S i) d).*1 → x ∈ visited st') →
    visit_any (S (S n)) d (drop (S i) d.*1) st' = Some false) as Hnext by (intros; apply IH; [lia|done..]).
  assert (Htake : (take (S i) d).*1 = (take i d).*1 ++ [s]) by by rewrite (take_S_r _ _ _ Hi), fmap_app.
  remember (S n) as m eqn:Hm. cbn [visit]. subst m. rewrite decide_False by (rewrite Hv; set_solver). case_decide as Hdone.
  - apply Hnext; [done|]. intros x. rewrite Htake, elem_of_app, list_elem_of_singleton. intros [?| ->]; [by apply Hvis|done].
  - rewrite (assoc_get_lookup d i s ds Hnd Hi). cbn [default from_option]. rewrite visit_deps_visited.
    + apply Hnext; simpl; [by rewrite Hv, filter_cons, decide_False by naive_solver|].
      intros x. rewrite Htake, elem_of_app, list_elem_of_singleton. intros [?| ->]; [right; by apply Hvis|by left].
    + intros dep Hdep. simpl. rewrite Hv. pose proof (Hord i s ds dep Hi Hdep) as Hin. split; [by apply Hvis|].
      intros ->%list_elem_of_singleton. apply Hdone. by apply Hvis.
Qed.

(** ** What the preflight accepts *)

(** Unique identifiers, and every dependency names an earlier step. *)
Definition well_structured (g : TaskGraph) : Prop :=
  NoDup (step_ids g) ∧ NoDup (action_ids g) ∧
  (∀ i st dep, steps g !! i = Some st → dep ∈ depends_on st →
     ∃ j, j < i ∧ step_ids g !! j = Some dep).

Lemma index_map_notin i ids m s : s ∉ ids → index_map i ids m !! s = m !! s.
Proof.
  revert i m. induction ids as [|x ids IH]; intros i m Hs; simpl; [done|].
  apply not_elem_of_cons in Hs as [Hne Hs]. by rewrite IH, lookup_insert_ne.
Qed.

Lemma index_map_lookup i ids m s j :
  NoDup ids → ids !! j = Some s → index_map i ids m !! s = Some (i + j).
Proof.
  revert i m j. induction ids as [|x ids IH]; intros i m j Hnd Hj; [done|].
  apply NoDup_cons in Hnd as [Hx Hnd]. destruct j as [|j]; simplify_eq/=.
  - rewrite index_map_notin by done. rewrite lookup_insert_eq. f_equal. lia.
  - rewrite (IH (S i) _ j) by done. f_equal. lia.
Qed.

Lemma index_map_inv ids s j :
  NoDup ids → index_map 0 ids ∅ !! s = Some j → ids !! j = Some s.
Proof.
  intros Hnd Hj. destruct (decide (s ∈ ids)) as [Hs|Hs].
  - apply list_elem_of_lookup in Hs as [k Hk].
    rewrite (index_map_lookup 0 ids ∅ s k) in Hj by done. by simplify_eq/=.
  - by rewrite index_map_notin in Hj.
Qed.

Lemma mjoin_nil {A} (ls : list (list A)) : mjoin ls = [] ↔ ∀ l, l ∈ ls → l = [].
Proof.
  induction ls as [|l ls IH]; simpl; [set_solver|].
  rewrite app_nil, IH. set_solver.
Qed.

Lemma dependency_errors_nil fi i st :
  dependency_errors fi i st = [] ↔
  ∀ dep, dep ∈ depends_on st → ∃ j, fi !! dep = Some j ∧ dep ≠ step_id st ∧ j ≤ i.
Proof.
  unfold dependency_errors. rewrite mjoin_nil. split.
  - intros H dep Hdep. specialize (H _ (list_elem_of_fmap_2 _ _ _ Hdep)). cbv beta in H.
    destruct (fi !! dep) as [j|]; [|done]. exists j.
    case_decide as Hne; [done|]. case_decide; [done|]. split_and!; [done..|lia].
  - intros H l (dep & -> & Hdep)%list_elem_of_fmap. destruct (H _ Hdep) as (j & -> & ? & ?).
    by rewrite decide_False, decide_False by (done || lia).
Qed.

Lemma step_errors_nil fi i sts :
  step_errors fi i sts = [] ↔
  ∀ k st, sts !! k = Some st → dependency_errors fi (i + k) st = [].
Proof.
  revert i. induction sts as [|st sts IH]; intros i; simpl; [naive_solver|].
  rewrite app_nil, IH. split.
  - intros [H1 H2] [|k] st' Hk; simplify_eq/=; [by rewrite Nat.add_0_r|].
    rewrite <-Nat.add_succ_comm. by apply H2.
  - intros H. split; [by rewrite <-(Nat.add_0_r i); apply (H 0)|].
    intros k st' Hk. rewrite Nat.add_succ_comm. by apply (H (S k)).
Qed.

Lemma dependencies_of_get sts d s ds :
  assoc_get s (dependencies_of sts d) = Some ds →
  assoc_get s d = Some ds ∨ ∃ k st, sts !! k = Some st ∧ step_id st = s ∧ depends_on st = ds.
Proof.
  revert d. induction sts as [|st sts IH]; intros d Hs; simpl in *; [by left|].
  apply IH in Hs as [Hs|(k & st' & Hk & ? & ?)]; [|right; by exists (S k), st'].
  rewrite assoc_get_set in Hs. case_decide; [|by left].
  right. exists 0, st. naive_solver.
Qed.

Lemma well_structured_descends g a b i :
  well_structured g → tc (edge (dependencies_of (steps g) [])) a b →
  step_ids g !! i = Some a → ∃ j, j < i ∧ step_ids g !! j = Some b.
Proof.
  intros (Hnd & _ & Hdep) Ht. revert i.
  assert (∀ a b i, edge (dependencies_of (steps g) []) a b → step_ids g !! i = Some a →
    ∃ j, j < i ∧ step_ids g !! j = Some b) as Hstep.
  { intros a' b' i (ds & Hds & Hb & _) Ha.
    apply dependencies_of_get in Hds as [[=]|(k & st & Hk & <- & <-)].
    assert (i = k) as ->; [|by eapply Hdep].
    eapply NoDup_lookup; [done..|]. unfold step_ids. by rewrite list_lookup_fmap, Hk. }
  induction Ht as [a b He|a b c He _ IH]; intros i Ha; [by eapply Hstep|].
  destruct (Hstep _ _ _ He Ha) as (j & Hj & Hb). destruct (IH _ Hb) as (k & ? & ?).
  exists k. split; [lia|done].
Qed.

Lemma well_structured_acyclic g :
  well_structured g → ¬ cyclic (dependencies_of (steps g) []).
Proof.
  intros Hws [a Ha].
  assert (∃ i, step_ids g !! i = Some a) as [i Hi].
  { assert (∃ b, edge (dependencies_of (steps g) []) a b) as (b & ds & Hds & _) by (inversion Ha; eauto).
    apply dependencies_of_get in Hds as [[=]|(k & st & Hk & <- & _)].
    exists k. unfold step_ids. by rewrite list_lookup_fmap, Hk. }
  destruct (well_structured_descends g a a i Hws Ha Hi) as (j & Hlt & Hj).
  destruct Hws as (Hnd & _). pose proof (NoDup_lookup _ _ _ _ Hnd Hi Hj). lia.
Qed.

Lemma fmap_nil_iff {A B} (f : A → B) l : f <$> l = [] ↔ l = [].
Proof. by destruct l. Qed.

(** Unique step identifiers keep the order of the steps. *)
Lemma dependencies_of_app sts d :
  NoDup (d.*1 ++ (step_id <$> sts)) → dependencies_of sts d = d ++ ((λ st, (step_id st, depends_on st)) <$> sts).
Proof.
  revert d. induction sts as [|st sts IH]; intros d Hnd; simpl; [by rewrite app_nil_r|].
  assert (assoc_set (step_id st) (depends_on st) d = d ++ [(step_id st, depends_on st)]) as ->.
  { apply NoDup_app in Hnd as (_ & Hd & _). clear IH. induction d as [|[k v] d IHd]; simpl; [done|].
    rewrite decide_False; [f_equal; apply IHd; set_solver|]. intros E. apply (Hd k); [by left|]. rewrite <- E. by left. }
  rewrite IH, <- app_assoc; [done|]. by rewrite fmap_app, <- app_assoc.
Qed.

Lemma well_structured_no_cycle n g :
  well_structured g → _has_dependency_cycle (S (S n)) (dependencies_of (steps g) []) = Some false.
Proof.
  intros (Hs & _ & Hd). rewrite dependencies_of_app by done. simpl.
  set (d := (λ st, (step_id st, depends_on st)) <$> steps g).
  assert (Hkeys : d.*1 = step_ids g) by (unfold d, step_ids; by rewrite <- list_fmap_compose).
  unfold _has_dependency_cycle. apply (visit_any_in_order n d 0); simpl; [by rewrite Hkeys| |done|set_solver].
  intros i s ds dep Hi Hdep. unfold d in Hi. rewrite list_lookup_fmap in Hi.
  destruct (steps g !! i) as [st|] eqn:Hst; simplify_eq/=. destruct (Hd i st dep Hst Hdep) as (j & Hlt & Hj).
  rewrite fmap_take, Hkeys. apply list_elem_of_lookup_2 with j. by rewrite lookup_take_lt.
Qed.

Lemma graph_structure_errors_well n g : _graph_structure_errors n g = Some [] → well_structured g.
Proof.
  unfold _graph_structure_errors. destruct (_has_dependency_cycle _ _) as [[]|]; intros [= H].
  { by apply app_nil in H as [_ ?]. }
  rewrite !app_nil, !fmap_nil_iff, !_duplicates_nil, step_errors_nil in H. destruct H as (Hs & Ha & Hd).
  split_and!; [done..|]. intros i st dep Hi Hdep.
  specialize (Hd _ _ Hi). rewrite dependency_errors_nil in Hd.
  destruct (Hd _ Hdep) as (j & Hj & Hne & Hle). apply index_map_inv in Hj; [|done].
  exists j. split; [|done]. simpl in Hle.
  destruct (decide (j = i)) as [->|]; [|lia]. exfalso. apply Hne.
  unfold step_ids in Hj. rewrite list_lookup_fmap, Hi in Hj. by simplify_eq/=.
Qed.

Lemma graph_structure_errors_nil n g : 2 ≤ n → _graph_structure_errors n g = Some [] ↔ well_structured g.
Proof.
  intros Hn. split; [apply graph_structure_errors_well|]. intros Hws. destruct n as [|[|n]]; [lia..|].
  unfold _graph_structure_errors. rewrite (well_structured_no_cycle n g Hws). f_equal.
  destruct Hws as (Hs & Ha & Hd). rewrite !app_nil, !fmap_nil_iff, !_duplicates_nil, step_errors_nil.
  split_and!; [done..|]. intros i st Hi. apply dependency_errors_nil. intros dep Hdep.
  destruct (Hd _ _ _ Hi Hdep) as (j & Hlt & Hj). exists j. split_and!.
  - by rewrite (index_map_lookup 0 _ ∅ dep j).
  - intros ->. assert (i = j); [|lia]. eapply (NoDup_lookup _ i j); [exact Hs| |exact Hj].
    unfold step_ids. by rewrite list_lookup_fmap, Hi.
  - simpl. lia.
Qed.
