(* ===== verification/ExecutionController.v ===== *)
(** * Execution controller

    [execution_controller.py]: fail-closed sequential dispatch of a task graph.
    The injected policy validator and adapter are parameters; while either runs
    it may call back [request_stop] and may mutate the caller's graph object. *)

From Stdlib Require Import ZArith.
From S2P Require Import Prelude PyVal Contracts Policy TaskStructure.
Local Open Scope prog_scope.

Module ExecutionState.
Inductive t : Type :=
| PENDING | DISPATCHED | SUCCEEDED | FAILED | TIMED_OUT | CANCELLED | STOPPED.
#[global] Instance eq_dec : EqDecision t.
Proof. solve_decision. Defined.
#[global] Instance enum : StrEnum t := {|
  value x := match x with
    | PENDING => "pending"
    | DISPATCHED => "dispatched"
    | SUCCEEDED => "succeeded"
    | FAILED => "failed"
    | TIMED_OUT => "timed_out"
    | CANCELLED => "cancelled"
    | STOPPED => "stopped"
    end;
  members := [PENDING; DISPATCHED; SUCCEEDED; FAILED; TIMED_OUT; CANCELLED; STOPPED]
|}.
#[global] Instance laws : StrEnumLaws t.
Proof. solve_enum_laws. Qed.
End ExecutionState.

Module ExecutionReasonCode.
Inductive t : Type :=
| SEQUENCE_SUCCEEDED | INVALID_INPUT | INVALID_GRAPH | POLICY_REJECTED
| DUPLICATE_ACTION | ACTION_FAILED | ACTION_TIMED_OUT | ACTION_CANCELLED
| ACTION_STOPPED | ADAPTER_TIMEOUT | ADAPTER_EXCEPTION | INVALID_ADAPTER_RESULT
| STOP_DISPATCHED.
#[global] Instance eq_dec : EqDecision t.
Proof. solve_decision. Defined.
#[global] Instance enum : StrEnum t := {|
  value x := match x with
    | SEQUENCE_SUCCEEDED => "sequence_succeeded"
    | INVALID_INPUT => "invalid_input"
    | INVALID_GRAPH => "invalid_graph"
    | POLICY_REJECTED => "policy_rejected"
    | DUPLICATE_ACTION => "duplicate_action"
    | ACTION_FAILED => "action_failed"
    | ACTION_TIMED_OUT => "action_timed_out"
    | ACTION_CANCELLED => "action_cancelled"
    | ACTION_STOPPED => "action_stopped"
    | ADAPTER_TIMEOUT => "adapter_timeout"
    | ADAPTER_EXCEPTION => "adapter_exception"
    | INVALID_ADAPTER_RESULT => "invalid_adapter_result"
    | STOP_DISPATCHED => "stop_dispatched"
    end;
  members := [SEQUENCE_SUCCEEDED; INVALID_INPUT; INVALID_GRAPH; POLICY_REJECTED; DUPLICATE_ACTION; ACTION_FAILED; ACTION_TIMED_OUT; ACTION_CANCELLED; ACTION_STOPPED; ADAPTER_TIMEOUT; ADAPTER_EXCEPTION; INVALID_ADAPTER_RESULT; STOP_DISPATCHED]
|}.
#[global] Instance laws : StrEnumLaws t.
Proof. solve_enum_laws. Qed.
End ExecutionReasonCode.

Module StopRequestStatus.
Inductive t : Type :=
| ACCEPTED | DUPLICATE | REJECTED.
#[global] Instance eq_dec : EqDecision t.
Proof. solve_decision. Defined.
#[global] Instance enum : StrEnum t := {|
  value x := match x with
    | ACCEPTED => "accepted"
    | DUPLICATE => "duplicate"
    | REJECTED => "rejected"
    end;
  members := [ACCEPTED; DUPLICATE; REJECTED]
|}.
#[global] Instance laws : StrEnumLaws t.
Proof. solve_enum_laws. Qed.
End StopRequestStatus.

(** ** Records and reports *)

(** [StepExecutionRecord], and the [_RecordBuilder] that is frozen into it. *)
Record StepExecutionRecord := {
  record_step_id : string;
  record_action_id : string;
  transitions : list ExecutionState.t;
  result : option ActionResult;
  record_reason : option ExecutionReasonCode.t;
  record_details : list string
}.

Definition new_record (sid aid : string) : StepExecutionRecord := {|
  record_step_id := sid; record_action_id := aid;
  transitions := [ExecutionState.PENDING];
  result := None; record_reason := None; record_details := []
|}.

(** [record.transitions.append(s)] with the reason and the details set *)
Definition mark (s : ExecutionState.t) (r : option ExecutionReasonCode.t)
    (details : list string) (rec : StepExecutionRecord) : StepExecutionRecord := {|
  record_step_id := record_step_id rec; record_action_id := record_action_id rec;
  transitions := transitions rec ++ [s];
  result := result rec; record_reason := r; record_details := details
|}.

Definition with_result (res : ActionResult) (rec : StepExecutionRecord) : StepExecutionRecord := {|
  record_step_id := record_step_id rec; record_action_id := record_action_id rec;
  transitions := transitions rec; result := Some res;
  record_reason := record_reason rec; record_details := record_details rec
|}.

Record ExecutionReport := {
  report_task_id : option string;
  terminal_state : ExecutionState.t;
  report_reason : ExecutionReasonCode.t;
  records : list StepExecutionRecord;
  policy_report : option PolicyReport;
  report_details : list string
}.

(** ** Ports *)

Inductive adapter_result : Type :=
| AReturned (r : pyobj ActionResult)
| ATimeoutError
| ARaised (cls : string).

Inductive check_result : Type :=
| CRaised
| CNotAReport (ty : string)
| CReport (r : PolicyReport) (after : pyobj TaskGraph).

(** What a port does while it runs: it may queue a STOP and may mutate the
    caller's graph, any number of times, before it ends with a result. *)
Inductive env_run (R : Type) : Type :=
| EDone (r : R)
| EStop (a : pyobj SemanticAction) (k : StopRequestStatus.t → env_run R)
| EMutate (g : pyobj TaskGraph) (k : env_run R).
Arguments EDone {R} r.
Arguments EStop {R} a k.
Arguments EMutate {R} g k.

(** An adapter is consulted with the calls it has already served, a policy
    validator with the number of its earlier calls: both may be stateful.
    [visit_frames] is the number of frames that the interpreter's recursion limit
    leaves to [visit] below [execute]. *)
Record Ports := {
  dispatch : list SemanticAction → SemanticAction → env_run adapter_result;
  check : nat → TaskGraph → gset string → env_run check_result;
  visit_frames : nat
}.

(** ** State *)

Record Controller := {
  dispatched_action_ids : gset string;
  accepted_stop_action_ids : gset string;
  pending_stop : option SemanticAction;
  live : pyobj TaskGraph;                 (* the caller's graph object *)
  adapter_calls : list SemanticAction;    (* calls made so far, oldest first *)
  policy_log : list (TaskGraph * check_result)  (* completed policy checks *)
}.

Definition new_controller : Controller := {|
  dispatched_action_ids := ∅; accepted_stop_action_ids := ∅; pending_stop := None;
  live := Foreign "NoneType"; adapter_calls := []; policy_log := []
|}.

Definition set_live (g : pyobj TaskGraph) (c : Controller) : Controller := {|
  dispatched_action_ids := dispatched_action_ids c;
  accepted_stop_action_ids := accepted_stop_action_ids c;
  pending_stop := pending_stop c; live := g;
  adapter_calls := adapter_calls c; policy_log := policy_log c
|}.

Definition set_pending (p : option SemanticAction) (c : Controller) : Controller := {|
  dispatched_action_ids := dispatched_action_ids c;
  accepted_stop_action_ids := accepted_stop_action_ids c;
  pending_stop := p; live := live c;
  adapter_calls := adapter_calls c; policy_log := policy_log c
|}.

Definition accept_stop (a : SemanticAction) (c : Controller) : Controller := {|
  dispatched_action_ids := dispatched_action_ids c;
  accepted_stop_action_ids := {[action_id a]} ∪ accepted_stop_action_ids c;
  pending_stop := Some a; live := live c;
  adapter_calls := adapter_calls c; policy_log := policy_log c
|}.

Definition note_dispatch (a : SemanticAction) (c : Controller) : Controller := {|
  dispatched_action_ids := {[action_id a]} ∪ dispatched_action_ids c;
  accepted_stop_action_ids := accepted_stop_action_ids c;
  pending_stop := pending_stop c; live := live c;
  adapter_calls := adapter_calls c ++ [a]; policy_log := policy_log c
|}.

Definition note_check (g : TaskGraph) (r : check_result) (c : Controller) : Controller := {|
  dispatched_action_ids := dispatched_action_ids c;
  accepted_stop_action_ids := accepted_stop_action_ids c;
  pending_stop := pending_stop c; live := live c;
  adapter_calls := adapter_calls c; policy_log := policy_log c ++ [(g, r)]
|}.

(** Exceptions that escape the controller: pydantic's JSON-mode dump of a
    parameter it cannot serialize, and the guard of [_dispatch_stop]. *)
Inductive exn := SerializationError | RuntimeError | RecursionError.

Abbreviation ctl := (prog Controller exn).

(** ** Snapshots *)

Definition _snapshot_task_graph : pyobj TaskGraph → option TaskGraph * list string :=
  snapshot "TaskGraph" validate_task_graph.
Definition _snapshot_semantic_action : pyobj SemanticAction → option SemanticAction * list string :=
  snapshot "SemanticAction" validate_bounded_action_boundary.
Definition _snapshot_action_result : pyobj ActionResult → option ActionResult * list string :=
  snapshot "ActionResult" validate_completion_state.

Definition _snapshot_confirmed_action_ids (v : pyval) : option (gset string) :=
  match v with
  | VSet l | VFrozenset l =>
      if forallb (λ x, match as_str x with Some s => non_blank s | None => false end) l
      then Some (list_to_set (omap as_str l)) else None
  | _ => None
  end.

(** [graph.model_dump(mode="json")] *)
Definition dump (g : TaskGraph) : ctl pyval := of_option (graph_payload g) SerializationError.

(** ** [request_stop] *)

Definition request_stop (o : pyobj SemanticAction) : ctl StopRequestStatus.t :=
  match o with
  | Foreign _ => ret StopRequestStatus.REJECTED
  | _ =>
      match _snapshot_semantic_action o with
      | (Some a, []) =>
          if decide (action_type a = ActionType.STOP) then
            c <- get ;;
            if decide (action_id a ∈ accepted_stop_action_ids c ∨
                       action_id a ∈ dispatched_action_ids c)
            then ret StopRequestStatus.DUPLICATE
            else match pending_stop c with
                 | Some _ => ret StopRequestStatus.REJECTED
                 | None => modify (accept_stop a) ;;; ret StopRequestStatus.ACCEPTED
                 end
          else ret StopRequestStatus.REJECTED
      | _ => ret StopRequestStatus.REJECTED
      end
  end.

(** Runs a port: its callbacks act on the controller. *)
Fixpoint run_env {R} (e : env_run R) : ctl R :=
  match e with
  | EDone r => ret r
  | EStop a k => s <- request_stop a ;; run_env (k s)
  | EMutate g k => modify (set_live g) ;;; run_env k
  end.

(** [_RESULT_STATES] *)
Definition _RESULT_STATES (o : ActionOutcome.t)
    : ExecutionState.t * option ExecutionReasonCode.t :=
  match o with
  | ActionOutcome.COMPLETED => (ExecutionState.SUCCEEDED, None)
  | ActionOutcome.FAILED => (ExecutionState.FAILED, Some ExecutionReasonCode.ACTION_FAILED)
  | ActionOutcome.TIMEOUT => (ExecutionState.TIMED_OUT, Some ExecutionReasonCode.ACTION_TIMED_OUT)
  | ActionOutcome.CANCELED => (ExecutionState.CANCELLED, Some ExecutionReasonCode.ACTION_CANCELLED)
  | ActionOutcome.SAFE_STOP => (ExecutionState.STOPPED, Some ExecutionReasonCode.ACTION_STOPPED)
  end.

(** [_report] *)
Definition _report (g : TaskGraph) (s : ExecutionState.t) (r : ExecutionReasonCode.t)
    (recs : list StepExecutionRecord) (p : option PolicyReport) (details : list string)
    : ExecutionReport := {|
  report_task_id := Some (task_id g); terminal_state := s; report_reason := r;
  records := recs; policy_report := p; report_details := details
|}.

(** The steps of a one-step graph, as [_single_step_graph] builds it. *)
Definition _single_step_graph (g : TaskGraph) (st : TaskStep) : TaskGraph := {|
  task_id := task_id g; goal := goal g; steps := [st];
  planner := planner g; model_route := model_route g
|}.

Definition stop_step (a : SemanticAction) : TaskStep :=
  {| step_id := action_id a; action := a; depends_on := [] |}.

(** ** [_task_graph_change] *)

Fixpoint reused_action (live_steps snap_steps : list TaskStep) (done_ids : gset string)
    : option string :=
  match live_steps, snap_steps with
  | l :: live', s :: snap' =>
      let live_id := action_id (action l) in
      if decide (live_id ≠ action_id (action s) ∧ live_id ∈ done_ids)
      then Some live_id else reused_action live' snap' done_ids
  | _, _ => None
  end.

Definition _task_graph_change (live_graph : pyobj TaskGraph) (g : TaskGraph) (payload : pyval)
    (done_ids : gset string) : ctl (option (ExecutionReasonCode.t * list string)) :=
  let mutated := Some (ExecutionReasonCode.INVALID_GRAPH, ["TaskGraph mutated during execution"]) in
  match (_snapshot_task_graph live_graph).1 with
  | None => ret mutated
  | Some live_snapshot =>
      live_payload <- dump live_snapshot ;;
      if py_eqb live_payload payload then ret None
      else match reused_action (steps live_snapshot) (steps g) done_ids with
           | Some aid =>
               ret (Some (ExecutionReasonCode.DUPLICATE_ACTION,
                          ["action_id already dispatched: " +:+ aid]))
           | None => ret mutated
           end
  end.

(** The report of [_live_graph_failure], or [None] when the graph is unchanged. *)
Definition _live_graph_failure (g : TaskGraph) (payload : pyval)
    (recs : list StepExecutionRecord) (index : option nat) (policy : option PolicyReport)
    : ctl (option ExecutionReport) :=
  c <- get ;;
  change <- _task_graph_change (live c) g payload (dispatched_action_ids c) ;;
  match change with
  | None => ret None
  | Some (reason, details) =>
      let recs' :=
        match index with
        | Some i =>
            alter (λ rec,
              if decide (transitions rec = [ExecutionState.PENDING])
              then mark ExecutionState.FAILED (Some reason) details rec else rec) i recs
        | None => recs
        end in
      ret (Some (_report g ExecutionState.FAILED reason recs' policy details))
  end.

Section Controller.
Variable ports : Ports.

(** ** [_check_policy] *)

Definition decision_key (d : decision_obj) : option (string * string) :=
  match d with
  | ADecision d => Some (decision_step_id d, decision_action_id d)
  | NotADecision _ => None
  end.

Definition expected_decisions (g : TaskGraph) : list (option (string * string)) :=
  (λ st, Some (step_id st, action_id (action st))) <$> steps g.

(** [not isinstance(report.decisions, tuple) or any(not isinstance(...)) or
    keys != expected], negated *)
Definition decisions_match (r : PolicyReport) (g : TaskGraph) : bool :=
  decisions_is_tuple r &&
  bool_decide (decision_key <$> decisions r = expected_decisions g).

Definition _check_policy (g : TaskGraph) (confirmed : gset string)
    : ctl (option PolicyReport * list string) :=
  match _snapshot_task_graph (Inst g) with
  | (None, errs) => ret (None, errs)
  | (Some policy_graph, _) =>
      policy_payload <- dump policy_graph ;;
      c <- get ;;
      res <- run_env (check ports (length (policy_log c)) policy_graph confirmed) ;;
      modify (note_check policy_graph res) ;;;
      match res with
      | CRaised => ret (None, ["PolicyValidator.check raised"])
      | CNotAReport ty => ret (None, ["PolicyValidator.check returned " +:+ ty])
      | CReport report after =>
          match _snapshot_task_graph after with
          | (Some checked_graph, []) =>
              checked_payload <- dump checked_graph ;;
              if py_eqb checked_payload policy_payload then
                if decisions_match report checked_graph then ret (Some report, [])
                else ret (Some report, ["PolicyValidator.check decisions do not exactly match policy input"])
              else ret (Some report, ["PolicyValidator mutated policy input"])
          | _ => ret (Some report, ["PolicyValidator mutated policy input"])
          end
      end
  end.

(** ** [_dispatch_action] *)

Definition _dispatch_action (a : SemanticAction) (rec : StepExecutionRecord)
    : ctl (option (ExecutionState.t * ExecutionReasonCode.t) * StepExecutionRecord) :=
  let fail s r details :=
    ret (Some (s, r), mark s (Some r) details rec) in
  let after_dispatch := mark ExecutionState.DISPATCHED (record_reason rec) (record_details rec) rec in
  let fail_after s r details :=
    ret (Some (s, r), mark s (Some r) details after_dispatch) in
  match _snapshot_semantic_action (Inst a) with
  | (Some snap, []) =>
      if decide (action_id snap ≠ record_action_id rec)
      then fail ExecutionState.FAILED ExecutionReasonCode.INVALID_INPUT
             ["expected action_id " +:+ record_action_id rec]
      else
        c <- get ;;
        if decide (action_id snap ∈ dispatched_action_ids c)
        then fail ExecutionState.FAILED ExecutionReasonCode.DUPLICATE_ACTION
               ["action_id already dispatched: " +:+ action_id snap]
        else
          modify (note_dispatch snap) ;;;
          res <- run_env (dispatch ports (adapter_calls c) snap) ;;
          match res with
          | ATimeoutError =>
              fail_after ExecutionState.TIMED_OUT ExecutionReasonCode.ADAPTER_TIMEOUT ["TimeoutError"]
          | ARaised cls =>
              fail_after ExecutionState.FAILED ExecutionReasonCode.ADAPTER_EXCEPTION [cls]
          | AReturned (Foreign ty) =>
              fail_after ExecutionState.FAILED ExecutionReasonCode.INVALID_ADAPTER_RESULT
                ["expected ActionResult, got " +:+ ty]
          | AReturned o =>
              match _snapshot_action_result o with
              | (None, errs) =>
                  fail_after ExecutionState.FAILED ExecutionReasonCode.INVALID_ADAPTER_RESULT errs
              | (Some r, _) =>
                  if decide (result_action_id r ≠ action_id snap)
                  then fail_after ExecutionState.FAILED ExecutionReasonCode.INVALID_ADAPTER_RESULT
                         ["expected action_id " +:+ action_id snap +:+ ", got " +:+ result_action_id r]
                  else
                    let '(s, reason) := _RESULT_STATES (outcome_of r) in
                    let rec' := with_result r (mark s reason (record_details after_dispatch) after_dispatch) in
                    match reason with
                    | None => ret (None, rec')
                    | Some reason => ret (Some (s, reason), rec')
                    end
              end
          end
  | (_, errs) =>
      fail ExecutionState.FAILED ExecutionReasonCode.INVALID_INPUT
        (match errs with [] => ["expected action_id " +:+ record_action_id rec] | _ => errs end)
  end.

(** ** [_dispatch_stop] *)

Definition _dispatch_stop (g : TaskGraph) (recs : list StepExecutionRecord)
    (preflight : option PolicyReport) (confirmed : gset string) : ctl ExecutionReport :=
  c <- get ;;
  match pending_stop c with
  | None => raise RuntimeError
  | Some queued =>
      let stop_record := new_record (action_id queued) (action_id queued) in
      let invalid :=
        modify (set_pending None) ;;;
        ret (_report g ExecutionState.FAILED ExecutionReasonCode.INVALID_INPUT
               (recs ++ [mark ExecutionState.FAILED (Some ExecutionReasonCode.INVALID_INPUT)
                           ["pending STOP snapshot is invalid"] stop_record])
               preflight ["pending STOP snapshot is invalid"]) in
      match _snapshot_semantic_action (Inst queued) with
      | (Some a, []) =>
          if decide (action_type a = ActionType.STOP) then
            policy <- _check_policy (_single_step_graph g (stop_step a)) confirmed ;;
            let '(stop_policy, errs) := policy in
            let rejected :=
              ret (_report g ExecutionState.FAILED ExecutionReasonCode.POLICY_REJECTED
                     (recs ++ [mark ExecutionState.FAILED (Some ExecutionReasonCode.POLICY_REJECTED)
                                 errs stop_record]) stop_policy errs) in
            match stop_policy, errs with
            | Some p, [] =>
                if is_valid p then
                  modify (set_pending None) ;;;
                  out <- _dispatch_action a stop_record ;;
                  let '(terminal, rec') := out in
                  match terminal with
                  | Some (s, r) => ret (_report g s r (recs ++ [rec']) preflight [])
                  | None => ret (_report g ExecutionState.STOPPED ExecutionReasonCode.STOP_DISPATCHED
                                   (recs ++ [rec']) preflight [])
                  end
                else rejected
            | _, _ => rejected
            end
          else invalid
      | _ => invalid
      end
  end.

(** ** [execute] *)

(** The loop over the remaining steps, from position [index]; [finish] is what
    follows the loop. *)
Fixpoint execute_steps (g : TaskGraph) (payload : pyval) (preflight : option PolicyReport)
    (confirmed : gset string) (index : nat) (remaining : list TaskStep)
    (recs : list StepExecutionRecord) : ctl ExecutionReport :=
  match remaining with
  | [] =>
      changed <- _live_graph_failure g payload recs None preflight ;;
      match changed with
      | Some report => ret report
      | None =>
          c <- get ;;
          match pending_stop c with
          | Some _ => _dispatch_stop g recs preflight confirmed
          | None => ret (_report g ExecutionState.SUCCEEDED ExecutionReasonCode.SEQUENCE_SUCCEEDED
                           recs preflight [])
          end
      end
  | st :: remaining' =>
      c <- get ;;
      match pending_stop c with
      | Some _ =>
          changed <- _live_graph_failure g payload recs (Some index) preflight ;;
          match changed with
          | Some report => ret report
          | None => _dispatch_stop g recs preflight confirmed
          end
      | None =>
          policy <- _check_policy (_single_step_graph g st) confirmed ;;
          let '(dispatch_policy, errs) := policy in
          let allowed :=
            match dispatch_policy, errs with Some p, [] => is_valid p | _, _ => false end in
          if allowed then
            changed <- _live_graph_failure g payload recs (Some index) preflight ;;
            match changed with
            | Some report => ret report
            | None =>
                out <- _dispatch_action (action st)
                         (default (new_record "" "") (recs !! index)) ;;
                let '(terminal, rec') := out in
                let recs' := <[index := rec']> recs in
                match terminal with
                | Some (s, r) => ret (_report g s r recs' preflight [])
                | None => execute_steps g payload preflight confirmed (S index) remaining' recs'
                end
            end
          else
            ret (_report g ExecutionState.FAILED ExecutionReasonCode.POLICY_REJECTED
                   (alter (mark ExecutionState.FAILED (Some ExecutionReasonCode.POLICY_REJECTED) errs)
                      index recs) dispatch_policy errs)
      end
  end.

(** The preflight of [execute], after the graph snapshot. *)
Definition execute_snapshot (g : TaskGraph) (confirmed_action_ids : pyval) : ctl ExecutionReport :=
  let recs := (λ st, new_record (step_id st) (action_id (action st))) <$> steps g in
  let failed r policy details := ret (_report g ExecutionState.FAILED r recs policy details) in
  match _snapshot_confirmed_action_ids confirmed_action_ids with
  | None => failed ExecutionReasonCode.INVALID_INPUT None
              ["confirmed_action_ids must be a set or frozenset of non-blank strings"]
  | Some confirmed =>
      payload <- dump g ;;
      match _graph_structure_errors (visit_frames ports) g with
      | None => raise RecursionError
      | Some ((_ :: _) as errs) => failed ExecutionReasonCode.INVALID_GRAPH None errs
      | Some [] =>
          c <- get ;;
          match filter (λ aid, aid ∈ dispatched_action_ids c) (action_ids g) with
          | (_ :: _) as repeated =>
              failed ExecutionReasonCode.DUPLICATE_ACTION None
                ((λ aid, "action_id already dispatched: " +:+ aid) <$> repeated)
          | [] =>
              policy <- _check_policy g confirmed ;;
              let '(preflight, errs) := policy in
              match preflight, errs with
              | Some p, [] =>
                  if is_valid p
                  then execute_steps g payload preflight confirmed 0 (steps g) recs
                  else failed ExecutionReasonCode.POLICY_REJECTED preflight []
              | _, _ => failed ExecutionReasonCode.POLICY_REJECTED preflight errs
              end
          end
      end
  end.

Definition execute (graph : pyobj TaskGraph) (confirmed_action_ids : pyval) : ctl ExecutionReport :=
  modify (set_live graph) ;;;
  match graph with
  | Foreign ty =>
      ret {| report_task_id := None; terminal_state := ExecutionState.FAILED;
             report_reason := ExecutionReasonCode.INVALID_INPUT; records := [];
             policy_report := None; report_details := ["expected TaskGraph, got " +:+ ty] |}
  | _ =>
      match _snapshot_task_graph graph with
      | (Some g, _) => execute_snapshot g confirmed_action_ids
      | (None, errs) =>
          ret {| report_task_id := match graph with
                                   | Inst g => Some (task_id g)
                                   | Broken _ ident => ident
                                   | Foreign _ => None end;
                 terminal_state := ExecutionState.FAILED;
                 report_reason := ExecutionReasonCode.INVALID_GRAPH; records := [];
                 policy_report := None; report_details := errs |}
      end
  end.

End Controller.
