(* ===== verification/ExecutionProofs.v ===== *)
(** * Execution controller: theorems

    At-most-once dispatch, the policy gate, dispatch order, the shape of the
    records, what a successful report means, and that an accepted STOP is not
    lost, for every adapter and every policy validator. *)

From Stdlib Require Import ZArith.
From S2P Require Import Prelude PyVal Contracts Policy TaskStructure ExecutionController.
Local Open Scope prog_scope.

(** Proves [preserves I m] by following the structure of [m]. *)
Ltac solve_preserves :=
  repeat first
    [ progress intros
    | solve [eauto with prog]
    | apply preserves_bind
    | apply preserves_modify
    | case_match ].

(** ** Invariants that callbacks keep *)

(** A port only touches the controller through [request_stop] and the graph. *)
Class CallbackInv (I : Controller → Prop) : Prop := {
  cb_live g c : I c → I (set_live g c);
  cb_accept a c :
    I c → action_type a = ActionType.STOP → validate_bounded_action_boundary a = true →
    action_id a ∉ dispatched_action_ids c → pending_stop c = None → I (accept_stop a c)
}.

Lemma request_stop_preserves I `{!CallbackInv I} o : preserves I (request_stop o).
Proof.
  unfold request_stop. destruct o as [a|err ident|ty]; [|apply preserves_ret..].
  destruct (_snapshot_semantic_action (Inst a)) as [[a'|] errs] eqn:E; [|solve_preserves].
  apply snapshot_Some in E as (Ha & Hv & ->). simplify_eq/=.
  case_decide as Hstop; [|solve_preserves].
  intros c HI. unfold bind, get; simpl. case_decide as Hdup; [done|].
  destruct (pending_stop c) eqn:Hp; [done|]. apply cb_accept; naive_solver.
Qed.

Lemma run_env_preserves {R} I `{!CallbackInv I} (e : env_run R) : preserves I (run_env e).
Proof.
  induction e as [r|a k IH|g k IH]; simpl.
  - apply preserves_ret.
  - apply preserves_bind; [by apply request_stop_preserves|done].
  - apply preserves_bind; [|done]. apply preserves_modify. intros. by apply cb_live.
Qed.

#[export] Hint Resolve request_stop_preserves run_env_preserves : prog.

Lemma dump_preserves I g : preserves I (dump g).
Proof. unfold dump. solve_preserves. Qed.
#[export] Hint Resolve dump_preserves : prog.

Lemma task_graph_change_preserves I l g p ids : preserves I (_task_graph_change l g p ids).
Proof. unfold _task_graph_change. solve_preserves. Qed.
#[export] Hint Resolve task_graph_change_preserves : prog.

Lemma live_graph_failure_preserves I g p recs i pol :
  preserves I (_live_graph_failure g p recs i pol).
Proof. unfold _live_graph_failure. solve_preserves. Qed.
#[export] Hint Resolve live_graph_failure_preserves : prog.

(** Policy checks keep [I] when callbacks and the log do. *)
Class CheckInv (I : Controller → Prop) : Prop := {
  ci_callback :: CallbackInv I;
  ci_check g r c : I c → I (note_check g r c)
}.

(** The results a port can end with. *)
Inductive env_result {R} : env_run R → R → Prop :=
| er_done r : env_result (EDone r) r
| er_stop a k s r : env_result (k s) r → env_result (EStop a k) r
| er_mutate g k r : env_result k r → env_result (EMutate g k) r.

Lemma run_env_result {R} (e : env_run R) : ∀ c r c', run_env e c = (Ok r, c') → env_result e r.
Proof.
  induction e as [r0|a k IH|g k IH]; simpl; intros c r c'.
  - intros [= <- _]. constructor.
  - unfold bind. destruct (request_stop a c) as [[s|err] c1]; [|done]. intros H. eapply er_stop, IH, H.
  - unfold bind, modify. intros H. eapply er_mutate, IH, H.
Qed.

Section Preservation.
Context (ports : Ports) (I : Controller → Prop) `{!CallbackInv I}.

(** A policy check keeps [I] when the log entry it writes does. *)
Lemma check_policy_preserves_by g conf :
  (∀ n g' r c, env_result (check ports n g' conf) r → I c → I (note_check g' r c)) →
  preserves I (_check_policy ports g conf).
Proof.
  intros Hcheck. unfold _check_policy.
  destruct (_snapshot_task_graph (Inst g)) as [[pg|] errs]; [|solve_preserves].
  apply preserves_bind; [solve_preserves|intros payload].
  apply preserves_bind; [solve_preserves|intros c].
  intros c1 HI. unfold bind at 1.
  pose proof (run_env_preserves I (check ports (length (policy_log c)) pg conf) c1 HI) as Hrun.
  pose proof (run_env_result (check ports (length (policy_log c)) pg conf) c1) as Hres.
  destruct (run_env _ c1) as [[res|e] c2]; [|done]. specialize (Hres _ _ eq_refl).
  unfold bind at 1, modify. simpl in Hrun. specialize (Hcheck _ _ _ _ Hres Hrun).
  revert Hcheck. generalize (note_check pg res c2). destruct res as [| |report after]; [done..|].
  intros c3 HI3. revert c3 HI3. change (preserves I (match _snapshot_task_graph after with
    | (Some checked_graph, []) =>
        checked_payload <- dump checked_graph ;;
        if py_eqb checked_payload payload then
          if decisions_match report checked_graph then ret (Some report, [])
          else ret (Some report, ["PolicyValidator.check decisions do not exactly match policy input"])
        else ret (Some report, ["PolicyValidator mutated policy input"])
    | _ => ret (Some report, ["PolicyValidator mutated policy input"])
    end)).
  destruct (_snapshot_task_graph after) as [[] []]; solve_preserves.
Qed.

(** A dispatch ends in [I] when it does for a repeated and for a fresh action. *)
Lemma dispatch_action_post a rec c :
  (validate_bounded_action_boundary a = false → I c) →
  (action_id a ≠ record_action_id rec → I c) →
  (action_id a ∈ dispatched_action_ids c → I c) →
  (action_id a ∉ dispatched_action_ids c → I (note_dispatch a c)) →
  I (_dispatch_action ports a rec c).2.
Proof.
  intros Hinvalid Hother Hdup Hnew. unfold _dispatch_action, _snapshot_semantic_action, snapshot.
  destruct (validate_bounded_action_boundary a); [|by apply Hinvalid].
  case_decide as Hid; [by apply Hother|].
  unfold bind at 1, get. case_decide as Hd; [by apply Hdup|].
  assert (preserves I (run_env (dispatch ports (adapter_calls c) a))) as He
    by (apply run_env_preserves, _).
  unfold bind, modify. specialize (He _ (Hnew Hd)).
  destruct (run_env _ _) as [[res|e] c']; simpl in *; [|done].
  destruct res as [[r|err ident|ty]| |]; try done.
  destruct (_snapshot_action_result (Inst r)) as [[r'|] errs]; [|done].
  case_decide; [done|]. destruct (_RESULT_STATES _) as [s [reason|]]; done.
Qed.

Lemma dispatch_stop_preserves g recs pre conf :
  (∀ g, preserves I (_check_policy ports g conf)) →
  (∀ c, I c → I (set_pending None c)) →
  (∀ a c, I c → action_id a ∉ dispatched_action_ids c → I (note_dispatch a c)) →
  preserves I (_dispatch_stop ports g recs pre conf).
Proof.
  intros Hcheck Hclear Hdisp.
  assert (∀ a rec, preserves I (_dispatch_action ports a rec)).
  { intros a rec c HI. apply dispatch_action_post; eauto. }
  unfold _dispatch_stop. solve_preserves.
Qed.

Lemma execute_preserves graph conf :
  (∀ g ids, _snapshot_confirmed_action_ids conf = Some ids → preserves I (_check_policy ports g ids)) →
  (∀ g recs pre ids, _snapshot_confirmed_action_ids conf = Some ids → preserves I (_dispatch_stop ports g recs pre ids)) →
  (∀ a c, I c → action_id a ∉ dispatched_action_ids c → I (note_dispatch a c)) →
  preserves I (execute ports graph conf).
Proof.
  intros Hcheck Hstop Hdisp.
  assert (∀ a rec, preserves I (_dispatch_action ports a rec)).
  { intros a rec c HI. apply dispatch_action_post; eauto. }
  assert (∀ g payload pre ids i rem recs, _snapshot_confirmed_action_ids conf = Some ids →
    preserves I (execute_steps ports g payload pre ids i rem recs)).
  { intros g payload pre ids i rem recs Hids. revert i recs.
    induction rem as [|st rem IH]; intros i recs; simpl; solve_preserves. }
  unfold execute. apply preserves_bind.
  { apply preserves_modify. intros. by apply cb_live. }
  unfold execute_snapshot. solve_preserves.
Qed.

End Preservation.

Lemma check_policy_preserves ports I `{!CheckInv I} g conf : preserves I (_check_policy ports g conf).
Proof. apply check_policy_preserves_by; [apply _|]. intros. by apply ci_check. Qed.

(** ** Sessions: any sequence of calls on one controller *)

Inductive session_step (ports : Ports) : Controller → Controller → Prop :=
| session_stop o c : session_step ports c (request_stop o c).2
| session_execute graph conf c : session_step ports c (execute ports graph conf c).2.

Definition reachable (ports : Ports) (c : Controller) : Prop :=
  rtc (session_step ports) new_controller c.

Lemma reachable_inv ports (I : Controller → Prop) :
  I new_controller → (∀ o, preserves I (request_stop o)) →
  (∀ graph conf, preserves I (execute ports graph conf)) →
  ∀ c, reachable ports c → I c.
Proof.
  intros H0 Hs He c. apply (rtc_ind_r I); [done|]. intros c1 c2 _ Hstep HI.
  destruct Hstep; [by apply Hs|by apply He].
Qed.

(** *** At most one dispatch per action identifier *)

Definition once (c : Controller) : Prop :=
  NoDup (action_id <$> adapter_calls c) ∧
  ∀ x, x ∈ dispatched_action_ids c ↔ x ∈ action_id <$> adapter_calls c.

#[local] Instance once_check : CheckInv once.
Proof. split; [split|]; done. Qed.

Lemma once_dispatch a c : once c → action_id a ∉ dispatched_action_ids c → once (note_dispatch a c).
Proof.
  intros [Hnd Hids] Ha. unfold once, note_dispatch; simpl. rewrite fmap_app.
  change (action_id <$> [a]) with [action_id a]. split.
  - apply NoDup_app. split_and!; [done| |apply NoDup_singleton].
    intros x Hx. rewrite list_elem_of_singleton. intros ->. by apply Ha, Hids.
  - intros x. rewrite elem_of_union, elem_of_singleton, elem_of_app, Hids, list_elem_of_singleton. tauto.
Qed.

Lemma once_execute ports graph conf : preserves once (execute ports graph conf).
Proof.
  apply (execute_preserves ports once); eauto using once_dispatch, check_policy_preserves, once_check.
  intros. apply (dispatch_stop_preserves ports once); eauto using once_dispatch, check_policy_preserves, once_check.
Qed.

Lemma reachable_once ports c : reachable ports c → once c.
Proof.
  apply reachable_inv.
  - split; [constructor|]. intros x. simpl. set_solver.
  - intros o. apply (request_stop_preserves once).
  - apply once_execute.
Qed.

(** *** An accepted STOP is not lost *)

Definition stop_kept (c : Controller) : Prop :=
  (∀ a, pending_stop c = Some a →
     action_type a = ActionType.STOP ∧ validate_bounded_action_boundary a = true) ∧
  (∀ x, x ∈ accepted_stop_action_ids c →
     (∃ a, pending_stop c = Some a ∧ action_id a = x) ∨ x ∈ dispatched_action_ids c).

#[local] Instance stop_kept_check : CheckInv stop_kept.
Proof.
  split; [split|]; [done| |done]. intros a c [Hp Hacc] Hstop Hv Hnew Hnone.
  split; simpl; [naive_solver|]. intros x [->%elem_of_singleton|Hx]%elem_of_union; [eauto|].
  destruct (Hacc x Hx) as [(a' & ? & ?)|?]; [congruence|by right].
Qed.

#[local] Instance pending_check q : CheckInv (λ c, pending_stop c = Some q).
Proof. split; [split|]; [done| |done]. simpl. congruence. Qed.

Lemma stop_kept_dispatch a c :
  stop_kept c → action_id a ∉ dispatched_action_ids c → stop_kept (note_dispatch a c).
Proof.
  intros [Hp Hacc] _. split; simpl; [done|]. intros x Hx.
  destruct (Hacc x Hx) as [?|?]; [by left|right; set_solver].
Qed.

Lemma stop_kept_clear ports q rec c :
  stop_kept c → pending_stop c = Some q → record_action_id rec = action_id q →
  stop_kept (_dispatch_action ports q rec (set_pending None c)).2.
Proof.
  intros [Hp Hacc] Hq Hrec. destruct (Hp q Hq) as [_ Hv].
  apply (dispatch_action_post ports stop_kept); [congruence..| |]; intros Hd.
  - split; simpl; [done|]. intros x Hx. right.
    destruct (Hacc x Hx) as [(a & Ha & <-)|?]; [|done]. by simplify_eq.
  - split; simpl; [done|]. intros x Hx. right.
    destruct (Hacc x Hx) as [(a & Ha & <-)|?]; [simplify_eq|]; set_solver.
Qed.

Lemma stop_kept_dispatch_stop ports g recs pre conf :
  preserves stop_kept (_dispatch_stop ports g recs pre conf).
Proof.
  intros c HI. unfold _dispatch_stop. unfold bind at 1, get.
  destruct (pending_stop c) as [q|] eqn:Hq; [|done].
  destruct (proj1 HI q Hq) as [Hstop Hv].
  unfold _snapshot_semantic_action, snapshot. rewrite Hv. rewrite decide_True by done.
  pose proof (check_policy_preserves ports stop_kept (_single_step_graph g (stop_step q)) conf c HI) as HI'.
  pose proof (check_policy_preserves ports (λ c, pending_stop c = Some q)
    (_single_step_graph g (stop_step q)) conf c Hq) as Hq'.
  unfold bind at 1. destruct (_check_policy _ _ _ _) as [[[p errs]|e] c1]; simpl in *; [|done].
  destruct p as [p|]; [|done]. destruct errs; [|done]. destruct (is_valid p); [|done].
  pose proof (stop_kept_clear ports q (new_record (action_id q) (action_id q)) c1 HI' Hq' eq_refl) as Hend.
  unfold bind, modify.
  destruct (_dispatch_action _ _ _ _) as [[[[[s r]|] rec']|e] c2]; done.
Qed.

Lemma reachable_stop_kept ports c : reachable ports c → stop_kept c.
Proof.
  apply reachable_inv; [split; [done|set_solver]| |].
  - intros o. apply (request_stop_preserves stop_kept).
  - intros graph conf. apply (execute_preserves ports stop_kept);
      eauto using stop_kept_dispatch, stop_kept_dispatch_stop.
    intros. apply check_policy_preserves, _.
Qed.

(** ** One dispatch *)

Lemma request_stop_ok o c : ∃ s c', request_stop o c = (Ok s, c').
Proof.
  unfold request_stop, bind, get, ret, modify. destruct o as [a|err ident|ty]; simpl; eauto.
  repeat (case_match; simplify_eq/=; eauto).
Qed.

Lemma run_env_ok {R} (e : env_run R) c : ∃ r c', run_env e c = (Ok r, c').
Proof.
  revert c. induction e as [r|a k IH|g k IH]; intros c; simpl; unfold bind; [by eexists _, _|..].
  - destruct (request_stop_ok a c) as (s & c' & ->). apply IH.
  - apply IH.
Qed.

#[local] Instance calls_check l : CheckInv (λ c, adapter_calls c = l).
Proof. split; [split|]; done. Qed.

(** A record of an action that the device confirmed. *)
Definition settled (rec : StepExecutionRecord) : Prop :=
  transitions rec = [ExecutionState.PENDING; ExecutionState.DISPATCHED; ExecutionState.SUCCEEDED] ∧
  ∃ r, result rec = Some r ∧ result_action_id r = record_action_id rec ∧
       outcome_of r = ActionOutcome.COMPLETED ∧
       dispatch_state r = DispatchState.SENT ∧ device_state r = DeviceState.CONFIRMED.

Definition same_ids (rec rec' : StepExecutionRecord) : Prop :=
  record_step_id rec' = record_step_id rec ∧ record_action_id rec' = record_action_id rec.

Definition terminal_failure (s : ExecutionState.t) : Prop :=
  s ∈ [ExecutionState.FAILED; ExecutionState.TIMED_OUT; ExecutionState.CANCELLED; ExecutionState.STOPPED].

(** What one call of [_dispatch_action] on a fresh record does: it never
    raises; [None] means the action was sent once and confirmed. *)
Definition dispatch_post (a : SemanticAction) (rec : StepExecutionRecord) (c : Controller)
    (out : outcome exn (option (ExecutionState.t * ExecutionReasonCode.t) * StepExecutionRecord)
           * Controller) : Prop :=
  match out with
  | (Ok (None, rec'), c') =>
      adapter_calls c' = adapter_calls c ++ [a] ∧ same_ids rec rec' ∧ settled rec'
  | (Ok (Some (s, r), rec'), c') =>
      terminal_failure s ∧ same_ids rec rec' ∧
      ((adapter_calls c' = adapter_calls c ∧ s = ExecutionState.FAILED ∧
        transitions rec' = [ExecutionState.PENDING; ExecutionState.FAILED]) ∨
       (adapter_calls c' = adapter_calls c ++ [a] ∧
        transitions rec' = [ExecutionState.PENDING; ExecutionState.DISPATCHED; s]))
  | (Raise _, _) => False
  end.

Lemma completed_result r :
  validate_completion_state r = true → outcome_of r = ActionOutcome.COMPLETED →
  dispatch_state r = DispatchState.SENT ∧ device_state r = DeviceState.CONFIRMED.
Proof.
  unfold validate_completion_state. intros Hv Ho. rewrite Ho in Hv.
  destruct (dispatch_state r), (device_state r); simpl in Hv;
    try done; by rewrite andb_false_r in Hv.
Qed.

Lemma dispatch_action_spec ports a rec c :
  transitions rec = [ExecutionState.PENDING] →
  dispatch_post a rec c (_dispatch_action ports a rec c).
Proof.
  intros Hfresh. unfold _dispatch_action, _snapshot_semantic_action, snapshot.
  destruct (validate_bounded_action_boundary a).
  2:{ split_and!; simpl; [set_solver|done|]. left. by rewrite Hfresh. }
  case_decide as Hid.
  { split_and!; simpl; [set_solver|done|]. left. by rewrite Hfresh. }
  unfold bind at 1, get. case_decide as Hd.
  { split_and!; simpl; [set_solver|done|]. left. by rewrite Hfresh. }
  assert (adapter_calls (run_env (dispatch ports (adapter_calls c) a) (note_dispatch a c)).2
          = adapter_calls c ++ [a]) as Hcalls
    by (by apply (run_env_preserves (λ c', adapter_calls c' = adapter_calls c ++ [a]))).
  unfold bind, modify. destruct (run_env_ok (dispatch ports (adapter_calls c) a) (note_dispatch a c))
    as (res & c' & Hrun). rewrite Hrun in *. simpl in Hcalls.
  assert (∀ s r details, terminal_failure s →
    dispatch_post a rec c (Ok (Some (s, r), mark s (Some r) details
      (mark ExecutionState.DISPATCHED (record_reason rec) (record_details rec) rec)), c')) as Hfail.
  { intros s r details Hs. split_and!; simpl; [done..|]. right. by rewrite Hfresh. }
  destruct res as [[r|err ident|ty]| |]; try (apply Hfail; set_solver).
  unfold _snapshot_action_result, snapshot.
  destruct (validate_completion_state r) eqn:Hv; [|apply Hfail; set_solver].
  case_decide as Hres; [apply Hfail; set_solver|].
  destruct (outcome_of r) eqn:Ho; simpl;
    try (split_and!; simpl; [set_solver|done|right; by rewrite Hfresh]).
  split_and!; [done..|]. split; simpl; [by rewrite Hfresh|].
  exists r. destruct (completed_result r Hv Ho). split_and!; congruence.
Qed.

(** ** Policy checks and graph comparison *)

Definition raises_only {A} (P : exn → Prop) (out : outcome exn A * Controller) : Prop :=
  match out with (Raise e, _) => P e | _ => True end.

Lemma dump_spec g c :
  match dump g c with
  | (Ok p, c') => c' = c ∧ graph_payload g = Some p
  | (Raise e, c') => c' = c ∧ e = SerializationError ∧ graph_payload g = None
  end.
Proof. unfold dump, of_option. by destruct (graph_payload g). Qed.

Lemma task_graph_change_state l g p ids c :
  match _task_graph_change l g p ids c with
  | (Ok _, c') => c' = c
  | (Raise e, c') => c' = c ∧ e = SerializationError
  end.
Proof.
  unfold _task_graph_change. destruct (_snapshot_task_graph l) as [[lg|] errs]; simpl; [|done].
  unfold bind. pose proof (dump_spec lg c) as Hd.
  destruct (dump lg c) as [[lp|e] c']; [|naive_solver]. destruct Hd as [-> _].
  destruct (py_eqb lp p); [done|]. by destruct (reused_action _ _ _).
Qed.

Definition legal_record (rec : StepExecutionRecord) : Prop :=
  transitions rec ∈ [[ExecutionState.PENDING]; [ExecutionState.PENDING; ExecutionState.FAILED]] ∨
  settled rec ∨
  ∃ s, terminal_failure s ∧
       transitions rec = [ExecutionState.PENDING; ExecutionState.DISPATCHED; s].

Lemma live_graph_failure_spec g p recs i pol c :
  Forall legal_record recs →
  match _live_graph_failure g p recs i pol c with
  | (Ok (Some rep), c') =>
      c' = c ∧ terminal_state rep = ExecutionState.FAILED ∧ Forall legal_record (records rep)
  | (Ok None, c') => c' = c
  | (Raise e, c') => c' = c ∧ e = SerializationError
  end.
Proof.
  intros Hrecs. unfold _live_graph_failure, bind, get.
  pose proof (task_graph_change_state (live c) g p (dispatched_action_ids c) c) as Hch.
  destruct (_task_graph_change _ _ _ _ _) as [[[[reason details]|]|e] c']; [|done|naive_solver].
  subst c'. split_and!; [done..|]. simpl. destruct i as [i|]; [|done].
  apply Forall_alter; [done|]. intros rec _ Hrec. case_decide as Ht; [|done].
  left. unfold mark; simpl. rewrite Ht. set_solver.
Qed.

Lemma request_stop_calls a c : adapter_calls (request_stop a c).2 = adapter_calls c.
Proof. by apply (request_stop_preserves (λ c', adapter_calls c' = adapter_calls c)). Qed.

Lemma check_policy_calls ports g conf c :
  adapter_calls (_check_policy ports g conf c).2 = adapter_calls c.
Proof. by apply (check_policy_preserves ports (λ c', adapter_calls c' = adapter_calls c)). Qed.

(** A check that reports no error has logged an authorizing report. *)
Definition authorized (log : list (TaskGraph * check_result)) (g : TaskGraph) (p : PolicyReport)
    : Prop :=
  ∃ after checked pl,
    (g, CReport p after) ∈ log ∧ after = Inst checked ∧ decisions_match p checked = true ∧
    graph_payload g = Some pl ∧
    ∃ pl', graph_payload checked = Some pl' ∧ py_eqb pl' pl = true.

#[local] Instance log_callback log : CallbackInv (λ c, policy_log c = log).
Proof. by split. Qed.

Lemma check_policy_spec ports g conf c :
  match _check_policy ports g conf c with
  | (Ok (Some p, []), c') => ∀ k, k ≤ length (policy_log c) → authorized (drop k (policy_log c')) g p
  | (Ok _, _) => True
  | (Raise e, _) => e = SerializationError
  end.
Proof.
  unfold _check_policy, _snapshot_task_graph. simpl.
  destruct (validate_task_graph g); [|done].
  unfold bind at 1. pose proof (dump_spec g c) as Hd. destruct (dump g c) as [[pl|e] c1]; [|naive_solver].
  destruct Hd as [-> Hpl]. unfold bind at 1, get. unfold bind at 1.
  pose proof (run_env_preserves (λ c', policy_log c' = policy_log c) (check ports (length (policy_log c)) g conf) c eq_refl) as Hlog.
  destruct (run_env_ok (check ports (length (policy_log c)) g conf) c) as (res & c2 & Hrun). rewrite Hrun in *. simpl in Hlog.
  unfold bind at 1, modify. destruct res as [| |report after]; [done..|].
  destruct (snapshot "TaskGraph" validate_task_graph after) as [[cg|] errs] eqn:Hs; [|done].
  apply snapshot_Some in Hs as (-> & _ & ->).
  unfold bind at 1. pose proof (dump_spec cg (note_check g (CReport report (Inst cg)) c2)) as Hd.
  destruct (dump cg _) as [[pl'|e] c3]; [|naive_solver]. destruct Hd as [-> Hpl'].
  destruct (py_eqb pl' pl) eqn:Heq; [|done].
  destruct (decisions_match report cg) eqn:Hm; [|done].
  intros k Hk. exists (Inst cg), cg, pl. split_and!; [|done..|by exists pl']. simpl. rewrite Hlog, drop_app_le by done. set_solver.
Qed.

(** ** The STOP boundary *)

Lemma dispatch_stop_spec ports g recs pre conf c q :
  stop_kept c → pending_stop c = Some q → Forall legal_record recs →
  match _dispatch_stop ports g recs pre conf c with
  | (Ok rep, c') =>
      terminal_state rep ≠ ExecutionState.SUCCEEDED ∧ Forall legal_record (records rep) ∧
      (adapter_calls c' = adapter_calls c ∨ adapter_calls c' = adapter_calls c ++ [q])
  | (Raise e, c') => e = SerializationError ∧ adapter_calls c' = adapter_calls c
  end.
Proof.
  intros [Hk _] Hq Hrecs. destruct (Hk q Hq) as [Hstop Hv].
  unfold _dispatch_stop. unfold bind at 1, get. rewrite Hq.
  unfold _snapshot_semantic_action, snapshot. rewrite Hv, decide_True by done.
  pose proof (check_policy_calls ports (_single_step_graph g (stop_step q)) conf c) as Hcalls.
  pose proof (check_policy_spec ports (_single_step_graph g (stop_step q)) conf c) as Hspec.
  unfold bind at 1. destruct (_check_policy _ _ _ _) as [[[p errs]|e] c1]; simpl in *; [|done].
  assert (legal_record (mark ExecutionState.FAILED (Some ExecutionReasonCode.POLICY_REJECTED) errs
    (new_record (action_id q) (action_id q)))) as Hleg by (left; set_solver).
  assert (Forall legal_record (recs ++ [mark ExecutionState.FAILED
    (Some ExecutionReasonCode.POLICY_REJECTED) errs (new_record (action_id q) (action_id q))])) as Hleg'
    by (apply Forall_app; split; [done|by apply Forall_singleton]).
  destruct p as [p|]; [|split_and!; [done..|by left]].
  destruct errs; [|split_and!; [done..|by left]].
  destruct (is_valid p); [|split_and!; [done..|by left]].
  unfold bind, modify.
  pose proof (dispatch_action_spec ports q (new_record (action_id q) (action_id q))
    (set_pending None c1) eq_refl) as Hd.
  destruct (_dispatch_action _ _ _ _) as [[[[[s r]|] rec']|e] c2]; simpl in Hd; [| |done].
  - destruct Hd as (Hs & _ & Hd). split_and!.
    + simpl. intros ->. set_solver.
    + apply Forall_app. split; [done|]. apply Forall_singleton.
      destruct Hd as [(_ & _ & Ht)|[_ Ht]]; [left; rewrite Ht; set_solver|right; right; eauto].
    + rewrite Hcalls in Hd. naive_solver.
  - destruct Hd as (Hc & _ & Ht). split_and!; [done| |right; by rewrite Hc, <-Hcalls].
    apply Forall_app. split; [done|]. apply Forall_singleton. right. by left.
Qed.

(** ** The dispatch loop *)

Definition fresh_record (st : TaskStep) : StepExecutionRecord :=
  new_record (step_id st) (action_id (action st)).

Definition settled_for (st : TaskStep) (rec : StepExecutionRecord) : Prop :=
  record_step_id rec = step_id st ∧ record_action_id rec = action_id (action st) ∧ settled rec.

(** The calls [new] are a prefix of the steps' actions, in order, and then at
    most one STOP. *)
Definition ordered_calls (sts : list TaskStep) (new : list SemanticAction) : Prop :=
  ∃ k stop, new = (action <$> take k sts) ++ stop ∧
    (stop = [] ∨ ∃ q, stop = [q] ∧ action_type q = ActionType.STOP).

Lemma ordered_calls_nil sts : ordered_calls sts [].
Proof. exists 0, []. split; [done|by left]. Qed.

Lemma ordered_calls_stop sts q : action_type q = ActionType.STOP → ordered_calls sts [q].
Proof. intros. exists 0, [q]. split; [done|]. right. eauto. Qed.

Lemma ordered_calls_cons st sts new :
  ordered_calls sts new → ordered_calls (st :: sts) (action st :: new).
Proof. intros (k & stop & -> & Hs). by exists (S k), stop. Qed.

Lemma ordered_calls_one st sts : ordered_calls (st :: sts) [action st].
Proof. apply ordered_calls_cons, ordered_calls_nil. Qed.

Definition steps_post (sts : list TaskStep) (done_recs : list StepExecutionRecord)
    (c : Controller) (out : outcome exn ExecutionReport * Controller) : Prop :=
  ∃ new, adapter_calls out.2 = adapter_calls c ++ new ∧ ordered_calls sts new ∧
  match out.1 with
  | Ok rep =>
      Forall legal_record (records rep) ∧
      (terminal_state rep = ExecutionState.SUCCEEDED →
       report_reason rep = ExecutionReasonCode.SEQUENCE_SUCCEEDED ∧ new = action <$> sts ∧
       ∃ recs', records rep = done_recs ++ recs' ∧ Forall2 settled_for sts recs')
  | Raise e => e = SerializationError ∨ e = RecursionError
  end.

(** A report that ends the loop without success and without further calls. *)
Lemma steps_post_stop sts done_recs c rep c' :
  terminal_state rep ≠ ExecutionState.SUCCEEDED → Forall legal_record (records rep) →
  adapter_calls c' = adapter_calls c → steps_post sts done_recs c (Ok rep, c').
Proof.
  intros Hs Hr Hc. exists []. simpl. rewrite app_nil_r.
  split_and!; [done|apply ordered_calls_nil|done|done].
Qed.

Lemma steps_post_raise sts done_recs c c' e :
  adapter_calls c' = adapter_calls c → e = SerializationError ∨ e = RecursionError → steps_post sts done_recs c (Raise e, c').
Proof. intros Hc He. exists []. simpl. rewrite app_nil_r. auto using ordered_calls_nil. Qed.

Lemma steps_post_dispatch_stop ports sts done_recs recs g pre conf c q :
  stop_kept c → pending_stop c = Some q → Forall legal_record recs →
  steps_post sts done_recs c (_dispatch_stop ports g recs pre conf c).
Proof.
  intros Hk Hq Hrecs. pose proof (dispatch_stop_spec ports g recs pre conf c q Hk Hq Hrecs) as Hs.
  destruct (_dispatch_stop _ _ _ _ _ _) as [[rep|e] c']; [|destruct Hs as [-> ?]; by apply steps_post_raise; auto].
  destruct Hs as (Hne & Hleg & [Hc|Hc]); [by apply steps_post_stop|].
  exists [q]. simpl. split_and!; [done| |done|done].
  apply ordered_calls_stop. by apply (proj1 Hk).
Qed.

Lemma steps_post_calls sts done_recs c c1 out :
  adapter_calls c1 = adapter_calls c → steps_post sts done_recs c1 out = steps_post sts done_recs c out.
Proof. unfold steps_post. by intros ->. Qed.

Lemma settled_legal st rec : settled_for st rec → legal_record rec.
Proof. intros (_ & _ & Ht). right. by left. Qed.

Lemma loop_records_legal sts done_steps done_recs :
  Forall2 settled_for done_steps done_recs →
  Forall legal_record (done_recs ++ (fresh_record <$> sts)).
Proof.
  intros Hd. apply Forall_app. split.
  - induction Hd; constructor; eauto using settled_legal.
  - apply Forall_fmap, Forall_true. intros st. left. simpl. set_solver.
Qed.

Lemma steps_post_step st sts done_recs rec' c c2 out :
  adapter_calls c2 = adapter_calls c ++ [action st] → settled_for st rec' →
  steps_post sts (done_recs ++ [rec']) c2 out → steps_post (st :: sts) done_recs c out.
Proof.
  intros Hc Hrec (new & Hcalls & Hord & Hout). exists (action st :: new).
  rewrite Hcalls, Hc, <-app_assoc. split_and!; [done|by apply ordered_calls_cons|].
  destruct out.1 as [rep|e]; [|done]. destruct Hout as [Hleg Hsucc]. split; [done|].
  intros Hs. destruct (Hsucc Hs) as (Hr & -> & recs' & Hrecs & Hf). split_and!; [done..|].
  exists (rec' :: recs'). split; [by rewrite Hrecs, <-app_assoc|by constructor].
Qed.

Lemma dispatch_action_stop_kept ports a rec : preserves stop_kept (_dispatch_action ports a rec).
Proof.
  intros c HI. apply (dispatch_action_post ports stop_kept); eauto using stop_kept_dispatch.
Qed.

Lemma loop_record_lookup st sts done_recs :
  (done_recs ++ (fresh_record <$> st :: sts)) !! length done_recs = Some (fresh_record st).
Proof. by rewrite fmap_cons, list_lookup_middle. Qed.

Lemma loop_record_insert st sts done_recs rec' :
  <[length done_recs := rec']> (done_recs ++ (fresh_record <$> st :: sts))
  = (done_recs ++ [rec']) ++ (fresh_record <$> sts).
Proof.
  rewrite fmap_cons, insert_app_r_alt, Nat.sub_diag by done. by rewrite <-app_assoc.
Qed.

(** The step at the head of the loop, once it may be dispatched. *)
Lemma steps_post_dispatch ports g pre st sts done_steps done_recs c
    (next : list StepExecutionRecord → ctl ExecutionReport) :
  Forall2 settled_for done_steps done_recs →
  (∀ rec' c2, settled_for st rec' → stop_kept c2 →
     steps_post sts (done_recs ++ [rec']) c2
       (next ((done_recs ++ [rec']) ++ (fresh_record <$> sts)) c2)) →
  stop_kept c →
  steps_post (st :: sts) done_recs c
    ((out <- _dispatch_action ports (action st) (fresh_record st) ;;
      let '(terminal, rec') := out in
      let recs' := <[length done_recs := rec']> (done_recs ++ (fresh_record <$> st :: sts)) in
      match terminal with
      | Some (s, r) => ret (_report g s r recs' pre [])
      | None => next recs'
      end) c).
Proof.
  intros Hdone Hnext Hk. unfold bind.
  pose proof (dispatch_action_spec ports (action st) (fresh_record st) c eq_refl) as Hd.
  pose proof (dispatch_action_stop_kept ports (action st) (fresh_record st) c Hk) as Hk2.
  destruct (_dispatch_action _ _ _ _) as [[[[[s r]|] rec']|e] c2]; simpl in Hd, Hk2; [| |done];
    rewrite loop_record_insert.
  - destruct Hd as (Hs & _ & Hd).
    assert (Forall legal_record ((done_recs ++ [rec']) ++ (fresh_record <$> sts))) as Hleg.
    { pose proof (loop_records_legal sts _ _ Hdone) as Hl. apply Forall_app in Hl as [Hl1 Hl2].
      rewrite !Forall_app, Forall_singleton. split_and!; [done| |done].
      destruct Hd as [(_ & _ & Ht)|[_ Ht]]; [left; rewrite Ht; set_solver|right; right; eauto]. }
    assert (s ≠ ExecutionState.SUCCEEDED) as Hne by (intros ->; set_solver).
    destruct Hd as [(Hc & _)|[Hc _]]; [by apply steps_post_stop|].
    exists [action st]. simpl. split_and!; [done|apply ordered_calls_one|done|done].
  - destruct Hd as (Hc & [Hid1 Hid2] & Hset).
    apply (steps_post_step st sts done_recs rec' c c2); [done|done|]. by apply Hnext.
Qed.

Lemma execute_steps_spec ports g payload pre conf sts : ∀ done_steps done_recs c,
  stop_kept c → Forall2 settled_for done_steps done_recs →
  steps_post sts done_recs c
    (execute_steps ports g payload pre conf (length done_recs) sts
       (done_recs ++ (fresh_record <$> sts)) c).
Proof.
  induction sts as [|st sts IH]; intros done_steps done_recs c Hk Hdone.
  - pose proof (loop_records_legal [] _ _ Hdone) as Hleg. cbn [execute_steps].
    unfold bind at 1. pose proof (live_graph_failure_spec g payload _ None pre c Hleg) as Hl.
    destruct (_live_graph_failure _ _ _ _ _ _) as [[[rep|]|e] c'].
    + destruct Hl as (-> & Hs & ?). apply steps_post_stop; [by rewrite Hs|done..].
    + subst c'. unfold bind, get. destruct (pending_stop c) as [q|] eqn:Hq;
        [by eapply steps_post_dispatch_stop|].
      exists []. simpl. rewrite !app_nil_r.
      split_and!; [done|apply ordered_calls_nil|by rewrite app_nil_r in Hleg|].
      intros _. split_and!; [done..|]. exists []. by rewrite app_nil_r.
    + destruct Hl as [-> ->]. by apply steps_post_raise; auto.
  - pose proof (loop_records_legal (st :: sts) _ _ Hdone) as Hleg. cbn [execute_steps].
    unfold bind at 1, get. destruct (pending_stop c) as [q|] eqn:Hq.
    + unfold bind at 1.
      pose proof (live_graph_failure_spec g payload _ (Some (length done_recs)) pre c Hleg) as Hl.
      destruct (_live_graph_failure _ _ _ _ _ _) as [[[rep|]|e] c'].
      * destruct Hl as (-> & Hs & ?). apply steps_post_stop; [by rewrite Hs|done..].
      * subst c'. by eapply steps_post_dispatch_stop.
      * destruct Hl as [-> ->]. by apply steps_post_raise; auto.
    + unfold bind at 1.
      pose proof (check_policy_calls ports (_single_step_graph g st) conf c) as Hcalls.
      pose proof (check_policy_spec ports (_single_step_graph g st) conf c) as Hspec.
      pose proof (check_policy_preserves ports stop_kept (_single_step_graph g st) conf c Hk) as Hk1.
      destruct (_check_policy _ _ _ _) as [[[p errs]|e] c1]; simpl in Hcalls, Hspec, Hk1;
        [|subst e; by apply steps_post_raise; auto].
      destruct (match p with Some p => _ | None => _ end).
      2:{ apply steps_post_stop; [done| |done]. cbn [records _report]. apply Forall_alter; [done|].
          intros rec Hrec _. rewrite loop_record_lookup in Hrec. simplify_eq. left. simpl. set_solver. }
      rewrite <-(steps_post_calls (st :: sts) done_recs c c1) by done. unfold bind at 1.
      pose proof (live_graph_failure_spec g payload _ (Some (length done_recs)) pre c1 Hleg) as Hl.
      destruct (_live_graph_failure _ _ _ _ _ _) as [[[rep|]|e] c'].
      * destruct Hl as (-> & Hs & ?). apply steps_post_stop; [by rewrite Hs|done..].
      * subst c'. rewrite loop_record_lookup. cbn [default from_option].
        apply (steps_post_dispatch ports g pre st sts done_steps done_recs c1
          (execute_steps ports g payload pre conf (S (length done_recs)) sts)); [done| |done].
        intros rec' c2 Hrec' Hk2. replace (S (length done_recs)) with (length (done_recs ++ [rec']))
          by (rewrite length_app; simpl; lia).
        apply (IH (done_steps ++ [st])); [done|]. apply Forall2_app; [done|by constructor].
      * destruct Hl as [-> ->]. by apply steps_post_raise; auto.
Qed.

(** ** [execute] as a whole *)

Lemma execute_spec ports g conf c :
  stop_kept c → steps_post (steps g) [] c (execute ports (Inst g) conf c).
Proof.
  intros Hk. unfold execute, bind at 1, modify, _snapshot_task_graph, snapshot.
  rewrite <-(steps_post_calls (steps g) [] c (set_live (Inst g) c)) by done.
  assert (stop_kept (set_live (Inst g) c)) as Hk' by done.
  generalize dependent (set_live (Inst g) c). clear c Hk. intros c Hk.
  destruct (validate_task_graph g); [|by apply steps_post_stop].
  unfold execute_snapshot. fold fresh_record.
  change (λ st, new_record (step_id st) (action_id (action st))) with fresh_record.
  assert (Forall legal_record (fresh_record <$> steps g)) as Hleg
    by (apply (loop_records_legal (steps g) [] []); constructor).
  destruct (_snapshot_confirmed_action_ids conf) as [confirmed|]; [|by apply steps_post_stop].
  unfold bind at 1. pose proof (dump_spec g c) as Hd.
  destruct (dump g c) as [[payload|e] c1]; [|destruct Hd as (-> & -> & _); by apply steps_post_raise; auto].
  destruct Hd as [-> _].
  destruct (_graph_structure_errors (visit_frames ports) g) as [[|]|]; [|by apply steps_post_stop|by apply steps_post_raise; auto].
  unfold bind at 1, get. destruct (filter _ _); [|by apply steps_post_stop].
  unfold bind at 1.
  pose proof (check_policy_calls ports g confirmed c) as Hcalls.
  pose proof (check_policy_spec ports g confirmed c) as Hspec.
  pose proof (check_policy_preserves ports stop_kept g confirmed c Hk) as Hk1.
  destruct (_check_policy _ _ _ _) as [[[p errs]|e] c1]; simpl in Hcalls, Hspec, Hk1;
    [|subst e; by apply steps_post_raise; auto].
  rewrite <-(steps_post_calls (steps g) [] c c1) by done.
  destruct p as [p|]; [|by apply steps_post_stop].
  destruct errs; [|by apply steps_post_stop].
  destruct (is_valid p); [|by apply steps_post_stop].
  apply (execute_steps_spec ports g payload (Some p) confirmed (steps g) [] [] c1); [done|constructor].
Qed.

(** A graph that does not validate is never dispatched. *)
Lemma execute_invalid ports graph conf c :
  (_snapshot_task_graph graph).1 = None →
  ∃ rep, execute ports graph conf c = (Ok rep, set_live graph c) ∧
         terminal_state rep = ExecutionState.FAILED ∧ records rep = [].
Proof.
  intros Hs. unfold execute, bind, modify.
  destruct graph as [g|err ident|ty]; simpl in *; [|by eexists..].
  unfold _snapshot_task_graph, snapshot in *. destruct (validate_task_graph g); [done|by eexists].
Qed.

Lemma execute_legal ports graph conf c rep c' :
  stop_kept c → execute ports graph conf c = (Ok rep, c') → Forall legal_record (records rep).
Proof.
  intros Hr He. destruct ((_snapshot_task_graph graph).1) as [g|] eqn:Hs.
  - destruct (_snapshot_task_graph graph) as [g' errs] eqn:E. simpl in Hs. subst g'.
    apply snapshot_Some in E as (-> & _ & _).
    pose proof (execute_spec ports g conf c Hr) as H.
    rewrite He in H. by destruct H as (new & _ & _ & H & _).
  - destruct (execute_invalid ports graph conf c Hs) as (rep' & He' & _ & Hrec).
    rewrite He in He'. simplify_eq. by rewrite Hrec.
Qed.

Lemma legal_succeeded rec :
  legal_record rec → last (transitions rec) = Some ExecutionState.SUCCEEDED → settled rec.
Proof.
  intros [Ht|[?|(s & Hs & Ht)]] Hl; [|done|].
  - rewrite !elem_of_cons in Ht. destruct Ht as [Ht|[Ht|Ht]]; [by rewrite Ht in Hl..|set_solver].
  - rewrite Ht in Hl. simplify_eq/=. set_solver.
Qed.

(** ** The policy gate *)

(** Every call but the first [n] that reached the adapter was authorized by its own
    check, which is not among the first [k]. *)
Definition gated (n k : nat) (c : Controller) : Prop :=
  n ≤ length (adapter_calls c) ∧ k ≤ length (policy_log c) ∧
  ∀ a, a ∈ drop n (adapter_calls c) → ∃ g st p,
    steps g = [st] ∧ action st = a ∧ authorized (drop k (policy_log c)) g p ∧ is_valid p = true.

Lemma authorized_mono log log' g p :
  (∀ e, e ∈ log → e ∈ log') → authorized log g p → authorized log' g p.
Proof. intros Hsub (after & checked & pl & Hin & Hrest). exists after, checked, pl. auto. Qed.

Section Gate.
Context (n k : nat).

#[local] Instance gated_check : CheckInv (gated n k).
Proof.
  split; [split; by intros|].
  - intros g r c (H1 & H2 & H3). split_and!; simpl; [done|rewrite length_app; lia|]. intros a Ha.
    destruct (H3 a Ha) as (g' & st & p & ? & ? & ? & ?). exists g', st, p. split_and!; try done.
    eapply authorized_mono; [|done]. rewrite drop_app_le by done. set_solver.
Qed.

Lemma gated_dispatch ports g st p rec c :
  gated n k c → authorized (drop k (policy_log c)) (_single_step_graph g st) p → is_valid p = true →
  gated n k (_dispatch_action ports (action st) rec c).2.
Proof.
  intros Hg Hauth Hv. apply (dispatch_action_post ports (gated n k)); try done. intros _. destruct Hg as (H1 & H2 & H3).
  split_and!; simpl; [rewrite length_app; lia|done|]. intros a.
  rewrite drop_app_le, elem_of_app, list_elem_of_singleton by done. intros [Ha| ->]; [by apply H3|].
  by exists (_single_step_graph g st), st, p.
Qed.

Lemma gated_dispatch_stop ports g recs pre conf :
  preserves (gated n k) (_dispatch_stop ports g recs pre conf).
Proof.
  intros c Hg. unfold _dispatch_stop. unfold bind at 1, get.
  destruct (pending_stop c) as [q|]; [|done].
  destruct (_snapshot_semantic_action (Inst q)) as [[a|] []] eqn:Hs; [|done..].
  case_decide; [|done]. unfold bind at 1.
  pose proof (check_policy_preserves ports (gated n k) (_single_step_graph g (stop_step a)) conf c Hg) as Hg1.
  pose proof (check_policy_spec ports (_single_step_graph g (stop_step a)) conf c) as Hspec.
  destruct (_check_policy _ _ _ _) as [[[[p|] errs]|e] c1]; [|done..].
  destruct errs; [|done]. destruct (is_valid p) eqn:Hv; [|done].
  unfold bind, modify.
  pose proof (gated_dispatch ports g (stop_step a) p (new_record (action_id q) (action_id q))
    (set_pending None c1) Hg1 (Hspec k (proj1 (proj2 Hg))) Hv) as Hend.
  cbn [action stop_step] in Hend.
  destruct (_dispatch_action _ _ _ _) as [[[[[s r]|] rec']|e] c2]; done.
Qed.

Lemma gated_execute_steps ports g payload pre conf sts : ∀ i recs,
  preserves (gated n k) (execute_steps ports g payload pre conf i sts recs).
Proof.
  pose proof gated_dispatch_stop as Hstop.
  induction sts as [|st sts IH]; intros i recs; cbn [execute_steps]; [solve_preserves|].
  apply preserves_bind; [solve_preserves|intros c0]. destruct (pending_stop c0); [solve_preserves|].
  intros c Hg. unfold bind at 1.
  pose proof (check_policy_preserves ports (gated n k) (_single_step_graph g st) conf c Hg) as Hg1.
  pose proof (check_policy_spec ports (_single_step_graph g st) conf c) as Hspec.
  destruct (_check_policy _ _ _ _) as [[[[p|] errs]|e] c1]; [|done..].
  destruct errs; [|done]. destruct (is_valid p) eqn:Hv; [|done]. unfold bind at 1.
  pose proof (live_graph_failure_preserves
    (λ c, gated n k c ∧ authorized (drop k (policy_log c)) (_single_step_graph g st) p)
    g payload recs (Some i) pre c1 (conj Hg1 (Hspec k (proj1 (proj2 Hg))))) as [Hg2 Hspec2].
  destruct (_live_graph_failure _ _ _ _ _ _) as [[[rep|]|e] c2]; [done| |done]. simpl in *.
  pose proof (gated_dispatch ports g st p (default (new_record "" "") (recs !! i)) c2 Hg2 Hspec2 Hv) as Hg3.
  unfold bind at 1. destruct (_dispatch_action _ _ _ _) as [[[[[s r]|] rec']|e] c3]; [done| |done].
  by apply IH.
Qed.

Lemma gated_execute ports graph conf : preserves (gated n k) (execute ports graph conf).
Proof.
  pose proof gated_execute_steps as Hsteps. pose proof (check_policy_preserves ports (gated n k)) as Hchk.
  unfold execute. apply preserves_bind; [by apply preserves_modify|].
  unfold execute_snapshot. solve_preserves.
Qed.

End Gate.

Lemma reachable_gated ports c : reachable ports c → gated 0 0 c.
Proof.
  apply reachable_inv; [split_and!; simpl; [lia..|set_solver]| |].
  - intros o. pose proof (gated_check 0 0). apply (request_stop_preserves (gated 0 0)).
  - apply gated_execute.
Qed.

Lemma authorized_allows log g st p :
  steps g = [st] → authorized log g p → is_valid p = true →
  ∃ d, ADecision d ∈ decisions p ∧ decision_step_id d = step_id st ∧
       decision_action_id d = action_id (action st) ∧ decision_outcome d = PolicyOutcome.ALLOW.
Proof.
  intros Hst (after & checked & pl & _ & _ & Hm & Hpl & pl' & Hpl' & Heq) Hv.
  destruct (graph_payload_ids checked g pl' pl Hpl' Hpl Heq) as [Hsids Haids].
  unfold decisions_match in Hm. apply andb_true_iff in Hm as [_ Hm%bool_decide_eq_true].
  unfold expected_decisions, step_ids, action_ids in *. rewrite Hst in *.
  destruct (steps checked) as [|st' [|]]; simplify_eq/=.
  destruct (decisions p) as [|[d|ty] [|]] eqn:Hd; simplify_eq/=.
  exists d. split_and!; [set_solver|congruence..|].
  apply (is_valid_elem p); [done|]. rewrite Hd. by left.
Qed.

(** ** A pending STOP preempts the graph *)

(** [c'] was reached from [c] with no call to the adapter but possibly the STOP. *)
Definition only_stop (c : Controller) (q : SemanticAction) (c' : Controller) : Prop :=
  adapter_calls c' = adapter_calls c ∨ adapter_calls c' = adapter_calls c ++ [q].

Lemma execute_steps_pending ports g payload pre conf sts i recs c q :
  stop_kept c → pending_stop c = Some q → Forall legal_record recs →
  only_stop c q (execute_steps ports g payload pre conf i sts recs c).2.
Proof.
  intros Hk Hq Hrecs.
  pose proof (dispatch_stop_spec ports g recs pre conf c q Hk Hq Hrecs) as Hstop.
  destruct sts as [|st sts]; cbn [execute_steps].
  - unfold bind at 1. pose proof (live_graph_failure_spec g payload recs None pre c Hrecs) as Hl.
    destruct (_live_graph_failure _ _ _ _ _ _) as [[[rep|]|e] c'];
      [destruct Hl as [-> _]; by left| |destruct Hl as [-> _]; by left].
    subst c'. unfold bind, get. rewrite Hq.
    destruct (_dispatch_stop _ _ _ _ _ _) as [[rep|e] c'];
      [apply Hstop|left; apply Hstop].
  - unfold bind at 1, get. rewrite Hq. unfold bind at 1.
    pose proof (live_graph_failure_spec g payload recs (Some i) pre c Hrecs) as Hl.
    destruct (_live_graph_failure _ _ _ _ _ _) as [[[rep|]|e] c'];
      [destruct Hl as [-> _]; by left| |destruct Hl as [-> _]; by left].
    subst c'. destruct (_dispatch_stop _ _ _ _ _ _) as [[rep|e] c'];
      [apply Hstop|left; apply Hstop].
Qed.

Lemma execute_pending ports graph conf c q :
  stop_kept c → pending_stop c = Some q →
  only_stop c q (execute ports graph conf c).2.
Proof.
  intros Hk Hq.
  destruct ((_snapshot_task_graph graph).1) as [g|] eqn:Hsnap.
  2:{ destruct (execute_invalid ports graph conf c Hsnap) as (rep & -> & _). by left. }
  destruct (_snapshot_task_graph graph) as [[g'|] errs] eqn:Hs; simplify_eq/=.
  pose proof Hs as (-> & _ & ->)%snapshot_Some.
  unfold execute, bind at 1, modify. rewrite Hs.
  change (only_stop c q) with (only_stop (set_live (Inst g) c) q).
  assert (stop_kept (set_live (Inst g) c)) as Hk' by done.
  assert (pending_stop (set_live (Inst g) c) = Some q) as Hq' by done.
  generalize dependent (set_live (Inst g) c). clear c Hk Hq. intros c Hk Hq.
  unfold execute_snapshot.
  destruct (_snapshot_confirmed_action_ids conf) as [confirmed|]; [|by left].
  unfold bind at 1. pose proof (dump_spec g c) as Hd.
  destruct (dump g c) as [[payload|e] c1]; [|destruct Hd as (-> & _); by left]. destruct Hd as [-> _].
  destruct (_graph_structure_errors (visit_frames ports) g) as [[|]|]; [|by left..].
  unfold bind at 1, get. destruct (filter _ _); [|by left]. unfold bind at 1.
  pose proof (check_policy_calls ports g confirmed c) as Hcalls.
  pose proof (check_policy_preserves ports stop_kept g confirmed c Hk) as Hk1.
  pose proof (check_policy_preserves ports (λ c, pending_stop c = Some q) g confirmed c Hq) as Hq1.
  destruct (_check_policy _ _ _ _) as [[[p errs]|e] c1]; simpl in Hcalls, Hk1, Hq1; [|by left].
  destruct p as [p|]; [|by left]. destruct errs; [|by left]. destruct (is_valid p); [|by left].
  unfold only_stop. rewrite <-Hcalls. apply execute_steps_pending; [done..|].
  apply (loop_records_legal (steps g) [] []). constructor.
Qed.

(** ** A well-behaved environment completes the graph *)

(** The validator allows every step and the adapter completes every action,
    neither of them touching the caller's graph. *)
Record benign (ports : Ports) : Prop := {
  benign_check n g conf : ∃ p, check ports n g conf = EDone (CReport p (Inst g)) ∧
    decisions_match p g = true ∧ is_valid p = true;
  benign_dispatch h a : ∃ r, dispatch ports h a = EDone (AReturned (Inst r)) ∧
    validate_completion_state r = true ∧ result_action_id r = action_id a ∧
    outcome_of r = ActionOutcome.COMPLETED
}.

(** The graph has a JSON payload that is equal to itself. *)
Definition dumpable (g : TaskGraph) : Prop :=
  ∃ p, graph_payload g = Some p ∧ py_eqb p p = true.

Lemma single_step_dumpable g st : dumpable g → st ∈ steps g → dumpable (_single_step_graph g st).
Proof.
  intros (p & Hp & Heq) Hst. apply graph_dump in Hp as (ps & Hps & ->).
  assert (py_eqb (VList ps) (VList ps) = true) as Hl%py_eqb_VList.
  { cbn in Heq. rewrite !orb_false_r, !andb_true_iff in Heq. apply Heq. }
  apply mapM_Some in Hps. rewrite Forall2_fmap_l in Hps.
  apply list_elem_of_lookup in Hst as [i Hi].
  destruct (Forall2_lookup_l _ _ _ _ _ Hps Hi) as (v & Hv & Hdump).
  pose proof (Forall2_lookup_lr _ _ _ _ _ _ Hl Hv Hv) as Hvv. simpl in Hvv.
  eexists. unfold graph_payload. split.
  - change (steps (_single_step_graph g st)) with [st].
    cbn [fmap list_fmap]. cbn. unfold step_payload in Hdump. cbn in Hdump. rewrite Hdump. done.
  - cbn. cbn in Hvv. rewrite Hvv. rewrite !String.eqb_refl. done.
Qed.

Section Benign.
Context (ports : Ports) (Hben : benign ports).

Lemma check_policy_benign g conf c :
  validate_task_graph g = true → dumpable g →
  ∃ p, _check_policy ports g conf c = (Ok (Some p, []), note_check g (CReport p (Inst g)) c) ∧
       is_valid p = true.
Proof.
  intros Hv (pl & Hpl & Heq). unfold _check_policy, _snapshot_task_graph, snapshot. rewrite Hv.
  destruct (benign_check ports Hben (length (policy_log c)) g conf) as (p & Hc & Hm & Hval).
  exists p. split; [|done]. unfold bind, dump, get, modify. rewrite Hpl. simpl. rewrite Hc. simpl.
  rewrite Hv. unfold of_option. rewrite Hpl. cbn. by rewrite Heq, Hm.
Qed.

Lemma live_graph_unchanged g payload recs i pol c :
  validate_task_graph g = true → graph_payload g = Some payload → py_eqb payload payload = true →
  live c = Inst g → _live_graph_failure g payload recs i pol c = (Ok None, c).
Proof.
  intros Hv Hpl Heq Hlive.
  unfold _live_graph_failure, bind, get, _task_graph_change, _snapshot_task_graph, snapshot.
  rewrite Hlive, Hv. simpl. unfold bind, dump, of_option. rewrite Hpl. simpl. by rewrite Heq.
Qed.

Lemma dispatch_action_benign a rec c :
  validate_bounded_action_boundary a = true → record_action_id rec = action_id a →
  action_id a ∉ dispatched_action_ids c →
  ∃ rec', _dispatch_action ports a rec c = (Ok (None, rec'), note_dispatch a c).
Proof.
  intros Hv Hid Hnew. unfold _dispatch_action, _snapshot_semantic_action, snapshot. rewrite Hv.
  rewrite decide_False by congruence. unfold bind at 1, get. rewrite decide_False by done.
  destruct (benign_dispatch ports Hben (adapter_calls c) a) as (r & Hd & Hvr & Hrid & Ho).
  unfold bind, modify. rewrite Hd. simpl. unfold _snapshot_action_result, snapshot.
  rewrite Hvr. rewrite decide_False by congruence. rewrite Ho. simpl. eauto.
Qed.

Lemma execute_steps_benign g payload pre conf sts : ∀ done_recs c,
  validate_task_graph g = true → graph_payload g = Some payload → py_eqb payload payload = true →
  (∀ st, st ∈ sts → st ∈ steps g) → NoDup ((λ st, action_id (action st)) <$> sts) →
  live c = Inst g → pending_stop c = None →
  (∀ st, st ∈ sts → action_id (action st) ∉ dispatched_action_ids c) →
  ∃ rep c', execute_steps ports g payload pre conf (length done_recs) sts
              (done_recs ++ (fresh_record <$> sts)) c = (Ok rep, c') ∧
            terminal_state rep = ExecutionState.SUCCEEDED.
Proof.
  induction sts as [|st sts IH];
    intros done_recs c Hv Hpl Heq Hin Hnd Hlive Hpend Hnew; cbn [execute_steps].
  - unfold bind at 1. rewrite live_graph_unchanged by done. unfold bind, get. rewrite Hpend. by eexists _, _.
  - unfold bind at 1, get. rewrite Hpend.
    assert (st ∈ steps g) as Hst by (apply Hin; by left).
    assert (validate_bounded_action_boundary (action st) = true) as Hva.
    { unfold validate_task_graph in Hv. apply andb_true_iff in Hv as [_ Hv].
      rewrite forallb_forall in Hv. by apply Hv, list_elem_of_In. }
    destruct (check_policy_benign (_single_step_graph g st) conf c) as (p & Hcp & Hval).
    { unfold validate_task_graph. simpl. by rewrite Hva. }
    { apply single_step_dumpable; [by exists payload|done]. }
    unfold bind at 1. rewrite Hcp. cbv iota beta. rewrite Hval. unfold bind at 1.
    rewrite live_graph_unchanged by done. cbv iota beta.
    rewrite loop_record_lookup. cbn [default from_option id].
    destruct (dispatch_action_benign (action st) (fresh_record st)
      (note_check (_single_step_graph g st) (CReport p (Inst (_single_step_graph g st))) c))
      as [rec' Hd]; [done..|apply Hnew; by left|].
    unfold bind at 1. rewrite Hd, loop_record_insert.
    replace (S (length done_recs)) with (length (done_recs ++ [rec'])) by (rewrite length_app; simpl; lia).
    apply NoDup_cons in Hnd as [Hst' Hnd].
    apply IH; try done; [intros; apply Hin; by right|].
    intros st' Hst''. simpl. rewrite not_elem_of_union, not_elem_of_singleton. split.
    + intros He. apply Hst'. rewrite <-He. by apply (list_elem_of_fmap_2 (λ st, action_id (action st))).
    + apply Hnew. by right.
Qed.

Lemma execute_benign g conf confirmed c :
  2 ≤ visit_frames ports → validate_task_graph g = true → well_structured g → dumpable g →
  _snapshot_confirmed_action_ids conf = Some confirmed → pending_stop c = None →
  (∀ x, x ∈ action_ids g → x ∉ dispatched_action_ids c) →
  ∃ rep c', execute ports (Inst g) conf c = (Ok rep, c') ∧
            terminal_state rep = ExecutionState.SUCCEEDED.
Proof.
  intros Hfr Hv Hws Hd Hconf Hpend Hnew. unfold execute, bind at 1, modify, _snapshot_task_graph, snapshot.
  rewrite Hv. unfold execute_snapshot. rewrite Hconf. destruct Hd as (payload & Hpl & Heq).
  unfold bind at 1, dump. rewrite Hpl. simpl.
  rewrite (proj2 (graph_structure_errors_nil _ g Hfr) Hws). unfold bind at 1, get.
  destruct (filter _ (action_ids g)) as [|x l] eqn:E.
  2:{ assert (x ∈ x :: l) as Hx by (by left). rewrite <-E in Hx.
      apply list_elem_of_filter in Hx as [Hx1 Hx2]. by destruct (Hnew x Hx2). }
  unfold bind at 1.
  destruct (check_policy_benign g confirmed (set_live (Inst g) c)) as (p & Hcp & Hval);
    [done|by exists payload|].
  rewrite Hcp. cbv iota beta. rewrite Hval.
  apply (execute_steps_benign g payload (Some p) confirmed (steps g) []); try done.
  - apply Hws.
  - intros st Hst. simpl. apply Hnew. by apply (list_elem_of_fmap_2 (λ st, action_id (action st))).
Qed.

End Benign.
