(* ===== verification/ExecutionTheorems.v ===== *)
(** * Execution controller: the theorems

    What the controller promises to the runtime above it and to the adapter
    below it, for every sequence of calls on one controller, every adapter and
    every policy validator.  The lemmas are in [ExecutionProofs]; the witnesses
    run the controller on a two-step graph. *)

From Stdlib Require Import ZArith.
From S2P Require Import Prelude PyVal Contracts Policy TaskStructure ExecutionController ExecutionProofs.

(** ** A concrete session *)

Definition demo_action (aid : string) (ty : ActionType.t) : SemanticAction :=
  {| action_id := aid; action_type := ty; target_id := Some "cup"; parameters := [] |}.

Definition demo_step (sid aid : string) (deps : list string) : TaskStep :=
  {| step_id := sid; action := demo_action aid ActionType.GRASP; depends_on := deps |}.

Definition demo_graph : TaskGraph := {|
  task_id := "task-1"; goal := "fetch"; planner := "rule"; model_route := "local";
  steps := [demo_step "s1" "a1" []; demo_step "s2" "a2" ["s1"]]
|}.

Definition demo_stop : SemanticAction :=
  {| action_id := "stop-1"; action_type := ActionType.STOP; target_id := None; parameters := [] |}.

Definition allow_all (g : TaskGraph) : PolicyReport := {|
  decisions_is_tuple := true;
  decisions := (λ st, ADecision {|
    decision_step_id := step_id st; decision_action_id := action_id (action st);
    decision_outcome := PolicyOutcome.ALLOW; decision_reason := PolicyReasonCode.POLICY_ALLOWED;
    policy_version := Some "1"; decision_findings := [] |}) <$> steps g
|}.

Definition confirmed_result (a : SemanticAction) : ActionResult := {|
  result_id := "r"; result_action_id := action_id a; result_run_id := "run";
  outcome_of := ActionOutcome.COMPLETED; dispatch_state := DispatchState.SENT;
  device_state := DeviceState.CONFIRMED; error_code := None; error_reason := None;
  started_at := "2026-01-01T00:00:00Z"; ended_at := "2026-01-01T00:00:01Z";
  result_clock_id := ClockId.WALL; retry_count := 0; entity_id := None;
  resulting_location := None; result_evidence_refs := []
|}.

Definition friendly : Ports := {|
  dispatch h a := EDone (AReturned (Inst (confirmed_result a)));
  check n g conf := EDone (CReport (allow_all g) (Inst g));
  visit_frames := 900
|}.

(** The same adapter, but an operator presses STOP while the first action runs. *)
Definition interrupted : Ports := {|
  dispatch h a :=
    match h with
    | [] => EStop (Inst demo_stop) (λ _, EDone (AReturned (Inst (confirmed_result a))))
    | _ => EDone (AReturned (Inst (confirmed_result a)))
    end;
  check n g conf := EDone (CReport (allow_all g) (Inst g));
  visit_frames := 900
|}.

Definition run_demo (ports : Ports) : outcome exn ExecutionReport * Controller :=
  execute ports (Inst demo_graph) (VSet []) new_controller.

Lemma run_demo_reachable ports : reachable ports (run_demo ports).2.
Proof. apply rtc_once, session_execute. Qed.

Lemma new_controller_stop_kept : stop_kept new_controller.
Proof. split; [done|]. intros x. simpl. set_solver. Qed.

(** ** Safety over every session *)

(** C1: over any sequence of [execute] and [request_stop] calls on one
    controller, with any adapter and any policy validator (including ones that
    call back and mutate the caller's graph), an action identifier reaches the
    adapter at most once. *)
Theorem at_most_once_dispatch ports c :
  reachable ports c → NoDup (action_id <$> adapter_calls c).
Proof. intros H. apply (reachable_once ports c H). Qed.

Lemma at_most_once_dispatch_witness :
  length (adapter_calls (run_demo friendly).2) = 2 ∧
  NoDup (action_id <$> adapter_calls (run_demo friendly).2).
Proof.
  split; [by vm_compute|].
  apply (at_most_once_dispatch friendly), run_demo_reachable.
Defined.

(** C2: every call that ever reached the adapter was authorized by its own
    policy check: the log of completed checks holds a report on a one-step
    graph with exactly that action, whose decision for that step and action
    identifier is ALLOW. *)
Theorem dispatch_is_policy_gated ports c a :
  reachable ports c → a ∈ adapter_calls c →
  ∃ g st p after d,
    steps g = [st] ∧ action st = a ∧ (g, CReport p after) ∈ policy_log c ∧
    ADecision d ∈ decisions p ∧ decision_step_id d = step_id st ∧
    decision_action_id d = action_id a ∧ decision_outcome d = PolicyOutcome.ALLOW.
Proof.
  intros Hr Ha. destruct (proj2 (proj2 (reachable_gated ports c Hr)) a Ha) as (g & st & p & Hst & <- & Hau & Hv).
  destruct (authorized_allows _ _ _ _ Hst Hau Hv) as (d & ? & ? & ? & ?).
  destruct Hau as (after & ? & ? & ? & _). by exists g, st, p, after, d.
Qed.

Lemma dispatch_is_policy_gated_witness :
  let c := (run_demo friendly).2 in
  ∃ g st p after d,
    steps g = [st] ∧ action st = demo_action "a2" ActionType.GRASP ∧
    (g, CReport p after) ∈ policy_log c ∧
    ADecision d ∈ decisions p ∧ decision_step_id d = step_id st ∧
    decision_action_id d = "a2" ∧ decision_outcome d = PolicyOutcome.ALLOW.
Proof.
  intros c.
  apply (dispatch_is_policy_gated friendly c (demo_action "a2" ActionType.GRASP)).
  - apply run_demo_reachable.
  - apply list_elem_of_lookup_2 with 1. by vm_compute.
Defined.

(** An accepted STOP is never lost: as long as its identifier is recorded
    as accepted it is either still queued or has been dispatched, and what is
    queued is a valid STOP action. *)
Theorem accepted_stop_is_never_lost ports c :
  reachable ports c →
  (∀ a, pending_stop c = Some a →
     action_type a = ActionType.STOP ∧ validate_bounded_action_boundary a = true) ∧
  (∀ x, x ∈ accepted_stop_action_ids c →
     (∃ a, pending_stop c = Some a ∧ action_id a = x) ∨ x ∈ dispatched_action_ids c).
Proof. apply reachable_stop_kept. Qed.

Lemma accepted_stop_is_never_lost_witness :
  "stop-1" ∈ accepted_stop_action_ids (run_demo interrupted).2 ∧
  "stop-1" ∈ dispatched_action_ids (run_demo interrupted).2.
Proof.
  assert ("stop-1" ∈ accepted_stop_action_ids (run_demo interrupted).2) as H by by vm_compute.
  split; [done|].
  destruct (accepted_stop_is_never_lost interrupted _ (run_demo_reachable interrupted)) as [_ Hacc].
  destruct (Hacc _ H) as [(a & Ha & _)|Hd]; [|done]. vm_compute in Ha. discriminate.
Defined.

(** A STOP that is pending when [execute] is called preempts the whole
    graph: the only action that can reach the adapter is that STOP. *)
Theorem pending_stop_preempts ports graph conf c q :
  reachable ports c → pending_stop c = Some q →
  adapter_calls (execute ports graph conf c).2 = adapter_calls c ∨
  adapter_calls (execute ports graph conf c).2 = adapter_calls c ++ [q].
Proof. intros Hr Hq. eapply execute_pending; [by eapply reachable_stop_kept|done]. Qed.

Lemma pending_stop_preempts_witness :
  let c := (request_stop (Inst demo_stop) new_controller).2 in
  let c' := (execute friendly (Inst demo_graph) (VSet []) c).2 in
  adapter_calls c' = [] ∨ adapter_calls c' = [demo_stop].
Proof.
  intros c. apply (pending_stop_preempts friendly (Inst demo_graph) (VSet []) c demo_stop).
  - apply rtc_once, session_stop.
  - by vm_compute.
Defined.

(** ** One run *)

(** Whatever the ports do, a run sends the actions of a prefix of the
    graph's steps in the graph's order and after it at most one STOP; the only
    exceptions that escape are a failed JSON dump and the recursion limit. *)
Theorem execute_dispatches_in_order ports g conf c :
  reachable ports c →
  ∃ k stop,
    adapter_calls (execute ports (Inst g) conf c).2 =
      adapter_calls c ++ (action <$> take k (steps g)) ++ stop ∧
    (stop = [] ∨ ∃ q, stop = [q] ∧ action_type q = ActionType.STOP) ∧
    match (execute ports (Inst g) conf c).1 with
    | Ok _ => True
    | Raise e => e = SerializationError ∨ e = RecursionError
    end.
Proof.
  intros Hr. destruct (execute_spec ports g conf c (reachable_stop_kept _ _ Hr))
    as (new & -> & (k & stop & -> & Hs) & Hout).
  exists k, stop. split_and!; [done..|]. by destruct ((execute _ _ _ _).1).
Qed.

Lemma execute_dispatches_in_order_witness :
  ∃ k stop, adapter_calls (run_demo interrupted).2 =
    [] ++ (action <$> take k (steps demo_graph)) ++ stop ∧
  (stop = [] ∨ ∃ q, stop = [q] ∧ action_type q = ActionType.STOP) ∧
  match (run_demo interrupted).1 with Ok _ => True | Raise e => e = SerializationError ∨ e = RecursionError end.
Proof.
  apply (execute_dispatches_in_order interrupted demo_graph (VSet []) new_controller).
  apply rtc_refl.
Defined.

(** C3: a SUCCEEDED report means that exactly the graph's actions were sent, in
    order, and that every step has its own record, which went
    PENDING, DISPATCHED, SUCCEEDED on a result for that very action that the
    device confirmed. *)
Theorem succeeded_means_every_step_confirmed ports g conf c rep c' :
  reachable ports c → execute ports (Inst g) conf c = (Ok rep, c') →
  terminal_state rep = ExecutionState.SUCCEEDED →
  report_reason rep = ExecutionReasonCode.SEQUENCE_SUCCEEDED ∧
  adapter_calls c' = adapter_calls c ++ (action <$> steps g) ∧
  Forall2 settled_for (steps g) (records rep).
Proof.
  intros Hr He Hs. pose proof (execute_spec ports g conf c (reachable_stop_kept _ _ Hr)) as H.
  rewrite He in H. destruct H as (new & Hc & _ & _ & H). simpl in *.
  destruct (H Hs) as (Hreason & -> & recs & -> & Hrecs). done.
Qed.

Lemma succeeded_means_every_step_confirmed_witness :
  ∃ rep, (run_demo friendly).1 = Ok rep ∧ Forall2 settled_for (steps demo_graph) (records rep).
Proof.
  destruct (run_demo friendly) as [[rep|e] c'] eqn:E; [|by vm_compute in E].
  exists rep. split; [done|].
  apply (succeeded_means_every_step_confirmed friendly demo_graph (VSet []) new_controller rep c').
  - apply rtc_refl.
  - exact E.
  - vm_compute in E. by injection E as <- <-.
Defined.

(** Every record of every report followed the state machine: still
    PENDING, or PENDING then FAILED without a dispatch, or PENDING, DISPATCHED
    and one final state; SUCCEEDED only with a device-confirmed result for the
    record's own action. *)
Theorem records_follow_the_state_machine ports graph conf c rep c' :
  reachable ports c → execute ports graph conf c = (Ok rep, c') →
  Forall legal_record (records rep).
Proof. intros Hr. apply execute_legal. by eapply reachable_stop_kept. Qed.

Lemma records_follow_the_state_machine_witness :
  ∃ rep, (run_demo interrupted).1 = Ok rep ∧ length (records rep) = 3 ∧
         Forall legal_record (records rep).
Proof.
  destruct (run_demo interrupted) as [[rep|e] c'] eqn:E; [|by vm_compute in E].
  exists rep. split_and!; [done|vm_compute in E; by injection E as <- <-|].
  apply (records_follow_the_state_machine interrupted (Inst demo_graph) (VSet []) new_controller rep c').
  - apply rtc_refl.
  - exact E.
Defined.

(** C4: liveness: a run of a graph completes with SUCCEEDED when the graph
    validates, is well structured (unique identifiers, dependencies on earlier
    steps) and has a JSON dump that compares equal to itself, the confirmation
    argument is a set of non-blank strings, no STOP is pending, none of the
    graph's action identifiers was dispatched before, the interpreter has two
    frames left for the cycle search, and, neither touching the caller's graph,
    the validator allows every step and the adapter confirms every action. *)
Theorem benign_run_succeeds ports g conf confirmed c :
  benign ports → 2 ≤ visit_frames ports → validate_task_graph g = true → well_structured g → dumpable g →
  _snapshot_confirmed_action_ids conf = Some confirmed → pending_stop c = None →
  (∀ x, x ∈ action_ids g → x ∉ dispatched_action_ids c) →
  ∃ rep c', execute ports (Inst g) conf c = (Ok rep, c') ∧
            terminal_state rep = ExecutionState.SUCCEEDED.
Proof. intros. by eapply execute_benign. Qed.

Lemma friendly_benign : benign friendly.
Proof.
  split.
  - intros n g conf. exists (allow_all g). split_and!; [done| |].
    + unfold decisions_match, allow_all, expected_decisions; simpl.
      apply bool_decide_eq_true. rewrite <-list_fmap_compose. done.
    + unfold is_valid, allow_all; simpl. apply forallb_forall. intros d Hd%list_elem_of_In.
      apply list_elem_of_fmap in Hd as (st & -> & _). done.
  - intros h a. exists (confirmed_result a). done.
Qed.

Lemma demo_graph_structure : _graph_structure_errors 2 demo_graph = Some [].
Proof. by vm_compute. Qed.

Lemma benign_run_succeeds_witness :
  ∃ rep c', run_demo friendly = (Ok rep, c') ∧ terminal_state rep = ExecutionState.SUCCEEDED.
Proof.
  apply (benign_run_succeeds friendly demo_graph (VSet []) ∅ new_controller).
  - apply friendly_benign.
  - simpl. lia.
  - by vm_compute.
  - apply (graph_structure_errors_well 2), demo_graph_structure.
  - eexists. split; by vm_compute.
  - done.
  - done.
  - intros x _. set_solver.
Defined.

(** ** Preflight *)

(** With two frames for the cycle search, the structure check reports no error
    exactly when step identifiers and action identifiers are unique and every
    dependency names an earlier step; such a graph has no dependency cycle. *)
Theorem structure_check_is_exact n g :
  2 ≤ n →
  (_graph_structure_errors n g = Some [] ↔ well_structured g) ∧
  (well_structured g → ¬ cyclic (dependencies_of (steps g) [])).
Proof. intros Hn. split; [by apply graph_structure_errors_nil|apply well_structured_acyclic]. Qed.

(** C5: the recursive cycle search, given any number of stack frames, answers
    true exactly on the cyclic dependency maps whenever it answers; it raises
    RecursionError only when as many different steps as it has frames form a
    chain of dependencies, so never with more frames than steps; and on a well
    structured graph, of whatever length, two frames are enough to answer
    false. *)
Theorem cycle_search_is_exact n d :
  (∀ b, _has_dependency_cycle n d = Some b → (b = true ↔ cyclic d)) ∧
  (_has_dependency_cycle n d = None → chain d n) ∧
  (length d < n → ∃ b, _has_dependency_cycle n d = Some b) ∧
  (∀ g, well_structured g → 2 ≤ n → _has_dependency_cycle n (dependencies_of (steps g) []) = Some false).
Proof.
  split_and!.
  - apply has_dependency_cycle_spec.
  - apply has_dependency_cycle_raise.
  - intros Hn. destruct (_has_dependency_cycle n d) eqn:E; [by eexists|].
    apply has_dependency_cycle_raise, chain_length in E. lia.
  - intros g Hws Hn. destruct n as [|[|n]]; [lia..|]. by apply well_structured_no_cycle.
Qed.

(** A chain of steps, each depending on the next one. *)
Definition chain_step (i : nat) (more : bool) : TaskStep := {|
  step_id := "s" +:+ pretty i; depends_on := if more then ["s" +:+ pretty (S i)] else [];
  action := demo_action ("a" +:+ pretty i) ActionType.GRASP |}.
Definition chain_graph (n : nat) : TaskGraph := {|
  task_id := "task-1"; goal := "fetch"; planner := "rule"; model_route := "local";
  steps := ((λ i, chain_step i true) <$> seq 0 n) ++ [chain_step n false] |}.

Definition shallow : Ports := {| dispatch := dispatch friendly; check := check friendly; visit_frames := 9 |}.

(** The forward dependencies of a long chain are an error that [execute] reports;
    a chain that is longer than the stack makes it raise instead. *)
Theorem deep_chain_escapes :
  validate_task_graph (chain_graph 9) = true ∧
  (execute shallow (Inst (chain_graph 9)) (VSet []) new_controller).1 = Raise RecursionError ∧
  match (execute shallow (Inst (chain_graph 8)) (VSet []) new_controller).1 with
  | Ok rep => report_reason rep = ExecutionReasonCode.INVALID_GRAPH
  | Raise _ => False
  end.
Proof. split_and!; vm_compute; reflexivity. Qed.

(** ** What escapes *)

(** An argument that is not a valid task graph, a malformed confirmation
    set or a structurally invalid graph fails the run before anything reaches
    the adapter or the validator. *)
Theorem invalid_input_fails_closed ports graph conf c rep c' :
  execute ports graph conf c = (Ok rep, c') →
  (_snapshot_task_graph graph).1 = None ∨ _snapshot_confirmed_action_ids conf = None ∨
  (∃ g, graph = Inst g ∧ ¬ well_structured g) →
  terminal_state rep = ExecutionState.FAILED ∧
  adapter_calls c' = adapter_calls c ∧ policy_log c' = policy_log c.
Proof.
  intros He Hcase. destruct ((_snapshot_task_graph graph).1) as [g|] eqn:Hs.
  2:{ destruct (execute_invalid ports graph conf c Hs) as (rep' & He' & ? & _).
      rewrite He in He'. by simplify_eq. }
  destruct (_snapshot_task_graph graph) as [g' errs] eqn:E. simpl in Hs. subst g'.
  pose proof E as (-> & Hv & ->)%snapshot_Some.
  unfold execute, bind at 1, modify in He. rewrite E in He. unfold execute_snapshot in He.
  destruct (_snapshot_confirmed_action_ids conf) as [confirmed|]; [|by injection He as <- <-].
  unfold bind at 1 in He. pose proof (dump_spec g (set_live (Inst g) c)) as Hd.
  destruct (dump _ _) as [[payload|e] c1]; [|done]. destruct Hd as [-> _].
  destruct (_graph_structure_errors (visit_frames ports) g) as [[|]|] eqn:Herr; [|by injection He as <- <-|done].
  apply graph_structure_errors_well in Herr.
  destruct Hcase as [Hn|[Hn|(g' & [= <-] & Hbad)]]; [done|done|by destruct Hbad].
Qed.

Lemma invalid_input_fails_closed_witness :
  ∃ rep c', execute friendly (Inst demo_graph) (VList []) new_controller = (Ok rep, c') ∧
    terminal_state rep = ExecutionState.FAILED ∧ adapter_calls c' = [] ∧ policy_log c' = [].
Proof.
  destruct (execute friendly (Inst demo_graph) (VList []) new_controller) as [[rep|e] c'] eqn:E;
    [|by vm_compute in E].
  exists rep, c'. split; [done|].
  apply (invalid_input_fails_closed friendly (Inst demo_graph) (VList []) new_controller rep c').
  - exact E.
  - right. left. done.
Defined.

(** A parameter that the JSON dump refuses, placed in the caller's graph while
    the first action runs. *)
Definition opaque_graph : TaskGraph := {|
  task_id := "task-1"; goal := "fetch"; planner := "rule"; model_route := "local";
  steps := [{| step_id := "s1"; depends_on := [];
               action := {| action_id := "a1"; action_type := ActionType.GRASP;
                            target_id := None;
                            parameters := [(VStr "pose", VObj "Pose" None)] |} |}]
|}.

Definition mutating : Ports := {|
  dispatch h a := EMutate (Inst opaque_graph) (EDone (AReturned (Inst (confirmed_result a))));
  check n g conf := EDone (CReport (allow_all g) (Inst g));
  visit_frames := 900
|}.

(** A parameter that cannot be dumped to JSON is not turned into a FAILED
    report: [execute] raises on such a graph, and it also raises, after an
    action was dispatched, when the caller's graph comes to hold one. *)
Theorem unserializable_parameter_escapes :
  (∀ ports g conf confirmed c, validate_task_graph g = true → graph_payload g = None →
     _snapshot_confirmed_action_ids conf = Some confirmed →
     execute ports (Inst g) conf c = (Raise SerializationError, set_live (Inst g) c)) ∧
  validate_task_graph opaque_graph = true ∧ graph_payload opaque_graph = None ∧
  (run_demo mutating).1 = Raise SerializationError ∧
  action_id <$> adapter_calls (run_demo mutating).2 = ["a1"].
Proof.
  split_and!; [|by vm_compute..].
  intros ports g conf confirmed c Hv Hp Hc.
  unfold execute, bind at 1, modify, _snapshot_task_graph, snapshot. rewrite Hv.
  unfold execute_snapshot. rewrite Hc. unfold bind at 1, dump. by rewrite Hp.
Qed.
