(* ===== verification/AgentRuntime.v ===== *)
(** * Agent runtime: controller, policy validator and tool registry together

    [execution_controller.py] is given the [PolicyValidator] of
    [policy_validator.py] over a [ToolRegistry] as its policy port, and any
    adapter.  What reaches the adapter then satisfies what the validator and the
    registry promise, over every sequence of calls. *)

From Stdlib Require Import ZArith String.
From S2P Require Import Prelude PyVal Json Contracts Policy ToolRegistry ToolRegistryTheorems PolicyValidator PolicyValidatorTheorems TaskStructure ExecutionController ExecutionProofs ExecutionTheorems.
Local Open Scope Z_scope.

(** The interface that the controller relies on: a report that is valid means
    that every step of the checked graph is safe. *)
Class SoundValidator (v : nat → TaskGraph → gset string → env_run check_result)
    (safe : nat → gset string → SemanticAction → Prop) : Prop := {
  sound_report n g conf p after st :
    env_result (v n g conf) (CReport p after) → is_valid p = true → steps g = [st] → safe n conf (action st)
}.

Section Client.
Context (ports : Ports) (safe : nat → gset string → SemanticAction → Prop) `{!SoundValidator (check ports) safe}.

(** Every entry of the log but the first [k] was produced by the validator for the
    confirmed identifiers [ids]. *)
Definition logged_by_validator (k : nat) (ids : gset string) (c : Controller) : Prop :=
  (k ≤ length (policy_log c))%nat ∧
  ∀ g r, (g, r) ∈ drop k (policy_log c) → ∃ n, env_result (check ports n g ids) r.

#[local] Instance logged_callback k ids : CallbackInv (logged_by_validator k ids).
Proof. by split. Qed.

Lemma logged_check k ids g : preserves (logged_by_validator k ids) (_check_policy ports g ids).
Proof.
  apply check_policy_preserves_by; [apply _|]. intros n g' r c Hr [Hk HI]. split; simpl; [rewrite length_app; lia|].
  intros g1 r1. rewrite drop_app_le, elem_of_app, list_elem_of_singleton by done. intros [?|[= -> ->]]; [by apply HI|by exists n].
Qed.

Lemma execute_logged graph conf ids c :
  _snapshot_confirmed_action_ids conf = Some ids →
  logged_by_validator (length (policy_log c)) ids (execute ports graph conf c).2.
Proof.
  intros Hids. apply (execute_preserves ports (logged_by_validator (length (policy_log c)) ids)); try done.
  - intros g ids' H. rewrite Hids in H. injection H as <-. apply logged_check.
  - intros g recs pre ids' H. rewrite Hids in H. injection H as <-.
    by apply (dispatch_stop_preserves ports (logged_by_validator _ _)); [apply logged_check|..].
  - split; [done|]. rewrite drop_all. intros g r []%elem_of_nil.
Qed.

(** The calls that a run makes come after the earlier ones. *)
Definition calls_since (l : list SemanticAction) (c : Controller) : Prop := ∃ new, adapter_calls c = l ++ new.

#[local] Instance calls_check l : CheckInv (calls_since l).
Proof. by split; [split|]. Qed.

Lemma calls_dispatch l a c : calls_since l c → calls_since l (note_dispatch a c).
Proof. intros [new H]. exists (new ++ [a]). simpl. by rewrite H, app_assoc. Qed.

Lemma execute_extends graph conf c : calls_since (adapter_calls c) (execute ports graph conf c).2.
Proof.
  apply (execute_preserves ports (calls_since (adapter_calls c))); eauto using calls_dispatch.
  - intros. apply check_policy_preserves, _.
  - intros. apply (dispatch_stop_preserves ports (calls_since _)); eauto using calls_dispatch.
    intros. apply check_policy_preserves, _.
  - exists []. by rewrite app_nil_r.
Qed.

(** A run without a confirmation set calls nothing. *)
Lemma execute_unconfirmed graph conf c :
  _snapshot_confirmed_action_ids conf = None → adapter_calls (execute ports graph conf c).2 = adapter_calls c.
Proof.
  intros H. unfold execute, bind at 1, modify. destruct graph as [g|err ident|ty]; [|done..].
  destruct (_snapshot_task_graph (Inst g)) as [[g'|] errs]; [|done]. unfold execute_snapshot. by rewrite H.
Qed.

Lemma dispatched_is_safe graph conf c :
  ∃ new, adapter_calls (execute ports graph conf c).2 = adapter_calls c ++ new ∧
    ∀ a, a ∈ new → ∃ n ids, _snapshot_confirmed_action_ids conf = Some ids ∧ safe n ids a.
Proof.
  destruct (execute_extends graph conf c) as [new Hnew]. exists new. split; [done|]. intros a Ha.
  destruct (_snapshot_confirmed_action_ids conf) as [ids|] eqn:Hids.
  2: { rewrite execute_unconfirmed in Hnew by done. rewrite <- (app_nil_r (adapter_calls c)) in Hnew at 1.
       apply app_inv_head in Hnew as <-. by apply elem_of_nil in Ha. }
  destruct (gated_execute (length (adapter_calls c)) (length (policy_log c)) ports graph conf c) as (_ & _ & Hg).
  { split_and!; try done. rewrite drop_all. intros a' []%elem_of_nil. }
  destruct (Hg a) as (g & st & p & Hst & <- & Hau & Hv). { by rewrite Hnew, drop_app_length. }
  destruct Hau as (after & checked & pl & Hlog & _).
  destruct (execute_logged graph conf ids c Hids) as [_ Hl]. destruct (Hl g _ Hlog) as [n Hres].
  exists n, ids. split; [done|]. by eapply sound_report.
Qed.
End Client.

(** ** The validator as the controller's port *)

Section Runtime.
Context (limit : nat) (t1 : list pyval → string) (t2 : ActionType.t → tool_error → string) (t3 : path → string)
  (t4 : ustr → string) (t5 : malformed → string).
Context (registry : ToolRegistry) (config : pyval) (mem : nat → nat → nat → nat).

Definition frozen (ids : gset string) : pyval := VFrozenset (VStr <$> elements ids).

(** [PolicyValidator(registry, policy_config=config).check] on the controller's snapshot *)
Definition validator_check (n : nat) (g : TaskGraph) (conf : gset string) : env_run check_result :=
  EDone (CReport (PolicyValidator.check limit t1 t2 t3 t4 t5 registry config (mem n) g (frozen conf)) (Inst g)).

Definition runtime_ports (frames : nat) (adapter : list SemanticAction → SemanticAction → env_run adapter_result) : Ports :=
  {| dispatch := adapter; check := validator_check; visit_frames := frames |}.

Lemma frozen_ids ids l : confirmed_ids (frozen ids) = Some l → ∀ x, x ∈ l → x ∈ ids.
Proof.
  unfold frozen, confirmed_ids. destruct (forallb _ _); [|done]. intros [= <-] x.
  rewrite list_elem_of_omap. intros (v & Hv & Hs). apply list_elem_of_fmap in Hv as (s & -> & Hin).
  injection Hs as ->. by apply elem_of_elements.
Qed.

(** What the runtime guarantees of an action that was sent. *)
Definition safe_action (n : nat) (conf : gset string) (a : SemanticAction) : Prop :=
  config_error (_validate_policy_config t1 config registry) = None ∧
  (∃ s, lookup_schema (action_type a) registry = Some s ∧ conforms s a) ∧
  (action_type a ∈ high_impact_actions (_validate_policy_config t1 config registry) → action_id a ∈ conf) ∧
  (no_reuse limit (mem n 0%nat) (parameters_node a) → ∀ k, ¬ occurs limit k (parameters_node a)).

#[local] Instance validator_sound : SoundValidator validator_check safe_action.
Proof.
  split. intros n g conf p after st Hres Hv Hst. inversion Hres; subst.
  apply check_valid_iff in Hv as [Hn|(Hc & ids & Hids & Hall)]; [congruence|].
  rewrite Hst in Hall. destruct (Hall 0%nat st eq_refl) as (Hreg & Hraw & Hconf). split_and!; [done| | |].
  - by apply validate_conforms.
  - intros Ht. by eapply frozen_ids, Hconf.
  - intros Hnr k Hk. apply (scan_exact limit (mem n 0%nat) _ [] Hnr Hraw) in Hk as [q []%elem_of_nil].
Qed.

Lemma runtime_safe frames adapter graph conf c :
  ∃ new, adapter_calls (execute (runtime_ports frames adapter) graph conf c).2 = adapter_calls c ++ new ∧
    ∀ a, a ∈ new → ∃ n ids, _snapshot_confirmed_action_ids conf = Some ids ∧ safe_action n ids a.
Proof. apply (dispatched_is_safe (runtime_ports frames adapter) safe_action). Qed.
End Runtime.

(** C6: with the policy validator and the tool registry as its policy port, for
    every adapter and from every state, each action that a call of [execute] sends
    (an action that an adapter injects as a STOP included) satisfies: the policy
    configuration is valid; the action conforms to the registered schema of its
    type; if its type is high-impact, its identifier is in the set that the caller
    passed to that very call as [confirmed_action_ids]; and, if the scan of its
    parameters did not see one address for two objects, they hold no raw-control
    identifier.  [request_stop] sends nothing. *)
Theorem runtime_sends_only_safe_actions limit t1 t2 t3 t4 t5 registry config mem frames adapter graph conf c stop :
  let ports := runtime_ports limit t1 t2 t3 t4 t5 registry config mem frames adapter in
  let policy := _validate_policy_config t1 config registry in
  (∃ new, adapter_calls (execute ports graph conf c).2 = adapter_calls c ++ new ∧
    ∀ a, a ∈ new → ∃ n confirmed, _snapshot_confirmed_action_ids conf = Some confirmed ∧
      config_error policy = None ∧
      (∃ schema, lookup_schema (action_type a) registry = Some schema ∧ conforms schema a) ∧
      (action_type a ∈ high_impact_actions policy → action_id a ∈ confirmed) ∧
      (no_reuse limit (mem n 0%nat) (parameters_node a) → ∀ k, ¬ occurs limit k (parameters_node a))) ∧
  adapter_calls (request_stop stop c).2 = adapter_calls c.
Proof. split; [apply runtime_safe|apply request_stop_calls]. Qed.

(** A grasp needs the operator's confirmation; both steps of the demonstration
    are confirmed. *)
Definition grasp_config : pyval :=
  VDict [(VStr "policy_version", VStr "v1");
         (VStr "high_impact_actions", VFrozenset [VEnum "ActionType" "grasp"])].

Definition no_text {A} (_ : A) : string := "".

Definition demo_runtime : Ports :=
  runtime_ports 900 no_text (λ _, no_text) no_text no_text no_text default_registry grasp_config (λ _ _, id) 900
    (dispatch friendly).

(** Confirmed, both grasps of the demonstration are sent; with one of them
    unconfirmed, nothing is. *)
Example demo_runtime_sends :
  adapter_calls (execute demo_runtime (Inst demo_graph) (VSet [VStr "a1"; VStr "a2"]) new_controller).2
    = [demo_action "a1" ActionType.GRASP; demo_action "a2" ActionType.GRASP] ∧
  adapter_calls (execute demo_runtime (Inst demo_graph) (VSet [VStr "a1"]) new_controller).2 = [].
Proof. split; vm_compute; reflexivity. Qed.
