(* ===== verification/Recovery.v ===== *)
(** * Recovery policies and the recovery ledger

    [recovery.py]: the closed vocabulary of recovery actions, the parser of a
    manifest's [recovery_policy], and the ledger that turns one verification
    into the next bounded step.  The ledger is an object with mutable fields,
    so its methods are programs over its state; an exception leaves the
    assignments made before it in place. *)

From Stdlib Require Import ZArith.
From S2P Require Import Prelude PyVal Contracts.
Local Open Scope prog_scope.
Local Open Scope Z_scope.

Module RecoveryAction.
Inductive t : Type :=
| RETRY_OBSERVATION | RETRY_ACTION | ASK_CONFIRM | SAFE_STOP | ABORT.
#[global] Instance eq_dec : EqDecision t.
Proof. solve_decision. Defined.
#[global] Instance enum : StrEnum t := {|
  value x := match x with
    | RETRY_OBSERVATION => "retry_observation"
    | RETRY_ACTION => "retry_action"
    | ASK_CONFIRM => "ask_confirm"
    | SAFE_STOP => "safe_stop"
    | ABORT => "abort"
    end;
  members := [RETRY_OBSERVATION; RETRY_ACTION; ASK_CONFIRM; SAFE_STOP; ABORT]
|}.
#[global] Instance laws : StrEnumLaws t.
Proof. solve_enum_laws. Qed.
End RecoveryAction.

Module RecoveryState.
Inductive t : Type :=
| IDLE | OBSERVING | ACTING | AWAITING_CONFIRMATION | STOPPING | ABORTED | COMPLETE.
#[global] Instance eq_dec : EqDecision t.
Proof. solve_decision. Defined.
#[global] Instance enum : StrEnum t := {|
  value x := match x with
    | IDLE => "idle"
    | OBSERVING => "observing"
    | ACTING => "acting"
    | AWAITING_CONFIRMATION => "awaiting_confirmation"
    | STOPPING => "stopping"
    | ABORTED => "aborted"
    | COMPLETE => "complete"
    end;
  members := [IDLE; OBSERVING; ACTING; AWAITING_CONFIRMATION; STOPPING; ABORTED; COMPLETE]
|}.
#[global] Instance laws : StrEnumLaws t.
Proof. solve_enum_laws. Qed.
End RecoveryState.

(** ** Diagnostics *)

Inductive recovery_code : Type :=
| RECOVERY_POLICY_MALFORMED
| RECOVERY_POLICY_UNKNOWN_ACTION
| RECOVERY_POLICY_EMPTY_ACTIONS
| RECOVERY_POLICY_INVALID_BUDGET
| RECOVERY_POLICY_ILLEGAL_TRANSITION
| RECOVERY_POLICY_BUDGET_EXHAUSTED
| RECOVERY_POLICY_EVIDENCE_NOT_FRESH
| RECOVERY_POLICY_EVIDENCE_UNOBSERVED
| RECOVERY_POLICY_RUNTIME_OWNED_ACTION
| RECOVERY_POLICY_TERMINAL.

Definition code_value (c : recovery_code) : string :=
  match c with
  | RECOVERY_POLICY_MALFORMED => "RECOVERY_POLICY_MALFORMED"
  | RECOVERY_POLICY_UNKNOWN_ACTION => "RECOVERY_POLICY_UNKNOWN_ACTION"
  | RECOVERY_POLICY_EMPTY_ACTIONS => "RECOVERY_POLICY_EMPTY_ACTIONS"
  | RECOVERY_POLICY_INVALID_BUDGET => "RECOVERY_POLICY_INVALID_BUDGET"
  | RECOVERY_POLICY_ILLEGAL_TRANSITION => "RECOVERY_POLICY_ILLEGAL_TRANSITION"
  | RECOVERY_POLICY_BUDGET_EXHAUSTED => "RECOVERY_POLICY_BUDGET_EXHAUSTED"
  | RECOVERY_POLICY_EVIDENCE_NOT_FRESH => "RECOVERY_POLICY_EVIDENCE_NOT_FRESH"
  | RECOVERY_POLICY_EVIDENCE_UNOBSERVED => "RECOVERY_POLICY_EVIDENCE_UNOBSERVED"
  | RECOVERY_POLICY_RUNTIME_OWNED_ACTION => "RECOVERY_POLICY_RUNTIME_OWNED_ACTION"
  | RECOVERY_POLICY_TERMINAL => "RECOVERY_POLICY_TERMINAL"
  end.

(** [RecoveryPolicyError] with its code (the message is for people), or the
    [TypeError] of a foreign argument. *)
Inductive recovery_exn : Type :=
| RecoveryPolicyError (code : recovery_code)
| TypeError.

Definition MIN_MAX_ATTEMPTS : Z := 1.
Definition MAX_MAX_ATTEMPTS : Z := 10.
Definition MIN_MAX_TICKS : Z := 1.
Definition MAX_MAX_TICKS : Z := 100.
Definition DEFAULT_MAX_ATTEMPTS : Z := 3.
Definition DEFAULT_MAX_TICKS : Z := 30.
Definition RUNTIME_AUTHORITY : string := "trusted-runtime".
Definition POLICY_VERSION : string := "recovery-policy-v1".

(** ** Tables *)

Definition MANIFEST_ALIASES : list (string * string) :=
  [ ("re_observe", value RecoveryAction.RETRY_OBSERVATION);
    ("reobserve", value RecoveryAction.RETRY_OBSERVATION) ].

(** [HINT_TO_ACTION.get(hint)] *)
Definition HINT_TO_ACTION (h : RecoveryHint.t) : option RecoveryAction.t :=
  match h with
  | RecoveryHint.RE_OBSERVE => Some RecoveryAction.RETRY_OBSERVATION
  | RecoveryHint.RETRY_ACTION => Some RecoveryAction.RETRY_ACTION
  | RecoveryHint.ASK_CONFIRM => Some RecoveryAction.ASK_CONFIRM
  | RecoveryHint.ABORT => Some RecoveryAction.ABORT
  | RecoveryHint.NONE => None
  end.

Definition ACTION_PREFERENCE : list RecoveryAction.t :=
  [ RecoveryAction.RETRY_OBSERVATION; RecoveryAction.RETRY_ACTION; RecoveryAction.ASK_CONFIRM;
    RecoveryAction.SAFE_STOP; RecoveryAction.ABORT ].

Definition RUNTIME_OWNED_ACTIONS : list RecoveryAction.t := [RecoveryAction.SAFE_STOP].

Definition EVIDENCE_REASON_CODES : list string :=
  [ "stale_observation"; "evidence_missing"; "target_not_observed";
    "confidence_below_threshold"; "conflicting_observations" ].

Definition TERMINAL_ACTIONS : list RecoveryAction.t :=
  [RecoveryAction.SAFE_STOP; RecoveryAction.ABORT].

Definition _STATE_FOR_ACTION (a : RecoveryAction.t) : RecoveryState.t :=
  match a with
  | RecoveryAction.RETRY_OBSERVATION => RecoveryState.OBSERVING
  | RecoveryAction.RETRY_ACTION => RecoveryState.ACTING
  | RecoveryAction.ASK_CONFIRM => RecoveryState.AWAITING_CONFIRMATION
  | RecoveryAction.SAFE_STOP => RecoveryState.STOPPING
  | RecoveryAction.ABORT => RecoveryState.ABORTED
  end.

Definition _DEFAULT_SUCCESSORS : list RecoveryState.t :=
  [ RecoveryState.OBSERVING; RecoveryState.ACTING; RecoveryState.AWAITING_CONFIRMATION;
    RecoveryState.COMPLETE; RecoveryState.STOPPING; RecoveryState.ABORTED ].

Definition LEGAL_TRANSITIONS (s : RecoveryState.t) : list RecoveryState.t :=
  match s with
  | RecoveryState.IDLE | RecoveryState.OBSERVING | RecoveryState.ACTING => _DEFAULT_SUCCESSORS
  | RecoveryState.AWAITING_CONFIRMATION =>
      [ RecoveryState.OBSERVING; RecoveryState.ACTING; RecoveryState.COMPLETE;
        RecoveryState.STOPPING; RecoveryState.ABORTED ]
  | RecoveryState.STOPPING => []
  | RecoveryState.ABORTED => []
  | RecoveryState.COMPLETE => [RecoveryState.IDLE]
  end.

Definition transition_is_legal (current following : RecoveryState.t) : bool :=
  bool_decide (following ∈ LEGAL_TRANSITIONS current).

(** ** Policy *)

(** [RecoveryPolicy]; the frozenset [actions] is a list used for membership. *)
Record RecoveryPolicy := {
  actions : list RecoveryAction.t;
  max_attempts : Z;
  max_recovery_ticks : Z;
  requires_fresh_evidence : bool;
  enabled : bool;
  recovery_policy_version : string
}.

Definition ordered_actions (p : RecoveryPolicy) : list RecoveryAction.t :=
  filter (λ a, a ∈ actions p) ACTION_PREFERENCE.

Definition runtime_owned_actions (p : RecoveryPolicy) : list RecoveryAction.t :=
  filter (λ a, a ∈ RUNTIME_OWNED_ACTIONS) (actions p).

Definition disabled : RecoveryPolicy := {|
  actions := []; max_attempts := DEFAULT_MAX_ATTEMPTS; max_recovery_ticks := DEFAULT_MAX_TICKS;
  requires_fresh_evidence := true; enabled := false; recovery_policy_version := POLICY_VERSION
|}.

Abbreviation parser := (outcome recovery_exn).

Definition _bounded_int (v : pyval) (minimum maximum : Z) : parser Z :=
  match v with
  | VInt n => if (minimum <=? n) && (n <=? maximum) then Ok n
              else Raise (RecoveryPolicyError RECOVERY_POLICY_INVALID_BUDGET)
  | _ => Raise (RecoveryPolicyError RECOVERY_POLICY_INVALID_BUDGET)
  end.

(** The loop over [raw_actions]. *)
Fixpoint parse_actions (entries : list pyval) : parser (list RecoveryAction.t) :=
  match entries with
  | [] => Ok []
  | entry :: entries' =>
      match as_str entry with
      | None => Raise (RecoveryPolicyError RECOVERY_POLICY_UNKNOWN_ACTION)
      | Some s =>
          let normalized := default s (assoc_get s MANIFEST_ALIASES) in
          match of_value (A:=RecoveryAction.t) normalized with
          | None => Raise (RecoveryPolicyError RECOVERY_POLICY_UNKNOWN_ACTION)
          | Some a =>
              match parse_actions entries' with
              | Ok l => Ok (a :: l)
              | Raise e => Raise e
              end
          end
      end
  end.

Definition POLICY_KEYS : list string :=
  ["allowed"; "max_attempts"; "requires_fresh_evidence"; "max_recovery_ticks"; "allow_safe_stop"].

(** [RecoveryPolicy.parse] *)
Definition parse (payload : pyval) : parser RecoveryPolicy :=
  match payload with
  | VNone => Ok disabled
  | VDict kvs =>
      match unknown_keys POLICY_KEYS kvs with
      | _ :: _ => Raise (RecoveryPolicyError RECOVERY_POLICY_MALFORMED)
      | [] =>
          match iter_items (dict_get_or "allowed" kvs (VTuple [])) with
          | None => Raise (RecoveryPolicyError RECOVERY_POLICY_MALFORMED)
          | Some entries =>
              match parse_actions entries with
              | Raise e => Raise e
              | Ok [] => Raise (RecoveryPolicyError RECOVERY_POLICY_EMPTY_ACTIONS)
              | Ok acts =>
                  let stop_refused :=
                    bool_decide (RecoveryAction.SAFE_STOP ∈ acts) &&
                    match dict_get_or "allow_safe_stop" kvs (VBool true) with
                    | VBool true => false | _ => true end in
                  if stop_refused
                  then Raise (RecoveryPolicyError RECOVERY_POLICY_RUNTIME_OWNED_ACTION)
                  else
                    match _bounded_int (dict_get_or "max_attempts" kvs (VInt DEFAULT_MAX_ATTEMPTS))
                            MIN_MAX_ATTEMPTS MAX_MAX_ATTEMPTS with
                    | Raise e => Raise e
                    | Ok attempts =>
                        match _bounded_int
                                (dict_get_or "max_recovery_ticks" kvs (VInt DEFAULT_MAX_TICKS))
                                MIN_MAX_TICKS MAX_MAX_TICKS with
                        | Raise e => Raise e
                        | Ok max_ticks =>
                            match dict_get_or "requires_fresh_evidence" kvs (VBool true) with
                            | VBool fresh =>
                                Ok {| actions := acts; max_attempts := attempts;
                                      max_recovery_ticks := max_ticks;
                                      requires_fresh_evidence := fresh; enabled := true;
                                      recovery_policy_version := POLICY_VERSION |}
                            | _ => Raise (RecoveryPolicyError RECOVERY_POLICY_MALFORMED)
                            end
                        end
                    end
              end
          end
      end
  | _ => Raise (RecoveryPolicyError RECOVERY_POLICY_MALFORMED)
  end.

(** ** Evidence and decisions *)

Record EvidenceStamp := {
  observed_at : string;
  fresh : bool;
  provenance_valid : bool;
  sequence_no : Z;
  stamp_evidence_refs : list string
}.

Record RecoveryDecision := {
  d_recovery_id : string;
  d_task_id : string;
  d_action : RecoveryAction.t;
  d_state : RecoveryState.t;
  d_attempt : Z;
  d_max_attempts : Z;
  d_ticks : Z;
  d_max_recovery_ticks : Z;
  d_reason_code : string;
  d_reason : string;
  d_policy_version : string;
  d_terminal : bool;
  d_runtime_owned : bool;
  d_evidence_refs : list string
}.

(** [RecoveryDecision.event_type] *)
Definition event_type (d : RecoveryDecision) : string :=
  if d_terminal d then "recovery_complete" else "recovery_started".

(** [_OUTCOMES.get(action.value, "recovered")] *)
Definition _OUTCOMES (a : RecoveryAction.t) : string :=
  match a with
  | RecoveryAction.ABORT => "aborted"
  | RecoveryAction.SAFE_STOP => "stopped"
  | _ => "recovered"
  end.

(** [RecoveryDecision.as_payload] *)
Definition as_payload (d : RecoveryDecision) : list (string * pyval) :=
  [ ("recovery_id", VStr (d_recovery_id d)); ("task_id", VStr (d_task_id d));
    ("action", VStr (value (d_action d))); ("state", VStr (value (d_state d)));
    ("attempt", VInt (d_attempt d)); ("max_attempts", VInt (d_max_attempts d));
    ("ticks", VInt (d_ticks d)); ("max_recovery_ticks", VInt (d_max_recovery_ticks d));
    ("reason_code", VStr (d_reason_code d)); ("reason", VStr (d_reason d));
    ("policy_version", VStr (d_policy_version d)); ("runtime_owned", VBool (d_runtime_owned d)) ] ++
  (if d_terminal d then [("outcome", VStr (_OUTCOMES (d_action d)))] else []) ++
  (match d_evidence_refs d with [] => [] | refs => [("evidence_refs", VList (VStr <$> refs))] end).

(** ** Duck-typed verifications

    [record_verification] reads its argument with [getattr]: an attribute is
    absent or [None], a [StrEnum] member, a string, or another object with a
    truth value and a [str]. *)
Inductive attr : Type :=
| ANone
| AEnum (cls val : string)
| AStr (s : string)
| AOther (truthy : bool) (str_of : string).

(** [getattr(result, "evidence_refs", ()) or ()]: what [tuple] makes of it. *)
Inductive refs_attr : Type :=
| ARefs (refs : list string)
| ANotIterable.

Record verification_view := {
  v_status : attr;
  v_verification_id : attr;
  v_evidence_refs : refs_attr;
  v_verified_at : attr;
  v_recovery_hint : attr;
  v_reason_code : attr
}.

Definition str_of_attr (a : attr) : string :=
  match a with ANone => "None" | AEnum _ v => v | AStr s => s | AOther _ s => s end.

Definition _status_value (a : attr) : string := str_of_attr a.

Definition _reason_value (a : attr) : string :=
  match a with ANone => "" | _ => str_of_attr a end.

(** [str(x or "")] *)
Definition str_or_blank (a : attr) : string :=
  match a with ANone | AOther false _ => "" | _ => str_of_attr a end.

(** [x if isinstance(x, str) else None] *)
Definition attr_str (a : attr) : option string :=
  match a with AEnum _ s | AStr s => Some s | _ => None end.

Definition hint_of_string (s : string) : option RecoveryAction.t :=
  match of_value (A:=RecoveryAction.t) s with
  | Some a => Some a
  | None => match of_value (A:=RecoveryHint.t) s with
            | Some h => HINT_TO_ACTION h
            | None => None
            end
  end.

Definition _hint_to_action (a : attr) : option RecoveryAction.t :=
  match a with
  | ANone => None
  | AEnum cls v =>
      if String.eqb cls "RecoveryAction" then of_value v
      else if String.eqb cls "RecoveryHint" then
        match of_value (A:=RecoveryHint.t) v with Some h => HINT_TO_ACTION h | None => None end
      else hint_of_string v
  | AStr s => hint_of_string s
  | AOther _ _ => None
  end.

(** ** The ledger *)

Record RecoveryLedger := {
  policy : RecoveryPolicy;
  recovery_id : string;
  ledger_task_id : string;
  state : RecoveryState.t;
  attempt : Z;
  ticks : Z;
  evidence : option EvidenceStamp;
  failed_at : string;
  failed_sequence : Z;
  failed_frontier : Z;
  completed_by : option string
}.

Definition _non_blank (s : string) : parser string :=
  if non_blank s then Ok s else Raise (RecoveryPolicyError RECOVERY_POLICY_MALFORMED).

(** [RecoveryLedger.__init__] on string identifiers *)
Definition new_ledger (p : RecoveryPolicy) (rid tid : string) : parser RecoveryLedger :=
  match _non_blank rid, _non_blank tid with
  | Ok rid, Ok tid =>
      Ok {| policy := p; recovery_id := rid; ledger_task_id := tid; state := RecoveryState.IDLE;
            attempt := 0; ticks := 0; evidence := None; failed_at := "";
            failed_sequence := -1; failed_frontier := -1; completed_by := None |}
  | Raise e, _ | Ok _, Raise e => Raise e
  end.

Definition terminal (l : RecoveryLedger) : bool :=
  bool_decide (state l ∈ [RecoveryState.STOPPING; RecoveryState.ABORTED]).

Definition set_state (s : RecoveryState.t) (l : RecoveryLedger) : RecoveryLedger := {|
  policy := policy l; recovery_id := recovery_id l; ledger_task_id := ledger_task_id l;
  state := s; attempt := attempt l; ticks := ticks l; evidence := evidence l;
  failed_at := failed_at l; failed_sequence := failed_sequence l;
  failed_frontier := failed_frontier l; completed_by := completed_by l |}.

Definition set_evidence (e : EvidenceStamp) (l : RecoveryLedger) : RecoveryLedger := {|
  policy := policy l; recovery_id := recovery_id l; ledger_task_id := ledger_task_id l;
  state := state l; attempt := attempt l; ticks := ticks l; evidence := Some e;
  failed_at := failed_at l; failed_sequence := failed_sequence l;
  failed_frontier := failed_frontier l; completed_by := completed_by l |}.

Definition set_completed_by (v : option string) (l : RecoveryLedger) : RecoveryLedger := {|
  policy := policy l; recovery_id := recovery_id l; ledger_task_id := ledger_task_id l;
  state := state l; attempt := attempt l; ticks := ticks l; evidence := evidence l;
  failed_at := failed_at l; failed_sequence := failed_sequence l;
  failed_frontier := failed_frontier l; completed_by := v |}.

(** The sequence number of the newest observation, or the old watermark. *)
Definition watermark (l : RecoveryLedger) (old : Z) : Z :=
  match evidence l with Some e => sequence_no e | None => old end.

(** [_decide]: the retry watermark moves to the newest observation. *)
Definition consume_evidence (l : RecoveryLedger) : RecoveryLedger := {|
  policy := policy l; recovery_id := recovery_id l; ledger_task_id := ledger_task_id l;
  state := state l; attempt := attempt l; ticks := ticks l; evidence := evidence l;
  failed_at := failed_at l; failed_sequence := watermark l (failed_sequence l);
  failed_frontier := failed_frontier l; completed_by := completed_by l |}.

(** [record_verification]: one failed attempt is counted and closes the
    observation frontier. *)
Definition count_failure (at_ : string) (l : RecoveryLedger) : RecoveryLedger := {|
  policy := policy l; recovery_id := recovery_id l; ledger_task_id := ledger_task_id l;
  state := state l; attempt := attempt l + 1; ticks := ticks l + 1; evidence := evidence l;
  failed_at := at_; failed_sequence := failed_sequence l;
  failed_frontier := watermark l (failed_frontier l); completed_by := completed_by l |}.

Abbreviation ledger := (prog RecoveryLedger recovery_exn).

Definition fail_with {A} (c : recovery_code) : ledger A := raise (RecoveryPolicyError c).

(** [record_observation]; [None] is an argument that is not an [EvidenceStamp]. *)
Definition record_observation (stamp : option EvidenceStamp) : ledger () :=
  match stamp with
  | None => raise TypeError
  | Some stamp =>
      l <- get ;;
      match evidence l with
      | Some e => if sequence_no stamp <? sequence_no e then ret () else modify (set_evidence stamp)
      | None => modify (set_evidence stamp)
      end
  end.

Definition _advance (following : RecoveryState.t) : ledger () :=
  l <- get ;;
  if transition_is_legal (state l) following then modify (set_state following)
  else fail_with RECOVERY_POLICY_ILLEGAL_TRANSITION.

(** [acknowledge_runtime_action]; [None] is an argument that is not a
    [RecoveryAction]. *)
Definition acknowledge_runtime_action (action : option RecoveryAction.t) (authority : string)
    : ledger () :=
  match action with
  | None => fail_with RECOVERY_POLICY_MALFORMED
  | Some action =>
      if bool_decide (action ∈ RUNTIME_OWNED_ACTIONS) && negb (String.eqb authority RUNTIME_AUTHORITY)
      then fail_with RECOVERY_POLICY_RUNTIME_OWNED_ACTION
      else if decide (action ∈ TERMINAL_ACTIONS) then
        l <- get ;;
        if decide (state l = _STATE_FOR_ACTION action) then ret ()
        else _advance (_STATE_FOR_ACTION action)
      else ret ()
  end.

(** [_evidence_is_new] *)
Definition _evidence_is_new (l : RecoveryLedger) : bool :=
  match evidence l with
  | None => false
  | Some stamp => fresh stamp && provenance_valid stamp && (failed_sequence l <? sequence_no stamp)
  end.

Definition refs_meet (a b : list string) : bool := existsb (λ x, str_in x b) a.

(** [_complete] *)
Definition _complete (verification_id : attr) (evidence_refs : list string) : ledger () :=
  l <- get ;;
  let finish :=
    _advance RecoveryState.COMPLETE ;;; modify (set_completed_by (attr_str verification_id)) in
  if decide (state l = RecoveryState.COMPLETE) then ret ()
  else if 0 <? attempt l then
    match evidence l with
    | None => fail_with RECOVERY_POLICY_EVIDENCE_NOT_FRESH
    | Some stamp =>
        if sequence_no stamp <=? failed_frontier l
        then fail_with RECOVERY_POLICY_EVIDENCE_NOT_FRESH
        else if negb (fresh stamp && provenance_valid stamp)
        then fail_with RECOVERY_POLICY_EVIDENCE_NOT_FRESH
        else if negb (refs_meet evidence_refs (stamp_evidence_refs stamp))
        then fail_with RECOVERY_POLICY_EVIDENCE_UNOBSERVED
        else finish
    end
  else finish.

(** [_decide] *)
Definition _decide (action : RecoveryAction.t) (code : string) (reason : string)
    : ledger RecoveryDecision :=
  _advance (_STATE_FOR_ACTION action) ;;;
  modify consume_evidence ;;;
  l <- get ;;
  ret {| d_recovery_id := recovery_id l; d_task_id := ledger_task_id l; d_action := action;
         d_state := state l; d_attempt := attempt l; d_max_attempts := max_attempts (policy l);
         d_ticks := ticks l; d_max_recovery_ticks := max_recovery_ticks (policy l);
         d_reason_code := code; d_reason := reason; d_policy_version := POLICY_VERSION;
         d_terminal := bool_decide (action ∈ TERMINAL_ACTIONS);
         d_runtime_owned := bool_decide (action ∈ RUNTIME_OWNED_ACTIONS);
         d_evidence_refs := match evidence l with
                            | Some e => stamp_evidence_refs e | None => [] end |}.

Definition exhausted_reason (l : RecoveryLedger) : string :=
  "recovery budget exhausted at attempt " +:+ pretty (attempt l) +:+ " of " +:+
  pretty (max_attempts (policy l)) +:+ " and tick " +:+ pretty (ticks l) +:+ " of " +:+
  pretty (max_recovery_ticks (policy l)).

(** [evidence_dependent] of [record_verification] *)
Definition evidence_dependent (v : verification_view) : bool :=
  str_in (_reason_value (v_reason_code v)) EVIDENCE_REASON_CODES.

(** What [record_verification] does once the failure is counted. *)
Definition next_step (v : verification_view) : ledger (option RecoveryDecision) :=
  l <- get ;;
  if (max_attempts (policy l) <? attempt l) || (max_recovery_ticks (policy l) <? ticks l) then
    d <- _decide RecoveryAction.ABORT (code_value RECOVERY_POLICY_BUDGET_EXHAUSTED)
           (exhausted_reason l) ;;
    ret (Some d)
  else
    match _hint_to_action (v_recovery_hint v) with
    | None => ret None
    | Some candidate =>
        if decide (candidate ∈ actions (policy l)) then
          if bool_decide (candidate = RecoveryAction.RETRY_ACTION) &&
             requires_fresh_evidence (policy l) && evidence_dependent v &&
             negb (_evidence_is_new l)
          then
            if decide (RecoveryAction.RETRY_OBSERVATION ∈ actions (policy l)) then
              d <- _decide RecoveryAction.RETRY_OBSERVATION
                     (code_value RECOVERY_POLICY_EVIDENCE_NOT_FRESH)
                     ("an action retry was refused because no fresh provenance-valid observation " +:+
                      "arrived after the failed attempt; observing again first") ;;
              ret (Some d)
            else
              d <- _decide RecoveryAction.ABORT (code_value RECOVERY_POLICY_EVIDENCE_NOT_FRESH)
                     ("an action retry needs fresh provenance-valid evidence and the policy allows " +:+
                      "no observation retry") ;;
              ret (Some d)
          else
            d <- _decide candidate "recovery_selected"
                   ("the verification requested " +:+ value candidate) ;;
            ret (Some d)
        else
          d <- _decide RecoveryAction.ABORT (code_value RECOVERY_POLICY_UNKNOWN_ACTION)
                 ("the policy does not allow " +:+ value candidate) ;;
          ret (Some d)
    end.

(** [record_verification] *)
Definition record_verification (v : verification_view) : ledger (option RecoveryDecision) :=
  match v_evidence_refs v with
  | ANotIterable => raise TypeError
  | ARefs refs =>
      if String.eqb (_status_value (v_status v)) (value VerificationStatus.CONFIRMED) then
        _complete (v_verification_id v) refs ;;; ret None
      else
        l <- get ;;
        if enabled (policy l) then
          if terminal l then fail_with RECOVERY_POLICY_TERMINAL
          else
            modify (count_failure (str_or_blank (v_verified_at v))) ;;;
            next_step v
        else ret None
  end.

(** ** Sequences of calls *)

Inductive op : Type :=
| Observe (stamp : option EvidenceStamp)
| Acknowledge (action : option RecoveryAction.t) (authority : string)
| Verify (v : verification_view).

(** One call, with the decision it returned, if any; the caller survives the
    exceptions. *)
Definition step (o : op) (l : RecoveryLedger) : option RecoveryDecision * RecoveryLedger :=
  match o with
  | Observe s => (None, (record_observation s l).2)
  | Acknowledge a who => (None, (acknowledge_runtime_action a who l).2)
  | Verify v => (match (record_verification v l).1 with Ok d => d | Raise _ => None end,
                 (record_verification v l).2)
  end.

(** The calls in order: the decisions they returned and the final ledger. *)
Fixpoint run (ops : list op) (l : RecoveryLedger) : list RecoveryDecision * RecoveryLedger :=
  match ops with
  | [] => ([], l)
  | o :: ops' =>
      let '(d, l1) := step o l in
      let '(ds, l2) := run ops' l1 in
      (option_list d ++ ds, l2)
  end.
