(* ===== verification/RecoveryTheorems.v ===== *)
(** * Recovery: the theorems

    Parsing, bounds, the evidence gates and terminal states of [recovery.py],
    for every sequence of calls on one ledger, after the invariants they rest on. *)

From Stdlib Require Import ZArith Sorting.Sorted.
From S2P Require Import Prelude PyVal Contracts Recovery.
Local Open Scope Z_scope.

(** ** Specification *)

Definition within_budget (l : RecoveryLedger) : Prop :=
  attempt l ≤ max_attempts (policy l) ∧ ticks l ≤ max_recovery_ticks (policy l).

(** Evidence that the retry watermark has not consumed. *)
Definition new_evidence (l : RecoveryLedger) (s : EvidenceStamp) : Prop :=
  evidence l = Some s ∧ fresh s = true ∧ provenance_valid s = true ∧
  failed_sequence l < sequence_no s.

(** What a confirmation that cites [refs] needs after a failure. *)
Definition completion_evidence (l : RecoveryLedger) (refs : list string) : Prop :=
  ∃ s r, evidence l = Some s ∧ failed_frontier l < sequence_no s ∧
         fresh s = true ∧ provenance_valid s = true ∧ r ∈ refs ∧ r ∈ stamp_evidence_refs s.

(** The decision [d] for action [a], taken in ledger [l]. *)
Definition decision_in (l : RecoveryLedger) (a : RecoveryAction.t) (d : RecoveryDecision) : Prop :=
  d_action d = a ∧ d_state d = _STATE_FOR_ACTION a ∧ d_attempt d = attempt l ∧
  d_ticks d = ticks l ∧ d_terminal d = bool_decide (a ∈ TERMINAL_ACTIONS) ∧
  d_max_attempts d = max_attempts (policy l).

Definition retry_gate (v : verification_view) (l : RecoveryLedger) (a : RecoveryAction.t) : Prop :=
  a = RecoveryAction.RETRY_ACTION → requires_fresh_evidence (policy l) = true →
  evidence_dependent v = true → ∃ s, new_evidence l s.

Inductive effect (l : RecoveryLedger) : op → option RecoveryDecision → RecoveryLedger → Prop :=
| effect_none o : effect l o None l
| effect_observe s :
    (∀ e, evidence l = Some e → sequence_no e ≤ sequence_no s) →
    effect l (Observe (Some s)) None (set_evidence s l)
| effect_acknowledge a who :
    a ∈ TERMINAL_ACTIONS → (a ∈ RUNTIME_OWNED_ACTIONS → who = RUNTIME_AUTHORITY) →
    transition_is_legal (state l) (_STATE_FOR_ACTION a) = true →
    effect l (Acknowledge (Some a) who) None (set_state (_STATE_FOR_ACTION a) l)
| effect_complete v refs :
    v_evidence_refs v = ARefs refs → (0 < attempt l → completion_evidence l refs) →
    transition_is_legal (state l) RecoveryState.COMPLETE = true →
    effect l (Verify v) None
      (set_completed_by (attr_str (v_verification_id v)) (set_state RecoveryState.COMPLETE l))
| effect_fail v at_ :
    enabled (policy l) = true → terminal l = false →
    effect l (Verify v) None (count_failure at_ l)
| effect_decide v at_ a d :
    enabled (policy l) = true → terminal l = false →
    transition_is_legal (state l) (_STATE_FOR_ACTION a) = true →
    decision_in (count_failure at_ l) a d →
    (a ≠ RecoveryAction.ABORT →
       within_budget (count_failure at_ l) ∧ a ∈ actions (policy l)) →
    retry_gate v (count_failure at_ l) a →
    effect l (Verify v) (Some d)
      (consume_evidence (set_state (_STATE_FOR_ACTION a) (count_failure at_ l))).

(** ** Refinement *)

Lemma advance_spec s l :
  match _advance s l with
  | (Ok _, l') => transition_is_legal (state l) s = true ∧ l' = set_state s l
  | (Raise _, l') => l' = l
  end.
Proof. unfold _advance, bind, get. by destruct (transition_is_legal _ _). Qed.

Lemma decide_spec a code why l :
  match _decide a code why l with
  | (Ok d, l') => transition_is_legal (state l) (_STATE_FOR_ACTION a) = true ∧ decision_in l a d ∧
                  l' = consume_evidence (set_state (_STATE_FOR_ACTION a) l)
  | (Raise _, l') => l' = l
  end.
Proof.
  unfold _decide, bind at 1. pose proof (advance_spec (_STATE_FOR_ACTION a) l) as H.
  destruct (_advance _ _) as [[u|e] l']; [|done]. destruct H as [Hl ->].
  unfold bind, modify, get, ret. by split_and!.
Qed.

Lemma evidence_is_new_spec l : _evidence_is_new l = true → ∃ s, new_evidence l s.
Proof.
  unfold _evidence_is_new, new_evidence. destruct (evidence l) as [s|]; [|done].
  rewrite !andb_true_iff, Z.ltb_lt. intros [[? ?] ?]. by exists s.
Qed.

(** The possible results of [next_step]. *)
Definition next_step_post (v : verification_view) (l : RecoveryLedger)
    (out : outcome recovery_exn (option RecoveryDecision) * RecoveryLedger) : Prop :=
  match out with
  | (Ok (Some d), l') => ∃ a,
      transition_is_legal (state l) (_STATE_FOR_ACTION a) = true ∧ decision_in l a d ∧
      l' = consume_evidence (set_state (_STATE_FOR_ACTION a) l) ∧
      (a ≠ RecoveryAction.ABORT → within_budget l ∧ a ∈ actions (policy l)) ∧ retry_gate v l a
  | (_, l') => l' = l
  end.

Lemma decide_post v l a code why :
  (a ≠ RecoveryAction.ABORT → within_budget l ∧ a ∈ actions (policy l)) → retry_gate v l a →
  next_step_post v l (bind (_decide a code why) (λ d, ret (Some d)) l).
Proof.
  intros Ha Hg. unfold bind. pose proof (decide_spec a code why l) as H.
  destruct (_decide _ _ _ _) as [[d|e] l']; [|done]. destruct H as (? & ? & ->).
  exists a. by split_and!.
Qed.

Lemma next_step_spec v l : next_step_post v l (next_step v l).
Proof.
  unfold next_step, bind at 1, get.
  destruct ((_ <? _) || (_ <? _)) eqn:Hb; [apply decide_post; [done|by intros ?]|].
  apply orb_false_iff in Hb as [Hb1 Hb2]. rewrite Z.ltb_ge in Hb1, Hb2.
  destruct (_hint_to_action _) as [a|]; [|done].
  case_decide as Ha; [|apply decide_post; [done|by intros ?]].
  destruct (_ && negb _) eqn:Hg.
  - destruct (decide (RecoveryAction.RETRY_OBSERVATION ∈ actions (policy l))); apply decide_post;
      try done; by intros ?.
  - apply decide_post; [done|]. intros -> Hf He. apply evidence_is_new_spec.
    rewrite bool_decide_eq_true_2, Hf, He in Hg by done. by destruct (_evidence_is_new l).
Qed.

Lemma refs_meet_spec a b : refs_meet a b = true ↔ ∃ r, r ∈ a ∧ r ∈ b.
Proof.
  unfold refs_meet, str_in. rewrite existsb_exists.
  split; intros (r & H1 & H2); exists r;
    [rewrite bool_decide_eq_true in H2|rewrite bool_decide_eq_true];
    by rewrite ?list_elem_of_In in *.
Qed.

Definition complete_post (vid : attr) (l l' : RecoveryLedger) (P : Prop) : Prop :=
  l' = l ∨
  (l' = set_completed_by (attr_str vid) (set_state RecoveryState.COMPLETE l) ∧
   transition_is_legal (state l) RecoveryState.COMPLETE = true ∧ P).

Lemma complete_finish vid l (P : Prop) : P →
  complete_post vid l (bind (_advance RecoveryState.COMPLETE)
    (λ _, modify (set_completed_by (attr_str vid))) l).2 P.
Proof.
  intros HP. unfold bind. pose proof (advance_spec RecoveryState.COMPLETE l) as Ha.
  destruct (_advance _ _) as [[u|e] l']; [|by left]. destruct Ha as [? ->]. by right.
Qed.

Lemma complete_spec vid refs l :
  complete_post vid l (_complete vid refs l).2 (0 < attempt l → completion_evidence l refs).
Proof.
  unfold _complete, bind at 1, get. case_decide; [by left|].
  destruct (0 <? attempt l) eqn:Hatt; [|apply complete_finish; rewrite Z.ltb_ge in Hatt; lia].
  destruct (evidence l) as [s|] eqn:He; [|by left].
  destruct (sequence_no s <=? failed_frontier l) eqn:Hs; [by left|]. rewrite Z.leb_gt in Hs.
  destruct (fresh s && provenance_valid s) eqn:Hf; [|by left]. apply andb_true_iff in Hf as [? ?].
  destruct (refs_meet _ _) eqn:Hr; [|by left]. apply refs_meet_spec in Hr as (r & ? & ?).
  apply complete_finish. intros _. by exists s, r.
Qed.

Lemma verify_effect v l : effect l (Verify v) (step (Verify v) l).1 (step (Verify v) l).2.
Proof.
  simpl. unfold record_verification. destruct (v_evidence_refs v) as [refs|] eqn:Hrefs; [|constructor].
  destruct (String.eqb _ _).
  - unfold bind. pose proof (complete_spec (v_verification_id v) refs l) as H.
    destruct (_complete _ _ _) as [[u|e] l']; unfold complete_post in H; simpl in *;
      (destruct H as [->|(-> & ? & ?)]; [constructor|by econstructor]).
  - unfold bind at 1 3, get. destruct (enabled (policy l)) eqn:Hen; [|constructor].
    destruct (terminal l) eqn:Ht; [constructor|]. unfold bind, modify.
    set (at_ := str_or_blank (v_verified_at v)).
    pose proof (next_step_spec v (count_failure at_ l)) as H. unfold next_step_post in H.
    destruct (next_step _ _) as [[[d|]|e] l']; [|subst; by constructor..].
    destruct H as (a & ? & ? & -> & ? & ?). by apply effect_decide.
Qed.

(** Every call on the ledger refines the abstract relation. *)
Lemma step_effect o l : effect l o (step o l).1 (step o l).2.
Proof.
  destruct o as [[s|]|[a|] who|v]; [| |..|apply verify_effect]; simpl; try constructor.
  - unfold record_observation, bind, get. destruct (evidence l) as [e|] eqn:He.
    + destruct (_ <? _) eqn:Hs; [constructor|]. rewrite Z.ltb_ge in Hs. constructor. naive_solver.
    + constructor. naive_solver.
  - unfold acknowledge_runtime_action. destruct (_ && _) eqn:Hw; [constructor|].
    destruct (decide (a ∈ TERMINAL_ACTIONS)) as [Ha|]; [|constructor]. unfold bind, get.
    destruct (decide (state l = _)); [constructor|].
    pose proof (advance_spec (_STATE_FOR_ACTION a) l) as H.
    destruct (_advance _ _) as [[u|e] l']; [|subst; constructor]. destruct H as [? ->].
    apply effect_acknowledge; [done| |done]. intros Ho.
    rewrite bool_decide_eq_true_2 in Hw by done. by apply negb_false_iff, String.eqb_eq in Hw.
Qed.

Lemma run_cons o ops l :
  run (o :: ops) l =
  (option_list (step o l).1 ++ (run ops (step o l).2).1, (run ops (step o l).2).2).
Proof. simpl. destruct (step o l) as [d l1]. simpl. by destruct (run ops l1). Qed.

Lemma run_app ops1 ops2 l : (run (ops1 ++ ops2) l).2 = (run ops2 (run ops1 l).2).2.
Proof. revert l. induction ops1 as [|o ops1 IH]; intros l; [done|]. rewrite <-app_comm_cons, !run_cons. apply IH. Qed.

(** An invariant of the relation is an invariant of every sequence of calls. *)
Lemma run_invariant (I : RecoveryLedger → Prop) :
  (∀ l o d l', effect l o d l' → I l → I l') → ∀ ops l, I l → I (run ops l).2.
Proof.
  intros HI ops. induction ops as [|o ops IH]; intros l Hl; [done|].
  rewrite run_cons. apply IH. eapply HI; [apply step_effect|done].
Qed.

(** ** Counters and terminal states *)

Lemma effect_policy l o d l' : effect l o d l' → policy l' = policy l.
Proof. by destruct 1. Qed.

Definition nonterminal (d : RecoveryDecision) : Prop := d_terminal d = false.
#[export] Instance nonterminal_dec d : Decision (nonterminal d) := decide (d_terminal d = false).

Lemma effect_decision l o d l' :
  effect l o (Some d) l' →
  enabled (policy l) = true ∧ d_attempt d = attempt l + 1 ∧ attempt l' = attempt l + 1 ∧
  ticks l' = ticks l + 1 ∧ terminal l = false ∧
  (nonterminal d → attempt l' ≤ max_attempts (policy l) ∧ ticks l' ≤ max_recovery_ticks (policy l)) ∧
  (d_terminal d = true → terminal l' = true).
Proof.
  intros H. inversion H as [| | | | |v at_ a d' He Ht Hl Hd Hb Hg]; subst.
  destruct Hd as (Ha & Hs & Hat & Htk & Hterm & Hm). simpl in *.
  split_and!; try done.
  - unfold nonterminal. rewrite Hterm. intros Hn. apply bool_decide_eq_false in Hn.
    destruct Hb as [[? ?] _]; [|done]. unfold TERMINAL_ACTIONS in Hn. set_solver.
  - rewrite Hterm. intros Hn%bool_decide_eq_true. unfold terminal, TERMINAL_ACTIONS in *. simpl.
    apply bool_decide_eq_true. destruct a; simpl; set_solver.
Qed.

Lemma effect_counters l o d l' : effect l o d l' → attempt l ≤ attempt l' ∧ ticks l ≤ ticks l'.
Proof. destruct 1; simpl; lia. Qed.

Lemma terminal_absorbing l o d l' :
  effect l o d l' → terminal l = true → state l' = state l ∧ d = None.
Proof.
  intros H Ht. assert (LEGAL_TRANSITIONS (state l) = []) as Hs.
  { apply bool_decide_eq_true in Ht. destruct (state l); simpl; try done; set_solver. }
  destruct H; simpl in *; try done; try congruence;
    unfold transition_is_legal in *; rewrite Hs in *;
    match goal with H : bool_decide _ = true |- _ => apply bool_decide_eq_true in H; set_solver end.
Qed.

Lemma complete_absorbing l o d l' :
  effect l o d l' → state l = RecoveryState.COMPLETE →
  state l' = RecoveryState.COMPLETE ∧ d = None.
Proof.
  intros H Hs. destruct H as [| | ? ? _ _ Hl| | |? ? a ? _ _ Hl]; simpl in *; try done;
    unfold transition_is_legal in Hl; rewrite Hs in Hl; apply bool_decide_eq_true in Hl;
    destruct a; set_solver.
Qed.

Lemma run_policy ops l : policy (run ops l).2 = policy l.
Proof.
  apply (run_invariant (λ l', policy l' = policy l)); [|done].
  intros l1 o d l2 H. by rewrite (effect_policy _ _ _ _ H).
Qed.

(** A terminal ledger answers every later call with no decision. *)
Lemma run_terminal ops l : terminal l = true → (run ops l).1 = [].
Proof.
  revert l. induction ops as [|o ops IH]; intros l Ht; [done|]. rewrite run_cons. simpl.
  destruct (terminal_absorbing _ _ _ _ (step_effect o l) Ht) as [Hs ->]. simpl.
  apply IH. unfold terminal in *. by rewrite Hs.
Qed.

(** The decisions of a sequence of calls: their attempt numbers increase from
    the ledger's, all but the last are non-terminal, and the non-terminal ones
    stay within both budgets. *)
Definition decisions_from (l : RecoveryLedger) (ds : list RecoveryDecision) : Prop :=
  StronglySorted Z.lt (attempt l :: (d_attempt <$> ds)) ∧
  (∀ ds1 d ds2, ds = ds1 ++ d :: ds2 → ds2 ≠ [] → nonterminal d) ∧
  Z.of_nat (length (filter nonterminal ds)) ≤ Z.max 0 (max_attempts (policy l) - attempt l) ∧
  Z.of_nat (length (filter nonterminal ds)) ≤ Z.max 0 (max_recovery_ticks (policy l) - ticks l).

Lemma decisions_from_mono l l' ds :
  policy l' = policy l → attempt l ≤ attempt l' → ticks l ≤ ticks l' →
  decisions_from l' ds → decisions_from l ds.
Proof.
  intros Hp Ha Ht (Hs & Hl & H1 & H2). rewrite Hp in *. split_and!; [|done|lia|lia].
  inversion Hs as [|? ? ? Hall]; subst. constructor; [done|].
  eapply Forall_impl; [done|]. simpl. lia.
Qed.

Lemma run_decisions ops l : decisions_from l (run ops l).1.
Proof.
  revert l. induction ops as [|o ops IH]; intros l.
  { split_and!; simpl; [repeat constructor|by intros [] ? ?|lia|lia]. }
  rewrite run_cons. simpl. pose proof (step_effect o l) as He.
  pose proof (effect_policy _ _ _ _ He) as Hp. pose proof (effect_counters _ _ _ _ He) as [Ha Ht].
  destruct (step o l) as [[d|] l']; simpl in *.
  2:{ eapply decisions_from_mono; [done..|apply IH]. }
  destruct (effect_decision _ _ _ _ He) as (_ & Hd & Ha' & Ht' & _ & Hn & Hterm).
  destruct (IH l') as (Hs & Hl & H1 & H2). rewrite Hp in H1, H2. split_and!.
  - rewrite fmap_cons, Hd, <-Ha'. constructor; [done|]. constructor; [lia|].
    inversion Hs as [|? ? ? Hall]; subst. eapply Forall_impl; [done|]. simpl. lia.
  - intros [|d1 ds1] d' ds2 Heq Hne; simplify_eq/=; [|by eapply Hl].
    unfold nonterminal. destruct (d_terminal d') eqn:E; [|done].
    rewrite run_terminal in Hne by auto. done.
  - rewrite filter_cons. destruct (decide (nonterminal d)) as [Hnt|]; [|simpl in *; lia].
    destruct (Hn Hnt). simpl. lia.
  - rewrite filter_cons. destruct (decide (nonterminal d)) as [Hnt|]; [|simpl in *; lia].
    destruct (Hn Hnt). simpl. lia.
Qed.

(** ** Evidence for a retry *)

(** The sequence number of the observation that an evidence-dependent action
    retry consumed, when call [o] decided one. *)
Definition retry_sample (o : op) (l : RecoveryLedger) : option Z :=
  match o, (step o l).1 with
  | Verify v, Some d =>
      if bool_decide (d_action d = RecoveryAction.RETRY_ACTION) &&
         requires_fresh_evidence (policy l) && evidence_dependent v
      then sequence_no <$> evidence l else None
  | _, _ => None
  end.

Fixpoint retry_samples (ops : list op) (l : RecoveryLedger) : list Z :=
  match ops with
  | [] => []
  | o :: ops' => option_list (retry_sample o l) ++ retry_samples ops' (step o l).2
  end.

(** Both the watermark and the newest observation are at [b] or later. *)
Definition consumed_up_to (b : Z) (l : RecoveryLedger) : Prop :=
  b ≤ failed_sequence l ∧ ∃ e, evidence l = Some e ∧ b ≤ sequence_no e.

Lemma effect_consumed b l o d l' : effect l o d l' → consumed_up_to b l → consumed_up_to b l'.
Proof.
  intros H [Hf (e & He & Hb)]. destruct H as [|s Hs| | | |]; unfold consumed_up_to; simpl; try eauto.
  - split; [done|]. exists s. specialize (Hs e He). split; [done|lia].
  - unfold watermark; simpl. rewrite He. eauto.
Qed.

Lemma retry_sample_spec o l s :
  retry_sample o l = Some s →
  failed_sequence l < s ∧ consumed_up_to s (step o l).2 ∧
  ∃ e, evidence l = Some e ∧ sequence_no e = s ∧ fresh e = true ∧ provenance_valid e = true.
Proof.
  unfold retry_sample. destruct o as [| |v]; try done.
  pose proof (step_effect (Verify v) l) as H. revert H.
  generalize (step (Verify v) l).2 as l'. intros l' H.
  destruct (step (Verify v) l).1 as [d|]; [|done].
  destruct (_ && _ && _) eqn:Hb; [|done]. rewrite !andb_true_iff in Hb.
  destruct Hb as [[Ha%bool_decide_eq_true Hr] Hv].
  inversion H as [| | | | |v' at_ a d' _ _ _ Hd _ Hg]; subst.
  destruct Hd as (Hd & _). rewrite Ha in Hd. subst a.
  destruct (Hg eq_refl Hr Hv) as (e & He & Hf & Hp & Hs). simpl in He, Hs. rewrite He. intros [= <-].
  split_and!; [done| |by exists e].
  unfold consumed_up_to; simpl. unfold watermark; simpl. rewrite He. split; [done|by exists e].
Qed.

Lemma retry_samples_above b ops l :
  consumed_up_to b l → Forall (λ s, b < s) (retry_samples ops l).
Proof.
  revert l. induction ops as [|o ops IH]; intros l Hb; [constructor|]. simpl.
  apply Forall_app. split.
  - destruct (retry_sample o l) as [s|] eqn:E; constructor; [|constructor].
    apply retry_sample_spec in E as (? & _). destruct Hb. lia.
  - apply IH. eapply effect_consumed; [apply step_effect|done].
Qed.

Lemma retry_samples_sorted ops l : StronglySorted Z.lt (retry_samples ops l).
Proof.
  revert l. induction ops as [|o ops IH]; intros l; [constructor|]. simpl.
  destruct (retry_sample o l) as [s|] eqn:E; simpl; [|apply IH].
  constructor; [apply IH|]. apply retry_samples_above.
  by apply retry_sample_spec in E as (_ & ? & _).
Qed.

(** ** Evidence for a completion *)









Local Open Scope Z_scope.

(** ** Lemmas *)

Lemma bounded_int_Ok v lo hi n : _bounded_int v lo hi = Ok n → v = VInt n ∧ lo ≤ n ≤ hi.
Proof.
  unfold _bounded_int. intros H. destruct v; try done. destruct (_ && _) eqn:E; simplify_eq/=.
  split; [done|]. rewrite andb_true_iff in E. lia.
Qed.

(** What an accepted policy object satisfies. *)
Lemma parse_Ok payload p :
  parse payload = Ok p →
  (payload = VNone ∧ p = disabled) ∨
  (enabled p = true ∧ actions p ≠ [] ∧ 1 ≤ max_attempts p ≤ 10 ∧ 1 ≤ max_recovery_ticks p ≤ 100 ∧
   ∃ kvs, payload = VDict kvs ∧ unknown_keys POLICY_KEYS kvs = [] ∧
     (RecoveryAction.SAFE_STOP ∈ actions p →
      dict_get_or "allow_safe_stop" kvs (VBool true) = VBool true)).
Proof.
  unfold parse. intros H. destruct payload as [| | | | | | | | | |kvs|]; simplify_eq/=; [by left|right].
  destruct (unknown_keys POLICY_KEYS kvs) eqn:Hu; [|done].
  destruct (iter_items _) as [entries|]; [|done].
  destruct (parse_actions entries) as [[|a acts]|]; [done| |done].
  destruct (bool_decide _ && _) eqn:Hs; [done|].
  destruct (_bounded_int (dict_get_or "max_attempts" _ _) _ _) as [n1|] eqn:H1; [|done].
  destruct (_bounded_int (dict_get_or "max_recovery_ticks" _ _) _ _) as [n2|] eqn:H2; [|done].
  apply bounded_int_Ok in H1 as [_ H1], H2 as [_ H2].
  unfold MIN_MAX_ATTEMPTS, MAX_MAX_ATTEMPTS, MIN_MAX_TICKS, MAX_MAX_TICKS in *.
  destruct (dict_get_or "requires_fresh_evidence" _ _); simplify_eq/=.
  split_and!; try done; try lia. exists kvs. split_and!; [done..|]. intros Hin.
  rewrite bool_decide_eq_true_2 in Hs by done.
  by destruct (dict_get_or "allow_safe_stop" _ _) as [|[]| | | | | | | | | |].
Qed.

Lemma new_ledger_Ok p rid tid l :
  new_ledger p rid tid = Ok l →
  policy l = p ∧ attempt l = 0 ∧ ticks l = 0 ∧ state l = RecoveryState.IDLE ∧ evidence l = None.
Proof. unfold new_ledger, _non_blank. by destruct (non_blank rid), (non_blank tid); intros [= <-]. Qed.

(** All but the last decision being non-terminal leaves at most one terminal one. *)
Lemma decisions_length ds :
  (∀ ds1 d ds2, ds = ds1 ++ d :: ds2 → ds2 ≠ [] → nonterminal d) →
  (length ds ≤ length (filter nonterminal ds) + 1)%nat.
Proof.
  induction ds as [|d ds IH]; intros H; simpl; [lia|].
  rewrite filter_cons. destruct ds as [|d' ds]; [case_decide; simpl; lia|].
  rewrite decide_True by (by apply (H [] d (d' :: ds))).
  assert (length (d' :: ds) ≤ length (filter nonterminal (d' :: ds)) + 1)%nat; [|simpl in *; lia].
  apply IH. intros ds1 d1 ds2 Heq. apply (H (d :: ds1)). by rewrite Heq.
Qed.

(** ** A concrete ledger *)

Definition demo_policy : RecoveryPolicy := {|
  actions := [RecoveryAction.RETRY_OBSERVATION; RecoveryAction.RETRY_ACTION];
  max_attempts := 2; max_recovery_ticks := 30; requires_fresh_evidence := true; enabled := true;
  recovery_policy_version := POLICY_VERSION |}.

Definition demo_payload : pyval :=
  VDict [(VStr "allowed", VList [VStr "re_observe"; VStr "retry_action"]);
         (VStr "max_attempts", VInt 2)].

Definition demo_ledger : RecoveryLedger := {|
  policy := demo_policy; recovery_id := "r"; ledger_task_id := "t"; state := RecoveryState.IDLE;
  attempt := 0; ticks := 0; evidence := None; failed_at := ""; failed_sequence := -1;
  failed_frontier := -1; completed_by := None |}.


Definition stale_verification : verification_view := {|
  v_status := AEnum "VerificationStatus" "refuted"; v_verification_id := AStr "v1";
  v_evidence_refs := ARefs ["frame-0"]; v_verified_at := AStr "2026-01-01T00:00:01Z";
  v_recovery_hint := AEnum "RecoveryHint" "retry_action";
  v_reason_code := AEnum "ReasonCode" "stale_observation" |}.

Definition confirming : verification_view := {|
  v_status := AEnum "VerificationStatus" "confirmed"; v_verification_id := AStr "v2";
  v_evidence_refs := ARefs ["frame-1"]; v_verified_at := AStr "2026-01-01T00:00:02Z";
  v_recovery_hint := AEnum "RecoveryHint" "none"; v_reason_code := ANone |}.

(** ** Theorems *)

(** C10: recovery is finite: over any sequence of calls on a fresh ledger the
    decisions have strictly increasing attempt numbers, only the last can be
    terminal, at most [max_attempts] (and at most [max_recovery_ticks]) are not,
    so that there are at most [max_attempts + 1] of them. *)
Theorem recovery_is_bounded p rid tid l ops :
  new_ledger p rid tid = Ok l → 0 ≤ max_attempts p → 0 ≤ max_recovery_ticks p →
  let ds := (run ops l).1 in
  StronglySorted Z.lt (d_attempt <$> ds) ∧
  (∀ ds1 d ds2, ds = ds1 ++ d :: ds2 → ds2 ≠ [] → d_terminal d = false) ∧
  Z.of_nat (length (filter nonterminal ds)) ≤ max_attempts p ∧
  Z.of_nat (length (filter nonterminal ds)) ≤ max_recovery_ticks p ∧
  Z.of_nat (length ds) ≤ max_attempts p + 1.
Proof.
  intros (Hp & Ha & Ht & _)%new_ledger_Ok H1 H2 ds.
  destruct (run_decisions ops l) as (Hs & Hl & Hn1 & Hn2). rewrite Hp, Ha in Hn1. rewrite Hp, Ht in Hn2.
  pose proof (decisions_length _ Hl). inversion Hs; subst. unfold ds. split_and!; [done..|lia|lia|lia].
Qed.

Lemma recovery_is_bounded_witness :
  Z.of_nat (length (run (replicate 5 (Verify stale_verification)) demo_ledger).1) = 3 ∧
  Z.of_nat (length (run (replicate 5 (Verify stale_verification)) demo_ledger).1) ≤ 2 + 1.
Proof.
  split; [by vm_compute|].
  apply (recovery_is_bounded demo_policy "r" "t" demo_ledger (replicate 5 (Verify stale_verification)));
    [by vm_compute|done|done].
Defined.

(** The evidence gate on action retries: when the policy requires fresh
    evidence and the reason names an evidence problem, an action retry is
    decided only on a fresh, provenance-valid observation newer than the
    watermark, and over any sequence of calls each such retry consumes a
    strictly newer observation. *)
Theorem retries_consume_new_evidence :
  (∀ v l d, (step (Verify v) l).1 = Some d → d_action d = RecoveryAction.RETRY_ACTION →
     requires_fresh_evidence (policy l) = true → evidence_dependent v = true →
     ∃ e, evidence l = Some e ∧ fresh e = true ∧ provenance_valid e = true ∧
          failed_sequence l < sequence_no e ∧ retry_sample (Verify v) l = Some (sequence_no e)) ∧
  (∀ ops l, StronglySorted Z.lt (retry_samples ops l)).
Proof.
  split; [|apply retry_samples_sorted]. intros v l d Hd Ha Hr Hv.
  pose proof (step_effect (Verify v) l) as H. unfold retry_sample. rewrite Hd in H |- *.
  rewrite bool_decide_eq_true_2, Hr, Hv by done. simpl.
  inversion H as [| | | | |v' at_ a d' _ _ _ Hdec _ Hg]; subst.
  destruct Hdec as (Hd' & _). rewrite Ha in Hd'. subst a.
  destruct (Hg eq_refl Hr Hv) as (e & He & Hf & Hp & Hs). simpl in He, Hs.
  exists e. by rewrite He.
Qed.



(** Terminal states are absorbing: a stopped or aborted ledger, and equally
    a completed one, stays in its state and returns no decision whatever is
    called on it; in particular no call returns a completed ledger to IDLE. *)
Theorem terminal_states_are_absorbing ops l :
  state l ∈ [RecoveryState.STOPPING; RecoveryState.ABORTED; RecoveryState.COMPLETE] →
  state (run ops l).2 = state l ∧ (run ops l).1 = [].
Proof.
  revert l. induction ops as [|o ops IH]; intros l Hs; [done|]. rewrite run_cons.
  assert (state (step o l).2 = state l ∧ (step o l).1 = None) as [Hs' ->].
  { destruct (decide (state l = RecoveryState.COMPLETE)) as [Hc|Hc].
    - rewrite Hc. by apply (complete_absorbing l o _ _ (step_effect o l)).
    - apply (terminal_absorbing l o _ _ (step_effect o l)). apply bool_decide_eq_true. set_solver. }
  simpl. rewrite <-Hs'. apply IH. by rewrite Hs'.
Qed.

Lemma terminal_states_are_absorbing_witness :
  let l := (step (Verify confirming) demo_ledger).2 in
  state (run [Verify stale_verification; Verify stale_verification] l).2 = RecoveryState.COMPLETE.
Proof.
  intros l. transitivity (state l); [|by vm_compute].
  apply (terminal_states_are_absorbing [Verify stale_verification; Verify stale_verification] l).
  vm_compute. repeat constructor.
Defined.

(** What [RecoveryPolicy.parse] accepts: [None] gives the disabled policy;
    anything else is an object without unknown keys that allows at least one
    known action, with between 1 and 10 attempts and 1 and 100 ticks, and with
    [allow_safe_stop] not withdrawn when it allows [safe_stop]. *)
Theorem parsed_policies_are_bounded payload p :
  parse payload = Ok p →
  (payload = VNone ∧ p = disabled) ∨
  (enabled p = true ∧ actions p ≠ [] ∧ 1 ≤ max_attempts p ≤ 10 ∧ 1 ≤ max_recovery_ticks p ≤ 100 ∧
   ∃ kvs, payload = VDict kvs ∧ unknown_keys POLICY_KEYS kvs = [] ∧
     (RecoveryAction.SAFE_STOP ∈ actions p →
      dict_get_or "allow_safe_stop" kvs (VBool true) = VBool true)).
Proof. apply parse_Ok. Qed.

Lemma parsed_policies_are_bounded_witness :
  parse demo_payload = Ok demo_policy ∧ 1 ≤ max_attempts demo_policy ≤ 10.
Proof.
  assert (parse demo_payload = Ok demo_policy) as H by by vm_compute. split; [done|].
  destruct (parsed_policies_are_bounded _ _ H) as [[H' _]|(_ & _ & Hb & _)]; [discriminate|exact Hb].
Defined.

(** A disabled policy never decides anything, and a runtime-owned action is
    never acknowledged by anyone but the trusted runtime: the call raises and
    the ledger is unchanged. *)
Theorem disabled_and_unauthorized_do_nothing l :
  (∀ ops, enabled (policy l) = false → (run ops l).1 = []) ∧
  (∀ a who, a ∈ RUNTIME_OWNED_ACTIONS → who ≠ RUNTIME_AUTHORITY →
     acknowledge_runtime_action (Some a) who l =
       (Raise (RecoveryPolicyError RECOVERY_POLICY_RUNTIME_OWNED_ACTION), l)).
Proof.
  split.
  - intros ops. revert l. induction ops as [|o ops IH]; intros l He; [done|]. rewrite run_cons. simpl.
    pose proof (step_effect o l) as H. pose proof (effect_policy _ _ _ _ H) as Hp.
    destruct (step o l).1 as [d|]; [|apply IH; by rewrite Hp].
    apply effect_decision in H as (He2 & _). congruence.
  - intros a who Ha Hw. unfold acknowledge_runtime_action.
    rewrite bool_decide_eq_true_2 by done. apply String.eqb_neq in Hw. by rewrite Hw.
Qed.
