(* ===== verification/PostAction.v ===== *)
(** * Post-action gate

    [post_action.py]: each step is dispatched in isolation through the
    execution controller, and a physical, state-changing action is confirmed
    only by a verification made after a fresh observation that answers it.  The
    observer and the world-model verifier are parameters; while either runs it
    may queue a STOP, cancel the loop or note a restart.  The diagnostic texts
    ([details]) are not modelled; the graph argument of [run] is a value, which
    the caller does not change during the call. *)

From Stdlib Require Import ZArith Ascii.
From S2P Require Import Prelude PyVal DateTime Contracts Policy TaskStructure ExecutionController.
Local Open Scope prog_scope.

Module GateOutcome.
Inductive t : Type :=
| CONFIRMED | REFUTED | INSUFFICIENT_EVIDENCE | STOPPED | NOT_APPLICABLE.
#[global] Instance eq_dec : EqDecision t.
Proof. solve_decision. Defined.
#[global] Instance enum : StrEnum t := {|
  value x := match x with
    | CONFIRMED => "confirmed"
    | REFUTED => "refuted"
    | INSUFFICIENT_EVIDENCE => "insufficient_evidence"
    | STOPPED => "stopped"
    | NOT_APPLICABLE => "not_applicable"
    end;
  members := [CONFIRMED; REFUTED; INSUFFICIENT_EVIDENCE; STOPPED; NOT_APPLICABLE]
|}.
#[global] Instance laws : StrEnumLaws t.
Proof. solve_enum_laws. Qed.
End GateOutcome.

Module GateReasonCode.
Inductive t : Type :=
| POST_ACTION_CONFIRMED | NOT_A_STATE_CHANGING_ACTION | DEPENDENCY_BLOCKED
| NOT_EXECUTED | ACTION_NOT_COMPLETED | ACTION_STOPPED | STOP_DISPATCHED | CANCELLED
| RESTART_INVALIDATED_RUN | DUPLICATE_DELIVERY | OBSERVATION_MISSING
| OBSERVATION_TIMEOUT | PERCEPTION_FAILURE | OBSERVATION_STALE | OBSERVATION_WRONG_RUN
| OBSERVATION_WRONG_ACTION | OBSERVATION_WRONG_ENTITY | OBSERVATION_CLOCK_MISMATCH
| OBSERVATION_UNREADABLE_TIME | VERIFIER_FAILED | VERIFICATION_REFUTED
| VERIFICATION_INSUFFICIENT.
#[global] Instance eq_dec : EqDecision t.
Proof. solve_decision. Defined.
#[global] Instance enum : StrEnum t := {|
  value x := match x with
    | POST_ACTION_CONFIRMED => "post_action_confirmed"
    | NOT_A_STATE_CHANGING_ACTION => "not_a_state_changing_action"
    | DEPENDENCY_BLOCKED => "dependency_blocked"
    | NOT_EXECUTED => "not_executed"
    | ACTION_NOT_COMPLETED => "action_not_completed"
    | ACTION_STOPPED => "action_stopped"
    | STOP_DISPATCHED => "stop_dispatched"
    | CANCELLED => "cancelled"
    | RESTART_INVALIDATED_RUN => "restart_invalidated_run"
    | DUPLICATE_DELIVERY => "duplicate_delivery"
    | OBSERVATION_MISSING => "observation_missing"
    | OBSERVATION_TIMEOUT => "observation_timeout"
    | PERCEPTION_FAILURE => "perception_failure"
    | OBSERVATION_STALE => "observation_stale"
    | OBSERVATION_WRONG_RUN => "observation_wrong_run"
    | OBSERVATION_WRONG_ACTION => "observation_wrong_action"
    | OBSERVATION_WRONG_ENTITY => "observation_wrong_entity"
    | OBSERVATION_CLOCK_MISMATCH => "observation_clock_mismatch"
    | OBSERVATION_UNREADABLE_TIME => "observation_unreadable_time"
    | VERIFIER_FAILED => "verifier_failed"
    | VERIFICATION_REFUTED => "verification_refuted"
    | VERIFICATION_INSUFFICIENT => "verification_insufficient"
    end;
  members := [POST_ACTION_CONFIRMED; NOT_A_STATE_CHANGING_ACTION; DEPENDENCY_BLOCKED; NOT_EXECUTED; ACTION_NOT_COMPLETED; ACTION_STOPPED; STOP_DISPATCHED; CANCELLED; RESTART_INVALIDATED_RUN; DUPLICATE_DELIVERY; OBSERVATION_MISSING; OBSERVATION_TIMEOUT; PERCEPTION_FAILURE; OBSERVATION_STALE; OBSERVATION_WRONG_RUN; OBSERVATION_WRONG_ACTION; OBSERVATION_WRONG_ENTITY; OBSERVATION_CLOCK_MISMATCH; OBSERVATION_UNREADABLE_TIME; VERIFIER_FAILED; VERIFICATION_REFUTED; VERIFICATION_INSUFFICIENT]
|}.
#[global] Instance laws : StrEnumLaws t.
Proof. solve_enum_laws. Qed.
End GateReasonCode.

Module ObservationAttemptOutcome.
Inductive t : Type :=
| OBSERVED | MISSING | TIMEOUT | PERCEPTION_FAILURE.
#[global] Instance eq_dec : EqDecision t.
Proof. solve_decision. Defined.
#[global] Instance enum : StrEnum t := {|
  value x := match x with
    | OBSERVED => "observed"
    | MISSING => "missing"
    | TIMEOUT => "timeout"
    | PERCEPTION_FAILURE => "perception_failure"
    end;
  members := [OBSERVED; MISSING; TIMEOUT; PERCEPTION_FAILURE]
|}.
#[global] Instance laws : StrEnumLaws t.
Proof. solve_enum_laws. Qed.
End ObservationAttemptOutcome.

(** [STATE_CHANGING_ACTIONS] *)
Definition STATE_CHANGING_ACTIONS : list ActionType.t :=
  [ActionType.GRASP; ActionType.PLACE; ActionType.NAVIGATE; ActionType.OPEN; ActionType.CLOSE].

Definition MAX_OBSERVATION_ATTEMPTS : Z := 8.

(** ** Observations *)

(** The fields of an [Observation] that identify it. *)
Record Observation := {
  o_observation_id : string;
  o_run_id : string;
  o_entity_id : string;
  o_entity_type : string;
  o_observed_at : string;
  o_clock_id : ClockId.t;
  o_source : string;
  o_evidence_refs : list string
}.

Record ObservationSample := {
  sample_action_id : string;
  sample_observation : Observation
}.

Inductive gate_exn : Type :=
| PostActionError
| ControllerRaised (e : exn)
| PortRaised.

(** [ObservationSample.__post_init__] on a string and an [Observation] *)
Definition make_sample (aid : string) (o : Observation) : outcome gate_exn ObservationSample :=
  if non_blank aid then Ok {| sample_action_id := aid; sample_observation := o |}
  else Raise PostActionError.

Record ObservationAttempt := {
  attempt_outcome : ObservationAttemptOutcome.t;
  attempt_sample : option ObservationSample
}.

(** [ObservationAttempt.__post_init__] *)
Definition make_attempt (k : ObservationAttemptOutcome.t) (s : option ObservationSample)
    : outcome gate_exn ObservationAttempt :=
  match k, s with
  | ObservationAttemptOutcome.OBSERVED, None => Raise PostActionError
  | ObservationAttemptOutcome.OBSERVED, Some _ | _, None =>
      Ok {| attempt_outcome := k; attempt_sample := s |}
  | _, Some _ => Raise PostActionError
  end.

(** [ObservationAttempt.retryable] *)
Definition retryable (a : ObservationAttempt) : bool :=
  negb (bool_decide (attempt_outcome a = ObservationAttemptOutcome.OBSERVED)).

(** [PostActionPolicy.__post_init__] *)
Definition make_policy (v : pyval) : outcome gate_exn nat :=
  match v with
  | VInt n => if ((1 <=? n) && (n <=? MAX_OBSERVATION_ATTEMPTS))%Z then Ok (Z.to_nat n)
              else Raise PostActionError
  | _ => Raise PostActionError
  end.

(** ** Reports *)

Record StepGateReport := {
  gate_step_id : string;
  gate_action_id : string;
  gate_action_type : ActionType.t;
  gate_outcome : GateOutcome.t;
  gate_reason : GateReasonCode.t;
  execution : option StepExecutionRecord;
  observations : list Observation;
  verification : option VerificationResult;
  attempts : nat
}.

(** [StepGateReport.confirmed] and [.allows_dependents] *)
Definition confirmed (r : StepGateReport) : bool := bool_decide (gate_outcome r = GateOutcome.CONFIRMED).
Definition allows_dependents (r : StepGateReport) : bool :=
  bool_decide (gate_outcome r = GateOutcome.CONFIRMED).

Record PostActionReport := {
  run_run_id : string;
  run_task_id : string;
  run_terminal : GateOutcome.t;
  run_reason : GateReasonCode.t;
  gate_steps : list StepGateReport
}.

(** [PostActionReport.may_advance] and [.step] *)
Definition may_advance (r : PostActionReport) : bool :=
  bool_decide (run_terminal r = GateOutcome.CONFIRMED).
Definition report_step (r : PostActionReport) (sid : string) : option StepGateReport :=
  head (filter (λ s, gate_step_id s = sid) (gate_steps r)).

(** ** Times *)

(** [text[:-1] + "+00:00"] when the text ends in Z *)
Definition expand_z (s : string) : string :=
  match String.rev s with
  | String.String "Z"%char s' => String.rev s' +:+ "+00:00"
  | _ => s
  end.

(** [_parse_instant]: a naive time is read as UTC. *)
Definition _parse_instant (s : string) : option datetime :=
  if non_blank s then
    match fromisoformat (expand_z (strip s)) with
    | Some d => Some {| local_us := local_us d; utcoffset := Some (default 0%Z (utcoffset d)) |}
    | None => None
    end
  else None.

(** [_completion_instant] *)
Definition _completion_instant (r : option ActionResult) : option datetime :=
  match r with Some r => _parse_instant (ended_at r) | None => None end.

(** [_expected_entity] *)
Definition _expected_entity (st : TaskStep) : option string :=
  match target_id (action st) with
  | Some t => if non_blank t then Some t else None
  | None => None
  end.

(** [_correlation_defect] *)
Definition _correlation_defect (st : TaskStep) (s : ObservationSample) (run_id : string)
    (not_before : option datetime) : option GateReasonCode.t :=
  let o := sample_observation s in
  if decide (sample_action_id s ≠ action_id (action st))
  then Some GateReasonCode.OBSERVATION_WRONG_ACTION
  else if decide (o_run_id o ≠ run_id) then Some GateReasonCode.OBSERVATION_WRONG_RUN
  else
    let wrong_entity :=
      match _expected_entity st with Some e => bool_decide (o_entity_id o ≠ e) | None => false end in
    if wrong_entity then Some GateReasonCode.OBSERVATION_WRONG_ENTITY
    else
      match not_before with
      | None => Some GateReasonCode.OBSERVATION_UNREADABLE_TIME
      | Some completion =>
          match _parse_instant (o_observed_at o) with
          | None => Some GateReasonCode.OBSERVATION_UNREADABLE_TIME
          | Some observed =>
              if decide (utcoffset completion ≠ utcoffset observed)
              then Some GateReasonCode.OBSERVATION_CLOCK_MISMATCH
              else if (instant observed <=? instant completion)%Z
              then Some GateReasonCode.OBSERVATION_STALE
              else None
          end
      end.

(** ** Ports *)

Inductive observe_result : Type :=
| ObsAttempt (a : ObservationAttempt)
| ObsRaised.

Inductive reduce_result (W : Type) : Type :=
| RedState (w : W)
| RedRaised.
Arguments RedState {W} w.
Arguments RedRaised {W}.

Inductive verify_result : Type :=
| VerResult (v : VerificationResult)
| VerForeign (ty : string)
| VerRaised.

(** A port runs: it may call back the loop before it ends with a result. *)
Inductive gate_run (R : Type) : Type :=
| GDone (r : R)
| GStop (a : pyobj SemanticAction) (k : StopRequestStatus.t → gate_run R)
| GCancel (reason : string) (k : gate_run R)
| GRestart (run_id : string) (k : gate_run R).
Arguments GDone {R} r.
Arguments GStop {R} a k.
Arguments GCancel {R} reason k.
Arguments GRestart {R} run_id k.

(** The completed port calls of a loop, oldest first. *)
Inductive gate_event : Type :=
| Observed (aid : string) (not_before : option datetime) (r : observe_result)
| Reduced (obs : list Observation) (run_id : string)
| Verified (aid : string) (r : verify_result).

(** The observer and the verifier; [W] is the state [reduce] hands to [verify].
    Each call may depend on the calls before it. *)
Record GatePorts (W : Type) := {
  observe : list gate_event → string → string → option string → option datetime →
            gate_run observe_result;
  reduce : list gate_event → list Observation → string → gate_run (reduce_result W);
  verify : list gate_event → W → string → string → gate_run verify_result
}.
Arguments observe {W} _.
Arguments reduce {W} _.
Arguments verify {W} _.

(** ** The loop object *)

Record PostActionLoop := {
  controller : Controller;
  gate_concluded : gset string;
  cancelled : bool;
  cancel_reason : string;
  restarted_runs : gset string;
  gate_log : list gate_event
}.

Definition new_loop (c : Controller) : PostActionLoop := {|
  controller := c; gate_concluded := ∅; cancelled := false; cancel_reason := "";
  restarted_runs := ∅; gate_log := []
|}.

Definition set_controller (c : Controller) (l : PostActionLoop) : PostActionLoop := {|
  controller := c; gate_concluded := gate_concluded l; cancelled := cancelled l;
  cancel_reason := cancel_reason l; restarted_runs := restarted_runs l; gate_log := gate_log l |}.

Definition conclude (aid : string) (l : PostActionLoop) : PostActionLoop := {|
  controller := controller l; gate_concluded := {[aid]} ∪ gate_concluded l;
  cancelled := cancelled l; cancel_reason := cancel_reason l;
  restarted_runs := restarted_runs l; gate_log := gate_log l |}.

Definition set_cancelled (why : string) (l : PostActionLoop) : PostActionLoop := {|
  controller := controller l; gate_concluded := gate_concluded l; cancelled := true;
  cancel_reason := why; restarted_runs := restarted_runs l; gate_log := gate_log l |}.

Definition add_restart (run_id : string) (l : PostActionLoop) : PostActionLoop := {|
  controller := controller l; gate_concluded := gate_concluded l; cancelled := cancelled l;
  cancel_reason := cancel_reason l; restarted_runs := {[run_id]} ∪ restarted_runs l;
  gate_log := gate_log l |}.

Definition note_event (e : gate_event) (l : PostActionLoop) : PostActionLoop := {|
  controller := controller l; gate_concluded := gate_concluded l; cancelled := cancelled l;
  cancel_reason := cancel_reason l; restarted_runs := restarted_runs l;
  gate_log := gate_log l ++ [e] |}.

Abbreviation gate := (prog PostActionLoop gate_exn).

(** A controller call made by the loop. *)
Definition on_controller {A} (m : ctl A) : gate A := λ l,
  match m (controller l) with
  | (Ok a, c) => (Ok a, set_controller c l)
  | (Raise e, c) => (Raise (ControllerRaised e), set_controller c l)
  end.

(** [PostActionLoop.request_stop] *)
Definition loop_request_stop (a : pyobj SemanticAction) : gate StopRequestStatus.t :=
  on_controller (request_stop a).

(** [cancel] *)
Definition cancel (why : string) : gate () :=
  if non_blank why then modify (set_cancelled why) else raise PostActionError.

(** [note_restart] *)
Definition note_restart (run_id : string) : gate () :=
  if non_blank run_id then modify (add_restart run_id) else raise PostActionError.

(** Runs a port; a callback that raises is the port's to handle. *)
Fixpoint run_gate {R} (e : gate_run R) : gate R :=
  match e with
  | GDone r => ret r
  | GStop a k => s <- loop_request_stop a ;; run_gate (k s)
  | GCancel why k => modify (λ l, (cancel why l).2) ;;; run_gate k
  | GRestart run_id k => modify (λ l, (note_restart run_id l).2) ;;; run_gate k
  end.

Section Loop.
Context {W : Type} (ports : Ports) (gports : GatePorts W) (max_observation_attempts : nat).

(** [_skipped] *)
Definition _skipped (st : TaskStep) (why : GateReasonCode.t) : StepGateReport := {|
  gate_step_id := step_id st; gate_action_id := action_id (action st);
  gate_action_type := action_type (action st); gate_outcome := GateOutcome.INSUFFICIENT_EVIDENCE;
  gate_reason := why; execution := None; observations := []; verification := None; attempts := 0 |}.

(** [_dispatch]: the step on its own, without its dependencies. *)
Definition isolated (st : TaskStep) : TaskStep :=
  {| step_id := step_id st; action := action st; depends_on := [] |}.

Definition _dispatch (g : TaskGraph) (st : TaskStep) (confirmed_ids : pyval)
    : gate (option StepExecutionRecord * ExecutionReasonCode.t) :=
  report <- on_controller (execute ports (Inst (_single_step_graph g (isolated st))) confirmed_ids) ;;
  ret (head (filter (λ rec, record_action_id rec = action_id (action st)) (records report)),
       report_reason report).

(** [_verify]: [None] stands for any failure of the verifier. *)
Definition _verify (obs : list Observation) (run_id : string) (st : TaskStep)
    : gate (option VerificationResult) :=
  l <- get ;;
  red <- run_gate (reduce gports (gate_log l) obs run_id) ;;
  match red with
  | RedRaised => ret None
  | RedState w =>
      modify (note_event (Reduced obs run_id)) ;;;
      l <- get ;;
      res <- run_gate (verify gports (gate_log l) w run_id (action_id (action st))) ;;
      modify (note_event (Verified (action_id (action st)) res)) ;;;
      match res with
      | VerResult v => ret (Some v)
      | VerForeign _ | VerRaised => ret None
      end
  end.

Definition gate_report (st : TaskStep) (k : GateOutcome.t) (why : GateReasonCode.t)
    (rec : option StepExecutionRecord) (obs : list Observation) (v : option VerificationResult)
    (n : nat) : StepGateReport := {|
  gate_step_id := step_id st; gate_action_id := action_id (action st);
  gate_action_type := action_type (action st); gate_outcome := k; gate_reason := why;
  execution := rec; observations := obs; verification := v; attempts := n |}.

(** The [while] loop of [_observe_reduce_verify]: [fuel] is the number of
    attempts that the budget still allows after [n] of them. *)
Fixpoint observe_loop (fuel n : nat) (st : TaskStep) (rec : StepExecutionRecord) (run_id : string)
    (not_before : option datetime) (accepted : list Observation) (failure : option GateReasonCode.t)
    : gate StepGateReport :=
  match fuel with
  | O => ret (gate_report st GateOutcome.INSUFFICIENT_EVIDENCE
                (default GateReasonCode.VERIFICATION_INSUFFICIENT failure)
                (Some rec) accepted None n)
  | S fuel' =>
      let n := S n in
      let again why := observe_loop fuel' n st rec run_id not_before accepted (Some why) in
      let aid := action_id (action st) in
      l <- get ;;
      res <- run_gate (observe gports (gate_log l) run_id aid (_expected_entity st) not_before) ;;
      modify (note_event (Observed aid not_before res)) ;;;
      match res with
      | ObsRaised => raise PortRaised
      | ObsAttempt a =>
          match attempt_outcome a with
          | ObservationAttemptOutcome.MISSING => again GateReasonCode.OBSERVATION_MISSING
          | ObservationAttemptOutcome.TIMEOUT => again GateReasonCode.OBSERVATION_TIMEOUT
          | ObservationAttemptOutcome.PERCEPTION_FAILURE => again GateReasonCode.PERCEPTION_FAILURE
          | ObservationAttemptOutcome.OBSERVED =>
              match attempt_sample a with
              | None => again GateReasonCode.OBSERVATION_MISSING
              | Some s =>
                  match _correlation_defect st s run_id not_before with
                  | Some defect =>
                      ret (gate_report st GateOutcome.INSUFFICIENT_EVIDENCE defect
                             (Some rec) accepted None n)
                  | None =>
                      let accepted := accepted ++ [sample_observation s] in
                      v <- _verify accepted run_id st ;;
                      match v with
                      | None => ret (gate_report st GateOutcome.INSUFFICIENT_EVIDENCE
                                       GateReasonCode.VERIFIER_FAILED (Some rec) accepted None n)
                      | Some v =>
                          match status v with
                          | VerificationStatus.CONFIRMED =>
                              ret (gate_report st GateOutcome.CONFIRMED
                                     GateReasonCode.POST_ACTION_CONFIRMED (Some rec) accepted (Some v) n)
                          | VerificationStatus.REFUTED =>
                              ret (gate_report st GateOutcome.REFUTED
                                     GateReasonCode.VERIFICATION_REFUTED (Some rec) accepted (Some v) n)
                          | _ => observe_loop fuel' n st rec run_id not_before accepted
                                   (Some GateReasonCode.VERIFICATION_INSUFFICIENT)
                          end
                      end
                  end
              end
          end
      end
  end.

(** [_observe_reduce_verify] *)
Definition _observe_reduce_verify (st : TaskStep) (rec : StepExecutionRecord) (run_id : string)
    : gate StepGateReport :=
  observe_loop max_observation_attempts 0 st rec run_id (_completion_instant (result rec)) [] None.

(** [run_step], after the dispatch. *)
Definition gate_execution (st : TaskStep) (run_id : string) (rec : option StepExecutionRecord)
    (why : ExecutionReasonCode.t) : gate StepGateReport :=
  match rec with
  | None =>
      if decide (why = ExecutionReasonCode.STOP_DISPATCHED)
      then ret (gate_report st GateOutcome.STOPPED GateReasonCode.STOP_DISPATCHED None [] None 0)
      else ret (gate_report st GateOutcome.INSUFFICIENT_EVIDENCE GateReasonCode.ACTION_NOT_COMPLETED
                  None [] None 0)
  | Some rec =>
      let terminal_state := last (transitions rec) in
      if decide (action_type (action st) = ActionType.STOP ∨ why = ExecutionReasonCode.STOP_DISPATCHED)
      then ret (gate_report st GateOutcome.STOPPED GateReasonCode.STOP_DISPATCHED (Some rec) [] None 0)
      else if decide (why = ExecutionReasonCode.DUPLICATE_ACTION)
      then ret (gate_report st GateOutcome.INSUFFICIENT_EVIDENCE GateReasonCode.DUPLICATE_DELIVERY
                  (Some rec) [] None 0)
      else if decide (terminal_state = Some ExecutionState.STOPPED ∨
                      why = ExecutionReasonCode.ACTION_STOPPED)
      then ret (gate_report st GateOutcome.STOPPED GateReasonCode.ACTION_STOPPED (Some rec) [] None 0)
      else if decide (terminal_state ≠ Some ExecutionState.SUCCEEDED)
      then ret (gate_report st GateOutcome.INSUFFICIENT_EVIDENCE GateReasonCode.ACTION_NOT_COMPLETED
                  (Some rec) [] None 0)
      else if decide (action_type (action st) ∉ STATE_CHANGING_ACTIONS)
      then ret (gate_report st GateOutcome.NOT_APPLICABLE GateReasonCode.NOT_A_STATE_CHANGING_ACTION
                  (Some rec) [] None 0)
      else _observe_reduce_verify st rec run_id
  end.

(** [run_step] *)
Definition run_step (g : TaskGraph) (st : TaskStep) (run_id : string) (confirmed_ids : pyval)
    : gate StepGateReport :=
  l <- get ;;
  if cancelled l then ret (_skipped st GateReasonCode.CANCELLED)
  else if decide (run_id ∈ restarted_runs l)
  then ret (_skipped st GateReasonCode.RESTART_INVALIDATED_RUN)
  else if decide (action_id (action st) ∈ gate_concluded l)
  then ret (_skipped st GateReasonCode.DUPLICATE_DELIVERY)
  else
    out <- _dispatch g st confirmed_ids ;;
    modify (conclude (action_id (action st))) ;;;
    gate_execution st run_id out.1 out.2.

(** ** [run] *)

(** The local variables of [run]'s loop. *)
Record run_state := {
  reports : list StepGateReport;
  confirmed_step_ids : list string;
  blocked_step_ids : list string;
  terminal : GateOutcome.t;
  terminal_reason : GateReasonCode.t;
  stopped : bool
}.

Definition run_start : run_state := {|
  reports := []; confirmed_step_ids := []; blocked_step_ids := [];
  terminal := GateOutcome.CONFIRMED; terminal_reason := GateReasonCode.POST_ACTION_CONFIRMED;
  stopped := false |}.

Definition blocked_by (st : TaskStep) (rs : run_state) : list string :=
  filter (λ d, d ∈ blocked_step_ids rs ∨ d ∉ confirmed_step_ids rs) (depends_on st).

Definition after_block (st : TaskStep) (rs : run_state) : run_state := {|
  reports := reports rs ++ [_skipped st GateReasonCode.DEPENDENCY_BLOCKED];
  confirmed_step_ids := confirmed_step_ids rs;
  blocked_step_ids := step_id st :: blocked_step_ids rs;
  terminal := if stopped rs then terminal rs else GateOutcome.INSUFFICIENT_EVIDENCE;
  terminal_reason := if stopped rs then terminal_reason rs else GateReasonCode.DEPENDENCY_BLOCKED;
  stopped := stopped rs |}.

Definition after_skip (st : TaskStep) (rs : run_state) : run_state := {|
  reports := reports rs ++ [_skipped st GateReasonCode.NOT_EXECUTED];
  confirmed_step_ids := confirmed_step_ids rs; blocked_step_ids := blocked_step_ids rs;
  terminal := terminal rs; terminal_reason := terminal_reason rs; stopped := stopped rs |}.

Definition after_step (st : TaskStep) (r : StepGateReport) (rs : run_state) : run_state :=
  if decide (gate_outcome r = GateOutcome.CONFIRMED ∨ gate_outcome r = GateOutcome.NOT_APPLICABLE)
  then {| reports := reports rs ++ [r];
          confirmed_step_ids := step_id st :: confirmed_step_ids rs;
          blocked_step_ids := blocked_step_ids rs; terminal := terminal rs;
          terminal_reason := terminal_reason rs; stopped := stopped rs |}
  else {| reports := reports rs ++ [r]; confirmed_step_ids := confirmed_step_ids rs;
          blocked_step_ids := step_id st :: blocked_step_ids rs;
          terminal := match gate_outcome r with
                      | GateOutcome.REFUTED => GateOutcome.REFUTED
                      | GateOutcome.STOPPED => GateOutcome.STOPPED
                      | _ => GateOutcome.INSUFFICIENT_EVIDENCE
                      end;
          terminal_reason := gate_reason r; stopped := true |}.

Fixpoint run_steps (g : TaskGraph) (run_id : string) (confirmed_ids : pyval)
    (sts : list TaskStep) (rs : run_state) : gate run_state :=
  match sts with
  | [] => ret rs
  | st :: sts' =>
      match blocked_by st rs with
      | _ :: _ => run_steps g run_id confirmed_ids sts' (after_block st rs)
      | [] =>
          if stopped rs then run_steps g run_id confirmed_ids sts' (after_skip st rs)
          else
            r <- run_step g st run_id confirmed_ids ;;
            run_steps g run_id confirmed_ids sts' (after_step st r rs)
      end
  end.

(** [run]; [None] is an argument that is not a [TaskGraph]. *)
Definition run (graph : option TaskGraph) (run_id : string) (confirmed_ids : pyval)
    : gate PostActionReport :=
  match graph with
  | None => raise PostActionError
  | Some g =>
      if non_blank run_id then
        rs <- run_steps g run_id confirmed_ids (steps g) run_start ;;
        ret (match reports rs with
             | [] => {| run_run_id := run_id; run_task_id := task_id g;
                        run_terminal := GateOutcome.NOT_APPLICABLE;
                        run_reason := GateReasonCode.NOT_EXECUTED; gate_steps := [] |}
             | rpts => {| run_run_id := run_id; run_task_id := task_id g;
                          run_terminal := terminal rs; run_reason := terminal_reason rs;
                          gate_steps := rpts |}
             end)
      else raise PostActionError
  end.

End Loop.
