(* ===== verification/PostActionTheorems.v ===== *)
(** * Post-action gate: the theorems

    What a confirmation rests on, the observation budget, the release of
    dependent steps, and what cancellation and a failed STOP do, after the lemmas
    about the observation loop that they rest on. *)

From Stdlib Require Import ZArith Ascii.
From S2P Require Import Prelude PyVal DateTime Contracts Policy TaskStructure ExecutionController ExecutionProofs ExecutionTheorems PostAction.
(** ** Port calls *)

Lemma on_controller_request_stop a l :
  ∃ s c', on_controller (request_stop a) l = (Ok s, set_controller c' l) ∧
          c' = (request_stop a (controller l)).2.
Proof.
  unfold on_controller. destruct (request_stop_ok a (controller l)) as (s & c' & ->). by exists s, c'.
Qed.

(** Callbacks change neither the log nor the concluded actions; the controller
    moves only by STOP requests. *)
Lemma run_gate_ok {R} ports (e : gate_run R) l :
  reachable ports (controller l) →
  ∃ r l', run_gate e l = (Ok r, l') ∧ gate_log l' = gate_log l ∧
          gate_concluded l' = gate_concluded l ∧ reachable ports (controller l') ∧
          adapter_calls (controller l') = adapter_calls (controller l).
Proof.
  revert l. induction e as [r|a k IH|why k IH|rid k IH]; intros l Hr; simpl.
  - by exists r, l.
  - unfold bind, loop_request_stop.
    destruct (on_controller_request_stop a l) as (s & c' & -> & Hc).
    destruct (IH s (set_controller c' l)) as (r & l' & -> & ? & ? & ? & Hcalls); simpl.
    { subst c'. eapply rtc_r; [done|]. apply session_stop. }
    exists r, l'. split_and!; try done. rewrite Hcalls. simpl. subst c'.
    apply request_stop_calls.
  - unfold bind, modify. destruct (IH (cancel why l).2) as (r & l' & Hrun & ? & ? & ? & ?);
      [by unfold cancel; destruct (non_blank why)|].
    exists r, l'. unfold cancel in *. by destruct (non_blank why).
  - unfold bind, modify. destruct (IH (note_restart rid l).2) as (r & l' & Hrun & ? & ? & ? & ?);
      [by unfold note_restart; destruct (non_blank rid)|].
    exists r, l'. unfold note_restart in *. by destruct (non_blank rid).
Qed.

(** Observation requests in a log. *)
Definition is_observed (e : gate_event) : bool := match e with Observed _ _ _ => true | _ => false end.
Definition observed_count (log : list gate_event) : nat := length (List.filter is_observed log).

Lemma observed_count_app a b : observed_count (a ++ b) = observed_count a + observed_count b.
Proof. unfold observed_count. by rewrite List.filter_app, length_app. Qed.

(** What both gate operations keep besides their log. *)
Definition gate_frame (ports : Ports) (l l' : PostActionLoop) : Prop :=
  gate_concluded l' = gate_concluded l ∧ reachable ports (controller l') ∧
  adapter_calls (controller l') = adapter_calls (controller l).

Lemma gate_frame_trans ports l1 l2 l3 :
  gate_frame ports l1 l2 → gate_frame ports l2 l3 → gate_frame ports l1 l3.
Proof. unfold gate_frame. intros (?&?&?) (?&?&?). split_and!; done || congruence. Qed.

Section Step.
Context {W : Type} (ports : Ports) (gports : GatePorts W) (max : nat).

Lemma verify_spec obs rid st l :
  reachable ports (controller l) →
  ∃ v l' new, _verify gports obs rid st l = (Ok v, l') ∧ gate_frame ports l l' ∧
    gate_log l' = gate_log l ++ new ∧ observed_count new = 0 ∧
    (∀ x, v = Some x → new = [Reduced obs rid; Verified (action_id (action st)) (VerResult x)]).
Proof.
  intros Hr. unfold _verify. unfold bind at 1, get. unfold bind at 1.
  destruct (run_gate_ok ports (reduce gports (gate_log l) obs rid) l Hr)
    as (red & l1 & -> & Hlog1 & ? & Hr1 & ?).
  destruct red as [w|]; [|exists None, l1, []; by rewrite app_nil_r].
  unfold bind at 1, modify. set (l2 := note_event (Reduced obs rid) l1).
  unfold bind at 1, get. unfold bind at 1.
  destruct (run_gate_ok ports (verify gports (gate_log l2) w rid (action_id (action st))) l2 Hr1)
    as (res & l3 & -> & Hlog3 & ? & ? & ?).
  unfold bind, modify. set (l4 := note_event _ l3).
  assert (gate_log l4 = gate_log l ++ [Reduced obs rid; Verified (action_id (action st)) res]) as Hlog.
  { unfold l4; simpl. rewrite Hlog3. simpl. by rewrite Hlog1, <-app_assoc. }
  assert (gate_frame ports l l4) as Hf by (unfold gate_frame, l4, l2 in *; simpl in *; split_and!; done || congruence).
  destruct res; [eexists (Some _)|exists None..]; eexists l4, _; split_and!; try done; naive_solver.
Qed.

(** ** The observation loop *)

(** An observation that [_correlation_defect] accepted for this step. *)
Definition correlated (st : TaskStep) (rid : string) (nb : option datetime) (o : Observation) : Prop :=
  ∃ s, sample_observation s = o ∧ _correlation_defect st s rid nb = None.

Lemma correlated_spec st rid nb o :
  correlated st rid nb o →
  o_run_id o = rid ∧ (∀ e, _expected_entity st = Some e → o_entity_id o = e) ∧
  ∃ completion observed, nb = Some completion ∧ _parse_instant (o_observed_at o) = Some observed ∧
    utcoffset completion = utcoffset observed ∧ (instant completion < instant observed)%Z.
Proof.
  intros (s & <- & H). unfold _correlation_defect in H.
  case_decide; [done|]. case_decide as Hrun; [done|].
  destruct (match _expected_entity st with Some _ => _ | None => _ end) eqn:He; [done|].
  split_and!; [done| |].
  - intros e Hex. rewrite Hex in He. apply bool_decide_eq_false in He. by apply dec_stable in He.
  - destruct nb as [completion|]; [|done]. destruct (_parse_instant _) as [observed|]; [|done].
    case_decide as Ho; [done|].
    destruct (_ <=? _)%Z eqn:Hle; [done|]. rewrite Z.leb_gt in Hle. by exists completion, observed.
Qed.

Definition confirmed_by (st : TaskStep) (rid : string) (nb : option datetime)
    (rpt : StepGateReport) (new : list gate_event) : Prop :=
  ∃ v pre, verification rpt = Some v ∧ status v = VerificationStatus.CONFIRMED ∧
    observations rpt ≠ [] ∧
    new = pre ++ [Reduced (observations rpt) rid; Verified (action_id (action st)) (VerResult v)].

Definition observe_post (st : TaskStep) (rec : StepExecutionRecord) (rid : string)
    (nb : option datetime) (budget : nat) (l : PostActionLoop)
    (out : outcome gate_exn StepGateReport * PostActionLoop) : Prop :=
  gate_frame ports l out.2 ∧
  ∃ new, gate_log out.2 = gate_log l ++ new ∧ observed_count new ≤ budget ∧
  match out.1 with
  | Ok rpt =>
      execution rpt = Some rec ∧ gate_step_id rpt = step_id st ∧
      gate_action_id rpt = action_id (action st) ∧
      Forall (correlated st rid nb) (observations rpt) ∧
      gate_outcome rpt ∈ [GateOutcome.CONFIRMED; GateOutcome.REFUTED; GateOutcome.INSUFFICIENT_EVIDENCE] ∧
      (gate_outcome rpt = GateOutcome.CONFIRMED → confirmed_by st rid nb rpt new)
  | Raise e => e = PortRaised
  end.

(** A report that ends the loop without confirming. *)
Lemma observe_post_end st rec rid nb budget l l' new k why accepted v n :
  gate_frame ports l l' → gate_log l' = gate_log l ++ new → observed_count new ≤ budget →
  Forall (correlated st rid nb) accepted →
  k ∈ [GateOutcome.REFUTED; GateOutcome.INSUFFICIENT_EVIDENCE] →
  observe_post st rec rid nb budget l (Ok (gate_report st k why (Some rec) accepted v n), l').
Proof.
  intros Hf Hl Hn Hacc Hk. split; [done|]. exists new. split_and!; try done; simpl; set_solver.
Qed.

Lemma observe_post_prepend st rec rid nb budget l l1 e out :
  gate_frame ports l l1 → gate_log l1 = gate_log l ++ e → observed_count e ≤ 1 →
  observe_post st rec rid nb budget l1 out → observe_post st rec rid nb (S budget) l out.
Proof.
  intros Hf Hl He [Hf' (new & Hnew & Hn & Hout)]. split; [by eapply gate_frame_trans|].
  exists (e ++ new). split_and!.
  - by rewrite Hnew, Hl, app_assoc.
  - rewrite observed_count_app. lia.
  - destruct (out.1) as [rpt|]; [|done].
    destruct Hout as (? & ? & ? & ? & ? & Hc). split_and!; try done.
    intros (v & pre & ? & ? & ? & ->)%Hc. exists v, (e ++ pre). by rewrite app_assoc.
Qed.

Lemma observe_loop_spec fuel : ∀ n st rec rid nb accepted failure l,
  reachable ports (controller l) → Forall (correlated st rid nb) accepted →
  observe_post st rec rid nb fuel l (observe_loop gports fuel n st rec rid nb accepted failure l).
Proof.
  induction fuel as [|fuel IH]; intros n st rec rid nb accepted failure l Hr Hacc; cbn [observe_loop].
  { apply (observe_post_end st rec rid nb 0 l l []); try done; [by rewrite app_nil_r|set_solver]. }
  unfold bind at 1, get. unfold bind at 1.
  destruct (run_gate_ok ports (observe gports (gate_log l) rid (action_id (action st))
    (_expected_entity st) nb) l Hr) as (res & l1 & -> & Hlog & ? & Hr1 & ?).
  unfold bind at 1, modify. set (e := Observed _ _ res). set (l2 := note_event e l1).
  assert (gate_frame ports l l2) as Hf by (unfold gate_frame, l2; simpl; done).
  assert (gate_log l2 = gate_log l ++ [e]) as Hl2 by (unfold l2; simpl; by rewrite Hlog).
  assert (observed_count [e] ≤ 1) as He by (unfold e, observed_count; simpl; lia).
  assert (∀ why, observe_post st rec rid nb (S fuel) l
    (observe_loop gports fuel (S n) st rec rid nb accepted (Some why) l2)) as Hagain.
  { intros why. apply (observe_post_prepend _ _ _ _ _ l l2 [e]); [done..|]. by apply IH. }
  assert (∀ k why acc v, k ∈ [GateOutcome.REFUTED; GateOutcome.INSUFFICIENT_EVIDENCE] →
    Forall (correlated st rid nb) acc → observe_post st rec rid nb (S fuel) l
    (Ok (gate_report st k why (Some rec) acc v (S n)), l2)) as Hend.
  { intros. apply (observe_post_end _ _ _ _ _ _ _ [e]); try done. lia. }
  destruct res as [a|]; [|split; [done|]; exists [e]; split_and!; [done|lia|done]].
  destruct (attempt_outcome a); [|apply Hagain..].
  destruct (attempt_sample a) as [s|]; [|apply Hagain].
  destruct (_correlation_defect st s rid nb) as [defect|] eqn:Hdef; [apply Hend; [set_solver|done]|].
  set (acc := accepted ++ [sample_observation s]).
  assert (Forall (correlated st rid nb) acc) as Hacc'.
  { apply Forall_app. split; [done|]. apply Forall_singleton. by exists s. }
  unfold bind. destruct (verify_spec acc rid st l2 Hr1) as (v & l3 & new & -> & Hf3 & Hl3 & Hn3 & Hnew).
  pose proof (gate_frame_trans _ _ _ _ Hf Hf3) as Hf'.
  assert (gate_log l3 = gate_log l ++ [e] ++ new) as Hlog3 by (by rewrite Hl3, Hl2, <-app_assoc).
  assert (observed_count ([e] ++ new) ≤ 1) as Hcount by (rewrite observed_count_app; lia).
  assert (observed_count ([e] ++ new) ≤ S fuel) as Hcount' by lia.
  destruct v as [v|]; [|eapply observe_post_end; try done; set_solver].
  destruct (status v) eqn:Hst.
  all: try (eapply (observe_post_prepend _ _ _ _ _ l l3); [done..|]; apply IH; [apply Hf'|done]).
  - split; [done|]. exists ([e] ++ new). split_and!; try done; simpl.
    split_and!; [done..|set_solver|]. intros _. exists v, [e]. rewrite (Hnew v eq_refl). split_and!; try done.
    unfold acc. by destruct accepted.
  - eapply observe_post_end; try done; set_solver.
Qed.

(** ** One step *)

Definition good (r : StepGateReport) : Prop :=
  gate_outcome r = GateOutcome.CONFIRMED ∨ gate_outcome r = GateOutcome.NOT_APPLICABLE.

(** What a report says about its step: it is the step's, and a good outcome
    rests on a settled execution record of the step's own action. *)
Definition step_ok (rid : string) (st : TaskStep) (r : StepGateReport) : Prop :=
  gate_step_id r = step_id st ∧ gate_action_id r = action_id (action st) ∧
  (good r → ∃ rec, execution r = Some rec ∧ record_action_id rec = action_id (action st) ∧ settled rec ∧
     (gate_outcome r = GateOutcome.NOT_APPLICABLE → action_type (action st) ∉ STATE_CHANGING_ACTIONS) ∧
     (gate_outcome r = GateOutcome.CONFIRMED →
        action_type (action st) ∈ STATE_CHANGING_ACTIONS ∧ observations r ≠ [] ∧
        Forall (correlated st rid (_completion_instant (result rec))) (observations r) ∧
        ∃ v, verification r = Some v ∧ status v = VerificationStatus.CONFIRMED)).

(** A confirmation is the last thing the gate logged. *)
Definition confirmed_last (rid : string) (st : TaskStep) (r : StepGateReport) (log : list gate_event)
    : Prop :=
  gate_outcome r = GateOutcome.CONFIRMED → ∃ v pre, verification r = Some v ∧
    log = pre ++ [Reduced (observations r) rid; Verified (action_id (action st)) (VerResult v)].

Definition step_post (st : TaskStep) (rid : string) (l : PostActionLoop)
    (out : outcome gate_exn StepGateReport * PostActionLoop) : Prop :=
  reachable ports (controller out.2) ∧
  (∃ calls, adapter_calls (controller out.2) = adapter_calls (controller l) ++ calls ∧
            ordered_calls [isolated st] calls) ∧
  ∃ new, gate_log out.2 = gate_log l ++ new ∧ observed_count new ≤ max ∧
  match out.1 with
  | Ok r => step_ok rid st r ∧ confirmed_last rid st r new
  | Raise e => e = PortRaised ∨ e = ControllerRaised SerializationError ∨ e = ControllerRaised RecursionError
  end.

Lemma step_post_quiet st rid l l' calls r :
  reachable ports (controller l') → gate_log l' = gate_log l →
  adapter_calls (controller l') = adapter_calls (controller l) ++ calls →
  ordered_calls [isolated st] calls → step_ok rid st r → gate_outcome r ≠ GateOutcome.CONFIRMED →
  step_post st rid l (Ok r, l').
Proof.
  intros Hr Hl Hc Ho Hok Hk. split_and!; [done|by exists calls|].
  exists []. rewrite app_nil_r. split_and!; [done|unfold observed_count; simpl; lia|].
  simpl. split; [done|]. by intros ?.
Qed.

Lemma step_ok_bad rid st k why rec obs v n :
  k ≠ GateOutcome.CONFIRMED → k ≠ GateOutcome.NOT_APPLICABLE →
  step_ok rid st (gate_report st k why rec obs v n).
Proof. intros H1 H2. split_and!; [done..|]. by intros [?|?]. Qed.

Lemma gate_execution_spec st rid rec why l0 l calls :
  reachable ports (controller l) → gate_log l = gate_log l0 →
  adapter_calls (controller l) = adapter_calls (controller l0) ++ calls →
  ordered_calls [isolated st] calls →
  (∀ r, rec = Some r → record_action_id r = action_id (action st) ∧ legal_record r) →
  step_post st rid l0 (gate_execution gports max st rid rec why l).
Proof.
  intros Hr Hl Hc Ho Hrec.
  assert (∀ k w rec' , k ≠ GateOutcome.CONFIRMED → k ≠ GateOutcome.NOT_APPLICABLE →
    step_post st rid l0 (Ok (gate_report st k w rec' [] None 0), l)) as Hq.
  { intros k w rec' H1 H2. eapply step_post_quiet; try done. by apply step_ok_bad. }
  unfold gate_execution. destruct rec as [rec|].
  2:{ case_decide; by apply Hq. }
  destruct (Hrec rec eq_refl) as [Hid Hleg].
  case_decide; [by apply Hq|]. case_decide; [by apply Hq|]. case_decide; [by apply Hq|].
  case_decide as Hlast; [by apply Hq|]. apply (legal_succeeded rec Hleg) in Hlast as Hset.
  case_decide as Hty.
  { eapply step_post_quiet; try done. split_and!; [done..|]. intros _. exists rec. by split_and!. }
  unfold _observe_reduce_verify.
  pose proof (observe_loop_spec max 0 st rec rid (_completion_instant (result rec)) [] None l Hr
    ltac:(constructor)) as [(_ & Hr' & Hc') (new & Hlog & Hcount & Hout)].
  split_and!; [done|exists calls; by rewrite Hc', Hc|]. exists new.
  split_and!; [by rewrite Hlog, Hl|done|].
  destruct (observe_loop _ _ _ _ _ _ _ _ _ _).1 as [r|e]; [|by left].
  destruct Hout as (He & Hs & Ha & Hobs & Hk & Hconf). split.
  - split_and!; [done..|]. intros Hg. exists rec. split_and!; try done.
    + intros Hn. rewrite Hn in Hk. set_solver.
    + intros Hcf. destruct (Hconf Hcf) as (v & pre & Hv & Hst & Hne & _). split_and!; [done..|]. by exists v.
  - intros Hcf. destruct (Hconf Hcf) as (v & pre & Hv & Hst & Hne & ->). by exists v, pre.
Qed.

Lemma run_step_spec g st rid conf l :
  reachable ports (controller l) →
  step_post st rid l (run_step ports gports max g st rid conf l).
Proof.
  intros Hr. unfold run_step. unfold bind at 1, get.
  assert (∀ w, step_post st rid l (Ok (_skipped st w), l)) as Hskip.
  { intros w. apply (step_post_quiet st rid l l []); try done; [by rewrite app_nil_r|apply ordered_calls_nil|].
    split_and!; [done..|]. by intros [?|?]. }
  destruct (cancelled l); [apply Hskip|]. case_decide; [apply Hskip|]. case_decide; [apply Hskip|].
  unfold _dispatch, bind at 1 2, on_controller.
  set (single := _single_step_graph g (isolated st)).
  pose proof (execute_spec ports single conf (controller l) (reachable_stop_kept _ _ Hr))
    as (calls & Hcalls & Hord & Hout).
  assert (reachable ports (execute ports (Inst single) conf (controller l)).2) as Hr'.
  { eapply rtc_r; [done|]. apply session_execute. }
  pose proof (execute_legal ports (Inst single) conf (controller l)) as Hleg.
  destruct (execute ports (Inst single) conf (controller l)) as [[rep|e] c'] eqn:He; simpl in *.
  2:{ split_and!; [done|by exists calls|]. exists []. rewrite app_nil_r.
      split_and!; [done|unfold observed_count; simpl; lia|right]. destruct Hout as [->| ->]; auto. }
  unfold bind, modify. specialize (Hleg rep c' (reachable_stop_kept _ _ Hr) eq_refl).
  eapply gate_execution_spec; [done|done|done|done|]. simpl.
  intros r Hhead. apply head_Some_elem_of in Hhead. apply list_elem_of_filter in Hhead as [? Hin].
  split; [done|]. by eapply Forall_forall in Hleg.
Qed.

End Step.

(** ** A run *)

(** Reports of an unstopped run: good, or held back by a dependency. *)
Definition open_report (r : StepGateReport) : Prop :=
  good r ∨ gate_reason r = GateReasonCode.DEPENDENCY_BLOCKED.

(** Step [st] at position [i] was executed: its dependencies are earlier good
    steps, and nothing before it failed. *)
Definition released (sts : list TaskStep) (rs : list StepGateReport) (i : nat) (st : TaskStep) : Prop :=
  (∀ d, d ∈ depends_on st → ∃ j st' r', j < i ∧ sts !! j = Some st' ∧ rs !! j = Some r' ∧
                                        step_id st' = d ∧ good r') ∧
  (∀ j r', j < i → rs !! j = Some r' → open_report r').

Record run_inv (rid : string) (sts : list TaskStep) (rs : run_state) : Prop := {
  inv_steps : Forall2 (step_ok rid) sts (reports rs);
  inv_confirmed d : d ∈ confirmed_step_ids rs →
    ∃ j st r, sts !! j = Some st ∧ reports rs !! j = Some r ∧ step_id st = d ∧ good r;
  inv_open : stopped rs = false → Forall open_report (reports rs);
  inv_terminal : terminal rs = GateOutcome.CONFIRMED ↔ Forall good (reports rs);
  inv_stopped : stopped rs = true → terminal rs ≠ GateOutcome.CONFIRMED;
  inv_released i st r : sts !! i = Some st → reports rs !! i = Some r → execution r ≠ None →
    released sts (reports rs) i st
}.

Lemma run_inv_start rid : run_inv rid [] run_start.
Proof. by split; simpl; try done; try (set_solver || constructor). Qed.

Lemma released_app sts rs i st x r :
  released sts rs i st → i < length rs → released (sts ++ [x]) (rs ++ [r]) i st.
Proof.
  intros [Hd Hb] Hi. split.
  - intros d Hin. destruct (Hd d Hin) as (j & st' & r' & Hj & H1 & H2 & ? & ?).
    exists j, st', r'. split_and!; try done; by apply lookup_app_l_Some.
  - intros j r' Hj Hr. rewrite lookup_app_l in Hr by lia. by eapply Hb.
Qed.

(** One more step: what has to be known about its report. *)
Lemma run_inv_snoc rid sts rs rs' st r :
  run_inv rid sts rs → reports rs' = reports rs ++ [r] → step_ok rid st r →
  (execution r ≠ None → stopped rs = false ∧ ∀ d, d ∈ depends_on st → d ∈ confirmed_step_ids rs) →
  (∀ d, d ∈ confirmed_step_ids rs' → d ∈ confirmed_step_ids rs ∨ (d = step_id st ∧ good r)) →
  (stopped rs' = false → stopped rs = false ∧ open_report r) →
  (terminal rs' = GateOutcome.CONFIRMED ↔ terminal rs = GateOutcome.CONFIRMED ∧ good r) →
  (stopped rs' = true → terminal rs' ≠ GateOutcome.CONFIRMED) →
  run_inv rid (sts ++ [st]) rs'.
Proof.
  intros [Hs Hc Ho Ht Hst Hrel] Hrep Hok Hex Hconf Hopen Hterm Hstop.
  pose proof (Forall2_length _ _ _ Hs) as Hlen.
  split; rewrite ?Hrep; [|intros d Hd| | |done|].
  - apply Forall2_app; [done|]. by constructor.
  - destruct (Hconf d Hd) as [Hd'|[-> Hg]].
    + destruct (Hc d Hd') as (j & st' & r' & H1 & H2 & ? & ?).
      exists j, st', r'. split_and!; try done; by apply lookup_app_l_Some.
    + exists (length sts), st, r. split_and!; try done; [by rewrite list_lookup_middle|].
      by rewrite Hlen, list_lookup_middle.
  - intros [H1 H2]%Hopen. apply Forall_app. split; [by apply Ho|by apply Forall_singleton].
  - rewrite Hterm, Ht, Forall_app, Forall_singleton. done.
  - intros i st' r' Hi Hr He. apply lookup_app_Some in Hr as [Hr|[Hge Hr]].
    + pose proof (lookup_lt_Some _ _ _ Hr). rewrite lookup_app_l in Hi by lia.
      apply released_app; [by eapply Hrel|done].
    + apply list_lookup_singleton_Some in Hr as [Hz ->].
      assert (i = length sts) as -> by lia. rewrite list_lookup_middle in Hi by done. simplify_eq.
      destruct (Hex He) as [Hns Hdeps]. split.
      * intros d Hd. destruct (Hc d (Hdeps d Hd)) as (j & st'' & r'' & H1 & H2 & ? & ?).
        exists j, st'', r''. pose proof (lookup_lt_Some _ _ _ H1).
        split_and!; try done; by apply lookup_app_l_Some.
      * intros j r'' Hj Hl. rewrite lookup_app_l in Hl by lia.
        by eapply Forall_lookup_1 in Hl; [|apply Ho].
Qed.

Lemma skipped_ok rid st w : step_ok rid st (_skipped st w).
Proof. split_and!; [done..|]. by intros [?|?]. Qed.

Lemma run_inv_block rid sts rs st :
  run_inv rid sts rs → run_inv rid (sts ++ [st]) (after_block st rs).
Proof.
  intros Hinv. pose proof (inv_stopped _ _ _ Hinv) as Hst.
  apply (run_inv_snoc rid sts rs _ st (_skipped st GateReasonCode.DEPENDENCY_BLOCKED));
    try done; [apply skipped_ok|by left| | |].
  - intros H. split; [done|by right].
  - simpl. destruct (stopped rs) eqn:E; split; try done; [by intros ?%Hst|by intros [_ [?|?]]..].
  - simpl. intros Hs. rewrite Hs. by apply Hst.
Qed.

Lemma run_inv_skip rid sts rs st :
  run_inv rid sts rs → stopped rs = true → run_inv rid (sts ++ [st]) (after_skip st rs).
Proof.
  intros Hinv Hs. pose proof (inv_stopped _ _ _ Hinv Hs) as Hst.
  apply (run_inv_snoc rid sts rs _ st (_skipped st GateReasonCode.NOT_EXECUTED));
    try done; [apply skipped_ok|by left|simpl; congruence|simpl; naive_solver].
Qed.

Lemma run_inv_step rid sts rs st r :
  run_inv rid sts rs → stopped rs = false → blocked_by st rs = [] → step_ok rid st r →
  run_inv rid (sts ++ [st]) (after_step st r rs).
Proof.
  intros Hinv Hs Hb Hok. assert (∀ d, d ∈ depends_on st → d ∈ confirmed_step_ids rs) as Hdeps.
  { intros d Hd. destruct (decide (d ∈ confirmed_step_ids rs)) as [|Hn]; [done|].
    assert (d ∈ blocked_by st rs) as Hin by (apply list_elem_of_filter; auto).
    rewrite Hb in Hin. set_solver. }
  unfold after_step. case_decide as Hg.
  - apply (run_inv_snoc rid sts rs _ st r); try done; simpl.
    + intros d [->|?]%elem_of_cons; [by right|by left].
    + intros _. split; [done|by left].
    + naive_solver.
    + congruence.
  - apply (run_inv_snoc rid sts rs _ st r); try done; simpl; [by left| |].
    + split; [by destruct (gate_outcome r)|by intros [_ ?]].
    + by destruct (gate_outcome r).
Qed.

Section Run.
Context {W : Type} (ports : Ports) (gports : GatePorts W) (max : nat).

Lemma run_steps_spec g rid conf todo : ∀ sts rs l,
  reachable ports (controller l) → run_inv rid sts rs →
  reachable ports (controller (run_steps ports gports max g rid conf todo rs l).2) ∧
  match (run_steps ports gports max g rid conf todo rs l).1 with
  | Ok rs' => run_inv rid (sts ++ todo) rs'
  | Raise e => e = PortRaised ∨ e = ControllerRaised SerializationError ∨ e = ControllerRaised RecursionError
  end.
Proof.
  induction todo as [|st todo IH]; intros sts rs l Hr Hinv; simpl; [by rewrite app_nil_r|].
  rewrite cons_middle, app_assoc.
  destruct (blocked_by st rs) eqn:Hb; [|apply IH; [done|by apply run_inv_block]].
  destruct (stopped rs) eqn:Hs; [apply IH; [done|by apply run_inv_skip]|].
  unfold bind. pose proof (run_step_spec ports gports max g st rid conf l Hr) as (Hr' & _ & new & _ & _ & H).
  destruct (run_step _ _ _ _ _ _ _ _) as [[r|e] l']; simpl in *; [|done].
  apply IH; [done|]. apply run_inv_step; naive_solver.
Qed.

Lemma run_spec g rid conf l rep l' :
  reachable ports (controller l) → run ports gports max (Some g) rid conf l = (Ok rep, l') →
  reachable ports (controller l') ∧ ∃ rs, run_inv rid (steps g) rs ∧
    gate_steps rep = reports rs ∧ (steps g ≠ [] → run_terminal rep = terminal rs) ∧
    (steps g = [] → run_terminal rep = GateOutcome.NOT_APPLICABLE).
Proof.
  intros Hr. unfold run. destruct (non_blank rid); [|done]. unfold bind.
  destruct (run_steps_spec g rid conf (steps g) [] run_start l Hr (run_inv_start rid)) as [Hr' H].
  destruct (run_steps _ _ _ _ _ _ _ _ _) as [[rs|e] l1]; simpl in *; [|done].
  intros [= <- <-]. split; [done|]. exists rs. split; [done|].
  pose proof (Forall2_length _ _ _ (inv_steps _ _ _ H)) as Hlen.
  destruct (reports rs), (steps g); simpl in *; split_and!; try done.
Qed.

(** Every controller state a loop goes through is one the controller reaches. *)
Lemma run_reachable graph rid conf l :
  reachable ports (controller l) → reachable ports (controller (run ports gports max graph rid conf l).2).
Proof.
  intros Hr. unfold run. destruct graph as [g|]; [|done]. destruct (non_blank rid); [|done]. unfold bind.
  destruct (run_steps_spec g rid conf (steps g) [] run_start l Hr (run_inv_start rid)) as [Hr' _].
  by destruct (run_steps _ _ _ _ _ _ _ _ _) as [[rs|e] l1].
Qed.

End Run.

(** ** A concrete loop *)

Definition demo_observation (rid : string) : Observation := {|
  o_observation_id := "obs"; o_run_id := rid; o_entity_id := "cup"; o_entity_type := "cup";
  o_observed_at := "2026-01-01T00:00:02Z"; o_clock_id := ClockId.WALL; o_source := "cam";
  o_evidence_refs := ["frame"] |}.

Definition demo_verification : VerificationResult := {|
  verification_id := "v"; vr_run_id := "run"; vr_task_id := "task-1"; claim := "placed";
  status := VerificationStatus.CONFIRMED; reason_code := None; completeness := None;
  vr_evidence_refs := ["frame"]; recovery_hint := RecoveryHint.NONE;
  verified_at := "2026-01-01T00:00:03Z"; vr_clock_id := ClockId.WALL; rule_version := "1" |}.

(** Perception and world model that confirm every action. *)
Definition seeing : GatePorts unit := {|
  observe log rid aid entity nb := GDone (ObsAttempt {|
    attempt_outcome := ObservationAttemptOutcome.OBSERVED;
    attempt_sample := Some {| sample_action_id := aid; sample_observation := demo_observation rid |} |});
  reduce log obs rid := GDone (RedState tt);
  verify log w rid aid := GDone (VerResult demo_verification)
|}.

Definition demo_loop : PostActionLoop := new_loop new_controller.
Definition demo_step_1 : TaskStep := demo_step "s1" "a1" [].
Definition demo_run (p : Ports) := run p seeing 2 (Some demo_graph) "run" (VSet []) demo_loop.

(** ** What a confirmation rests on *)

(** C11: actuator success alone never confirms: a step gated CONFIRMED is a
    physical, state-changing action with an execution record of its own that
    ended SUCCEEDED on a device-confirmed result; it has at least one
    observation, and each one belongs to the run and to the step's target and
    is strictly later than the end of the action, on the same UTC offset; and
    the last two calls of the gate were the reduction of exactly these
    observations and the verification that confirmed the action. *)
Theorem confirmation_needs_fresh_evidence {W} ports (gports : GatePorts W) max g st rid conf l r l' :
  reachable ports (controller l) →
  run_step ports gports max g st rid conf l = (Ok r, l') →
  gate_outcome r = GateOutcome.CONFIRMED →
  action_type (action st) ∈ STATE_CHANGING_ACTIONS ∧
  ∃ rec res v pre,
    execution r = Some rec ∧ settled rec ∧ result rec = Some res ∧
    record_action_id rec = action_id (action st) ∧
    observations r ≠ [] ∧
    (∀ o, o ∈ observations r →
       o_run_id o = rid ∧ (∀ e, _expected_entity st = Some e → o_entity_id o = e) ∧
       ∃ ended observed, _parse_instant (ended_at res) = Some ended ∧
         _parse_instant (o_observed_at o) = Some observed ∧ utcoffset ended = utcoffset observed ∧
         (instant ended < instant observed)%Z) ∧
    verification r = Some v ∧ status v = VerificationStatus.CONFIRMED ∧
    gate_log l' = pre ++ [Reduced (observations r) rid; Verified (action_id (action st)) (VerResult v)].
Proof.
  intros Hr Hrun Hk. pose proof (run_step_spec ports gports max g st rid conf l Hr) as H.
  rewrite Hrun in H. destruct H as (_ & _ & new & Hlog & _ & Hok & Hlast). simpl in Hlog.
  destruct Hok as (_ & _ & Hgood). destruct Hgood as (rec & He & Hid & Hset & _ & Hc); [by left|].
  destruct (Hc Hk) as (Hty & Hne & Hcor & v & Hv & Hst). split; [done|].
  pose proof Hset as (_ & res & Hres & _).
  destruct (Hlast Hk) as (v' & pre & Hv' & ->). rewrite Hv in Hv'. injection Hv' as <-.
  exists rec, res, v, (gate_log l ++ pre). split_and!; try done; [|by rewrite <-app_assoc].
  intros o Ho. eapply Forall_forall in Hcor; [|done].
  apply correlated_spec in Hcor as (? & ? & completion & observed & Hnb & ? & ? & ?).
  rewrite Hres in Hnb. split_and!; [done..|]. by exists completion, observed.
Qed.

Lemma confirmation_needs_fresh_evidence_witness :
  ∃ r l', run_step friendly seeing 2 demo_graph demo_step_1 "run" (VSet []) demo_loop = (Ok r, l') ∧
    observations r ≠ [] ∧ action_type (action demo_step_1) ∈ STATE_CHANGING_ACTIONS.
Proof.
  destruct (run_step friendly seeing 2 demo_graph demo_step_1 "run" (VSet []) demo_loop)
    as [[r|e] l'] eqn:E; [|by vm_compute in E].
  exists r, l'. split; [done|].
  destruct (confirmation_needs_fresh_evidence friendly seeing 2 demo_graph demo_step_1 "run" (VSet [])
    demo_loop r l') as [Hty (rec & res & v & pre & _ & _ & _ & _ & Hne & _)].
  - apply rtc_refl.
  - exact E.
  - vm_compute in E. by injection E as <- <-.
  - done.
Defined.

(** A step asks for at most [max_observation_attempts] observations, and a
    policy that the constructor accepts allows between 1 and 8. *)
Theorem observation_budget_is_respected {W} ports (gports : GatePorts W) v max g st rid conf l :
  reachable ports (controller l) → make_policy v = Ok max →
  (1 ≤ max ≤ 8)%nat ∧
  ∃ new, gate_log (run_step ports gports max g st rid conf l).2 = gate_log l ++ new ∧
         observed_count new ≤ max.
Proof.
  intros Hr Hp. split.
  - unfold make_policy, MAX_OBSERVATION_ATTEMPTS in Hp. destruct v; try done.
    destruct (_ && _)%Z eqn:E; [|done]. rewrite andb_true_iff in E. injection Hp as <-. lia.
  - destruct (run_step_spec ports gports max g st rid conf l Hr) as (_ & _ & new & ? & ? & _).
    by exists new.
Qed.

(** Perception that never sees anything. *)
Definition blind : GatePorts unit := {|
  observe log rid aid entity nb := GDone (ObsAttempt {|
    attempt_outcome := ObservationAttemptOutcome.MISSING; attempt_sample := None |});
  reduce log obs rid := GDone (RedState tt);
  verify log w rid aid := GDone (VerResult demo_verification)
|}.

Lemma observation_budget_is_respected_witness :
  ∃ new, gate_log (run_step friendly blind 3 demo_graph demo_step_1 "run" (VSet []) demo_loop).2 =
    [] ++ new ∧ observed_count new ≤ 3.
Proof.
  apply (observation_budget_is_respected friendly blind (VInt 3) 3 demo_graph demo_step_1 "run" (VSet [])
    demo_loop); [apply rtc_refl|done].
Defined.

(** ** Order of a run *)

(** In a run, a step that has an execution record was released: every step
    it depends on comes earlier in the graph and was confirmed or needed no
    confirmation, and no earlier step failed (each is good or was itself held
    back by a dependency). *)
Theorem dependents_wait_for_confirmation {W} ports (gports : GatePorts W) max g rid conf l rep l' i st r :
  reachable ports (controller l) → run ports gports max (Some g) rid conf l = (Ok rep, l') →
  steps g !! i = Some st → gate_steps rep !! i = Some r → execution r ≠ None →
  (∀ d, d ∈ depends_on st → ∃ j st' r', j < i ∧ steps g !! j = Some st' ∧
     gate_steps rep !! j = Some r' ∧ step_id st' = d ∧ good r') ∧
  (∀ j r', j < i → gate_steps rep !! j = Some r' →
     good r' ∨ gate_reason r' = GateReasonCode.DEPENDENCY_BLOCKED).
Proof.
  intros Hr Hrun Hst Hrep Hex. destruct (run_spec ports gports max g rid conf l rep l' Hr Hrun)
    as (_ & rs & Hinv & Hsteps & _). rewrite Hsteps in *. by eapply (inv_released _ _ _ Hinv).
Qed.

Lemma dependents_wait_for_confirmation_witness :
  ∃ rep l', demo_run friendly = (Ok rep, l') ∧
    ∃ j st' r', j < 1 ∧ steps demo_graph !! j = Some st' ∧ gate_steps rep !! j = Some r' ∧
                step_id st' = "s1" ∧ good r'.
Proof.
  destruct (demo_run friendly) as [[rep|e] l'] eqn:E; [|by vm_compute in E].
  exists rep, l'. split; [done|].
  destruct (gate_steps rep !! 1) as [r|] eqn:Hr1.
  - apply (dependents_wait_for_confirmation friendly seeing 2 demo_graph "run" (VSet []) demo_loop rep l'
      1 (demo_step "s2" "a2" ["s1"]) r).
    + apply rtc_refl.
    + exact E.
    + done.
    + exact Hr1.
    + vm_compute in E. injection E as <- <-. vm_compute in Hr1. injection Hr1 as <-. discriminate.
    + apply list_elem_of_singleton. done.
  - vm_compute in E. injection E as <- <-. discriminate Hr1.
Defined.

(** [may_advance] holds exactly when the graph has steps and every report is
    CONFIRMED or NOT_APPLICABLE; each of these rests on a settled execution
    record.  In particular a run of actions that change nothing may advance
    although no step was confirmed. *)
Theorem may_advance_is_exact {W} ports (gports : GatePorts W) max g rid conf l rep l' :
  reachable ports (controller l) → run ports gports max (Some g) rid conf l = (Ok rep, l') →
  Forall2 (step_ok rid) (steps g) (gate_steps rep) ∧
  (may_advance rep = true ↔ steps g ≠ [] ∧ Forall good (gate_steps rep)).
Proof.
  intros Hr Hrun. destruct (run_spec ports gports max g rid conf l rep l' Hr Hrun)
    as (_ & rs & Hinv & Hsteps & Hne & Hnil). rewrite Hsteps. split; [apply Hinv|].
  unfold may_advance. rewrite bool_decide_eq_true. destruct (decide (steps g = [])) as [E|E].
  - rewrite (Hnil E). split; [done|]. by intros [? _].
  - rewrite (Hne E), (inv_terminal _ _ _ Hinv). naive_solver.
Qed.

(** A graph whose only action changes nothing. *)
Definition express_graph : TaskGraph := {|
  task_id := "task-2"; goal := "greet"; planner := "rule"; model_route := "local";
  steps := [{| step_id := "e1"; depends_on := [];
               action := {| action_id := "x1"; action_type := ActionType.EXPRESS;
                            target_id := None; parameters := [] |} |}] |}.

Lemma may_advance_is_exact_witness :
  ∃ rep l', run friendly seeing 2 (Some express_graph) "run" (VSet []) demo_loop = (Ok rep, l') ∧
    may_advance rep = true ∧ forallb confirmed (gate_steps rep) = false.
Proof.
  destruct (run friendly seeing 2 (Some express_graph) "run" (VSet []) demo_loop)
    as [[rep|e] l'] eqn:E; [|by vm_compute in E].
  exists rep, l'. split; [done|]. split.
  - apply (may_advance_is_exact friendly seeing 2 express_graph "run" (VSet []) demo_loop rep l'
      (rtc_refl _ _) E).
    vm_compute in E. injection E as <- <-. split; [done|]. apply Forall_singleton. by right.
  - vm_compute in E. by injection E as <- <-.
Defined.

(** ** Sessions of the loop *)

Inductive loop_call {W} (ports : Ports) (gports : GatePorts W) (max : nat)
    : PostActionLoop → PostActionLoop → Prop :=
| call_run graph rid conf l : loop_call ports gports max l (run ports gports max graph rid conf l).2
| call_run_step g st rid conf l :
    loop_call ports gports max l (run_step ports gports max g st rid conf l).2
| call_stop a l : loop_call ports gports max l (loop_request_stop a l).2
| call_cancel why l : loop_call ports gports max l (cancel why l).2
| call_restart rid l : loop_call ports gports max l (note_restart rid l).2.

Lemma loop_call_reachable {W} ports (gports : GatePorts W) max l l' :
  loop_call ports gports max l l' → reachable ports (controller l) → reachable ports (controller l').
Proof.
  intros [graph rid conf l0|g st rid conf l0|a l0|why l0|rid l0] Hr.
  - by apply run_reachable.
  - by apply run_step_spec.
  - unfold loop_request_stop. destruct (on_controller_request_stop a l0) as (s & c' & -> & ->).
    simpl. eapply rtc_r; [done|]. apply session_stop.
  - unfold cancel. by destruct (non_blank why).
  - unfold note_restart. by destruct (non_blank rid).
Qed.

(** The loop keeps the controller's guarantees: over any sequence of calls
    on a loop with a fresh controller an action identifier reaches the adapter
    at most once, and every call was authorized by its own policy check. *)
Theorem loop_inherits_controller_safety {W} ports (gports : GatePorts W) max l :
  rtc (loop_call ports gports max) demo_loop l →
  NoDup (action_id <$> adapter_calls (controller l)) ∧ gated 0 0 (controller l).
Proof.
  intros H. assert (reachable ports (controller l)) as Hr.
  { revert H. apply (rtc_ind_r (λ l, reachable ports (controller l))); [apply rtc_refl|].
    intros l1 l2 _ Hc. by apply (loop_call_reachable ports gports max). }
  split; [apply (reachable_once ports _ Hr)|by eapply reachable_gated].
Qed.

Lemma loop_inherits_controller_safety_witness :
  NoDup (action_id <$> adapter_calls (controller (demo_run friendly).2)).
Proof.
  apply (loop_inherits_controller_safety friendly seeing 2 (demo_run friendly).2).
  apply rtc_once. apply call_run.
Defined.

(** A loop on which nothing may be dispatched any more for this run. *)
Definition closed_for (rid : string) (l : PostActionLoop) : Prop :=
  cancelled l = true ∨ rid ∈ restarted_runs l.

Lemma closed_run_step {W} ports (gports : GatePorts W) max g st rid conf l :
  closed_for rid l → ∃ w, run_step ports gports max g st rid conf l = (Ok (_skipped st w), l).
Proof.
  intros H. unfold run_step, bind, get. destruct (cancelled l) eqn:Hc; [by eexists|].
  destruct H as [H|H]; [congruence|]. rewrite decide_True by done. by eexists.
Qed.

Lemma closed_run_steps {W} ports (gports : GatePorts W) max g rid conf l todo : ∀ rs,
  closed_for rid l → ∃ rs', run_steps ports gports max g rid conf todo rs l = (Ok rs', l).
Proof.
  induction todo as [|st todo IH]; intros rs H; simpl; [by eexists|].
  destruct (blocked_by st rs); [|by apply IH]. destruct (stopped rs); [by apply IH|].
  unfold bind. destruct (closed_run_step ports gports max g st rid conf l H) as [w ->]. by apply IH.
Qed.

(** After [cancel], or after [note_restart] of this run, [run] returns a
    report without any call to a port or to the controller. *)
Theorem closed_loop_does_nothing {W} ports (gports : GatePorts W) max g rid conf l :
  closed_for rid l → non_blank rid = true →
  ∃ rep, run ports gports max (Some g) rid conf l = (Ok rep, l).
Proof.
  intros H Hrid. unfold run. rewrite Hrid. unfold bind.
  destruct (closed_run_steps ports gports max g rid conf l (steps g) run_start H) as [rs ->].
  by eexists.
Qed.

Lemma closed_loop_does_nothing_witness :
  let l := (cancel "operator" demo_loop).2 in
  ∃ rep, run friendly seeing 2 (Some demo_graph) "run" (VSet []) l = (Ok rep, l).
Proof.
  intros l. apply (closed_loop_does_nothing friendly seeing 2 demo_graph "run" (VSet []) l); [by left|done].
Defined.

(** An operator presses STOP during the first action and the STOP itself times
    out at the adapter. *)
Definition stop_times_out : Ports := {|
  dispatch h a :=
    match h with
    | [] => EStop (Inst demo_stop) (λ _, EDone (AReturned (Inst (confirmed_result a))))
    | [_] => EDone ATimeoutError
    | _ => EDone (AReturned (Inst (confirmed_result a)))
    end;
  check n g conf := EDone (CReport (allow_all g) (Inst g));
  visit_frames := 900
|}.

(** A STOP that was accepted while an action ran but then failed at the
    adapter does not stop the run: the gate looks only at the record of its own
    step, confirms it and goes on to dispatch the next physical action. *)
Theorem failed_stop_does_not_stop_the_run :
  ∃ rep l', demo_run stop_times_out = (Ok rep, l') ∧
    action_id <$> adapter_calls (controller l') = ["a1"; "stop-1"; "a2"] ∧
    "stop-1" ∈ accepted_stop_action_ids (controller l') ∧
    pending_stop (controller l') = None ∧ may_advance rep = true.
Proof.
  destruct (demo_run stop_times_out) as [[rep|e] l'] eqn:E; [|by vm_compute in E].
  exists rep, l'. split; [done|]. vm_compute in E. injection E as <- <-.
  split_and!; by vm_compute.
Qed.
