(* ===== verification/UartSpi.v ===== *)
(** * UART/SPI framing

    [hardware/linux_drivers/uart_spi]: the CRC, the frame codec, the framed
    session over an injected transport and the bounded loopback transport used
    with it.  Bytes are integers from 0 to 255. *)

From Stdlib Require Import ZArith.
From S2P Require Import Prelude.
Local Open Scope prog_scope.
Local Open Scope Z_scope.

Abbreviation bytes := (list Z).

Definition is_byte (b : Z) : Prop := 0 ≤ b < 256.
Definition MAGIC : bytes := [87; 66].
Definition PROTOCOL_VERSION : Z := 1.
Definition MAX_PAYLOAD_BYTES : nat := 256.
Definition HEADER_size : nat := 8.
Definition CRC_size : nat := 2.
Definition MAX_FRAME_BYTES : nat := HEADER_size + MAX_PAYLOAD_BYTES + CRC_size.

(** ** Errors *)

Inductive frame_exn : Type :=
| FrameFormatError
| FrameCrcError
| SequenceError
| TransportClosed
| TransportBackpressure
| TransportIOError
| TimeoutError
| ValueError.

Inductive TransportKind : Type := UART | SPI.
#[global] Instance TransportKind_eq_dec : EqDecision TransportKind.
Proof. solve_decision. Defined.

Definition kind_value (k : TransportKind) : Z := match k with UART => 1 | SPI => 2 end.
Definition TransportKind_of (n : Z) : option TransportKind :=
  if n =? 1 then Some UART else if n =? 2 then Some SPI else None.

(** ** CRC-16/CCITT-FALSE *)

(** One turn of the inner loop. *)
Definition crc_bit (crc : Z) : Z :=
  if Z.land crc 0x8000 =? 0 then Z.land (Z.shiftl crc 1) 0xFFFF
  else Z.land (Z.lxor (Z.shiftl crc 1) 0x1021) 0xFFFF.

(** One turn of the outer loop. *)
Definition crc_byte (crc byte : Z) : Z :=
  Nat.iter 8 crc_bit (Z.lxor crc (Z.shiftl byte 8)).

Definition crc16_ccitt (data : bytes) : Z := foldl crc_byte 0xFFFF data.

(** ** Frames *)

Record UartSpiFrame := {
  transport : TransportKind;
  sequence : Z;
  payload : bytes
}.

(** [UartSpiFrame.__post_init__] *)
Definition make_frame (k : TransportKind) (s : Z) (p : bytes) : outcome frame_exn UartSpiFrame :=
  if negb ((0 <=? s) && (s <=? 0xFFFF)) then Raise FrameFormatError
  else if (MAX_PAYLOAD_BYTES <? length p)%nat then Raise FrameFormatError
  else Ok {| transport := k; sequence := s; payload := p |}.

(** [struct] code H, big-endian *)
Definition pack_H (n : Z) : bytes := [n / 256; n mod 256].
Definition unpack_H (hi lo : Z) : Z := hi * 256 + lo.

Definition frame_body (f : UartSpiFrame) : bytes :=
  MAGIC ++ [PROTOCOL_VERSION; kind_value (transport f)] ++ pack_H (sequence f) ++
  pack_H (Z.of_nat (length (payload f))) ++ payload f.

Definition encode (f : UartSpiFrame) : bytes := frame_body f ++ pack_H (crc16_ccitt (frame_body f)).

(** [HEADER.unpack] of eight bytes *)
Record header := { h_magic : bytes; h_version : Z; h_kind : Z; h_sequence : Z; h_length : Z }.

Definition unpack_header (raw : bytes) : option header :=
  match raw with
  | m1 :: m2 :: v :: k :: s1 :: s2 :: l1 :: l2 :: _ =>
      Some {| h_magic := [m1; m2]; h_version := v; h_kind := k;
              h_sequence := unpack_H s1 s2; h_length := unpack_H l1 l2 |}
  | _ => None
  end.

(** [UartSpiFrame.decode] *)
Definition decode (raw : bytes) (expected : option TransportKind) : outcome frame_exn UartSpiFrame :=
  if (length raw <? HEADER_size + CRC_size)%nat then Raise FrameFormatError
  else if (MAX_FRAME_BYTES <? length raw)%nat then Raise FrameFormatError
  else
    match unpack_header raw with
    | None => Raise FrameFormatError
    | Some h =>
        if negb (bool_decide (h_magic h = MAGIC)) then Raise FrameFormatError
        else if negb (h_version h =? PROTOCOL_VERSION) then Raise FrameFormatError
        else
          match TransportKind_of (h_kind h) with
          | None => Raise FrameFormatError
          | Some k =>
              if match expected with Some e => negb (bool_decide (k = e)) | None => false end
              then Raise FrameFormatError
              else if Z.of_nat MAX_PAYLOAD_BYTES <? h_length h then Raise FrameFormatError
              else
                let n := Z.to_nat (h_length h) in
                if negb (length raw =? HEADER_size + n + CRC_size)%nat then Raise FrameFormatError
                else
                  let body := take (length raw - CRC_size) raw in
                  match drop (length raw - CRC_size) raw with
                  | [c1; c2] =>
                      if negb (unpack_H c1 c2 =? crc16_ccitt body) then Raise FrameCrcError
                      else make_frame k (h_sequence h) (take n (drop HEADER_size raw))
                  | _ => Raise FrameCrcError
                  end
          end
    end.

(** [_is_newer] *)
Definition _is_newer (s previous : Z) : bool :=
  let delta := Z.land (s - previous) 0xFFFF in (0 <? delta) && (delta <=? 0x7FFF).

(** ** Fake transport *)

Record FakeTransport := {
  capacity : nat;
  max_write_bytes : option nat;
  chunks : list bytes;
  opened : bool;
  fail_next_write : bool;
  fail_next_read : bool
}.

(** [FakeTransport.__init__] on integers *)
Definition new_transport (cap : Z) (max_write : option Z) : outcome frame_exn FakeTransport :=
  if negb ((1 <=? cap) && (cap <=? 64)) then Raise ValueError
  else if match max_write with Some m => m <? 1 | None => false end then Raise ValueError
  else Ok {| capacity := Z.to_nat cap; max_write_bytes := Z.to_nat <$> max_write; chunks := [];
             opened := false; fail_next_write := false; fail_next_read := false |}.

Definition set_chunks (c : list bytes) (t : FakeTransport) : FakeTransport := {|
  capacity := capacity t; max_write_bytes := max_write_bytes t; chunks := c; opened := opened t;
  fail_next_write := fail_next_write t; fail_next_read := fail_next_read t |}.
Definition set_opened (b : bool) (t : FakeTransport) : FakeTransport := {|
  capacity := capacity t; max_write_bytes := max_write_bytes t; chunks := chunks t; opened := b;
  fail_next_write := fail_next_write t; fail_next_read := fail_next_read t |}.
Definition clear_fail_write (t : FakeTransport) : FakeTransport := {|
  capacity := capacity t; max_write_bytes := max_write_bytes t; chunks := chunks t;
  opened := opened t; fail_next_write := false; fail_next_read := fail_next_read t |}.
Definition clear_fail_read (t : FakeTransport) : FakeTransport := {|
  capacity := capacity t; max_write_bytes := max_write_bytes t; chunks := chunks t;
  opened := opened t; fail_next_write := fail_next_write t; fail_next_read := false |}.

Module Fake.
Abbreviation io := (prog FakeTransport frame_exn).

Definition open : io () := modify (set_opened true).
Definition close : io () := modify (set_opened false).
Definition queued_chunks (t : FakeTransport) : nat := length (chunks t).
Definition _ensure_open : io () := t <- get ;; require (opened t) TransportClosed.

Definition write (data : bytes) : io nat :=
  _ensure_open ;;;
  t <- get ;;
  if fail_next_write t then modify clear_fail_write ;;; raise TransportIOError
  else if bool_decide (data = []) then raise TransportIOError
  else if (capacity t <=? queued_chunks t)%nat then raise TransportBackpressure
  else
    let count := Nat.min (length data) (default (length data) (max_write_bytes t)) in
    modify (set_chunks (chunks t ++ [take count data])) ;;; ret count.

Definition read (max_bytes : nat) : io bytes :=
  _ensure_open ;;;
  t <- get ;;
  if fail_next_read t then modify clear_fail_read ;;; raise TransportIOError
  else
    match chunks t with
    | [] => raise TimeoutError
    | c :: cs =>
        if (length c <=? max_bytes)%nat then modify (set_chunks cs) ;;; ret c
        else modify (set_chunks (drop max_bytes c :: cs)) ;;; ret (take max_bytes c)
    end.

Definition inject_rx (data : bytes) : io () :=
  _ensure_open ;;;
  t <- get ;;
  if bool_decide (data = []) then raise ValueError
  else if (capacity t <=? queued_chunks t)%nat then raise TransportBackpressure
  else modify (set_chunks (chunks t ++ [data])).
End Fake.

(** ** Session

    The transport is an object with its own state [T]; the clock is read as a
    sequence of deadlines that have passed or not. *)

(** [TransportPort]: the operations a session uses. *)
Class TransportPort (T : Type) := {
  port_write : bytes → prog T frame_exn Z;
  port_read : nat → prog T frame_exn bytes
}.

#[global] Instance fake_port : TransportPort FakeTransport := {|
  port_write data := (n <- Fake.write data ;; ret (Z.of_nat n));
  port_read n := Fake.read n
|}.

Record UartSpiSession (T : Type) := {
  port : T;
  kind : TransportKind;
  max_retries : nat;
  read_chunk_bytes : nat;
  rx_buffer : bytes;
  last_rx_sequence : option Z
}.
Arguments port {T} _.
Arguments kind {T} _.
Arguments max_retries {T} _.
Arguments read_chunk_bytes {T} _.
Arguments rx_buffer {T} _.
Arguments last_rx_sequence {T} _.

Section Session.
Context {T : Type} `{!TransportPort T}.

(** [UartSpiSession.__init__] *)
Definition new_session (t : T) (k : TransportKind) (retries chunk : Z)
    : outcome frame_exn (UartSpiSession T) :=
  if negb ((0 <=? retries) && (retries <=? 3)) then Raise ValueError
  else if negb ((1 <=? chunk) && (chunk <=? Z.of_nat MAX_FRAME_BYTES)) then Raise ValueError
  else Ok {| port := t; kind := k; max_retries := Z.to_nat retries; read_chunk_bytes := Z.to_nat chunk;
             rx_buffer := []; last_rx_sequence := None |}.

Abbreviation session := (prog (UartSpiSession T) frame_exn).

Definition set_port (t : T) (s : UartSpiSession T) : UartSpiSession T := {|
  port := t; kind := kind s; max_retries := max_retries s; read_chunk_bytes := read_chunk_bytes s;
  rx_buffer := rx_buffer s; last_rx_sequence := last_rx_sequence s |}.
Definition set_buffer (b : bytes) (s : UartSpiSession T) : UartSpiSession T := {|
  port := port s; kind := kind s; max_retries := max_retries s;
  read_chunk_bytes := read_chunk_bytes s; rx_buffer := b; last_rx_sequence := last_rx_sequence s |}.
Definition set_last (n : Z) (s : UartSpiSession T) : UartSpiSession T := {|
  port := port s; kind := kind s; max_retries := max_retries s;
  read_chunk_bytes := read_chunk_bytes s; rx_buffer := rx_buffer s; last_rx_sequence := Some n |}.

Definition on_port {A} (m : prog T frame_exn A) : session A := λ s,
  let '(r, t) := m (port s) in (r, set_port t s).

(** [except (TransportBackpressure, TransportClosed, TransportIOError)] *)
Definition caught (e : frame_exn) : bool :=
  match e with TransportBackpressure | TransportClosed | TransportIOError => true | _ => false end.

(** The inner [while] of [send]: what is left to write and the number of bytes
    already written.  The result is an exception that [send] catches, with the
    offset it was raised at.  Every write takes at least one byte, so that the
    length of the data is enough fuel. *)
Fixpoint write_all (fuel : nat) (rest : bytes) (offset : nat)
    : session (option (frame_exn * nat)) :=
  match rest, fuel with
  | [], _ | _, O => ret None
  | _, S fuel' => λ s,
      match on_port (port_write rest) s with
      | (Ok n, s') =>
          if (0 <? n) && (n <=? Z.of_nat (length rest))
          then write_all fuel' (drop (Z.to_nat n) rest) (offset + Z.to_nat n) s'
          else (Ok (Some (TransportIOError, offset)), s')
      | (Raise e, s') => if caught e then (Ok (Some (e, offset)), s') else (Raise e, s')
      end
  end.

(** The attempts of [send]: [n] more after the current one. *)
Fixpoint send_attempts (n : nat) (f : UartSpiFrame) (encoded : bytes) : session UartSpiFrame :=
  r <- write_all (length encoded) encoded 0 ;;
  match r with
  | None => ret f
  | Some (e, offset) =>
      if (0 <? offset)%nat then raise TransportIOError
      else match n with O => raise e | S n' => send_attempts n' f encoded end
  end.

Definition send (p : bytes) (s : Z) : session UartSpiFrame :=
  me <- get ;;
  match make_frame (kind me) s p with
  | Raise e => raise e
  | Ok f => send_attempts (max_retries me) f (encode f)
  end.

(** [_take_frame_from_buffer] *)
Definition _take_frame_from_buffer : session (option UartSpiFrame) :=
  s <- get ;;
  match unpack_header (rx_buffer s) with
  | None => ret None
  | Some h =>
      if Z.of_nat MAX_PAYLOAD_BYTES <? h_length h then raise FrameFormatError
      else
        let n := (HEADER_size + Z.to_nat (h_length h) + CRC_size)%nat in
        if (length (rx_buffer s) <? n)%nat then ret None
        else
          modify (set_buffer (drop n (rx_buffer s))) ;;;
          match decode (take n (rx_buffer s)) (Some (kind s)) with
          | Ok f => ret (Some f)
          | Raise e => raise e
          end
  end.

(** [receive] on a complete frame: its sequence number must be newer. *)
Definition deliver (f : UartSpiFrame) : session UartSpiFrame :=
  s <- get ;;
  let stale := match last_rx_sequence s with
               | Some prev => negb (_is_newer (sequence f) prev) | None => false end in
  if stale then raise SequenceError
  else modify (set_last (sequence f)) ;;; ret f.

(** [receive]: [fuel] is the number of turns before the deadline passes. *)
Fixpoint receive (fuel : nat) : session UartSpiFrame :=
  r <- _take_frame_from_buffer ;;
  match r with
  | Some f => deliver f
  | None =>
      match fuel with
      | O => raise TimeoutError
      | S fuel' =>
          s <- get ;;
          chunk <- on_port (port_read (read_chunk_bytes s)) ;;
          if bool_decide (chunk = []) then raise TimeoutError
          else
            modify (set_buffer (rx_buffer s ++ chunk)) ;;;
            if (MAX_FRAME_BYTES <? length (rx_buffer s ++ chunk))%nat then raise FrameFormatError
            else receive fuel'
      end
  end.

End Session.
