(* ===== verification/UartSpiTheorems.v ===== *)
(** * UART/SPI framing: the theorems

    Lemmas about bytes, the checksum and the codec, then the properties. *)

From Stdlib Require Import ZArith.
From S2P Require Import Prelude UartSpi.
Local Open Scope Z_scope.

(** ** The CRC register *)

Definition is_word (c : Z) : Prop := 0 ≤ c < 65536.

Lemma land_FFFF x : Z.land x 0xFFFF = x mod 65536.
Proof. change 0xFFFF with (Z.ones 16). by rewrite Z.land_ones. Qed.

Lemma land_lxor_FFFF x y : Z.land (Z.lxor x y) 0xFFFF = Z.lxor (Z.land x 0xFFFF) (Z.land y 0xFFFF).
Proof.
  apply Z.bits_inj'. intros n Hn. rewrite !Z.land_spec, !Z.lxor_spec, !Z.land_spec.
  by destruct (Z.testbit x n), (Z.testbit y n), (Z.testbit 0xFFFF n).
Qed.

Lemma land_8000 x : Z.land x 0x8000 = if Z.testbit x 15 then 0x8000 else 0.
Proof.
  apply Z.bits_inj'. intros n Hn. rewrite Z.land_spec. change 0x8000 with (2 ^ 15).
  rewrite Z.pow2_bits_eqb by done. destruct (Z.eqb_spec 15 n) as [<-|Hne].
  - destruct (Z.testbit x 15); [by rewrite Z.pow2_bits_true|by rewrite Z.bits_0].
  - rewrite andb_false_r. destruct (Z.testbit x 15); [by rewrite Z.pow2_bits_false|by rewrite Z.bits_0].
Qed.

Lemma testbit_15 c : is_word c → Z.testbit c 15 = (32768 <=? c).
Proof.
  intros Hc. unfold is_word in Hc. rewrite Z.testbit_odd, Z.shiftr_div_pow2 by done.
  change (2 ^ 15) with 32768. destruct (Z.leb_spec 32768 c).
  - replace (c / 32768) with 1; [done|]. apply Z.div_unique with (c - 32768); lia.
  - rewrite Z.div_small by lia. done.
Qed.

Lemma crc_bit_low c : 0 ≤ c < 32768 → crc_bit c = 2 * c.
Proof.
  intros Hc. unfold crc_bit. rewrite land_8000, testbit_15 by (unfold is_word; lia).
  destruct (Z.leb_spec 32768 c); [lia|]. simpl. rewrite land_FFFF, Z.shiftl_mul_pow2 by done.
  rewrite Z.mod_small; lia.
Qed.

Lemma crc_bit_high c : 32768 ≤ c < 65536 → crc_bit c = Z.lxor (2 * (c - 32768)) 0x1021.
Proof.
  intros Hc. unfold crc_bit. rewrite land_8000, testbit_15 by (unfold is_word; lia).
  destruct (Z.leb_spec 32768 c); [|lia]. simpl (_ =? _). cbv iota.
  rewrite land_lxor_FFFF, land_FFFF, Z.shiftl_mul_pow2 by done.
  f_equal. symmetry. apply Z.mod_unique_pos with 1; lia.
Qed.

Lemma crc_bit_word c : is_word (crc_bit c).
Proof. unfold crc_bit, is_word. case_match; rewrite land_FFFF; by apply Z.mod_pos_bound. Qed.

Lemma lxor_inj_l a b k : Z.lxor a k = Z.lxor b k → a = b.
Proof.
  intros H. rewrite <-(Z.lxor_0_r a), <-(Z.lxor_0_r b), <-(Z.lxor_nilpotent k).
  by rewrite <-!Z.lxor_assoc, H.
Qed.

Lemma odd_lxor a b : Z.odd (Z.lxor a b) = xorb (Z.odd a) (Z.odd b).
Proof. by rewrite <-!Z.bit0_odd, Z.lxor_spec. Qed.

Lemma crc_bit_odd c : is_word c → Z.odd (crc_bit c) = (32768 <=? c).
Proof.
  intros Hc. unfold is_word in Hc. destruct (Z.leb_spec 32768 c).
  - rewrite crc_bit_high, odd_lxor, Z.odd_mul by lia. done.
  - rewrite crc_bit_low, Z.odd_mul by lia. done.
Qed.

Lemma crc_bit_inj a b : is_word a → is_word b → crc_bit a = crc_bit b → a = b.
Proof.
  intros Ha Hb H. pose proof (crc_bit_odd a Ha) as Hoa. rewrite H, crc_bit_odd in Hoa by done.
  unfold is_word in *. destruct (Z.leb_spec 32768 a), (Z.leb_spec 32768 b); try done.
  - rewrite !crc_bit_high in H by lia. apply lxor_inj_l in H. lia.
  - rewrite !crc_bit_low in H by lia. lia.
Qed.

Lemma iter_crc_bit_word n c : is_word c → is_word (Nat.iter n crc_bit c).
Proof. destruct n; simpl; [done|]. intros. apply crc_bit_word. Qed.

Lemma iter_crc_bit_inj n a b :
  is_word a → is_word b → Nat.iter n crc_bit a = Nat.iter n crc_bit b → a = b.
Proof.
  intros Ha Hb. induction n as [|n IH]; simpl; [done|].
  intros H%crc_bit_inj; [by apply IH|by apply iter_crc_bit_word..].
Qed.

Lemma lxor_word c b : is_word c → is_byte b → is_word (Z.lxor c (Z.shiftl b 8)).
Proof.
  unfold is_word, is_byte. intros Hc Hb. rewrite Z.shiftl_mul_pow2 by done. change (2 ^ 8) with 256.
  assert (0 ≤ Z.lxor c (b * 256)) as H0 by (apply Z.lxor_nonneg; lia). split; [done|].
  destruct (Z.eq_dec (Z.lxor c (b * 256)) 0) as [->|Hne]; [done|].
  change 65536 with (2 ^ 16). apply Z.log2_lt_pow2; [lia|].
  eapply Z.le_lt_trans; [apply Z.log2_lxor; lia|]. apply Z.max_lub_lt.
  - destruct (Z.eq_dec c 0) as [->|]; [done|]. apply Z.log2_lt_pow2; lia.
  - destruct (Z.eq_dec b 0) as [->|]; [done|]. apply Z.log2_lt_pow2; lia.
Qed.

Lemma crc_byte_word c b : is_word c → is_byte b → is_word (crc_byte c b).
Proof. intros. by apply iter_crc_bit_word, lxor_word. Qed.

Lemma crc_byte_inj_crc a b x :
  is_word a → is_word b → is_byte x → crc_byte a x = crc_byte b x → a = b.
Proof.
  intros Ha Hb Hx H%iter_crc_bit_inj; [|by apply lxor_word..]. by apply lxor_inj_l in H.
Qed.

Lemma crc_byte_inj_byte c x y :
  is_word c → is_byte x → is_byte y → crc_byte c x = crc_byte c y → x = y.
Proof.
  intros Hc Hx Hy H%iter_crc_bit_inj; [|by apply lxor_word..].
  rewrite !(Z.lxor_comm c) in H. apply lxor_inj_l in H.
  rewrite !Z.shiftl_mul_pow2 in H by done. lia.
Qed.

Lemma foldl_crc_word data c : Forall is_byte data → is_word c → is_word (foldl crc_byte c data).
Proof.
  revert c. induction data as [|b data IH]; intros c Hd Hc; [done|].
  apply Forall_cons in Hd as [Hb Hd]. apply IH; [done|]. by apply crc_byte_word.
Qed.

Lemma foldl_crc_inj data a b :
  Forall is_byte data → is_word a → is_word b →
  foldl crc_byte a data = foldl crc_byte b data → a = b.
Proof.
  revert a b. induction data as [|x data IH]; intros a b Hd Ha Hb H; [done|].
  apply Forall_cons in Hd as [Hx Hd]. simpl in H.
  apply IH in H; [by eapply crc_byte_inj_crc|done|by apply crc_byte_word..].
Qed.

Lemma crc_word data : Forall is_byte data → is_word (crc16_ccitt data).
Proof. intros. apply foldl_crc_word; [done|]. unfold is_word. lia. Qed.

(** Two byte strings that differ in one place have different CRCs. *)
Lemma crc_single_byte pre x y post :
  Forall is_byte (pre ++ x :: post) → is_byte y → x ≠ y →
  crc16_ccitt (pre ++ x :: post) ≠ crc16_ccitt (pre ++ y :: post).
Proof.
  intros Hd Hy Hne H. apply Forall_app in Hd as [Hpre [Hx Hpost]%Forall_cons].
  unfold crc16_ccitt in H. rewrite !foldl_app in H. simpl in H.
  assert (is_word (foldl crc_byte 0xFFFF pre)) as Hw by (by apply crc_word).
  apply foldl_crc_inj in H; [|done|by apply crc_byte_word..].
  by apply crc_byte_inj_byte in H.
Qed.

(** ** The codec *)

Definition frame_ok (f : UartSpiFrame) : Prop :=
  0 ≤ sequence f ≤ 0xFFFF ∧ (length (payload f) ≤ MAX_PAYLOAD_BYTES)%nat ∧ Forall is_byte (payload f).

Lemma make_frame_Ok k s p f :
  make_frame k s p = Ok f ↔
  f = {| transport := k; sequence := s; payload := p |} ∧ 0 ≤ s ≤ 0xFFFF ∧
  (length p ≤ MAX_PAYLOAD_BYTES)%nat.
Proof.
  unfold make_frame. destruct ((0 <=? s) && (s <=? 0xFFFF)) eqn:Hs; simpl.
  - rewrite andb_true_iff in Hs. destruct (Nat.ltb_spec MAX_PAYLOAD_BYTES (length p)).
    + split; [done|]. intros (_ & _ & ?). lia.
    + split; [intros [= <-]; split; [done|lia]|by intros (-> & _)].
  - rewrite andb_false_iff in Hs. split; [done|]. intros (_ & ? & _). lia.
Qed.

Lemma unpack_pack n : 0 ≤ n → unpack_H (n / 256) (n mod 256) = n.
Proof. intros. unfold unpack_H. rewrite Z.mul_comm. symmetry. by apply Z.div_mod. Qed.

Lemma pack_unpack a b : is_byte a → is_byte b → pack_H (unpack_H a b) = [a; b].
Proof.
  unfold is_byte, pack_H, unpack_H. intros Ha Hb. f_equal; [|f_equal].
  - symmetry. apply Z.div_unique with b; lia.
  - symmetry. apply Z.mod_unique_pos with a; lia.
Qed.

Lemma pack_bytes n : 0 ≤ n < 65536 → Forall is_byte (pack_H n).
Proof.
  intros Hn. unfold pack_H, is_byte. repeat constructor.
  - apply Z.div_pos; lia.
  - apply Z.div_lt_upper_bound; lia.
  - by apply Z.mod_pos_bound.
  - by apply Z.mod_pos_bound.
Qed.

Lemma kind_roundtrip k : TransportKind_of (kind_value k) = Some k.
Proof. by destruct k. Qed.

Lemma kind_value_of n k : TransportKind_of n = Some k → kind_value k = n.
Proof.
  unfold TransportKind_of. destruct (Z.eqb_spec n 1); [by intros [= <-]|].
  destruct (Z.eqb_spec n 2); [by intros [= <-]|done].
Qed.

Lemma body_bytes f : frame_ok f → Forall is_byte (frame_body f).
Proof.
  intros (Hs & Hl & Hp). unfold frame_body, MAGIC, PROTOCOL_VERSION, MAX_PAYLOAD_BYTES in *.
  rewrite !Forall_app. split_and!; [|destruct (transport f)| | |done];
    try (apply pack_bytes; lia); unfold is_byte; simpl; repeat constructor; lia.
Qed.

Lemma encode_bytes f : frame_ok f → Forall is_byte (encode f).
Proof.
  intros Hf. apply Forall_app. split; [by apply body_bytes|].
  apply pack_bytes, (crc_word (frame_body f)), body_bytes, Hf.
Qed.

Lemma body_length f : length (frame_body f) = (HEADER_size + length (payload f))%nat.
Proof. done. Qed.

Lemma encode_length f : length (encode f) = (HEADER_size + length (payload f) + CRC_size)%nat.
Proof. unfold encode. rewrite length_app, body_length. done. Qed.

Lemma encode_header f rest :
  frame_ok f →
  unpack_header (encode f ++ rest) =
  Some {| h_magic := MAGIC; h_version := PROTOCOL_VERSION; h_kind := kind_value (transport f);
          h_sequence := sequence f; h_length := Z.of_nat (length (payload f)) |}.
Proof.
  intros (Hs & Hl & Hp). unfold encode, frame_body. simpl. do 2 f_equal; by apply unpack_pack; lia.
Qed.

Lemma encode_decode f e :
  frame_ok f → (e = None ∨ e = Some (transport f)) → decode (encode f) e = Ok f.
Proof.
  intros Hf He. pose proof Hf as (Hs & Hl & Hp). unfold decode.
  rewrite encode_length. unfold MAX_FRAME_BYTES.
  destruct (Nat.ltb_spec (HEADER_size + length (payload f) + CRC_size) (HEADER_size + CRC_size)); [lia|].
  destruct (Nat.ltb_spec (HEADER_size + MAX_PAYLOAD_BYTES + CRC_size)
    (HEADER_size + length (payload f) + CRC_size)); [lia|].
  rewrite <-(app_nil_r (encode f)), encode_header, app_nil_r by done. cbn [h_magic h_version h_kind h_length h_sequence].
  rewrite bool_decide_eq_true_2, Z.eqb_refl, kind_roundtrip by done. cbn [negb].
  replace (match e with Some _ => _ | None => _ end) with false.
  2:{ destruct He as [->| ->]; [done|]. by rewrite bool_decide_eq_true_2. }
  destruct (Z.ltb_spec (Z.of_nat MAX_PAYLOAD_BYTES) (Z.of_nat (length (payload f)))); [lia|].
  rewrite Nat2Z.id, Nat.eqb_refl. cbn [negb].
  replace (HEADER_size + length (payload f) + CRC_size - CRC_size)%nat with (length (frame_body f))
    by (rewrite body_length; lia).
  assert (take (length (frame_body f)) (encode f) = frame_body f) as -> by apply take_app_length.
  assert (drop (length (frame_body f)) (encode f) = pack_H (crc16_ccitt (frame_body f))) as ->
    by apply drop_app_length.
  cbn [pack_H].
  rewrite unpack_pack by (apply (crc_word (frame_body f)), body_bytes, Hf).
  rewrite Z.eqb_refl. cbn [negb]. assert (take (length (payload f)) (drop HEADER_size (encode f)) = payload f) as ->.
  { unfold encode, frame_body, HEADER_size. rewrite <-!app_assoc. apply take_app_length. }
  apply make_frame_Ok. by destruct f.
Qed.

(** What [decode] accepts is an encoded frame. *)
Lemma decode_encode raw e f :
  Forall is_byte raw → decode raw e = Ok f →
  encode f = raw ∧ frame_ok f ∧ (e = None ∨ e = Some (transport f)).
Proof.
  intros Hraw. unfold decode. destruct (Nat.ltb_spec (length raw) (HEADER_size + CRC_size)); [done|].
  destruct (Nat.ltb_spec MAX_FRAME_BYTES (length raw)); [done|].
  destruct raw as [|m1 [|m2 [|v [|k [|s1 [|s2 [|l1 [|l2 rest]]]]]]]]; try done.
  rewrite !Forall_cons in Hraw. destruct Hraw as (? & ? & Hv & Hk & Hs1 & Hs2 & Hl1 & Hl2 & Hrest).
  cbn [unpack_header h_magic h_version h_kind h_sequence h_length].
  destruct (bool_decide ([m1; m2] = MAGIC)) eqn:Hm; [|done]. apply bool_decide_eq_true in Hm. cbn [negb].
  destruct (Z.eqb_spec v PROTOCOL_VERSION) as [->|]; [|done]. cbn [negb].
  destruct (TransportKind_of k) as [kd|] eqn:Hkd; [|done].
  destruct (match e with Some _ => _ | None => _ end) eqn:He; [done|].
  assert (0 ≤ unpack_H l1 l2) as Hlen0 by (unfold unpack_H, is_byte in *; lia).
  destruct (Z.ltb_spec (Z.of_nat MAX_PAYLOAD_BYTES) (unpack_H l1 l2)) as [|Hmax]; [done|].
  set (n := Z.to_nat (unpack_H l1 l2)).
  destruct (Nat.eqb_spec (length (m1 :: m2 :: PROTOCOL_VERSION :: k :: s1 :: s2 :: l1 :: l2 :: rest))
    (HEADER_size + n + CRC_size)) as [Hlen|]; [|done]. cbn [negb]. rewrite Hlen.
  replace (HEADER_size + n + CRC_size - CRC_size)%nat with (8 + n)%nat by (unfold HEADER_size; lia).
  set (hd := [m1; m2; PROTOCOL_VERSION; k; s1; s2; l1; l2]).
  change (m1 :: m2 :: PROTOCOL_VERSION :: k :: s1 :: s2 :: l1 :: l2 :: rest) with (hd ++ rest) in *.
  change (take (8 + n) (hd ++ rest)) with (hd ++ take n rest).
  change (drop (8 + n) (hd ++ rest)) with (drop n rest).
  change (drop HEADER_size (hd ++ rest)) with rest.
  assert (length rest = n + 2)%nat as Hr.
  { rewrite length_app in Hlen. unfold HEADER_size, CRC_size, hd in Hlen. simpl in Hlen. lia. }
  assert (length (take n rest) = n) as Hp by (rewrite length_take; lia).
  assert (length (drop n rest) = 2)%nat as Hc by (rewrite length_drop; lia).
  pose proof (take_drop n rest) as Hsplit.
  assert (Forall is_byte (take n rest)) as Hpb by (by apply Forall_take).
  assert (Forall is_byte (drop n rest)) as Hcb by (by apply Forall_drop).
  destruct (drop n rest) as [|c1 [|c2 [|]]]; simpl in Hc; try lia.
  set (p := take n rest) in *.
  destruct (Z.eqb_spec (unpack_H c1 c2) (crc16_ccitt (hd ++ p))) as [Hcrc|]; [|done]. cbn [negb].
  intros (-> & Hs & Hpl)%make_frame_Ok. rewrite !Forall_cons in Hcb. destruct Hcb as (Hc1 & Hc2 & _).
  assert (frame_body {| transport := kd; sequence := unpack_H s1 s2; payload := p |} = hd ++ p) as Hbody.
  { unfold frame_body. cbn [transport sequence payload].
    rewrite (kind_value_of k kd Hkd), Hp. unfold n. rewrite (Z2Nat.id _ Hlen0), !pack_unpack by done.
    unfold MAGIC in *. by simplify_eq/=. }
  split_and!.
  - unfold encode. by rewrite Hbody, <-Hcrc, pack_unpack, <-app_assoc, Hsplit.
  - done.
  - destruct e as [e|]; [|by left]. right. apply negb_false_iff, bool_decide_eq_true in He. simpl. by rewrite He.
Qed.

(** ** Corruption *)

(** An accepted byte string is a body followed by the CRC of the body. *)
Lemma decode_crc raw e f :
  Forall is_byte raw → decode raw e = Ok f → ∃ body, raw = body ++ pack_H (crc16_ccitt body).
Proof. intros Hraw H. apply decode_encode in H as (<- & _); [|done]. by eexists. Qed.

Lemma single_byte_corruption raw raw' i b e e' f f' :
  Forall is_byte raw → Forall is_byte raw' → raw !! i ≠ Some b → (i < length raw)%nat →
  raw' = <[i:=b]> raw → decode raw e = Ok f → decode raw' e' = Ok f' → False.
Proof.
  intros Hraw Hraw' Hne Hi -> H1 H2.
  apply decode_crc in H1 as (body & Heq); [|done]. apply decode_crc in H2 as (body' & Heq'); [|done].
  assert (length body = length body') as Hlen.
  { apply (f_equal length) in Heq, Heq'. rewrite length_insert in Heq'.
    rewrite length_app in Heq, Heq'. simpl in *. lia. }
  subst raw. apply Forall_app in Hraw as [Hb _]. destruct (decide (i < length body)%nat) as [Hib|Hib].
  - rewrite insert_app_l in Heq' by done.
    apply app_inj_1 in Heq' as [<- Hcrc]; [|by rewrite length_insert].
    apply (f_equal (λ l, match l with [a; c] => unpack_H a c | _ => 0 end)) in Hcrc. simpl in Hcrc.
    rewrite insert_app_l in Hraw' by done. apply Forall_app in Hraw' as [Hb' _].
    rewrite !unpack_pack in Hcrc by (by apply crc_word).
    rewrite lookup_app_l in Hne by done.
    destruct (lookup_lt_is_Some_2 body i Hib) as [x Hx].
    apply list_elem_of_split_length in Hx as (pre & post & -> & ->).
    rewrite insert_app_r_alt, Nat.sub_diag in Hcrc, Hb' by lia. simpl in Hcrc, Hb'.
    apply Forall_app in Hb' as [_ [Hbyte _]%Forall_cons].
    rewrite list_lookup_middle in Hne by done.
    eapply crc_single_byte; [exact Hb|exact Hbyte| |exact Hcrc]. congruence.
  - rewrite insert_app_r_alt in Heq' by lia. apply app_inj_1 in Heq' as [<- Hcrc]; [|done].
    rewrite lookup_app_r in Hne by lia. apply Hne. rewrite <-Hcrc.
    apply list_lookup_insert_eq. rewrite length_app in Hi. simpl in *. lia.
Qed.

(** ** Sequence numbers *)

Lemma is_newer_spec s p :
  _is_newer s p = true ↔ 0 < (s - p) mod 65536 ≤ 32767.
Proof. unfold _is_newer. rewrite land_FFFF, andb_true_iff. lia. Qed.

(** Newer is irreflexive and asymmetric, and the successor is newer. *)
Lemma is_newer_order s p :
  _is_newer s s = false ∧ (_is_newer s p = true → _is_newer p s = false) ∧
  _is_newer ((s + 1) mod 65536) s = true.
Proof.
  split_and!.
  - apply not_true_iff_false. rewrite is_newer_spec, Z.sub_diag, Zmod_0_l. lia.
  - rewrite is_newer_spec. intros H. apply not_true_iff_false. rewrite is_newer_spec.
    replace (p - s) with (- (s - p)) by lia. rewrite Z.mod_opp_l_nz; lia.
  - apply is_newer_spec. rewrite Zminus_mod_idemp_l. replace (s + 1 - s) with 1 by lia.
    by rewrite Z.mod_1_l.
Qed.

(** ** The session over the fake transport *)

Abbreviation fsession := (UartSpiSession FakeTransport).

(** An open transport with no injected failure. *)
Definition healthy (t : FakeTransport) : Prop :=
  opened t = true ∧ fail_next_write t = false ∧ fail_next_read t = false ∧
  match max_write_bytes t with Some m => (0 < m)%nat | None => True end.

Definition queued (s : fsession) : bytes := mjoin (chunks (port s)).

Lemma fake_write_spec rest t :
  healthy t → rest ≠ [] →
  match Fake.write rest t with
  | (Ok n, t') => (0 < n ≤ length rest)%nat ∧ t' = set_chunks (chunks t ++ [take n rest]) t
  | (Raise e, t') => e = TransportBackpressure ∧ t' = t
  end.
Proof.
  intros (Ho & Hw & _ & Hm) Hr. unfold Fake.write, Fake._ensure_open, bind, get, require.
  rewrite Ho. simpl. rewrite Hw, bool_decide_eq_false_2 by done.
  destruct (capacity t <=? Fake.queued_chunks t)%nat; [done|]. split; [|done].
  assert (0 < length rest)%nat by (destruct rest; [done|simpl; lia]).
  destruct (max_write_bytes t); cbn [default from_option id]; lia.
Qed.

Lemma healthy_set_chunks c t : healthy t → healthy (set_chunks c t).
Proof. done. Qed.

Lemma set_port_id (s : fsession) : set_port (port s) s = s.
Proof. by destruct s. Qed.

(** What [write_all] leaves in the queue. *)
Definition appended (s s' : fsession) (rest : bytes) : Prop :=
  ∃ new, s' = set_port (set_chunks (chunks (port s) ++ new) (port s)) s ∧
         mjoin new = rest ∧ Forall (λ c, c ≠ []) new.

Lemma write_all_spec fuel : ∀ rest off (s : fsession),
  healthy (port s) → (length rest ≤ fuel)%nat →
  match write_all fuel rest off s with
  | (Ok None, s') => appended s s' rest
  | (Ok (Some (e, o)), s') => (off ≤ o)%nat ∧ (o = off → s' = s) ∧ e = TransportBackpressure
  | (Raise _, _) => False
  end.
Proof.
  induction fuel as [|fuel IH]; intros rest off s Hh Hf.
  { destruct rest; [|simpl in Hf; lia]. exists []. simpl. rewrite app_nil_r. split_and!; [|done..].
    by destruct s as [[]]. }
  destruct (decide (rest = [])) as [->|Hne].
  { exists []. simpl. rewrite app_nil_r. split_and!; [|done..]. by destruct s as [[]]. }
  assert (write_all (S fuel) rest off s =
    match on_port (port_write rest) s with
    | (Ok n, s') =>
        if (0 <? n) && (n <=? Z.of_nat (length rest))
        then write_all fuel (drop (Z.to_nat n) rest) (off + Z.to_nat n) s'
        else (Ok (Some (TransportIOError, off)), s')
    | (Raise e, s') => if caught e then (Ok (Some (e, off)), s') else (Raise e, s')
    end) as -> by (by destruct rest).
  unfold on_port, port_write, fake_port, bind. pose proof (fake_write_spec rest (port s) Hh Hne) as Hw.
  destruct (Fake.write rest (port s)) as [[n|e] t'].
  2:{ destruct Hw as [-> ->]. simpl. split_and!; [lia| |done]. intros _. apply set_port_id. }
  destruct Hw as [Hn ->]. simpl. destruct (Z.ltb_spec 0 (Z.of_nat n)); [|lia].
  destruct (Z.leb_spec (Z.of_nat n) (Z.of_nat (length rest))); [|lia]. simpl. rewrite Nat2Z.id.
  set (s1 := set_port _ s). specialize (IH (drop n rest) (off + n)%nat s1).
  destruct (write_all fuel _ _ s1) as [[[[e o]|]|e] s']; simpl in IH.
  - destruct IH as (? & _ & ->); [done|rewrite length_drop; lia|]. split_and!; [lia| |done]. lia.
  - destruct IH as (new & -> & Hj & Hnew); [done|rewrite length_drop; lia|].
    exists (take n rest :: new). split_and!.
    + unfold s1; simpl. by rewrite <-app_assoc.
    + simpl. by rewrite Hj, take_drop.
    + constructor; [|done]. destruct rest, n; [done|done|lia|done].
  - apply IH; [done|rewrite length_drop; lia].
Qed.

Lemma send_attempts_spec n f (s : fsession) s' f' :
  healthy (port s) → send_attempts n f (encode f) s = (Ok f', s') →
  f' = f ∧ appended s s' (encode f).
Proof.
  intros Hh. revert s'. induction n as [|n IH]; intros s'; cbn [send_attempts]; unfold bind;
    pose proof (write_all_spec (length (encode f)) (encode f) 0 s Hh ltac:(lia)) as Hw;
    destruct (write_all _ _ _ _) as [[[[e o]|]|e] s1]; try done.
  - destruct (0 <? o)%nat; done.
  - intros [= <- <-]. done.
  - destruct Hw as (_ & Hsame & _). destruct (Nat.ltb_spec 0 o); [done|].
    rewrite Hsame by lia. apply IH.
  - intros [= <- <-]. done.
Qed.

(** ** Receiving *)

Lemma unpack_header_app a b h : unpack_header a = Some h → unpack_header (a ++ b) = Some h.
Proof. by destruct a as [|? [|? [|? [|? [|? [|? [|? [|? ?]]]]]]]]. Qed.

(** A proper prefix of an encoded frame is not taken from the buffer. *)
Lemma take_frame_prefix (s : fsession) f rest :
  frame_ok f → rx_buffer s ++ rest = encode f → rest ≠ [] →
  _take_frame_from_buffer s = (Ok None, s).
Proof.
  intros Hf Heq Hne. unfold _take_frame_from_buffer, bind, get.
  destruct (unpack_header (rx_buffer s)) as [h|] eqn:Hh; [|done].
  apply (unpack_header_app _ rest) in Hh. rewrite Heq, <-(app_nil_r (encode f)), encode_header in Hh by done.
  injection Hh as <-. cbn [h_length]. pose proof Hf as (_ & Hl & _).
  destruct (Z.ltb_spec (Z.of_nat MAX_PAYLOAD_BYTES) (Z.of_nat (length (payload f)))); [lia|].
  rewrite Nat2Z.id, <-encode_length, <-Heq, length_app.
  destruct (Nat.ltb_spec (length (rx_buffer s)) (length (rx_buffer s) + length rest)); [done|].
  destruct rest; simpl in *; [done|lia].
Qed.

Lemma take_frame_complete (s : fsession) f :
  frame_ok f → rx_buffer s = encode f → transport f = kind s →
  _take_frame_from_buffer s = (Ok (Some f), set_buffer [] s).
Proof.
  intros Hf Heq Hk. unfold _take_frame_from_buffer, bind, get.
  rewrite Heq, <-(app_nil_r (encode f)), encode_header, app_nil_r by done.
  cbn [h_length]. pose proof Hf as (_ & Hl & _).
  destruct (Z.ltb_spec (Z.of_nat MAX_PAYLOAD_BYTES) (Z.of_nat (length (payload f)))); [lia|].
  rewrite Nat2Z.id, <-encode_length, Nat.ltb_irrefl. unfold modify.
  rewrite take_ge, drop_ge by done. rewrite encode_decode; [done|done|]. right. by rewrite Hk.
Qed.

Definition accepts (s : fsession) (n : Z) : Prop :=
  match last_rx_sequence s with Some p => _is_newer n p = true | None => True end.

(** The frame has been handed over and nothing of it is left. *)
Definition delivered (f : UartSpiFrame) (out : outcome frame_exn UartSpiFrame * fsession) : Prop :=
  ∃ s', out = (Ok f, s') ∧ rx_buffer s' = [] ∧ queued s' = [] ∧
        last_rx_sequence s' = Some (sequence f).

Lemma deliver_spec (s : fsession) f :
  accepts s (sequence f) → rx_buffer s = [] → queued s = [] → delivered f (deliver f s).
Proof.
  unfold accepts, deliver, bind, get, modify. intros Hacc Hb Hq.
  destruct (last_rx_sequence s); [rewrite Hacc|]; simpl; by eexists.
Qed.

(** One read of a healthy queue takes a non-empty part of its first chunk. *)
Lemma fake_read_spec t n :
  healthy t → (0 < n)%nat → Forall (λ c, c ≠ []) (chunks t) → chunks t ≠ [] →
  ∃ chunk cs, Fake.read n t = (Ok chunk, set_chunks cs t) ∧ chunk ≠ [] ∧
    Forall (λ c, c ≠ []) cs ∧ chunk ++ mjoin cs = mjoin (chunks t).
Proof.
  intros (Ho & Hw & Hrd & Hm) Hn Hne Hcs.
  unfold Fake.read, Fake._ensure_open, bind, get, require. rewrite Ho. simpl. rewrite Hrd.
  destruct (chunks t) as [|c cs]; [done|]. apply Forall_cons in Hne as [Hcne Hne].
  destruct (length c <=? n)%nat eqn:Hle; [by exists c, cs|]. apply Nat.leb_gt in Hle.
  exists (take n c), (drop n c :: cs). split_and!; [done| | |].
  - destruct c; [done|]. by destruct n; [lia|].
  - constructor; [|done]. intros Hd%(f_equal length). rewrite length_drop in Hd. simpl in Hd. lia.
  - simpl. by rewrite app_assoc, take_drop.
Qed.

Lemma receive_spec fuel : ∀ (s : fsession) f,
  frame_ok f → transport f = kind s → healthy (port s) → (0 < read_chunk_bytes s)%nat →
  Forall (λ c, c ≠ []) (chunks (port s)) → rx_buffer s ++ queued s = encode f →
  (length (queued s) ≤ fuel)%nat → accepts s (sequence f) → delivered f (receive fuel s).
Proof.
  induction fuel as [|fuel IH]; intros s f Hf Hk Hh Hc Hne Heq Hfuel Hacc; cbn [receive]; unfold bind at 1;
    destruct (decide (queued s = [])) as [Hq|Hq].
  1,3: rewrite Hq, app_nil_r in Heq; rewrite (take_frame_complete s f) by done; by apply deliver_spec.
  { destruct (queued s); [done|simpl in Hfuel; lia]. }
  rewrite (take_frame_prefix s f (queued s)) by done.
  unfold bind at 1, get. unfold bind at 1, on_port, port_read, fake_port.
  destruct (fake_read_spec (port s) (read_chunk_bytes s) Hh Hc Hne) as (chunk & cs & -> & Hch & Hcs & Hsplit).
  { intros Hz. apply Hq. unfold queued. by rewrite Hz. }
  rewrite bool_decide_eq_false_2 by done. unfold bind, modify. fold (queued s) in Hsplit.
  assert (length (rx_buffer s ++ chunk) ≤ length (encode f))%nat as Hlen.
  { rewrite <-Heq, <-Hsplit, app_assoc, (length_app (_ ++ chunk)). lia. }
  rewrite encode_length in Hlen. pose proof Hf as (_ & Hl & _).
  destruct (Nat.ltb_spec MAX_FRAME_BYTES (length (rx_buffer s ++ chunk)));
    [unfold MAX_FRAME_BYTES in *; lia|].
  apply IH; try done.
  - simpl. unfold queued; simpl. by rewrite <-app_assoc, Hsplit.
  - unfold queued; simpl. apply (f_equal length) in Hsplit. rewrite length_app in Hsplit.
    destruct chunk; [done|]. simpl in Hsplit. lia.
Qed.

Local Open Scope Z_scope.

Definition demo_frame : UartSpiFrame := {| transport := UART; sequence := 7; payload := [1; 2; 255] |}.

Lemma demo_frame_ok : frame_ok demo_frame.
Proof.
  split_and!; simpl; [lia|lia|unfold MAX_PAYLOAD_BYTES; lia|]. unfold is_byte. repeat constructor; lia.
Qed.

(** C28: the codec is a bijection between valid frames and the byte strings that
    [decode] accepts: every frame decodes from its encoding, and every accepted
    byte string is the encoding of the frame it decodes to, which is valid and
    of the expected transport. *)
Theorem codec_is_a_bijection :
  (∀ f e, frame_ok f → (e = None ∨ e = Some (transport f)) → decode (encode f) e = Ok f) ∧
  (∀ raw e f, Forall is_byte raw → decode raw e = Ok f →
     encode f = raw ∧ frame_ok f ∧ (e = None ∨ e = Some (transport f))).
Proof. split; [apply encode_decode|apply decode_encode]. Qed.

(** C27: corruption of one byte is always detected: if a byte string is accepted,
    then no byte string obtained from it by changing exactly one byte, wherever
    it is, is accepted. *)
Theorem single_byte_corruption_is_detected raw i b e e' f :
  Forall is_byte raw → is_byte b → (i < length raw)%nat → raw !! i ≠ Some b →
  decode raw e = Ok f → ∃ err, decode (<[i:=b]> raw) e' = Raise err.
Proof.
  intros Hraw Hb Hi Hne H. destruct (decode (<[i:=b]> raw) e') as [f'|err] eqn:E; [|by exists err].
  destruct (single_byte_corruption raw (<[i:=b]> raw) i b e e' f f'); try done.
  by apply Forall_insert.
Qed.

Lemma single_byte_corruption_is_detected_witness :
  ∃ err, decode (<[9%nat:=3]> (encode demo_frame)) None = Raise err.
Proof.
  apply (single_byte_corruption_is_detected (encode demo_frame) 9 3 None None demo_frame).
  - apply encode_bytes, demo_frame_ok.
  - unfold is_byte. lia.
  - vm_compute. lia.
  - vm_compute. congruence.
  - by vm_compute.
Defined.

(** What is sent arrives: over an open loopback transport without injected
    failures and with an empty queue, whatever the write and read chunk sizes,
    a frame that [send] accepted is the next frame that [receive] returns, the
    receive buffer and the queue are empty again, and the loop ends within one
    turn per queued byte. *)
Theorem loopback_delivers (s : UartSpiSession FakeTransport) p n f s' fuel :
  healthy (port s) → (0 < read_chunk_bytes s)%nat → chunks (port s) = [] → rx_buffer s = [] →
  accepts s n → Forall is_byte p → send p n s = (Ok f, s') → (MAX_FRAME_BYTES ≤ fuel)%nat →
  f = {| transport := kind s; sequence := n; payload := p |} ∧ delivered f (receive fuel s').
Proof.
  intros Hh Hc Hq Hb Hacc Hp Hs Hfuel. unfold send, bind, get in Hs.
  destruct (make_frame (kind s) n p) as [f0|] eqn:Hm; [|done].
  apply make_frame_Ok in Hm as (-> & Hn & Hl).
  apply send_attempts_spec in Hs as [-> (new & -> & Hj & Hne)]; [|done]. split; [done|].
  set (f := {| transport := kind s; sequence := n; payload := p |}) in *.
  apply receive_spec; try done.
  - simpl. by rewrite Hq.
  - unfold queued; simpl. by rewrite Hq, Hb.
  - unfold queued; simpl. rewrite Hq. simpl. rewrite Hj, encode_length.
    unfold MAX_FRAME_BYTES in Hfuel. change (payload f) with p. lia.
Qed.

Definition demo_transport : FakeTransport := {|
  capacity := 8; max_write_bytes := Some 5%nat; chunks := []; opened := true;
  fail_next_write := false; fail_next_read := false |}.
Definition demo_session : UartSpiSession FakeTransport := {|
  port := demo_transport; kind := UART; max_retries := 1; read_chunk_bytes := 3; rx_buffer := [];
  last_rx_sequence := Some 6 |}.

Lemma loopback_delivers_witness :
  ∃ s', send [1; 2; 255] 7 demo_session = (Ok demo_frame, s') ∧ delivered demo_frame (receive 266 s').
Proof.
  destruct (send [1; 2; 255] 7 demo_session) as [[f|e] s'] eqn:E; [|by vm_compute in E].
  assert (f = demo_frame) as -> by (vm_compute in E; by injection E as <- <-).
  exists s'. split; [done|].
  apply (loopback_delivers demo_session [1; 2; 255] 7 demo_frame s' 266); try done.
  - split_and!; [done..|simpl; lia].
  - simpl. lia.
  - unfold is_byte. repeat constructor; lia.
Defined.

(** Two frames that arrive in one burst. *)
Definition full_frame : UartSpiFrame := {| transport := UART; sequence := 1; payload := repeat 0 256 |}.
Definition next_frame : UartSpiFrame := {| transport := UART; sequence := 2; payload := repeat 0 100 |}.
Definition burst_session : UartSpiSession FakeTransport := {|
  port := {| capacity := 8; max_write_bytes := None;
             chunks := [encode full_frame ++ encode next_frame]; opened := true;
             fail_next_write := false; fail_next_read := false |};
  kind := UART; max_retries := 1; read_chunk_bytes := 64; rx_buffer := []; last_rx_sequence := None |}.

(** The receive bound counts bytes of the following frame: two valid
    frames that arrive back to back, the second one before the first is
    complete in the buffer, make [receive] raise a format error although the
    stream is a concatenation of valid frames; a second call then delivers the
    first frame. *)
Theorem back_to_back_frames_raise :
  let '(r1, s1) := receive 20 burst_session in
  r1 = Raise FrameFormatError ∧ (receive 20 s1).1 = Ok full_frame ∧
  decode (encode full_frame) (Some UART) = Ok full_frame ∧
  decode (encode next_frame) (Some UART) = Ok next_frame.
Proof. vm_compute. by split_and!. Qed.
