(* ===== verification/LinuxDma.v ===== *)
(** * Bounded DMA engine

    [hardware/linux_drivers/dma/contract.py]: preallocated buffers with an
    explicit owner, a bounded descriptor pool, and recovery after errors.  Every
    public method runs under one lock, so that the methods are atomic steps.  A
    buffer argument is an object: one of this provider's, named by its
    identifier, or a foreign one. *)

From Stdlib Require Import ZArith.
From S2P Require Import Prelude.
Local Open Scope prog_scope.
Local Open Scope Z_scope.

Module BufferOwner.
Inductive t : Type :=
| CPU | DMA | FREE.
#[global] Instance eq_dec : EqDecision t.
Proof. solve_decision. Defined.
#[global] Instance enum : StrEnum t := {|
  value x := match x with
    | CPU => "cpu"
    | DMA => "dma"
    | FREE => "free"
    end;
  members := [CPU; DMA; FREE]
|}.
#[global] Instance laws : StrEnumLaws t.
Proof. solve_enum_laws. Qed.
End BufferOwner.

Module DMAState.
Inductive t : Type :=
| READY | HALTED | CLOSED.
#[global] Instance eq_dec : EqDecision t.
Proof. solve_decision. Defined.
#[global] Instance enum : StrEnum t := {|
  value x := match x with
    | READY => "ready"
    | HALTED => "halted"
    | CLOSED => "closed"
    end;
  members := [READY; HALTED; CLOSED]
|}.
#[global] Instance laws : StrEnumLaws t.
Proof. solve_enum_laws. Qed.
End DMAState.

Module DMAStatus.
Inductive t : Type :=
| COMPLETE | ERROR | CANCELLED.
#[global] Instance eq_dec : EqDecision t.
Proof. solve_decision. Defined.
#[global] Instance enum : StrEnum t := {|
  value x := match x with
    | COMPLETE => "complete"
    | ERROR => "error"
    | CANCELLED => "cancelled"
    end;
  members := [COMPLETE; ERROR; CANCELLED]
|}.
#[global] Instance laws : StrEnumLaws t.
Proof. solve_enum_laws. Qed.
End DMAStatus.

Definition MAX_BUFFER_BYTES : Z := 1048576.
Definition MAX_DESCRIPTORS : Z := 1024.

Inductive dma_exn : Type :=
| DMAError
| DMAOwnershipError
| DMAStateError
| DMABackpressure
| DMAProviderClosed.

Record DMABuffer := {
  buffer_id : Z;
  buffer_capacity_bytes : nat;
  data : list Z;
  owner : BufferOwner.t
}.

Record DMADescriptor := {
  descriptor_id : Z;
  d_buffer_id : Z;
  d_length : nat;
  d_status : option DMAStatus.t
}.

Record DMACompletion := {
  c_descriptor_id : Z;
  c_buffer_id : Z;
  c_status : DMAStatus.t;
  bytes_transferred : nat;
  c_error : option string
}.

(** The dicts keep insertion order: [allocate] takes the first of the smallest
    free buffers. *)
Record FakeDMAProvider := {
  buffer_capacity : nat;
  descriptor_capacity : nat;
  buffers : list (Z * DMABuffer);
  descriptors : list (Z * DMADescriptor);
  active : list Z;
  completions : list DMACompletion;
  next_buffer_id : Z;
  next_descriptor_id : Z;
  state : DMAState.t
}.

(** [FakeDMAProvider.__init__] on integers *)
Definition new_provider (bufs descs : Z) : outcome dma_exn FakeDMAProvider :=
  if negb ((1 <=? bufs) && (bufs <=? MAX_DESCRIPTORS)) then Raise DMAError
  else if negb ((1 <=? descs) && (descs <=? MAX_DESCRIPTORS)) then Raise DMAError
  else Ok {| buffer_capacity := Z.to_nat bufs; descriptor_capacity := Z.to_nat descs;
             buffers := []; descriptors := []; active := []; completions := [];
             next_buffer_id := 1; next_descriptor_id := 1; state := DMAState.READY |}.

Definition set_buffers (b : list (Z * DMABuffer)) (p : FakeDMAProvider) : FakeDMAProvider := {|
  buffer_capacity := buffer_capacity p; descriptor_capacity := descriptor_capacity p;
  buffers := b; descriptors := descriptors p; active := active p; completions := completions p;
  next_buffer_id := next_buffer_id p; next_descriptor_id := next_descriptor_id p; state := state p |}.
Definition set_descriptors (d : list (Z * DMADescriptor)) (p : FakeDMAProvider) : FakeDMAProvider := {|
  buffer_capacity := buffer_capacity p; descriptor_capacity := descriptor_capacity p;
  buffers := buffers p; descriptors := d; active := active p; completions := completions p;
  next_buffer_id := next_buffer_id p; next_descriptor_id := next_descriptor_id p; state := state p |}.
Definition set_active (a : list Z) (p : FakeDMAProvider) : FakeDMAProvider := {|
  buffer_capacity := buffer_capacity p; descriptor_capacity := descriptor_capacity p;
  buffers := buffers p; descriptors := descriptors p; active := a; completions := completions p;
  next_buffer_id := next_buffer_id p; next_descriptor_id := next_descriptor_id p; state := state p |}.
Definition set_completions (c : list DMACompletion) (p : FakeDMAProvider) : FakeDMAProvider := {|
  buffer_capacity := buffer_capacity p; descriptor_capacity := descriptor_capacity p;
  buffers := buffers p; descriptors := descriptors p; active := active p; completions := c;
  next_buffer_id := next_buffer_id p; next_descriptor_id := next_descriptor_id p; state := state p |}.
Definition set_state (s : DMAState.t) (p : FakeDMAProvider) : FakeDMAProvider := {|
  buffer_capacity := buffer_capacity p; descriptor_capacity := descriptor_capacity p;
  buffers := buffers p; descriptors := descriptors p; active := active p;
  completions := completions p; next_buffer_id := next_buffer_id p;
  next_descriptor_id := next_descriptor_id p; state := s |}.

Definition with_owner (o : BufferOwner.t) (b : DMABuffer) : DMABuffer := {|
  buffer_id := buffer_id b; buffer_capacity_bytes := buffer_capacity_bytes b; data := data b;
  owner := o |}.
Definition with_data (d : list Z) (b : DMABuffer) : DMABuffer := {|
  buffer_id := buffer_id b; buffer_capacity_bytes := buffer_capacity_bytes b; data := d;
  owner := owner b |}.
Definition with_status (s : DMAStatus.t) (d : DMADescriptor) : DMADescriptor := {|
  descriptor_id := descriptor_id d; d_buffer_id := d_buffer_id d; d_length := d_length d;
  d_status := Some s |}.

Abbreviation dma := (prog FakeDMAProvider dma_exn).

(** A buffer argument. *)
Inductive handle : Type := Mine (id : Z) | ForeignBuffer.

Definition put_buffer (b : DMABuffer) : dma () :=
  modify (λ p, set_buffers (assoc_set (buffer_id b) b (buffers p)) p).
Definition put_descriptor (d : DMADescriptor) : dma () :=
  modify (λ p, set_descriptors (assoc_set (descriptor_id d) d (descriptors p)) p).

Definition _ensure_open : dma () :=
  p <- get ;; require (negb (bool_decide (state p = DMAState.CLOSED))) DMAProviderClosed.

Definition _ensure_ready : dma () :=
  _ensure_open ;;;
  p <- get ;; require (bool_decide (state p = DMAState.READY)) DMAStateError.

Definition _owned_buffer (h : handle) : dma DMABuffer :=
  p <- get ;;
  match h with
  | Mine id => of_option (assoc_get id (buffers p)) DMAOwnershipError
  | ForeignBuffer => raise DMAOwnershipError
  end.

(** [min(..., key=capacity, default=None)]: the first smallest. *)
Fixpoint min_by_capacity (l : list DMABuffer) : option DMABuffer :=
  match l with
  | [] => None
  | b :: l' =>
      match min_by_capacity l' with
      | Some b' => if (buffer_capacity_bytes b' <? buffer_capacity_bytes b)%nat then Some b' else Some b
      | None => Some b
      end
  end.

Definition reusable (capacity : nat) (p : FakeDMAProvider) : option DMABuffer :=
  min_by_capacity (filter (λ b, owner b = BufferOwner.FREE ∧ (capacity ≤ buffer_capacity_bytes b)%nat)
                     (buffers p).*2).

(** [allocate] *)
Definition allocate (capacity : Z) : dma DMABuffer :=
  _ensure_ready ;;;
  if negb ((1 <=? capacity) && (capacity <=? MAX_BUFFER_BYTES)) then raise DMAError
  else
    let n := Z.to_nat capacity in
    p <- get ;;
    match reusable n p with
    | Some b =>
        let b := with_data (repeat 0 (buffer_capacity_bytes b)) (with_owner BufferOwner.CPU b) in
        put_buffer b ;;; ret b
    | None =>
        if (buffer_capacity p <=? length (buffers p))%nat then raise DMABackpressure
        else
          let b := {| buffer_id := next_buffer_id p; buffer_capacity_bytes := n;
                      data := repeat 0 n; owner := BufferOwner.CPU |} in
          modify (λ p, {|
            buffer_capacity := buffer_capacity p; descriptor_capacity := descriptor_capacity p;
            buffers := buffers p; descriptors := descriptors p; active := active p;
            completions := completions p; next_buffer_id := next_buffer_id p + 1;
            next_descriptor_id := next_descriptor_id p; state := state p |}) ;;;
          put_buffer b ;;; ret b
    end.

(** [write] *)
Definition write (h : handle) (bytes : list Z) : dma () :=
  _ensure_ready ;;;
  b <- _owned_buffer h ;;
  if negb (bool_decide (owner b = BufferOwner.CPU)) then raise DMAOwnershipError
  else if (buffer_capacity_bytes b <? length bytes)%nat then raise DMAError
  else put_buffer (with_data (bytes ++ drop (length bytes) (data b)) b).

(** [read] *)
Definition read (h : handle) (length_ : option Z) : dma (list Z) :=
  _ensure_open ;;;
  b <- _owned_buffer h ;;
  if negb (bool_decide (owner b = BufferOwner.CPU)) then raise DMAOwnershipError
  else
    let size := default (Z.of_nat (buffer_capacity_bytes b)) length_ in
    if negb ((0 <=? size) && (size <=? Z.of_nat (buffer_capacity_bytes b))) then raise DMAError
    else ret (take (Z.to_nat size) (data b)).

(** [submit] *)
Definition submit (h : handle) (length_ : Z) : dma DMADescriptor :=
  _ensure_ready ;;;
  b <- _owned_buffer h ;;
  if negb (bool_decide (owner b = BufferOwner.CPU)) then raise DMAOwnershipError
  else if negb ((1 <=? length_) && (length_ <=? Z.of_nat (buffer_capacity_bytes b))) then raise DMAError
  else
    p <- get ;;
    if (descriptor_capacity p <=? length (descriptors p))%nat then raise DMABackpressure
    else
      let d := {| descriptor_id := next_descriptor_id p; d_buffer_id := buffer_id b;
                  d_length := Z.to_nat length_; d_status := None |} in
      modify (λ p, {|
        buffer_capacity := buffer_capacity p; descriptor_capacity := descriptor_capacity p;
        buffers := buffers p; descriptors := descriptors p; active := active p;
        completions := completions p; next_buffer_id := next_buffer_id p;
        next_descriptor_id := next_descriptor_id p + 1; state := state p |}) ;;;
      put_buffer (with_owner BufferOwner.DMA b) ;;;
      put_descriptor d ;;;
      modify (λ p, set_active (active p ++ [descriptor_id d]) p) ;;;
      ret d.

(** The end of one descriptor, shared by [complete_next] and [cancel_pending]:
    the buffer returns to the CPU, the descriptor gets its status and the
    completion is queued.  A missing key is a [KeyError]. *)
Definition finish (id : Z) (s : DMAStatus.t) (bytes : DMADescriptor → nat) (err : option string)
    : dma DMACompletion :=
  p <- get ;;
  d <- of_option (assoc_get id (descriptors p)) DMAError ;;
  b <- of_option (assoc_get (d_buffer_id d) (buffers p)) DMAError ;;
  put_buffer (with_owner BufferOwner.CPU b) ;;;
  let c := {| c_descriptor_id := id; c_buffer_id := d_buffer_id d; c_status := s;
              bytes_transferred := bytes d; c_error := err |} in
  put_descriptor (with_status s d) ;;;
  modify (λ p, set_completions (completions p ++ [c]) p) ;;;
  ret c.

(** [complete_next] *)
Definition complete_next (s : DMAStatus.t) (err : option string) : dma DMACompletion :=
  _ensure_open ;;;
  p <- get ;;
  match active p with
  | [] => raise DMAStateError
  | id :: rest =>
      if bool_decide (s = DMAStatus.CANCELLED) then raise DMAError
      else if bool_decide (s = DMAStatus.ERROR) &&
              match err with Some e => String.eqb e "" | None => true end then raise DMAError
      else
        modify (set_active rest) ;;;
        c <- finish id s (λ d, if bool_decide (s = DMAStatus.COMPLETE) then d_length d else 0%nat) err ;;
        (if bool_decide (s = DMAStatus.ERROR) then modify (set_state DMAState.HALTED) else ret ()) ;;;
        ret c
  end.

(** The [while] of [cancel_pending] over the active queue. *)
Fixpoint cancel_all (ids : list Z) : dma (list DMACompletion) :=
  match ids with
  | [] => ret []
  | id :: rest =>
      modify (set_active rest) ;;;
      c <- finish id DMAStatus.CANCELLED (λ _, 0%nat) (Some "cancelled") ;;
      cs <- cancel_all rest ;;
      ret (c :: cs)
  end.

(** [cancel_pending] *)
Definition cancel_pending : dma (list DMACompletion) :=
  _ensure_open ;;; p <- get ;; cancel_all (active p).

(** [poll_completion] *)
Definition poll_completion : dma (option DMACompletion) :=
  _ensure_open ;;;
  p <- get ;;
  match completions p with
  | [] => ret None
  | c :: cs => modify (set_completions cs) ;;; ret (Some c)
  end.

(** [recycle] *)
Definition recycle (id : Z) : dma DMABuffer :=
  _ensure_open ;;;
  p <- get ;;
  d <- of_option (assoc_get id (descriptors p)) DMAError ;;
  match d_status d with
  | None => raise DMAOwnershipError
  | Some _ =>
      b <- of_option (assoc_get (d_buffer_id d) (buffers p)) DMAError ;;
      if negb (bool_decide (owner b = BufferOwner.CPU)) then raise DMAOwnershipError
      else
        let b := with_owner BufferOwner.FREE b in
        put_buffer b ;;;
        modify (λ p, set_descriptors (filter (λ e, e.1 ≠ id) (descriptors p)) p) ;;;
        ret b
  end.

(** [recover] *)
Definition recover : dma () :=
  p <- get ;;
  if decide (state p = DMAState.CLOSED) then raise DMAProviderClosed
  else if decide (state p ≠ DMAState.HALTED) then raise DMAStateError
  else match active p with
       | [] => modify (set_state DMAState.READY)
       | _ :: _ => raise DMAStateError
       end.

(** [close] *)
Definition close : dma () :=
  p <- get ;;
  if decide (state p = DMAState.CLOSED) then ret ()
  else
    cancel_pending ;;;
    modify (set_completions []) ;;;
    modify (set_state DMAState.CLOSED).

(** ** Sequences of calls *)

Inductive dma_op : Type :=
| Allocate (n : Z) | Write (h : handle) (bytes : list Z) | Read (h : handle) (n : option Z)
| Submit (h : handle) (n : Z) | CompleteNext (s : DMAStatus.t) (err : option string)
| CancelPending | PollCompletion | Recycle (id : Z) | Recover | Close.

Definition dma_step (o : dma_op) (p : FakeDMAProvider) : FakeDMAProvider :=
  match o with
  | Allocate n => (allocate n p).2
  | Write h bs => (write h bs p).2
  | Read h n => (read h n p).2
  | Submit h n => (submit h n p).2
  | CompleteNext s e => (complete_next s e p).2
  | CancelPending => (cancel_pending p).2
  | PollCompletion => (poll_completion p).2
  | Recycle id => (recycle id p).2
  | Recover => (recover p).2
  | Close => (close p).2
  end.

Definition dma_run (ops : list dma_op) (p : FakeDMAProvider) : FakeDMAProvider :=
  foldl (λ p o, dma_step o p) p ops.
