(* ===== verification/LinuxDmaTheorems.v ===== *)
(** * DMA engine: the theorems

    The invariant of the provider with its preservation, then the properties. *)

From Stdlib Require Import ZArith.
From S2P Require Import Prelude LinuxDma.
Local Open Scope Z_scope.

Definition buf (p : FakeDMAProvider) (id : Z) : option DMABuffer := assoc_get id (buffers p).
Definition desc (p : FakeDMAProvider) (id : Z) : option DMADescriptor := assoc_get id (descriptors p).

(** Descriptor [id] is active on buffer [bid]. *)
Definition active_on (p : FakeDMAProvider) (id bid : Z) : Prop :=
  id ∈ active p ∧ ∃ d, desc p id = Some d ∧ d_buffer_id d = bid.

Record dma_inv (p : FakeDMAProvider) : Prop := {
  inv_buffer id b : buf p id = Some b →
    buffer_id b = id ∧ id < next_buffer_id p ∧ length (data b) = buffer_capacity_bytes b;
  inv_descriptor id d : desc p id = Some d →
    descriptor_id d = id ∧ id < next_descriptor_id p ∧
    ∃ b, buf p (d_buffer_id d) = Some b ∧ (d_length d ≤ buffer_capacity_bytes b)%nat;
  inv_keys : NoDup (buffers p).*1 ∧ NoDup (descriptors p).*1 ∧ NoDup (active p);
  inv_active id : id ∈ active p ↔ ∃ d, desc p id = Some d ∧ d_status d = None;
  inv_owner bid b : buf p bid = Some b → (owner b = BufferOwner.DMA ↔ ∃ id, active_on p id bid);
  inv_unique id1 id2 bid : active_on p id1 bid → active_on p id2 bid → id1 = id2;
  inv_bounds : (length (buffers p) ≤ buffer_capacity p)%nat ∧
               (length (descriptors p) ≤ descriptor_capacity p)%nat;
  inv_closed : state p = DMAState.CLOSED → active p = []
}.

Lemma new_provider_inv n m p : new_provider n m = Ok p → dma_inv p.
Proof.
  unfold new_provider. destruct (_ && _); [|done]. destruct (_ && _); [|done]. intros [= <-].
  split; try done; unfold active_on, buf, desc; simpl; try naive_solver.
  - split_and!; constructor.
  - intros id. split; [set_solver|naive_solver].
  - lia.
Qed.

(** ** State changes *)

Lemma assoc_set_length {V} k (v : V) (d : list (Z * V)) :
  length (assoc_set k v d) = if decide (k ∈ d.*1) then length d else S (length d).
Proof.
  rewrite <-(length_fmap fst), assoc_set_keys. case_decide; rewrite ?length_app, length_fmap; simpl; lia.
Qed.

Lemma assoc_get_key {V} k (v : V) (d : list (Z * V)) : assoc_get k d = Some v → k ∈ d.*1.
Proof. intros H. apply assoc_get_elem. by exists v. Qed.

(** The store with buffer [b] put back in its place. *)
Definition store_buffer (b : DMABuffer) (p : FakeDMAProvider) : FakeDMAProvider :=
  set_buffers (assoc_set (buffer_id b) b (buffers p)) p.

Lemma buf_store b p id : buf (store_buffer b p) id = if decide (id = buffer_id b) then Some b else buf p id.
Proof. unfold buf, store_buffer; simpl. apply assoc_get_set. Qed.

(** Replacing a buffer by one of the same shape and owner class. *)
Lemma inv_store_buffer p b b' :
  dma_inv p → buf p (buffer_id b') = Some b →
  buffer_capacity_bytes b' = buffer_capacity_bytes b → length (data b') = buffer_capacity_bytes b' →
  (owner b' = BufferOwner.DMA ↔ owner b = BufferOwner.DMA) →
  dma_inv (store_buffer b' p).
Proof.
  intros [Hb Hd (Hk1 & Hk2 & Hk3) Ha Ho Hu [Hl1 Hl2] Hc] Hget Hcap Hdata Hown.
  split; try done.
  - intros id x. rewrite buf_store. case_decide as Hid; [intros [= <-]|by apply Hb].
    destruct (Hb _ _ Hget) as (_ & ? & _). subst. done.
  - intros id d Hdesc. destruct (Hd id d Hdesc) as (? & ? & x & Hx & ?). split_and!; [done..|].
    setoid_rewrite buf_store. case_decide as Hid; [|by exists x].
    exists b'. split; [done|]. rewrite <-Hid, Hx in Hget. simplify_eq. lia.
  - split_and!; [by apply assoc_set_NoDup|done|done].
  - intros bid x. rewrite buf_store. case_decide as Hid; [intros [= <-]|by apply Ho].
    rewrite Hown. subst bid. by apply Ho.
  - split; [|done]. unfold store_buffer; simpl. rewrite assoc_set_length.
    rewrite decide_True by (by eapply assoc_get_key). done.
Qed.

(** Fields that the invariant reads from elsewhere. *)
Lemma inv_ext p p' :
  buffers p' = buffers p → descriptors p' = descriptors p → active p' = active p →
  next_buffer_id p' = next_buffer_id p → next_descriptor_id p' = next_descriptor_id p →
  buffer_capacity p' = buffer_capacity p → descriptor_capacity p' = descriptor_capacity p →
  (state p' = DMAState.CLOSED → active p = []) → dma_inv p → dma_inv p'.
Proof.
  intros E1 E2 E3 E4 E5 E6 E7 Hs [].
  split; unfold active_on, buf, desc in *; rewrite ?E1, ?E2, ?E3, ?E4, ?E5, ?E6, ?E7; done.
Qed.

(** A new buffer at the next identifier. *)
Lemma inv_new_buffer p b :
  dma_inv p → buffer_id b = next_buffer_id p → owner b ≠ BufferOwner.DMA →
  length (data b) = buffer_capacity_bytes b → (length (buffers p) < buffer_capacity p)%nat →
  dma_inv (store_buffer b {| buffer_capacity := buffer_capacity p;
    descriptor_capacity := descriptor_capacity p; buffers := buffers p; descriptors := descriptors p;
    active := active p; completions := completions p; next_buffer_id := next_buffer_id p + 1;
    next_descriptor_id := next_descriptor_id p; state := state p |}).
Proof.
  intros [Hb Hd (Hk1 & Hk2 & Hk3) Ha Ho Hu [Hl1 Hl2] Hc] Hid Hown Hdata Hlen.
  assert (buf p (buffer_id b) = None) as Hnone.
  { destruct (buf p (buffer_id b)) as [x|] eqn:E; [|done]. apply Hb in E. lia. }
  split; try done.
  - intros id x. rewrite buf_store. simpl. case_decide as Hi; [intros [= <-]; split_and!; [done|lia|done]|].
    intros Hx. destruct (Hb id x Hx) as (? & ? & ?). split_and!; [done|lia|done].
  - intros id d Hdesc. destruct (Hd id d Hdesc) as (? & ? & x & Hx & ?). split_and!; [done..|].
    exists x. rewrite buf_store. split; [|done]. rewrite decide_False; [done|]. congruence.
  - split_and!; [by apply assoc_set_NoDup|done|done].
  - intros bid x. rewrite buf_store. case_decide as Hi; [|by apply Ho].
    intros [= <-]. split; [done|]. intros (id & _ & d & Hdesc & Hbid).
    destruct (Hd id d Hdesc) as (_ & _ & y & Hy & _). congruence.
  - split; [|done]. simpl. rewrite assoc_set_length. case_decide; lia.
Qed.

(** A descriptor is submitted on a buffer that the DMA does not own. *)
Definition submitted (b : DMABuffer) (d : DMADescriptor) (p : FakeDMAProvider) : FakeDMAProvider := {|
  buffer_capacity := buffer_capacity p; descriptor_capacity := descriptor_capacity p;
  buffers := assoc_set (buffer_id b) (with_owner BufferOwner.DMA b) (buffers p);
  descriptors := assoc_set (descriptor_id d) d (descriptors p);
  active := active p ++ [descriptor_id d]; completions := completions p;
  next_buffer_id := next_buffer_id p; next_descriptor_id := next_descriptor_id p + 1;
  state := state p |}.

Lemma inv_submit p b d :
  dma_inv p → buf p (buffer_id b) = Some b → owner b ≠ BufferOwner.DMA → state p ≠ DMAState.CLOSED →
  descriptor_id d = next_descriptor_id p → d_buffer_id d = buffer_id b → d_status d = None →
  (d_length d ≤ buffer_capacity_bytes b)%nat → (length (descriptors p) < descriptor_capacity p)%nat →
  dma_inv (submitted b d p).
Proof.
  intros [Hb Hd (Hk1 & Hk2 & Hk3) Ha Ho Hu [Hl1 Hl2] Hc] Hget Hown Hst Hid Hbid Hstat Hlen Hcap.
  assert (desc p (descriptor_id d) = None) as Hnone.
  { destruct (desc p (descriptor_id d)) as [x|] eqn:E; [|done]. apply Hd in E. lia. }
  assert (descriptor_id d ∉ active p) as Hna by (rewrite Ha, Hnone; naive_solver).
  assert (¬ ∃ id, active_on p id (buffer_id b)) as Hfree by (by rewrite <-(Ho _ _ Hget)).
  assert (∀ id, desc (submitted b d p) id = if decide (id = descriptor_id d) then Some d else desc p id)
    as Hdesc by (intros; apply assoc_get_set).
  assert (∀ id, buf (submitted b d p) id =
    if decide (id = buffer_id b) then Some (with_owner BufferOwner.DMA b) else buf p id)
    as Hbuf by (intros; apply assoc_get_set).
  assert (∀ id bid, active_on (submitted b d p) id bid ↔
    active_on p id bid ∨ (id = descriptor_id d ∧ bid = buffer_id b)) as Hact.
  { intros id bid. unfold active_on. rewrite Hdesc. simpl. rewrite elem_of_app, list_elem_of_singleton.
    case_decide as Hi; [subst id|]; naive_solver. }
  split; try done.
  - intros id x. rewrite Hbuf. case_decide as Hi; [|by apply Hb]. intros [= <-]. subst id. by apply Hb in Hget.
  - intros id x. rewrite Hdesc. simpl. case_decide as Hi.
    + intros [= <-]. split_and!; [done|lia|]. rewrite Hbid, Hbuf, decide_True by done. by eexists.
    + intros Hx. destruct (Hd id x Hx) as (? & ? & y & Hy & ?). split_and!; [done|lia|].
      rewrite Hbuf. case_decide as Hi'; [|by exists y]. exists (with_owner BufferOwner.DMA b).
      split; [done|]. simpl. rewrite Hi', Hget in Hy. by simplify_eq.
  - split_and!; [by apply assoc_set_NoDup..|]. simpl. apply NoDup_app.
    split_and!; [done|set_solver|apply NoDup_singleton].
  - intros id. simpl. rewrite elem_of_app, list_elem_of_singleton, Hdesc, Ha. case_decide; naive_solver.
  - intros bid x. rewrite Hbuf. setoid_rewrite Hact. case_decide as Hi.
    + intros [= <-]. simpl. split; [|done]. intros _. exists (descriptor_id d). by right.
    + intros Hx. rewrite (Ho bid x Hx). naive_solver.
  - intros id1 id2 bid. rewrite !Hact. naive_solver.
  - simpl. rewrite !assoc_set_length. rewrite decide_True by (by eapply assoc_get_key).
    case_decide; lia.
Qed.

(** A descriptor at the head of the queue ends. *)
Definition finished (id : Z) (rest : list Z) (b : DMABuffer) (d : DMADescriptor) (s : DMAStatus.t)
    (c : DMACompletion) (p : FakeDMAProvider) : FakeDMAProvider := {|
  buffer_capacity := buffer_capacity p; descriptor_capacity := descriptor_capacity p;
  buffers := assoc_set (buffer_id b) (with_owner BufferOwner.CPU b) (buffers p);
  descriptors := assoc_set (descriptor_id d) (with_status s d) (descriptors p);
  active := rest; completions := completions p ++ [c];
  next_buffer_id := next_buffer_id p; next_descriptor_id := next_descriptor_id p;
  state := state p |}.

Lemma inv_finish p id rest d b s c :
  dma_inv p → active p = id :: rest → desc p id = Some d → buf p (d_buffer_id d) = Some b →
  dma_inv (finished id rest b d s c p).
Proof.
  intros [Hb Hd (Hk1 & Hk2 & Hk3) Ha Ho Hu [Hl1 Hl2] Hc] Hactive Hget Hbuf0.
  destruct (Hd id d Hget) as (Hdid & Hlt & _). destruct (Hb _ _ Hbuf0) as (Hbid & _).
  rewrite Hactive in Hk3. apply NoDup_cons in Hk3 as [Hnin Hk3].
  assert (∀ i, desc (finished id rest b d s c p) i = if decide (i = id) then Some (with_status s d) else desc p i)
    as Hdesc by (intros; unfold desc; simpl; by rewrite Hdid, assoc_get_set).
  assert (∀ i, buf (finished id rest b d s c p) i =
    if decide (i = buffer_id b) then Some (with_owner BufferOwner.CPU b) else buf p i)
    as Hbuf by (intros; apply assoc_get_set).
  assert (active_on p id (buffer_id b)) as Hid.
  { split; [rewrite Hactive; by left|]. by exists d. }
  assert (∀ i bid, active_on (finished id rest b d s c p) i bid ↔ active_on p i bid ∧ i ≠ id) as Hact.
  { intros i bid. unfold active_on. rewrite Hdesc, Hactive, elem_of_cons. simpl. case_decide; set_solver. }
  split; try done.
  - intros i x. rewrite Hbuf. case_decide as Hi; [|by apply Hb]. intros [= <-]. subst i. rewrite Hbid in *.
    by apply Hb in Hbuf0.
  - intros i x. rewrite Hdesc. case_decide as Hi.
    + intros [= <-]. subst i. split_and!; [done|done|]. simpl. rewrite Hbuf, decide_True by done.
      destruct (Hd id d Hget) as (_ & _ & y & Hy & ?). exists (with_owner BufferOwner.CPU b).
      split; [done|]. rewrite Hbuf0 in Hy. by simplify_eq.
    + intros Hx. destruct (Hd i x Hx) as (? & ? & y & Hy & ?). split_and!; [done..|].
      rewrite Hbuf. case_decide as Hi'; [|by exists y]. exists (with_owner BufferOwner.CPU b).
      split; [done|]. simpl. rewrite Hi', Hbid, Hbuf0 in Hy. by simplify_eq.
  - split_and!; [by apply assoc_set_NoDup..|done].
  - intros i. rewrite Hdesc. simpl. specialize (Ha i). rewrite Hactive, elem_of_cons in Ha.
    case_decide as Hi; [subst i; naive_solver|naive_solver].
  - intros bid x. rewrite Hbuf. setoid_rewrite Hact. case_decide as Hi.
    + intros [= <-]. simpl. split; [done|]. intros (i & Hi' & Hne). subst bid. by destruct Hne; eapply Hu.
    + intros Hx. rewrite (Ho bid x Hx). split; [|naive_solver]. intros (i & Hi'). exists i. split; [done|].
      intros ->. destruct Hi' as (_ & d' & ? & ?). congruence.
  - intros id1 id2 bid. rewrite !Hact. naive_solver.
  - simpl. rewrite !assoc_set_length, Hbid, Hdid.
    rewrite !decide_True by (by eapply assoc_get_key). done.
  - intros Hs. by rewrite (Hc Hs) in Hactive.
Qed.

(** A descriptor that is not active is deleted. *)
Lemma assoc_get_filter {V} k i (d : list (Z * V)) :
  assoc_get i (filter (λ e, e.1 ≠ k) d) = if decide (i = k) then None else assoc_get i d.
Proof.
  induction d as [|[k1 v1] d IH]; simpl; [by case_decide|].
  rewrite filter_cons. simpl. destruct (decide (k1 ≠ k)) as [Hk|Hk]; simpl; rewrite IH;
    repeat case_decide; simplify_eq; try done.
Qed.

Lemma filter_keys {V} k (d : list (Z * V)) : (filter (λ e, e.1 ≠ k) d).*1 = filter (λ x, x ≠ k) d.*1.
Proof.
  induction d as [|[k1 v1] d IH]; [done|]. rewrite fmap_cons, !filter_cons. cbn [fst].
  destruct (decide (k1 ≠ k)); [|done]. by rewrite fmap_cons, IH.
Qed.

Lemma inv_delete p id d :
  dma_inv p → desc p id = Some d → d_status d ≠ None →
  dma_inv (set_descriptors (filter (λ e, e.1 ≠ id) (descriptors p)) p).
Proof.
  intros [Hb Hd (Hk1 & Hk2 & Hk3) Ha Ho Hu [Hl1 Hl2] Hc] Hget Hst.
  set (p' := set_descriptors _ p).
  assert (∀ i, desc p' i = if decide (i = id) then None else desc p i) as Hdesc
    by (intros; apply assoc_get_filter).
  assert (∀ i bid, active_on p' i bid ↔ active_on p i bid) as Hact.
  { intros i bid. unfold active_on. rewrite Hdesc. simpl. case_decide as Hi; [|done]. subst i.
    split; [naive_solver|]. intros (Hin & _). apply Ha in Hin. naive_solver. }
  split; try done.
  - intros i x. rewrite Hdesc. case_decide; [done|]. apply Hd.
  - split_and!; [done| |done]. simpl. rewrite filter_keys. by apply NoDup_filter.
  - intros i. rewrite Hdesc. simpl. rewrite Ha. case_decide; naive_solver.
  - intros bid x Hx. setoid_rewrite Hact. by apply Ho.
  - intros id1 id2 bid. rewrite !Hact. apply Hu.
  - split; [done|]. simpl. etrans; [apply length_filter|done].
Qed.

(** ** Operations *)

Lemma ensure_open_spec {A} (k : () → dma A) p :
  bind _ensure_open k p =
  if decide (state p = DMAState.CLOSED) then (Raise DMAProviderClosed, p) else k () p.
Proof.
  unfold _ensure_open, bind, get, require. case_decide as H.
  - by rewrite bool_decide_eq_true_2.
  - by rewrite bool_decide_eq_false_2.
Qed.

Lemma ensure_ready_spec {A} (k : () → dma A) p :
  bind _ensure_ready k p =
  if decide (state p = DMAState.CLOSED) then (Raise DMAProviderClosed, p)
  else if decide (state p = DMAState.READY) then k () p else (Raise DMAStateError, p).
Proof.
  unfold _ensure_ready. rewrite bind_assoc, ensure_open_spec. case_decide; [done|].
  unfold bind, get, require. case_decide as Hr.
  - by rewrite bool_decide_eq_true_2.
  - by rewrite bool_decide_eq_false_2.
Qed.

Lemma owned_buffer_spec {A} (k : DMABuffer → dma A) h p :
  bind (_owned_buffer h) k p =
  match h with
  | Mine id => match buf p id with Some b => k b p | None => (Raise DMAOwnershipError, p) end
  | ForeignBuffer => (Raise DMAOwnershipError, p)
  end.
Proof. unfold _owned_buffer, bind, get, of_option, buf. destruct h as [id|]; [|done]. by destruct (assoc_get id _). Qed.

Lemma min_by_capacity_elem l b : min_by_capacity l = Some b → b ∈ l.
Proof.
  revert b. induction l as [|x l IH]; intros b H; simpl in H; [done|].
  destruct (min_by_capacity l) as [y|]; [|simplify_eq; by left].
  destruct (_ <? _)%nat; simplify_eq; [right; by apply IH|by left].
Qed.

Lemma assoc_get_of_elem {V} k (v : V) (d : list (Z * V)) :
  NoDup d.*1 → (k, v) ∈ d → assoc_get k d = Some v.
Proof.
  induction d as [|[k1 v1] d IH]; intros Hnd Hin; [set_solver|]. rewrite fmap_cons in Hnd.
  apply NoDup_cons in Hnd as [Hk Hnd]. simpl. apply elem_of_cons in Hin as [Heq|Hin].
  - simplify_eq. by rewrite decide_True.
  - rewrite decide_False; [by apply IH|]. intros ->. apply Hk. simpl.
    by apply (list_elem_of_fmap_2 fst _ (k1, v)).
Qed.

Lemma reusable_spec n p b :
  dma_inv p → reusable n p = Some b →
  buf p (buffer_id b) = Some b ∧ owner b = BufferOwner.FREE ∧ (n ≤ buffer_capacity_bytes b)%nat.
Proof.
  intros Hinv H%min_by_capacity_elem. apply list_elem_of_filter in H as [[Ho Hn] Hin].
  apply list_elem_of_fmap in Hin as ([id b'] & -> & Hin). simpl in *.
  destruct (inv_keys p Hinv) as (Hk & _). pose proof (assoc_get_of_elem _ _ _ Hk Hin) as Hget.
  destruct (inv_buffer p Hinv id b' Hget) as (-> & _). done.
Qed.

Lemma allocate_inv n : preserves dma_inv (allocate n).
Proof.
  intros p Hinv. unfold allocate. rewrite ensure_ready_spec. repeat case_decide; try done.
  destruct (_ && _); [|done]. cbn [negb]. unfold bind at 1, get.
  destruct (reusable (Z.to_nat n) p) as [b|] eqn:Hr.
  - apply reusable_spec in Hr as (Hget & Ho & _); [|done].
    apply (inv_store_buffer p b (with_data _ (with_owner _ b))); try done; simpl;
      [by rewrite repeat_length|]. by rewrite Ho.
  - destruct (Nat.leb_spec (buffer_capacity p) (length (buffers p))); [done|].
    eapply (inv_new_buffer p); try done. simpl. by rewrite repeat_length.
Qed.

Lemma write_inv h bs : preserves dma_inv (write h bs).
Proof.
  intros p Hinv. unfold write. rewrite ensure_ready_spec. repeat case_decide; try done.
  rewrite owned_buffer_spec. destruct h as [id|]; [|done]. destruct (buf p id) as [b|] eqn:Hb; [|done].
  destruct (bool_decide _); [|done]. cbn [negb].
  destruct (Nat.ltb_spec (buffer_capacity_bytes b) (length bs)); [done|].
  destruct (inv_buffer p Hinv id b Hb) as (Hid & _ & Hlen).
  apply (inv_store_buffer p b (with_data _ b)); try done; simpl; [by rewrite Hid|].
  rewrite length_app, length_drop. lia.
Qed.

Lemma submit_inv h n : preserves dma_inv (submit h n).
Proof.
  intros p Hinv. unfold submit. rewrite ensure_ready_spec.
  case_decide as Hst; [done|]. case_decide; [|done].
  rewrite owned_buffer_spec. destruct h as [id|]; [|done]. destruct (buf p id) as [b|] eqn:Hb; [|done].
  destruct (bool_decide _) eqn:Hcpu; [|done]. apply bool_decide_eq_true in Hcpu. cbn [negb].
  destruct (_ && _) eqn:Hn; [|done]. rewrite andb_true_iff in Hn. cbn [negb].
  unfold bind at 1, get.
  destruct (Nat.leb_spec (descriptor_capacity p) (length (descriptors p))); [done|].
  destruct (inv_buffer p Hinv id b Hb) as (Hid & _).
  eapply (inv_submit p b); try done; simpl; [by rewrite Hid|by rewrite Hcpu|lia].
Qed.

(** The head of the active queue always has its descriptor and its buffer. *)
Lemma head_known p id rest :
  dma_inv p → active p = id :: rest →
  ∃ d b, desc p id = Some d ∧ buf p (d_buffer_id d) = Some b.
Proof.
  intros Hinv Ha. destruct (proj1 (inv_active p Hinv id)) as (d & Hd & _); [rewrite Ha; by left|].
  destruct (inv_descriptor p Hinv id d Hd) as (_ & _ & b & Hb & _). by exists d, b.
Qed.

Lemma finish_spec p id rest s f err :
  dma_inv p → active p = id :: rest →
  ∃ c p', finish id s f err (set_active rest p) = (Ok c, p') ∧ dma_inv p' ∧
    active p' = rest ∧ state p' = state p ∧ c_descriptor_id c = id ∧ c_status c = s ∧
    completions p' = completions p ++ [c].
Proof.
  intros Hinv Ha. destruct (head_known p id rest Hinv Ha) as (d & b & Hd & Hb).
  unfold finish, bind at 1, get. unfold desc, buf in *. simpl. rewrite Hd. unfold bind at 1. simpl.
  rewrite Hb. eexists _, _. split; [done|]. split_and!; try done.
  by apply (inv_finish p id rest d b s).
Qed.

Lemma complete_next_inv s err : preserves dma_inv (complete_next s err).
Proof.
  intros p Hinv. unfold complete_next. rewrite ensure_open_spec. case_decide as Hst; [done|].
  unfold bind at 1, get. destruct (active p) as [|id rest] eqn:Ha; [done|].
  destruct (bool_decide (s = DMAStatus.CANCELLED)); [done|]. destruct (_ && _); [done|].
  unfold bind at 1, modify. unfold bind at 1.
  destruct (finish_spec p id rest s (λ d, if bool_decide (s = DMAStatus.COMPLETE) then d_length d else 0%nat)
    err Hinv Ha) as (c & p' & -> & Hinv' & Hact & Hs & _).
  unfold bind. destruct (bool_decide _); [|done]. simpl.
  by apply (inv_ext p').
Qed.

Lemma cancel_all_spec ids : ∀ p,
  dma_inv p → active p = ids →
  ∃ cs p', cancel_all ids p = (Ok cs, p') ∧ dma_inv p' ∧ active p' = [] ∧ state p' = state p ∧
    c_descriptor_id <$> cs = ids ∧ Forall (λ c, c_status c = DMAStatus.CANCELLED) cs ∧
    completions p' = completions p ++ cs.
Proof.
  induction ids as [|id rest IH]; intros p Hinv Ha; simpl.
  { exists [], p. rewrite app_nil_r. by split_and!. }
  unfold bind at 1, modify. unfold bind at 1.
  destruct (finish_spec p id rest DMAStatus.CANCELLED (λ _, 0%nat) (Some "cancelled") Hinv Ha)
    as (c & p1 & -> & Hinv1 & Ha1 & Hs1 & Hid & Hc & Hq1).
  unfold bind. destruct (IH p1 Hinv1 Ha1) as (cs & p2 & -> & Hinv2 & Ha2 & Hs2 & Hids & Hcs & Hq2).
  exists (c :: cs), p2. split_and!; [done..|congruence| | |].
  - by rewrite fmap_cons, Hid, Hids.
  - by constructor.
  - by rewrite Hq2, Hq1, <-app_assoc.
Qed.

Lemma cancel_pending_inv : preserves dma_inv cancel_pending.
Proof.
  intros p Hinv. unfold cancel_pending. rewrite ensure_open_spec. case_decide; [done|].
  unfold bind, get. by destruct (cancel_all_spec (active p) p Hinv eq_refl) as (cs & p' & -> & ? & _).
Qed.

Lemma poll_completion_inv : preserves dma_inv poll_completion.
Proof.
  intros p Hinv. unfold poll_completion. rewrite ensure_open_spec. case_decide; [done|].
  unfold bind, get. destruct (completions p); [done|]. simpl. apply (inv_ext p); try done.
Qed.

Lemma recycle_inv id : preserves dma_inv (recycle id).
Proof.
  intros p Hinv. unfold recycle. rewrite ensure_open_spec. case_decide; [done|].
  unfold bind at 1, get. unfold of_option. fold (desc p id).
  destruct (desc p id) as [d|] eqn:Hd; [|done]. unfold bind at 1, ret.
  destruct (d_status d) eqn:Hst; [|done]. fold (buf p (d_buffer_id d)).
  destruct (buf p (d_buffer_id d)) as [b|] eqn:Hb; [|done]. unfold bind at 1.
  destruct (bool_decide (owner b = _)) eqn:Ho; [|done]. apply bool_decide_eq_true in Ho. cbn [negb].
  destruct (inv_buffer p Hinv _ b Hb) as (Hid & _ & Hlen).
  apply (inv_delete (store_buffer (with_owner BufferOwner.FREE b) p) id d); [|done|by rewrite Hst].
  apply (inv_store_buffer p b); try done; simpl; [by rewrite Hid|]. by rewrite Ho.
Qed.

Lemma recover_inv : preserves dma_inv recover.
Proof.
  intros p Hinv. unfold recover, bind, get. repeat case_decide; try done.
  destruct (active p) eqn:Ha; [|done]. simpl. by apply (inv_ext p).
Qed.

Lemma close_inv : preserves dma_inv close.
Proof.
  intros p Hinv. unfold close, bind at 1, get. case_decide as Hst; [done|].
  unfold cancel_pending. rewrite bind_assoc, ensure_open_spec, decide_False by done.
  unfold bind, get, modify.
  destruct (cancel_all_spec (active p) p Hinv eq_refl) as (cs & p' & -> & Hinv' & Ha & _). simpl.
  by apply (inv_ext p').
Qed.

Lemma dma_step_inv o p : dma_inv p → dma_inv (dma_step o p).
Proof.
  intros Hinv. destruct o; simpl;
    [by apply allocate_inv|by apply write_inv| |by apply submit_inv|by apply complete_next_inv
    |by apply cancel_pending_inv|by apply poll_completion_inv|by apply recycle_inv
    |by apply recover_inv|by apply close_inv].
  unfold read. rewrite ensure_open_spec. case_decide; [done|]. rewrite owned_buffer_spec.
  destruct h as [id|]; [|done]. destruct (buf p id); [|done].
  destruct (bool_decide _); [|done]. by destruct (_ && _).
Qed.

Lemma dma_run_inv ops p : dma_inv p → dma_inv (dma_run ops p).
Proof.
  revert p. induction ops as [|o ops IH]; intros p Hinv; [done|]. apply IH. by apply dma_step_inv.
Qed.

Local Open Scope Z_scope.

Definition demo_provider : FakeDMAProvider :=
  match new_provider 1 4 with
  | Ok p => p
  | Raise _ => {| buffer_capacity := 0; descriptor_capacity := 0; buffers := []; descriptors := [];
                  active := []; completions := []; next_buffer_id := 0; next_descriptor_id := 0;
                  state := DMAState.CLOSED |}
  end.

(** C29: over any sequence of calls on a new provider, whether they succeed or
    raise: the pools stay within their capacities, a buffer is owned by the DMA
    exactly while one descriptor is active on it, no two active descriptors
    share a buffer, every transfer fits in its buffer, and a closed engine has
    nothing active. *)
Theorem dma_ownership_is_exclusive n m p ops :
  new_provider n m = Ok p →
  let q := dma_run ops p in
  (length (buffers q) ≤ buffer_capacity q)%nat ∧
  (length (descriptors q) ≤ descriptor_capacity q)%nat ∧
  (∀ bid b, buf q bid = Some b → (owner b = BufferOwner.DMA ↔ ∃ id, active_on q id bid)) ∧
  (∀ id1 id2 bid, active_on q id1 bid → active_on q id2 bid → id1 = id2) ∧
  (∀ id d, desc q id = Some d → ∃ b, buf q (d_buffer_id d) = Some b ∧
     (d_length d ≤ buffer_capacity_bytes b)%nat) ∧
  (state q = DMAState.CLOSED → active q = []).
Proof.
  intros Hnew q. assert (dma_inv q) as Hinv by (by eapply dma_run_inv, new_provider_inv).
  pose proof (inv_bounds q Hinv) as [? ?]. split_and!; [done|done|apply Hinv..| |apply Hinv].
  intros id d Hd. by destruct (inv_descriptor q Hinv id d Hd) as (_ & _ & ?).
Qed.

Definition demo_submitted : FakeDMAProvider := dma_run [Allocate 16; Submit (Mine 1) 8] demo_provider.

Lemma dma_ownership_is_exclusive_witness :
  ∃ b, buf demo_submitted 1 = Some b ∧ owner b = BufferOwner.DMA ∧ ∃ id, active_on demo_submitted id 1.
Proof.
  eexists. split; [vm_compute; reflexivity|]. split; [reflexivity|].
  eapply (dma_ownership_is_exclusive 1 4 demo_provider [Allocate 16; Submit (Mine 1) 8]);
    [by vm_compute|vm_compute; reflexivity|reflexivity].
Defined.

(** The CPU cannot touch a buffer under DMA: reading, writing and
    submitting it raise an ownership error and change nothing (in a ready
    engine), and its descriptor cannot be recycled. *)
Theorem cpu_cannot_touch_dma_buffer n m p0 ops bid b id bs k :
  new_provider n m = Ok p0 →
  let p := dma_run ops p0 in
  state p = DMAState.READY → buf p bid = Some b → owner b = BufferOwner.DMA → active_on p id bid →
  write (Mine bid) bs p = (Raise DMAOwnershipError, p) ∧
  read (Mine bid) None p = (Raise DMAOwnershipError, p) ∧
  submit (Mine bid) k p = (Raise DMAOwnershipError, p) ∧
  recycle id p = (Raise DMAOwnershipError, p).
Proof.
  intros Hnew p Hst Hb Ho Hact. assert (dma_inv p) as Hinv by (by eapply dma_run_inv, new_provider_inv).
  unfold write, read, submit, recycle. rewrite !ensure_ready_spec, !ensure_open_spec, Hst. simpl.
  rewrite !owned_buffer_spec, Hb, Ho. simpl. split_and!; [done..|].
  destruct Hact as (Hin & d & Hd & _). apply (inv_active p Hinv) in Hin as (d' & Hd' & Hn).
  unfold bind, get, of_option. unfold desc in Hd'. rewrite Hd'. simpl. by rewrite Hn.
Qed.

Lemma cpu_cannot_touch_dma_buffer_witness :
  let p := dma_run [Allocate 16; Submit (Mine 1) 8] demo_provider in
  write (Mine 1) [1; 2] p = (Raise DMAOwnershipError, p).
Proof.
  intros p.
  apply (cpu_cannot_touch_dma_buffer 1 4 demo_provider [Allocate 16; Submit (Mine 1) 8] 1
    (default {| buffer_id := 0; buffer_capacity_bytes := 0; data := []; owner := BufferOwner.FREE |}
       (buf p 1)) 1 [1; 2] 1); try by vm_compute.
  split; [vm_compute; repeat constructor|]. eexists. split; by vm_compute.
Defined.

(** Cancellation and closing leave nothing behind: [cancel_pending] on an
    open engine succeeds, completes every active descriptor in submission order
    as CANCELLED and empties the queue; after that [recover] returns a halted
    engine to READY, which it refuses to do while descriptors are active. *)
Theorem cancel_then_recover n m p0 ops :
  new_provider n m = Ok p0 →
  let p := dma_run ops p0 in
  state p = DMAState.HALTED →
  ∃ cs p', cancel_pending p = (Ok cs, p') ∧ c_descriptor_id <$> cs = active p ∧
    Forall (λ c, c_status c = DMAStatus.CANCELLED) cs ∧ active p' = [] ∧
    recover p' = (Ok (), set_state DMAState.READY p') ∧
    (active p ≠ [] → recover p = (Raise DMAStateError, p)).
Proof.
  intros Hnew p Hst. assert (dma_inv p) as Hinv by (by eapply dma_run_inv, new_provider_inv).
  unfold cancel_pending. rewrite ensure_open_spec, decide_False by congruence. unfold bind at 1, get.
  destruct (cancel_all_spec (active p) p Hinv eq_refl) as (cs & p' & -> & _ & Ha & Hs & Hids & Hc & _).
  exists cs, p'. split_and!; [done..| |].
  - unfold recover, bind, get. rewrite Hs, Hst, Ha. done.
  - intros Hne. unfold recover, bind, get. rewrite Hst. simpl. by destruct (active p).
Qed.

Definition halting : list dma_op :=
  [Allocate 16; Submit (Mine 1) 8; CompleteNext DMAStatus.ERROR (Some "bus fault")].

Lemma cancel_then_recover_witness :
  let p := dma_run halting demo_provider in
  ∃ cs p', cancel_pending p = (Ok cs, p') ∧ c_descriptor_id <$> cs = active p ∧
    Forall (λ c, c_status c = DMAStatus.CANCELLED) cs ∧ active p' = [] ∧
    recover p' = (Ok (), set_state DMAState.READY p') ∧
    (active p ≠ [] → recover p = (Raise DMAStateError, p)).
Proof.
  intros p. apply (cancel_then_recover 1 4 demo_provider halting); by vm_compute.
Defined.

(** One buffer, submitted twice before either descriptor is recycled. *)
Definition resubmission : list dma_op :=
  [ Allocate 16; Submit (Mine 1) 8; CompleteNext DMAStatus.COMPLETE None;
    Submit (Mine 1) 8; CompleteNext DMAStatus.COMPLETE None ].

(** Recycling is not tied to the buffer's current user: when a completed
    buffer is submitted again before its first descriptor is recycled, the two
    descriptors free it twice.  After the first recycle a new user allocates the
    buffer; the second recycle frees it under that user, and the next
    allocation hands the same buffer to a third one, both being told that they
    own it. *)
Theorem stale_descriptor_frees_reused_buffer :
  let p0 := dma_run resubmission demo_provider in
  let '(_, p1) := recycle 1 p0 in
  let '(first, p2) := allocate 16 p1 in
  let '(second_recycle, p3) := recycle 2 p2 in
  let '(second, p4) := allocate 16 p3 in
  first = second ∧
  (∃ b, first = Ok b ∧ buffer_id b = 1 ∧ owner b = BufferOwner.CPU) ∧
  (∃ b, second_recycle = Ok b ∧ buffer_id b = 1 ∧ owner b = BufferOwner.FREE).
Proof. vm_compute. split_and!; [done|by eexists|by eexists]. Qed.
