(* ===== verification/LinuxGpio.v ===== *)
(** * GPIO lines

    [hardware/linux_drivers/gpio/contract.py]: named lines with a polarity, an
    edge subscription and a debounce time, and a bounded event queue.  Every
    method holds one lock, so that the methods are atomic steps. *)

From Stdlib Require Import ZArith.
From S2P Require Import Prelude PyVal.
Local Open Scope prog_scope.
Local Open Scope Z_scope.

Module GPIODirection.
Inductive t : Type :=
| INPUT | OUTPUT.
#[global] Instance eq_dec : EqDecision t.
Proof. solve_decision. Defined.
#[global] Instance enum : StrEnum t := {|
  value x := match x with
    | INPUT => "input"
    | OUTPUT => "output"
    end;
  members := [INPUT; OUTPUT]
|}.
#[global] Instance laws : StrEnumLaws t.
Proof. solve_enum_laws. Qed.
End GPIODirection.

Inductive Edge : Type := NONE | RISING | FALLING | BOTH.
#[global] Instance Edge_eq_dec : EqDecision Edge.
Proof. solve_decision. Defined.

Inductive gpio_exn : Type :=
| GPIOError | GPIOPermissionError | GPIOStateError | GPIOProviderClosed | GPIOQueueFull.

Record GPIOConfig := {
  name : string;
  direction : GPIODirection.t;
  active_high : bool;
  edge : Edge;
  debounce_ns : Z
}.

(** [GPIOConfig.__post_init__] *)
Definition valid_config (c : GPIOConfig) : bool :=
  negb (String.eqb (name c) "") && (String.length (name c) <=? 64)%nat &&
  (0 <=? debounce_ns c) && (debounce_ns c <=? 60000000000) &&
  negb (bool_decide (direction c = GPIODirection.OUTPUT) && negb (bool_decide (edge c = NONE))).

Record GPIOEvent := { line : string; ev_sequence : Z; ev_value : bool; timestamp_ns : Z }.

Record FakeGPIOProvider := {
  configs : gmap string GPIOConfig;
  values : gmap string bool;
  observed : gset string;
  last_timestamp : gmap string Z;
  events : list GPIOEvent;
  next_sequence : Z;
  event_capacity : nat;
  closed : bool
}.

(** [_to_logical] and [_to_physical] *)
Definition _to_logical (c : GPIOConfig) (physical : bool) : bool :=
  if active_high c then physical else negb physical.
Definition _to_physical (c : GPIOConfig) (logical : bool) : bool :=
  if active_high c then logical else negb logical.

(** [FakeGPIOProvider.__init__] on validated configurations *)
Definition new_provider (cs : list GPIOConfig) (cap : Z) : outcome gpio_exn FakeGPIOProvider :=
  if negb ((1 <=? cap) && (cap <=? 1024)) then Raise GPIOError
  else match cs with
       | [] => Raise GPIOError
       | _ =>
           if negb (bool_decide (NoDup (name <$> cs))) then Raise GPIOError
           else Ok {|
             configs := list_to_map ((λ c, (name c, c)) <$> cs);
             values := list_to_map ((λ c, (name c,
               if decide (direction c = GPIODirection.OUTPUT) then negb (active_high c) else false)) <$> cs);
             observed := ∅; last_timestamp := ∅; events := []; next_sequence := 0;
             event_capacity := Z.to_nat cap; closed := false |}
       end.

Definition set_value (n : string) (v : bool) (p : FakeGPIOProvider) : FakeGPIOProvider := {|
  configs := configs p; values := <[n:=v]> (values p); observed := observed p;
  last_timestamp := last_timestamp p; events := events p; next_sequence := next_sequence p;
  event_capacity := event_capacity p; closed := closed p |}.

(** [self._last_timestamp[name] = t; self._values[name] = v] *)
Definition sample (n : string) (v : bool) (t : Z) (p : FakeGPIOProvider) : FakeGPIOProvider := {|
  configs := configs p; values := <[n:=v]> (values p); observed := observed p;
  last_timestamp := <[n:=t]> (last_timestamp p); events := events p;
  next_sequence := next_sequence p; event_capacity := event_capacity p; closed := closed p |}.

Definition observe (n : string) (p : FakeGPIOProvider) : FakeGPIOProvider := {|
  configs := configs p; values := values p; observed := {[n]} ∪ observed p;
  last_timestamp := last_timestamp p; events := events p; next_sequence := next_sequence p;
  event_capacity := event_capacity p; closed := closed p |}.

Definition push_event (e : GPIOEvent) (p : FakeGPIOProvider) : FakeGPIOProvider := {|
  configs := configs p; values := values p; observed := observed p;
  last_timestamp := last_timestamp p; events := events p ++ [e];
  next_sequence := next_sequence p + 1; event_capacity := event_capacity p; closed := closed p |}.

Definition set_events (l : list GPIOEvent) (b : bool) (p : FakeGPIOProvider) : FakeGPIOProvider := {|
  configs := configs p; values := values p; observed := observed p;
  last_timestamp := last_timestamp p; events := l; next_sequence := next_sequence p;
  event_capacity := event_capacity p; closed := b |}.

Abbreviation gpio := (prog FakeGPIOProvider gpio_exn).

Definition _ensure_open : gpio () := p <- get ;; require (negb (closed p)) GPIOProviderClosed.

(** [close] *)
Definition close : gpio () := modify (set_events [] true).

(** [configure] *)
Definition configure (n : string) : gpio GPIOConfig :=
  _ensure_open ;;; p <- get ;; of_option (configs p !! n) GPIOError.

(** [read] *)
Definition read (n : string) : gpio bool :=
  c <- configure n ;;
  p <- get ;;
  if negb (bool_decide (direction c = GPIODirection.INPUT)) then raise GPIOPermissionError
  else if decide (n ∉ observed p) then raise GPIOStateError
  else v <- of_option (values p !! n) GPIOError ;; ret (_to_logical c v).

(** [write] of a boolean *)
Definition write (n : string) (v : bool) : gpio () :=
  c <- configure n ;;
  if negb (bool_decide (direction c = GPIODirection.OUTPUT)) then raise GPIOPermissionError
  else modify (set_value n (_to_physical c v)).

(** The edge of a change to the logical value [next]. *)
Definition edge_of (previous next : bool) : Edge := if negb previous && next then RISING else FALLING.

Definition subscribed (c : GPIOConfig) (e : Edge) : bool :=
  negb (bool_decide (edge c = NONE) ||
        (negb (bool_decide (edge c = e)) && negb (bool_decide (edge c = BOTH)))).

(** [inject_input] of a boolean at an integer time *)
Definition inject_input (n : string) (v : bool) (t : Z) : gpio (option GPIOEvent) :=
  c <- configure n ;;
  p <- get ;;
  if negb (bool_decide (direction c = GPIODirection.INPUT)) then raise GPIOPermissionError
  else if t <? 0 then raise GPIOError
  else if match last_timestamp p !! n with Some prev => t <=? prev | None => false end
  then raise GPIOStateError
  else
    prev_physical <- of_option (values p !! n) GPIOError ;;
    let previous := _to_logical c prev_physical in
    let next := _to_logical c v in
    if decide (n ∉ observed p) then modify (sample n v t) ;;; modify (observe n) ;;; ret None
    else if Bool.eqb previous next then modify (sample n v t) ;;; ret None
    else if negb (debounce_ns c =? 0) &&
            match last_timestamp p !! n with Some prev => t - prev <? debounce_ns c | None => false end
    then modify (sample n v t) ;;; ret None
    else if negb (subscribed c (edge_of previous next)) then modify (sample n v t) ;;; ret None
    else if (event_capacity p <=? length (events p))%nat then raise GPIOQueueFull
    else
      let e := {| line := n; ev_sequence := next_sequence p; ev_value := next; timestamp_ns := t |} in
      modify (sample n v t) ;;; modify (push_event e) ;;; ret (Some e).

(** [read_event] *)
Definition read_event : gpio (option GPIOEvent) :=
  _ensure_open ;;;
  p <- get ;;
  match events p with
  | [] => ret None
  | e :: es => modify (set_events es (closed p)) ;;; ret (Some e)
  end.

(** ** Sequences of calls *)

Inductive gpio_op : Type :=
| Read (n : string) | Write (n : string) (v : bool) | Inject (n : string) (v : bool) (t : Z)
| ReadEvent | Close.

(** One call: the event it queued and the event it took, if any. *)
Definition gpio_step (o : gpio_op) (p : FakeGPIOProvider)
    : option GPIOEvent * option GPIOEvent * FakeGPIOProvider :=
  let out {A} (r : outcome gpio_exn (option A)) := match r with Ok e => e | Raise _ => None end in
  match o with
  | Read n => (None, None, (read n p).2)
  | Write n v => (None, None, (write n v p).2)
  | Inject n v t => (out (inject_input n v t p).1, None, (inject_input n v t p).2)
  | ReadEvent => (None, out (read_event p).1, (read_event p).2)
  | Close => (None, None, (close p).2)
  end.

(** The events queued and taken, in order, and the final provider. *)
Fixpoint gpio_run (ops : list gpio_op) (p : FakeGPIOProvider)
    : list GPIOEvent * list GPIOEvent * FakeGPIOProvider :=
  match ops with
  | [] => ([], [], p)
  | o :: ops' =>
      let '(queued, taken, p1) := gpio_step o p in
      let '(qs, ts, p2) := gpio_run ops' p1 in
      (option_list queued ++ qs, option_list taken ++ ts, p2)
  end.

(** ** Lemmas *)

Lemma configure_spec {A} n (k : GPIOConfig → gpio A) p :
  bind (configure n) k p =
  if closed p then (Raise GPIOProviderClosed, p)
  else match configs p !! n with Some c => k c p | None => (Raise GPIOError, p) end.
Proof.
  unfold configure, _ensure_open, bind, get, require, of_option.
  destruct (closed p); [done|]. simpl. by destruct (configs p !! n).
Qed.

(** What [inject_input] can do to the queue. *)
Lemma inject_spec n v t p :
  let '(r, p') := inject_input n v t p in
  closed p' = closed p ∧ event_capacity p' = event_capacity p ∧
  match r with
  | Ok (Some e) => events p' = events p ++ [e] ∧ ev_sequence e = next_sequence p ∧
      next_sequence p' = next_sequence p + 1 ∧ closed p = false ∧
      (length (events p) < event_capacity p)%nat ∧ line e = n ∧ timestamp_ns e = t
  | Ok None => events p' = events p ∧ next_sequence p' = next_sequence p
  | Raise _ => p' = p
  end.
Proof.
  unfold inject_input. rewrite configure_spec. destruct (closed p) eqn:Hc; [done|].
  destruct (configs p !! n) as [c|]; [|done]. unfold bind at 1, get.
  destruct (bool_decide _); [|done]. cbn [negb].
  destruct (t <? 0); [done|]. destruct (match last_timestamp p !! n with Some _ => _ | None => _ end); [done|].
  unfold bind at 1, of_option. destruct (values p !! n) as [prev|]; [|done]. unfold ret at 1.
  destruct (decide (n ∉ observed p)); [done|]. destruct (Bool.eqb _ _); [done|].
  destruct (_ && _); [done|]. destruct (subscribed _ _); [|done]. cbn [negb].
  destruct (Nat.leb_spec (event_capacity p) (length (events p))); [done|].
  unfold bind, modify, ret. simpl. by split_and!.
Qed.

(** The queue of a provider: bounded, numbered consecutively up to the next
    sequence number. *)
Definition queue_ok (p : FakeGPIOProvider) : Prop :=
  (length (events p) ≤ event_capacity p)%nat ∧
  (ev_sequence <$> events p) = seqZ (next_sequence p - Z.of_nat (length (events p))) (Z.of_nat (length (events p))).

Lemma queue_ok_push p e p' :
  queue_ok p → events p' = events p ++ [e] → ev_sequence e = next_sequence p →
  next_sequence p' = next_sequence p + 1 → event_capacity p' = event_capacity p →
  (length (events p) < event_capacity p)%nat → queue_ok p'.
Proof.
  intros [Hl Hs] He Hseq Hn Hcap Hlt. unfold queue_ok. rewrite He, Hn, Hcap, length_app, fmap_app, Hs. simpl.
  split; [lia|]. rewrite Hseq, Nat2Z.inj_add.
  replace (next_sequence p + 1 - (Z.of_nat (length (events p)) + Z.of_nat 1))
    with (next_sequence p - Z.of_nat (length (events p))) by lia.
  rewrite seqZ_app by lia. f_equal. simpl. unfold seqZ. simpl. f_equal. lia.
Qed.

Lemma queue_ok_pop p e es b :
  queue_ok p → events p = e :: es → queue_ok (set_events es b p).
Proof.
  intros [Hl Hs] He. rewrite He in Hl, Hs. rewrite fmap_cons, seqZ_cons in Hs by (cbn [length]; lia).
  cbn [length] in Hl, Hs. injection Hs as _ Hs. unfold queue_ok. cbn [events set_events event_capacity
    next_sequence]. split; [lia|]. rewrite Hs. f_equal; lia.
Qed.

Lemma step_spec o p :
  queue_ok p →
  let '(q, t, p') := gpio_step o p in
  queue_ok p' ∧ (closed p = true → q = None ∧ t = None ∧ closed p' = true) ∧
  (∃ rest, events p ++ option_list q = option_list t ++ rest ∧ (closed p' = false → rest = events p')) ∧
  next_sequence p' = next_sequence p + Z.of_nat (length (option_list q)) ∧
  (∀ e, q = Some e → ev_sequence e = next_sequence p).
Proof.
  intros Hq. destruct o as [n|n v|n v t| |]; simpl.
  - assert ((read n p).2 = p) as ->.
    { unfold read. rewrite configure_spec. destruct (closed p); [done|]. destruct (configs p !! n); [|done].
      unfold bind, get, of_option. destruct (negb _); [done|]. case_decide; [done|]. by destruct (values p !! n). }
    rewrite app_nil_r. split_and!; [done|done|by eexists|lia|done].
  - assert (events (write n v p).2 = events p ∧ next_sequence (write n v p).2 = next_sequence p ∧
      event_capacity (write n v p).2 = event_capacity p ∧ closed (write n v p).2 = closed p) as (E1 & E2 & E3 & E4).
    { unfold write. rewrite configure_spec. destruct (closed p) eqn:Hc; [done|]. destruct (configs p !! n); [|done].
      by destruct (negb _). }
    unfold queue_ok. rewrite E1, E2, E3, E4, app_nil_r. split_and!; [apply Hq..|done|by eexists|lia|done].
  - pose proof (inject_spec n v t p) as H. destruct (inject_input n v t p) as [[[e|]|err] p']; simpl in *.
    + destruct H as (Hc & Hcap & He & Hs & Hn & Ho & Hl & _). split_and!; try done.
      * by eapply queue_ok_push.
      * by rewrite Ho.
      * by eexists.
      * naive_solver.
    + destruct H as (Hc & Hcap & He & Hn). unfold queue_ok. rewrite He, Hn, Hcap, Hc, app_nil_r.
      split_and!; [apply Hq..|done|by eexists|lia|done].
    + destruct H as (_ & _ & ->). rewrite app_nil_r. split_and!; [done|done|by eexists|lia|done].
  - unfold read_event, _ensure_open, bind, get, require. destruct (closed p) eqn:Hc; simpl.
    { rewrite app_nil_r. split_and!; try done; [by eexists|lia]. }
    destruct (events p) as [|e es] eqn:He; simpl.
    { rewrite He. split_and!; try done; [by eexists|lia]. }
    split_and!; [by eapply queue_ok_pop|done|rewrite app_nil_r; by eexists|lia|done].
  - split_and!; try done; [|by eexists|lia]. unfold queue_ok; simpl. split; [lia|done].
Qed.
