(* ===== verification/LinuxGpioTheorems.v ===== *)
(** * GPIO lines: theorems

    No queued edge is lost, repeated or reordered; a full queue refuses a
    sample without recording it, so that the same sample can be retried; and
    what the debounce time means for a line that is sampled often. *)

From Stdlib Require Import ZArith.
From S2P Require Import Prelude PyVal LinuxGpio.
Local Open Scope prog_scope.
Local Open Scope Z_scope.

Lemma gpio_run_spec ops : ∀ p,
  queue_ok p →
  let '(qs, ts, p') := gpio_run ops p in
  queue_ok p' ∧ (closed p = true → qs = [] ∧ ts = [] ∧ closed p' = true) ∧
  (closed p' = false → events p ++ qs = ts ++ events p') ∧
  (∃ rest, events p ++ qs = ts ++ rest) ∧
  (ev_sequence <$> qs) = seqZ (next_sequence p) (Z.of_nat (length qs)).
Proof.
  induction ops as [|o ops IH]; intros p Hq; simpl.
  { rewrite app_nil_r. split_and!; eauto. }
  pose proof (step_spec o p Hq) as Ho. destruct (gpio_step o p) as [[q t] p1].
  destruct Ho as (Hq1 & Hc & Hev & Hn & Hs). specialize (IH p1 Hq1).
  destruct (gpio_run ops p1) as [[qs ts] p2]. destruct IH as (Hq2 & Hc2 & Hev2 & Hr2 & Hs2).
  assert (ev_sequence <$> option_list q ++ qs =
    seqZ (next_sequence p) (Z.of_nat (length (option_list q ++ qs)))) as Hseq.
  { rewrite fmap_app, Hs2, length_app, Nat2Z.inj_add, seqZ_app, Hn by lia. f_equal.
    destruct q as [e|]; simpl; [|done]. rewrite (Hs e) by done. unfold seqZ; simpl. f_equal; lia. }
  destruct Hev as (r1 & Hr1 & Hopen). split_and!; [done| | | |done].
  - intros Hcl. destruct (Hc Hcl) as (-> & -> & Hc1). by destruct (Hc2 Hc1) as (-> & -> & ->).
  - intros Hcl. assert (closed p1 = false) as Hc1.
    { destruct (closed p1) eqn:E; [|done]. destruct (Hc2 eq_refl) as (_ & _ & ?). congruence. }
    rewrite (assoc_L (++)), Hr1, (Hopen Hc1), <- !(assoc_L (++)). f_equal. by apply Hev2.
  - rewrite (assoc_L (++)), Hr1. destruct (closed p1) eqn:Hc1.
    + destruct (Hc2 eq_refl) as (-> & -> & _). rewrite !app_nil_r. by exists r1.
    + destruct Hr2 as [rest Hr]. exists rest. rewrite (Hopen eq_refl), <- !(assoc_L (++)). by f_equal.
Qed.

Lemma new_provider_spec cs cap p :
  new_provider cs cap = Ok p →
  queue_ok p ∧ events p = [] ∧ next_sequence p = 0 ∧ closed p = false ∧
  event_capacity p = Z.to_nat cap ∧ (event_capacity p ≤ 1024)%nat.
Proof.
  unfold new_provider. destruct (Z.leb_spec 1 cap), (Z.leb_spec cap 1024); try done. simpl.
  destruct cs as [|c cs]; [done|]. destruct (negb _); [done|]. intros [= <-]. unfold queue_ok; simpl.
  split_and!; try done; lia.
Qed.

(** No edge event is lost, repeated or reordered.  Over any sequence of
    calls on a fresh provider the events taken by [read_event] are the first
    ones that [inject_input] queued, in the order they were queued; while the
    provider is open the events not yet taken are exactly the ones in its
    queue; the queued events carry the sequence numbers 0, 1, 2, ...; and the
    queue never grows past its capacity. *)
Theorem events_are_delivered_once_in_order cs cap p0 ops :
  new_provider cs cap = Ok p0 →
  let '(queued, taken, p) := gpio_run ops p0 in
  taken `prefix_of` queued ∧
  (closed p = false → queued = taken ++ events p) ∧
  (ev_sequence <$> queued) = seqZ 0 (Z.of_nat (length queued)) ∧
  (length (events p) ≤ event_capacity p)%nat.
Proof.
  intros (Hq & He & Hn & _)%new_provider_spec. pose proof (gpio_run_spec ops p0 Hq) as H.
  destruct (gpio_run ops p0) as [[qs ts] p]. rewrite He, Hn in H.
  destruct H as ([Hl _] & _ & Hev & [rest Hr] & Hs). split_and!; [by exists rest|done|done|done].
Qed.

Definition button : GPIOConfig := {| name := "button"; direction := GPIODirection.INPUT;
  active_high := false; edge := BOTH; debounce_ns := 10 |}.

Definition fresh (cap : Z) : FakeGPIOProvider :=
  match new_provider [button] cap with Ok p => p | Raise _ => {| configs := ∅; values := ∅;
    observed := ∅; last_timestamp := ∅; events := []; next_sequence := 0; event_capacity := 0; closed := true |} end.

Definition presses : list gpio_op :=
  [Inject "button" true 0; Inject "button" false 20; ReadEvent; Inject "button" true 40; Inject "button" false 60].

Lemma events_are_delivered_once_in_order_witness :
  let '(queued, taken, p) := gpio_run presses (fresh 1) in
  (length queued = 2)%nat ∧ (length taken = 1)%nat ∧ taken `prefix_of` queued ∧
  (closed p = false → queued = taken ++ events p) ∧
  (ev_sequence <$> queued) = seqZ 0 (Z.of_nat (length queued)) ∧
  (length (events p) ≤ event_capacity p)%nat.
Proof.
  pose proof (events_are_delivered_once_in_order [button] 1 (fresh 1) presses eq_refl) as H.
  destruct (gpio_run presses (fresh 1)) as [[qs ts] p] eqn:E.
  vm_compute in E. injection E as E1 E2 _. subst qs ts. split; [done|]. split; [done|exact H].
Defined.

(** ** Back pressure *)

(** The guards of [inject_input] before the queue is looked at. *)
Lemma inject_full_inv n v t p p' :
  inject_input n v t p = (Raise GPIOQueueFull, p') →
  p' = p ∧ closed p = false ∧ (event_capacity p ≤ length (events p))%nat ∧
  ∀ l, (length l < event_capacity p)%nat →
    ∃ e p'', inject_input n v t (set_events l false p) = (Ok (Some e), p'') ∧
      events p'' = l ++ [e] ∧ line e = n ∧ timestamp_ns e = t ∧
      ev_sequence e = next_sequence p ∧ values p'' !! n = Some v ∧ last_timestamp p'' !! n = Some t.
Proof.
  unfold inject_input. rewrite configure_spec. destruct (closed p) eqn:Hc; [done|].
  destruct (configs p !! n) as [c|] eqn:Hcfg; [|done]. unfold bind at 1, get.
  destruct (bool_decide (direction c = _)) eqn:Hd; [|done]. cbn [negb].
  destruct (t <? 0) eqn:Ht; [done|].
  destruct (match last_timestamp p !! n with Some _ => _ | None => _ end) eqn:Hts; [done|].
  unfold bind at 1, of_option. destruct (values p !! n) as [prev|] eqn:Hv; [|done]. unfold ret at 1.
  destruct (decide (n ∉ observed p)) eqn:Hob; [done|]. destruct (Bool.eqb _ _) eqn:Hb; [done|].
  destruct (negb (debounce_ns c =? 0) && _) eqn:Hdb; [done|].
  destruct (subscribed _ _) eqn:Hsub; [|done]. cbn [negb].
  destruct (Nat.leb_spec (event_capacity p) (length (events p))) as [Hle|]; [|done].
  intros [= <-]. split_and!; [done..|]. intros l Hl. rewrite configure_spec. cbn [closed set_events configs].
  rewrite Hcfg. unfold bind at 1, get. cbn [last_timestamp set_events values observed events event_capacity].
  rewrite ?Hd, ?Ht, ?Hts, ?Hv. unfold bind at 1, of_option, ret at 1. cbn [negb].
  rewrite ?Hob, ?Hb, ?Hdb, ?Hsub. cbn [negb]. destruct (Nat.leb_spec (event_capacity p) (length l)); [lia|].
  unfold bind, modify, ret. do 2 eexists. split; [done|]. simpl. rewrite !lookup_insert_eq. by split_and!.
Qed.

(** A full queue is back pressure, not loss.  When [inject_input] raises
    [GPIOQueueFull] it has recorded nothing, and after one [read_event] the
    same sample is accepted: it queues an edge event with the next sequence
    number and only then records the level and the time. *)
Theorem full_queue_loses_no_edge n v t p p' :
  inject_input n v t p = (Raise GPIOQueueFull, p') →
  queue_ok p → (1 ≤ event_capacity p)%nat →
  p' = p ∧
  ∃ e0 rest e p1,
    read_event p' = (Ok (Some e0), set_events rest false p) ∧ events p = e0 :: rest ∧
    inject_input n v t (set_events rest false p) = (Ok (Some e), p1) ∧
    events p1 = rest ++ [e] ∧ line e = n ∧ timestamp_ns e = t ∧ ev_sequence e = next_sequence p ∧
    values p1 !! n = Some v ∧ last_timestamp p1 !! n = Some t.
Proof.
  intros (-> & Hc & Hfull & Hretry)%inject_full_inv [Hl _] Hcap. split; [done|].
  destruct (events p) as [|e0 rest] eqn:He; simpl in *; [lia|].
  destruct (Hretry rest) as (e & p1 & H1 & H2); [lia|]. exists e0, rest, e, p1.
  split; [|by split; [|split]]. unfold read_event, _ensure_open, bind, get, require.
  rewrite Hc. simpl. by rewrite He, Hc.
Qed.

Definition full : FakeGPIOProvider :=
  (gpio_run [Inject "button" true 0; Inject "button" false 20] (fresh 1)).2.

Lemma full_queue_loses_no_edge_witness :
  inject_input "button" true 40 full = (Raise GPIOQueueFull, full) ∧
  ∃ e0 rest e p1,
    read_event full = (Ok (Some e0), set_events rest false full) ∧ events full = e0 :: rest ∧
    inject_input "button" true 40 (set_events rest false full) = (Ok (Some e), p1) ∧
    events p1 = rest ++ [e] ∧ line e = "button" ∧ timestamp_ns e = 40 ∧ ev_sequence e = next_sequence full ∧
    values p1 !! "button" = Some true ∧ last_timestamp p1 !! "button" = Some 40.
Proof.
  assert (inject_input "button" true 40 full = (Raise GPIOQueueFull, full)) as H by reflexivity.
  split; [exact H|]. apply (full_queue_loses_no_edge "button" true 40 full full H).
  - by split; vm_compute; [repeat constructor|].
  - vm_compute. repeat constructor.
Defined.

(** ** Debouncing *)

(** Samples of the line [n], one call each. *)
Definition inject_all (n : string) (samples : list (bool * Z)) : list gpio_op :=
  (λ s, Inject n s.1 s.2) <$> samples.

(** Every sample comes less than [d] after the one before it. *)
Fixpoint closer_than (d prev : Z) (samples : list (bool * Z)) : Prop :=
  match samples with
  | [] => True
  | (_, t) :: rest => prev < t < prev + d ∧ closer_than d t rest
  end.

Lemma inject_bounced n v t p c prev lvl :
  closed p = false → configs p !! n = Some c → direction c = GPIODirection.INPUT → n ∈ observed p →
  last_timestamp p !! n = Some prev → values p !! n = Some lvl → 0 <= prev → prev < t < prev + debounce_ns c →
  inject_input n v t p = (Ok None, sample n v t p).
Proof.
  intros Hc Hcfg Hd Hob Hts Hv H0 Ht. unfold inject_input. rewrite configure_spec, Hc, Hcfg.
  unfold bind at 1, get. rewrite (bool_decide_true _ Hd). cbn [negb].
  destruct (Z.ltb_spec t 0); [lia|]. rewrite Hts. destruct (Z.leb_spec t prev); [lia|].
  rewrite Hv. unfold bind at 1, of_option, ret at 1. rewrite decide_False by set_solver.
  destruct (Bool.eqb _ _); [done|]. destruct (Z.eqb_spec (debounce_ns c) 0); [lia|].
  by destruct (Z.ltb_spec (t - prev) (debounce_ns c)); [|lia].
Qed.

(** The debounce time is measured from the last sample of the line, not
    from its last change.  A line that is sampled more often than its debounce
    time never yields an edge event, whatever its levels are and however long
    it then stays at a new level; the provider still records the new level. *)
Theorem frequent_samples_hide_every_edge n c samples : ∀ p prev lvl,
  closed p = false → configs p !! n = Some c → direction c = GPIODirection.INPUT → n ∈ observed p →
  last_timestamp p !! n = Some prev → values p !! n = Some lvl → 0 <= prev →
  closer_than (debounce_ns c) prev samples →
  let '(queued, taken, p') := gpio_run (inject_all n samples) p in
  queued = [] ∧ taken = [] ∧ events p' = events p ∧
  values p' !! n = Some (default lvl (last samples.*1)).
Proof.
  induction samples as [|[v t] rest IH]; intros p prev lvl Hc Hcfg Hd Hob Hts Hv H0 Hs.
  { by split_and!. }
  destruct Hs as [Ht Hs]. cbn [inject_all fmap list_fmap gpio_run gpio_step fst snd].
  rewrite (inject_bounced n v t p c prev lvl) by done. cbn [fst snd].
  specialize (IH (sample n v t p) t v Hc Hcfg Hd Hob (lookup_insert_eq _ _ _) (lookup_insert_eq _ _ _)).
  destruct (gpio_run _ (sample n v t p)) as [[qs ts] p']. destruct IH as (-> & -> & He & Hv'); [lia|done|].
  split_and!; [done..|]. rewrite Hv'. cbn [fst]. rewrite last_cons. by destruct (last _).
Qed.

(** The button is pressed at 5 and stays pressed: five samples, no event. *)
Definition held : list (bool * Z) := [(false, 5); (false, 14); (false, 23); (false, 32); (false, 41)].
Definition released : FakeGPIOProvider := (gpio_run [Inject "button" true 0] (fresh 4)).2.

Lemma frequent_samples_hide_every_edge_witness :
  let '(queued, taken, p') := gpio_run (inject_all "button" held) released in
  queued = [] ∧ taken = [] ∧ events p' = events released ∧ values p' !! "button" = Some false.
Proof.
  apply (frequent_samples_hide_every_edge "button" button held released 0 true).
  all: try reflexivity; try lia.
  simpl. lia.
Defined.
