(* ===== verification/LinuxIrq.v ===== *)
(** * Interrupt line with top and bottom halves

    [hardware/linux_drivers/irq/contract.py].  A method that only takes the
    provider's lock is one atomic step.  [stop] waits on a condition variable,
    which releases the lock, and [close] takes the lock three times, so those
    two are several steps with other threads in between; [sys_step] is the
    interleaving of any number of threads.  Time appears as the truth of
    [remaining <= 0] at each look at the clock. *)

From Stdlib Require Import ZArith.
From S2P Require Import Prelude.
Local Open Scope prog_scope.
Local Open Scope Z_scope.

Module IRQState.
Inductive t : Type :=
| DISABLED | ENABLED | STOPPING | CLOSED.
#[global] Instance eq_dec : EqDecision t.
Proof. solve_decision. Defined.
#[global] Instance enum : StrEnum t := {|
  value x := match x with
    | DISABLED => "disabled"
    | ENABLED => "enabled"
    | STOPPING => "stopping"
    | CLOSED => "closed"
    end;
  members := [DISABLED; ENABLED; STOPPING; CLOSED]
|}.
#[global] Instance laws : StrEnumLaws t.
Proof. solve_enum_laws. Qed.
End IRQState.

Inductive irq_exn : Type :=
| IRQError | IRQHandlerTimeout | IRQNotShared | IRQWorkCancelled.

Record IRQLine := { number : Z; shared : bool; priority : Z }.

(** [IRQLine.__post_init__] *)
Definition valid_line (l : IRQLine) : bool :=
  (0 <=? number l) && (0 <=? priority l) && (priority l <=? 99).

Record IRQWork := { sequence : Z; owner : string; work_line : Z }.
#[global] Instance IRQWork_eq_dec : EqDecision IRQWork.
Proof. solve_decision. Defined.

Record FakeIRQProvider := {
  irq_line : IRQLine;
  work_capacity : nat;
  state : IRQState.t;
  handlers : gset string;
  works : list IRQWork;
  active_work : gset Z;
  next_sequence : Z
}.

(** [FakeIRQProvider.__init__] *)
Definition new_provider (l : IRQLine) (cap : Z) : outcome irq_exn FakeIRQProvider :=
  if (1 <=? cap) && (cap <=? 1024)
  then Ok {| irq_line := l; work_capacity := Z.to_nat cap; state := IRQState.DISABLED; handlers := ∅;
             works := []; active_work := ∅; next_sequence := 0 |}
  else Raise IRQError.

Definition set_state (st : IRQState.t) (p : FakeIRQProvider) : FakeIRQProvider := {|
  irq_line := irq_line p; work_capacity := work_capacity p; state := st; handlers := handlers p;
  works := works p; active_work := active_work p; next_sequence := next_sequence p |}.

Definition set_handlers (hs : gset string) (p : FakeIRQProvider) : FakeIRQProvider := {|
  irq_line := irq_line p; work_capacity := work_capacity p; state := state p; handlers := hs;
  works := works p; active_work := active_work p; next_sequence := next_sequence p |}.

Definition set_works (ws : list IRQWork) (a : gset Z) (p : FakeIRQProvider) : FakeIRQProvider := {|
  irq_line := irq_line p; work_capacity := work_capacity p; state := state p; handlers := handlers p;
  works := ws; active_work := a; next_sequence := next_sequence p |}.

Definition push_work (w : IRQWork) (p : FakeIRQProvider) : FakeIRQProvider := {|
  irq_line := irq_line p; work_capacity := work_capacity p; state := state p; handlers := handlers p;
  works := works p ++ [w]; active_work := {[sequence w]} ∪ active_work p;
  next_sequence := next_sequence p + 1 |}.

Abbreviation irq := (prog FakeIRQProvider irq_exn).

(** [_ensure_not_closed] *)
Definition _ensure_not_closed : irq () :=
  p <- get ;; require (negb (bool_decide (state p = IRQState.CLOSED))) IRQError.

(** [register] *)
Definition register (o : string) : irq () :=
  _ensure_not_closed ;;;
  p <- get ;;
  if String.eqb o "" || bool_decide (o ∈ handlers p) then raise IRQError
  else if negb (shared (irq_line p)) && negb (bool_decide (handlers p = ∅)) then raise IRQError
  else modify (set_handlers ({[o]} ∪ handlers p)).

(** [enable] *)
Definition enable : irq () :=
  _ensure_not_closed ;;;
  p <- get ;;
  if decide (handlers p = ∅) then raise IRQNotShared
  else if decide (state p = IRQState.STOPPING) then raise IRQError
  else modify (set_state IRQState.ENABLED).

(** [trigger] *)
Definition trigger (o : string) : irq IRQWork :=
  _ensure_not_closed ;;;
  p <- get ;;
  if decide (state p ≠ IRQState.ENABLED) then raise IRQError
  else if decide (o ∉ handlers p) then raise IRQNotShared
  else if (work_capacity p <=? length (works p))%nat then raise IRQError
  else
    let w := {| sequence := next_sequence p; owner := o; work_line := number (irq_line p) |} in
    modify (push_work w) ;;; ret w.

(** [complete_top_half] *)
Definition complete_top_half (w : IRQWork) : irq () :=
  _ensure_not_closed ;;;
  p <- get ;;
  if negb (bool_decide (w ∈ works p)) || negb (bool_decide (sequence w ∈ active_work p)) then raise IRQError
  else modify (set_works (works p) (active_work p ∖ {[sequence w]})).

(** [list.remove]: the first occurrence. *)
Fixpoint remove_first (w : IRQWork) (ws : list IRQWork) : list IRQWork :=
  match ws with
  | [] => []
  | x :: xs => if decide (x = w) then xs else x :: remove_first w xs
  end.

(** [run_bottom_half] *)
Definition run_bottom_half (w : IRQWork) : irq () :=
  _ensure_not_closed ;;;
  p <- get ;;
  if decide (w ∉ works p) then raise IRQWorkCancelled
  else if decide (sequence w ∈ active_work p) then raise IRQError
  else modify (set_works (remove_first w (works p)) (active_work p)).

(** [cancel_work] *)
Definition cancel_work : irq nat :=
  _ensure_not_closed ;;;
  p <- get ;;
  modify (set_works (filter (λ w, sequence w ∈ active_work p) (works p)) (active_work p)) ;;;
  ret (length (filter (λ w, sequence w ∉ active_work p) (works p))).

(** ** Stopping

    [stop_check] is the loop of [stop] up to its next wait: [true] when the
    method returns, [false] when it waits again. *)
Definition stop_check (expired : bool) : irq bool :=
  p <- get ;;
  if decide (active_work p = ∅)
  then modify (set_works [] ∅) ;;; modify (set_state IRQState.DISABLED) ;;; ret true
  else if expired then raise IRQHandlerTimeout
  else ret false.

(** [stop] up to its first wait *)
Definition stop_begin (expired : bool) : irq bool :=
  _ensure_not_closed ;;; modify (set_state IRQState.STOPPING) ;;; stop_check expired.

(** The last block of [close] *)
Definition close_finish : irq () :=
  modify (set_handlers ∅) ;;; modify (set_state IRQState.CLOSED).

(** ** Interleavings *)

(** Where a thread is between two of its steps. *)
Inductive pc : Type :=
| Idle        (* outside the provider *)
| StopWait    (* waiting in [stop] *)
| CloseBegin  (* in [close], holding its lock, before the call of [stop] *)
| CloseWait   (* waiting in the [stop] that [close] called *)
| CloseEnd.   (* in [close], after [stop] returned *)
#[global] Instance pc_eq_dec : EqDecision pc.
Proof. solve_decision. Defined.

Record sys := { prov : FakeIRQProvider; pcs : gmap nat pc; close_lock : option nat }.

Definition pc_of (t : nat) (s : sys) : pc := default Idle (pcs s !! t).

Definition goto (t : nat) (c : pc) (p : FakeIRQProvider) (s : sys) : sys :=
  {| prov := p; pcs := <[t:=c]> (pcs s); close_lock := close_lock s |}.

(** [goto Idle], releasing the close lock *)
Definition leave_close (t : nat) (p : FakeIRQProvider) (s : sys) : sys :=
  {| prov := p; pcs := <[t:=Idle]> (pcs s); close_lock := None |}.

Inductive act : Type :=
| Register (o : string) | Enable | Trigger (o : string) | CompleteTopHalf (w : IRQWork)
| RunBottomHalf (w : IRQWork) | CancelWork | Stop (expired : bool) | Close | Resume (expired : bool).

Inductive irq_event : Type :=
| Triggered (w : IRQWork) | TopHalf (w : IRQWork) | BottomHalf (w : IRQWork).

(** The outcome of one look of [stop] at its condition. *)
Definition after_stop (r : outcome irq_exn bool) (waiting returned failed : sys) : sys :=
  match r with Ok false => waiting | Ok true => returned | Raise _ => failed end.

(** One step of the thread [t] inside [stop] or [close]. *)
Definition resume (t : nat) (expired : bool) (s : sys) : sys :=
  let checked := stop_check expired (prov s) in
  let begun := stop_begin expired (prov s) in
  match pc_of t s with
  | Idle => s
  | StopWait => after_stop checked.1 (goto t StopWait checked.2 s) (goto t Idle checked.2 s) (goto t Idle checked.2 s)
  | CloseBegin => after_stop begun.1 (goto t CloseWait begun.2 s) (goto t CloseEnd begun.2 s) (leave_close t begun.2 s)
  | CloseWait => after_stop checked.1 (goto t CloseWait checked.2 s) (goto t CloseEnd checked.2 s) (leave_close t checked.2 s)
  | CloseEnd => leave_close t (close_finish (prov s)).2 s
  end.

(** [close] up to the call of [stop]; a thread that finds the close lock taken
    stays outside. *)
Definition call_close (t : nat) (s : sys) : sys :=
  match close_lock s with
  | Some _ => s
  | None => if decide (state (prov s) = IRQState.CLOSED) then s
            else {| prov := prov s; pcs := <[t:=CloseBegin]> (pcs s); close_lock := Some t |}
  end.

Definition emit {A} (r : outcome irq_exn A) (f : A → irq_event) : list irq_event :=
  match r with Ok a => [f a] | Raise _ => [] end.

Definition with_prov (p : FakeIRQProvider) (s : sys) : sys :=
  {| prov := p; pcs := pcs s; close_lock := close_lock s |}.

(** One step of the thread [t]: what it did to work items, and the system
    afterwards.  A thread inside [stop] or [close] can only resume. *)
Definition sys_step (t : nat) (a : act) (s : sys) : list irq_event * sys :=
  match a with
  | Resume expired => ([], resume t expired s)
  | _ =>
      if decide (pc_of t s ≠ Idle) then ([], s) else
      match a with
      | Register o => ([], with_prov (register o (prov s)).2 s)
      | Enable => ([], with_prov (enable (prov s)).2 s)
      | Trigger o => let r := trigger o (prov s) in (emit r.1 Triggered, with_prov r.2 s)
      | CompleteTopHalf w =>
          let r := complete_top_half w (prov s) in (emit r.1 (λ _, TopHalf w), with_prov r.2 s)
      | RunBottomHalf w =>
          let r := run_bottom_half w (prov s) in (emit r.1 (λ _, BottomHalf w), with_prov r.2 s)
      | CancelWork => ([], with_prov (cancel_work (prov s)).2 s)
      | Stop expired =>
          let r := stop_begin expired (prov s) in
          ([], after_stop r.1 (goto t StopWait r.2 s) (goto t Idle r.2 s) (goto t Idle r.2 s))
      | Close => ([], call_close t s)
      | Resume _ => ([], s)
      end
  end.

(** A schedule: which thread takes which step. *)
Fixpoint sys_run (sched : list (nat * act)) (s : sys) : list irq_event * sys :=
  match sched with
  | [] => ([], s)
  | (t, a) :: rest =>
      let '(e1, s1) := sys_step t a s in
      let '(e2, s2) := sys_run rest s1 in
      (e1 ++ e2, s2)
  end.

Definition initial (p : FakeIRQProvider) : sys := {| prov := p; pcs := ∅; close_lock := None |}.
