(* ===== verification/LinuxIrqTheorems.v ===== *)
(** * Interrupt line: theorems

    Under every interleaving a bottom half runs at most once and only after its
    top half; what [stop] guarantees when it returns and when it times out; and
    a schedule that brings a closed provider back to life. *)

From Stdlib Require Import ZArith.
From S2P Require Import Prelude LinuxIrq.
Local Open Scope prog_scope.
Local Open Scope Z_scope.

(** The order of the events of one line: sequence numbers grow, a top half
    completes once and after its trigger, a bottom half runs once and after
    its top half. *)
Definition ordered (t : list irq_event) : Prop :=
  ∀ t1 e t2, t = t1 ++ e :: t2 →
  match e with
  | Triggered w => ∀ w', Triggered w' ∈ t1 → sequence w' < sequence w
  | TopHalf w => Triggered w ∈ t1 ∧ TopHalf w ∉ t1
  | BottomHalf w => TopHalf w ∈ t1 ∧ BottomHalf w ∉ t1
  end.

Lemma ordered_snoc t e :
  ordered t →
  match e with
  | Triggered w => ∀ w', Triggered w' ∈ t → sequence w' < sequence w
  | TopHalf w => Triggered w ∈ t ∧ TopHalf w ∉ t
  | BottomHalf w => TopHalf w ∈ t ∧ BottomHalf w ∉ t
  end →
  ordered (t ++ [e]).
Proof.
  intros Ht He t1 e' t2 Heq. destruct t2 as [|x t2 _] using rev_ind.
  - apply app_inj_tail in Heq as [-> ->]. done.
  - rewrite app_comm_cons, (assoc_L (++)) in Heq. apply app_inj_tail in Heq as [-> _]. by eapply Ht.
Qed.

(** ** The invariant of the provider and of the events so far *)

Record irq_inv (t : list irq_event) (p : FakeIRQProvider) : Prop := {
  i_cap : (length (works p) ≤ work_capacity p)%nat;
  i_owners : shared (irq_line p) = false → (size (handlers p) ≤ 1)%nat;
  i_nodup : NoDup (sequence <$> works p);
  i_works w : w ∈ works p → Triggered w ∈ t ∧ BottomHalf w ∉ t;
  i_active n : n ∈ active_work p → ∃ w, w ∈ works p ∧ sequence w = n ∧ TopHalf w ∉ t;
  i_done w : w ∈ works p → sequence w ∉ active_work p → TopHalf w ∈ t;
  i_next w : Triggered w ∈ t → sequence w < next_sequence p;
  i_top w : TopHalf w ∈ t → Triggered w ∈ t;
  i_bottom w : BottomHalf w ∈ t → Triggered w ∈ t;
  i_order : ordered t
}.

Lemma same_work t p w w' :
  irq_inv t p → w ∈ works p → w' ∈ works p → sequence w = sequence w' → w = w'.
Proof.
  intros I (i & Hi)%list_elem_of_lookup (j & Hj)%list_elem_of_lookup Heq.
  assert (i = j) as ->; [|congruence].
  apply (NoDup_lookup (sequence <$> works p) i j (sequence w)); [apply I|..];
    rewrite list_lookup_fmap; [by rewrite Hi|rewrite Hj; simpl; by rewrite Heq].
Qed.

(** A step that drops finished work and touches nothing else of it. *)
Lemma inv_shrink t p p' :
  irq_inv t p →
  irq_line p' = irq_line p → work_capacity p' = work_capacity p → next_sequence p' = next_sequence p →
  (shared (irq_line p) = false → (size (handlers p') ≤ 1)%nat) →
  works p' `sublist_of` works p → active_work p' = active_work p →
  (∀ w, w ∈ works p → sequence w ∈ active_work p → w ∈ works p') →
  irq_inv t p'.
Proof.
  intros I Hl Hc Hn Hh Hw Ha Hk.
  assert (∀ w, w ∈ works p' → w ∈ works p) as Hin by (intros w ?; by eapply elem_of_sublist).
  destruct I as [I1 I2 I3 I4 I5 I6 I7 I8 I9 I10]. constructor; try done.
  - rewrite Hc. apply sublist_length in Hw. lia.
  - by rewrite Hl.
  - eapply sublist_NoDup; [exact I3|]. by apply fmap_sublist.
  - intros w Hw'. by apply I4, Hin.
  - intros n Hin'. rewrite Ha in Hin'. destruct (I5 n Hin') as (w & Hw1 & <- & Ht). exists w. auto.
  - intros w Hw1. rewrite Ha. by apply I6, Hin.
  - rewrite Hn. apply I7.
Qed.

(** A step that leaves the work alone. *)
Lemma inv_frame t p p' :
  irq_inv t p →
  irq_line p' = irq_line p → work_capacity p' = work_capacity p → next_sequence p' = next_sequence p →
  (shared (irq_line p) = false → (size (handlers p') ≤ 1)%nat) →
  works p' = works p → active_work p' = active_work p → irq_inv t p'.
Proof. intros I ???? Hw Ha. eapply inv_shrink; try done; rewrite Hw; eauto. Qed.

Lemma not_closed_spec {A} (k : () → irq A) p :
  bind _ensure_not_closed k p = if decide (state p = IRQState.CLOSED) then (Raise IRQError, p) else k () p.
Proof.
  unfold _ensure_not_closed, bind, get, require. case_decide as H.
  - by rewrite bool_decide_true.
  - by rewrite bool_decide_false.
Qed.

(** A call that raised has no event and no effect. *)
Ltac quiet := simpl; rewrite ?app_nil_r.

Lemma inv_register t p o : irq_inv t p → irq_inv t (register o p).2.
Proof.
  intros I. unfold register. rewrite not_closed_spec. case_decide; [done|]. unfold bind, get.
  destruct (_ || _); [done|]. destruct (_ && _) eqn:Hs; [done|]. simpl. eapply inv_frame; try done. simpl.
  intros Hsh. rewrite Hsh in Hs. simpl in Hs. apply negb_false_iff, bool_decide_eq_true in Hs.
  rewrite Hs, (right_id_L ∅ (∪)), size_singleton. done.
Qed.

Lemma inv_enable t p : irq_inv t p → irq_inv t (enable p).2.
Proof.
  intros I. unfold enable. rewrite not_closed_spec. case_decide; [done|]. unfold bind, get.
  case_decide; [done|]. case_decide; [done|]. simpl. eapply inv_frame; try done. apply I.
Qed.

Lemma inv_cancel t p : irq_inv t p → irq_inv t (cancel_work p).2.
Proof.
  intros I. unfold cancel_work. rewrite not_closed_spec. case_decide; [done|]. simpl.
  eapply inv_shrink; try done; simpl; [apply I|apply sublist_filter|]. intros. by apply list_elem_of_filter.
Qed.

Lemma inv_trigger t p o :
  irq_inv t p → let r := trigger o p in irq_inv (t ++ emit r.1 Triggered) r.2.
Proof.
  intros I. unfold trigger. rewrite not_closed_spec. case_decide; [by quiet|].
  unfold bind, get. case_decide; [by quiet|]. case_decide; [by quiet|].
  destruct (Nat.leb_spec (work_capacity p) (length (works p))) as [|Hcap]; [by quiet|]. simpl.
  set (w := {| sequence := next_sequence p; owner := o; work_line := number (irq_line p) |}).
  assert (∀ w', w' ∈ works p → sequence w' < next_sequence p) as Hlt by (intros w' Hw'; by apply I, I).
  assert (Triggered w ∉ t) as Hnew by (intros Hin; apply (i_next t p I) in Hin; simpl in Hin; lia).
  destruct I as [I1 I2 I3 I4 I5 I6 I7 I8 I9 I10]. constructor; simpl; try done.
  - rewrite length_app. simpl. lia.
  - rewrite fmap_app. apply NoDup_app. split_and!; [done| |apply NoDup_singleton].
    intros n (w' & -> & Hw')%list_elem_of_fmap. specialize (Hlt w' Hw'). simpl. rewrite list_elem_of_singleton. lia.
  - intros w'. rewrite !elem_of_app, !list_elem_of_singleton. intros [Hw'| ->].
    + destruct (I4 w' Hw'). naive_solver.
    + split; [by right|]. intros [Hx%I9|Hx]; naive_solver.
  - intros n. rewrite elem_of_union, elem_of_singleton. intros [->|Hn].
    + exists w. rewrite !elem_of_app, !list_elem_of_singleton. split_and!; [by right|done|].
      intros [Hx%I8|Hx]; naive_solver.
    + destruct (I5 n Hn) as (w' & ? & ? & ?). exists w'. rewrite !elem_of_app, !list_elem_of_singleton. naive_solver.
  - intros w'. rewrite !elem_of_app, !list_elem_of_singleton. intros [Hw'| ->]; set_solver.
  - intros w'. rewrite elem_of_app, list_elem_of_singleton. intros [Hx%I7|Hx]; [lia|]. simplify_eq. simpl. lia.
  - intros w'. rewrite !elem_of_app, !list_elem_of_singleton. naive_solver.
  - intros w'. rewrite !elem_of_app, !list_elem_of_singleton. naive_solver.
  - by apply ordered_snoc.
Qed.

Lemma inv_top t p w :
  irq_inv t p → let r := complete_top_half w p in irq_inv (t ++ emit r.1 (λ _, TopHalf w)) r.2.
Proof.
  intros I. unfold complete_top_half. rewrite not_closed_spec. case_decide; [by quiet|].
  unfold bind, get. destruct (bool_decide_reflect (w ∈ works p)) as [Hw|]; [|by rewrite app_nil_r].
  destruct (bool_decide_reflect (sequence w ∈ active_work p)) as [Ha|]; [|by rewrite app_nil_r]. simpl.
  assert (TopHalf w ∉ t) as Hnew.
  { destruct (i_active t p I _ Ha) as (w' & Hw' & Hs & Ht). by rewrite (same_work t p w w') by done. }
  assert (∀ w', w' ∈ works p → sequence w' = sequence w → w' = w) as Hsame by (intros; by eapply same_work).
  destruct I as [I1 I2 I3 I4 I5 I6 I7 I8 I9 I10]. constructor; simpl; try done.
  - intros w' Hw'. rewrite !elem_of_app, !list_elem_of_singleton. destruct (I4 w' Hw'). naive_solver.
  - intros n [Hn Hne]%elem_of_difference. destruct (I5 n Hn) as (w' & ? & ? & ?). exists w'.
    rewrite !elem_of_app, !list_elem_of_singleton. split_and!; [done..|].
    intros [|[= <-]]; [done|]. by apply Hne, elem_of_singleton.
  - intros w' Hw' Hn. rewrite !elem_of_app, !list_elem_of_singleton.
    destruct (decide (sequence w' ∈ active_work p)); [|left; by apply I6].
    right. f_equal. apply Hsame; [done|]. apply dec_stable. intros Hne. apply Hn, elem_of_difference.
    by rewrite elem_of_singleton.
  - intros w'. rewrite elem_of_app, list_elem_of_singleton. intros [Hx|Hx]; [by apply I7|done].
  - intros w'. rewrite !elem_of_app, !list_elem_of_singleton. intros [Hx|Hx]; [left; by apply I8|].
    simplify_eq. left. by apply I4.
  - intros w'. rewrite !elem_of_app, !list_elem_of_singleton. naive_solver.
  - apply ordered_snoc; [done|]. split; [by apply I4|done].
Qed.

Lemma remove_first_sublist w ws : remove_first w ws `sublist_of` ws.
Proof. induction ws as [|x ws IH]; simpl; [done|]. case_decide; by constructor. Qed.

Lemma elem_of_remove_first w w' ws : w' ∈ ws → w' ≠ w → w' ∈ remove_first w ws.
Proof. induction ws as [|x ws IH]; simpl; [done|]. case_decide; set_solver. Qed.

Lemma not_elem_of_remove_first w ws : NoDup ws → w ∉ remove_first w ws.
Proof.
  induction 1 as [|x ws Hx Hnd IH]; simpl; [set_solver|]. case_decide; set_solver.
Qed.

Lemma inv_bottom t p w :
  irq_inv t p → let r := run_bottom_half w p in irq_inv (t ++ emit r.1 (λ _, BottomHalf w)) r.2.
Proof.
  intros I. unfold run_bottom_half. rewrite not_closed_spec. case_decide; [by quiet|].
  unfold bind, get. case_decide as Hw; [by quiet|].
  case_decide as Ha; [by quiet|]. simpl.
  assert (w ∉ remove_first w (works p)) as Hgone
    by (eapply not_elem_of_remove_first, NoDup_fmap_1, (i_nodup t p I)).
  assert (irq_inv t (set_works (remove_first w (works p)) (active_work p) p)) as I'.
  { eapply inv_shrink; try done; simpl; [apply I|apply remove_first_sublist|].
    intros w' Hw' Ha'. apply elem_of_remove_first; [done|]. by intros ->. }
  assert (TopHalf w ∈ t ∧ (BottomHalf w ∉ t) ∧ Triggered w ∈ t) as (Ht & Hb & Htr)
    by (split_and!; by apply I).
  destruct I' as [I1 I2 I3 I4 I5 I6 I7 I8 I9 I10]. constructor; try done.
  - intros w' Hw'. rewrite !elem_of_app, !list_elem_of_singleton. destruct (I4 w' Hw').
    assert (w' ≠ w) by (by intros ->). naive_solver.
  - intros n Hn. destruct (I5 n Hn) as (w' & ? & ? & ?). exists w'.
    rewrite !elem_of_app, !list_elem_of_singleton. naive_solver.
  - intros w' Hw' Hn. rewrite elem_of_app. left. by apply I6.
  - intros w'. rewrite elem_of_app, list_elem_of_singleton. intros [Hx|Hx]; [by apply I7|done].
  - intros w'. rewrite !elem_of_app, !list_elem_of_singleton. naive_solver.
  - intros w'. rewrite !elem_of_app, !list_elem_of_singleton. naive_solver.
  - by apply ordered_snoc.
Qed.

Lemma inv_set_state t p st : irq_inv t p → irq_inv t (set_state st p).
Proof. intros I. eapply inv_frame; try done. apply I. Qed.

Lemma inv_stop_check t p b : irq_inv t p → irq_inv t (stop_check b p).2.
Proof.
  intros I. unfold stop_check, bind, get. case_decide as Ha; [|by destruct b]. simpl.
  apply inv_set_state. eapply inv_shrink; try done; simpl; [apply I|apply sublist_nil_l|].
  intros w _. rewrite Ha. set_solver.
Qed.

Lemma inv_stop_begin t p b : irq_inv t p → irq_inv t (stop_begin b p).2.
Proof.
  intros I. unfold stop_begin. rewrite not_closed_spec. case_decide; [done|].
  by apply inv_stop_check, inv_set_state.
Qed.

Lemma inv_close_finish t p : irq_inv t p → irq_inv t (close_finish p).2.
Proof. intros I. eapply inv_frame; try done. simpl. intros _. vm_compute. lia. Qed.

#[export] Hint Resolve inv_register inv_enable inv_cancel inv_stop_check inv_stop_begin
  inv_close_finish : prog.

Lemma inv_step evs t a s :
  irq_inv evs (prov s) → irq_inv (evs ++ (sys_step t a s).1) (prov (sys_step t a s).2).
Proof.
  intros I. unfold sys_step. destruct a; simpl; try (case_decide; [by quiet|]); simpl; rewrite ?app_nil_r;
    auto using inv_trigger, inv_top, inv_bottom with prog.
  - pose proof (inv_stop_begin evs (prov s) expired I).
    by destruct (stop_begin expired (prov s)) as [[[]|] ?].
  - unfold call_close. destruct (close_lock s); [done|]. by case_decide.
  - pose proof (inv_stop_begin evs (prov s) expired I). pose proof (inv_stop_check evs (prov s) expired I).
    pose proof (inv_close_finish evs (prov s) I). unfold resume.
    destruct (stop_begin expired (prov s)) as [[[]|] ?], (stop_check expired (prov s)) as [[[]|] ?];
      by destruct (pc_of t s).
Qed.

Lemma inv_run sched : ∀ evs s,
  irq_inv evs (prov s) → irq_inv (evs ++ (sys_run sched s).1) (prov (sys_run sched s).2).
Proof.
  induction sched as [|[t a] rest IH]; intros evs s I; simpl; [by quiet|].
  pose proof (inv_step evs t a s I) as H. destruct (sys_step t a s) as [e1 s1].
  specialize (IH _ s1 H). destruct (sys_run rest s1) as [e2 s2]. simpl in *. by rewrite (assoc_L (++)).
Qed.

(** C39: under every interleaving of any number of threads - registering,
    triggering, running halves, cancelling, stopping and closing - the events
    of a line are well ordered: triggers carry growing sequence numbers, a top
    half completes at most once and after its trigger, a bottom half runs at
    most once and only after its top half completed.  The work queue stays
    within its capacity, every active handler has its work item in the queue,
    and a line that is not shared has at most one owner. *)
Theorem bottom_half_once_after_top_half l cap p0 sched :
  new_provider l cap = Ok p0 →
  let '(evs, s) := sys_run sched (initial p0) in
  ordered evs ∧
  (length (works (prov s)) ≤ work_capacity (prov s))%nat ∧
  (∀ n, n ∈ active_work (prov s) → ∃ w, w ∈ works (prov s) ∧ sequence w = n ∧ TopHalf w ∉ evs) ∧
  (shared (irq_line (prov s)) = false → (size (handlers (prov s)) ≤ 1)%nat).
Proof.
  unfold new_provider. destruct (_ && _); [|done]. intros [= <-].
  set (p0 := {| state := _ |}). assert (irq_inv [] p0) as I.
  { constructor; simpl; try done; try set_solver; try lia; [constructor|]. by intros [|? ?]. }
  pose proof (inv_run sched [] (initial p0) I) as H.
  destruct (sys_run sched (initial p0)) as [evs s]. simpl in H. split_and!; apply H.
Qed.

Definition shared_line : IRQLine := {| number := 7; shared := true; priority := 1 |}.
Definition fresh : FakeIRQProvider := {| irq_line := shared_line; work_capacity := 2; state := IRQState.DISABLED;
  handlers := ∅; works := []; active_work := ∅; next_sequence := 0 |}.
Definition work (n : Z) (o : string) : IRQWork := {| sequence := n; owner := o; work_line := 7 |}.

Definition handled : list (nat * act) :=
  [(1%nat, Register "uart"); (1%nat, Register "spi"); (1%nat, Enable); (1%nat, Trigger "uart");
   (2%nat, Trigger "spi"); (1%nat, RunBottomHalf (work 0 "uart")); (1%nat, CompleteTopHalf (work 0 "uart"));
   (2%nat, RunBottomHalf (work 0 "uart")); (3%nat, RunBottomHalf (work 0 "uart"))].

Lemma bottom_half_once_after_top_half_witness :
  (sys_run handled (initial fresh)).1 =
    [Triggered (work 0 "uart"); Triggered (work 1 "spi"); TopHalf (work 0 "uart"); BottomHalf (work 0 "uart")] ∧
  ordered (sys_run handled (initial fresh)).1.
Proof.
  split; [vm_compute; reflexivity|].
  pose proof (bottom_half_once_after_top_half shared_line 2 fresh handled eq_refl) as H.
  destruct (sys_run handled (initial fresh)) as [evs s]. exact (proj1 H).
Defined.

(** ** Stopping *)

Definition no_stop (t : nat) (ta : nat * act) : bool :=
  negb (ta.1 =? t)%nat && match ta.2 with Stop _ | Close => false | _ => true end.

(** Thread [t] waits in [stop], every other thread is outside it and [close]. *)
Definition stopping (t : nat) (s : sys) : Prop :=
  state (prov s) = IRQState.STOPPING ∧ pc_of t s = StopWait ∧ ∀ t', t' ≠ t → pc_of t' s = Idle.

Lemma stopping_step t t' a s :
  stopping t s → no_stop t (t', a) = true →
  stopping t (sys_step t' a s).2 ∧ (∀ w, Triggered w ∉ (sys_step t' a s).1).
Proof.
  intros (Hst & Hpc & Hidle) [Hne Ha]%andb_prop. simpl in Hne, Ha.
  apply negb_true_iff, Nat.eqb_neq in Hne. specialize (Hidle t' Hne) as Ht'.
  assert (∀ p, state p = IRQState.STOPPING → stopping t (with_prov p s)) as Hwp by (intros p ?; by split).
  unfold sys_step. destruct a; simpl; try done; rewrite ?decide_False by (by intros []);
    try (split; [apply Hwp|set_solver]).
  - unfold register. rewrite not_closed_spec, decide_False by congruence. unfold bind, get.
    destruct (_ || _); [done|]. by destruct (_ && _).
  - unfold enable. rewrite not_closed_spec, decide_False by congruence. unfold bind, get.
    case_decide; [done|]. by rewrite decide_True.
  - unfold trigger. rewrite not_closed_spec, decide_False by congruence. unfold bind, get.
    rewrite decide_True by congruence. simpl. split; [by apply Hwp|set_solver].
  - unfold complete_top_half. rewrite not_closed_spec, decide_False by congruence. unfold bind, get.
    destruct (_ || _); simpl; (split; [by apply Hwp|set_solver]).
  - unfold run_bottom_half. rewrite not_closed_spec, decide_False by congruence. unfold bind, get.
    do 2 (case_decide; [simpl; split; [by apply Hwp|set_solver]|]). simpl. split; [by apply Hwp|set_solver].
  - unfold cancel_work. by rewrite not_closed_spec, decide_False by congruence.
  - unfold resume. rewrite Ht'. split; [by split|set_solver].
Qed.

Lemma stopping_run t sched : ∀ s,
  stopping t s → forallb (no_stop t) sched = true →
  stopping t (sys_run sched s).2 ∧ (∀ w, Triggered w ∉ (sys_run sched s).1).
Proof.
  induction sched as [|[t' a] rest IH]; intros s Hs Hall; simpl; [split; [done|set_solver]|].
  apply andb_prop in Hall as [Ha Hall]. destruct (stopping_step t t' a s Hs Ha) as [Hs1 Ht1].
  destruct (sys_step t' a s) as [e1 s1]. destruct (IH s1 Hs1 Hall) as [Hs2 Ht2].
  destruct (sys_run rest s1) as [e2 s2]. split; [done|]. intros w. simpl in *. rewrite elem_of_app. naive_solver.
Qed.

(** While a thread waits in [stop], and no other thread stops or closes,
    no interrupt is accepted and the provider stays [STOPPING].  When the
    waiting thread looks again it returns exactly when no handler is active,
    leaving an empty queue in [DISABLED]; otherwise it keeps waiting, or past
    the deadline raises [IRQHandlerTimeout], leaving the queue, the active
    handlers and the state [STOPPING] as they are. *)
Theorem stop_waits_for_active_handlers t s sched expired :
  stopping t s → forallb (no_stop t) sched = true →
  let '(evs, s') := sys_run sched s in
  (∀ w, Triggered w ∉ evs) ∧ state (prov s') = IRQState.STOPPING ∧
  let s'' := (sys_step t (Resume expired) s').2 in
  if decide (active_work (prov s') = ∅)
  then pc_of t s'' = Idle ∧ works (prov s'') = [] ∧ state (prov s'') = IRQState.DISABLED
  else pc_of t s'' = (if expired then Idle else StopWait) ∧ prov s'' = prov s' ∧
       (expired = true → (stop_check expired (prov s')).1 = Raise IRQHandlerTimeout).
Proof.
  intros Hs Hall. destruct (stopping_run t sched s Hs Hall) as [(Hst & Hpc & _) Ht].
  destruct (sys_run sched s) as [evs s']. simpl in *. split_and!; [done..|].
  unfold resume. rewrite Hpc. unfold stop_check, bind, get, modify, ret, raise.
  case_decide as Ha; simpl.
  - unfold pc_of; simpl. by rewrite lookup_insert_eq.
  - destruct expired; simpl; unfold pc_of; simpl; by rewrite lookup_insert_eq.
Qed.

(** Thread 1 stops the line while the handler of work 0 is still active. *)
Definition stop_pending : sys :=
  (sys_run [(1%nat, Register "uart"); (1%nat, Enable); (2%nat, Trigger "uart"); (1%nat, Stop false)] (initial fresh)).2.

Definition finish_handler : list (nat * act) :=
  [(2%nat, Trigger "uart"); (2%nat, CompleteTopHalf (work 0 "uart"))].

Lemma stop_waits_for_active_handlers_witness :
  active_work (prov (sys_run finish_handler stop_pending).2) = ∅ ∧
  state (prov (sys_run finish_handler stop_pending).2) = IRQState.STOPPING.
Proof.
  pose proof (stop_waits_for_active_handlers 1 stop_pending finish_handler false) as H.
  split; [vm_compute; reflexivity|].
  destruct (sys_run _ stop_pending) as [evs s'] eqn:E. apply H; [|reflexivity]. split_and!; [reflexivity..|].
  intros [|[|t']] Ht; [reflexivity|done|]. unfold pc_of. replace (pcs stop_pending) with ({[1%nat := StopWait]} : gmap nat pc).
  - by rewrite lookup_singleton_ne.
  - vm_compute. reflexivity.
Defined.

(** ** A closed provider that comes back *)

Definition uart_active : list (nat * act) :=
  [(1%nat, Register "uart"); (1%nat, Enable); (1%nat, Trigger "uart")].

(** Threads 2 and 3 wait in [stop] and [close]; thread 1 finishes its handler;
    thread 3 is woken first and completes [close]; thread 2 is woken next. *)
Definition close_race : list (nat * act) :=
  uart_active ++
  [(2%nat, Stop false); (3%nat, Close); (3%nat, Resume false); (1%nat, CompleteTopHalf (work 0 "uart"));
   (3%nat, Resume false); (3%nat, Resume false)].

(** [CLOSED] is not final.  A thread that waits in [stop] while another
    thread closes the provider sets the closed provider back to [DISABLED]
    when it wakes up: [close] has returned, yet a later [register], [enable]
    and [trigger] are accepted again. *)
Theorem stop_reopens_a_closed_provider :
  let closed := (sys_run close_race (initial fresh)).2 in
  let woken := (sys_run [(2%nat, Resume false)] closed).2 in
  let '(evs, reused) := sys_run uart_active woken in
  state (prov closed) = IRQState.CLOSED ∧ pc_of 3 closed = Idle ∧ close_lock closed = None ∧
  state (prov woken) = IRQState.DISABLED ∧
  evs = [Triggered (work 1 "uart")] ∧ state (prov reused) = IRQState.ENABLED.
Proof. vm_compute. by repeat split. Qed.
