(* ===== verification/LinuxPm.v ===== *)
(** * Suspend and resume

    [hardware/linux_drivers/pm/contract.py].  Costs and deadlines are Python
    numbers: an integer, or a binary64 float with its infinities and NaN; a
    float operation on an integer that is too large raises [OverflowError]. *)

From Stdlib Require Import ZArith String SpecFloat.
From S2P Require Import Prelude PyVal.
Local Open Scope prog_scope.
Local Open Scope Z_scope.

Module PMState.
Inductive t : Type :=
| ACTIVE | SUSPENDING | SUSPENDED | RESUMING | FAULT | CLOSED.
#[global] Instance eq_dec : EqDecision t.
Proof. solve_decision. Defined.
#[global] Instance enum : StrEnum t := {|
  value x := match x with
    | ACTIVE => "active"
    | SUSPENDING => "suspending"
    | SUSPENDED => "suspended"
    | RESUMING => "resuming"
    | FAULT => "fault"
    | CLOSED => "closed"
    end;
  members := [ACTIVE; SUSPENDING; SUSPENDED; RESUMING; FAULT; CLOSED]
|}.
#[global] Instance laws : StrEnumLaws t.
Proof. solve_enum_laws. Qed.
End PMState.

Inductive pm_exn : Type := PMError | PMTimeout | OverflowError.

(** [except PMError]: the two classes of the module. *)
Definition is_PMError (e : pm_exn) : bool := match e with OverflowError => false | _ => true end.

Inductive pynum : Type := PInt (z : Z) | PFloat (f : spec_float).

(** [float(n)], also the conversion in [float - n] *)
Definition num_float (n : pynum) : outcome pm_exn spec_float :=
  match n with
  | PFloat f => Ok f
  | PInt z => let f := float_of_Z z in if isfinite f then Ok f else Raise OverflowError
  end.

(** [n < 0] and [n <= 0] *)
Definition num_neg (n : pynum) : bool :=
  match n with PInt z => z <? 0 | PFloat f => float_lt f float_zero end.
Definition num_nonpos (n : pynum) : bool :=
  match n with PInt z => z <=? 0 | PFloat f => float_le f float_zero end.

Record PMResource := { res_name : string; suspend_cost_s : pynum; resume_cost_s : pynum }.

(** [PMResource.__post_init__] *)
Definition make_resource (n : string) (sc rc : pynum) : outcome pm_exn PMResource :=
  if negb (non_blank n) then Raise PMError
  else if num_neg sc || num_neg rc then Raise PMError
  else Ok {| res_name := n; suspend_cost_s := sc; resume_cost_s := rc |}.

Record FakePowerManager := {
  resources : list PMResource;
  pm_state : PMState.t;
  suspended : list string
}.

(** [FakePowerManager.__init__] *)
Definition new_manager (rs : list PMResource) : outcome pm_exn FakePowerManager :=
  if bool_decide (NoDup (res_name <$> rs))
  then Ok {| resources := rs; pm_state := PMState.ACTIVE; suspended := [] |}
  else Raise PMError.

Abbreviation pm := (prog FakePowerManager pm_exn).

Definition set_state (st : PMState.t) : pm () := modify (λ p,
  {| resources := resources p; pm_state := st; suspended := suspended p |}).
Definition set_suspended (f : list string → list string) : pm () := modify (λ p,
  {| resources := resources p; pm_state := pm_state p; suspended := f (suspended p) |}).

(** [_ensure_timeout] *)
Definition _ensure_timeout (t : pynum) : pm () := require (negb (num_nonpos t)) PMError.

Definition lift {A} (o : outcome pm_exn A) : pm A := λ s, (o, s).

(** One round of either loop: the cost is taken off the budget. *)
Definition spend (remaining : spec_float) (cost : pynum) : pm spec_float :=
  c <- lift (num_float cost) ;;
  let r := float_sub remaining c in
  if float_lt r float_zero then raise PMTimeout else ret r.

(** The loop of [suspend] over the reversed resources *)
Fixpoint suspend_loop (remaining : spec_float) (rs : list PMResource) : pm () :=
  match rs with
  | [] => ret ()
  | r :: rs' =>
      remaining' <- spend remaining (suspend_cost_s r) ;;
      set_suspended (λ l, l ++ [res_name r]) ;;;
      suspend_loop remaining' rs'
  end.

(** The loop of [resume] *)
Fixpoint resume_loop (remaining : spec_float) (rs : list PMResource) : pm () :=
  match rs with
  | [] => ret ()
  | r :: rs' => remaining' <- spend remaining (resume_cost_s r) ;; resume_loop remaining' rs'
  end.

(** [try: m / except PMError: self._state = FAULT; raise] *)
Definition fault_on_error (m : pm ()) : pm () := λ s,
  match m s with
  | (Ok u, s') => (Ok u, s')
  | (Raise e, s') => if is_PMError e then (Raise e, (set_state PMState.FAULT s').2) else (Raise e, s')
  end.

(** [suspend] *)
Definition suspend (timeout_s : pynum) : pm () :=
  _ensure_timeout timeout_s ;;;
  p <- get ;;
  require (bool_decide (pm_state p = PMState.ACTIVE)) PMError ;;;
  set_state PMState.SUSPENDING ;;;
  remaining <- lift (num_float timeout_s) ;;
  set_suspended (λ _, []) ;;;
  fault_on_error (suspend_loop remaining (reverse (resources p))) ;;;
  set_state PMState.SUSPENDED.

(** [resume] *)
Definition resume (timeout_s : pynum) : pm () :=
  _ensure_timeout timeout_s ;;;
  p <- get ;;
  require (bool_decide (pm_state p = PMState.SUSPENDED)) PMError ;;;
  set_state PMState.RESUMING ;;;
  remaining <- lift (num_float timeout_s) ;;
  fault_on_error (resume_loop remaining (resources p)) ;;;
  set_suspended (λ _, []) ;;;
  set_state PMState.ACTIVE.

(** [close] *)
Definition close : pm () :=
  p <- get ;;
  match pm_state p with
  | PMState.CLOSED => ret ()
  | PMState.SUSPENDING | PMState.RESUMING => raise PMError
  | _ => set_suspended (λ _, []) ;;; set_state PMState.CLOSED
  end.

Inductive pm_op : Type := Suspend (t : pynum) | Resume (t : pynum) | Close.

Definition pm_step (o : pm_op) : pm () :=
  match o with Suspend t => suspend t | Resume t => resume t | Close => close end.

Definition pm_run (ops : list pm_op) (p : FakePowerManager) : FakePowerManager :=
  foldl (λ p o, (pm_step o p).2) p ops.

(** ** Ordinary numbers *)

(** A number that has a finite float *)
Definition finite_num (n : pynum) : Prop := ∃ f, num_float n = Ok f ∧ isfinite f = true.
Definition ordinary (r : PMResource) : Prop := finite_num (suspend_cost_s r) ∧ finite_num (resume_cost_s r).
Definition ordinary_op (o : pm_op) : Prop := match o with Suspend t | Resume t => finite_num t | Close => True end.

(** Whether the costs, one after the other, fit into what is left of a deadline *)
Fixpoint affordable (remaining : spec_float) (costs : list pynum) : bool :=
  match costs with
  | [] => true
  | c :: costs' =>
      match num_float c with
      | Ok f => let left := float_sub remaining f in negb (float_lt left float_zero) && affordable left costs'
      | Raise _ => false
      end
  end.
Definition within_deadline (t : pynum) (costs : list pynum) : bool :=
  match num_float t with Ok f => affordable f costs | Raise _ => false end.

(** What the parts of the state say about each other between two calls: nothing is
    left under way. *)
Definition pm_inv (rs : list PMResource) (p : FakePowerManager) : Prop :=
  resources p = rs ∧
  match pm_state p with
  | PMState.ACTIVE | PMState.CLOSED => suspended p = []
  | PMState.SUSPENDED => suspended p = res_name <$> reverse rs
  | PMState.FAULT => suspended p `prefix_of` (res_name <$> reverse rs)
  | PMState.SUSPENDING | PMState.RESUMING => False
  end.

(** The documented edges: a call returns and makes its move, its deadline kept; it
    misses its deadline and enters [FAULT]; or it is refused and changes nothing. *)
Definition pm_transition (rs : list PMResource) (o : pm_op) (st st' : PMState.t) (r : outcome pm_exn ()) : Prop :=
  match o, r with
  | Suspend t, Ok _ => st = PMState.ACTIVE ∧ st' = PMState.SUSPENDED ∧ within_deadline t (suspend_cost_s <$> reverse rs) = true
  | Suspend t, Raise PMTimeout => st = PMState.ACTIVE ∧ st' = PMState.FAULT ∧ within_deadline t (suspend_cost_s <$> reverse rs) = false
  | Suspend t, Raise PMError => st' = st ∧ (num_nonpos t = true ∨ st ≠ PMState.ACTIVE)
  | Resume t, Ok _ => st = PMState.SUSPENDED ∧ st' = PMState.ACTIVE ∧ within_deadline t (resume_cost_s <$> rs) = true
  | Resume t, Raise PMTimeout => st = PMState.SUSPENDED ∧ st' = PMState.FAULT ∧ within_deadline t (resume_cost_s <$> rs) = false
  | Resume t, Raise PMError => st' = st ∧ (num_nonpos t = true ∨ st ≠ PMState.SUSPENDED)
  | Close, Ok _ => st' = PMState.CLOSED
  | _, _ => False
  end.

(** ** Lemmas *)

Lemma deadline_affordable t f costs : num_float t = Ok f → within_deadline t costs = affordable f costs.
Proof. unfold within_deadline. by intros ->. Qed.

Lemma spend_run remaining c f p :
  num_float c = Ok f →
  spend remaining c p = if float_lt (float_sub remaining f) float_zero then (Raise PMTimeout, p) else (Ok (float_sub remaining f), p).
Proof. intros Hf. unfold spend, bind, lift. rewrite Hf. by destruct (float_lt _ _). Qed.

(** The loop of [suspend] appends the names in order, all of them when the costs fit. *)
Lemma suspend_loop_spec rs : ∀ remaining p,
  Forall (λ r, finite_num (suspend_cost_s r)) rs →
  let '(o, p') := suspend_loop remaining rs p in
  resources p' = resources p ∧ pm_state p' = pm_state p ∧
  if affordable remaining (suspend_cost_s <$> rs) then o = Ok () ∧ suspended p' = suspended p ++ (res_name <$> rs)
  else o = Raise PMTimeout ∧ ∃ done rest, rs = done ++ rest ∧ suspended p' = suspended p ++ (res_name <$> done).
Proof.
  induction rs as [|x rs IH]; intros remaining p Hc; simpl; [by rewrite app_nil_r|].
  apply Forall_cons in Hc as [(f & Hf & _) Hc]. rewrite Hf. unfold bind at 1. rewrite (spend_run _ _ _ _ Hf).
  destruct (float_lt _ _); simpl.
  { split_and!; [done..|]. exists [], (x :: rs). by rewrite app_nil_r. }
  unfold bind, set_suspended, modify. specialize (IH (float_sub remaining f) {| resources := resources p; pm_state := pm_state p;
    suspended := suspended p ++ [res_name x] |} Hc).
  destruct (suspend_loop _ rs _) as [o p']; simpl in *; destruct IH as (-> & -> & IH). split_and!; [done..|].
  destruct (affordable _ _); destruct IH as [-> IH]; (split; [done|]); [by rewrite IH, <- (assoc_L (++))|].
  destruct IH as (d & rest & -> & ->). exists (x :: d), rest. by rewrite <- (assoc_L (++)).
Qed.

Lemma resume_loop_spec rs : ∀ remaining p,
  Forall (λ r, finite_num (resume_cost_s r)) rs →
  resume_loop remaining rs p = (if affordable remaining (resume_cost_s <$> rs) then Ok () else Raise PMTimeout, p).
Proof.
  induction rs as [|x rs IH]; intros remaining p Hc; simpl; [done|]. apply Forall_cons in Hc as [(f & Hf & _) Hc].
  rewrite Hf. unfold bind. rewrite (spend_run _ _ _ _ Hf). destruct (float_lt _ _); simpl; [done|]. by apply IH.
Qed.

Lemma suspend_step rs t p :
  Forall ordinary rs → finite_num t → pm_inv rs p →
  let '(r, p') := suspend t p in
  pm_inv rs p' ∧ pm_transition rs (Suspend t) (pm_state p) (pm_state p') r.
Proof.
  intros Hrs (f & Hf & _) I. pose proof I as [Hr Hst]. unfold suspend, _ensure_timeout. rewrite bind_require. destruct (num_nonpos t) eqn:Ht; cbn [negb]; [simpl; auto|].
  unfold bind at 1, get. rewrite !bind_require. destruct (bool_decide_reflect (pm_state p = PMState.ACTIVE)) as [Ha|]; [|simpl; auto].
  unfold bind at 1, set_state at 1, modify. unfold bind at 1, lift. rewrite Hf.
  unfold bind at 1, set_suspended, modify. cbn [resources pm_state suspended]. unfold bind, fault_on_error.
  pose proof (suspend_loop_spec (reverse (resources p)) f {| resources := resources p; pm_state := PMState.SUSPENDING; suspended := [] |})
    as Hloop. rewrite Hr in *. destruct (suspend_loop f _ _) as [o p']; simpl in *. destruct Hloop as (H1 & H2 & H3).
  { apply Forall_reverse. eapply Forall_impl; [exact Hrs|]. by intros x []. }
  rewrite (deadline_affordable _ _ _ Hf). destruct (affordable _ _); destruct H3 as [-> H3]; simpl; [done|]. split; [|done].
  destruct H3 as (d & rest & Heq & H3). split; [done|]. simpl. rewrite H3, Heq, fmap_app. by apply prefix_app_r.
Qed.

Lemma resume_step rs t p :
  Forall ordinary rs → finite_num t → pm_inv rs p →
  let '(r, p') := resume t p in
  pm_inv rs p' ∧ pm_transition rs (Resume t) (pm_state p) (pm_state p') r.
Proof.
  intros Hrs (f & Hf & _) I. pose proof I as [Hr Hst]. unfold resume, _ensure_timeout. rewrite bind_require. destruct (num_nonpos t) eqn:Ht; cbn [negb]; [simpl; auto|].
  unfold bind at 1, get. rewrite !bind_require. destruct (bool_decide_reflect (pm_state p = PMState.SUSPENDED)) as [Ha|]; [|simpl; auto].
  rewrite Ha in Hst. unfold bind at 1, set_state at 1, modify. unfold bind at 1, lift. rewrite Hf.
  unfold bind, fault_on_error. rewrite resume_loop_spec; cbn [resources pm_state suspended]; rewrite Hr.
  - unfold pm_transition. rewrite (deadline_affordable _ _ _ Hf). destruct (affordable _ _); simpl; [done|]. split; [|done]. split; [done|]. simpl. by rewrite Hst.
  - eapply Forall_impl; [exact Hrs|]. by intros x [].
Qed.

Lemma close_step rs p :
  pm_inv rs p →
  let '(r, p') := close p in
  pm_inv rs p' ∧ pm_transition rs Close (pm_state p) (pm_state p') r.
Proof.
  intros [Hr Hst]. unfold close, bind at 1, get. unfold pm_inv.
  destruct (pm_state p) eqn:Hs; simpl; rewrite ?Hs; by repeat split.
Qed.

Lemma pm_step_spec rs o p :
  Forall ordinary rs → ordinary_op o → pm_inv rs p →
  let '(r, p') := pm_step o p in
  pm_inv rs p' ∧ pm_transition rs o (pm_state p) (pm_state p') r.
Proof. intros Hrs Ho. destruct o; simpl; [by apply suspend_step|by apply resume_step|apply close_step]. Qed.
