(* ===== verification/LinuxPmTheorems.v ===== *)
(** * Suspend and resume: theorems

    The order of suspension and the fail-closed lifecycle over any sequence of
    calls, and the two kinds of deadline that the checks let through. *)

From Stdlib Require Import ZArith SpecFloat.
From S2P Require Import Prelude PyVal LinuxPm.
Local Open Scope prog_scope.
Local Open Scope Z_scope.

Lemma pm_run_inv rs ops : ∀ p, Forall ordinary rs → Forall ordinary_op ops → pm_inv rs p → pm_inv rs (pm_run ops p).
Proof.
  induction ops as [|o ops IH]; intros p Hrs Hops I; [done|]. apply Forall_cons in Hops as [Ho Hops].
  change (pm_inv rs (pm_run ops (pm_step o p).2)). apply IH; [done..|]. pose proof (pm_step_spec rs o p Hrs Ho I) as H.
  destruct (pm_step o p) as [r p']. apply H.
Qed.

(** C40: When the costs and the deadlines are finite numbers, then after any
    sequence of calls the manager holds exactly the resources it was built with, no
    call has left it suspending or resuming, and its list of suspended resources fits
    its state: all of them in reverse order when [SUSPENDED], none when [ACTIVE] or
    [CLOSED], the first ones in that order after a fault.  The next call moves the
    state only along the documented edges: [suspend] and [resume] return exactly when
    the costs fit into the deadline, one after the other, a missed deadline is a
    [PMTimeout] that enters [FAULT], a refused call is a [PMError] that changes
    nothing, [close] always returns, and [FAULT] is left by [close] alone.
    [deadline_check_accepts_nan_and_huge_integers] shows what other deadlines do. *)
Theorem power_states_are_fail_closed rs p0 ops o :
  new_manager rs = Ok p0 → Forall ordinary rs → Forall ordinary_op (ops ++ [o]) →
  let p := pm_run ops p0 in
  let '(r, p') := pm_step o p in
  pm_inv rs p ∧ pm_inv rs p' ∧ pm_transition rs o (pm_state p) (pm_state p') r ∧
  (pm_state p = PMState.FAULT → pm_state p' = PMState.FAULT ∨ (o = Close ∧ pm_state p' = PMState.CLOSED)).
Proof.
  unfold new_manager. case_bool_decide; [|done]. intros [= <-] Hrs [Hops [Ho _]%Forall_cons]%Forall_app.
  set (p0 := {| pm_state := _ |}). assert (pm_inv rs (pm_run ops p0)) as I by by apply pm_run_inv.
  pose proof (pm_step_spec rs o _ Hrs Ho I) as H'. destruct (pm_step o _) as [r p']. destruct H' as [I' Ht].
  split_and!; try done. intros Hf. rewrite Hf in Ht. unfold pm_transition in Ht.
  destruct r as [[]|[]], o; naive_solver.
Qed.

Definition seconds (n e : Z) : pynum := PFloat (float_lit n e).

(** Costs of 0.25 s, 0.5 s and 0.5 s. *)
Definition three : list PMResource :=
  [{| res_name := "bus"; suspend_cost_s := seconds 1 (-2); resume_cost_s := seconds 1 (-2) |};
   {| res_name := "mcu"; suspend_cost_s := seconds 1 (-1); resume_cost_s := PInt 0 |};
   {| res_name := "camera"; suspend_cost_s := seconds 1 (-1); resume_cost_s := PInt 0 |}].
Definition manager : FakePowerManager := {| resources := three; pm_state := PMState.ACTIVE; suspended := [] |}.

(** A deadline of 1 s is not enough for the third resource, 2 s is. *)
Lemma power_states_are_fail_closed_witness :
  let '(r, p') := pm_step (Suspend (PInt 1)) (pm_run [Suspend (PInt 2); Resume (PInt 1)] manager) in
  r = Raise PMTimeout ∧ pm_state p' = PMState.FAULT ∧ suspended p' = ["camera"; "mcu"] ∧
  pm_inv three (pm_run [Suspend (PInt 2); Resume (PInt 1)] manager) ∧ pm_inv three p'.
Proof.
  assert (Hrs : Forall ordinary three) by (repeat constructor; eexists; (split; [vm_compute; reflexivity|reflexivity])).
  assert (Hops : Forall ordinary_op ([Suspend (PInt 2); Resume (PInt 1)] ++ [Suspend (PInt 1)]))
    by (repeat constructor; eexists; (split; [vm_compute; reflexivity|reflexivity])).
  pose proof (power_states_are_fail_closed three manager [Suspend (PInt 2); Resume (PInt 1)]
    (Suspend (PInt 1)) eq_refl Hrs Hops) as H. cbv zeta in *.
  destruct (pm_step (Suspend (PInt 1)) _) as [r p'] eqn:E. vm_compute in E. injection E as E1 E2. subst r p'.
  split; [reflexivity|]. split; [reflexivity|]. split; [reflexivity|]. exact (conj (proj1 H) (proj1 (proj2 H))).
Defined.

(** ** Deadlines that the checks let through *)

Definition convertible (n : pynum) : Prop := ∃ f, num_float n = Ok f.

Lemma suspend_loop_nan rs p :
  Forall (λ r, convertible (suspend_cost_s r)) rs →
  suspend_loop S754_nan rs p =
  (Ok (), {| resources := resources p; pm_state := pm_state p; suspended := suspended p ++ (res_name <$> rs) |}).
Proof.
  intros H. revert p. induction H as [|r rs [f Hf] _ IH]; intros p; simpl.
  - rewrite app_nil_r. by destruct p.
  - unfold bind at 1, spend, bind at 1, lift. rewrite Hf. simpl. unfold bind, set_suspended, modify.
    rewrite IH. simpl. by rewrite <- (assoc_L (++)).
Qed.

(** Two kinds of deadline defeat the bounded suspend.  A NaN deadline passes
    the check that it is positive and then no cost exceeds it: every resource is
    suspended whatever the costs are.  An integer deadline too large for a float
    raises [OverflowError] after the state has become [SUSPENDING], which no
    later call leaves. *)
Theorem deadline_check_accepts_nan_and_huge_integers p :
  pm_state p = PMState.ACTIVE →
  (Forall (λ r, convertible (suspend_cost_s r)) (resources p) →
   suspend (PFloat S754_nan) p =
     (Ok (), {| resources := resources p; pm_state := PMState.SUSPENDED;
                suspended := res_name <$> reverse (resources p) |})) ∧
  (∀ ops, let '(r, p') := suspend (PInt (10 ^ 400)) p in
   r = Raise OverflowError ∧ pm_state (pm_run ops p') = PMState.SUSPENDING).
Proof.
  intros Ha. split.
  - intros Hc. unfold suspend, _ensure_timeout. rewrite bind_require. simpl negb. cbv iota.
    unfold bind at 1, get. rewrite bind_require, bool_decide_true by done.
    unfold bind at 1, set_state at 1, modify. unfold bind at 1, lift. simpl num_float. cbv iota.
    unfold bind at 1, set_suspended, modify. unfold bind, fault_on_error.
    rewrite suspend_loop_nan; [done|]. by apply Forall_reverse.
  - intros ops. assert (suspend (PInt (10 ^ 400)) p = (Raise OverflowError,
      {| resources := resources p; pm_state := PMState.SUSPENDING; suspended := suspended p |})) as ->.
    { unfold suspend, _ensure_timeout. rewrite bind_require.
      replace (negb (num_nonpos (PInt (10 ^ 400)))) with true by (vm_compute; done).
      unfold bind at 1, get. rewrite bind_require, bool_decide_true by done.
      unfold bind at 1, set_state at 1, modify. unfold bind at 1, lift.
      by replace (num_float (PInt (10 ^ 400))) with (Raise (A:=spec_float) OverflowError) by (vm_compute; done). }
    split; [done|]. generalize (resources p) (suspended p). intros rs l.
    induction ops as [|o ops IH]; simpl; [done|]. replace (pm_step o _).2 with
      {| resources := rs; pm_state := PMState.SUSPENDING; suspended := l |}; [done|].
    destruct o as [t|t|]; simpl; [| |done]; unfold suspend, resume, _ensure_timeout; rewrite bind_require;
      by destruct (negb _).
Qed.

Lemma deadline_check_accepts_nan_and_huge_integers_witness :
  suspend (PFloat S754_nan) manager =
    (Ok (), {| resources := three; pm_state := PMState.SUSPENDED; suspended := ["camera"; "mcu"; "bus"] |}) ∧
  (let '(r, p') := suspend (PInt (10 ^ 400)) manager in
   r = Raise OverflowError ∧ pm_state (pm_run [Close; Resume (PInt 1); Suspend (PInt 1)] p') = PMState.SUSPENDING).
Proof.
  destruct (deadline_check_accepts_nan_and_huge_integers manager eq_refl) as [H1 H2]. split.
  - apply H1. repeat constructor; vm_compute; eauto.
  - apply H2.
Defined.
