(* ===== verification/VirtualMcu.v ===== *)
(** * The virtual motor controller

    [firmware/virtual_mcu/workbench_virtual_mcu/state_machine.py]: the state
    machine that stands for the safety boundary of the firmware, its command
    interface on arbitrary objects, and what no command sequence can do. *)

From Stdlib Require Import ZArith String.
From S2P Require Import Prelude PyVal.

Module McuState.
Inductive t : Type :=
| IDLE | EXECUTING | SAFE_STOP | FAULT.
#[global] Instance eq_dec : EqDecision t.
Proof. solve_decision. Defined.
#[global] Instance enum : StrEnum t := {|
  value x := match x with
    | IDLE => "idle"
    | EXECUTING => "executing"
    | SAFE_STOP => "safe_stop"
    | FAULT => "fault"
    end;
  members := [IDLE; EXECUTING; SAFE_STOP; FAULT]
|}.
#[global] Instance laws : StrEnumLaws t.
Proof. solve_enum_laws. Qed.
End McuState.

Module McuCommandStatus.
Inductive t : Type :=
| ACCEPTED | REJECTED.
#[global] Instance eq_dec : EqDecision t.
Proof. solve_decision. Defined.
#[global] Instance enum : StrEnum t := {|
  value x := match x with
    | ACCEPTED => "accepted"
    | REJECTED => "rejected"
    end;
  members := [ACCEPTED; REJECTED]
|}.
#[global] Instance laws : StrEnumLaws t.
Proof. solve_enum_laws. Qed.
End McuCommandStatus.

Module McuCommandRejection.
Inductive t : Type :=
| NON_STRING | EMPTY | MALFORMED | UNKNOWN | INVALID_STATE.
#[global] Instance eq_dec : EqDecision t.
Proof. solve_decision. Defined.
#[global] Instance enum : StrEnum t := {|
  value x := match x with
    | NON_STRING => "non_string_command"
    | EMPTY => "empty_command"
    | MALFORMED => "malformed_command"
    | UNKNOWN => "unknown_command"
    | INVALID_STATE => "invalid_state_transition"
    end;
  members := [NON_STRING; EMPTY; MALFORMED; UNKNOWN; INVALID_STATE]
|}.
#[global] Instance laws : StrEnumLaws t.
Proof. solve_enum_laws. Qed.
End McuCommandRejection.

(** [McuCommandResult]; its [__post_init__] ties the reason to the status. *)
Record McuCommandResult := {
  status : McuCommandStatus.t;
  result_state : McuState.t;
  rejection : option McuCommandRejection.t
}.

Definition valid_result (r : McuCommandResult) : bool :=
  match status r, rejection r with
  | McuCommandStatus.ACCEPTED, None | McuCommandStatus.REJECTED, Some _ => true
  | _, _ => false
  end.

Definition accepted (r : McuCommandResult) : bool := bool_decide (status r = McuCommandStatus.ACCEPTED).
Definition rejected (r : McuCommandResult) : bool := bool_decide (status r = McuCommandStatus.REJECTED).

(** [_COMMAND_ALLOWED_STATES] *)
Definition _COMMAND_ALLOWED_STATES (command : string) : option (list McuState.t) :=
  if String.eqb command "stop" then Some members
  else if String.eqb command "reset" then Some [McuState.SAFE_STOP; McuState.FAULT]
  else if String.eqb command "execute" then Some [McuState.IDLE]
  else if String.eqb command "complete" then Some [McuState.EXECUTING]
  else None.

Record VirtualMcu := { state : McuState.t; fault_code : option string }.

(** [VirtualMcu.__init__] *)
Definition new_mcu : VirtualMcu := {| state := McuState.IDLE; fault_code := None |}.

(** [_reject] *)
Definition _reject (why : McuCommandRejection.t) (m : VirtualMcu) : McuCommandResult * VirtualMcu :=
  ({| status := McuCommandStatus.REJECTED; result_state := state m; rejection := Some why |}, m).

(** The effect of an admissible command *)
Definition apply_command (c : string) (m : VirtualMcu) : VirtualMcu :=
  if String.eqb c "stop" then {| state := McuState.SAFE_STOP; fault_code := fault_code m |}
  else if String.eqb c "reset" then {| state := McuState.IDLE; fault_code := None |}
  else if String.eqb c "execute" then {| state := McuState.EXECUTING; fault_code := fault_code m |}
  else if String.eqb c "complete" then {| state := McuState.IDLE; fault_code := fault_code m |}
  else m.

(** [command] *)
Definition command (v : pyval) (m : VirtualMcu) : McuCommandResult * VirtualMcu :=
  match as_str v with
  | None => _reject McuCommandRejection.NON_STRING m
  | Some c =>
      if String.eqb c "" then _reject McuCommandRejection.EMPTY m
      else if negb (String.eqb c (strip c)) then _reject McuCommandRejection.MALFORMED m
      else match _COMMAND_ALLOWED_STATES c with
           | None => _reject McuCommandRejection.UNKNOWN m
           | Some allowed =>
               if decide (state m ∉ allowed) then _reject McuCommandRejection.INVALID_STATE m
               else let m' := apply_command c m in
                    ({| status := McuCommandStatus.ACCEPTED; result_state := state m'; rejection := None |}, m')
           end
  end.

(** [watchdog_timeout] *)
Definition watchdog_timeout (m : VirtualMcu) : McuState.t * VirtualMcu :=
  (McuState.FAULT, {| state := McuState.FAULT; fault_code := Some "WATCHDOG_TIMEOUT" |}).

Inductive mcu_input : Type := Command (v : pyval) | Watchdog.

Definition mcu_step (i : mcu_input) (m : VirtualMcu) : VirtualMcu :=
  match i with Command v => (command v m).2 | Watchdog => (watchdog_timeout m).2 end.

Definition mcu_run (l : list mcu_input) (m : VirtualMcu) : VirtualMcu := foldl (flip mcu_step) m l.

(** ** Lemmas *)

Lemma allowed_spec c allowed :
  _COMMAND_ALLOWED_STATES c = Some allowed →
  (c = "stop" ∧ allowed = members) ∨ (c = "reset" ∧ allowed = [McuState.SAFE_STOP; McuState.FAULT]) ∨
  (c = "execute" ∧ allowed = [McuState.IDLE]) ∨ (c = "complete" ∧ allowed = [McuState.EXECUTING]).
Proof.
  unfold _COMMAND_ALLOWED_STATES.
  destruct (String.eqb_spec c "stop"); [naive_solver|]. destruct (String.eqb_spec c "reset"); [naive_solver|].
  destruct (String.eqb_spec c "execute"); [naive_solver|]. destruct (String.eqb_spec c "complete"); naive_solver.
Qed.

(** A command is rejected and changes nothing, or is one of the four edges. *)
Lemma command_spec v m :
  let '(r, m') := command v m in
  valid_result r = true ∧ result_state r = state m' ∧
  ((status r = McuCommandStatus.REJECTED ∧ m' = m ∧ as_str v ≠ Some "stop") ∨
   (status r = McuCommandStatus.ACCEPTED ∧ ∃ c, as_str v = Some c ∧ m' = apply_command c m ∧
      (c = "stop" ∨ (c = "reset" ∧ (state m = McuState.SAFE_STOP ∨ state m = McuState.FAULT)) ∨
       (c = "execute" ∧ state m = McuState.IDLE) ∨ (c = "complete" ∧ state m = McuState.EXECUTING)))).
Proof.
  unfold command, _reject. destruct (as_str v) as [c|]; [|by split_and!; [..|left]].
  destruct (String.eqb_spec c "") as [->|]; [by split_and!; [..|left]|].
  destruct (String.eqb_spec c (strip c)) as [Hstrip|Hstrip].
  2: { split_and!; [done..|]. left. split_and!; [done..|]. intros [= ->]. by apply Hstrip. }
  simpl. destruct (_COMMAND_ALLOWED_STATES c) as [allowed|] eqn:Ha.
  2: { split_and!; [done..|]. left. split_and!; [done..|]. intros [= ->]. done. }
  apply allowed_spec in Ha. case_decide as Hin.
  - split_and!; [done..|]. left. split_and!; [done..|]. intros [= ->].
    destruct Ha as [[_ ->]|[[]|[[]|[]]]]; try done. apply Hin, members_complete.
  - split_and!; [done..|]. right. split; [done|]. exists c. split_and!; [done..|].
    destruct Ha as [[-> ->]|[[-> ->]|[[-> ->]|[-> ->]]]]; rewrite ?elem_of_cons, ?elem_of_nil in Hin; naive_solver.
Qed.

(** A recorded fault code and the running state exclude each other. *)
Definition mcu_inv (m : VirtualMcu) : Prop :=
  (state m = McuState.FAULT → fault_code m ≠ None) ∧
  (state m = McuState.IDLE ∨ state m = McuState.EXECUTING → fault_code m = None).

Lemma mcu_step_inv i m : mcu_inv m → mcu_inv (mcu_step i m).
Proof.
  intros [H1 H2]. destruct i as [v|]; simpl; [|by split; [done|intros [|]]].
  pose proof (command_spec v m) as H. destruct (command v m) as [r m'].
  destruct H as (_ & _ & [(_ & -> & _)|(_ & c & _ & -> & Hc)]); [done|].
  destruct Hc as [->|[[-> _]|[[-> Hs]|[-> Hs]]]]; unfold mcu_inv; simpl; naive_solver.
Qed.

Lemma mcu_run_inv l : ∀ m, mcu_inv m → mcu_inv (mcu_run l m).
Proof. induction l as [|i l IH]; intros m H; [done|]. apply (IH (mcu_step i m)). by apply mcu_step_inv. Qed.

(** Only [reset] leaves the two stopped states. *)
Lemma stopped_step i m :
  (state m = McuState.SAFE_STOP ∨ state m = McuState.FAULT) →
  (∀ v, i = Command v → as_str v ≠ Some "reset") →
  state (mcu_step i m) = McuState.SAFE_STOP ∨ state (mcu_step i m) = McuState.FAULT.
Proof.
  intros Hs Hi. destruct i as [v|]; simpl; [|by right]. specialize (Hi v eq_refl).
  pose proof (command_spec v m) as H. destruct (command v m) as [r m'].
  destruct H as (_ & _ & [(_ & -> & _)|(_ & c & Hv & -> & Hc)]); [done|].
  destruct Hc as [->|[[-> _]|[[-> Hs']|[-> Hs']]]]; [by left|by destruct Hi|destruct Hs; congruence..].
Qed.

Lemma stopped_run l : ∀ m,
  (state m = McuState.SAFE_STOP ∨ state m = McuState.FAULT) →
  (∀ v, Command v ∈ l → as_str v ≠ Some "reset") →
  state (mcu_run l m) = McuState.SAFE_STOP ∨ state (mcu_run l m) = McuState.FAULT.
Proof.
  induction l as [|i l IH]; intros m Hs Hl; [done|]. apply (IH (mcu_step i m)).
  - apply stopped_step; [done|]. intros v ->. apply Hl. by left.
  - intros v Hv. apply Hl. by right.
Qed.

(** The controller never leaves a stop by itself.  After any history, [stop]
    is accepted in every state and a watchdog timeout enters [FAULT]; from either
    stopped state no later sequence of commands and timeouts without a [reset]
    leads back to [IDLE] or [EXECUTING]; and while the controller is [IDLE] or
    [EXECUTING] no fault code is pending. *)
Theorem stop_holds_until_reset history i rest :
  let before := mcu_run history new_mcu in
  let stopped := mcu_step i before in
  (i = Command (VStr "stop") ∨ i = Watchdog) →
  (∀ v, Command v ∈ rest → as_str v ≠ Some "reset") →
  (i = Command (VStr "stop") → accepted (command (VStr "stop") before).1 = true) ∧
  (state (mcu_run rest stopped) = McuState.SAFE_STOP ∨ state (mcu_run rest stopped) = McuState.FAULT) ∧
  mcu_inv (mcu_run rest stopped).
Proof.
  intros before stopped Hi Hrest.
  assert (mcu_inv (mcu_run rest stopped)) by (by apply mcu_run_inv, mcu_step_inv, mcu_run_inv).
  split_and!; [|apply stopped_run; [|done]|done].
  - intros _. pose proof (command_spec (VStr "stop") before) as Hc.
    destruct (command (VStr "stop") before) as [r m']. unfold accepted. apply bool_decide_eq_true. simpl.
    destruct Hc as (_ & _ & [(_ & _ & Hne)|(Ha & _)]); [by destruct Hne|done].
  - destruct Hi as [->| ->]; [|by right]. left. unfold stopped. simpl.
    pose proof (command_spec (VStr "stop") before) as Hc. destruct (command (VStr "stop") before) as [r m'].
    destruct Hc as (_ & _ & [(_ & _ & Hne)|(_ & c & [= <-] & -> & _)]); [by destruct Hne|done].
Qed.

Definition stopped_mcu : VirtualMcu :=
  mcu_run [Command (VStr "execute"); Command (VStr " reset"); Watchdog]
    (mcu_step (Command (VStr "stop")) (mcu_run [Command (VStr "execute")] new_mcu)).

Lemma stop_holds_until_reset_witness :
  state (mcu_run [Command (VStr "execute")] new_mcu) = McuState.EXECUTING ∧
  (state stopped_mcu = McuState.SAFE_STOP ∨ state stopped_mcu = McuState.FAULT).
Proof.
  split; [reflexivity|].
  apply (stop_holds_until_reset [Command (VStr "execute")] (Command (VStr "stop"))
    [Command (VStr "execute"); Command (VStr " reset"); Watchdog]); [by left|].
  intros v Hv. rewrite !elem_of_cons, elem_of_nil in Hv.
  destruct Hv as [[= ->]|[[= ->]|[[=]|[]]]]; done.
Defined.
