(* ===== verification/Aging.v ===== *)
(** * Ageing of world-model observations

    [services/world_model/workbench_world_model/aging.py] and the [WorldState]
    record of [reducer.py]: which beliefs a replay may still hold at an explicit
    boundary time.  Strings, floats and dynamically typed metadata are those of
    [PyVal]; the dictionaries are finite maps, since every loop of the module
    treats each key by itself and no two metadata records are the same object. *)

From Stdlib Require Import ZArith Ascii String SpecFloat.
From S2P Require Import Prelude PyVal DateTime Contracts.
Local Open Scope prog_scope.
Local Open Scope Z_scope.

Inductive aging_exn : Type := ValueError | OverflowError.

(** ** Wall-clock times *)

(** The pattern [_UTC_WALL_TIME_PATTERN]: 'd' stands for a digit. *)
Definition is_digit (c : ascii) : bool :=
  let n := nat_of_ascii c in (48 <=? n)%nat && (n <=? 57)%nat.

Fixpoint match_shape (shape s : string) : option string :=
  match shape, s with
  | EmptyString, _ => Some s
  | String p shape', String c s' =>
      if (if Ascii.eqb p "d" then is_digit c else Ascii.eqb p c) then match_shape shape' s' else None
  | _, EmptyString => None
  end.

Fixpoint skip_digit_run (s : string) : string :=
  match s with
  | String c s' => if is_digit c then skip_digit_run s' else s
  | EmptyString => EmptyString
  end.

(** The optional fraction: a point and at least one digit *)
Definition match_fraction (s : string) : option string :=
  match s with
  | String "." (String c s') => if is_digit c then Some (skip_digit_run s') else None
  | String "." EmptyString => None
  | _ => Some s
  end.

(** [_UTC_WALL_TIME_PATTERN.fullmatch(s) is not None] *)
Definition utc_wall_time_shape (s : string) : bool :=
  match match_shape "dddd-dd-ddTdd:dd:dd" s ≫= match_fraction with
  | Some suffix => String.eqb suffix "Z" || String.eqb suffix "+00:00"
  | None => false
  end.

(** [value[:-1] + "+00:00" if value.endswith("Z") else value] *)
Definition expand_z (s : string) : string :=
  if String.eqb (substring (String.length s - 1) 1 s) "Z"
  then substring 0 (String.length s - 1) s +:+ "+00:00" else s.

(** [parse_utc_wall_time]; [None] is its ValueError. *)
Definition parse_utc_wall_time (v : pyval) : option datetime :=
  match v with
  | VStr s =>
      if utc_wall_time_shape s then
        match fromisoformat (expand_z s) with
        | Some d => if decide (utcoffset d = Some 0) then Some d else None
        | None => None
        end
      else None
  | _ => None
  end.

(** ** Thresholds *)

(** [_finite_seconds] *)
Definition _finite_seconds (v : pyval) : outcome aging_exn spec_float :=
  match v with
  | VInt z => let f := float_of_Z z in if isfinite f then Ok f else Raise OverflowError
  | VFloat f => if isfinite f then Ok f else Raise ValueError
  | _ => Raise ValueError
  end.

Record FreshnessThresholds := { stale_after_s : spec_float; lost_after_s : spec_float }.

(** [FreshnessThresholds.__post_init__] *)
Definition make_thresholds (stale lost : pyval) : outcome aging_exn FreshnessThresholds :=
  match _finite_seconds stale, _finite_seconds lost with
  | Raise e, _ | Ok _, Raise e => Raise e
  | Ok s, Ok l =>
      if float_le s float_zero then Raise ValueError
      else if float_le l float_zero then Raise ValueError
      else if float_lt l s then Raise ValueError
      else Ok {| stale_after_s := s; lost_after_s := l |}
  end.

(** [_non_blank_policy_label] *)
Definition _non_blank_policy_label (v : pyval) : option string :=
  match v with
  | VStr s => if non_blank s && negb (String.eqb (strip s) "*") then Some s else None
  | _ => None
  end.

Record ObservationFreshnessPolicy := { rules : gmap (string * string) FreshnessThresholds }.

(** The items of a mapping handed to the constructor: the value is [None] when
    it is not a [FreshnessThresholds]. *)
Abbreviation raw_rules := (list (pyval * option FreshnessThresholds)).

Fixpoint normalize_rules (raw : raw_rules) : outcome aging_exn (gmap (string * string) FreshnessThresholds) :=
  match raw with
  | [] => Ok ∅
  | (VTuple [s; e], th) :: raw' =>
      match _non_blank_policy_label s, _non_blank_policy_label e, th with
      | Some s, Some e, Some th =>
          match normalize_rules raw' with Ok m => Ok (<[(s, e):=th]> m) | Raise x => Raise x end
      | _, _, _ => Raise ValueError
      end
  | _ => Raise ValueError
  end.

(** [ObservationFreshnessPolicy.__post_init__] *)
Definition make_policy (raw : raw_rules) : outcome aging_exn ObservationFreshnessPolicy :=
  match raw with
  | [] => Raise ValueError
  | _ => match normalize_rules raw with Ok m => Ok {| rules := m |} | Raise x => Raise x end
  end.

(** [rule_for] *)
Definition rule_for (source entity_type : pyval) (p : ObservationFreshnessPolicy) : option FreshnessThresholds :=
  match source, entity_type with
  | VStr s, VStr e => rules p !! (s, e)
  | _, _ => None
  end.

(** A key of the overrides as a key of the policy: equality of [str] objects. *)
Definition rule_key (k : pyval) : option (string * string) :=
  match k with
  | VTuple [s; e] => match as_str s, as_str e with Some s, Some e => Some (s, e) | _, _ => None end
  | _ => None
  end.

Definition widens (replacement original : FreshnessThresholds) : bool :=
  float_lt (stale_after_s original) (stale_after_s replacement) ||
  float_lt (lost_after_s original) (lost_after_s replacement).

(** The loop of [tightened] *)
Fixpoint merge_overrides (orig : gmap (string * string) FreshnessThresholds) (overrides : raw_rules)
    (merged : gmap (string * string) FreshnessThresholds)
    : outcome aging_exn (gmap (string * string) FreshnessThresholds) :=
  match overrides with
  | [] => Ok merged
  | (key, replacement) :: rest =>
      match rule_key key ≫= λ k, (λ th, (k, th)) <$> orig !! k with
      | None => Raise ValueError
      | Some (k, original) =>
          match replacement with
          | None => Raise ValueError
          | Some replacement =>
              if widens replacement original then Raise ValueError
              else merge_overrides orig rest (<[k:=replacement]> merged)
          end
      end
  end.

Definition raw_of (m : gmap (string * string) FreshnessThresholds) : raw_rules :=
  (λ '((s, e), th), (VTuple [VStr s; VStr e], Some th)) <$> map_to_list m.

(** [tightened] *)
Definition tightened (overrides : raw_rules) (p : ObservationFreshnessPolicy)
    : outcome aging_exn ObservationFreshnessPolicy :=
  match merge_overrides (rules p) overrides (rules p) with
  | Ok merged => make_policy (raw_of merged)
  | Raise e => Raise e
  end.

(** ** The boundary *)

Record ObservationAgingBoundary := { as_of : string; clock_id : ClockId.t }.

(** [ObservationAgingBoundary.__post_init__] *)
Definition make_boundary (as_of clock : pyval) : outcome aging_exn ObservationAgingBoundary :=
  match as_of with
  | VStr s =>
      if negb (non_blank s) then Raise ValueError
      else match as_str clock ≫= of_value with
           | None => Raise ValueError
           | Some c =>
               if decide (c = ClockId.WALL) then
                 match parse_utc_wall_time (VStr s) with
                 | Some _ => Ok {| as_of := s; clock_id := c |}
                 | None => Raise ValueError
                 end
               else Ok {| as_of := s; clock_id := c |}
           end
  | _ => Raise ValueError
  end.

(** [clock_id in (ClockId.WALL, ClockId.WALL.value)] *)
Definition is_wall (v : pyval) : bool := bool_decide (as_str v = Some "wall").

(** [comparable_wall_observation_is_older] *)
Definition comparable_wall_observation_is_older
    (current_observed_at current_clock_id incoming_observed_at incoming_clock_id : pyval) : bool :=
  if negb (is_wall current_clock_id) then false
  else if negb (is_wall incoming_clock_id) then false
  else match parse_utc_wall_time current_observed_at, parse_utc_wall_time incoming_observed_at with
       | Some current, Some incoming => instant incoming <? instant current
       | _, _ => false
       end.

(** ** Beliefs *)

(** [timedelta.total_seconds()]: microseconds divided by 10^6, rounded once *)
Definition total_seconds (us : Z) : spec_float :=
  if us =? 0 then float_zero
  else let '(m, e, l) := SFdiv_core_binary 53 1024 (Z.abs us) 0 1000000 0 in
       binary_round_aux 53 1024 (us <? 0) m e l.

(** The comparisons at the end of [_belief_for_observation] *)
Definition belief_for_age (age_s : spec_float) (th : FreshnessThresholds) : WorldBelief.t :=
  if float_lt age_s float_zero then WorldBelief.LOST
  else if float_lt age_s (stale_after_s th) then WorldBelief.OBSERVED
  else if float_lt age_s (lost_after_s th) then WorldBelief.STALE
  else WorldBelief.LOST.

(** [_belief_for_observation] *)
Definition _belief_for_observation (observed_at observation_clock_id source entity_type : pyval)
    (policy : ObservationFreshnessPolicy) (boundary : ObservationAgingBoundary) : WorldBelief.t :=
  if decide (clock_id boundary ≠ ClockId.WALL) then WorldBelief.LOST
  else if negb (is_wall observation_clock_id) then WorldBelief.LOST
  else match rule_for source entity_type policy with
       | None => WorldBelief.LOST
       | Some th =>
           match parse_utc_wall_time observed_at, parse_utc_wall_time (VStr (as_of boundary)) with
           | Some observation_time, Some boundary_time =>
               belief_for_age (total_seconds (instant boundary_time - instant observation_time)) th
           | _, _ => WorldBelief.LOST
           end
       end.

(** [_least_fresh] *)
Definition _least_fresh (beliefs : list WorldBelief.t) : WorldBelief.t :=
  if decide (WorldBelief.LOST ∈ beliefs) then WorldBelief.LOST
  else if decide (WorldBelief.STALE ∈ beliefs) then WorldBelief.STALE
  else if decide (WorldBelief.INFERRED ∈ beliefs) then WorldBelief.INFERRED
  else WorldBelief.OBSERVED.

(** ** The world state *)

Record WorldState := {
  run_id : string;
  entity_types : gmap string string;
  entity_poses : gmap string pyval;
  entity_last_observed_at : gmap string string;
  entity_observation_clock_ids : gmap string string;
  entity_observation_sources : gmap string string;
  entity_beliefs : gmap string WorldBelief.t;
  entity_locations : gmap string string;
  entity_location_evidence_refs : gmap string (list string);
  entity_location_last_observed_at : gmap string string;
  entity_location_clock_ids : gmap string string;
  entity_location_sources : gmap string string;
  entity_location_beliefs : gmap string WorldBelief.t;
  entity_confidence : gmap string spec_float;
  entity_attributes : gmap string (gmap string string);
  entity_attribute_baselines : gmap string bool;
  entity_attribute_metadata : gmap string (gmap string pyval);
  entity_attribute_schema_versions : gmap string string;
  entity_evidence_refs : gmap string (list string);
  evidence_refs : list string;
  freshness_evaluated : bool;
  applied_event_ids : list string
}.

(** [d.get(k)] of a dict of strings *)
Definition get_str (m : gmap string string) (k : string) : pyval :=
  match m !! k with Some s => VStr s | None => VNone end.

(** The body of the inner loop of [_age_attribute_metadata] *)
Definition age_metadata (entity_type : pyval) (policy : ObservationFreshnessPolicy)
    (boundary : ObservationAgingBoundary) (raw : pyval) : pyval :=
  match raw with
  | VDict kvs =>
      let at_ k := dict_get_or k kvs VNone in
      let belief := _belief_for_observation (at_ "observed_at") (at_ "clock_id") (at_ "source")
                      entity_type policy boundary in
      let belief := if py_eqb (at_ "belief") (VStr "inferred") && bool_decide (belief = WorldBelief.OBSERVED)
                    then WorldBelief.INFERRED else belief in
      VDict (dict_set "belief" (VStr (value belief)) kvs)
  | other => other
  end.

(** The outer loop's body: an entity without attributes is not visited. *)
Definition age_entity_metadata (s : WorldState) (policy : ObservationFreshnessPolicy)
    (boundary : ObservationAgingBoundary) (e : string) (metadata : gmap string pyval) : gmap string pyval :=
  match entity_attributes s !! e with
  | Some _ => age_metadata (get_str (entity_types s) e) policy boundary <$> metadata
  | None => metadata
  end.

(** [_age_attribute_metadata] *)
Definition _age_attribute_metadata (s : WorldState) (policy : ObservationFreshnessPolicy)
    (boundary : ObservationAgingBoundary) : gmap string (gmap string pyval) :=
  map_imap (λ e metadata, Some (age_entity_metadata s policy boundary e metadata)) (entity_attribute_metadata s).

(** The beliefs of the second loop of [age_world_state] *)
Definition aged_entity_beliefs (s : WorldState) (policy : ObservationFreshnessPolicy)
    (boundary : ObservationAgingBoundary) : gmap string WorldBelief.t :=
  map_imap (λ e _, Some (_belief_for_observation
    (get_str (entity_last_observed_at s) e) (get_str (entity_observation_clock_ids s) e)
    (get_str (entity_observation_sources s) e) (get_str (entity_types s) e) policy boundary)) (entity_types s).

(** The endpoint of a location "relation:endpoint" *)
Definition endpoint_belief (beliefs : gmap string WorldBelief.t) (location : string) : WorldBelief.t :=
  let '(_, separator, endpoint_id) := partition_at ":" location in
  if (separator : bool) && non_blank endpoint_id then default WorldBelief.LOST (beliefs !! endpoint_id)
  else WorldBelief.LOST.

(** The last loop of [age_world_state] *)
Definition aged_location_beliefs (s : WorldState) (beliefs : gmap string WorldBelief.t)
    (policy : ObservationFreshnessPolicy) (boundary : ObservationAgingBoundary) : gmap string WorldBelief.t :=
  map_imap (λ e location, Some (_least_fresh
    [default WorldBelief.LOST (beliefs !! e); endpoint_belief beliefs location;
     _belief_for_observation
       (get_str (entity_location_last_observed_at s) e) (get_str (entity_location_clock_ids s) e)
       (get_str (entity_location_sources s) e) (get_str (entity_types s) e) policy boundary])) (entity_locations s).

(** [age_world_state] *)
Definition age_world_state (s : WorldState) (policy : ObservationFreshnessPolicy)
    (boundary : ObservationAgingBoundary) : WorldState :=
  let beliefs := aged_entity_beliefs s policy boundary in {|
  run_id := run_id s; entity_types := entity_types s; entity_poses := entity_poses s;
  entity_last_observed_at := entity_last_observed_at s;
  entity_observation_clock_ids := entity_observation_clock_ids s;
  entity_observation_sources := entity_observation_sources s;
  entity_beliefs := beliefs;
  entity_locations := entity_locations s;
  entity_location_evidence_refs := entity_location_evidence_refs s;
  entity_location_last_observed_at := entity_location_last_observed_at s;
  entity_location_clock_ids := entity_location_clock_ids s;
  entity_location_sources := entity_location_sources s;
  entity_location_beliefs := aged_location_beliefs s beliefs policy boundary;
  entity_confidence := entity_confidence s; entity_attributes := entity_attributes s;
  entity_attribute_baselines := entity_attribute_baselines s;
  entity_attribute_metadata := _age_attribute_metadata s policy boundary;
  entity_attribute_schema_versions := entity_attribute_schema_versions s;
  entity_evidence_refs := entity_evidence_refs s; evidence_refs := evidence_refs s;
  freshness_evaluated := true; applied_event_ids := applied_event_ids s |}.
