(* ===== verification/Reducer.v ===== *)
(** * World-model reducer

    [services/world_model/workbench_world_model/reducer.py]: the world state as a
    fold over ordered, validated events.  [apply_event] works on a deep copy, so
    an exception leaves the caller's state as it was and the model returns the
    new state.  [Aging.WorldState] is the state record. *)

From Stdlib Require Import ZArith Ascii String SpecFloat.
From S2P Require Import Prelude PyVal Json DateTime Contracts ObservedAttributes EventPayloads Aging.
Local Open Scope Z_scope.

(** ** Evidence lists *)

(** [target.extend(r for r in refs if r not in target)]: the generator sees the
    list grow, so a reference is appended once. *)
Definition extend_new (target refs : list string) : list string :=
  foldl (λ acc r, if decide (r ∈ acc) then acc else acc ++ [r]) target refs.

(** [_append_entity_evidence] *)
Definition _append_entity_evidence (m : gmap string (list string)) (id : string) (refs : list string)
    : gmap string (list string) := <[id := extend_new (default [] (m !! id)) refs]> m.

(** [_update_location]: the evidence of the entity and of its location, and the locations *)
Definition _update_location (s : WorldState) (id location : string) (refs : list string)
    : gmap string (list string) * gmap string (list string) * gmap string string :=
  (if decide (entity_locations s !! id = Some location) then
     (_append_entity_evidence (entity_evidence_refs s) id refs,
      _append_entity_evidence (entity_location_evidence_refs s) id refs)
   else
     (<[id := extend_new [] refs]> (entity_evidence_refs s),
      <[id := extend_new [] refs]> (entity_location_evidence_refs s)),
   <[id := location]> (entity_locations s)).

(** ** Times *)

(** [_replace_observation_metadata] *)
Definition _replace_observation_metadata (m : gmap string string) (id : string) (p : dict) (k : string)
    : gmap string string :=
  match dict_get k p with
  | Some (VStr v) => if non_blank v then <[id := v]> m else m
  | Some (VEnum "ClockId" v) => if String.eqb k "clock_id" && non_blank v then <[id := v]> m else m
  | _ => m
  end.

(** [_observation_is_provably_older] *)
Definition _observation_is_provably_older (s : WorldState) (id : string) (p : dict) : bool :=
  if decide (entity_last_observed_at s !! id = None) then false
  else comparable_wall_observation_is_older (get_str (entity_last_observed_at s) id)
         (get_str (entity_observation_clock_ids s) id) (at_key "observed_at" p) (at_key "clock_id" p).

(** [_has_attribute_baseline] *)
Definition _has_attribute_baseline (s : WorldState) (id : string) : bool :=
  default (bool_decide (is_Some (entity_attributes s !! id))) (entity_attribute_baselines s !! id).

(** [metadata.get(k)] *)
Definition metadata_get (m : pyval) (k : string) : pyval := match m with VDict kvs => at_key k kvs | _ => VNone end.

(** [_attribute_metadata_is_provably_older] *)
Definition _attribute_metadata_is_provably_older (current incoming : pyval) : bool :=
  comparable_wall_observation_is_older (metadata_get current "observed_at") (metadata_get current "clock_id")
    (metadata_get incoming "observed_at") (metadata_get incoming "clock_id").

(** [_attribute_metadata_evidence] *)
Definition _attribute_metadata_evidence (m : gmap string pyval) : list string :=
  let refs := (λ e, match metadata_get e.2 "evidence_refs" with VList l => omap as_str l | _ => [] end)
                <$> merge_sort key_le (map_to_list m) in
  extend_new [] (mjoin refs).

(** ** Attributes *)

(** [_attribute_version] *)
Definition _attribute_version (p : dict) : outcome exn string :=
  match as_str (dict_get_or "attributes_schema_version" p (VStr LEGACY_ATTRIBUTE_MIGRATION_VERSION)) with
  | Some v =>
      ensure String.eqb v ATTRIBUTE_SCHEMA_VERSION || String.eqb v LEGACY_ATTRIBUTE_MIGRATION_VERSION else EPayload in Ok v
  | None => Raise EPayload
  end.

(** The items of a dict with text keys *)
Definition str_items (v : pyval) : list (string * pyval) :=
  match v with VDict kvs => omap (λ '(k, x), (λ s, (s, x)) <$> as_str k) kvs | _ => [] end.

Definition attributes_of (v : pyval) : gmap string string :=
  list_to_map (omap (λ '(k, x), (λ s, (k, s)) <$> as_str x) (str_items v)).

Definition metadata_of (v : pyval) : gmap string pyval := list_to_map (str_items v).

(** The state with the attributes of one entity replaced *)
Definition set_attributes (s : WorldState) (id : string) (attributes : gmap string string)
    (metadata applied : gmap string pyval) (version : string) : WorldState := {|
  run_id := run_id s; entity_types := entity_types s; entity_poses := entity_poses s;
  entity_last_observed_at := entity_last_observed_at s;
  entity_observation_clock_ids := entity_observation_clock_ids s;
  entity_observation_sources := entity_observation_sources s;
  entity_beliefs := entity_beliefs s; entity_locations := entity_locations s;
  entity_location_evidence_refs := entity_location_evidence_refs s;
  entity_location_last_observed_at := entity_location_last_observed_at s;
  entity_location_clock_ids := entity_location_clock_ids s;
  entity_location_sources := entity_location_sources s;
  entity_location_beliefs := entity_location_beliefs s;
  entity_confidence := entity_confidence s;
  entity_attributes := <[id := attributes]> (entity_attributes s);
  entity_attribute_baselines := <[id := true]> (entity_attribute_baselines s);
  entity_attribute_metadata := <[id := metadata]> (entity_attribute_metadata s);
  entity_attribute_schema_versions := <[id := version]> (entity_attribute_schema_versions s);
  entity_evidence_refs := _append_entity_evidence (entity_evidence_refs s) id (_attribute_metadata_evidence applied);
  evidence_refs := evidence_refs s; freshness_evaluated := freshness_evaluated s;
  applied_event_ids := applied_event_ids s |}.

(** The keys of a partial update that are not provably older than what is held *)
Definition accepts_key (held incoming : gmap string pyval) (k : string) : bool :=
  match held !! k with
  | Some current => negb (_attribute_metadata_is_provably_older current (default VNone (incoming !! k)))
  | None => true
  end.

(** The partial branch of [_apply_observed_attributes] *)
Definition merge_partial (s : WorldState) (id : string) (attributes : gmap string string)
    (metadata : gmap string pyval) (version : string) : WorldState :=
  let held := default ∅ (entity_attribute_metadata s !! id) in
  let accepted := filter (λ kv, accepts_key held metadata kv.1 = true) attributes in
  let applied := filter (λ kv, is_Some (accepted !! kv.1)) metadata in
  if decide (accepted = ∅) then s
  else set_attributes s id (accepted ∪ default ∅ (entity_attributes s !! id)) (applied ∪ held) applied
         (default version (entity_attribute_schema_versions s !! id)).

(** The entity type the attributes are checked against *)
Definition attribute_type (s : WorldState) (id : string) (p : dict) : option string :=
  match dict_get "entity_type" p with Some (VStr t) => Some t | _ => entity_types s !! id end.

(** The revalidation at the start of [_apply_observed_attributes] *)
Definition check_attributes (p : dict) (entity_type : option string) (allow : bool) : outcome exn () :=
  match validate_observed_attributes (at_key "attributes" p) entity_type allow with
  | None => Raise EPayload
  | Some l =>
      let* _ := outcome_except as_payload_error (validate_attribute_metadata_map
        (dict_get_or "attribute_metadata" p (VDict []))
        {| r_attribute_keys := Some l.*1; r_entity_type := entity_type; r_allow_unknown_keys := allow;
           r_require_observed := true; r_require_complete := true;
           r_expected_clock_id := as_str (at_key "clock_id" p) |}) in
      Ok ()
  end.

(** [_apply_observed_attributes] *)
Definition _apply_observed_attributes (s : WorldState) (id : string) (p : dict) (older : bool) : outcome exn WorldState :=
  if negb (has_key "attributes" p) then Ok s
  else
    let attributes := attributes_of (at_key "attributes" p) in
    let metadata := metadata_of (dict_get_or "attribute_metadata" p (VDict [])) in
    let mode := as_str (dict_get_or "attributes_mode" p (VStr "complete")) in
    let complete := bool_decide (mode = Some "complete") in
    let* version := _attribute_version p in
    let entity_type := attribute_type s id p in
    let allow := String.eqb version LEGACY_ATTRIBUTE_MIGRATION_VERSION && legacy_attribute_keys_allowed entity_type in
    let* _ := check_attributes p entity_type allow in
    let existing := entity_attribute_schema_versions s !! id in
    let conflict := match existing with Some v => negb (String.eqb v version) | None => false end in
    let upgrade := bool_decide (existing = Some LEGACY_ATTRIBUTE_MIGRATION_VERSION) &&
                   String.eqb version ATTRIBUTE_SCHEMA_VERSION in
    if conflict && older then Ok s
    else
      ensure negb conflict || (complete && upgrade) else EPayload in
      if complete && older then Ok s
      else if bool_decide (mode = Some "partial") then
        ensure _has_attribute_baseline s id else EPayload in
        Ok (merge_partial s id attributes metadata version)
      else
        ensure complete else EPayload in
        Ok (set_attributes s id attributes metadata metadata version).

(** ** [apply_event] *)

(** The copy with the event's identifier and evidence; a modern observation
    makes the freshness due again. *)
Definition record_event (s : WorldState) (e : WorldEvent) (modern : bool) : WorldState := {|
  run_id := run_id s; entity_types := entity_types s; entity_poses := entity_poses s;
  entity_last_observed_at := entity_last_observed_at s;
  entity_observation_clock_ids := entity_observation_clock_ids s;
  entity_observation_sources := entity_observation_sources s;
  entity_beliefs := entity_beliefs s; entity_locations := entity_locations s;
  entity_location_evidence_refs := entity_location_evidence_refs s;
  entity_location_last_observed_at := entity_location_last_observed_at s;
  entity_location_clock_ids := entity_location_clock_ids s;
  entity_location_sources := entity_location_sources s;
  entity_location_beliefs := entity_location_beliefs s;
  entity_confidence := entity_confidence s; entity_attributes := entity_attributes s;
  entity_attribute_baselines := entity_attribute_baselines s;
  entity_attribute_metadata := entity_attribute_metadata s;
  entity_attribute_schema_versions := entity_attribute_schema_versions s;
  entity_evidence_refs := entity_evidence_refs s; evidence_refs := evidence_refs s ++ event_evidence_refs e;
  freshness_evaluated := if modern then false else freshness_evaluated s;
  applied_event_ids := applied_event_ids s ++ [event_id e] |}.

(** [payload.get(k)] of a field that is text when it is present *)
Definition text_field (k : string) (p : dict) : option string :=
  match dict_get k p with Some (VStr s) => Some s | _ => None end.

(** [payload["confidence"]], a float after normalization *)
Definition confidence_of (p : dict) : spec_float :=
  match at_key "confidence" p with VFloat f => f | _ => float_zero end.

(** The block of [apply_event] for an observation that is not provably older *)
Definition observe_entity (s : WorldState) (id : string) (p : dict) (refs : list string) : WorldState :=
  let replace m k := _replace_observation_metadata m id p k in
  let location := text_field "location" p in
  let located {A} (x y : A) : A := match location with Some _ => x | None => y end in
  let '(evidence, location_evidence, locations) :=
    match location with
    | Some l => _update_location s id l refs
    | None => (entity_evidence_refs s, entity_location_evidence_refs s, entity_locations s)
    end in {|
  run_id := run_id s;
  entity_types := match text_field "entity_type" p with
                  | Some t => <[id := t]> (entity_types s)
                  | None => <[id := default "legacy" (entity_types s !! id)]> (entity_types s)
                  end;
  entity_poses := match dict_get "pose" p with Some v => <[id := v]> (entity_poses s) | None => entity_poses s end;
  entity_last_observed_at := replace (entity_last_observed_at s) "observed_at";
  entity_observation_clock_ids := replace (entity_observation_clock_ids s) "clock_id";
  entity_observation_sources := replace (entity_observation_sources s) "source";
  entity_beliefs := <[id := WorldBelief.OBSERVED]> (entity_beliefs s);
  entity_locations := locations;
  entity_location_evidence_refs := location_evidence;
  entity_location_last_observed_at :=
    located (replace (entity_location_last_observed_at s) "observed_at") (entity_location_last_observed_at s);
  entity_location_clock_ids := located (replace (entity_location_clock_ids s) "clock_id") (entity_location_clock_ids s);
  entity_location_sources := located (replace (entity_location_sources s) "source") (entity_location_sources s);
  entity_location_beliefs :=
    located (<[id := WorldBelief.OBSERVED]> (entity_location_beliefs s)) (entity_location_beliefs s);
  entity_confidence := <[id := confidence_of p]> (entity_confidence s);
  entity_attributes := entity_attributes s; entity_attribute_baselines := entity_attribute_baselines s;
  entity_attribute_metadata := entity_attribute_metadata s;
  entity_attribute_schema_versions := entity_attribute_schema_versions s;
  entity_evidence_refs := evidence; evidence_refs := evidence_refs s;
  freshness_evaluated := freshness_evaluated s; applied_event_ids := applied_event_ids s |}.

(** [_append_entity_evidence(next_state, entity_id, event.evidence_refs)] *)
Definition append_evidence (s : WorldState) (id : string) (refs : list string) : WorldState := {|
  run_id := run_id s; entity_types := entity_types s; entity_poses := entity_poses s;
  entity_last_observed_at := entity_last_observed_at s;
  entity_observation_clock_ids := entity_observation_clock_ids s;
  entity_observation_sources := entity_observation_sources s;
  entity_beliefs := entity_beliefs s; entity_locations := entity_locations s;
  entity_location_evidence_refs := entity_location_evidence_refs s;
  entity_location_last_observed_at := entity_location_last_observed_at s;
  entity_location_clock_ids := entity_location_clock_ids s;
  entity_location_sources := entity_location_sources s;
  entity_location_beliefs := entity_location_beliefs s;
  entity_confidence := entity_confidence s; entity_attributes := entity_attributes s;
  entity_attribute_baselines := entity_attribute_baselines s;
  entity_attribute_metadata := entity_attribute_metadata s;
  entity_attribute_schema_versions := entity_attribute_schema_versions s;
  entity_evidence_refs := _append_entity_evidence (entity_evidence_refs s) id refs;
  evidence_refs := evidence_refs s; freshness_evaluated := freshness_evaluated s;
  applied_event_ids := applied_event_ids s |}.

(** The entity type of the payload contradicts the one that is known *)
Definition type_conflict (s : WorldState) (id : string) (p : dict) : bool :=
  match text_field "entity_type" p, entity_types s !! id with
  | Some incoming, Some existing => negb (String.eqb existing "legacy") && negb (String.eqb existing incoming)
  | _, _ => false
  end.

Definition is_partial (p : dict) : bool := bool_decide (as_str (at_key "attributes_mode" p) = Some "partial").

(** The observation branch of [apply_event], on the normalized event *)
Definition apply_observation (s : WorldState) (e : WorldEvent) : outcome exn WorldState :=
  let p := payload e in
  let id := default EmptyString (text_field "entity_id" p) in
  ensure negb (type_conflict s id p) else EValue in
  ensure negb (is_partial p) || _has_attribute_baseline s id else EPayload in
  let older := _observation_is_provably_older s id p in
  let s1 := record_event s e (has_key "entity_type" p) in
  let s2 := if older then s1 else observe_entity s1 id p (event_evidence_refs e) in
  let* s3 := _apply_observed_attributes s2 id p older in
  Ok (if negb older && bool_decide (text_field "location" p = None)
      then append_evidence s3 id (event_evidence_refs e) else s3).

(** [apply_event] *)
Definition apply_event (s : WorldState) (event : WorldEvent) : outcome exn WorldState :=
  let* e := normalize_world_event event None in
  if decide (event_id e ∈ applied_event_ids s) then Ok s
  else match event_type e with
       | WorldEventType.OBSERVATION => apply_observation s e
       | _ => Ok (record_event s e false)
       end.

(** ** Event streams *)

(** [event.model_dump(mode="json")] *)
Definition event_dump (e : WorldEvent) : pyval :=
  items_dict ([("event_id", VStr (event_id e)); ("run_id", VStr (event_run_id e)); ("sequence_no", VInt (sequence_no e));
    ("event_type", VEnum "WorldEventType" (value (event_type e))); ("occurred_at", VStr (occurred_at e));
    ("payload", VDict (payload e))] ++
    match recorded_at e with Some t => [("recorded_at", VStr t)] | None => [] end ++
    match event_clock_id e with Some c => [("clock_id", VEnum "ClockId" (value c))] | None => [] end ++
    [("evidence_refs", VList (VStr <$> event_evidence_refs e))]).

(** [_canonical_event_content] *)
Definition _canonical_event_content (e : WorldEvent) : outcome exn (list token) :=
  match json_dump (event_dump e) ≫= json_tokens with Some ts => Ok ts | None => Raise EValue end.

(** The local variables of the first loop of [_validated_event_stream] *)
Record stream := {
  content_by_event_id : gmap string (list token);
  event_id_by_sequence : gmap Z string;
  entity_type_by_entity_id : gmap string string;
  unique_events : list WorldEvent
}.

Definition empty_stream : stream :=
  {| content_by_event_id := ∅; event_id_by_sequence := ∅; entity_type_by_entity_id := ∅; unique_events := [] |}.

(** The entity and the type that an observation declares *)
Definition declared_type (e : WorldEvent) : option (string * string) :=
  if decide (event_type e = WorldEventType.OBSERVATION) then
    match text_field "entity_type" (payload e) with
    | Some t => Some (default EmptyString (text_field "entity_id" (payload e)), t)
    | None => None
    end
  else None.

Definition types_agree (types : gmap string string) (declared : option (string * string)) : bool :=
  match declared with
  | Some (id, t) => match types !! id with Some t' => String.eqb t' t | None => true end
  | None => true
  end.

(** The body of the first loop *)
Definition add_event (run : string) (acc : stream) (candidate : WorldEvent) : outcome exn stream :=
  ensure String.eqb (event_run_id candidate) run else EValue in
  let* e := normalize_world_event candidate None in
  let* content := _canonical_event_content e in
  match content_by_event_id acc !! event_id e with
  | Some previous => ensure bool_decide (previous = content) else EValue in Ok acc
  | None =>
      ensure bool_decide (event_id_by_sequence acc !! sequence_no e = None) else EValue in
      ensure types_agree (entity_type_by_entity_id acc) (declared_type e) else EValue in
      Ok {| content_by_event_id := <[event_id e := content]> (content_by_event_id acc);
            event_id_by_sequence := <[sequence_no e := event_id e]> (event_id_by_sequence acc);
            entity_type_by_entity_id :=
              match declared_type e with
              | Some (id, t) => <[id := t]> (entity_type_by_entity_id acc)
              | None => entity_type_by_entity_id acc
              end;
            unique_events := unique_events acc ++ [e] |}
  end.

Fixpoint add_events (run : string) (acc : stream) (l : list WorldEvent) : outcome exn stream :=
  match l with
  | [] => Ok acc
  | e :: l' => let* acc' := add_event run acc e in add_events run acc' l'
  end.

Definition seq_le (a b : WorldEvent) : Prop := sequence_no a <= sequence_no b.
#[global] Instance seq_le_dec : RelDecision seq_le.
Proof. intros a b. unfold seq_le. apply _. Defined.

(** The second loop: a partial update needs an earlier complete one *)
Fixpoint baselines_ok (complete : gset string) (l : list WorldEvent) : bool :=
  match l with
  | [] => true
  | e :: l' =>
      if decide (event_type e = WorldEventType.OBSERVATION ∧ has_key "attributes" (payload e) = true) then
        let id := default EmptyString (text_field "entity_id" (payload e)) in
        let mode := as_str (dict_get_or "attributes_mode" (payload e) (VStr "complete")) in
        (negb (bool_decide (mode = Some "partial")) || bool_decide (id ∈ complete)) &&
        baselines_ok (if decide (mode = Some "complete") then {[id]} ∪ complete else complete) l'
      else baselines_ok complete l'
  end.

(** [_validated_event_stream] *)
Definition _validated_event_stream (run : string) (events : list WorldEvent) : outcome exn (list WorldEvent) :=
  ensure negb (String.eqb run "") else EValue in
  let* acc := add_events run empty_stream events in
  let ordered := merge_sort seq_le (unique_events acc) in
  ensure baselines_ok ∅ ordered else EPayload in
  Ok ordered.

Definition new_state (run : string) : WorldState := {|
  run_id := run; entity_types := ∅; entity_poses := ∅; entity_last_observed_at := ∅;
  entity_observation_clock_ids := ∅; entity_observation_sources := ∅; entity_beliefs := ∅; entity_locations := ∅;
  entity_location_evidence_refs := ∅; entity_location_last_observed_at := ∅; entity_location_clock_ids := ∅;
  entity_location_sources := ∅; entity_location_beliefs := ∅; entity_confidence := ∅; entity_attributes := ∅;
  entity_attribute_baselines := ∅; entity_attribute_metadata := ∅; entity_attribute_schema_versions := ∅;
  entity_evidence_refs := ∅; evidence_refs := []; freshness_evaluated := true; applied_event_ids := [] |}.

Fixpoint apply_events (s : WorldState) (l : list WorldEvent) : outcome exn WorldState :=
  match l with
  | [] => Ok s
  | e :: l' => let* s' := apply_event s e in apply_events s' l'
  end.

(** [_apply_aging_boundary] *)
Definition _apply_aging_boundary (s : WorldState) (policy : option ObservationFreshnessPolicy)
    (boundary : option ObservationAgingBoundary) : outcome exn WorldState :=
  match policy, boundary with
  | None, None => Ok s
  | Some policy, Some boundary => Ok (age_world_state s policy boundary)
  | _, _ => Raise EValue
  end.

(** [reduce_events] *)
Definition reduce_events (run : string) (events : list WorldEvent) (policy : option ObservationFreshnessPolicy)
    (boundary : option ObservationAgingBoundary) : outcome exn WorldState :=
  let* ordered := _validated_event_stream run events in
  let* s := apply_events (new_state run) ordered in
  _apply_aging_boundary s policy boundary.
