(* ===== verification/ReducerInvariant.v ===== *)
(** * World-model reducer: the stream and the state invariant

    Lemmas about the reducer's parts and about the order of a checked stream.
    Every state the reducer reaches is consistent: what it says of an entity is
    said in all its maps, every attribute is in the bounded vocabulary and has
    validated evidence metadata, and no event was applied twice. *)

From Stdlib Require Import ZArith Ascii String SpecFloat.
From S2P Require Import Prelude PyVal DateTime Json Contracts ObservedAttributes EventPayloads Aging Reducer.
Local Open Scope Z_scope.

(** ** Normalization *)

(** What [normalize_world_event] leaves alone *)
Lemma normalize_keeps e x n :
  normalize_world_event e x = Ok n →
  event_id n = event_id e ∧ event_run_id n = event_run_id e ∧ sequence_no n = sequence_no e ∧
  event_type n = event_type e ∧ event_evidence_refs n = event_evidence_refs e ∧ occurred_at n = occurred_at e.
Proof. unfold normalize_world_event. destruct (event_type e) eqn:Ht; intros H; run_outcome H; injection H as <-; by rewrite ?Ht. Qed.

(** ** Frame: which entities an event can change *)

(** What the state says of one entity *)
Record entity_view := {
  v_type : option string; v_pose : option pyval; v_observed_at : option string; v_clock : option string;
  v_source : option string; v_belief : option WorldBelief.t; v_location : option string;
  v_location_evidence : option (list string); v_location_observed_at : option string;
  v_location_clock : option string; v_location_source : option string; v_location_belief : option WorldBelief.t;
  v_confidence : option spec_float; v_attributes : option (gmap string string); v_baseline : option bool;
  v_metadata : option (gmap string pyval); v_version : option string; v_evidence : option (list string)
}.

Definition view (s : WorldState) (x : string) : entity_view := {|
  v_type := entity_types s !! x; v_pose := entity_poses s !! x; v_observed_at := entity_last_observed_at s !! x;
  v_clock := entity_observation_clock_ids s !! x; v_source := entity_observation_sources s !! x;
  v_belief := entity_beliefs s !! x; v_location := entity_locations s !! x;
  v_location_evidence := entity_location_evidence_refs s !! x;
  v_location_observed_at := entity_location_last_observed_at s !! x;
  v_location_clock := entity_location_clock_ids s !! x; v_location_source := entity_location_sources s !! x;
  v_location_belief := entity_location_beliefs s !! x; v_confidence := entity_confidence s !! x;
  v_attributes := entity_attributes s !! x; v_baseline := entity_attribute_baselines s !! x;
  v_metadata := entity_attribute_metadata s !! x; v_version := entity_attribute_schema_versions s !! x;
  v_evidence := entity_evidence_refs s !! x |}.

Lemma view_record s e b x : view (record_event s e b) x = view s x.
Proof. done. Qed.

Lemma replace_ne m id p k x : x ≠ id → _replace_observation_metadata m id p k !! x = m !! x.
Proof.
  intros Hx. unfold _replace_observation_metadata.
  repeat case_match; try done; by rewrite lookup_insert_ne.
Qed.

Lemma view_append s id refs x : x ≠ id → view (append_evidence s id refs) x = view s x.
Proof. intros Hx. unfold view, append_evidence, _append_entity_evidence. simpl. by rewrite lookup_insert_ne. Qed.

Lemma view_set_attributes s id a m ap v x : x ≠ id → view (set_attributes s id a m ap v) x = view s x.
Proof.
  intros Hx. unfold view, set_attributes, _append_entity_evidence. simpl. by rewrite !lookup_insert_ne.
Qed.

Lemma view_observe s id p refs x : x ≠ id → view (observe_entity s id p refs) x = view s x.
Proof.
  intros Hx. unfold observe_entity, _update_location, _append_entity_evidence.
  destruct (text_field "location" p); [case_decide|]; unfold view; cbn -[lookup insert];
    rewrite ?replace_ne by done; destruct (text_field "entity_type" p), (dict_get "pose" p); by rewrite ?lookup_insert_ne.
Qed.

(** The cases of [_apply_observed_attributes]: nothing, a complete replacement,
    or a partial merge *)
Lemma apply_attributes_cases s id p older s' :
  _apply_observed_attributes s id p older = Ok s' →
  s' = s ∨
  ∃ v, has_key "attributes" p = true ∧
    check_attributes p (attribute_type s id p)
      (String.eqb v LEGACY_ATTRIBUTE_MIGRATION_VERSION && legacy_attribute_keys_allowed (attribute_type s id p)) = Ok () ∧
    let a := attributes_of (at_key "attributes" p) in
    let m := metadata_of (dict_get_or "attribute_metadata" p (VDict [])) in
    (older = false ∧ is_partial p = false ∧ s' = set_attributes s id a m m v) ∨
    (_has_attribute_baseline s id = true ∧ is_partial p = true ∧ s' = merge_partial s id a m v).
Proof.
  unfold _apply_observed_attributes. destruct (has_key "attributes" p); simpl; [|intros [= <-]; by left].
  intros H. run_outcome H. destruct v0. destruct (_ && older) eqn:?; [injection H as <-; by left|]. run_outcome H.
  destruct (bool_decide _ && older) eqn:Hco; [injection H as <-; by left|].
  right. exists v. split; [done|]. split; [done|].
  assert (Hmode : is_partial p =
    bool_decide (as_str (dict_get_or "attributes_mode" p (VStr "complete")) = Some "partial")).
  { unfold is_partial, at_key, dict_get_or. by destruct (dict_get "attributes_mode" p). }
  rewrite Hmode. destruct (bool_decide (as_str _ = Some "partial")) eqn:Hp.
  - run_outcome H. injection H as <-. right. done.
  - run_outcome H. injection H as <-. left. split; [|done]. apply andb_false_iff in Hco as [?|?]; congruence.
Qed.

Lemma merge_partial_cases s id a m v :
  merge_partial s id a m v = s ∨
  ∃ a' m' ap v', merge_partial s id a m v = set_attributes s id a' m' ap v'.
Proof. unfold merge_partial. case_decide; [by left|]. right. eauto. Qed.

Lemma view_attributes s id p older s' x :
  x ≠ id → _apply_observed_attributes s id p older = Ok s' → view s' x = view s x.
Proof.
  intros Hx [->|(v & _ & _ & [(_ & _ & ->)|(_ & _ & ->)])]%apply_attributes_cases; [done|by apply view_set_attributes|].
  destruct (merge_partial_cases s id (attributes_of (at_key "attributes" p))
    (metadata_of (dict_get_or "attribute_metadata" p (VDict []))) v) as [->|(?&?&?&?&->)];
    [done|by apply view_set_attributes].
Qed.

(** ** The normalized observation *)

(** The fields that normalization may write *)
Definition written_fields : list string :=
  ["confidence"; "attributes_schema_version"; "attributes_mode"; "attributes"; "clock_id"; "observed_at";
   "attribute_metadata"].

(** Membership in a list of literals *)
Ltac decide_list := apply (bool_decide_unpack _); vm_compute; exact I.

Lemma update_dict_ne k d items : k ∉ items.*1 → dict_get k (update_dict d items) = dict_get k d.
Proof.
  unfold update_dict. revert d. induction items as [|[k' v] items IH]; intros d Hk; [done|]. simpl.
  rewrite IH by set_solver. apply dict_get_set_ne. set_solver.
Qed.

Lemma normalized_field e p k :
  _normalize_observation_payload e = Ok p → k ∉ written_fields → dict_get k p = dict_get k (payload e).
Proof.
  unfold _normalize_observation_payload, written_fields. intros H Hk. run_outcome H.
  rewrite <-(dict_get_set_ne k "confidence" (VFloat (h_confidence v)) (payload e)) by (intros ->; apply Hk; left).
  destruct (has_key _ _).
  - unfold normalize_attributes in H. run_outcome H. apply Ok_inj in H as <-. apply update_dict_ne. intros Hin. apply Hk. right. exact Hin.
  - run_outcome H. by injection H as <-.
Qed.

Lemma strict_text_Ok v s : _strict_non_blank_string v = Ok s ↔ v = VStr s ∧ non_blank s = true.
Proof.
  unfold _strict_non_blank_string. destruct v as [| | | |t| | | | | | |]; try (split; [done|by intros [[=] _]]).
  destruct (non_blank t) eqn:Ht; split; [intros [= <-]; done|by intros [[= ->] _]|done|]. intros [[= ->] ?]. congruence.
Qed.

(** An observation is about one named entity *)
Lemma observation_entity e p :
  _normalize_observation_payload e = Ok p →
  ∃ id, dict_get "entity_id" (payload e) = Some (VStr id) ∧ non_blank id = true ∧ text_field "entity_id" p = Some id.
Proof.
  intros H. assert (Hk : dict_get "entity_id" p = dict_get "entity_id" (payload e)) by (apply normalized_field; [done|decide_list]).
  unfold _normalize_observation_payload in H. apply outcome_bind_Ok in H as (h & Hh & _).
  unfold observation_fields in Hh. apply outcome_bind_Ok in Hh as (id & Hid & _).
  destruct (dict_get "entity_id" (payload e)) as [v|]; [|done]. apply strict_text_Ok in Hid as [-> Hb].
  exists id. unfold text_field. by rewrite Hk.
Qed.

(** The entity an event is about *)
Definition observed_entity (e : WorldEvent) : option string :=
  if decide (event_type e = WorldEventType.OBSERVATION) then text_field "entity_id" (payload e) else None.

Lemma apply_event_cases s e s' :
  apply_event s e = Ok s' →
  (event_id e ∈ applied_event_ids s ∧ s' = s) ∨
  (event_id e ∉ applied_event_ids s ∧ ∃ n, normalize_world_event e None = Ok n ∧
    ((event_type e ≠ WorldEventType.OBSERVATION ∧ s' = record_event s n false) ∨
     (event_type e = WorldEventType.OBSERVATION ∧ apply_observation s n = Ok s'))).
Proof.
  unfold apply_event. intros H. apply outcome_bind_Ok in H as (n & Hn & H).
  destruct (normalize_keeps _ _ _ Hn) as (Hid & _ & _ & Ht & _). rewrite Hid in H.
  case_decide as Hin; [injection H as <-; by left|]. right. split; [done|]. exists n. split; [done|].
  rewrite Ht in H. destruct (event_type e); (right; done) || (left; split; [done|congruence]).
Qed.

Lemma apply_observation_frame s n s' x :
  apply_observation s n = Ok s' → text_field "entity_id" (payload n) ≠ Some x →
  is_Some (text_field "entity_id" (payload n)) → view s' x = view s x.
Proof.
  unfold apply_observation. intros H Hx [id Hid]. rewrite Hid in *. simpl in H.
  assert (x ≠ id) by congruence. run_outcome H. injection H as <-.
  transitivity (view v x); [destruct (_ && _); [by apply view_append|done]|].
  rewrite (view_attributes _ _ _ _ _ x ltac:(done) Hv).
  destruct (_observation_is_provably_older _ _ _); [|rewrite view_observe by done]; apply view_record.
Qed.

Local Open Scope Z_scope.

(** The normalized form of an event of the run, with its canonical content *)
Definition admits (run : string) (e n : WorldEvent) : Prop :=
  event_run_id e = run ∧ normalize_world_event e None = Ok n ∧ ∃ c, _canonical_event_content n = Ok c.

(** Two events of one stream: different events have different sequence numbers,
    and an entity has one declared type. *)
Definition compatible (n n' : WorldEvent) : Prop :=
  (event_id n ≠ event_id n' → sequence_no n ≠ sequence_no n') ∧
  ∀ x t t', declared_type n = Some (x, t) → declared_type n' = Some (x, t') → t = t'.

(** No two different events share an identifier *)
Definition identified (l : list WorldEvent) : Prop :=
  ∀ e e', e ∈ l → e' ∈ l → event_id e = event_id e' → e = e'.

(** What the accumulator holds after the events of [seen] *)
Record summary (run : string) (seen : list WorldEvent) (acc : stream) : Prop := {
  sum_events n : n ∈ unique_events acc ↔ ∃ e, e ∈ seen ∧ admits run e n;
  sum_all e : e ∈ seen → ∃ n, admits run e n;
  sum_compatible n n' : n ∈ unique_events acc → n' ∈ unique_events acc → compatible n n';
  sum_nodup : NoDup (event_id <$> unique_events acc);
  sum_content i c :
    content_by_event_id acc !! i = Some c ↔ ∃ n, n ∈ unique_events acc ∧ event_id n = i ∧ _canonical_event_content n = Ok c;
  sum_sequence k i :
    event_id_by_sequence acc !! k = Some i ↔ ∃ n, n ∈ unique_events acc ∧ sequence_no n = k ∧ event_id n = i;
  sum_types x t :
    entity_type_by_entity_id acc !! x = Some t ↔ ∃ n, n ∈ unique_events acc ∧ declared_type n = Some (x, t)
}.

Lemma summary_empty run : summary run [] empty_stream.
Proof.
  split; simpl.
  - intros n. split; [by intros []%elem_of_nil|by intros (e & []%elem_of_nil & _)].
  - by intros e []%elem_of_nil.
  - by intros n n' []%elem_of_nil.
  - constructor.
  - intros i c. rewrite lookup_empty. split; [done|by intros (n & []%elem_of_nil & _)].
  - intros k i. rewrite lookup_empty. split; [done|by intros (n & []%elem_of_nil & _)].
  - intros x t. rewrite lookup_empty. split; [done|by intros (n & []%elem_of_nil & _)].
Qed.

Lemma admits_fun run e n n' : admits run e n → admits run e n' → n = n'.
Proof. intros (_ & H & _) (_ & H' & _). congruence. Qed.

Lemma admits_id run e n : admits run e n → event_id n = event_id e.
Proof. intros (_ & H & _). by destruct (normalize_keeps _ _ _ H). Qed.

(** An event that was already seen changes nothing *)
Lemma summary_again run seen e acc :
  summary run seen acc → e ∈ seen → add_event run acc e = Ok acc.
Proof.
  intros Hs He. destruct (sum_all _ _ _ Hs e He) as [n Hn]. pose proof Hn as (Hrun & Hnorm & c & Hc).
  unfold add_event. rewrite Hrun, String.eqb_refl, Hnorm. simpl. rewrite Hc. simpl.
  assert (content_by_event_id acc !! event_id n = Some c) as ->.
  { apply (sum_content _ _ _ Hs). exists n. split; [|done]. apply (sum_events _ _ _ Hs). eauto. }
  by rewrite bool_decide_eq_true_2.
Qed.

Lemma compatible_sym n n' : compatible n n' → compatible n' n.
Proof. intros [H1 H2]. split; [intros Hne Heq; by eapply H1|intros x t t' Ht Ht'; symmetry; eauto]. Qed.

Lemma types_agree_spec run seen acc n :
  summary run seen acc →
  types_agree (entity_type_by_entity_id acc) (declared_type n) = true ↔
  ∀ n' x t t', n' ∈ unique_events acc → declared_type n = Some (x, t) → declared_type n' = Some (x, t') → t = t'.
Proof.
  intros Hs. unfold types_agree. destruct (declared_type n) as [[x t]|]; [|split; [intros _ ????? [=]|done]].
  destruct (entity_type_by_entity_id acc !! x) as [t0|] eqn:Hx.
  - rewrite String.eqb_eq. apply (sum_types _ _ _ Hs) in Hx as (n0 & Hn0 & Hd). split.
    + intros -> n' x' t1 t2 Hn' [= <- <-] Hd'.
      assert (entity_type_by_entity_id acc !! x = Some t) by (apply (sum_types _ _ _ Hs); eauto).
      assert (entity_type_by_entity_id acc !! x = Some t2) by (apply (sum_types _ _ _ Hs); eauto). congruence.
    + intros H. by rewrite (H n0 x t t0 Hn0 eq_refl Hd).
  - split; [|done]. intros _ n' x' t1 t2 Hn' [= <- <-] Hd'. exfalso.
    assert (entity_type_by_entity_id acc !! x = Some t2) by (apply (sum_types _ _ _ Hs); eauto). congruence.
Qed.

(** A summary depends on the set of seen events only *)
Lemma summary_seen run seen e acc : summary run seen acc → e ∈ seen → summary run (seen ++ [e]) acc.
Proof.
  intros Hs He. assert (Hset : ∀ e', e' ∈ seen ++ [e] ↔ e' ∈ seen).
  { intros e'. rewrite elem_of_app, list_elem_of_singleton. split; [intros [?| ->]; done|auto]. }
  destruct Hs. split; try done; setoid_rewrite Hset; done.
Qed.

(** The accumulator with one more event *)
Definition extend_stream (acc : stream) (n : WorldEvent) (c : list token) : stream :=
  {| content_by_event_id := <[event_id n := c]> (content_by_event_id acc);
     event_id_by_sequence := <[sequence_no n := event_id n]> (event_id_by_sequence acc);
     entity_type_by_entity_id :=
       match declared_type n with
       | Some (id, t) => <[id := t]> (entity_type_by_entity_id acc)
       | None => entity_type_by_entity_id acc
       end;
     unique_events := unique_events acc ++ [n] |}.

Lemma compatible_refl n : compatible n n.
Proof. split; [done|congruence]. Qed.

Lemma summary_extend run seen e acc n c :
  summary run seen acc → admits run e n → _canonical_event_content n = Ok c →
  (∀ n', n' ∈ unique_events acc → event_id n' ≠ event_id n) →
  (∀ n', n' ∈ unique_events acc → compatible n n') →
  summary run (seen ++ [e]) (extend_stream acc n c).
Proof.
  intros Hs Ha Hc Hfresh Hcomp. split; simpl.
  - intros n'. rewrite elem_of_snoc, (sum_events _ _ _ Hs). setoid_rewrite elem_of_snoc. split.
    + intros [(e' & He' & Ha')| ->]; eauto.
    + intros (e' & [He'| ->] & Ha'); [eauto|]. right. by eapply admits_fun.
  - intros e' [He'| ->]%elem_of_snoc; [by eapply sum_all|eauto].
  - intros n1 n2 [H1| ->]%elem_of_snoc [H2| ->]%elem_of_snoc;
      [by eapply sum_compatible|by apply compatible_sym, Hcomp|by apply Hcomp|apply compatible_refl].
  - rewrite fmap_app. apply NoDup_app. split_and!; [by eapply sum_nodup| |apply NoDup_singleton].
    intros i (n' & -> & Hn')%list_elem_of_fmap. simpl. rewrite list_elem_of_singleton. by apply Hfresh.
  - intros i c'. setoid_rewrite elem_of_snoc. destruct (decide (i = event_id n)) as [->|Hi].
    + rewrite lookup_insert. case_decide; [|done]. split; [intros [= <-]; eauto|].
      intros (n' & [Hn'| ->] & Heq & Hc'); [by destruct (Hfresh n' Hn')|congruence].
    + rewrite lookup_insert_ne by done. rewrite (sum_content _ _ _ Hs). split; [intros (n' & ? & ? & ?); eauto|].
      intros (n' & [Hn'| ->] & Heq & Hc'); [eauto|congruence].
  - intros k i. setoid_rewrite elem_of_snoc. destruct (decide (k = sequence_no n)) as [->|Hk].
    + rewrite lookup_insert. case_decide; [|done]. split; [intros [= <-]; eauto|].
      intros (n' & [Hn'| ->] & Heq & Hi); [|congruence]. exfalso.
      destruct (Hcomp n' Hn') as [Hq _]. by apply Hq; [apply not_eq_sym, Hfresh|].
    + rewrite lookup_insert_ne by done. rewrite (sum_sequence _ _ _ Hs). split; [intros (n' & ? & ? & ?); eauto|].
      intros (n' & [Hn'| ->] & Heq & Hi); [eauto|congruence].
  - intros x t. setoid_rewrite elem_of_snoc. destruct (declared_type n) as [[y u]|] eqn:Hd.
    + destruct (decide (x = y)) as [->|Hx].
      * rewrite lookup_insert. case_decide; [|done]. split; [intros [= <-]; eauto|].
        intros (n' & [Hn'| ->] & Hd'); [|congruence]. f_equal. by eapply (Hcomp n' Hn').
      * rewrite lookup_insert_ne by done. rewrite (sum_types _ _ _ Hs). split; [intros (n' & ? & ?); eauto|].
        intros (n' & [Hn'| ->] & Hd'); [eauto|congruence].
    + rewrite (sum_types _ _ _ Hs). split; [intros (n' & ? & ?); eauto|].
      intros (n' & [Hn'| ->] & Hd'); [eauto|congruence].
Qed.

(** The guards of [add_event] for an event with a new identifier *)
Lemma guards_are_compatibility run seen acc n :
  summary run seen acc → (∀ n', n' ∈ unique_events acc → event_id n' ≠ event_id n) →
  (∀ n', n' ∈ unique_events acc → compatible n n') ↔
  bool_decide (event_id_by_sequence acc !! sequence_no n = None) = true ∧
  types_agree (entity_type_by_entity_id acc) (declared_type n) = true.
Proof.
  intros Hs Hfresh. rewrite bool_decide_eq_true, (types_agree_spec _ _ _ _ Hs), eq_None_not_Some. unfold compatible. split.
  - intros H. split; [intros [i (n' & Hn' & Heq & _)%(sum_sequence _ _ _ Hs)]|intros n' x t t' Hn'; by apply H].
    destruct (H n' Hn') as [H1 _]. apply H1; [by apply not_eq_sym, Hfresh|done].
  - intros [H1 H2] n' Hn'. split; [intros _ Heq|eauto]. apply H1. exists (event_id n'). apply (sum_sequence _ _ _ Hs). eauto.
Qed.

(** A new event is added exactly when it is admissible and compatible with the rest *)
Lemma add_new run seen e acc r :
  summary run seen acc → (∀ e', e' ∈ seen → event_id e' ≠ event_id e) →
  add_event run acc e = Ok r ↔
  ∃ n c, admits run e n ∧ _canonical_event_content n = Ok c ∧
    (∀ n', n' ∈ unique_events acc → compatible n n') ∧ r = extend_stream acc n c.
Proof.
  intros Hs He. unfold add_event.
  destruct (String.eqb_spec (event_run_id e) run) as [Hrun|Hrun]; [|split; [done|by intros (n & c & [? _] & _)]].
  destruct (normalize_world_event e None) as [n|] eqn:Hn;
    [|split; [done|intros (n & c & (_ & ? & _) & _); congruence]]. simpl.
  destruct (_canonical_event_content n) as [c|] eqn:Hc;
    [|split; [done|intros (n' & c & (_ & ? & _) & ? & _); congruence]]. simpl.
  destruct (normalize_keeps _ _ _ Hn) as (Hni & _).
  assert (Hfresh : ∀ n', n' ∈ unique_events acc → event_id n' ≠ event_id n).
  { intros n' (e' & He' & Ha')%(sum_events _ _ _ Hs). rewrite Hni, (admits_id _ _ _ Ha'). by apply He. }
  assert (content_by_event_id acc !! event_id n = None) as ->.
  { apply eq_None_not_Some. intros [c' (n' & Hn' & Heq & _)%(sum_content _ _ _ Hs)]. by eapply Hfresh. }
  pose proof (guards_are_compatibility _ _ _ n Hs Hfresh) as Hg. split.
  - intros H. run_outcome H. apply Ok_inj in H as <-. exists n, c. split; [by split_and!; eauto|]. split; [done|]. split; [by apply Hg|done].
  - intros (n' & c' & (_ & Hn' & _) & Hc' & Hall & ->).
    rewrite Hn in Hn'. injection Hn' as <-. rewrite Hc in Hc'. injection Hc' as <-. destruct (proj1 Hg Hall) as [-> ->]. done.
Qed.

(** What the first loop accepts, as a condition on the set of events alone *)
Definition acceptable (run : string) (l : list WorldEvent) : Prop :=
  (∀ e, e ∈ l → ∃ n, admits run e n) ∧
  (∀ e e' n n', e ∈ l → e' ∈ l → admits run e n → admits run e' n' → compatible n n').

Lemma add_events_spec run l seen acc :
  identified (seen ++ l) → summary run seen acc →
  (∀ r, add_events run acc l = Ok r → summary run (seen ++ l) r) ∧
  (acceptable run (seen ++ l) → ∃ r, add_events run acc l = Ok r).
Proof.
  revert seen acc. induction l as [|e l IH]; intros seen acc Hid Hs.
  { rewrite app_nil_r. split; [by intros r [= <-]|eauto]. }
  replace (seen ++ e :: l) with ((seen ++ [e]) ++ l) in * by by rewrite <-app_assoc.
  cbn [add_events].
  assert (Hstep : (∀ acc', add_event run acc e = Ok acc' → summary run (seen ++ [e]) acc') ∧
                  (acceptable run ((seen ++ [e]) ++ l) → ∃ acc', add_event run acc e = Ok acc')).
  { destruct (decide (event_id e ∈ event_id <$> seen)) as [Hin|Hin].
    - assert (Hmem : e ∈ seen).
      { apply list_elem_of_fmap in Hin as (e' & Heq & He'). rewrite (Hid e e'); [done| | |done];
          rewrite !elem_of_app, ?list_elem_of_singleton; auto. }
      rewrite (summary_again run seen e acc Hs Hmem). split; [|eauto]. intros ? [= <-]. by apply summary_seen.
    - assert (Hnew : ∀ e', e' ∈ seen → event_id e' ≠ event_id e).
      { intros e' He' Heq. apply Hin, list_elem_of_fmap. eauto. }
      split.
      + intros acc' (n & c & Ha & Hc & Hall & ->)%(add_new _ _ _ _ _ Hs Hnew). apply summary_extend; try done.
        intros n' (e' & He' & Ha')%(sum_events _ _ _ Hs).
        rewrite (admits_id _ _ _ Ha'), (admits_id _ _ _ Ha). by apply Hnew.
      + intros [Hall Hcomp]. destruct (Hall e) as [n Hn]; [rewrite !elem_of_app, list_elem_of_singleton; auto|].
        pose proof Hn as (_ & _ & c & Hc). exists (extend_stream acc n c).
        apply (add_new _ _ _ _ _ Hs Hnew). exists n, c. split; [done|]. split; [done|]. split; [|done].
        intros n' (e' & He' & Ha')%(sum_events _ _ _ Hs).
        eapply (Hcomp e e'); [| |done..]; rewrite !elem_of_app, ?list_elem_of_singleton; auto. }
  destruct Hstep as [Hsum Hex]. split.
  - intros r (acc' & Hacc & Hr)%outcome_bind_Ok. by apply (IH _ _ Hid (Hsum _ Hacc)).
  - intros Hok. destruct (Hex Hok) as [acc' Hacc]. rewrite Hacc. by apply (IH _ _ Hid (Hsum _ Hacc)).
Qed.

Lemma add_events_acceptable run l r : identified l → add_events run empty_stream l = Ok r → acceptable run l.
Proof.
  intros Hid Hr. destruct (add_events_spec run l [] empty_stream Hid (summary_empty run)) as [H _].
  specialize (H r Hr). simpl in H. split; [by eapply sum_all|].
  intros e e' n n' He He' Hn Hn'. eapply sum_compatible; [done| |]; eapply sum_events; eauto.
Qed.

(** ** Conflicting copies *)

(** The canonical content of an event after normalization *)
Definition content_of (e : WorldEvent) : outcome exn (list token) :=
  let* n := normalize_world_event e None in _canonical_event_content n.

Lemma add_event_content run acc e r :
  add_event run acc e = Ok r →
  (∀ i c, content_by_event_id acc !! i = Some c → content_by_event_id r !! i = Some c) ∧
  ∃ c, content_of e = Ok c ∧ content_by_event_id r !! event_id e = Some c.
Proof.
  unfold add_event, content_of. intros H. run_outcome H. rewrite Hv. simpl. destruct (normalize_keeps _ _ _ Hv) as (<- & _).
  destruct (content_by_event_id acc !! event_id v) as [c|] eqn:Hc; run_outcome H; apply Ok_inj in H as <-; simpl.
  - split; [done|]. exists v0. split; [done|]. rewrite Hc. f_equal. by eapply bool_decide_eq_true.
  - split; [|exists v0; split; [done|by rewrite lookup_insert_eq]]. intros i c' Hi. rewrite lookup_insert_ne; [done|]. by intros <-; congruence.
Qed.

(** An accepted stream holds one content for each identifier *)
Lemma add_events_content run l : ∀ acc r,
  add_events run acc l = Ok r →
  (∀ i c, content_by_event_id acc !! i = Some c → content_by_event_id r !! i = Some c) ∧
  ∀ e, e ∈ l → ∃ c, content_of e = Ok c ∧ content_by_event_id r !! event_id e = Some c.
Proof.
  induction l as [|e l IH]; intros acc r H; simpl in H; [apply Ok_inj in H as <-; split; [done|by intros e []%elem_of_nil]|].
  apply outcome_bind_Ok in H as (acc' & H1 & H2). apply add_event_content in H1 as (Hm & c & Hc & Hin).
  destruct (IH _ _ H2) as [Hm' Hl]. split; [eauto|]. intros e' [->|He']%elem_of_cons; eauto.
Qed.

Lemma conflicting_copies_refused run l e e' :
  e ∈ l → e' ∈ l → event_id e = event_id e' → content_of e ≠ content_of e' → ∀ o, _validated_event_stream run l ≠ Ok o.
Proof.
  intros He He' Hid Hne o H. unfold _validated_event_stream in H. run_outcome H.
  destruct (add_events_content _ _ _ _ Hv) as [_ Hl]. destruct (Hl e He) as (c & Hc & Hin), (Hl e' He') as (c' & Hc' & Hin').
  rewrite Hid in Hin. congruence.
Qed.

(** ** The ordered stream *)

#[local] Instance seq_le_total : Total seq_le.
Proof. intros a b. unfold seq_le. lia. Qed.
#[local] Instance seq_le_trans : Transitive seq_le.
Proof. intros a b c. unfold seq_le. lia. Qed.

(** Two accumulators with the same events have the same ordered events *)
Lemma ordered_unique run l l' r r' :
  (∀ e, e ∈ l ↔ e ∈ l') → summary run l r → summary run l' r' →
  merge_sort seq_le (unique_events r) = merge_sort seq_le (unique_events r').
Proof.
  intros Hset Hs Hs'.
  assert (Hev : ∀ n, n ∈ unique_events r ↔ n ∈ unique_events r').
  { intros n. rewrite (sum_events _ _ _ Hs), (sum_events _ _ _ Hs'). by setoid_rewrite Hset. }
  apply (Sorted_unique_strong seq_le); [|apply Sorted_merge_sort, _..|].
  - intros n n'. rewrite !merge_sort_Permutation. intros Hn Hn'%Hev. unfold seq_le. intros H1 H2.
    destruct (decide (event_id n = event_id n')) as [Heq|Hne].
    + apply (sum_events _ _ _ Hs) in Hn as Hn0. by apply (NoDup_fmap_inj event_id (unique_events r)); [eapply sum_nodup|..].
    + destruct (sum_compatible _ _ _ Hs n n' Hn Hn') as [Hq _]. exfalso. apply Hq; [done|lia].
  - rewrite !merge_sort_Permutation. apply NoDup_Permutation; [..|done]; eapply NoDup_fmap_1, sum_nodup; done.
Qed.

Lemma identified_set l l' : (∀ e, e ∈ l ↔ e ∈ l') → identified l → identified l'.
Proof. intros Hset H e e' He He'. by apply H; apply Hset. Qed.

Lemma acceptable_set run l l' : (∀ e, e ∈ l ↔ e ∈ l') → acceptable run l → acceptable run l'.
Proof.
  intros Hset [H1 H2]. split; [intros e He; by apply H1, Hset|].
  intros e e' n n' He He'. by apply H2; apply Hset.
Qed.

(** The validated stream depends only on the set of events *)
Lemma stream_of_set run l l' o :
  identified l → (∀ e, e ∈ l ↔ e ∈ l') →
  _validated_event_stream run l = Ok o → _validated_event_stream run l' = Ok o.
Proof.
  intros Hid Hset H. unfold _validated_event_stream in *.
  destruct (negb _); [|done]. apply outcome_bind_Ok in H as (r & Hr & H).
  assert (Hid' : identified l') by (by eapply identified_set).
  destruct (add_events_spec run l [] empty_stream Hid (summary_empty run)) as [Hsum _].
  destruct (add_events_spec run l' [] empty_stream Hid' (summary_empty run)) as [Hsum' Hex'].
  destruct Hex' as [r' Hr']; [eapply acceptable_set, add_events_acceptable; done|].
  rewrite Hr'. simpl. by rewrite <-(ordered_unique run l l' r r' Hset (Hsum r Hr) (Hsum' r' Hr')).
Qed.

(** The validated stream is strictly ordered and has no event twice *)
Lemma stream_ordered run l o :
  identified l → _validated_event_stream run l = Ok o →
  (∀ n, n ∈ o ↔ ∃ e, e ∈ l ∧ admits run e n) ∧ NoDup (event_id <$> o) ∧ StronglySorted (λ a b, sequence_no a < sequence_no b) o.
Proof.
  intros Hid H. unfold _validated_event_stream in H. run_outcome H. apply Ok_inj in H as <-.
  destruct (add_events_spec run l [] empty_stream Hid (summary_empty run)) as [Hsum _]. specialize (Hsum _ Hv). simpl in Hsum.
  split; [|split].
  - intros n. rewrite merge_sort_Permutation. apply (sum_events _ _ _ Hsum).
  - rewrite merge_sort_Permutation. apply (sum_nodup _ _ _ Hsum).
  - assert (Hc : ∀ n n', n ∈ merge_sort seq_le (unique_events v) → n' ∈ merge_sort seq_le (unique_events v) →
      event_id n ≠ event_id n' → sequence_no n ≠ sequence_no n').
    { intros n n'. rewrite !merge_sort_Permutation. intros. by apply (sum_compatible _ _ _ Hsum). }
    assert (Hn : NoDup (event_id <$> merge_sort seq_le (unique_events v))).
    { rewrite merge_sort_Permutation. apply (sum_nodup _ _ _ Hsum). }
    pose proof (StronglySorted_merge_sort seq_le (unique_events v)) as Hs. revert Hs Hc Hn.
    generalize (merge_sort seq_le (unique_events v)). clear. induction l as [|n l IH]; [constructor|].
    intros [Hs Hall]%StronglySorted_inv Hc [Hni Hn]%NoDup_cons. constructor.
    + apply IH; try done. intros a b Ha Hb. by apply Hc; right.
    + rewrite Forall_forall in Hall |- *. intros b Hb. specialize (Hall b Hb). unfold seq_le in Hall.
      assert (sequence_no n ≠ sequence_no b); [|lia]. apply Hc; [by left|by right|].
      intros Heq. apply Hni, list_elem_of_fmap. eauto.
Qed.

Local Open Scope Z_scope.

(** ** Validated attributes *)

Lemma mapM_Forall2 {A B} (f : A → option B) l k : mapM f l = Some k ↔ Forall2 (λ a b, f a = Some b) l k.
Proof. apply mapM_Some. Qed.

Lemma valid_key_inv v ap allow k : _validate_attribute_key v ap allow = Some k → v = VStr k.
Proof. unfold _validate_attribute_key. destruct v; try done. case_match; [|done]. by intros [= ->]. Qed.

Lemma valid_key_supported v ap k : _validate_attribute_key v ap false = Some k → k ∈ SUPPORTED_ATTRIBUTE_KEYS.
Proof.
  unfold _validate_attribute_key. destruct v; try done. case_match eqn:Hb; [|done]. intros [= ->].
  rewrite !andb_true_iff, !orb_false_r in Hb. apply str_in_spec. tauto.
Qed.

Lemma valid_value_inv k v s : valid_value k v = Some s → v = VStr s.
Proof. unfold valid_value. destruct v; try done. case_match; [|done]. by intros [= ->]. Qed.

Lemma valid_entry_inv ap allow e ks :
  valid_entry ap allow e = Some ks →
  e = (VStr ks.1, VStr ks.2) ∧ _validate_attribute_key (VStr ks.1) ap allow = Some ks.1 ∧
  valid_value ks.1 (VStr ks.2) = Some ks.2.
Proof.
  unfold valid_entry. destruct e as [k v]. simpl. intros H.
  apply bind_Some in H as (k' & Hk & H). apply fmap_Some in H as (s & Hs & ->). simpl.
  pose proof (valid_key_inv _ _ _ _ Hk) as ->. pose proof (valid_value_inv _ _ _ Hs) as ->. done.
Qed.

Lemma str_items_attributes l : str_items (attributes_dict l) = (λ '(k, v), (k, VStr v)) <$> l.
Proof.
  unfold str_items, attributes_dict. induction l as [|[k v] l IH]; [done|].
  rewrite !fmap_cons. cbn [omap list_omap as_str fmap option_fmap option_map]. f_equal. exact IH.
Qed.

Lemma attributes_of_dict l : attributes_of (attributes_dict l) = list_to_map l.
Proof.
  unfold attributes_of. rewrite str_items_attributes. f_equal.
  induction l as [|[k v] l IH]; [done|]. rewrite fmap_cons.
  cbn [omap list_omap as_str fmap option_fmap option_map]. f_equal. exact IH.
Qed.

(** The validator returns the attributes it was given *)
Lemma validate_observed_inv v t allow l :
  validate_observed_attributes v t allow = Some l →
  v = attributes_dict l ∧
  Forall (λ ks, _validate_attribute_key (VStr ks.1) (_applicable_keys t) allow = Some ks.1 ∧
                valid_value ks.1 (VStr ks.2) = Some ks.2) l.
Proof.
  unfold validate_observed_attributes. destruct v as [| | | | | | | | | |kvs|]; try done.
  destruct (_ <? _)%nat; [done|]. destruct (negb _); [done|].
  destruct (mapM _ kvs) as [l'|] eqn:Hm; [|done]. case_match; [|done]. intros [= ->].
  apply mapM_Some in Hm. unfold attributes_dict. clear -Hm. induction Hm as [|e ks kvs l He Hm IH]; [done|].
  apply valid_entry_inv in He as (-> & Hk & Hv). destruct IH as [IH1 IH2]. destruct ks as [k s].
  split; [|by constructor]. injection IH1 as ->. done.
Qed.

(** ** Validated metadata *)

Definition valid_md (m : pyval) : Prop := ∃ md, validate_metadata m = Ok md ∧ md_belief md = WorldBelief.OBSERVED.

Lemma metadata_entry_inv r e km :
  valid_metadata_entry r e = Ok km → r_require_observed r = true →
  e.1 = VStr km.1 ∧ valid_md e.2 ∧ match r_attribute_keys r with Some l => km.1 ∈ l | None => True end.
Proof.
  unfold valid_metadata_entry. intros H Hr.
  destruct (_validate_attribute_key _ _ _) as [k|] eqn:Hk; [|done]. run_outcome H. apply Ok_inj in H as <-. simpl.
  split_and!; [by eapply valid_key_inv| |].
  - exists v. split; [done|]. rewrite Hr in Hb0. by apply bool_decide_eq_true in Hb0.
  - destruct (r_attribute_keys r); [|done]. by apply str_in_spec.
Qed.

(** The keys of a dict whose keys are text *)
Lemma str_items_lookup kvs k :
  is_Some (dict_get k kvs) ↔ k ∈ (str_items (VDict kvs)).*1.
Proof.
  simpl. induction kvs as [|[k' v] kvs IH]; simpl; [split; [by intros [? ?]|by intros ?%elem_of_nil]|].
  destruct (as_str k') as [s|] eqn:Hs; simpl.
  - rewrite elem_of_cons, <-IH. destruct (decide (Some s = Some k)) as [[= ->]|Hne]; [split; eauto|].
    split; [by right|]. intros [->|?]; done.
  - exact IH.
Qed.

Lemma metadata_map_inv v r l :
  validate_attribute_metadata_map v r = Ok l → r_require_observed r = true →
  (∀ k m, metadata_of v !! k = Some m → valid_md m) ∧
  match r_attribute_keys r with
  | Some keys => (∀ k m, metadata_of v !! k = Some m → k ∈ keys) ∧
                 (r_require_complete r = true → ∀ k, k ∈ keys → is_Some (metadata_of v !! k))
  | None => True
  end.
Proof.
  unfold validate_attribute_metadata_map. destruct v as [| | | | | | | | | |kvs|]; try done. intros H Hr. run_outcome H.
  apply outcome_map_Ok in Hv. assert (Hall : ∀ k m, metadata_of (VDict kvs) !! k = Some m →
    valid_md m ∧ match r_attribute_keys r with Some l => k ∈ l | None => True end).
  { intros k m Hk. apply elem_of_list_to_map_2 in Hk. simpl in Hk. rewrite list_elem_of_omap in Hk.
    destruct Hk as ([k' x] & Hin & Hs). apply list_elem_of_lookup in Hin as [i Hi].
    destruct (Forall2_lookup_l _ _ _ _ _ Hv Hi) as (km & _ & He).
    destruct (metadata_entry_inv _ _ _ He Hr) as (Hk' & Hmd & Hkeys). simpl in *. subst k'. simpl in Hs.
    by injection Hs as <- <-. }
  split; [intros k m Hk; by apply (Hall k)|]. destruct (r_attribute_keys r) as [keys|] eqn:Hkeys; [|done].
  split; [intros k m Hk; by apply (Hall k m)|]. intros Hc k Hk. unfold valid_attribute_keys in Hb0.
  rewrite Hkeys, Hc in Hb0. apply andb_true_iff in Hb0 as [_ Hb0]. simpl in Hb0.
  rewrite forallb_forall in Hb0. specialize (Hb0 k). apply bool_decide_eq_true in Hb0; [|by apply list_elem_of_In].
  apply str_items_lookup in Hb0. unfold metadata_of. apply not_eq_None_Some. intros Hn.
  by apply not_elem_of_list_to_map_2 in Hn.
Qed.

(** A payload that passed the revalidation of [_apply_observed_attributes] *)
Lemma check_attributes_inv p t allow :
  check_attributes p t allow = Ok () → allow = false →
  let a := attributes_of (at_key "attributes" p) in
  let m := metadata_of (dict_get_or "attribute_metadata" p (VDict [])) in
  dom a = dom m ∧
  (∀ k v, a !! k = Some v → k ∈ SUPPORTED_ATTRIBUTE_KEYS ∧ valid_value k (VStr v) = Some v) ∧
  (∀ k md, m !! k = Some md → valid_md md).
Proof.
  intros H ->. unfold check_attributes in H.
  destruct (validate_observed_attributes _ _ _) as [l|] eqn:Hv; [|done].
  apply validate_observed_inv in Hv as [Hd Hall]. rewrite Hd, attributes_of_dict. simpl.
  apply outcome_bind_Ok in H as (ml & Hm & _). apply outcome_except_Ok in Hm.
  apply metadata_map_inv in Hm as [Hmd [Hk1 Hk2]]; [|done]. simpl in Hk1, Hk2. split; [|split; [|done]].
  - apply set_eq. intros k. rewrite !elem_of_dom. split.
    + intros [v Hv]. apply Hk2; [done|]. apply elem_of_list_to_map_2 in Hv. apply list_elem_of_fmap. by exists (k, v).
    + intros [md Hmk]. apply Hk1 in Hmk. apply not_eq_None_Some. intros Hn. by apply not_elem_of_list_to_map_2 in Hn.
  - intros k v Hk. apply elem_of_list_to_map_2 in Hk. rewrite Forall_forall in Hall.
    destruct (Hall _ Hk) as [Hkey Hval]. split; [by eapply valid_key_supported|done].
Qed.

(** ** The confidence of a normalized observation *)

Lemma normalize_confidence_inv v f : normalize_confidence v = Ok f → isfinite f = true ∧ unit_interval f = true.
Proof.
  unfold normalize_confidence. destruct v; try done; intros H; run_outcome H; apply Ok_inj in H as <-; [done|].
  by apply andb_true_iff in Hb.
Qed.

Lemma observation_confidence e p :
  _normalize_observation_payload e = Ok p →
  isfinite (confidence_of p) = true ∧ unit_interval (confidence_of p) = true.
Proof.
  unfold _normalize_observation_payload. intros H. apply outcome_bind_Ok in H as (h & Hh & H).
  assert (Hf : isfinite (h_confidence h) = true ∧ unit_interval (h_confidence h) = true).
  { unfold observation_fields in Hh. run_outcome Hh. apply Ok_inj in Hh as <-. simpl.
    destruct (dict_get "confidence" (payload e)); [|done]. apply outcome_except_Ok in Hv4.
    by eapply normalize_confidence_inv. }
  assert (Hd : dict_get "confidence" p = Some (VFloat (h_confidence h))).
  { destruct (has_key _ _); [|run_outcome H; apply Ok_inj in H as <-; apply dict_get_set].
    unfold normalize_attributes in H. run_outcome H. apply Ok_inj in H as <-.
    rewrite update_dict_ne by decide_list. apply dict_get_set. }
  unfold confidence_of, at_key, dict_get_or. by rewrite Hd.
Qed.

(** ** The invariant *)

Record consistent_entity (v : entity_view) : Prop := {
  c_belief : v_belief v = (λ _, WorldBelief.OBSERVED) <$> v_type v;
  c_confidence : is_Some (v_confidence v) ↔ is_Some (v_type v);
  c_unit f : v_confidence v = Some f → isfinite f = true ∧ unit_interval f = true;
  c_observed : is_Some (v_observed_at v) → is_Some (v_type v);
  c_located : is_Some (v_location v) → is_Some (v_type v);
  c_location_belief : v_location_belief v = (λ _, WorldBelief.OBSERVED) <$> v_location v;
  c_location_evidence : is_Some (v_location_evidence v) ↔ is_Some (v_location v);
  c_attributed : is_Some (v_attributes v) → is_Some (v_type v);
  c_baseline : v_baseline v = (λ _, true) <$> v_attributes v;
  c_version : is_Some (v_version v) ↔ is_Some (v_attributes v);
  c_metadata : (λ a, dom (D:=gset string) a) <$> v_attributes v = (λ m, dom m) <$> v_metadata v;
  c_keys a k x : v_attributes v = Some a → a !! k = Some x →
    k ∈ SUPPORTED_ATTRIBUTE_KEYS ∧ valid_value k (VStr x) = Some x;
  c_valid_md m k x : v_metadata v = Some m → m !! k = Some x → valid_md x;
  c_evidence l : v_evidence v = Some l → NoDup l
}.

Definition consistent (s : WorldState) : Prop :=
  (∀ x, consistent_entity (view s x)) ∧ NoDup (applied_event_ids s).

Lemma extend_new_NoDup l refs : NoDup l → NoDup (extend_new l refs).
Proof.
  unfold extend_new. revert l. induction refs as [|r refs IH]; intros l Hl; [done|]. simpl. apply IH.
  case_decide; [done|]. apply NoDup_app. split_and!; [done| |apply NoDup_singleton].
  intros x Hx. rewrite list_elem_of_singleton. by intros ->.
Qed.

Lemma consistent_new run : consistent (new_state run).
Proof.
  split; [|constructor]. intros x. split; simpl; rewrite ?lookup_empty; try done; try (by intros [? ?]).
  all: split; by intros [? ?].
Qed.

Lemma consistent_append s id refs : consistent_entity (view s id) → consistent_entity (view (append_evidence s id refs) id).
Proof.
  intros []. split; simpl in *; try done. intros l. unfold _append_entity_evidence. rewrite lookup_insert.
  case_decide; [|done]. intros [= <-]. apply extend_new_NoDup.
  destruct (entity_evidence_refs s !! id) eqn:Hl; [by apply c_evidence0|constructor].
Qed.

(** The attributes and metadata that [set_attributes] may install *)
Definition sound_attributes (a : gmap string string) (m : gmap string pyval) : Prop :=
  dom a = dom m ∧
  (∀ k v, a !! k = Some v → k ∈ SUPPORTED_ATTRIBUTE_KEYS ∧ valid_value k (VStr v) = Some v) ∧
  (∀ k md, m !! k = Some md → valid_md md).

Lemma consistent_set_attributes s id a m ap v :
  consistent_entity (view s id) → is_Some (entity_types s !! id) → sound_attributes a m →
  consistent_entity (view (set_attributes s id a m ap v) id).
Proof.
  intros [] Ht (Hdom & Hk & Hm). unfold set_attributes, _append_entity_evidence.
  split; simpl in *; rewrite ?lookup_insert; try case_decide; simpl; try done.
  - by rewrite Hdom.
  - by intros ? k x [= <-] ?%Hk.
  - by intros ? k x [= <-] ?%Hm.
  - intros l [= <-]. apply extend_new_NoDup. destruct (entity_evidence_refs s !! id) eqn:Hl; [by apply c_evidence0|constructor].
Qed.

Lemma dom_None {A} (o : option (gmap string A)) (o' : option (gmap string pyval)) :
  (λ a, dom (D:=gset string) a) <$> o = (λ m, dom m) <$> o' → dom (D:=gset string) (default ∅ o) = dom (default ∅ o').
Proof. destruct o, o'; simpl; try done. by intros [= ->]. Qed.

Lemma consistent_merge s id a m v :
  consistent_entity (view s id) → is_Some (entity_types s !! id) → sound_attributes a m →
  consistent_entity (view (merge_partial s id a m v) id).
Proof.
  intros Hc Ht (Hdom & Hk & Hm). unfold merge_partial. case_decide; [done|]. apply consistent_set_attributes; [done..|].
  set (held := default ∅ (entity_attribute_metadata s !! id)). set (acc := filter _ a). split; [|split].
  - rewrite !dom_union_L. f_equal.
    + apply set_eq. intros k. rewrite !elem_of_dom. split.
      * intros [x Hx]. assert (is_Some (m !! k)) as [y Hy].
        { apply elem_of_dom. rewrite <-Hdom. apply elem_of_dom. apply map_lookup_filter_Some in Hx as [? _]. eauto. }
        exists y. apply map_lookup_filter_Some. split; [done|]. simpl. eauto.
      * intros [y [_ Hy]%map_lookup_filter_Some]. done.
    + apply dom_None, (c_metadata _ Hc).
  - intros k x [Hx|[_ Hx]]%lookup_union_Some_raw; [apply map_lookup_filter_Some in Hx as [? _]; by apply Hk|].
    destruct (entity_attributes s !! id) eqn:Ha; [|done]. by apply (c_keys _ Hc g).
  - intros k x [Hx|[_ Hx]]%lookup_union_Some_raw; [apply map_lookup_filter_Some in Hx as [? _]; by eapply Hm|].
    unfold held in Hx. destruct (entity_attribute_metadata s !! id) eqn:Ha; [|done]. by apply (c_valid_md _ Hc g k).
Qed.

Lemma consistent_observe s id p refs :
  consistent_entity (view s id) → isfinite (confidence_of p) = true ∧ unit_interval (confidence_of p) = true →
  consistent_entity (view (observe_entity s id p refs) id).
Proof.
  intros Hc Hf. destruct Hc as [Hb Hco Hu Ho Hl Hlb Hle Ha Hba Hv Hm Hk Hmd He]. unfold view in *. simpl in *.
  unfold observe_entity, _update_location, _append_entity_evidence.
  assert (Hty : ∀ o, is_Some (match o with Some t => <[id := t]> (entity_types s)
     | None => <[id := default "legacy" (entity_types s !! id)]> (entity_types s) end !! id)).
  { intros [t|]; rewrite lookup_insert; by case_decide. }
  specialize (Hty (text_field "entity_type" p)).
  assert (He' : NoDup (extend_new (default [] (entity_evidence_refs s !! id)) refs)).
  { apply extend_new_NoDup. destruct (entity_evidence_refs s !! id) eqn:Hl'; [by apply He|constructor]. }
  destruct (text_field "location" p) as [l|]; [case_decide as Hloc|]; split; unfold view; cbn -[lookup insert extend_new];
    rewrite ?lookup_insert; try case_decide; try done; try (destruct Hty as [ty ->]; by eauto).
  all: try (intros f [= <-]; done).
  all: try (intros l' [= <-]; first [done|apply extend_new_NoDup; constructor]).
Qed.

Lemma older_is_known s id p :
  consistent_entity (view s id) → _observation_is_provably_older s id p = true → is_Some (entity_types s !! id).
Proof.
  intros Hc. unfold _observation_is_provably_older. case_decide as Hn; [done|]. intros _.
  apply (c_observed _ Hc). simpl. by apply not_eq_None_Some.
Qed.

Lemma apply_attributes_consistent s id p older s' :
  consistent_entity (view s id) → is_Some (entity_types s !! id) →
  _apply_observed_attributes s id p older = Ok s' → consistent_entity (view s' id).
Proof.
  intros Hc Ht [->|(v & _ & Hchk & Hcase)]%apply_attributes_cases; [done|].
  apply check_attributes_inv in Hchk; [|apply andb_false_r].
  destruct Hcase as [(_ & _ & ->)|(_ & _ & ->)]; [by apply consistent_set_attributes|by apply consistent_merge].
Qed.

(** What the steps of an observation leave alone *)
Lemma attributes_keep s id p older s' :
  _apply_observed_attributes s id p older = Ok s' →
  applied_event_ids s' = applied_event_ids s ∧ entity_types s' = entity_types s.
Proof.
  intros [->|(v & _ & _ & [(_ & _ & ->)|(_ & _ & ->)])]%apply_attributes_cases; try done.
  destruct (merge_partial_cases s id (attributes_of (at_key "attributes" p))
    (metadata_of (dict_get_or "attribute_metadata" p (VDict []))) v) as [->|(?&?&?&?&->)]; done.
Qed.

Lemma observe_applied s id p refs : applied_event_ids (observe_entity s id p refs) = applied_event_ids s.
Proof. unfold observe_entity, _update_location. destruct (text_field _ _); [by case_decide|done]. Qed.

Lemma observe_typed s id p refs : is_Some (entity_types (observe_entity s id p refs) !! id).
Proof.
  unfold observe_entity, _update_location.
  destruct (text_field "location" p); [case_decide|]; simpl; destruct (text_field "entity_type" p); rewrite lookup_insert;
    by case_decide.
Qed.

Lemma apply_observation_step s e p s' :
  _normalize_observation_payload e = Ok p → apply_observation s (with_payload e p) = Ok s' → consistent s →
  applied_event_ids s' = applied_event_ids s ++ [event_id e] ∧ ∀ x, consistent_entity (view s' x).
Proof.
  intros Hp H [Hc _]. destruct (observation_entity _ _ Hp) as (id & _ & _ & Hid).
  pose proof (apply_observation_frame s (with_payload e p) s') as Hframe.
  pose proof (observation_confidence _ _ Hp) as Hf.
  assert (Hself : applied_event_ids s' = applied_event_ids s ++ [event_id e] ∧ consistent_entity (view s' id)).
  { unfold apply_observation in H. simpl in H. rewrite Hid in H. simpl in H. run_outcome H. apply Ok_inj in H as <-.
    set (s2 := if _observation_is_provably_older s id p then _ else _) in Hv.
    assert (consistent_entity (view s2 id) ∧ is_Some (entity_types s2 !! id) ∧
            applied_event_ids s2 = applied_event_ids s ++ [event_id e]) as (H2 & Ht2 & Hi2).
    { unfold s2. destruct (_observation_is_provably_older s id p) eqn:Ho;
        [split_and!; [apply (Hc id)|exact (older_is_known s id p (Hc id) Ho)|done]|].
      split_and!; [by apply consistent_observe; [apply (Hc id)|]|apply observe_typed|by rewrite observe_applied]. }
    pose proof (apply_attributes_consistent _ _ _ _ _ H2 Ht2 Hv) as H3.
    destruct (attributes_keep _ _ _ _ _ Hv) as [Hi3 _].
    destruct (_ && _); [split; [by simpl; rewrite Hi3|by apply consistent_append]|split; [by rewrite Hi3|done]]. }
  split; [apply Hself|]. intros x. destruct (decide (x = id)) as [->|Hx]; [apply Hself|].
  rewrite (Hframe x H); simpl; [apply Hc|congruence|eauto].
Qed.

Lemma normalize_observation e n :
  normalize_world_event e None = Ok n → event_type e = WorldEventType.OBSERVATION →
  ∃ p, _normalize_observation_payload e = Ok p ∧ n = with_payload e p.
Proof. unfold normalize_world_event. intros H Ht. rewrite Ht in H. run_outcome H. apply Ok_inj in H as <-. eauto. Qed.

Lemma apply_event_consistent s e s' : consistent s → apply_event s e = Ok s' → consistent s'.
Proof.
  intros Hc [[_ ->]|(Hnew & n & Hn & [[_ ->]|[Ht H]])]%apply_event_cases; [done| |].
  - destruct (normalize_keeps _ _ _ Hn) as (Hid & _). destruct Hc as [Hc Hnd]. split; [intros x; apply (Hc x)|].
    simpl. rewrite Hid. apply NoDup_app. split_and!; [done| |apply NoDup_singleton].
    intros i Hi. rewrite list_elem_of_singleton. by intros ->.
  - destruct (normalize_observation _ _ Hn Ht) as (p & Hp & ->).
    destruct (apply_observation_step _ _ _ _ Hp H Hc) as [Hi Hall]. split; [done|]. rewrite Hi. apply NoDup_app.
    split_and!; [apply Hc| |apply NoDup_singleton]. intros i Hin. rewrite list_elem_of_singleton. by intros ->.
Qed.

Lemma apply_events_consistent l s s' : consistent s → apply_events s l = Ok s' → consistent s'.
Proof.
  revert s. induction l as [|e l IH]; intros s Hc; simpl; [by intros [= <-]|].
  intros (s1 & H1 & H)%outcome_bind_Ok. eapply IH; [|done]. by eapply apply_event_consistent.
Qed.
