(* ===== verification/EventPayloadProofs.v ===== *)
(** * World-event payloads: normalized payloads are fixed points

    The validators of [observed_attributes.py] and [event_payloads.py] return
    records that they accept again, unchanged. *)

From Stdlib Require Import ZArith Ascii String SpecFloat.
From S2P Require Import Prelude PyVal Json Contracts ObservedAttributes EventPayloads DateTime Aging Reducer ReducerInvariant.
Local Open Scope Z_scope.

(** ** Metadata records *)

Record valid_record (m : ObservedAttributeMetadata) : Prop := {
  vr_observed : _validate_metadata_text (VStr (md_observed_at m)) = Some (md_observed_at m);
  vr_confidence : normalize_confidence (VFloat (md_confidence m)) = Ok (md_confidence m);
  vr_refs : validate_attribute_evidence_refs (VList (VStr <$> md_evidence_refs m)) true = Some (md_evidence_refs m);
  vr_source s : md_source m = Some s → _validate_metadata_text (VStr s) = Some s
}.

Lemma metadata_text_inv v s : _validate_metadata_text v = Some s → v = VStr s.
Proof. unfold _validate_metadata_text. destruct v; try done. case_match; [|done]. by intros [= ->]. Qed.

Lemma reference_inv v s : _validate_evidence_reference v = Some s → v = VStr s.
Proof. unfold _validate_evidence_reference. destruct v; try done. case_match; [|done]. by intros [= ->]. Qed.

Lemma refs_inv v b refs : validate_attribute_evidence_refs v b = Some refs → v = VList (VStr <$> refs).
Proof.
  unfold validate_attribute_evidence_refs. destruct v as [| | | | | |l| | | | |]; try done. do 2 (case_match; [done|]).
  destruct (mapM _ l) as [l'|] eqn:Hm; [|done]. case_decide; [|done]. intros [= ->]. f_equal.
  apply mapM_Some in Hm. clear -Hm. induction Hm as [|v s l l' Hv Hm IH]; [done|]. simpl. by rewrite (reference_inv _ _ Hv), IH.
Qed.

Lemma confidence_again v f : normalize_confidence v = Ok f → normalize_confidence (VFloat f) = Ok f.
Proof. intros H%normalize_confidence_inv. destruct H as [H1 H2]. simpl. by rewrite H1, H2. Qed.

Lemma validate_metadata_inv v m :
  validate_metadata v = Ok m →
  valid_record m ∧ ∃ kvs, v = VDict kvs ∧ dict_get "source" kvs = VStr <$> md_source m.
Proof.
  unfold validate_metadata. destruct v as [| | | | | | | | | |kvs|]; try done. intros H.
  apply outcome_bind_Ok in H as (f & Hf & H). destruct (dict_get "confidence" kvs) as [c|]; [|done].
  destruct (field "observed_at" _ _) as [o|] eqn:Ho; [|done]. destruct (field "evidence_refs" _ _) as [r|] eqn:Hr; [|done].
  destruct (field "belief" _ _) as [b|]; [|done]. destruct (metadata_clock _) as [ck|]; [|done].
  destruct (metadata_source _) as [src|] eqn:Hs; [|done]. destruct (unknown_keys _ _); [|done]. apply Ok_inj in H as <-.
  apply bind_Some in Ho as (x & _ & Hx). apply bind_Some in Hr as (y & _ & Hy).
  pose proof (metadata_text_inv _ _ Hx) as ->. pose proof (refs_inv _ _ _ Hy) as ->.
  unfold metadata_source in Hs. split; [split; simpl; [done|by eapply confidence_again|done|]|eexists; split; [done|]]; simpl.
  - intros s ->. destruct (dict_get "source" kvs); [|done]. apply fmap_Some in Hs as (s' & Hs & [= <-]).
    by pose proof (metadata_text_inv _ _ Hs) as ->.
  - destruct (dict_get "source" kvs) as [z|]; [|by injection Hs as <-]. apply fmap_Some in Hs as (s' & Hs & ->).
    by pose proof (metadata_text_inv _ _ Hs) as ->.
Qed.

(** A dict that holds exactly the fields of a record validates to the record *)
Lemma validate_fields m kvs :
  valid_record m →
  dict_get "observed_at" kvs = Some (VStr (md_observed_at m)) →
  dict_get "confidence" kvs = Some (VFloat (md_confidence m)) →
  dict_get "evidence_refs" kvs = Some (VList (VStr <$> md_evidence_refs m)) →
  dict_get "belief" kvs = Some (VStr (value (md_belief m))) →
  dict_get "clock_id" kvs = Some (VStr (value (md_clock_id m))) →
  dict_get "source" kvs = VStr <$> md_source m →
  unknown_keys metadata_fields kvs = [] →
  validate_metadata (VDict kvs) = Ok m.
Proof.
  intros [Ho Hc Hr Hs] H1 H2 H3 H4 H5 H6 H7. unfold validate_metadata, field, metadata_clock, metadata_source.
  rewrite H1, H2, H3, H4, H5, H6, H7, Hc. cbn [outcome_bind mbind option_bind as_str]. rewrite Ho, Hr, !of_value_value.
  destruct m as [o c r b ck [s|]]; simpl in *; [|done]. by rewrite (Hs s eq_refl).
Qed.

Lemma validate_dump m : valid_record m → validate_metadata (metadata_dump m) = Ok m.
Proof. intros H. apply validate_fields; try done; by destruct m as [o c r b ck [s|]]. Qed.

(** Defaults updated with a record's own fields *)
Lemma validate_updated m d :
  valid_record m → (md_source m = None → d_source d = None) →
  validate_metadata (VDict (update_dict (default_items d) (metadata_items m))) = Ok m.
Proof.
  intros H Hsrc. apply validate_fields; try done;
    destruct m as [o c r b ck [s|]], d as [o' c' r' ck' [s'|]]; simpl in *; try done; by specialize (Hsrc eq_refl).
Qed.

(** ** Metadata maps *)

Lemma metadata_entry_dump r k m km :
  valid_record m → valid_metadata_entry r (VStr k, metadata_dump m) = Ok km → km = (k, m).
Proof.
  intros Hm H. unfold valid_metadata_entry in H. destruct (_validate_attribute_key _ _ _) as [k'|] eqn:Hk; [|done].
  apply valid_key_inv in Hk as [= <-]. run_outcome H. apply Ok_inj in H as <-. cbn [snd] in Hv.
  rewrite validate_dump in Hv by done. by apply Ok_inj in Hv as <-.
Qed.

(** The dump of validated metadata validates to itself; completeness is only an
    additional demand. *)
Lemma metadata_map_again ml ml' keys d t allow :
  Forall (λ km, valid_record km.2) ml →
  validate_attribute_metadata_map (metadata_map_dict ml) (materialize_rules keys d t allow true) = Ok ml' →
  validate_attribute_metadata_map (metadata_map_dict ml) (materialize_rules keys d t allow false) = Ok ml.
Proof.
  intros Hall H. unfold validate_attribute_metadata_map in *. unfold metadata_map_dict, items_dict in *. lazy iota in H |- *.
  run_outcome H. apply Ok_inj in H as <-.
  assert (v = ml) as ->.
  { apply outcome_map_Ok in Hv. clear -Hv Hall. revert v Hv. induction ml as [|[k m] ml IH]; intros v Hv; simpl in Hv.
    - by inversion Hv.
    - apply Forall_cons in Hall as [Hm Hall]. inversion Hv as [|? km ? v' Hkm Hv']; subst.
      rewrite (metadata_entry_dump _ _ _ _ Hm Hkm). f_equal. by apply IH. }
  assert (valid_attribute_keys (materialize_rules keys d t allow false)
    ((λ '(k, v), (VStr k, v)) <$> ((λ '(k, m), (k, metadata_dump m)) <$> ml)) = true) as ->.
  { unfold valid_attribute_keys, materialize_rules in *. simpl in *.
    apply andb_true_iff in Hb0 as [-> _]. done. }
  cbn [r_expected_clock_id materialize_rules] in Hb1 |- *. rewrite Hb1.
  assert (outcome_map (valid_metadata_entry (materialize_rules keys d t allow false))
    ((λ '(k, v), (VStr k, v)) <$> ((λ '(k, m), (k, metadata_dump m)) <$> ml)) = Ok ml) as ->; [exact Hv|].
  cbn [outcome_bind]. by rewrite Hb2.
Qed.

Lemma update_dict_keeps k d items : is_Some (dict_get k d) → is_Some (dict_get k (update_dict d items)).
Proof.
  unfold update_dict. revert d. induction items as [|[k' v] items IH]; intros d Hd; [done|]. simpl. apply IH.
  destruct (decide (k = k')) as [->|Hk]; [by rewrite dict_get_set|by rewrite dict_get_set_ne].
Qed.

Lemma materialize_one_inv d ex k km :
  materialize_one d ex k = Ok km →
  km.1 = k ∧ valid_record km.2 ∧ md_belief km.2 = WorldBelief.OBSERVED ∧ (md_source km.2 = None → d_source d = None).
Proof.
  unfold materialize_one. intros H. run_outcome H. apply Ok_inj in H as <-. simpl. apply bool_decide_eq_true in Hb.
  destruct (validate_metadata_inv _ _ Hv) as (Hr & kvs & [= <-] & Hs). split_and!; try done.
  intros Hn. rewrite Hn in Hs. cbn [fmap option_fmap option_map] in Hs. destruct (d_source d) as [s|] eqn:Hd; [|done]. exfalso.
  destruct (update_dict_keeps "source" (default_items d)
    match lookup_metadata k ex with Some m => metadata_items m | None => [] end) as [x Hx]; [|congruence].
  unfold default_items. rewrite Hd. eexists. reflexivity.
Qed.

Lemma lookup_metadata_elem k m ml : lookup_metadata k ml = Some m → (k, m) ∈ ml.
Proof.
  induction ml as [|[k' m'] ml IH]; [done|]. simpl. destruct (String.eqb_spec k k') as [->|]; [intros [= ->]; left|].
  intros H. right. by apply IH.
Qed.

Lemma lookup_metadata_Some k m ml : (k, m) ∈ ml → ∃ m', lookup_metadata k ml = Some m'.
Proof.
  induction ml as [|[k' m'] ml IH]; [by intros ?%elem_of_nil|]. simpl. destruct (String.eqb_spec k k'); [eauto|].
  intros [[= -> ->]|H]%elem_of_cons; [done|by apply IH].
Qed.

Lemma materialize_one_again d ex keys ml k m :
  Forall2 (λ k km, materialize_one d ex k = Ok km) keys ml → (k, m) ∈ ml → materialize_one d ml k = Ok (k, m).
Proof.
  intros Hf Hin.
  assert (Hof : ∀ k' m', (k', m') ∈ ml → materialize_one d ex k' = Ok (k', m')).
  { intros k' m' (i & Hi)%list_elem_of_lookup. destruct (Forall2_lookup_r _ _ _ _ _ Hf Hi) as (k0 & _ & H).
    by destruct (materialize_one_inv _ _ _ _ H) as (<- & _). }
  destruct (lookup_metadata_Some _ _ _ Hin) as [m' Hm']. pose proof (lookup_metadata_elem _ _ _ Hm') as Hin'.
  assert (m' = m) as ->. { pose proof (Hof _ _ Hin) as H1. pose proof (Hof _ _ Hin') as H2. congruence. }
  destruct (materialize_one_inv _ _ _ _ (Hof _ _ Hin)) as (_ & Hr & Hb & Hs). simpl in *.
  unfold materialize_one. rewrite Hm', validate_updated by done. simpl. by rewrite bool_decide_eq_true_2.
Qed.

(** Materialized metadata is materialized to itself *)
Lemma materialize_again l raw d t allow ml :
  materialize_attribute_metadata l raw d t allow = Ok ml →
  materialize_attribute_metadata l (Some (metadata_map_dict ml)) d t allow = Ok ml.
Proof.
  unfold materialize_attribute_metadata. intros H. run_outcome H. apply Ok_inj in H as <-.
  rename v into ex, v0 into ml. apply outcome_map_Ok in Hv0.
  assert (Hrec : Forall (λ km, valid_record km.2) ml).
  { apply Forall_forall. intros km (i & Hi)%list_elem_of_lookup. destruct (Forall2_lookup_r _ _ _ _ _ Hv0 Hi) as (k & _ & Hk).
    by destruct (materialize_one_inv _ _ _ _ Hk) as (_ & ? & _). }
  rewrite (metadata_map_again _ _ _ _ _ _ Hrec Hv1). cbn [outcome_bind].
  assert (outcome_map (materialize_one d ml) l.*1 = Ok ml) as ->.
  { apply outcome_map_Ok. apply Forall2_same_length_lookup. split; [by eapply Forall2_length|].
    intros i k [k' m] Hk Hm. pose proof (Forall2_lookup_lr _ _ _ _ _ _ Hv0 Hk Hm) as Hkm.
    destruct (materialize_one_inv _ _ _ _ Hkm) as (<- & _).
    eapply materialize_one_again; [exact Hv0|]. by eapply list_elem_of_lookup_2. }
  cbn [outcome_bind]. by rewrite Hv1.
Qed.

(** ** Updated dicts *)

Lemma dict_set_same k v d : dict_get k d = Some v → dict_set k v d = d.
Proof. induction d as [|[k' v'] d IH]; [done|]. simpl. case_decide; [by intros [= ->]|]. intros Hd. by rewrite IH. Qed.

Lemma update_dict_same d items : Forall (λ kv, dict_get kv.1 d = Some kv.2) items → update_dict d items = d.
Proof.
  unfold update_dict. induction 1 as [|[k v] items H Hall IH]; [done|]. simpl in *. by rewrite dict_set_same.
Qed.

Lemma update_dict_get d items : NoDup items.*1 → Forall (λ kv, dict_get kv.1 (update_dict d items) = Some kv.2) items.
Proof.
  unfold update_dict. revert d. induction items as [|[k v] items IH]; intros d; [constructor|]. cbn [foldl].
  intros Hnd. apply NoDup_cons in Hnd as [Hk Hnd]. constructor; [|by apply IH]. cbn [fst snd].
  change (dict_get k (update_dict (dict_set k v d) items) = Some v). rewrite update_dict_ne by done. apply dict_get_set.
Qed.

(** ** Observations *)

Lemma fields_again e p h o :
  observation_fields (payload e) = Ok h →
  (∀ k, k ∈ ["entity_id"; "entity_type"; "source"; "location"] → dict_get k p = dict_get k (payload e)) →
  dict_get "confidence" p = Some (VFloat (h_confidence h)) →
  dict_get "clock_id" p ≠ Some VNone →
  optional_text "observed_at" p = Ok o →
  observation_fields p = Ok {| h_entity_id := h_entity_id h; h_entity_type := h_entity_type h; h_observed_at := o;
    h_source := h_source h; h_location := h_location h; h_confidence := h_confidence h |}.
Proof.
  unfold observation_fields. intros H Hk Hc Hck Ho. run_outcome H.
  unfold optional_text in Hv0, Hv2, Hv3, Ho |- *.
  rewrite (Hk "entity_id"), (Hk "entity_type"), (Hk "source"), (Hk "location"), Hv, Hv0 by decide_list.
  cbn [outcome_bind]. rewrite Ho. cbn [outcome_bind]. rewrite Hv2. cbn [outcome_bind].
  assert ((match dict_get "clock_id" p with Some VNone => false | _ => true end) = true) as ->.
  { destruct (dict_get "clock_id" p) as [[]|]; done. }
  rewrite Hv3. cbn [outcome_bind]. rewrite Hc. apply Ok_inj in H as <-. cbn [h_confidence] in *.
  destruct (dict_get "confidence" (payload e)) as [c|]; [|done]. apply outcome_except_Ok in Hv4.
  rewrite (confidence_again _ _ Hv4). done.
Qed.

Lemma optional_text_present k d s : dict_get k d = Some (VStr s) → non_blank s = true → optional_text k d = Ok (Some s).
Proof. intros H Hb. unfold optional_text. rewrite H. simpl. by rewrite Hb. Qed.

Lemma optional_text_inv k d o : optional_text k d = Ok (Some o) → non_blank o = true.
Proof.
  unfold optional_text. destruct (dict_get k d) as [v|]; [|done]. intros H. run_outcome H. apply Ok_inj in H as [= <-].
  by apply strict_text_Ok in Hv as [_ ?].
Qed.

(** The fields that the attribute part writes *)
Definition attribute_items (version : string) (mode : AttributeUpdateMode.t) (l : list (string * string))
    (clock : ClockId.t) (observed_at : string) (ml : list (string * ObservedAttributeMetadata)) : list (string * pyval) :=
  [("attributes_schema_version", VStr version); ("attributes_mode", VStr (value mode));
   ("attributes", attributes_dict l); ("clock_id", VStr (value clock));
   ("observed_at", VStr observed_at); ("attribute_metadata", metadata_map_dict ml)].

Lemma payload_version_inv d v :
  payload_version d = Ok v → _normalize_attribute_schema_version (VStr v) = Ok v.
Proof.
  unfold payload_version. destruct (dict_get _ _) as [x|].
  - unfold _normalize_attribute_schema_version. destruct x; try done. intros H. run_outcome H. apply Ok_inj in H as <-.
    by rewrite Hb.
  - intros H. run_outcome H. by apply Ok_inj in H as <-.
Qed.

Lemma payload_clock_event d d' ec c :
  payload_clock d ec = Ok c → dict_get "clock_id" d' = Some (VStr (value c)) → payload_clock d' ec = Ok c.
Proof.
  unfold payload_clock. intros H H'. run_outcome H. apply Ok_inj in H as <-. rewrite H'. unfold of_valid.
  rewrite of_value_value. simpl. by rewrite Hb.
Qed.

(** What a successful [normalize_attributes] found *)
Record attribute_reading (d : dict) (h : observation_head) (e : WorldEvent) (p : dict) (version : string)
    (mode : AttributeUpdateMode.t) (l : list (string * string)) (refs : list string) (clock : ClockId.t)
    (ml : list (string * ObservedAttributeMetadata)) : Prop := {
  ar_version : payload_version d = Ok version;
  ar_mode : payload_mode d = Ok mode;
  ar_attributes : validate_observed_attributes (at_key "attributes" d) (h_entity_type h)
    (String.eqb version LEGACY_ATTRIBUTE_MIGRATION_VERSION && legacy_attribute_keys_allowed (h_entity_type h)) = Some l;
  ar_refs : validate_attribute_evidence_refs (VList (VStr <$> event_evidence_refs e)) false = Some refs;
  ar_clock : payload_clock d (event_clock_id e) = Ok clock;
  ar_modern : String.eqb version LEGACY_ATTRIBUTE_MIGRATION_VERSION || modern_fields_present h refs = true;
  ar_not_null : dict_get "attribute_metadata" d ≠ Some VNone;
  ar_metadata : materialize_attribute_metadata l (dict_get "attribute_metadata" d)
    {| d_observed_at := VStr (default (occurred_at e) (h_observed_at h)); d_confidence := h_confidence h;
       d_evidence_refs := refs; d_clock_id := value clock; d_source := h_source h |} (h_entity_type h)
    (String.eqb version LEGACY_ATTRIBUTE_MIGRATION_VERSION && legacy_attribute_keys_allowed (h_entity_type h)) = Ok ml;
  ar_result : p = update_dict d (attribute_items version mode l clock (default (occurred_at e) (h_observed_at h)) ml)
}.

Lemma of_valid_Ok {A} (o : option A) a : of_valid o = Ok a ↔ o = Some a.
Proof. destruct o; simpl; split; congruence. Qed.

Lemma normalize_attributes_iff d h e p :
  normalize_attributes d h e = Ok p ↔ ∃ version mode l refs clock ml, attribute_reading d h e p version mode l refs clock ml.
Proof.
  split.
  - unfold normalize_attributes. intros H. run_outcome H. apply Ok_inj in H as <-.
    apply of_valid_Ok in Hv1, Hv2. apply outcome_except_Ok in Hv4. exists v, v0, v1, v2, v3, v4. split; try done.
    intros Hn. by rewrite Hn in Hb0.
  - intros (version & mode & l & refs & clock & ml & [Hv Hm Ha Hr Hc Hmod Hn Hmd ->]). unfold normalize_attributes.
    rewrite Hv. cbn [outcome_bind]. rewrite Hm. cbn [outcome_bind]. rewrite Ha. cbn [of_valid outcome_bind].
    rewrite Hr. cbn [of_valid outcome_bind]. rewrite Hc. cbn [outcome_bind]. rewrite Hmod.
    assert ((match dict_get "attribute_metadata" d with Some VNone => false | _ => true end) = true) as ->.
    { destruct (dict_get "attribute_metadata" d) as [[]|]; done. }
    by rewrite Hmd.
Qed.

(** What the normalized payload holds *)
Lemma attribute_fields d h e p version mode l refs clock ml :
  attribute_reading d h e p version mode l refs clock ml →
  Forall (λ kv, dict_get kv.1 p = Some kv.2)
    (attribute_items version mode l clock (default (occurred_at e) (h_observed_at h)) ml) ∧
  (∀ k, k ∉ written_fields ∨ k = "confidence" → dict_get k p = dict_get k d).
Proof.
  intros [_ _ _ _ _ _ _ _ ->]. split.
  - apply update_dict_get. apply (bool_decide_unpack _). vm_compute. exact I.
  - intros k Hk. apply update_dict_ne. intros Hin. destruct Hk as [Hk| ->].
    + apply Hk. right. exact Hin.
    + revert Hin. apply (bool_decide_unpack _). vm_compute. exact I.
Qed.

(** The head of a normalized observation: it has a time *)
Definition timed (h : observation_head) (o : string) : observation_head :=
  {| h_entity_id := h_entity_id h; h_entity_type := h_entity_type h; h_observed_at := Some o;
     h_source := h_source h; h_location := h_location h; h_confidence := h_confidence h |}.

(** Normalizing the attribute part of a normalized payload changes nothing *)
Lemma attributes_again d h e p version mode l refs clock ml :
  attribute_reading d h e p version mode l refs clock ml →
  attribute_reading p (timed h (default (occurred_at e) (h_observed_at h))) (with_payload e p) p version mode l refs clock ml.
Proof.
  intros H. destruct (attribute_fields _ _ _ _ _ _ _ _ _ _ H) as [Hget _].
  pose proof (update_dict_same p _ Hget) as Hsame. unfold attribute_items in Hget. rewrite !Forall_cons in Hget.
  destruct Hget as (G1 & G2 & G3 & G4 & G5 & G6 & _). cbn [fst snd] in *. destruct H as [Hv Hm Ha Hr Hc Hmod Hn Hmd _].
  split; cbn [timed h_entity_type h_observed_at h_source h_confidence event_evidence_refs event_clock_id occurred_at
    with_payload from_option id]; try done.
  - unfold payload_version. rewrite G1. by eapply payload_version_inv.
  - unfold payload_mode. rewrite G2. cbn [_normalize_attributes_mode]. by rewrite of_value_value.
  - unfold at_key, dict_get_or. rewrite G3. cbn [from_option id].
    by pose proof (proj1 (validate_observed_inv _ _ _ _ Ha)) as <-.
  - by eapply payload_clock_event.
  - apply orb_true_iff in Hmod as [->|Hb]; [done|]. apply orb_true_iff. right. unfold modern_fields_present in *.
    rewrite !andb_true_iff in Hb |- *. destruct Hb as [[[? _] ?] ?]. split_and!; done.
  - by rewrite G6.
  - rewrite G6. by eapply materialize_again.
Qed.

(** A blank time would be refused when it is read back *)
Lemma observation_again e p :
  non_blank (occurred_at e) = true → _normalize_observation_payload e = Ok p →
  _normalize_observation_payload (with_payload e p) = Ok p.
Proof.
  intros Hocc. unfold _normalize_observation_payload at 1. intros H. apply outcome_bind_Ok in H as (h & Hh & H).
  set (d := dict_set "confidence" (VFloat (h_confidence h)) (payload e)) in *.
  assert (Hd : ∀ k, k ≠ "confidence" → dict_get k d = dict_get k (payload e)) by (intros; by apply dict_get_set_ne).
  assert (Hdc : dict_get "confidence" d = Some (VFloat (h_confidence h))) by apply dict_get_set.
  pose proof Hh as Hh0. unfold observation_fields in Hh0. run_outcome Hh0. apply Ok_inj in Hh0.
  destruct (has_key "attributes" d) eqn:Hat.
  - apply normalize_attributes_iff in H as (version & mode & l & refs & clock & ml & H).
    destruct (attribute_fields _ _ _ _ _ _ _ _ _ _ H) as [Hget Hother]. unfold attribute_items in Hget.
    rewrite !Forall_cons in Hget. destruct Hget as (_ & _ & G3 & G4 & G5 & _). cbn [fst snd] in *.
    set (o := default (occurred_at e) (h_observed_at h)) in *.
    assert (Ho : non_blank o = true).
    { unfold o. rewrite <-Hh0. cbn [h_observed_at]. destruct v1 as [t|]; [|done]. by eapply optional_text_inv. }
    unfold _normalize_observation_payload. cbn [payload with_payload].
    rewrite (fields_again e p h (Some o) Hh).
    + cbn [outcome_bind h_confidence]. rewrite dict_set_same by (rewrite Hother by auto; done).
      unfold has_key. rewrite G3, bool_decide_eq_true_2 by eauto. apply normalize_attributes_iff.
      exists version, mode, l, refs, clock, ml. exact (attributes_again _ _ _ _ _ _ _ _ _ _ H).
    + intros k Hk. rewrite Hother, Hd; [done|..]; [|left]; revert Hk; rewrite !elem_of_cons, elem_of_nil;
        intros [->|[->|[->|[->|[]]]]]; try done; decide_list.
    + by rewrite Hother by auto.
    + by rewrite G4.
    + by apply optional_text_present.
  - run_outcome H. apply Ok_inj in H as <-. unfold _normalize_observation_payload. cbn [payload with_payload].
    rewrite (fields_again e d h v1 Hh).
    + cbn [outcome_bind h_confidence]. rewrite dict_set_same by done. by rewrite Hat, Hb0.
    + intros k Hk. apply Hd. revert Hk. rewrite !elem_of_cons, elem_of_nil. intros [->|[->|[->|[->|[]]]]]; done.
    + done.
    + rewrite Hd by done. intros Hn. by rewrite Hn in Hb.
    + unfold optional_text in *. by rewrite Hd.
Qed.

(** ** Action results *)

Lemma text_list_again l : text_list (VList (VStr <$> l)) = Some l.
Proof. simpl. apply mapM_Some. induction l; by constructor. Qed.

Lemma strict_text_again v s : strict_text v = Some s → strict_text (VStr s) = Some s.
Proof. unfold strict_text. destruct v as [| | | |t| | | | | | |]; try done. case_match eqn:Ht; [|done]. intros [= <-]. by rewrite Ht. Qed.

Lemma field_again k d s : field k d strict_text = Some s → strict_text (VStr s) = Some s.
Proof. intros (x & _ & Hx)%bind_Some. by eapply strict_text_again. Qed.

(** An optional text field reads back from its dump *)
Definition nullable_text (o : option string) : Prop := ∀ s, o = Some s → strict_text (VStr s) = Some s.

Lemma nullable_again k d o : nullable k d strict_text = Some o → nullable_text o.
Proof.
  unfold nullable. intros H s ->. destruct (at_key k d) eqn:Hk; try done;
    apply fmap_Some in H as (s' & Hs & [= ->]); by eapply strict_text_again.
Qed.

Record valid_result (r : ActionResult) : Prop := {
  vr_id : strict_text (VStr (result_id r)) = Some (result_id r);
  vr_action : strict_text (VStr (result_action_id r)) = Some (result_action_id r);
  vr_run : strict_text (VStr (result_run_id r)) = Some (result_run_id r);
  vr_started : strict_text (VStr (started_at r)) = Some (started_at r);
  vr_ended : strict_text (VStr (ended_at r)) = Some (ended_at r);
  vr_entity : nullable_text (entity_id r);
  vr_location : nullable_text (resulting_location r);
  vr_completion : validate_completion_state r = true;
  vr_claim : validate_spatial_claim r = true
}.

Lemma typed_result_valid d r : typed_action_result d = Some r → valid_result r.
Proof.
  unfold typed_action_result. intros H.
  repeat match type of H with mbind _ _ = Some _ =>
    let a := fresh "a" in let Ha := fresh "Ha" in apply bind_Some in H as (a & Ha & H) end.
  destruct (_ && _) eqn:Hb in H; [|done]. apply (f_equal (from_option id r)) in H. cbn [from_option id] in H.
  rewrite !andb_true_iff in Hb. destruct Hb as [[_ Hc] Hs]. rewrite H in Hc, Hs. split; try done; subst r; cbn;
    by first [eapply field_again|eapply nullable_again].
Qed.

Lemma nullable_dump k d o : dict_get k d = Some (option_str o) → nullable_text o → nullable k d strict_text = Some o.
Proof.
  intros H Ho. unfold nullable, at_key, dict_get_or. rewrite H. destruct o as [s|]; [|done].
  cbn [option_str from_option id]. by rewrite (Ho s eq_refl).
Qed.

Lemma action_result_again r : valid_result r → typed_action_result (action_result_dump r) = Some r.
Proof.
  intros [H1 H2 H3 H4 H5 H6 H7 H8 H9]. set (d := action_result_dump r).
  assert (E1 : field "result_id" d strict_text = Some (result_id r)) by exact H1.
  assert (E2 : field "action_id" d strict_text = Some (result_action_id r)) by exact H2.
  assert (E3 : field "run_id" d strict_text = Some (result_run_id r)) by exact H3.
  assert (E4 : field "started_at" d strict_text = Some (started_at r)) by exact H4.
  assert (E5 : field "ended_at" d strict_text = Some (ended_at r)) by exact H5.
  assert (E6 : field "outcome" d (enum_field ActionOutcome.t) = Some (outcome_of r)) by apply of_value_value.
  assert (E7 : field "dispatch_state" d (enum_field DispatchState.t) = Some (dispatch_state r)) by apply of_value_value.
  assert (E8 : field "device_state" d (enum_field DeviceState.t) = Some (device_state r)) by apply of_value_value.
  assert (E9 : enum_field ClockId.t (VStr (value (result_clock_id r))) = Some (result_clock_id r)) by apply of_value_value.
  assert (E10 : nullable "error_code" d strict_int = Some (error_code r)).
  { unfold nullable. change (at_key "error_code" d) with (match error_code r with Some z => VInt z | None => VNone end).
    by destruct (error_code r). }
  assert (E11 : nullable "error_reason" d any_text = Some (error_reason r)).
  { unfold nullable. change (at_key "error_reason" d) with (option_str (error_reason r)). by destruct (error_reason r). }
  assert (E12 : nullable "entity_id" d strict_text = Some (entity_id r)) by by apply nullable_dump.
  assert (E13 : nullable "resulting_location" d strict_text = Some (resulting_location r)) by by apply nullable_dump.
  assert (E14 : forallb (key_in action_result_fields) d.*1 = true) by (vm_compute; reflexivity).
  unfold typed_action_result. rewrite E1, E2, E3, E4, E5, E6, E7, E8, E10, E11, E12, E13, E14.
  change (dict_get "clock_id" d) with (Some (VStr (value (result_clock_id r)))).
  change (dict_get "retry_count" d) with (Some (VInt (retry_count r))).
  change (dict_get "evidence_refs" d) with (Some (VList (VStr <$> result_evidence_refs r))).
  cbn [mbind option_bind]. rewrite E9, text_list_again. cbn [mbind option_bind strict_int andb]. destruct r; cbn in *.
  by rewrite H8, H9.
Qed.

Lemma result_payload_again d run refs x r :
  normalize_action_result_payload d run refs x = Ok r →
  normalize_action_result_payload (action_result_dump r) run refs x = Ok r.
Proof.
  unfold normalize_action_result_payload. intros H. run_outcome H. apply Ok_inj in H as <-. apply of_valid_Ok in Hv.
  rewrite action_result_again by by eapply typed_result_valid. cbn [of_valid outcome_bind]. by rewrite Hb, Hb0, Hb1.
Qed.

(** ** Recovery payloads *)

(** The first value of a key in a list of items *)
Fixpoint item_get (k : string) (l : list (string * pyval)) : option pyval :=
  match l with
  | [] => None
  | (k', v) :: l' => if String.eqb k' k then Some v else item_get k l'
  end.

Lemma dict_get_items k l : dict_get k ((λ '(k, v), (VStr k, v)) <$> l) = item_get k l.
Proof.
  induction l as [|[k' v] l IH]; [done|]. rewrite fmap_cons. cbn [dict_get as_str item_get].
  destruct (String.eqb_spec k' k) as [->|Hne]; [by rewrite decide_True|]. rewrite decide_False by congruence. exact IH.
Qed.

Lemma item_get_app k l l' : item_get k (l ++ l') = match item_get k l with Some v => Some v | None => item_get k l' end.
Proof. induction l as [|[k' v] l IH]; [done|]. cbn [app item_get]. destruct (String.eqb k' k); [done|exact IH]. Qed.

Lemma recovery_string_Ok v hi s : _recovery_bounded_string v hi = Ok s → _recovery_bounded_string (VStr s) hi = Ok s.
Proof. unfold _recovery_bounded_string. destruct v; try done. intros H. run_outcome H. apply Ok_inj in H as <-. by rewrite Hb. Qed.

Lemma recovery_int_Ok v lo hi z : _recovery_bounded_int v lo hi = Ok z → _recovery_bounded_int (VInt z) lo hi = Ok z.
Proof. unfold _recovery_bounded_int. destruct v; try done. intros H. run_outcome H. apply Ok_inj in H as <-. by rewrite Hb. Qed.

(** Each optional part of a payload: its keys, and that it reads back from any
    dict that agrees with it on its keys *)
Definition reads_again (keys : list string) (f : dict → outcome exn (list (string * pyval)))
    (l : list (string * pyval)) : Prop :=
  (∀ k, k ∉ keys → item_get k l = None) ∧
  ∀ p, (∀ k, k ∈ keys → dict_get k p = item_get k l) → f p = Ok l.

Ltac no_item :=
  let k := fresh "k" in let Hk := fresh "Hk" in
  intros k Hk; cbn [item_get];
  repeat match goal with |- context [String.eqb ?a k] => destruct (String.eqb_spec a k) as [<-|]; [exfalso; apply Hk; set_solver|] end;
  reflexivity.

Lemma ticks_again d l : recovery_ticks d = Ok l → reads_again ["ticks"; "max_recovery_ticks"] recovery_ticks l.
Proof.
  unfold recovery_ticks at 1. intros H.
  assert (Hread : ∀ p l, (∀ k, k ∈ ["ticks"; "max_recovery_ticks"] → dict_get k p = item_get k l) →
    dict_get "ticks" p = item_get "ticks" l ∧ dict_get "max_recovery_ticks" p = item_get "max_recovery_ticks" l).
  { intros p l' Hp. split; apply Hp; decide_list. }
  destruct (has_key "ticks" d); [|destruct (has_key "max_recovery_ticks" d)].
  - apply outcome_bind_Ok in H as (t & Ht & H). apply recovery_int_Ok in Ht.
    destruct (has_key "max_recovery_ticks" d).
    + apply outcome_bind_Ok in H as (m & Hm & H). apply recovery_int_Ok in Hm. run_outcome H. apply Ok_inj in H as <-.
      split; [no_item|]. intros p [P1 P2]%Hread. unfold recovery_ticks, has_key, at_key, dict_get_or. rewrite P1, P2.
      cbn -[_recovery_bounded_int]. rewrite Ht, Hm. cbn [outcome_bind]. by rewrite Hb.
    + apply Ok_inj in H as <-. split; [no_item|]. intros p [P1 P2]%Hread.
      unfold recovery_ticks, has_key, at_key, dict_get_or. rewrite P1, P2. cbn -[_recovery_bounded_int]. by rewrite Ht.
  - apply outcome_bind_Ok in H as (m & Hm & H). apply recovery_int_Ok in Hm. apply Ok_inj in H as <-.
    split; [no_item|]. intros p [P1 P2]%Hread. unfold recovery_ticks, has_key, at_key, dict_get_or. rewrite P1, P2.
    cbn -[_recovery_bounded_int]. by rewrite Hm.
  - apply Ok_inj in H as <-. split; [no_item|]. intros p [P1 P2]%Hread. unfold recovery_ticks, has_key. by rewrite P1, P2.
Qed.

Lemma version_again d l : recovery_policy_version d = Ok l → reads_again ["policy_version"] recovery_policy_version l.
Proof.
  unfold recovery_policy_version at 1. intros H. destruct (has_key "policy_version" d).
  - apply outcome_bind_Ok in H as (v & Hv & H). apply recovery_string_Ok in Hv. apply Ok_inj in H as <-.
    split; [no_item|]. intros p Hp. unfold recovery_policy_version, has_key, at_key, dict_get_or.
    rewrite Hp by decide_list. cbn -[_recovery_bounded_string]. by rewrite Hv.
  - apply Ok_inj in H as <-. split; [no_item|]. intros p Hp. unfold recovery_policy_version, has_key.
    by rewrite Hp by decide_list.
Qed.

Lemma ownership_shape d b l : recovery_ownership d b = Ok l → l = [("runtime_owned", VBool b)].
Proof.
  unfold recovery_ownership. intros H. destruct (dict_get _ _) as [[]|]; try done; run_outcome H; by apply Ok_inj in H as <-.
Qed.

Lemma ownership_again d b l : recovery_ownership d b = Ok l → reads_again ["runtime_owned"] (λ p, recovery_ownership p b) l.
Proof.
  intros ->%ownership_shape.
  split; [no_item|]. intros p Hp. unfold recovery_ownership. rewrite Hp by decide_list. cbn. by rewrite Bool.eqb_reflx.
Qed.

Lemma outcome_shape d c a l :
  recovery_outcome d c a = Ok l →
  str_in a RECOVERY_TERMINAL_ACTIONS = c ∧
  l = if c then [("outcome", VStr (if String.eqb a "safe_stop" then "stopped" else "aborted"))] else [].
Proof.
  unfold recovery_outcome. intros H. destruct c; run_outcome H; apply Ok_inj in H as <-; (split; [|done]); [done|].
  by apply negb_true_iff.
Qed.

Lemma outcome_again d c a l : recovery_outcome d c a = Ok l → reads_again ["outcome"] (λ p, recovery_outcome p c a) l.
Proof.
  unfold recovery_outcome. intros H. destruct c; run_outcome H; apply Ok_inj in H as <-; (split; [no_item|]); intros p Hp.
  - unfold dict_get_or. rewrite Hp by decide_list. cbn. by rewrite String.eqb_refl.
  - done.
Qed.

Lemma refs_again d l : recovery_refs d = Ok l → reads_again ["evidence_refs"] recovery_refs l.
Proof.
  unfold recovery_refs. intros H. destruct (at_key "evidence_refs" d) as [| | | | | |refs| | | | |]; try done.
  - apply Ok_inj in H as <-. split; [no_item|]. intros p Hp. unfold at_key, dict_get_or. by rewrite Hp by decide_list.
  - run_outcome H. apply Ok_inj in H as <-. split; [no_item|]. intros p Hp. unfold at_key, dict_get_or.
    rewrite Hp by decide_list. cbn -[MAX_RECOVERY_EVIDENCE_REFS outcome_map Nat.leb]. apply outcome_map_Ok in Hv.
    rewrite length_fmap, <-(Forall2_length _ _ _ Hv), Hb.
    assert (outcome_map (λ r, _recovery_bounded_string r MAX_RECOVERY_ID_LENGTH) (VStr <$> v) = Ok v) as ->; [|done].
    apply outcome_map_Ok. clear -Hv. induction Hv as [|r s rs ss Hr Hv IH]; [constructor|].
    constructor; [by eapply recovery_string_Ok|done].
Qed.

(** The required part of a normalized payload *)
Definition recovery_head (id task : string) (action : pyval) (state : string) (attempt most : Z) (code reason : string)
    : list (string * pyval) :=
  [("recovery_id", VStr id); ("task_id", VStr task); ("action", action); ("state", VStr state);
   ("attempt", VInt attempt); ("max_attempts", VInt most); ("reason_code", VStr code); ("reason", VStr reason)].

Lemma bounded_int_range v lo hi z : _recovery_bounded_int v lo hi = Ok z → lo <= z <= hi.
Proof. unfold _recovery_bounded_int. destruct v; try done. intros H. run_outcome H. apply Ok_inj in H as <-. lia. Qed.

Lemma not_in_get k l keys f : reads_again keys f l → bool_decide (k ∈ keys) = false → item_get k l = None.
Proof. intros [H _] Hk. apply H. by apply bool_decide_eq_false in Hk. Qed.

(** A part's keys are read from it: the parts have no key in common *)
Lemma part_reads keys f l before after :
  reads_again keys f l → (∀ k, k ∈ keys → item_get k before = None) → (∀ k, k ∈ keys → item_get k after = None) →
  f ((λ '(k, v), (VStr k, v)) <$> (before ++ l ++ after)) = Ok l.
Proof.
  intros [_ H] Hb Ha. apply H. intros k Hk. rewrite dict_get_items, !item_get_app, (Hb k Hk), (Ha k Hk). by case_match.
Qed.

Lemma item_get_keys k l : k ∈ l.*1 → item_get k l ≠ None.
Proof.
  induction l as [|[k' v] l IH]; [by intros ?%elem_of_nil|]. cbn [fmap list_fmap fst item_get].
  intros [->|Hk]%elem_of_cons; [by rewrite String.eqb_refl|]. case_match; [done|by apply IH].
Qed.

Lemma part_keys keys f l k : reads_again keys f l → k ∈ l.*1 → k ∈ keys.
Proof. intros [H _] Hk%item_get_keys. destruct (decide (k ∈ keys)) as [|Hn]; [done|]. by destruct (Hk (H k Hn)). Qed.

Section RecoveryAgain.
Context (complete : bool) (rid task state code reason : string) (value_ : pyval) (action : string) (attempt most : Z).
Context (tk ver own out refs : list (string * pyval)).

Let parts := tk ++ ver ++ own ++ out ++ refs.
Let p : dict := (λ '(k, v), (VStr k, v)) <$> (recovery_head rid task value_ state attempt most code reason ++ parts).

Context (Hid : _recovery_bounded_string (VStr rid) MAX_RECOVERY_ID_LENGTH = Ok rid)
  (Htask : _recovery_bounded_string (VStr task) MAX_RECOVERY_ID_LENGTH = Ok task)
  (Hcode : _recovery_bounded_string (VStr code) MAX_RECOVERY_ID_LENGTH = Ok code)
  (Hreason : _recovery_bounded_string (VStr reason) MAX_RECOVERY_REASON_LENGTH = Ok reason)
  (Hstate : _recovery_bounded_string (VStr state) MAX_RECOVERY_ID_LENGTH = Ok state)
  (Hattempt : _recovery_bounded_int (VInt attempt) 0 MAX_RECOVERY_ATTEMPTS = Ok attempt)
  (Hmost : _recovery_bounded_int (VInt most) 1 MAX_RECOVERY_ATTEMPTS = Ok most)
  (Hle : (attempt <=? most) = true) (Hhash : hashable value_ = true)
  (Hact : as_str value_ = Some action) (Hknown : str_in action RECOVERY_ACTIONS = true).
Context (Rt : reads_again ["ticks"; "max_recovery_ticks"] recovery_ticks tk)
  (Rv : reads_again ["policy_version"] recovery_policy_version ver)
  (Ro : reads_again ["runtime_owned"] (λ p, recovery_ownership p (str_in action RECOVERY_RUNTIME_OWNED_ACTIONS)) own)
  (Ru : reads_again ["outcome"] (λ p, recovery_outcome p complete action) out)
  (Rr : reads_again ["evidence_refs"] recovery_refs refs).

Lemma recovery_get k : dict_get k p = item_get k (recovery_head rid task value_ state attempt most code reason ++ parts).
Proof. apply dict_get_items. Qed.

Lemma recovery_keys : forallb (key_in (_RECOVERY_REQUIRED_FIELDS ++ recovery_optional_fields)) p.*1 = true.
Proof using Rt Rv Ro Ru Rr.
  apply forallb_forall. intros k0. rewrite <-list_elem_of_In. unfold p.
  intros (kv & -> & Hkv)%list_elem_of_fmap. apply list_elem_of_fmap in Hkv as ([k v] & -> & Hin).
  unfold key_in. cbn [fst as_str]. apply str_in_spec.
  assert (Hk : k ∈ (recovery_head rid task value_ state attempt most code reason ++ parts).*1)
    by (apply list_elem_of_fmap; by exists (k, v)).
  rewrite fmap_app, elem_of_app in Hk. destruct Hk as [Hk|Hk]; [apply elem_of_app; left; exact Hk|].
  apply elem_of_app. right. unfold parts in Hk. rewrite !fmap_app, !elem_of_app in Hk.
  destruct Hk as [Hk|[Hk|[Hk|[Hk|Hk]]]]; (eapply part_keys in Hk; [|done]);
    clear Hin; repeat (apply elem_of_cons in Hk as [->|Hk]; [decide_list|]); by apply elem_of_nil in Hk.
Qed.

(** The other parts do not hold the keys of a part *)
Ltac skip_part R :=
  match type of R with reads_again _ _ ?l =>
    match goal with |- context [item_get ?k l] => rewrite (not_in_get k l _ _ R eq_refl) end end.
Ltac find_item :=
  rewrite recovery_get; unfold parts; rewrite !item_get_app;
  repeat first [skip_part Rt|skip_part Rv|skip_part Ro|skip_part Ru|skip_part Rr]; cbn; by repeat case_match.
Ltac read_part R :=
  apply R; let k := fresh "k" in let Hk := fresh "Hk" in intros k Hk;
  repeat (apply elem_of_cons in Hk as [->|Hk]; [find_item|]);
  by apply elem_of_nil in Hk.

Lemma recovery_lookups :
  dict_get "action" p = Some value_ ∧ dict_get "attempt" p = Some (VInt attempt) ∧
  dict_get "max_attempts" p = Some (VInt most) ∧
  dict_get "runtime_owned" p = item_get "runtime_owned" own ∧ dict_get "outcome" p = item_get "outcome" out.
Proof using Rt Rv Ro Ru Rr. split_and!; find_item. Qed.

Lemma recovery_parts :
  recovery_ticks p = Ok tk ∧ recovery_policy_version p = Ok ver ∧
  recovery_ownership p (str_in action RECOVERY_RUNTIME_OWNED_ACTIONS) = Ok own ∧
  recovery_outcome p complete action = Ok out ∧ recovery_refs p = Ok refs.
Proof using Rt Rv Ro Ru Rr. split_and!; [read_part Rt|read_part Rv|read_part Ro|read_part Ru|read_part Rr]. Qed.

Lemma recovery_again : normalize_recovery_payload p complete = Ok p.
Proof using All.
  unfold normalize_recovery_payload.
  assert (forallb (λ k, has_key k p) _RECOVERY_REQUIRED_FIELDS = true) as ->.
  { unfold has_key, _RECOVERY_REQUIRED_FIELDS. cbn [forallb]. rewrite !recovery_get. reflexivity. }
  rewrite recovery_keys. unfold at_key, dict_get_or. rewrite !recovery_get.
  cbn [recovery_head app item_get String.eqb Ascii.eqb Bool.eqb from_option id].
  rewrite Hid. cbn [outcome_bind]. rewrite Htask. cbn [outcome_bind]. rewrite Hcode. cbn [outcome_bind].
  rewrite Hreason. cbn [outcome_bind]. rewrite Hhash, Hact, Hknown, Hstate. cbn [outcome_bind].
  rewrite Hattempt. cbn [outcome_bind]. rewrite Hmost. cbn [outcome_bind]. rewrite Hle.
  destruct recovery_parts as (-> & -> & -> & -> & ->). reflexivity.
Qed.
End RecoveryAgain.

(** ** The whole payload *)

(** What a normalized recovery payload says *)
Record recovery_claim (complete : bool) (p : dict) (action : string) (attempt most : Z) : Prop := {
  rc_action : ∃ v, dict_get "action" p = Some v ∧ as_str v = Some action;
  rc_known : action ∈ RECOVERY_ACTIONS;
  rc_attempt : dict_get "attempt" p = Some (VInt attempt) ∧ dict_get "max_attempts" p = Some (VInt most) ∧
    0 <= attempt <= most ∧ most <= MAX_RECOVERY_ATTEMPTS;
  rc_owner : dict_get "runtime_owned" p = Some (VBool (bool_decide (action = "safe_stop")));
  rc_terminal : (complete = true ↔ action ∈ RECOVERY_TERMINAL_ACTIONS);
  rc_outcome : dict_get "outcome" p =
    if complete then Some (VStr (if bool_decide (action = "safe_stop") then "stopped" else "aborted")) else None
}.

Lemma eqb_decide (a b : string) : String.eqb a b = bool_decide (a = b).
Proof. destruct (String.eqb_spec a b); [by rewrite bool_decide_eq_true_2|by rewrite bool_decide_eq_false_2]. Qed.

Lemma recovery_inv d complete p :
  normalize_recovery_payload d complete = Ok p →
  normalize_recovery_payload p complete = Ok p ∧ ∃ action attempt most, recovery_claim complete p action attempt most.
Proof.
  intros H. unfold normalize_recovery_payload in H. run_outcome H.
  destruct (as_str (at_key "action" d)) as [action|] eqn:Hact; [|done]. run_outcome H. apply Ok_inj in H as <-.
  pose proof (ticks_again _ _ Hv6) as Rt. pose proof (version_again _ _ Hv7) as Rv.
  pose proof (ownership_again _ _ _ Hv8) as Ro. pose proof (outcome_again _ _ _ _ Hv9) as Ru.
  pose proof (refs_again _ _ Hv10) as Rr. split.
  - apply recovery_again with (action := action); eauto using recovery_string_Ok, recovery_int_Ok.
  - exists action, v4, v5.
    destruct (recovery_lookups complete v v0 v3 v1 v2 (at_key "action" d) action v4 v5 v6 v7 v8 v9 v10 Rt Rv Ro Ru Rr)
      as (Pa & Pt & Pm & Po & Pu).
    apply ownership_shape in Hv8 as ->. apply outcome_shape in Hv9 as [Hterm ->].
    apply bounded_int_range in Hv4, Hv5. split; [eauto|by apply str_in_spec| | | |].
    + split_and!; try done; lia.
    + etransitivity; [exact Po|]. cbn [item_get String.eqb Ascii.eqb Bool.eqb]. do 2 f_equal.
      unfold str_in, RECOVERY_RUNTIME_OWNED_ACTIONS. apply bool_decide_ext. by rewrite list_elem_of_singleton.
    + rewrite <-Hterm. apply str_in_spec.
    + etransitivity; [exact Pu|]. rewrite <-eqb_decide. by destruct complete.
Qed.

(** ** [normalize_world_event] *)

Lemma with_payload_again e p q : with_payload (with_payload e p) q = with_payload e q.
Proof. done. Qed.

Lemma normalize_again e x n :
  non_blank (occurred_at e) = true → normalize_world_event e x = Ok n → normalize_world_event n x = Ok n.
Proof.
  intros Hocc H. unfold normalize_world_event in H. destruct (event_type e) eqn:Ht; run_outcome H; apply Ok_inj in H as <-;
    unfold normalize_world_event; cbn [event_type with_payload]; rewrite ?Ht; try done.
  - by rewrite (observation_again _ _ Hocc Hv).
  - cbn [payload with_payload event_run_id event_evidence_refs]. by rewrite (result_payload_again _ _ _ _ _ Hv).
  - cbn [payload with_payload]. by destruct (recovery_inv _ _ _ Hv) as [-> _].
  - cbn [payload with_payload]. by destruct (recovery_inv _ _ _ Hv) as [-> _].
Qed.
