(* ===== verification/ReducerTheorems.v ===== *)
(** * World-model reducer: theorems

    Replay does not depend on arrival order, every reachable state is consistent,
    an event touches one entity, newer beliefs survive late observations, and
    normalized payloads are fixed points. *)

From Stdlib Require Import ZArith Ascii String SpecFloat.
From S2P Require Import Prelude PyVal Json DateTime Contracts ObservedAttributes EventPayloads Aging Reducer ReducerInvariant EventPayloadProofs.
Local Open Scope Z_scope.

(** ** A small run *)

Definition box_event (id : string) (n : Z) (p : dict) : WorldEvent :=
  {| event_id := id; event_run_id := "run-1"; sequence_no := n; event_type := WorldEventType.OBSERVATION;
     occurred_at := "2026-01-01T00:00:00Z"; payload := p; recorded_at := None; event_clock_id := None;
     event_evidence_refs := ["frame-" +:+ id] |}.

Definition box_payload (time mode : string) (attributes : dict) : dict :=
  [(VStr "entity_id", VStr "box-1"); (VStr "entity_type", VStr "parcel"); (VStr "observed_at", VStr time);
   (VStr "clock_id", VStr "wall"); (VStr "source", VStr "camera"); (VStr "confidence", VInt 1);
   (VStr "location", VStr "on:table-1"); (VStr "attributes", VDict attributes); (VStr "attributes_mode", VStr mode);
   (VStr "attributes_schema_version", VStr "observed-attributes-v1")].

Definition box_seen : WorldEvent :=
  box_event "a" 1 (box_payload "2026-01-01T00:00:00Z" "complete" [(VStr "condition", VStr "intact")]).
Definition box_read : WorldEvent :=
  box_event "b" 2 (box_payload "2026-01-01T00:00:05Z" "partial" [(VStr "label_status", VStr "verified")]).
Definition box_late : WorldEvent :=
  box_event "c" 3 (box_payload "2026-01-01T00:00:02Z" "partial" [(VStr "label_status", VStr "missing")]).

Definition box_state : WorldState :=
  match reduce_events "run-1" [box_seen; box_read] None None with Ok s => s | Raise _ => new_state "" end.

Lemma box_state_reduced : reduce_events "run-1" [box_seen; box_read] None None = Ok box_state.
Proof. vm_compute. reflexivity. Qed.

(** ** Replay *)

Lemma reduce_ignores_order run l l' policy boundary s :
  identified l → (∀ e, e ∈ l ↔ e ∈ l') →
  reduce_events run l policy boundary = Ok s ↔ reduce_events run l' policy boundary = Ok s.
Proof.
  intros Hid Hset. unfold reduce_events. rewrite !outcome_bind_Ok.
  assert (Hid' : identified l') by (by eapply identified_set).
  split; intros (o & Ho & H); exists o; (split; [|done]).
  - by apply (stream_of_set run l l').
  - apply (stream_of_set run l' l); [done| |done]. intros e. symmetry. apply Hset.
Qed.

(** C12: replay does not depend on the order in which events arrive nor on how
    often each arrives, with or without ageing at a boundary.  If no two different
    events of a list share an identifier, every list with the same events is
    reduced to the same state, or neither is accepted; and a list that holds, in
    any position, two events of one identifier whose canonical contents differ is
    refused. *)
Theorem replay_ignores_order_and_copies run l policy boundary :
  (identified l → ∀ l' s, (∀ e, e ∈ l ↔ e ∈ l') →
     reduce_events run l policy boundary = Ok s ↔ reduce_events run l' policy boundary = Ok s) ∧
  (∀ e e', e ∈ l → e' ∈ l → event_id e = event_id e' → content_of e ≠ content_of e' →
     ∃ x, reduce_events run l policy boundary = Raise x).
Proof.
  split; [intros; by apply reduce_ignores_order|]. intros e e' He He' Hid Hne. unfold reduce_events.
  destruct (_validated_event_stream run l) as [o|x] eqn:Hv; [|by eexists].
  by destruct (conflicting_copies_refused run l e e' He He' Hid Hne o).
Qed.

Lemma box_identified : identified [box_seen; box_read].
Proof.
  intros e e'. rewrite !elem_of_cons, !elem_of_nil. intros [->|[->|[]]] [->|[->|[]]] Heq; done.
Qed.

(** Another event under the identifier of the first one *)
Definition box_forged : WorldEvent :=
  box_event "a" 7 (box_payload "2026-01-01T00:00:00Z" "complete" [(VStr "condition", VStr "damaged")]).

Lemma replay_ignores_order_and_copies_witness :
  entity_attributes box_state !! "box-1" = Some {["condition" := "intact"; "label_status" := "verified"]} ∧
  reduce_events "run-1" [box_read; box_seen; box_read] None None = Ok box_state ∧
  ∃ x, reduce_events "run-1" [box_seen; box_read; box_forged] None None = Raise x.
Proof.
  split; [vm_compute; reflexivity|]. split.
  - refine (proj1 (proj1 (replay_ignores_order_and_copies "run-1" [box_seen; box_read] None None) box_identified
      [box_read; box_seen; box_read] box_state _) box_state_reduced).
    intros e. rewrite !elem_of_cons, !elem_of_nil. tauto.
  - refine (proj2 (replay_ignores_order_and_copies "run-1" [box_seen; box_read; box_forged] None None)
      box_seen box_forged _ _ eq_refl _); [left|right; right; left|vm_compute; discriminate].
Defined.

(** C13: every state that [reduce_events] returns without a freshness policy and
    an ageing boundary is consistent: beliefs, confidences and types are about the
    same entities, an entity with a location, a time or attributes is a known
    entity, every location has a belief and evidence, every attribute is in the
    bounded vocabulary with an allowed value and has validated metadata, evidence
    lists and applied event identifiers have no duplicates.  With a policy and a
    boundary it returns exactly the aged form of that consistent state (in which
    beliefs and attribute metadata may differ). *)
Theorem reduced_state_is_consistent run l policy boundary s :
  reduce_events run l policy boundary = Ok s →
  ∃ s0, reduce_events run l None None = Ok s0 ∧ consistent s0 ∧
    s = match policy, boundary with Some p, Some b => age_world_state s0 p b | _, _ => s0 end.
Proof.
  unfold reduce_events. intros H. apply outcome_bind_Ok in H as (o & Ho & H). apply outcome_bind_Ok in H as (s0 & Hs & H).
  exists s0. rewrite Ho. simpl. rewrite Hs. simpl. split; [done|]. split.
  - eapply apply_events_consistent; [apply consistent_new|done].
  - unfold _apply_aging_boundary in H. destruct policy, boundary; try done; by apply Ok_inj in H.
Qed.

Lemma reduced_state_is_consistent_witness :
  applied_event_ids box_state = ["a"; "b"] ∧
  ∃ s0, reduce_events "run-1" [box_seen; box_read] None None = Ok s0 ∧ consistent s0 ∧ box_state = s0.
Proof.
  split; [vm_compute; reflexivity|].
  apply (reduced_state_is_consistent "run-1" [box_seen; box_read] None None box_state). exact box_state_reduced.
Defined.

(** An event changes what is known of at most one entity: the one that an
    observation names.  Action results, verifications, recovery events and all
    other events change nothing but the list of applied events and its evidence;
    in particular a reported [resulting_location] never moves an entity. *)
Theorem events_change_only_the_observed_entity s e s' x :
  apply_event s e = Ok s' → observed_entity e ≠ Some x → view s' x = view s x.
Proof.
  intros [[_ ->]|(_ & n & Hn & [[_ ->]|[Ht H]])]%apply_event_cases Hx; [done|apply view_record|].
  destruct (normalize_observation _ _ Hn Ht) as (p & Hp & ->).
  destruct (observation_entity _ _ Hp) as (id & Hid & _ & Hp').
  apply (apply_observation_frame s _ s' x H); simpl; rewrite Hp'; [|done].
  unfold observed_entity, text_field in Hx. by rewrite decide_True, Hid in Hx by done.
Qed.

(** The pick of the box is reported as completed with the box in the bin *)
Definition box_placed : WorldEvent :=
  {| event_id := "r"; event_run_id := "run-1"; sequence_no := 9; event_type := WorldEventType.ACTION_RESULT;
     occurred_at := "2026-01-01T00:00:09Z"; recorded_at := None; event_clock_id := None; event_evidence_refs := [];
     payload := [(VStr "result_id", VStr "res-1"); (VStr "action_id", VStr "a1"); (VStr "run_id", VStr "run-1");
       (VStr "outcome", VStr "completed"); (VStr "dispatch_state", VStr "sent"); (VStr "device_state", VStr "confirmed");
       (VStr "started_at", VStr "1.0"); (VStr "ended_at", VStr "2.0"); (VStr "entity_id", VStr "box-1");
       (VStr "resulting_location", VStr "in:bin-1")] |}.

Definition after_result : WorldState :=
  match apply_event box_state box_placed with Ok s => s | Raise _ => new_state "" end.

Lemma events_change_only_the_observed_entity_witness :
  applied_event_ids after_result = ["a"; "b"; "r"] ∧ v_location (view after_result "box-1") = Some "on:table-1" ∧
  view after_result "box-1" = view box_state "box-1".
Proof.
  split; [vm_compute; reflexivity|]. split; [vm_compute; reflexivity|].
  apply (events_change_only_the_observed_entity box_state box_placed after_result "box-1").
  - vm_compute. reflexivity.
  - vm_compute. discriminate.
Defined.

(** ** Late observations *)

(** The view without its attributes and evidence *)
Definition situation (v : entity_view) : entity_view := {|
  v_type := v_type v; v_pose := v_pose v; v_observed_at := v_observed_at v; v_clock := v_clock v;
  v_source := v_source v; v_belief := v_belief v; v_location := v_location v;
  v_location_evidence := v_location_evidence v; v_location_observed_at := v_location_observed_at v;
  v_location_clock := v_location_clock v; v_location_source := v_location_source v;
  v_location_belief := v_location_belief v; v_confidence := v_confidence v; v_attributes := None; v_baseline := None;
  v_metadata := None; v_version := None; v_evidence := None |}.

(** The value and the metadata that a state holds for an attribute *)
Definition held_value (s : WorldState) (x k : string) : option string := entity_attributes s !! x ≫= λ a, a !! k.
Definition held_metadata (s : WorldState) (x k : string) : option pyval := entity_attribute_metadata s !! x ≫= λ m, m !! k.
(** The metadata that an observation brings *)
Definition incoming_metadata (n : WorldEvent) (k : string) : pyval :=
  default VNone (metadata_of (dict_get_or "attribute_metadata" (payload n) (VDict [])) !! k).

Lemma merge_keeps s id a m v k cur :
  held_metadata s id k = Some cur → accepts_key (default ∅ (entity_attribute_metadata s !! id)) m k = false →
  held_metadata (merge_partial s id a m v) id k = Some cur ∧ held_value (merge_partial s id a m v) id k = held_value s id k.
Proof.
  unfold held_metadata, held_value, merge_partial. intros Hh Hacc. case_decide; [done|]. simpl.
  rewrite !lookup_insert. case_decide; [|done]. simpl.
  assert (filter (λ kv, accepts_key (default ∅ (entity_attribute_metadata s !! id)) m kv.1 = true) a !! k = None) as Hn.
  { apply map_lookup_filter_None. right. intros w _. simpl. congruence. }
  rewrite !lookup_union_r; [|done|].
  - destruct (entity_attribute_metadata s !! id); [|done]. destruct (entity_attributes s !! id); done.
  - apply map_lookup_filter_None. right. intros w _. simpl. rewrite Hn. by intros [? ?].
Qed.

Lemma situation_set_attributes s id a m ap v : situation (view (set_attributes s id a m ap v) id) = situation (view s id).
Proof. done. Qed.

Lemma situation_attributes s id p older s' :
  _apply_observed_attributes s id p older = Ok s' → situation (view s' id) = situation (view s id).
Proof.
  intros [->|(v & _ & _ & [(_ & _ & ->)|(_ & _ & ->)])]%apply_attributes_cases; try done.
  unfold merge_partial. by case_decide.
Qed.

(** The attribute maps before the attribute step are the ones of the old state *)
Lemma observe_attributes s id p refs :
  entity_attributes (observe_entity s id p refs) = entity_attributes s ∧
  entity_attribute_metadata (observe_entity s id p refs) = entity_attribute_metadata s.
Proof. unfold observe_entity, _update_location. destruct (text_field _ _); [by case_decide|done]. Qed.

Lemma observation_steps s n s' x :
  apply_observation s n = Ok s' → text_field "entity_id" (payload n) = Some x →
  ∃ s2 s3, _apply_observed_attributes s2 x (payload n) (_observation_is_provably_older s x (payload n)) = Ok s3 ∧
    entity_attributes s2 = entity_attributes s ∧ entity_attribute_metadata s2 = entity_attribute_metadata s ∧
    entity_attributes s' = entity_attributes s3 ∧ entity_attribute_metadata s' = entity_attribute_metadata s3 ∧
    (_observation_is_provably_older s x (payload n) = true → view s2 x = view s x ∧ s' = s3).
Proof.
  unfold apply_observation. intros H Hx. rewrite Hx in H. simpl in H. run_outcome H. apply Ok_inj in H as <-.
  destruct (_observation_is_provably_older s x (payload n)) eqn:Ho.
  - eexists _, _. split; [exact Hv|]. done.
  - eexists _, _. split; [exact Hv|].
    destruct (observe_attributes (record_event s n (has_key "entity_type" (payload n))) x (payload n) (event_evidence_refs n))
      as [-> ->]. by destruct (_ && _).
Qed.

(** Newer beliefs survive late observations.  An observation that is provably
    older than the last one of its entity changes neither type, pose, times,
    source, belief, location nor confidence, and changes nothing at all unless it
    is a partial attribute update; and a partial update, however old the rest of
    it, leaves every attribute alone whose held metadata is provably newer. *)
Theorem newer_beliefs_survive s e n s' x :
  apply_event s e = Ok s' → normalize_world_event e None = Ok n → event_id e ∉ applied_event_ids s →
  observed_entity n = Some x →
  (_observation_is_provably_older s x (payload n) = true →
     situation (view s' x) = situation (view s x) ∧ (is_partial (payload n) = false → view s' x = view s x)) ∧
  (is_partial (payload n) = true → ∀ k cur, held_metadata s x k = Some cur →
     _attribute_metadata_is_provably_older cur (incoming_metadata n k) = true →
     held_metadata s' x k = Some cur ∧ held_value s' x k = held_value s x k).
Proof.
  intros [[Hin _]|(_ & n' & Hn' & Hcase)]%apply_event_cases Hn Hnew Hx; [done|].
  rewrite Hn in Hn'. apply Ok_inj in Hn' as <-. destruct (normalize_keeps _ _ _ Hn) as (_ & _ & _ & Ht & _).
  unfold observed_entity in Hx. case_decide as Hob; [|done]. destruct Hcase as [[Hno _]|[_ H]]; [congruence|].
  destruct (observation_steps _ _ _ _ H Hx) as (s2 & s3 & H3 & Ha & Hm & Ha' & Hm' & Hold).
  split.
  - intros Ho. destruct (Hold Ho) as [Hv ->]. split; [by rewrite (situation_attributes _ _ _ _ _ H3), Hv|].
    intros Hp. rewrite <-Hv. rewrite Ho in H3. apply apply_attributes_cases in H3 as [->|(v & _ & _ & [(? & _)|(_ & ? & _)])];
      [done|done|congruence].
  - intros Hp k cur Hk Holder. unfold held_metadata, held_value in *. rewrite Ha', Hm', <-Ha. rewrite <-Hm in Hk.
    apply apply_attributes_cases in H3 as [->|(v & _ & _ & [(_ & ? & _)|(_ & _ & ->)])]; [done|congruence|].
    apply merge_keeps; [done|]. unfold accepts_key. destruct (entity_attribute_metadata s2 !! x); [|done].
    simpl in Hk |- *. rewrite Hk. by apply negb_false_iff.
Qed.

Definition late_state : WorldState := match apply_event box_state box_late with Ok s => s | Raise _ => new_state "" end.
Definition late_event : WorldEvent := match normalize_world_event box_late None with Ok n => n | Raise _ => box_late end.

Lemma newer_beliefs_survive_witness :
  _observation_is_provably_older box_state "box-1" (payload late_event) = true ∧
  held_value late_state "box-1" "label_status" = held_value box_state "box-1" "label_status" ∧
  situation (view late_state "box-1") = situation (view box_state "box-1").
Proof.
  assert (Hs : apply_event box_state box_late = Ok late_state) by (vm_compute; reflexivity).
  assert (Hn : normalize_world_event box_late None = Ok late_event) by (vm_compute; reflexivity).
  assert (Hnew : event_id box_late ∉ applied_event_ids box_state) by decide_list.
  assert (Hx : observed_entity late_event = Some "box-1") by (vm_compute; reflexivity).
  destruct (newer_beliefs_survive box_state box_late late_event late_state "box-1" Hs Hn Hnew Hx) as [H1 H2].
  assert (Ho : _observation_is_provably_older box_state "box-1" (payload late_event) = true) by (vm_compute; reflexivity).
  split; [exact Ho|]. split; [|apply H1; exact Ho].
  destruct (held_metadata box_state "box-1" "label_status") as [cur|] eqn:Hc; [|vm_compute in Hc; discriminate Hc].
  refine (proj2 (H2 _ "label_status" cur Hc _)); [vm_compute; reflexivity|].
  vm_compute in Hc. injection Hc as <-. vm_compute. reflexivity.
Defined.

(** An observation that gives a time but no clock replaces the time and keeps
    the clock of the observation before it: the pair that the state then holds,
    and that ageing and the ordering of later observations rely on, was never
    reported.  The new time replaces the old one even when it is earlier. *)
Theorem omitted_clock_keeps_the_old_clock s e s' x t :
  apply_event s e = Ok s' → event_id e ∉ applied_event_ids s → observed_entity e = Some x →
  dict_get "observed_at" (payload e) = Some (VStr t) → dict_get "clock_id" (payload e) = None →
  has_key "attributes" (payload e) = false →
  entity_last_observed_at s' !! x = Some t ∧
  entity_observation_clock_ids s' !! x = entity_observation_clock_ids s !! x.
Proof.
  intros [[Hin _]|(_ & n & Hn & Hcase)]%apply_event_cases Hnew Hx Ht Hc Ha; [done|].
  unfold observed_entity in Hx. case_decide as Hob; [|done]. destruct Hcase as [[Hno _]|[_ H]]; [done|].
  destruct (normalize_observation _ _ Hn Hob) as (p & Hp & ->).
  assert (text_field "entity_id" p = Some x ∧ dict_get "observed_at" p = Some (VStr t) ∧ non_blank t = true ∧
    dict_get "clock_id" p = None ∧ has_key "attributes" p = false) as (P1 & P2 & P3 & P4 & P5).
  { unfold _normalize_observation_payload in Hp. apply outcome_bind_Ok in Hp as (h & Hh & Hp).
    unfold has_key, text_field in *. rewrite !dict_get_set_ne, Ha in Hp by done. run_outcome Hp. apply Ok_inj in Hp as <-.
    rewrite !dict_get_set_ne, Ha, Ht, Hc by done. split_and!; try done. unfold observation_fields in Hh. run_outcome Hh.
    unfold optional_text in Hv1. rewrite Ht in Hv1. apply outcome_bind_Ok in Hv1 as (t' & Ht' & _).
    by apply strict_text_Ok in Ht' as [[= ->] ?]. }
  unfold apply_observation in H. simpl in H. rewrite P1 in H. simpl in H. run_outcome H. apply Ok_inj in H as <-.
  assert (_observation_is_provably_older s x p = false) as Ho.
  { unfold _observation_is_provably_older, comparable_wall_observation_is_older, at_key, dict_get_or. rewrite P4.
    case_decide; [done|]. destruct (negb (is_wall (get_str _ _))); reflexivity. }
  rewrite Ho in Hv. unfold _apply_observed_attributes in Hv. rewrite P5 in Hv. apply Ok_inj in Hv as <-.
  assert (Hobs : ∀ s, entity_last_observed_at (observe_entity s x p (event_evidence_refs e)) !! x = Some t ∧
    entity_observation_clock_ids (observe_entity s x p (event_evidence_refs e)) !! x = entity_observation_clock_ids s !! x).
  { intros s0. unfold observe_entity. destruct (match text_field "location" p with Some _ => _ | None => _ end) as [[??]?].
    simpl. unfold _replace_observation_metadata. rewrite P2, P3, P4, lookup_insert. by case_decide. }
  rewrite Ho. cbn [negb andb]. destruct (bool_decide _); exact (Hobs (record_event s (with_payload e p) (has_key "entity_type" p))).
Qed.

(** The box was seen at five past by the wall clock; the next report says "at
    noon the day before", on no clock. *)
Definition box_clockless : WorldEvent :=
  box_event "d" 4 [(VStr "entity_id", VStr "box-1"); (VStr "observed_at", VStr "2025-12-31T12:00:00Z");
                   (VStr "confidence", VInt 1)].
Definition clockless_state : WorldState :=
  match apply_event box_state box_clockless with Ok s => s | Raise _ => new_state "" end.

Lemma omitted_clock_keeps_the_old_clock_witness :
  entity_last_observed_at box_state !! "box-1" = Some "2026-01-01T00:00:05Z" ∧
  entity_observation_clock_ids box_state !! "box-1" = Some "wall" ∧
  entity_last_observed_at clockless_state !! "box-1" = Some "2025-12-31T12:00:00Z" ∧
  entity_observation_clock_ids clockless_state !! "box-1" = Some "wall".
Proof.
  split; [vm_compute; reflexivity|]. split; [vm_compute; reflexivity|].
  change (Some "wall") with (entity_observation_clock_ids box_state !! "box-1").
  apply (omitted_clock_keeps_the_old_clock box_state box_clockless clockless_state "box-1" "2025-12-31T12:00:00Z").
  - vm_compute. reflexivity.
  - decide_list.
  - vm_compute. reflexivity.
  - vm_compute. reflexivity.
  - vm_compute. reflexivity.
  - vm_compute. reflexivity.
Defined.
