(* ===== verification/EventPayloadTheorems.v ===== *)
(** * World-event payloads: theorems *)

From Stdlib Require Import ZArith Ascii String SpecFloat.
From S2P Require Import Prelude PyVal Json DateTime Contracts ObservedAttributes EventPayloads Aging Reducer ReducerInvariant EventPayloadProofs ReducerTheorems.
Local Open Scope Z_scope.

(** Normalization is idempotent.  Whatever the type of the event - an
    observation with or without attributes, an action result, a recovery event
    or any other - normalizing a normalized event returns it unchanged, so that
    the stream check, [apply_event] and a stored copy all see the same payload.
    (A blank [occurred_at] would be copied into the payload as a time and
    refused when it is read back.) *)
Theorem normalization_is_idempotent e expected n :
  non_blank (occurred_at e) = true →
  normalize_world_event e expected = Ok n → normalize_world_event n expected = Ok n.
Proof. apply normalize_again. Qed.

Definition box_read_normal : WorldEvent :=
  match normalize_world_event box_read None with Ok n => n | Raise _ => box_read end.

Lemma normalization_is_idempotent_witness :
  has_key "attribute_metadata" (payload box_read) = false ∧
  has_key "attribute_metadata" (payload box_read_normal) = true ∧
  normalize_world_event box_read_normal None = Ok box_read_normal.
Proof.
  split; [vm_compute; reflexivity|]. split; [vm_compute; reflexivity|].
  apply (normalization_is_idempotent box_read None box_read_normal); vm_compute; reflexivity.
Defined.

(** C14: recovery is never the source of a success.  A recovery event that is
    accepted names an action of the closed vocabulary within its attempt budget
    and carries the owner that the action has; a [recovery_complete] event is one
    of a terminal action and its outcome is exactly [stopped] for a safe stop and
    [aborted] for an abort, and a [recovery_started] event is not terminal and has
    no outcome. *)
Theorem recovery_events_claim_no_success e expected n :
  normalize_world_event e expected = Ok n →
  event_type e = WorldEventType.RECOVERY_STARTED ∨ event_type e = WorldEventType.RECOVERY_COMPLETE →
  ∃ action attempt most,
    recovery_claim (bool_decide (event_type e = WorldEventType.RECOVERY_COMPLETE)) (payload n) action attempt most.
Proof.
  intros H Ht. unfold normalize_world_event in H. destruct Ht as [Ht|Ht]; rewrite Ht in H |- *; run_outcome H;
    apply Ok_inj in H as <-; by destruct (recovery_inv _ _ _ Hv) as [_ ?].
Qed.

Definition stop_event : WorldEvent :=
  {| event_id := "s"; event_run_id := "run-1"; sequence_no := 12; event_type := WorldEventType.RECOVERY_COMPLETE;
     occurred_at := "2026-01-01T00:00:12Z"; recorded_at := None; event_clock_id := None; event_evidence_refs := [];
     payload := [(VStr "recovery_id", VStr "rec-1"); (VStr "task_id", VStr "t"); (VStr "action", VStr "safe_stop");
       (VStr "state", VStr "stopped"); (VStr "attempt", VInt 2); (VStr "max_attempts", VInt 3);
       (VStr "reason_code", VStr "budget"); (VStr "reason", VStr "attempt budget used")] |}.
Definition stop_normal : WorldEvent :=
  match normalize_world_event stop_event None with Ok n => n | Raise _ => box_read end.

Lemma recovery_events_claim_no_success_witness :
  dict_get "outcome" (payload stop_event) = None ∧ dict_get "outcome" (payload stop_normal) = Some (VStr "stopped") ∧
  ∃ action attempt most, recovery_claim true (payload stop_normal) action attempt most.
Proof.
  split; [vm_compute; reflexivity|]. split; [vm_compute; reflexivity|].
  apply (recovery_events_claim_no_success stop_event None stop_normal); [vm_compute; reflexivity|right; reflexivity].
Defined.

(** An integer confidence that no float approximates is not refused as a payload
    error: the conversion's [OverflowError] leaves the validator, which every
    caller expects to raise [WorldEventPayloadValidationError] only. *)
Theorem huge_confidence_escapes e z :
  event_type e = WorldEventType.OBSERVATION → dict_get "confidence" (payload e) = Some (VInt z) →
  isfinite (float_of_Z z) = false →
  (∃ h, observation_fields (dict_set "confidence" (VInt 1) (payload e)) = Ok h) →
  ∀ expected, normalize_world_event e expected = Raise EOverflow.
Proof.
  intros Ht Hz Hf [h Hh] expected. unfold normalize_world_event. rewrite Ht. unfold _normalize_observation_payload.
  unfold observation_fields, optional_text in Hh |- *. rewrite !dict_get_set_ne, dict_get_set in Hh by done. rewrite Hz.
  apply outcome_bind_Ok in Hh as (? & -> & Hh). cbn [outcome_bind].
  do 3 (apply outcome_bind_Ok in Hh as (? & -> & Hh); cbn [outcome_bind]).
  destruct (match dict_get "clock_id" (payload e) with Some VNone => false | _ => true end); [|done].
  apply outcome_bind_Ok in Hh as (? & -> & Hh). cbn [outcome_bind normalize_confidence]. by rewrite Hf.
Qed.
