(* ===== verification/EventStore.v ===== *)
(** * Kernel event store

    [libs/kernel/workbench/kernel/event_store.py]: append-only storage of events
    in SQLite or in a JSONL file.  A SQLite connection is the durable database, the
    database as the connection sees it, and whether a transaction is open; the
    driver opens one before the first INSERT and leaves it open when binding a
    parameter fails.  A stored JSON text is the value it decodes to ([None] when it
    does not decode).  A file's signature (size and times) is a version number that
    every write changes.  Failing disks are not modelled; locks are, in that each
    method is one step. *)

From Stdlib Require Import ZArith Ascii String SpecFloat.
From S2P Require Import Prelude PyVal Json Contracts ObservedAttributes EventPayloads.
Local Open Scope prog_scope.
Local Open Scope Z_scope.

Inductive store_exn : Type :=
| StoreError            (* EventStoreError *)
| StoreType             (* TypeError *)
| StoreValue            (* ValueError *)
| StoreOverflow         (* OverflowError of the driver *)
| StoreKey              (* KeyError *)
| StoreIntegrity        (* EventStoreIntegrityError of the world-model adapter *)
| StorePayload (e : exn).
#[global] Instance store_exn_eq_dec : EqDecision store_exn.
Proof. solve_decision. Defined.

Inductive Backend : Type := JSONL | SQLITE.
#[global] Instance backend_eq_dec : EqDecision Backend.
Proof. solve_decision. Defined.

(** [EVENT_TYPES] *)
Definition EVENT_TYPES : list string := value <$> members (A:=WorldEventType.t).
Definition REQUIRED_EVENT_FIELDS : list string :=
  ["event_id"; "run_id"; "sequence_no"; "event_type"; "occurred_at"; "payload"].
Definition SCHEMA_VERSION : string := "2".

(** ** JSON text and back *)

(** The text of a key in [json.dumps]; keys that are floats are not modelled *)
Definition text_key (k : pyval) : option string :=
  match k with
  | VStr s | VEnum _ s => Some s
  | VInt z => Some (pretty z)
  | VBool b => Some (if b then "true" else "false")
  | VNone => Some "null"
  | _ => None
  end.

(** [json.loads(json.dumps(v, allow_nan=False))]; [None] when dumping raises *)
Fixpoint json_roundtrip (v : pyval) : option pyval :=
  match v with
  | VNone | VBool _ | VInt _ | VStr _ => Some v
  | VFloat f => if isfinite f then Some v else None
  | VEnum _ s => Some (VStr s)
  | VList l | VTuple l => VList <$> mapM json_roundtrip l
  | VDict kvs =>
      (λ items, VDict (update_dict [] items)) <$>
      mapM (λ '(k, x), text_key k ≫= λ s, (λ y, (s, y)) <$> json_roundtrip x) kvs
  | _ => None
  end.

Definition as_dict (v : pyval) : option dict := match v with VDict d => Some d | _ => None end.

(** ** The event contract: [_validate_events] *)

Definition is_text (v : pyval) : bool := match as_str v with Some s => negb (String.eqb s "") | None => false end.

(** The checks on one event that do not depend on the others *)
Definition event_shape (e : dict) : bool :=
  forallb (λ k, has_key k e) REQUIRED_EVENT_FIELDS &&
  is_text (at_key "event_id" e) && is_text (at_key "run_id" e) &&
  match at_key "sequence_no" e with VInt _ => true | _ => false end &&
  match as_str (at_key "event_type" e) with Some t => str_in t EVENT_TYPES | None => false end &&
  is_text (at_key "occurred_at" e) &&
  match at_key "payload" e with VDict _ => true | _ => false end &&
  match dict_get_or "evidence_refs" e (VList []) with
  | VList l => forallb (λ r, bool_decide (is_Some (as_str r))) l
  | _ => false
  end.

Definition id_of (e : dict) : string := default EmptyString (as_str (at_key "event_id" e)).
Definition run_of (e : dict) : string := default EmptyString (as_str (at_key "run_id" e)).
Definition seq_of (e : dict) : Z := match at_key "sequence_no" e with VInt z => z | _ => 0 end.

(** The loop: the identifiers and the (run, sequence) pairs seen so far, the
    first run, and the index *)
Fixpoint validate_loop (multi_run : bool) (first : option string) (ids : gset string) (seqs : gset (string * Z))
    (index : Z) (l : list dict) : bool :=
  match l with
  | [] => true
  | e :: l' =>
      event_shape e &&
      negb (bool_decide (id_of e ∈ ids)) &&
      (multi_run || match first with Some r => String.eqb (run_of e) r | None => true end) &&
      (if multi_run then negb (bool_decide ((run_of e, seq_of e) ∈ seqs)) else seq_of e =? index) &&
      validate_loop multi_run (Some (default (run_of e) first)) ({[id_of e]} ∪ ids) ({[(run_of e, seq_of e)]} ∪ seqs)
        (index + 1) l'
  end.

Definition _validate_events (legacy_objects multi_run : bool) (l : list dict) : bool :=
  legacy_objects || validate_loop multi_run None ∅ ∅ 0 l.

(** ** The database *)

Record row := { row_id : string; row_run : string; row_seq : Z; row_json : option pyval }.

Record database := {
  db_version : option string;
  db_rows : list row;
  db_checkpoints : list (Z * option string)
}.

Definition empty_database : database :=
  {| db_version := Some SCHEMA_VERSION; db_rows := []; db_checkpoints := [] |}.

Record connection := { durable : database; working : database; in_transaction : bool }.

Definition connect (db : database) : connection := {| durable := db; working := db; in_transaction := false |}.
Definition commit (c : connection) : connection := connect (working c).
Definition rollback (c : connection) : connection := connect (durable c).

(** A change of the database as the connection sees it, in a transaction *)
Definition write (c : connection) (db : database) : connection :=
  {| durable := durable c; working := db; in_transaction := true |}.

Definition with_rows (db : database) (rows : list row) : database :=
  {| db_version := db_version db; db_rows := rows; db_checkpoints := db_checkpoints db |}.
Definition add_checkpoint (db : database) (count : Z) (run : option string) : database :=
  {| db_version := db_version db; db_rows := db_rows db; db_checkpoints := db_checkpoints db ++ [(count, run)] |}.

(** The order of [ORDER BY run_id, sequence_no] *)
Definition row_le (a b : row) : Prop :=
  (String.ltb (row_run a) (row_run b) || (String.eqb (row_run a) (row_run b) && (row_seq a <=? row_seq b))) = true.
#[global] Instance row_le_dec : RelDecision row_le.
Proof. intros a b. unfold row_le. apply _. Defined.

(** What [executemany] reports when it stops *)
Inductive insert_error : Type := IntegrityError | BindOverflow.

Definition conflicts (r : row) (rows : list row) : bool :=
  existsb (λ r', String.eqb (row_id r') (row_id r) ||
                 (String.eqb (row_run r') (row_run r) && (row_seq r' =? row_seq r))) rows.

Definition fits_integer (z : Z) : bool := (- 2 ^ 63 <=? z) && (z <? 2 ^ 63).

Fixpoint insert_rows (rows new : list row) : list row * option insert_error :=
  match new with
  | [] => (rows, None)
  | r :: new' =>
      if negb (fits_integer (row_seq r)) then (rows, Some BindOverflow)
      else if conflicts r rows then (rows, Some IntegrityError)
      else insert_rows (rows ++ [r]) new'
  end.

(** ** The store *)

(** A line of a JSONL file: blank, not JSON, or a value *)
Inductive line : Type := LBlank | LBad | LValue (v : pyval).

Record EventStore := {
  backend : Backend;
  legacy_objects : bool;
  multi_run : bool;
  events : list dict;
  checkpoints : list Z;
  _run_checkpoints : gmap string (list Z);
  _connection : option connection;
  log_file : option (nat * list line);
  _events_signature : option nat
}.

(** [_jsonl_signature] *)
Definition _jsonl_signature (s : EventStore) : option nat := fst <$> log_file s.

Definition set_events (l : list dict) (s : EventStore) : EventStore :=
  {| backend := backend s; legacy_objects := legacy_objects s; multi_run := multi_run s; events := l;
     checkpoints := checkpoints s; _run_checkpoints := _run_checkpoints s; _connection := _connection s;
     log_file := log_file s; _events_signature := _events_signature s |}.
Definition set_connection (c : option connection) (s : EventStore) : EventStore :=
  {| backend := backend s; legacy_objects := legacy_objects s; multi_run := multi_run s; events := events s;
     checkpoints := checkpoints s; _run_checkpoints := _run_checkpoints s; _connection := c;
     log_file := log_file s; _events_signature := _events_signature s |}.
Definition set_checkpoints (l : list Z) (s : EventStore) : EventStore :=
  {| backend := backend s; legacy_objects := legacy_objects s; multi_run := multi_run s; events := events s;
     checkpoints := l; _run_checkpoints := _run_checkpoints s; _connection := _connection s;
     log_file := log_file s; _events_signature := _events_signature s |}.
Definition add_run_checkpoint (run : string) (n : Z) (s : EventStore) : EventStore :=
  {| backend := backend s; legacy_objects := legacy_objects s; multi_run := multi_run s; events := events s;
     checkpoints := checkpoints s;
     _run_checkpoints := <[run := default [] (_run_checkpoints s !! run) ++ [n]]> (_run_checkpoints s);
     _connection := _connection s; log_file := log_file s; _events_signature := _events_signature s |}.
(** The file with more lines: a new signature *)
Definition append_lines (l : list line) (s : EventStore) : EventStore :=
  {| backend := backend s; legacy_objects := legacy_objects s; multi_run := multi_run s; events := events s;
     checkpoints := checkpoints s; _run_checkpoints := _run_checkpoints s; _connection := _connection s;
     log_file := match log_file s with Some (v, old) => Some (S v, old ++ l) | None => Some (0%nat, l) end;
     _events_signature := _events_signature s |}.
Definition set_signature (s : EventStore) : EventStore :=
  {| backend := backend s; legacy_objects := legacy_objects s; multi_run := multi_run s; events := events s;
     checkpoints := checkpoints s; _run_checkpoints := _run_checkpoints s; _connection := _connection s;
     log_file := log_file s; _events_signature := _jsonl_signature s |}.

(** [_require_connection] *)
Definition _require_connection : prog EventStore store_exn connection :=
  s <- get ;; of_option (_connection s) StoreError.

(** ** Reading *)

(** [_read_jsonl] *)
Definition jsonl_events (l : list line) : option (list dict) :=
  mapM (λ x, match x with LValue (VDict d) => Some d | _ => None end)
    (filter (λ x, match x with LBlank => false | _ => true end = true) l).

(** The indexed columns agree with the event, in both readers *)
Definition columns_agree (id run : string) (seq : Z) (e : dict) : bool :=
  py_eqb (at_key "event_id" e) (VStr id) && py_eqb (at_key "run_id" e) (VStr run) &&
  py_eqb (at_key "sequence_no" e) (VInt seq).

(** [_decode_indexed_row]; the caller's expectations replace the stored columns *)
Definition _decode_indexed_row (r : row) (expected_id expected_run : option string) : option dict :=
  match row_json r ≫= as_dict with
  | None => None
  | Some e =>
      let id_ok := match expected_id with Some i => py_eqb (at_key "event_id" e) (VStr i) | None => true end in
      if id_ok && py_eqb (at_key "run_id" e) (VStr (default (row_run r) expected_run)) &&
         py_eqb (at_key "sequence_no" e) (VInt (row_seq r)) then Some e else None
  end.

(** The rows of [_read_sqlite] *)
Definition decode_row (r : row) : option dict :=
  match row_json r ≫= as_dict with
  | Some e => if columns_agree (row_id r) (row_run r) (row_seq r) e then Some e else None
  | None => None
  end.

(** [_read_events] *)
Definition read_events (s : EventStore) : outcome store_exn (list dict) :=
  let checked o :=
    match o with
    | Some l => if _validate_events (legacy_objects s) (multi_run s) l then Ok l else Raise StoreError
    | None => Raise StoreError
    end in
  match backend s with
  | JSONL => match log_file s with None => Ok [] | Some (_, lines) => checked (jsonl_events lines) end
  | SQLITE =>
      match _connection s with
      | None => Raise StoreError
      | Some c =>
          if decide (db_version (working c) = Some SCHEMA_VERSION)
          then checked (mapM decode_row (merge_sort row_le (db_rows (working c))))
          else Raise StoreError
      end
  end.

Definition _read_events : prog EventStore store_exn (list dict) := λ s, (read_events s, s).

(** ** Appending *)

Definition row_of (e : dict) : row :=
  {| row_id := id_of e; row_run := run_of e; row_seq := seq_of e; row_json := Some (VDict e) |}.

(** The SQLite branch of [append_many] *)
Definition insert_batch (new : list dict) : prog EventStore store_exn () :=
  c <- _require_connection ;;
  let '(rows, failure) := insert_rows (db_rows (working c)) (row_of <$> new) in
  let c' := write c (with_rows (working c) rows) in
  match failure with
  | None => modify (set_connection (Some (commit c')))
  | Some IntegrityError => modify (set_connection (Some (rollback c'))) ;;; raise StoreError
  | Some BindOverflow => modify (set_connection (Some c')) ;;; raise StoreOverflow
  end.

(** [append_many] *)
Definition append_many (new_events : list pyval) : prog EventStore store_exn () :=
  match mapM as_dict new_events with
  | None => raise StoreType
  | Some _ =>
      match mapM (λ v, json_roundtrip v ≫= as_dict) new_events with
      | None => raise StoreError
      | Some persisted =>
          s <- get ;;
          old <- (if decide (backend s = JSONL ∧ _events_signature s = _jsonl_signature s)
                  then ret (events s) else _read_events) ;;
          require (_validate_events (legacy_objects s) (multi_run s) (old ++ persisted)) StoreError ;;;
          (if decide (backend s = JSONL) then modify (append_lines (LValue ∘ VDict <$> persisted))
           else insert_batch persisted) ;;;
          modify (set_events (old ++ persisted)) ;;;
          (if decide (backend s = JSONL) then modify set_signature else ret ())
      end
  end.

(** [append] *)
Definition append (event : pyval) : prog EventStore store_exn () :=
  match event with VDict _ => append_many [event] | _ => raise StoreType end.

Definition run_rows (run : string) (rows : list row) : list row := filter (λ r, row_run r = run) rows.

(** [next_sequence_no] *)
Definition next_sequence (first : Z) (run : string) (rows : list row) : Z :=
  match row_seq <$> run_rows run rows with
  | [] => first
  | z :: zs => foldr Z.max z zs + 1
  end.

Definition next_sequence_no (run : string) (first : Z) : prog EventStore store_exn Z :=
  c <- _require_connection ;; ret (next_sequence first run (db_rows (working c))).

(** Runs [m]; when it raises, rolls the connection back and raises [f e] *)
Definition or_rollback {A} (m : prog EventStore store_exn A) : prog EventStore store_exn A :=
  λ s, match m s with
       | (Ok a, s') => (Ok a, s')
       | (Raise e, s') => (Raise e, set_connection (rollback <$> _connection s') s')
       end.

(** [append_allocated]: BEGIN IMMEDIATE fails inside an open transaction *)
Definition append_allocated (run : string) (build : Z → prog EventStore store_exn pyval) (first : Z)
    : prog EventStore store_exn pyval :=
  s <- get ;;
  require (bool_decide (backend s = SQLITE)) StoreError ;;;
  c <- _require_connection ;;
  or_rollback
    (require (negb (in_transaction c)) StoreError ;;;
     modify (set_connection (Some (write c (working c)))) ;;;
     sequence_no <- next_sequence_no run first ;;
     event <- build sequence_no ;;
     append_many [event] ;;;
     ret event).

(** ** Lookups *)

(** [raw_event_row] *)
Definition raw_event_row (id : string) : prog EventStore store_exn (option row) :=
  c <- _require_connection ;; ret (head (filter (λ r, row_id r = id) (db_rows (working c)))).

Definition seq_row_le (a b : row) : Prop := row_seq a <= row_seq b.
#[global] Instance seq_row_le_dec : RelDecision seq_row_le.
Proof. intros a b. unfold seq_row_le. apply _. Defined.

(** [raw_run_rows] *)
Definition raw_run_rows (run : string) : prog EventStore store_exn (list row) :=
  c <- _require_connection ;; ret (merge_sort seq_row_le (run_rows run (db_rows (working c)))).

(** [get_event] *)
Definition get_event (id : string) : prog EventStore store_exn (option dict) :=
  s <- get ;;
  if decide (backend s = JSONL) then
    l <- _read_events ;;
    (fix search (l : list dict) : prog EventStore store_exn (option dict) :=
       match l with
       | [] => ret None
       | e :: l' =>
           v <- of_option (dict_get "event_id" e) StoreKey ;;
           if py_eqb v (VStr id) then ret (Some e) else search l'
       end) l
  else
    r <- raw_event_row id ;;
    match r with
    | None => ret None
    | Some r => e <- of_option (_decode_indexed_row r (Some id) None) StoreError ;; ret (Some e)
    end.

Definition seq_dict_le (a b : dict) : Prop := seq_of a <= seq_of b.
#[global] Instance seq_dict_le_dec : RelDecision seq_dict_le.
Proof. intros a b. unfold seq_dict_le. apply _. Defined.

(** [list_run]; the sequence numbers of an unvalidated log are integers *)
Definition list_run (run : string) : prog EventStore store_exn (list dict) :=
  s <- get ;;
  if decide (backend s = JSONL) then
    l <- _read_events ;;
    require (forallb (has_key "run_id") l) StoreKey ;;;
    let mine := filter (λ e, py_eqb (at_key "run_id" e) (VStr run) = true) l in
    require (forallb (has_key "sequence_no") mine) StoreKey ;;;
    ret (merge_sort seq_dict_le mine)
  else
    rows <- raw_run_rows run ;;
    of_option (mapM (λ r, _decode_indexed_row r None (Some run)) rows) StoreError.

(** [run_ids]; the run identifiers of an unvalidated log are text *)
Definition run_ids : prog EventStore store_exn (list string) :=
  s <- get ;;
  if decide (backend s = JSONL) then
    l <- _read_events ;;
    require (forallb (has_key "run_id") l) StoreKey ;;;
    ret (merge_sort str_le (remove_dups (run_of <$> l)))
  else
    c <- _require_connection ;;
    ret (merge_sort str_le (remove_dups (row_run <$> db_rows (working c)))).

(** ** Checkpoints and replay *)

(** [create_run_checkpoint] *)
Definition create_run_checkpoint (run : string) : prog EventStore store_exn Z :=
  l <- list_run run ;;
  let count := Z.of_nat (length l) in
  s <- get ;;
  (if decide (backend s = SQLITE) then
     c <- _require_connection ;;
     modify (set_connection (Some (commit (write c (add_checkpoint (working c) count (Some run))))))
   else ret ()) ;;;
  modify (add_run_checkpoint run count) ;;;
  ret count.

(** [run_checkpoints] *)
Definition run_checkpoints (run : string) : prog EventStore store_exn (list Z) :=
  s <- get ;;
  if decide (backend s = JSONL) then ret (default [] (_run_checkpoints s !! run))
  else
    c <- _require_connection ;;
    ret (filter (λ cp, cp.2 = Some run) (db_checkpoints (working c))).*1.

(** [events[start:]] after the bounds check *)
Definition replay_from (from : option Z) (l : list dict) : prog EventStore store_exn (list dict) :=
  let start := default 0 from in
  require ((0 <=? start) && (start <=? Z.of_nat (length l))) StoreValue ;;;
  ret (drop (Z.to_nat start) l).

(** [replay_run] *)
Definition replay_run (run : string) (from : option Z) : prog EventStore store_exn (list dict) :=
  l <- list_run run ;; replay_from from l.

(** [create_checkpoint]; the SQLite branch reads back the counts of all rows *)
Definition create_checkpoint : prog EventStore store_exn Z :=
  l <- _read_events ;;
  modify (set_events l) ;;;
  let checkpoint := Z.of_nat (length l) in
  s <- get ;;
  (if decide (backend s = SQLITE) then
     c <- _require_connection ;;
     let c' := commit (write c (add_checkpoint (working c) checkpoint None)) in
     modify (set_connection (Some c')) ;;;
     modify (set_checkpoints (db_checkpoints (working c')).*1)
   else modify (set_checkpoints (checkpoints s ++ [checkpoint]))) ;;;
  ret checkpoint.

(** [replay] *)
Definition replay (from : option Z) : prog EventStore store_exn (list dict) :=
  l <- _read_events ;; modify (set_events l) ;;; replay_from from l.

(** [verify_integrity]; the file's own structure is not damaged *)
Definition verify_integrity (s : EventStore) : bool := match read_events s with Ok _ => true | Raise _ => false end.

(** [close] *)
Definition close : prog EventStore store_exn () := modify (set_connection None).

(** ** Opening *)

(** The bytes of a store: a database or the lines of a log *)
Inductive content : Type := Database (db : database) | Log (lines : list line).

(** What the schema queries report of a SQLite file *)
Record layout := {
  tables : list string;
  recorded_version : option string;
  event_columns : list string;
  unique_indexes : list (list string);
  checkpoint_columns : list string
}.

(** [_refuse_incompatible_layout]: [true] when the constructor raises *)
Definition _refuse_incompatible_layout (l : layout) : bool :=
  let has t := str_in t (tables l) in
  (has "world_events" && negb (has "events")) ||
  (has "event_store_meta" && match recorded_version l with Some v => negb (String.eqb v SCHEMA_VERSION) | None => false end) ||
  (has "events" &&
   (negb (forallb (λ c, str_in c (event_columns l)) ["event_id"; "run_id"; "sequence_no"; "event_json"]) ||
    bool_decide (["sequence_no"] ∈ unique_indexes l) ||
    (has "checkpoints" && negb (str_in "run_id" (checkpoint_columns l))))).

(** The constructor on a SQLite file with a supported layout: the checkpoints of
    the database are loaded. *)
Definition open_sqlite (multi : bool) (db : database) : option EventStore :=
  let db := {| db_version := Some (default SCHEMA_VERSION (db_version db)); db_rows := db_rows db;
               db_checkpoints := db_checkpoints db |} in
  if decide (db_version db = Some SCHEMA_VERSION) then
    Some {| backend := SQLITE; legacy_objects := false; multi_run := multi; events := [];
            checkpoints := (filter (λ cp, cp.2 = None) (db_checkpoints db)).*1;
            _run_checkpoints :=
              foldl (λ m '(n, run), match run with Some r => <[r := default [] (m !! r) ++ [n]]> m | None => m end)
                ∅ (db_checkpoints db);
            _connection := Some (connect db); log_file := None; _events_signature := None |}
  else None.

Definition open_jsonl (legacy multi : bool) (file : option (nat * list line)) : EventStore :=
  {| backend := JSONL; legacy_objects := legacy; multi_run := multi; events := []; checkpoints := [];
     _run_checkpoints := ∅; _connection := None; log_file := file; _events_signature := None |}.

(** ** Snapshots *)

Record manifest := {
  m_database : Backend;
  m_schema_version : string;
  m_event_count : Z;
  m_sha256 : string
}.

Section Snapshots.
(** The digest of a file's bytes *)
Context (sha256 : content → string).

(** [backup]: the snapshot and its manifest *)
Definition backup : prog EventStore store_exn (content * manifest) :=
  s <- get ;;
  snapshot <- (if decide (backend s = SQLITE) then
      c <- _require_connection ;;
      modify (set_connection (Some (commit c))) ;;;
      _read_events ;;;
      ret (Database (working c))
    else
      _read_events ;;;
      ret (Log (match log_file s with Some (_, l) => l | None => [] end))) ;;
  ret (snapshot, {| m_database := backend s; m_schema_version := SCHEMA_VERSION;
                    m_event_count := Z.of_nat (length (events s)); m_sha256 := sha256 snapshot |}).

(** [cls(snapshot, backend=backend)]: a store of one run *)
Definition open_content (b : Backend) (x : content) : option EventStore :=
  match b, x with
  | SQLITE, Database db => open_sqlite false db
  | JSONL, Log lines => Some (open_jsonl false false (Some (0%nat, lines)))
  | _, _ => None
  end.

(** [restore]: the store at the destination *)
Definition restore (x : content) (m : manifest) : outcome store_exn EventStore :=
  if negb (String.eqb (m_schema_version m) SCHEMA_VERSION) then Raise StoreError
  else if negb (String.eqb (m_sha256 m) (sha256 x)) then Raise StoreError
  else match open_content (m_database m) x with
       | None => Raise StoreError
       | Some probe =>
           match read_events probe with
           | Raise _ => Raise StoreError
           | Ok l => if Z.of_nat (length l) =? m_event_count m then Ok probe else Raise StoreError
           end
       end.
End Snapshots.

(** [migrate_jsonl]: the events of a strict log, in a new database *)
Definition migrate_jsonl (source : option (nat * list line)) : outcome store_exn EventStore :=
  match replay None (open_jsonl false false source) with
  | (Raise e, _) => Raise e
  | (Ok l, _) =>
      match open_sqlite false empty_database with
      | None => Raise StoreError
      | Some target =>
          match append_many (VDict <$> l) target with
          | (Raise e, _) => Raise e
          | (Ok _, target') =>
              match _connection target' with
              | Some c => match open_sqlite false (durable c) with Some s => Ok s | None => Raise StoreError end
              | None => Raise StoreError
              end
          end
      end
  end.

(** [audit_evidence_refs]: the references and the missing ones, in order *)
Definition evidence_refs_of (e : dict) : list string :=
  match dict_get_or "evidence_refs" e (VList []) with VList l => omap as_str l | _ => [] end.

Definition audit_evidence_refs (available : gset string) : prog EventStore store_exn (list string * list string) :=
  l <- replay None ;;
  let referenced := mjoin (evidence_refs_of <$> l) in
  ret (referenced, merge_sort str_le (remove_dups (filter (λ r, r ∉ available) referenced))).
