(* ===== verification/EventStoreProofs.v ===== *)
(** * Kernel event store: lemmas

    The contract of a log of several runs as a condition on its events, what
    reading returns, and that every operation keeps the durable rows. *)

From Stdlib Require Import ZArith Ascii String SpecFloat.
From S2P Require Import Prelude PyVal Json Contracts ObservedAttributes EventPayloads EventStore.
Local Open Scope Z_scope.

(** ** The multi-run contract *)

Definition place (e : dict) : string * Z := (run_of e, seq_of e).

Record valid_log (l : list dict) : Prop := {
  vl_shape : Forall (λ e, event_shape e = true) l;
  vl_ids : NoDup (id_of <$> l);
  vl_places : NoDup (place <$> l)
}.

Lemma validate_loop_multi l first ids seqs i :
  validate_loop true first ids seqs i l = true ↔
  valid_log l ∧ (∀ e, e ∈ l → id_of e ∉ ids) ∧ (∀ e, e ∈ l → place e ∉ seqs).
Proof.
  revert first ids seqs i. induction l as [|e l IH]; intros first ids seqs i; simpl.
  { split; [|done]. intros _. split_and!; [split; constructor|by intros ? ?%elem_of_nil|by intros ? ?%elem_of_nil]. }
  rewrite !andb_true_iff, IH, !negb_true_iff, !bool_decide_eq_false. split.
  - intros ((((Hs & Hi) & _) & Hp) & [] & Hids & Hps). split; [split|split].
    + by constructor.
    + simpl. constructor; [|done]. intros (e' & Heq & He')%list_elem_of_fmap. apply (Hids e' He'). set_solver.
    + simpl. constructor; [|done]. intros (e' & Heq & He')%list_elem_of_fmap. apply (Hps e' He').
      unfold place in *. rewrite <-Heq. set_solver.
    + intros e' [->|He']%elem_of_cons; [done|]. specialize (Hids e' He'). set_solver.
    + intros e' [->|He']%elem_of_cons; [done|]. specialize (Hps e' He'). set_solver.
  - intros ([Hs Hi Hp] & Hids & Hps). apply Forall_cons in Hs as [Hs Hsl]. simpl in Hi, Hp.
    apply NoDup_cons in Hi as [Hi Hil]. apply NoDup_cons in Hp as [Hp Hpl]. split_and!; try done.
    + apply Hids. left.
    + apply (Hps e). left.
    + intros e' He' [Heq%elem_of_singleton|?]%elem_of_union; [|by apply (Hids e'); [right|]].
      apply Hi, list_elem_of_fmap. eauto.
    + intros e' He' [Heq%elem_of_singleton|?]%elem_of_union; [|by apply (Hps e'); [right|]].
      apply Hp, list_elem_of_fmap. exists e'. unfold place in *. by rewrite Heq.
Qed.

Lemma validate_multi l : _validate_events false true l = true ↔ valid_log l.
Proof.
  unfold _validate_events. simpl. rewrite validate_loop_multi. split; [tauto|]. intros H. split_and!; try done; set_solver.
Qed.

Lemma valid_log_perm l l' : l ≡ₚ l' → valid_log l → valid_log l'.
Proof. intros Hp []. split; by rewrite <-Hp. Qed.

Lemma valid_log_app l l' : valid_log (l ++ l') → valid_log l.
Proof.
  intros [H1 H2 H3]. apply Forall_app in H1 as [H1 _]. rewrite fmap_app in H2. rewrite fmap_app in H3.
  apply NoDup_app in H2 as [H2 _]. apply NoDup_app in H3 as [H3 _]. done.
Qed.

(** ** Rows *)

Lemma py_eqb_str s : py_eqb (VStr s) (VStr s) = true.
Proof. apply String.eqb_refl. Qed.

Lemma shape_fields e : event_shape e = true →
  (∃ v, at_key "event_id" e = v ∧ as_str v = Some (id_of e)) ∧ (∃ v, at_key "run_id" e = v ∧ as_str v = Some (run_of e)) ∧
  at_key "sequence_no" e = VInt (seq_of e).
Proof.
  unfold event_shape. rewrite !andb_true_iff. intros (((((((_ & H1) & H2) & H3) & _) & _) & _) & _).
  unfold is_text, id_of, run_of, seq_of in *. split_and!.
  - eexists. split; [done|]. by destruct (as_str (at_key "event_id" e)).
  - eexists. split; [done|]. by destruct (as_str (at_key "run_id" e)).
  - by destruct (at_key "sequence_no" e).
Qed.

Lemma py_eqb_text v s : as_str v = Some s → py_eqb v (VStr s) = true.
Proof. destruct v; simpl; intros [= ->]; apply String.eqb_refl. Qed.

Lemma decode_row_of e : event_shape e = true → decode_row (row_of e) = Some e.
Proof.
  intros Hs. destruct (shape_fields e Hs) as ((v & Hv & Hi) & (w & Hw & Hr) & Hz).
  unfold decode_row, row_of, columns_agree. cbn [row_json mbind option_bind as_dict row_id row_run row_seq].
  rewrite Hv, Hw, Hz, (py_eqb_text _ _ Hi), (py_eqb_text _ _ Hr). simpl. by rewrite Z.eqb_refl.
Qed.

Lemma decode_rows es : Forall (λ e, event_shape e = true) es → mapM decode_row (row_of <$> es) = Some es.
Proof.
  intros H. apply mapM_Some. induction H as [|e es He H IH]; [constructor|].
  simpl. constructor; [by apply decode_row_of|done].
Qed.

(** A database that holds exactly the events of a list *)
Definition holds (db : database) (es : list dict) : Prop :=
  db_version db = Some SCHEMA_VERSION ∧ db_rows db = row_of <$> es ∧ valid_log es.

Lemma empty_holds : holds empty_database [].
Proof. split_and!; [done..|]. split; constructor. Qed.

Lemma sorted_rows es : ∃ es', merge_sort row_le (row_of <$> es) = row_of <$> es' ∧ es' ≡ₚ es.
Proof.
  pose proof (merge_sort_Permutation row_le (row_of <$> es)) as Hp.
  apply Permutation_map_inv in Hp as (es' & Heq & Hp). exists es'. by rewrite Heq.
Qed.

(** Reading a good database never fails and returns its events *)
Lemma read_holds s c es :
  backend s = SQLITE → multi_run s = true → legacy_objects s = false → _connection s = Some c → holds (working c) es →
  ∃ es', read_events s = Ok es' ∧ es' ≡ₚ es.
Proof.
  intros Hb Hm Hl Hc (Hver & Hrows & Hv). unfold read_events. rewrite Hb, Hc, Hver, Hrows.
  rewrite decide_True by done. destruct (sorted_rows es) as (es' & -> & Hp). exists es'. split; [|done].
  assert (Hv' : valid_log es') by (by eapply valid_log_perm). rewrite decode_rows by apply Hv'.
  by rewrite Hl, Hm, (proj2 (validate_multi es') Hv').
Qed.

(** ** Inserting *)

Lemma conflicts_row_of e es :
  id_of e ∉ id_of <$> es → place e ∉ place <$> es → conflicts (row_of e) (row_of <$> es) = false.
Proof.
  intros Hi Hp. unfold conflicts. apply not_true_iff_false. rewrite existsb_exists.
  intros (r & (e' & -> & He')%list_elem_of_In%list_elem_of_fmap & H). simpl in H.
  apply orb_true_iff in H as [H%String.eqb_eq|[H1%String.eqb_eq H2%Z.eqb_eq]%andb_true_iff].
  - apply Hi, list_elem_of_fmap. eauto.
  - apply Hp, list_elem_of_fmap. exists e'. unfold place. by rewrite H1, H2.
Qed.

(** A valid batch is inserted up to the first number that the driver refuses *)
Lemma insert_rows_spec es new :
  valid_log (es ++ new) →
  ∃ ins f, insert_rows (row_of <$> es) (row_of <$> new) = (row_of <$> (es ++ ins), f) ∧ ins `prefix_of` new ∧
    ((f = None ∧ ins = new ∧ Forall (λ e, fits_integer (seq_of e) = true) new) ∨
     (f = Some BindOverflow ∧ Forall (λ e, fits_integer (seq_of e) = true) ins ∧
      ∃ x rest, new = ins ++ x :: rest ∧ fits_integer (seq_of x) = false)).
Proof.
  revert es. induction new as [|e new IH]; intros es Hv.
  { exists [], None. rewrite app_nil_r. split_and!; [done|by exists []|left; split_and!; [done..|constructor]]. }
  simpl. destruct (fits_integer (seq_of e)) eqn:Hf; simpl.
  - rewrite conflicts_row_of.
    + destruct (IH (es ++ [e])) as (ins & f & Heq & Hpre & Hcase); [by rewrite <-app_assoc|].
      exists (e :: ins), f. rewrite <-app_assoc in Heq. simpl in Heq. rewrite fmap_app in Heq. split_and!; [done|by apply prefix_cons|].
      destruct Hcase as [(-> & -> & Hall)|(-> & Hall & x & rest & -> & Hx)]; [left; split_and!; [done..|by constructor]|right].
      split; [done|]. split; [by constructor|]. by exists x, rest.
    + destruct Hv as [_ Hi _]. rewrite fmap_app, fmap_cons in Hi. apply NoDup_app in Hi as (_ & Hd & _).
      intros H. apply (Hd _ H). left.
    + destruct Hv as [_ _ Hp]. rewrite fmap_app, fmap_cons in Hp. apply NoDup_app in Hp as (_ & Hd & _).
      intros H. apply (Hd _ H). left.
  - exists [], (Some BindOverflow). rewrite app_nil_r. split_and!; [done|by exists (e :: new)|right]. split; [done|].
    split; [constructor|]. by exists e, new.
Qed.

(** ** The invariant of a store of several runs *)

(** The durable rows are those of a valid log that extends [es0]; a connection
    may hold more in an open transaction, and nothing else. *)
Record store_inv (es0 : list dict) (s : EventStore) : Prop := {
  si_backend : backend s = SQLITE;
  si_multi : multi_run s = true;
  si_legacy : legacy_objects s = false;
  si_connection c : _connection s = Some c →
    ∃ es ws, es0 `prefix_of` es ∧ holds (durable c) es ∧ holds (working c) (es ++ ws) ∧
             (in_transaction c = false → working c = durable c)
}.

Lemma inv_connection es0 s c :
  store_inv es0 s →
  (∃ es ws, es0 `prefix_of` es ∧ holds (durable c) es ∧ holds (working c) (es ++ ws) ∧
            (in_transaction c = false → working c = durable c)) →
  store_inv es0 (set_connection (Some c) s).
Proof. intros [] Hc. split; try done. simpl. by intros ? [= <-]. Qed.

Lemma inv_commit es0 s c es ws :
  store_inv es0 s → es0 `prefix_of` es → holds (working c) (es ++ ws) → store_inv es0 (set_connection (Some (commit c)) s).
Proof.
  intros Hi Hp Hw. apply inv_connection; [done|]. exists (es ++ ws), []. rewrite app_nil_r. split_and!; try done.
  by apply prefix_app_r.
Qed.

Lemma inv_rollback es0 s : store_inv es0 s → store_inv es0 (set_connection (rollback <$> _connection s) s).
Proof.
  intros Hi. destruct (_connection s) as [c|] eqn:Hc; [|by destruct Hi].
  apply inv_connection; [done|]. destruct (si_connection _ _ Hi c Hc) as (es & ws & Hp & Hd & _).
  exists es, []. by rewrite app_nil_r.
Qed.

Lemma holds_rows db es es' : holds db es → valid_log es' → holds (with_rows db (row_of <$> es')) es'.
Proof. intros (? & _) ?. done. Qed.

Lemma prefix_valid es ins new : ins `prefix_of` new → valid_log (es ++ new) → valid_log (es ++ ins).
Proof. intros [k ->] H. rewrite app_assoc in H. by eapply valid_log_app. Qed.

Lemma insert_batch_inv es0 s new es ws c :
  store_inv es0 s → _connection s = Some c → es0 `prefix_of` es → holds (durable c) es → holds (working c) (es ++ ws) →
  valid_log ((es ++ ws) ++ new) → store_inv es0 (insert_batch new s).2.
Proof.
  intros Hi Hc Hpre Hd Hw Hv. unfold insert_batch, _require_connection, bind, get, of_option. rewrite Hc. simpl.
  destruct Hw as (Hver & Hrows & Hvw). rewrite Hrows.
  destruct (insert_rows_spec (es ++ ws) new Hv) as (ins & f & -> & Hins & Hcase).
  assert (Hw' : holds (with_rows (working c) (row_of <$> (es ++ ws) ++ ins)) (es ++ (ws ++ ins))).
  { rewrite app_assoc. eapply holds_rows; [by split|]. by eapply prefix_valid. }
  destruct Hcase as [(-> & _)|[-> _]]; simpl.
  - eapply inv_commit; [done..|]. exact Hw'.
  - apply inv_connection; [done|]. exists es, (ws ++ ins). split_and!; done.
Qed.

Lemma inv_set_events es0 s l : store_inv es0 s → store_inv es0 (set_events l s).
Proof. by intros []. Qed.

(** [append_many] on a database *)
Lemma append_many_sqlite vs s :
  backend s = SQLITE →
  append_many vs s =
  match mapM as_dict vs, mapM (λ v, json_roundtrip v ≫= as_dict) vs, read_events s with
  | None, _, _ => (Raise StoreType, s)
  | Some _, None, _ => (Raise StoreError, s)
  | Some _, Some _, Raise e => (Raise e, s)
  | Some _, Some persisted, Ok old =>
      if _validate_events (legacy_objects s) (multi_run s) (old ++ persisted)
      then bind (insert_batch persisted) (λ _, bind (modify (set_events (old ++ persisted))) (λ _, ret ())) s
      else (Raise StoreError, s)
  end.
Proof.
  intros Hb. unfold append_many. destruct (mapM as_dict vs); [|done]. destruct (mapM _ vs) as [persisted|]; [|done].
  unfold bind at 1, get. rewrite !(decide_False (P := backend s = JSONL)) by (by rewrite Hb).
  rewrite decide_False by (rewrite Hb; by intros [? _]).
  unfold bind at 1, _read_events. destruct (read_events s) as [old|]; [|done]. by rewrite bind_require.
Qed.

(** [append_many] refuses before it writes, or it inserts a batch that keeps the
    log valid. *)
Lemma append_many_cases es0 vs s :
  store_inv es0 s →
  (∃ e, append_many vs s = (Raise e, s) ∧ e ≠ StoreOverflow) ∨
  ∃ persisted old c es ws, mapM (λ v, json_roundtrip v ≫= as_dict) vs = Some persisted ∧ _connection s = Some c ∧
    es0 `prefix_of` es ∧ holds (durable c) es ∧ holds (working c) (es ++ ws) ∧ valid_log ((es ++ ws) ++ persisted) ∧
    append_many vs s = bind (insert_batch persisted) (λ _, bind (modify (set_events (old ++ persisted))) (λ _, ret ())) s.
Proof.
  intros Hi. rewrite append_many_sqlite by apply (si_backend _ _ Hi).
  destruct (mapM as_dict vs); [|left; by eexists]. destruct (mapM _ vs) as [persisted|]; [|left; by eexists].
  destruct (_connection s) as [c|] eqn:Hc.
  - destruct (si_connection _ _ Hi c Hc) as (es & ws & Hp & Hd & Hw & _).
    destruct (read_holds s c (es ++ ws)) as (old & -> & Hperm); [by destruct Hi..|].
    destruct (_validate_events _ _ _) eqn:Hval; [|left; by eexists].
    rewrite (si_legacy _ _ Hi), (si_multi _ _ Hi), validate_multi in Hval. right.
    exists persisted, old, c, es, ws. split_and!; try done. eapply valid_log_perm; [|exact Hval]. by rewrite Hperm.
  - left. unfold read_events. rewrite (si_backend _ _ Hi), Hc. by eexists.
Qed.

Lemma append_many_inv es0 new : preserves (store_inv es0) (append_many new).
Proof.
  intros s Hi. destruct (append_many_cases es0 new s Hi) as [(e & -> & _)|H]; [done|].
  destruct H as (persisted & old & c & es & ws & _ & Hc & Hp & Hd & Hw & Hv & ->).
  pose proof (insert_batch_inv es0 s persisted es ws c Hi Hc Hp Hd Hw Hv) as Hins.
  unfold bind at 1. destruct (insert_batch persisted s) as [[[]|e] s']; [|done]. by apply inv_set_events.
Qed.

(** ** The other operations *)

Lemma require_connection_pure s : (_require_connection s).2 = s.
Proof. unfold _require_connection, bind, get, of_option. by destruct (_connection s). Qed.

Lemma list_run_pure run s : (list_run run s).2 = s.
Proof.
  unfold list_run, bind, get. case_decide.
  - unfold _read_events. destruct (read_events s) as [l|]; [|done]. unfold require.
    destruct (forallb _ l); [|done]. by destruct (forallb _ (filter _ l)).
  - unfold raw_run_rows, _require_connection, bind, get, of_option. destruct (_connection s); [|done]. simpl. by case_match.
Qed.

Lemma holds_checkpoint db es n run : holds db es → holds (add_checkpoint db n run) es.
Proof. by intros (? & ? & ?). Qed.

Lemma inv_checkpoint es0 s c n run :
  store_inv es0 s → _connection s = Some c →
  store_inv es0 (set_connection (Some (commit (write c (add_checkpoint (working c) n run)))) s).
Proof.
  intros Hi Hc. destruct (si_connection _ _ Hi c Hc) as (es & ws & Hp & _ & Hw & _).
  eapply inv_commit; [done..|]. by apply holds_checkpoint.
Qed.

Lemma inv_add_run_checkpoint es0 s run n : store_inv es0 s → store_inv es0 (add_run_checkpoint run n s).
Proof. by intros []. Qed.
Lemma inv_set_checkpoints es0 s l : store_inv es0 s → store_inv es0 (set_checkpoints l s).
Proof. by intros []. Qed.
Lemma inv_close es0 s : store_inv es0 s → store_inv es0 (set_connection None s).
Proof. by intros []. Qed.

Lemma create_run_checkpoint_inv es0 run : preserves (store_inv es0) (create_run_checkpoint run).
Proof.
  intros s Hi. unfold create_run_checkpoint, bind at 1. pose proof (list_run_pure run s) as Hs.
  destruct (list_run run s) as [[l|e] s']; simpl in Hs; subst s'; [|done].
  unfold bind at 1, get. rewrite decide_True by apply (si_backend _ _ Hi).
  unfold _require_connection, bind, get, of_option. destruct (_connection s) as [c|] eqn:Hc; [|done].
  by apply inv_add_run_checkpoint, inv_checkpoint.
Qed.

Lemma create_checkpoint_inv es0 : preserves (store_inv es0) create_checkpoint.
Proof.
  intros s Hi. unfold create_checkpoint, _read_events, bind at 1. destruct (read_events s) as [l|]; [|done].
  unfold bind, modify, get. simpl. rewrite decide_True by apply (si_backend _ _ Hi).
  unfold _require_connection, bind, get, of_option. simpl. destruct (_connection s) as [c|] eqn:Hc.
  - apply inv_set_checkpoints. apply (inv_checkpoint es0 (set_events l s)); [by apply inv_set_events|done].
  - by apply inv_set_events.
Qed.

Lemma replay_inv es0 from : preserves (store_inv es0) (replay from).
Proof.
  intros s Hi. unfold replay, _read_events, bind at 1. destruct (read_events s) as [l|]; [|done].
  unfold bind, modify, replay_from, require. case_match; by apply inv_set_events.
Qed.

Lemma or_rollback_inv {A} es0 (m : prog EventStore store_exn A) :
  preserves (store_inv es0) m → preserves (store_inv es0) (or_rollback m).
Proof.
  intros Hm s Hi. specialize (Hm s Hi). unfold or_rollback. destruct (m s) as [[a|e] s']; simpl in *; [done|].
  by apply inv_rollback.
Qed.

(** A callback that only reads *)
Definition reads_only {A} (m : prog EventStore store_exn A) : Prop := ∀ s, (m s).2 = s.

Lemma reads_only_inv {A} es0 (m : prog EventStore store_exn A) : reads_only m → preserves (store_inv es0) m.
Proof. intros Hm s. by rewrite Hm. Qed.

Lemma next_sequence_no_reads run first : reads_only (next_sequence_no run first).
Proof.
  intros s. unfold next_sequence_no, _require_connection, bind, get, of_option. by destruct (_connection s).
Qed.

Lemma append_allocated_inv es0 run build first :
  (∀ z, reads_only (build z)) → preserves (store_inv es0) (append_allocated run build first).
Proof.
  intros Hb s Hi. unfold append_allocated, bind at 1, get. rewrite bind_require.
  rewrite bool_decide_true by apply (si_backend _ _ Hi).
  unfold _require_connection, bind at 1, bind at 1, get, of_option. destruct (_connection s) as [c|] eqn:Hc; [|done]. simpl.
  unfold or_rollback. rewrite bind_require. destruct (in_transaction c) eqn:Ht; simpl.
  { rewrite Hc. destruct (si_connection _ _ Hi c Hc) as (es & ws & Hp & Hd & _). apply inv_connection; [done|].
    exists es, []. by rewrite app_nil_r. }
  unfold bind at 1, modify. set (s1 := set_connection (Some (write c (working c))) s). assert (Hi1 : store_inv es0 s1).
  { destruct (si_connection _ _ Hi c Hc) as (es & ws & ? & ? & ? & ?). apply inv_connection; [done|]. by exists es, ws. }
  assert (Hp : preserves (store_inv es0) (bind (next_sequence_no run first) (λ z,
                 bind (build z) (λ event, bind (append_many [event]) (λ _, ret event))))).
  { apply preserves_bind; [by apply reads_only_inv, next_sequence_no_reads|]. intros z.
    apply preserves_bind; [by apply reads_only_inv|]. intros event.
    apply preserves_bind; [apply append_many_inv|]. intros _. apply preserves_ret. }
  specialize (Hp s1 Hi1). destruct (bind _ _ s1) as [[a|e] s']; simpl in *; [done|]. by apply inv_rollback.
Qed.

Lemma append_inv es0 v : preserves (store_inv es0) (append v).
Proof. destruct v; try apply preserves_raise. apply append_many_inv. Qed.

(** ** What a successful append leaves *)

Lemma append_many_ok es0 vs s s' :
  store_inv es0 s → append_many vs s = (Ok (), s') →
  ∃ persisted c ws db, mapM (λ v, json_roundtrip v ≫= as_dict) vs = Some persisted ∧ _connection s = Some c ∧
    holds (working c) ws ∧ _connection s' = Some (connect db) ∧ holds db (ws ++ persisted) ∧
    db_checkpoints db = db_checkpoints (working c).
Proof.
  intros Hi H. destruct (append_many_cases es0 vs s Hi) as [(e & Heq & He)|Hcase]; [rewrite Heq in H; by simplify_eq|].
  destruct Hcase as (persisted & old & c & es & ws & Hm & Hc & _ & _ & Hw & Hv & Heq0). rewrite Heq0 in H. clear Heq0.
  apply bind_Ok in H as ([] & s1 & Hins & H). unfold insert_batch, _require_connection, bind, get, of_option in Hins.
  rewrite Hc in Hins. simpl in Hins. destruct Hw as (Hver & Hrows & Hvw). rewrite Hrows in Hins.
  destruct (insert_rows_spec (es ++ ws) persisted Hv) as (ins & f & Heq & _ & Hcase). rewrite Heq in Hins.
  destruct Hcase as [(-> & -> & _)|[-> _]]; [|done]. cbv [modify] in Hins. injection Hins as <-.
  unfold bind, modify, ret in H. injection H as <-. simpl.
  eexists persisted, c, (es ++ ws), _. unfold holds. by split_and!.
Qed.

(** What a batch that the driver stopped leaves in the open transaction *)
Lemma append_many_overflow es0 vs s s' :
  store_inv es0 s → append_many vs s = (Raise StoreOverflow, s') →
  ∃ ins x rest c ws, mapM (λ v, json_roundtrip v ≫= as_dict) vs = Some (ins ++ x :: rest) ∧
    Forall (λ e, fits_integer (seq_of e) = true) ins ∧ fits_integer (seq_of x) = false ∧ _connection s = Some c ∧ holds (working c) ws ∧
    _connection s' = Some (write c (with_rows (working c) (row_of <$> ws ++ ins))).
Proof.
  intros Hi H. destruct (append_many_cases es0 vs s Hi) as [(e & Heq & He)|Hcase]; [rewrite Heq in H; by simplify_eq|].
  destruct Hcase as (persisted & old & c & es & ws & Hm & Hc & _ & _ & Hw & Hv & Heq0). rewrite Heq0 in H. clear Heq0.
  unfold bind, insert_batch, _require_connection, bind, get, of_option in H.
  rewrite Hc in H. simpl in H. pose proof Hw as (_ & Hrows & _). rewrite Hrows in H.
  destruct (insert_rows_spec (es ++ ws) persisted Hv) as (ins & f & Heq & _ & Hcase). rewrite Heq in H.
  destruct Hcase as [(-> & -> & _)|(-> & Hall & x & rest & -> & Hx)]; [done|]. cbv [modify] in H. injection H as <-.
  by exists ins, x, rest, c, (es ++ ws).
Qed.

(** The first event that does not fit *)
Lemma first_unfit (ins ins' rest rest' : list dict) x x' :
  ins ++ x :: rest = ins' ++ x' :: rest' →
  Forall (λ e, fits_integer (seq_of e) = true) ins → fits_integer (seq_of x) = false →
  Forall (λ e, fits_integer (seq_of e) = true) ins' → fits_integer (seq_of x') = false → ins = ins'.
Proof.
  revert ins'. induction ins as [|e ins IH]; intros [|e' ins'] H Hi Hx Hi' Hx'; simplify_eq/=; try done.
  - apply Forall_cons in Hi' as [? _]. congruence.
  - apply Forall_cons in Hi as [? _]. congruence.
  - f_equal. apply Forall_cons in Hi as [_ Hi], Hi' as [_ Hi']. by eapply IH.
Qed.

(** A batch that the log accepts and the driver does not *)
Lemma append_many_unfit es0 vs s old ins x rest :
  store_inv es0 s → is_Some (mapM as_dict vs) → read_events s = Ok old →
  mapM (λ v, json_roundtrip v ≫= as_dict) vs = Some (ins ++ x :: rest) →
  _validate_events (legacy_objects s) (multi_run s) (old ++ ins ++ x :: rest) = true →
  Forall (λ e, fits_integer (seq_of e) = true) ins → fits_integer (seq_of x) = false →
  ∃ s1, append_many vs s = (Raise StoreOverflow, s1).
Proof.
  intros Hi [ds Hds] Hread Hm Hval Hins Hx. rewrite append_many_sqlite by apply (si_backend _ _ Hi).
  rewrite Hds, Hm, Hread, Hval. rewrite (si_legacy _ _ Hi), (si_multi _ _ Hi), validate_multi in Hval.
  destruct (_connection s) as [c|] eqn:Hc; [|unfold read_events in Hread; by rewrite (si_backend _ _ Hi), Hc in Hread].
  destruct (si_connection _ _ Hi c Hc) as (es & ws & _ & _ & Hw & _).
  destruct (read_holds s c (es ++ ws)) as (old' & Hread' & Hperm); [by destruct Hi..|].
  rewrite Hread in Hread'. injection Hread' as <-.
  assert (Hv : valid_log ((es ++ ws) ++ ins ++ x :: rest)) by (eapply valid_log_perm; [|exact Hval]; by rewrite Hperm).
  unfold bind, insert_batch, _require_connection, bind, get, of_option. rewrite Hc. simpl.
  pose proof Hw as (_ & Hrows & _). rewrite Hrows.
  destruct (insert_rows_spec (es ++ ws) _ Hv) as (ins' & f & Heq & _ & Hcase). rewrite Heq.
  destruct Hcase as [(_ & _ & Hall)|(-> & _)]; [|by eexists].
  apply Forall_app in Hall as [_ [? _]%Forall_cons]. congruence.
Qed.

(** ** Lookups *)

Lemma head_filter_row es e :
  NoDup (id_of <$> es) → e ∈ es → head (filter (λ r, row_id r = id_of e) (row_of <$> es)) = Some (row_of e).
Proof.
  induction es as [|x es IH]; [by intros _ ?%elem_of_nil|]. simpl. intros [Hx Hn]%NoDup_cons [->|He]%elem_of_cons.
  - by rewrite filter_cons_True.
  - rewrite filter_cons_False; [by apply IH|]. simpl. intros Heq. apply Hx. rewrite Heq. apply list_elem_of_fmap. eauto.
Qed.

Lemma decode_indexed_id e : event_shape e = true → _decode_indexed_row (row_of e) (Some (id_of e)) None = Some e.
Proof.
  intros Hs. destruct (shape_fields e Hs) as ((v & Hv & Hi) & (w & Hw & Hr) & Hz).
  unfold _decode_indexed_row, row_of. cbn [row_json mbind option_bind as_dict row_id row_run row_seq from_option id].
  rewrite Hv, Hw, Hz, (py_eqb_text _ _ Hi), (py_eqb_text _ _ Hr). simpl. by rewrite Z.eqb_refl.
Qed.

Lemma decode_indexed_run e : event_shape e = true → _decode_indexed_row (row_of e) None (Some (run_of e)) = Some e.
Proof.
  intros Hs. destruct (shape_fields e Hs) as (_ & (w & Hw & Hr) & Hz).
  unfold _decode_indexed_row, row_of. cbn [row_json mbind option_bind as_dict row_id row_run row_seq from_option id].
  rewrite Hw, Hz, (py_eqb_text _ _ Hr). simpl. by rewrite Z.eqb_refl.
Qed.

(** The store is open on a database that holds [es] *)
Record open_on (s : EventStore) (c : connection) (es : list dict) : Prop := {
  oo_backend : backend s = SQLITE;
  oo_connection : _connection s = Some c;
  oo_holds : holds (working c) es
}.

Lemma get_event_found s c es e : open_on s c es → e ∈ es → get_event (id_of e) s = (Ok (Some e), s).
Proof.
  intros [Hb Hc (_ & Hrows & [Hs Hi _])] He. unfold get_event, bind at 1, get. rewrite decide_False by congruence.
  unfold raw_event_row, _require_connection, bind, get, of_option. rewrite Hc. simpl.
  rewrite Hrows, head_filter_row by done. simpl. rewrite decode_indexed_id; [done|].
  by eapply Forall_forall in Hs.
Qed.

Lemma get_event_missing s c es id : open_on s c es → id ∉ id_of <$> es → get_event id s = (Ok None, s).
Proof.
  intros [Hb Hc (_ & Hrows & _)] He. unfold get_event, bind at 1, get. rewrite decide_False by congruence.
  unfold raw_event_row, _require_connection, bind, get, of_option. rewrite Hc. simpl. rewrite Hrows.
  destruct (filter _ (row_of <$> es)) as [|r rs] eqn:Hf; [done|]. exfalso.
  assert (Hr : r ∈ filter (λ r, row_id r = id) (row_of <$> es)) by (rewrite Hf; left).
  apply list_elem_of_filter in Hr as [<- (e & -> & Hin)%list_elem_of_fmap]. apply He, list_elem_of_fmap. eauto.
Qed.

Lemma filter_run_rows run es : run_rows run (row_of <$> es) = row_of <$> filter (λ e, run_of e = run) es.
Proof.
  unfold run_rows. induction es as [|e es IH]; [done|]. rewrite fmap_cons. destruct (decide (run_of e = run)) as [H|H].
  - rewrite !filter_cons_True by done. rewrite fmap_cons. by rewrite IH.
  - rewrite !filter_cons_False by done. done.
Qed.

#[global] Instance seq_row_le_total : Total seq_row_le.
Proof. intros a b. unfold seq_row_le. lia. Qed.
#[global] Instance seq_row_le_trans : Transitive seq_row_le.
Proof. intros a b c. unfold seq_row_le. lia. Qed.

Lemma list_run_of s c es run :
  open_on s c es →
  ∃ l, list_run run s = (Ok l, s) ∧ l ≡ₚ filter (λ e, run_of e = run) es ∧ StronglySorted seq_dict_le l ∧
       merge_sort seq_row_le (run_rows run (db_rows (working c))) = row_of <$> l.
Proof.
  intros [Hb Hc (_ & Hrows & [Hs _ _])]. unfold list_run, bind at 1, get. rewrite decide_False by congruence.
  unfold raw_run_rows, _require_connection, bind, get, of_option. rewrite Hc. simpl. rewrite Hrows, filter_run_rows.
  pose proof (merge_sort_Permutation seq_row_le (row_of <$> filter (λ e, run_of e = run) es)) as Hp.
  pose proof (StronglySorted_merge_sort seq_row_le (row_of <$> filter (λ e, run_of e = run) es)) as Hss.
  apply Permutation_map_inv in Hp as (l & Heq & Hp). change (map row_of l) with (row_of <$> l) in Heq. rewrite Heq in Hss |- *.
  exists l. split_and!; [|done| |done].
  - assert (Hd : mapM (λ r, _decode_indexed_row r None (Some run)) (row_of <$> l) = Some l).
    { apply mapM_Some, Forall2_fmap_l, Forall_Forall2_diag, Forall_forall. intros e He.
      rewrite <-Hp in He. apply list_elem_of_filter in He as [<- He]. apply decode_indexed_run.
      by eapply Forall_forall in Hs. }
    change (map row_of l) with (row_of <$> l). by rewrite Hd.
  - clear -Hss. change (map row_of l) with (row_of <$> l) in Hss. induction l as [|e l IH]; [constructor|].
    rewrite fmap_cons in Hss. inversion_clear Hss as [|? ? Hl Hall]. constructor; [by apply IH|].
    exact (proj1 (Forall_fmap row_of _ _) Hall).
Qed.

(** ** The single-run contract *)

Lemma validate_loop_single l first ids seqs i :
  validate_loop false first ids seqs i l = true →
  Forall (λ e, event_shape e = true) l ∧ NoDup (id_of <$> l) ∧ (∀ e, e ∈ l → id_of e ∉ ids) ∧
  seq_of <$> l = seqZ i (Z.of_nat (length l)) ∧ (∀ r, first = Some r → Forall (λ e, run_of e = r) l) ∧
  ∃ r, Forall (λ e, run_of e = r) l.
Proof.
  revert first ids seqs i. induction l as [|e l IH]; intros first ids seqs i; cbn [validate_loop].
  { intros _. split_and!; try constructor; [by intros ? ?%elem_of_nil|by exists EmptyString]. }
  rewrite !andb_true_iff, negb_true_iff, bool_decide_eq_false. cbn [orb]. intros ((((Hs & Hi) & Hr) & Hz) & Hl).
  destruct (IH _ _ _ _ Hl) as (H1 & H2 & H3 & H4 & H5 & _). split_and!.
  - by constructor.
  - simpl. constructor; [|done]. intros (e' & Heq & He')%list_elem_of_fmap. apply (H3 e' He'). set_solver.
  - intros e' [->|He']%elem_of_cons; [done|]. specialize (H3 e' He'). set_solver.
  - rewrite fmap_cons, H4. apply Z.eqb_eq in Hz. rewrite Hz. change (length (e :: l)) with (S (length l)).
    rewrite Nat2Z.inj_succ, (seqZ_cons i) by lia. by rewrite Z.pred_succ, Z.add_1_r.
  - intros r ->. apply String.eqb_eq in Hr. constructor; [done|]. by apply H5.
  - exists (default (run_of e) first). constructor; [|by apply H5].
    destruct first as [r|]; [by apply String.eqb_eq in Hr|done].
Qed.

Lemma single_valid l : _validate_events false false l = true →
  valid_log l ∧ seq_of <$> l = seqZ 0 (Z.of_nat (length l)) ∧ ∃ r, Forall (λ e, run_of e = r) l.
Proof.
  intros H%validate_loop_single. destruct H as (Hs & Hi & _ & Hz & _ & r & Hr). split; [|by eauto]. split; try done.
  apply (NoDup_fmap_1 snd). rewrite <-list_fmap_compose. change (snd ∘ place) with seq_of. rewrite Hz. apply NoDup_seqZ.
Qed.

#[global] Instance row_le_total : Total row_le.
Proof.
  intros a b. unfold row_le, String.ltb. rewrite !orb_true_iff, !andb_true_iff, !String.eqb_eq, !Z.leb_le.
  pose proof (String.compare_antisym (row_run a) (row_run b)) as Ha.
  destruct (String.compare (row_run a) (row_run b)) eqn:Hc.
  - apply String.compare_eq_iff in Hc. rewrite Hc. destruct (Z.le_ge_cases (row_seq a) (row_seq b)); [left|right]; by right.
  - left. by left.
  - right. left. destruct (String.compare (row_run b) (row_run a)); [done..|done].
Qed.

Lemma row_le_same_run a b : row_run a = row_run b → row_le a b → seq_row_le a b.
Proof.
  unfold row_le, seq_row_le, String.ltb. intros ->.
  pose proof (String.compare_antisym (row_run b) (row_run b)) as Ha.
  destruct (String.compare (row_run b) (row_run b)) eqn:Hc; simpl in *; try done.
  rewrite String.eqb_refl. simpl. by intros ?%Z.leb_le.
Qed.

Lemma sorted_same_run r l : Forall (λ x, row_run x = r) l → Sorted row_le l → StronglySorted seq_row_le l.
Proof.
  intros Hr Hs. apply Sorted_StronglySorted; [apply _|]. induction Hs as [|x l Hs IH Hh]; [constructor|].
  apply Forall_cons in Hr as [Hx Hr]. constructor; [by apply IH|]. destruct Hh as [|y l Hy]; constructor.
  apply Forall_cons in Hr as [Hy' _]. apply row_le_same_run; [congruence|done].
Qed.

Lemma seqs_sorted i l : seq_of <$> l = seqZ i (Z.of_nat (length l)) → StronglySorted seq_row_le (row_of <$> l).
Proof.
  revert i. induction l as [|e l IH]; intros i H; [constructor|]. rewrite fmap_cons in *.
  change (length (e :: l)) with (S (length l)) in H. rewrite Nat2Z.inj_succ, seqZ_cons in H by lia.
  rewrite Z.pred_succ in H. injection H as Hz Hl. constructor; [by eapply IH|].
  apply Forall_fmap, Forall_forall. intros x Hx. unfold seq_row_le. simpl. rewrite Hz.
  assert (Hin : seq_of x ∈ seq_of <$> l) by (by apply list_elem_of_fmap_2).
  change (seq_of <$> l = seqZ (Z.succ i) (Z.of_nat (length l))) in Hl. rewrite Hl in Hin.
  apply elem_of_seqZ in Hin. lia.
Qed.

(** A database of one run reads back in the order of the log *)
Lemma single_rows_sorted l :
  _validate_events false false l = true → merge_sort row_le (row_of <$> l) = row_of <$> l.
Proof.
  intros H%single_valid. destruct H as ([_ _ _] & Hz & r & Hr).
  pose proof (merge_sort_Permutation row_le (row_of <$> l)) as Hp.
  assert (Hruns : Forall (λ x, row_run x = r) (row_of <$> l)) by (by apply Forall_fmap).
  apply (StronglySorted_unique_strong seq_row_le); [| |by eapply seqs_sorted|done].
  - intros x1 x2 H1 H2 L1 L2. rewrite Hp in H1. unfold seq_row_le in *.
    assert (Heq : row_seq x1 = row_seq x2) by lia.
    assert (Hnd : NoDup (row_seq <$> (row_of <$> l))) by (rewrite <-list_fmap_compose; change (row_seq ∘ row_of) with seq_of; rewrite Hz; apply NoDup_seqZ).
    apply list_elem_of_lookup in H1 as [i Hi]. apply list_elem_of_lookup in H2 as [j Hj].
    assert (i = j) as ->; [|congruence].
    eapply NoDup_lookup; [exact Hnd| |]; rewrite list_lookup_fmap; [by rewrite Hi|by rewrite Hj; simpl; f_equal].
  - eapply (sorted_same_run r); [by rewrite Hp|]. apply Sorted_merge_sort, _.
Qed.

(** ** JSON text read twice *)

Section DeepInduction.
Context (P : pyval → Prop).
Context (Hatom : ∀ v, match v with VList _ | VTuple _ | VDict _ => False | _ => True end → P v).
Context (Hlist : ∀ l, Forall P l → P (VList l)) (Htuple : ∀ l, Forall P l → P (VTuple l)).
Context (Hdict : ∀ kvs : dict, Forall (λ kv, P kv.2) kvs → P (VDict kvs)).

(** Induction through lists and the values of dicts *)
Fixpoint pyval_deep_ind (v : pyval) : P v :=
  match v with
  | VList l => Hlist l ((fix go (l : list pyval) : Forall P l :=
                 match l with [] => Forall_nil_2 _ | x :: l' => Forall_cons_2 _ _ _ (pyval_deep_ind x) (go l') end) l)
  | VTuple l => Htuple l ((fix go (l : list pyval) : Forall P l :=
                 match l with [] => Forall_nil_2 _ | x :: l' => Forall_cons_2 _ _ _ (pyval_deep_ind x) (go l') end) l)
  | VDict kvs => Hdict kvs ((fix go (l : list (pyval * pyval)) : Forall (λ kv, P kv.2) l :=
                 match l with
                 | [] => Forall_nil_2 _
                 | (k, x) :: l' => Forall_cons_2 _ (k, x) _ (pyval_deep_ind x) (go l')
                 end) kvs)
  | v => Hatom v I
  end.
End DeepInduction.

(** The items of a decoded object *)
Definition str_items (its : list (string * pyval)) : dict := (λ '(k, v), (VStr k, v)) <$> its.

Lemma dict_set_fresh k v its : k ∉ its.*1 → dict_set k v (str_items its) = str_items (its ++ [(k, v)]).
Proof.
  induction its as [|[k' v'] its IH]; intros Hk; [done|]. simpl. rewrite decide_False by (intros [= ->]; apply Hk; left).
  f_equal. apply IH. intros H. apply Hk. by right.
Qed.

Lemma update_dict_fresh pre its : NoDup ((pre ++ its).*1) → update_dict (str_items pre) its = str_items (pre ++ its).
Proof.
  revert pre. induction its as [|[k v] its IH]; intros pre Hn; [by rewrite app_nil_r|].
  change (update_dict (dict_set k v (str_items pre)) its = str_items (pre ++ (k, v) :: its)). rewrite dict_set_fresh.
  - rewrite (IH (pre ++ [(k, v)])); by rewrite <-app_assoc.
  - rewrite fmap_app in Hn. apply NoDup_app in Hn as (_ & Hd & _). intros H. apply (Hd k H). left.
Qed.

(** Text keys without duplicates, and values that are their own decoding *)
Definition decoded (d : dict) : Prop :=
  ∃ its, d = str_items its ∧ NoDup its.*1 ∧ Forall (λ kv, json_roundtrip kv.2 = Some kv.2) its.

Lemma dict_set_decoded k v its :
  NoDup its.*1 → Forall (λ kv, json_roundtrip kv.2 = Some kv.2) its → json_roundtrip v = Some v →
  ∃ its', dict_set k v (str_items its) = str_items its' ∧ NoDup its'.*1 ∧ its'.*1 ⊆ k :: its.*1 ∧
          Forall (λ kv, json_roundtrip kv.2 = Some kv.2) its'.
Proof.
  induction its as [|[k' v'] its IH]; intros Hn Hf Hv.
  - exists [(k, v)]. split_and!; [done|repeat constructor; set_solver|set_solver|by repeat constructor].
  - simpl in *. apply NoDup_cons in Hn as [Hk' Hn]. apply Forall_cons in Hf as [Hv' Hf]. case_decide as Heq.
    + injection Heq as ->. exists ((k, v) :: its). split_and!; [done|by constructor|set_solver|by constructor].
    + destruct (IH Hn Hf Hv) as (its' & -> & Hn' & Hs & Hf'). exists ((k', v') :: its'). split_and!; try done.
      * simpl. constructor; [|done]. intros H%Hs%elem_of_cons. destruct H as [H|H]; [by subst k'|by apply Hk'].
      * simpl. set_solver.
      * by constructor.
Qed.

Lemma update_dict_decoded d items :
  decoded d → Forall (λ kv, json_roundtrip kv.2 = Some kv.2) items → decoded (update_dict d items).
Proof.
  revert d. induction items as [|[k v] items IH]; intros d Hd Hf; [done|]. apply Forall_cons in Hf as [Hv Hf].
  unfold update_dict. simpl. apply IH; [|done]. destruct Hd as (its & -> & Hn & Hf').
  destruct (dict_set_decoded k v its Hn Hf' Hv) as (its' & ? & ? & _ & ?). by exists its'.
Qed.

Lemma roundtrip_decoded d : decoded d → json_roundtrip (VDict d) = Some (VDict d).
Proof.
  intros (its & -> & Hn & Hf). simpl.
  assert (Hm : mapM (λ '(k, x), text_key k ≫= λ s, (λ y, (s, y)) <$> json_roundtrip x) (str_items its) = Some its).
  { apply mapM_Some. unfold str_items. apply Forall2_fmap_l, Forall_Forall2_diag. eapply Forall_impl; [exact Hf|].
    intros [k v] Hv. simpl in *. by rewrite Hv. }
  rewrite Hm. simpl. do 2 f_equal. exact (update_dict_fresh [] its Hn).
Qed.

(** What [json.loads] gives for a dumped value dumps to the same text *)
Lemma json_roundtrip_idem v w : json_roundtrip v = Some w → json_roundtrip w = Some w.
Proof.
  revert w. induction v as [v Hv|l IH|l IH|kvs IH] using pyval_deep_ind; intros w H.
  - destruct v; simpl in *; simplify_eq; try done. case_match; simplify_eq. simpl. by rewrite H0.
  - simpl in H. apply fmap_Some in H as (k & Hk & ->). apply mapM_Some in Hk. simpl.
    assert (Hs : mapM json_roundtrip k = Some k); [|by rewrite Hs].
    apply mapM_Some. induction Hk; [constructor|]. apply Forall_cons in IH as [Hx IH]. constructor; eauto.
  - simpl in H. apply fmap_Some in H as (k & Hk & ->). apply mapM_Some in Hk. simpl.
    assert (Hs : mapM json_roundtrip k = Some k); [|by rewrite Hs].
    apply mapM_Some. induction Hk; [constructor|]. apply Forall_cons in IH as [Hx IH]. constructor; eauto.
  - simpl in H. apply fmap_Some in H as (items & Hk & ->). apply roundtrip_decoded, update_dict_decoded.
    + exists []. split_and!; [done|constructor|constructor].
    + apply mapM_Some in Hk. induction Hk as [|[k x] [s y] kvs items Hx Hk IHk]; [constructor|].
      apply Forall_cons in IH as [Hy IH]. constructor; [|by apply IHk]. simpl in *.
      apply bind_Some in Hx as (s' & _ & Hx). apply fmap_Some in Hx as (y' & Hy' & [= -> ->]). by apply Hy.
Qed.
