(* ===== verification/EventStoreTheorems.v ===== *)
(** * Kernel event store: theorems

    The log under any sequence of calls, what an append makes findable, a failed
    batch that becomes durable, snapshots and migration. *)

From Stdlib Require Import ZArith Ascii String SpecFloat.
From S2P Require Import Prelude PyVal Json Contracts ObservedAttributes EventPayloads EventStore EventStoreProofs.
Local Open Scope Z_scope.

(** ** Sequences of calls *)

(** A call on a store; the callback of [append_allocated] may read the store. *)
Inductive store_op : Type :=
| OAppend (event : pyval)
| OAppendMany (events : list pyval)
| OAppendAllocated (run : string) (build : Z → EventStore → outcome store_exn pyval) (first : Z)
| OCreateCheckpoint
| OCreateRunCheckpoint (run : string)
| OReplay (from : option Z)
| OReplayRun (run : string) (from : option Z)
| OGetEvent (id : string)
| OBackup (sha256 : content → string)
| OClose.

Definition after {A} (m : prog EventStore store_exn A) (s : EventStore) : EventStore := (m s).2.

Definition exec (o : store_op) : EventStore → EventStore :=
  match o with
  | OAppend v => after (append v)
  | OAppendMany l => after (append_many l)
  | OAppendAllocated run b first => after (append_allocated run (λ z s, (b z s, s)) first)
  | OCreateCheckpoint => after create_checkpoint
  | OCreateRunCheckpoint run => after (create_run_checkpoint run)
  | OReplay from => after (replay from)
  | OReplayRun run from => after (replay_run run from)
  | OGetEvent id => after (get_event id)
  | OBackup sha256 => after (backup sha256)
  | OClose => after close
  end.

Definition exec_all (ops : list store_op) (s : EventStore) : EventStore := foldl (λ s o, exec o s) s ops.

Lemma replay_run_pure run from s : (replay_run run from s).2 = s.
Proof.
  unfold replay_run, bind. pose proof (list_run_pure run s) as Hs. destruct (list_run run s) as [[l|] s']; simpl in Hs; subst.
  - unfold replay_from. rewrite bind_require. by case_match.
  - done.
Qed.

Lemma get_event_pure es0 id s : store_inv es0 s → (get_event id s).2 = s.
Proof.
  intros Hi. unfold get_event, bind at 1, get. rewrite decide_False by (rewrite (si_backend _ _ Hi); done).
  unfold raw_event_row, _require_connection, bind, get, of_option. destruct (_connection s); [|done]. simpl.
  destruct (head _); [|done]. by destruct (_decode_indexed_row _ _ _).
Qed.

Lemma backup_inv es0 sha : preserves (store_inv es0) (backup sha).
Proof.
  intros s Hi. unfold backup, bind at 1, get. rewrite decide_True by apply (si_backend _ _ Hi).
  unfold _require_connection, bind, get, of_option. destruct (_connection s) as [c|] eqn:Hc; [|done]. simpl.
  destruct (si_connection _ _ Hi c Hc) as (es & ws & Hp & _ & Hw & _).
  assert (H : store_inv es0 (set_connection (Some (commit c)) s)) by (by eapply inv_commit).
  unfold modify, _read_events. by destruct (read_events _).
Qed.

Lemma exec_inv es0 o s : store_inv es0 s → store_inv es0 (exec o s).
Proof.
  intros Hi. destruct o; simpl; unfold after.
  - by apply append_inv.
  - by apply append_many_inv.
  - by apply append_allocated_inv.
  - by apply create_checkpoint_inv.
  - by apply create_run_checkpoint_inv.
  - by apply replay_inv.
  - by rewrite replay_run_pure.
  - by rewrite (get_event_pure es0).
  - by apply backup_inv.
  - by apply inv_close.
Qed.

Lemma exec_all_inv es0 ops s : store_inv es0 s → store_inv es0 (exec_all ops s).
Proof. revert s. induction ops as [|o ops IH]; intros s Hi; simpl; [done|]. by apply IH, exec_inv. Qed.

Lemma open_holds multi db es : holds db es →
  ∃ s, open_sqlite multi db = Some s ∧ backend s = SQLITE ∧ multi_run s = multi ∧ legacy_objects s = false ∧
       _connection s = Some (connect db).
Proof.
  intros (Hv & _). unfold open_sqlite. destruct db as [v rows cps]. simpl in *. subst v. rewrite decide_True by done.
  by eexists.
Qed.

Lemma open_inv db es : holds db es → ∃ s, open_sqlite true db = Some s ∧ store_inv es s ∧ open_on s (connect db) es.
Proof.
  intros H. destruct (open_holds true db es H) as (s & Hs & ? & ? & ? & Hc). exists s. split_and!; [done| |done].
  split; try done. rewrite Hc. intros ? [= <-]. exists es, []. by rewrite app_nil_r.
Qed.

(** The log of a store of several runs is append-only and stays readable.
    Whatever sequence of appends, batches, allocations, checkpoints, replays,
    lookups and snapshots is made on a store opened on a database that holds
    [es0] - failing calls included - the committed rows are those of a log that
    extends [es0] without changing or dropping an event, that log satisfies the
    event contract, and a store opened on the file again reads exactly its
    events. *)
Theorem log_is_append_only db es0 ops :
  holds db es0 →
  ∃ s, open_sqlite true db = Some s ∧
    ∀ c, _connection (exec_all ops s) = Some c →
    ∃ es, es0 `prefix_of` es ∧ db_rows (durable c) = row_of <$> es ∧ _validate_events false true es = true ∧
      ∃ s' es', open_sqlite true (durable c) = Some s' ∧ read_events s' = Ok es' ∧ es' ≡ₚ es.
Proof.
  intros H. destruct (open_inv db es0 H) as (s & Hs & Hi & _). exists s. split; [done|]. intros c Hc.
  destruct (si_connection _ _ (exec_all_inv es0 ops s Hi) c Hc) as (es & ws & Hp & Hd & _).
  exists es. split; [done|]. split; [apply Hd|]. split; [apply validate_multi, Hd|].
  destruct (open_holds true _ _ Hd) as (s' & Hs' & ? & ? & ? & Hc').
  destruct (read_holds s' (connect (durable c)) es) as (es' & Hr & Hp'); [done..|]. by exists s', es'.
Qed.

(** An event as a caller passes it *)
Definition sample (id run : string) (seq : Z) : dict :=
  [(VStr "event_id", VStr id); (VStr "run_id", VStr run); (VStr "sequence_no", VInt seq);
   (VStr "event_type", VEnum "WorldEventType" "fault"); (VStr "occurred_at", VStr "2026-01-01T00:00:00Z");
   (VStr "payload", VDict []); (VStr "evidence_refs", VTuple [])].
Definition stored_sample (id run : string) (seq : Z) : dict :=
  [(VStr "event_id", VStr id); (VStr "run_id", VStr run); (VStr "sequence_no", VInt seq);
   (VStr "event_type", VStr "fault"); (VStr "occurred_at", VStr "2026-01-01T00:00:00Z");
   (VStr "payload", VDict []); (VStr "evidence_refs", VList [])].

Definition sample_ops : list store_op :=
  [OAppend (VDict (sample "a" "run-1" 0)); OAppendMany [VDict (sample "b" "run-2" 0); VDict (sample "b" "run-2" 1)];
   OAppendAllocated "run-1" (λ z _, Ok (VDict (sample "c" "run-1" z))) 0; OCreateCheckpoint; OCreateRunCheckpoint "run-1"].

Lemma log_is_append_only_witness :
  (∃ s c, open_sqlite true empty_database = Some s ∧ _connection (exec_all sample_ops s) = Some c ∧
    db_rows (durable c) = row_of <$> [stored_sample "a" "run-1" 0; stored_sample "c" "run-1" 1]) ∧
  ∃ s, open_sqlite true empty_database = Some s ∧
    ∀ c, _connection (exec_all sample_ops s) = Some c →
    ∃ es, [] `prefix_of` es ∧ db_rows (durable c) = row_of <$> es ∧ _validate_events false true es = true ∧
      ∃ s' es', open_sqlite true (durable c) = Some s' ∧ read_events s' = Ok es' ∧ es' ≡ₚ es.
Proof.
  split.
  - eexists _, _. split_and!; [reflexivity|vm_compute; reflexivity|vm_compute; reflexivity].
  - apply (log_is_append_only empty_database [] sample_ops), empty_holds.
Defined.

(** The states that calls on an opened store of several runs reach *)
Definition reachable (s : EventStore) : Prop :=
  ∃ db es0 s0 ops, holds db es0 ∧ open_sqlite true db = Some s0 ∧ s = exec_all ops s0.

Lemma store_reachable_inv s : reachable s → ∃ es0, store_inv es0 s.
Proof.
  intros (db & es0 & s0 & ops & H & Hs & ->). destruct (open_inv db es0 H) as (s & Hs' & Hi & _).
  rewrite Hs in Hs'. injection Hs' as <-. exists es0. by apply exec_all_inv.
Qed.

Lemma append_as_many v s : append v s = (Ok (), (append v s).2) → append v s = append_many [v] s.
Proof. by destruct v. Qed.

(** C18: an appended event can be found.  On a SQLite store of several runs
    ([multi_run]) that was opened on a database whose rows are those of a valid
    log, and after any calls on it: when [append] returns, the event as decoded
    from its own JSON text is what [get_event] returns for its identifier, it is in
    the list of its run, which is in the order of its sequence numbers and has
    nothing of another run, and it is committed. *)
Theorem appended_event_is_found s v s' :
  reachable s → append v s = (Ok (), s') →
  ∃ e l c, json_roundtrip v = Some (VDict e) ∧ get_event (id_of e) s' = (Ok (Some e), s') ∧
    list_run (run_of e) s' = (Ok l, s') ∧ e ∈ l ∧ Sorted seq_dict_le l ∧ Forall (λ e', run_of e' = run_of e) l ∧
    _connection s' = Some c ∧ row_of e ∈ db_rows (durable c).
Proof.
  intros [es0 Hi]%store_reachable_inv H. rewrite append_as_many in H by (by rewrite H).
  pose proof (append_many_inv es0 [v] s Hi) as Hi'. rewrite H in Hi'. simpl in Hi'.
  destruct (append_many_ok es0 _ _ _ Hi H) as (persisted & c & ws & db & Hp & _ & _ & Hc' & Hh & _).
  apply mapM_Some in Hp. inversion Hp as [|? e ? ps He Hps]; subst. inversion Hps; subst.
  apply bind_Some in He as (w & Hw & He). destruct w; try done. injection He as ->.
  assert (Ho : open_on s' (connect db) (ws ++ [e])) by (split; [apply Hi'|done..]).
  destruct (list_run_of s' _ _ (run_of e) Ho) as (l & Hl & Hperm & Hss & _).
  exists e, l, (connect db). split_and!; try done.
  - eapply get_event_found; [done|]. apply elem_of_app. right. left.
  - rewrite Hperm. apply list_elem_of_filter. split; [done|]. apply elem_of_app. right. left.
  - by apply StronglySorted_Sorted.
  - rewrite Hperm. apply Forall_forall. by intros x [? _]%list_elem_of_filter.
  - simpl. destruct Hh as (_ & -> & _). rewrite fmap_app. apply elem_of_app. right. left.
Qed.

Definition opened : EventStore := default (open_jsonl false true None) (open_sqlite true empty_database).

Lemma appended_event_is_found_witness :
  let s := exec_all sample_ops opened in
  let s' := (append (VDict (sample "d" "run-1" 7)) s).2 in
  append (VDict (sample "d" "run-1" 7)) s = (Ok (), s') ∧
  ∃ e l c, json_roundtrip (VDict (sample "d" "run-1" 7)) = Some (VDict e) ∧ get_event (id_of e) s' = (Ok (Some e), s') ∧
    list_run (run_of e) s' = (Ok l, s') ∧ e ∈ l ∧ Sorted seq_dict_le l ∧ Forall (λ e', run_of e' = run_of e) l ∧
    _connection s' = Some c ∧ row_of e ∈ db_rows (durable c).
Proof.
  split; [vm_compute; reflexivity|].
  apply (appended_event_is_found (exec_all sample_ops opened)).
  - exists empty_database, [], opened, sample_ops. split; [apply empty_holds|]. split; [vm_compute; reflexivity|reflexivity].
  - vm_compute. reflexivity.
Defined.

(** C19: a batch that was refused becomes durable.  On a SQLite store of several
    runs opened on a database whose rows are those of a valid log, after any calls
    on it: when a batch of JSON objects passes the validation of the log but an
    event [x] of it has a sequence number that does not fit 64 bits, [append_many]
    raises [OverflowError] (it catches only the errors of the database), and after
    the next batch that is accepted the events before the first such [x] are
    committed. *)
Theorem refused_batch_becomes_durable s vs old ins x rest :
  reachable s → is_Some (mapM as_dict vs) → read_events s = Ok old →
  mapM (λ v, json_roundtrip v ≫= as_dict) vs = Some (ins ++ x :: rest) →
  _validate_events (legacy_objects s) (multi_run s) (old ++ ins ++ x :: rest) = true →
  Forall (λ e, fits_integer (seq_of e) = true) ins → fits_integer (seq_of x) = false →
  ∃ s1, append_many vs s = (Raise StoreOverflow, s1) ∧
    ∀ us s2, append_many us s1 = (Ok (), s2) →
      ∃ c, _connection s2 = Some c ∧ in_transaction c = false ∧ Forall (λ e, row_of e ∈ db_rows (durable c)) ins.
Proof.
  intros [es0 Hi]%store_reachable_inv Hd Hread Hm Hval Hins Hx.
  destruct (append_many_unfit es0 vs s old ins x rest Hi Hd Hread Hm Hval Hins Hx) as [s1 H1]. exists s1. split; [done|].
  intros us s2 H2. pose proof (append_many_inv es0 vs s Hi) as Hi1. rewrite H1 in Hi1.
  destruct (append_many_overflow es0 _ _ _ Hi H1) as (ins' & x' & rest' & c & ws & Hm' & Hins' & Hx' & _ & _ & Hc1).
  destruct (append_many_ok es0 _ _ _ Hi1 H2) as (ps & c1 & ws1 & db & _ & Hc1' & Hw1 & Hc2 & Hh & _).
  simpl in Hc1'. rewrite Hc1 in Hc1'. injection Hc1' as <-.
  rewrite Hm in Hm'. injection Hm' as Hm'. rewrite (first_unfit _ _ _ _ _ _ Hm' Hins Hx Hins' Hx').
  exists (connect db). split_and!; try done. apply Forall_forall. intros e He. simpl.
  destruct Hw1 as (_ & Hr1 & _). destruct Hh as (_ & -> & _). rewrite fmap_app, <-Hr1. simpl. rewrite fmap_app.
  apply elem_of_app. left. apply elem_of_app. right. by apply list_elem_of_fmap_2.
Qed.

Definition oversized_batch : list pyval := [VDict (sample "x" "run-9" 3); VDict (sample "y" "run-9" (2 ^ 63))].

Lemma refused_batch_becomes_durable_witness :
  (2 ^ 63 = seq_of (stored_sample "y" "run-9" (2 ^ 63)) ∧
   ∃ s1, append_many oversized_batch opened = (Raise StoreOverflow, s1) ∧
    ∀ us s2, append_many us s1 = (Ok (), s2) →
      ∃ c, _connection s2 = Some c ∧ in_transaction c = false ∧
        Forall (λ e, row_of e ∈ db_rows (durable c)) [stored_sample "x" "run-9" 3]) ∧
  (append_many [VDict (sample "z" "run-8" 0)] (append_many oversized_batch opened).2).1 = Ok ().
Proof.
  split; [|vm_compute; reflexivity]. split; [vm_compute; reflexivity|].
  apply (refused_batch_becomes_durable opened oversized_batch [] [stored_sample "x" "run-9" 3]
    (stored_sample "y" "run-9" (2 ^ 63)) []).
  - exists empty_database, [], opened, []. split; [apply empty_holds|]. split; [vm_compute; reflexivity|reflexivity].
  - by eexists.
  - vm_compute. reflexivity.
  - vm_compute. reflexivity.
  - vm_compute. reflexivity.
  - constructor; [vm_compute; reflexivity|constructor].
  - vm_compute. reflexivity.
Defined.

(** ** Snapshots *)

Section Snapshots.
Context (sha256 : content → string).

(** The store that [restore] opens for a snapshot of a database *)
Lemma restore_database db m :
  m_database m = SQLITE → m_schema_version m = SCHEMA_VERSION → m_sha256 m = sha256 (Database db) →
  restore sha256 (Database db) m =
  match open_sqlite false db with
  | None => Raise StoreError
  | Some probe =>
      match read_events probe with
      | Raise _ => Raise StoreError
      | Ok l => if Z.of_nat (length l) =? m_event_count m then Ok probe else Raise StoreError
      end
  end.
Proof. intros H1 H2 H3. unfold restore. rewrite H1, H2, H3, !String.eqb_refl. done. Qed.

Lemma backup_database s c x m s' :
  backend s = SQLITE → _connection s = Some c → backup sha256 s = (Ok (x, m), s') →
  x = Database (working c) ∧ m_database m = SQLITE ∧ m_schema_version m = SCHEMA_VERSION ∧ m_sha256 m = sha256 x ∧
  m_event_count m = Z.of_nat (length (events s)).
Proof.
  intros Hb Hc H. unfold backup, bind at 1, get in H. rewrite decide_True in H by done.
  unfold _require_connection, bind, get, of_option, modify, _read_events in H. rewrite Hc in H. simpl in H.
  destruct (read_events _); [|done]. unfold ret in H. rewrite Hb in H. by injection H as <- <- <-.
Qed.

Lemma length_mapM {A B} (f : A → option B) l k : mapM f l = Some k → length k = length l.
Proof. intros H%mapM_Some. symmetry. by eapply Forall2_length. Qed.

(** Reading a database returns as many events as it has rows *)
Lemma read_length s c l :
  backend s = SQLITE → _connection s = Some c → read_events s = Ok l → length l = length (db_rows (working c)).
Proof.
  intros Hb Hc H. unfold read_events in H. rewrite Hb, Hc in H. case_decide; [|done].
  destruct (mapM _ _) as [k|] eqn:Hm; [|done]. case_match; [|done]. injection H as <-.
  rewrite (length_mapM _ _ _ Hm). by rewrite (merge_sort_Permutation row_le).
Qed.

Lemma open_connection multi db s :
  open_sqlite multi db = Some s →
  backend s = SQLITE ∧ events s = [] ∧ ∃ c, _connection s = Some c ∧ db_rows (working c) = db_rows db.
Proof. unfold open_sqlite. case_decide; [|done]. intros [= <-]. split_and!; try done. by eexists. Qed.

(** The snapshot of a store that was only opened cannot be restored.  The
    manifest counts the events of the attribute [events], which is empty until
    an append, a replay or a checkpoint, so that [restore] refuses the snapshot
    that [backup] just made of any database with events, for the count. *)
Theorem snapshot_of_an_unread_store_is_refused multi db s x m s' :
  open_sqlite multi db = Some s → db_rows db ≠ [] → backup sha256 s = (Ok (x, m), s') →
  m_event_count m = 0 ∧ restore sha256 x m = Raise StoreError.
Proof.
  intros Ho Hne H. destruct (open_connection _ _ _ Ho) as (Hb & He & c & Hc & Hr).
  destruct (backup_database s c x m s' Hb Hc H) as (-> & H1 & H2 & H3 & H4). rewrite He in H4.
  split; [done|]. rewrite restore_database by done. destruct (open_sqlite false (working c)) as [p|] eqn:Hp; [|done].
  destruct (read_events p) as [l|] eqn:Hl; [|done]. destruct (open_connection _ _ _ Hp) as (Hbp & _ & cp & Hcp & Hrp).
  rewrite H4. pose proof (read_length p cp l Hbp Hcp Hl) as Hlen. rewrite Hrp, Hr in Hlen.
  destruct (Z.eqb_spec (Z.of_nat (length l)) (Z.of_nat (length (A:=dict) []))) as [Heq|]; [|done]. simpl in Heq.
  destruct (db_rows db); [done|]. simpl in Hlen. lia.
Qed.

Lemma replay_all s l s1 : replay None s = (Ok l, s1) → read_events s = Ok l ∧ s1 = set_events l s.
Proof.
  unfold replay, _read_events, bind, modify, replay_from. destruct (read_events s) as [k|]; [|done].
  rewrite bind_require. simpl. case_match; [|done]. unfold ret. rewrite drop_0. by intros [= -> <-].
Qed.

(** What a database that was read reads when it is opened again *)
Lemma reopen_database s c l :
  backend s = SQLITE → multi_run s = false → legacy_objects s = false → _connection s = Some c → read_events s = Ok l →
  ∃ p, open_sqlite false (working c) = Some p ∧ read_events p = Ok l.
Proof.
  intros Hb Hm Hl Hc H. unfold read_events in H. rewrite Hb, Hc, Hm, Hl in H. case_decide as Hv; [|done].
  unfold open_sqlite. destruct (working c) as [v rows cps]. simpl in Hv. subst v. rewrite decide_True by done.
  eexists. split; [done|]. exact H.
Qed.

(** A snapshot round trip.  For a store of one run, on either backend, that
    has read its log, [restore] accepts what [backup] wrote and the restored
    store reads the same events in the same order. *)
Theorem snapshots_restore s l s1 x m s2 :
  multi_run s = false → legacy_objects s = false →
  replay None s = (Ok l, s1) → backup sha256 s1 = (Ok (x, m), s2) →
  ∃ s3, restore sha256 x m = Ok s3 ∧ read_events s3 = Ok l.
Proof.
  intros Hm Hl [Hr ->]%replay_all H. destruct (backend s) eqn:Hb.
  - unfold backup, bind at 1, get in H. simpl in H. rewrite decide_False in H by congruence.
    unfold bind, _read_events, ret in H. destruct (read_events (set_events l s)); [|done]. simpl in H. injection H as <- <- <-.
    set (lines := match log_file s with Some (_, k) => k | None => [] end).
    assert (Hp : read_events (open_jsonl false false (Some (0%nat, lines))) = Ok l).
    { unfold read_events in Hr. rewrite Hb, Hm, Hl in Hr. unfold lines.
      destruct (log_file s) as [[v k]|]; [exact Hr|by injection Hr as <-]. }
    unfold restore, open_content. cbn [m_schema_version m_sha256 m_database m_event_count backend set_events events].
    rewrite Hb, !String.eqb_refl, Hp, Z.eqb_refl. by eexists.
  - destruct (_connection s) as [c|] eqn:Hc; [|unfold read_events in Hr; by rewrite Hb, Hc in Hr].
    destruct (backup_database (set_events l s) c x m s2 Hb Hc H) as (-> & H1 & H2 & H3 & H4).
    destruct (reopen_database s c l Hb Hm Hl Hc Hr) as (p & Hp & Hrp).
    rewrite restore_database by done. rewrite Hp, Hrp, H4. simpl. rewrite Z.eqb_refl. by exists p.
Qed.
End Snapshots.

Definition single : EventStore := default (open_jsonl false false None) (open_sqlite false empty_database).
Definition two_events : EventStore :=
  (append_many [VDict (sample "a" "run-1" 0); VDict (sample "b" "run-1" 1)] single).2.
Definition two_rows : database := match _connection two_events with Some c => durable c | None => empty_database end.
Definition unread : EventStore := default single (open_sqlite false two_rows).

Lemma snapshot_of_an_unread_store_is_refused_witness :
  ∃ x m s', backup (λ _, "digest") unread = (Ok (x, m), s') ∧
    m_event_count m = 0 ∧ restore (λ _, "digest") x m = Raise StoreError.
Proof.
  eexists _, _, _. split; [vm_compute; reflexivity|].
  eapply (snapshot_of_an_unread_store_is_refused (λ _, "digest") false two_rows unread).
  - vm_compute. reflexivity.
  - vm_compute. discriminate.
  - vm_compute. reflexivity.
Defined.

Lemma snapshots_restore_witness :
  ∃ l x m s2, backup (λ _, "digest") (replay None unread).2 = (Ok (x, m), s2) ∧ length l = 2%nat ∧
    ∃ s3, restore (λ _, "digest") x m = Ok s3 ∧ read_events s3 = Ok l.
Proof.
  eexists [stored_sample "a" "run-1" 0; stored_sample "b" "run-1" 1], _, _, _.
  split; [vm_compute; reflexivity|]. split; [reflexivity|].
  eapply (snapshots_restore (λ _, "digest") unread _ (replay None unread).2); vm_compute; reflexivity.
Defined.

(** ** Migration *)

(** A strict JSON text decodes to [v] *)
Definition strict_json (v : pyval) : Prop := ∃ u, json_roundtrip u = Some v.

Lemma strict_batch l : Forall (λ e, strict_json (VDict e)) l →
  mapM as_dict (VDict <$> l) = Some l ∧ mapM (λ v, json_roundtrip v ≫= as_dict) (VDict <$> l) = Some l.
Proof.
  intros H. split; apply mapM_Some, Forall2_fmap_l, Forall_Forall2_diag; eapply Forall_impl; try exact H; intros e [u Hu]; [done|].
  change (json_roundtrip (VDict e) ≫= as_dict = Some e). by rewrite (json_roundtrip_idem _ _ Hu).
Qed.

Lemma append_to_empty l :
  _validate_events false false l = true → Forall (λ e, strict_json (VDict e)) l → Z.of_nat (length l) <= 2 ^ 63 →
  ∃ s', append_many (VDict <$> l) single = (Ok (), s') ∧
        _connection s' = Some (connect (with_rows empty_database (row_of <$> l))).
Proof.
  intros Hv Hj Hlen. destruct (strict_batch l Hj) as [H1 H2]. rewrite append_many_sqlite by done. rewrite H1, H2.
  change (read_events single) with (Ok (E:=store_exn) (@nil dict)). cbn [app].
  change (legacy_objects single) with false. change (multi_run single) with false. rewrite Hv.
  destruct (single_valid l Hv) as (Hval & Hz & _).
  destruct (insert_rows_spec [] l Hval) as (ins & f & Heq & _ & Hcase).
  assert (Hfits : Forall (λ e, fits_integer (seq_of e) = true) l).
  { apply Forall_forall. intros e He. assert (Hin : seq_of e ∈ seq_of <$> l) by (by apply list_elem_of_fmap_2).
    rewrite Hz in Hin. apply elem_of_seqZ in Hin. unfold fits_integer. apply andb_true_iff.
    rewrite Z.leb_le, Z.ltb_lt. lia. }
  assert (Hins : insert_batch l single = (Ok (), set_connection (Some (connect (with_rows empty_database (row_of <$> l)))) single)).
  { unfold insert_batch, _require_connection, bind, get, of_option. cbn [_connection single open_sqlite].
    change (_connection single) with (Some (connect empty_database)). cbn [working connect db_rows empty_database].
    change (row_of <$> []) with (@nil row) in Heq. unfold ret.
    cbn [working connect db_rows empty_database]. rewrite Heq. destruct Hcase as [(-> & -> & _)|(-> & _ & x & rest & -> & Hx)]; [done|].
    apply Forall_app in Hfits as [_ Hfits]. apply Forall_cons in Hfits as [Hf _]. congruence. }
  unfold bind at 1. rewrite Hins. by eexists.
Qed.

(** Migration keeps the log.  A JSONL log of one run that a strict reader
    accepts, whose values are strict JSON, migrates, and the new database reads
    the same events in the same order. *)
Theorem migration_keeps_the_log source l :
  read_events (open_jsonl false false source) = Ok l → Forall (λ e, strict_json (VDict e)) l →
  Z.of_nat (length l) <= 2 ^ 63 →
  ∃ s, migrate_jsonl source = Ok s ∧ read_events s = Ok l.
Proof.
  intros Hr Hj Hlen. unfold migrate_jsonl.
  assert (Hrep : replay None (open_jsonl false false source) = (Ok l, set_events l (open_jsonl false false source))).
  { unfold replay, _read_events, bind, modify, replay_from. rewrite Hr. rewrite bind_require. simpl.
    rewrite (proj2 (Z.leb_le 0 (Z.of_nat (length l)))) by lia. unfold ret. by rewrite drop_0. }
  rewrite Hrep. change (open_sqlite false empty_database) with (Some single). cbn iota beta.
  assert (Hv : _validate_events false false l = true).
  { unfold read_events in Hr. destruct source as [[v lines]|]; simpl in Hr; [|by injection Hr as <-].
    destruct (jsonl_events lines) as [k|]; [|done]. by destruct (validate_loop false None ∅ ∅ 0 k) eqn:Hk; [injection Hr as <-|]. }
  destruct (append_to_empty l Hv Hj Hlen) as (s' & -> & ->). cbn [durable connect].
  eexists. split; [done|].
  assert (Hd : mapM decode_row (merge_sort row_le (row_of <$> l)) = Some l).
  { rewrite (single_rows_sorted l Hv). apply decode_rows, (single_valid l Hv). }
  unfold read_events.
  change (match mapM decode_row (merge_sort row_le (row_of <$> l)) with
          | Some k => if _validate_events false false k then Ok k else Raise StoreError
          | None => Raise StoreError
          end = Ok l). by rewrite Hd, Hv.
Qed.

Definition two_lines : list line :=
  [LValue (VDict (stored_sample "a" "run-1" 0)); LBlank; LValue (VDict (stored_sample "b" "run-1" 1))].

Lemma migration_keeps_the_log_witness :
  ∃ s, migrate_jsonl (Some (0%nat, two_lines)) = Ok s ∧
    read_events s = Ok [stored_sample "a" "run-1" 0; stored_sample "b" "run-1" 1].
Proof.
  apply migration_keeps_the_log; [vm_compute; reflexivity| |simpl; lia].
  constructor; [by exists (VDict (sample "a" "run-1" 0))|]. constructor; [by exists (VDict (sample "b" "run-1" 1))|constructor].
Defined.
