(* ===== verification/WorldModelStore.v ===== *)
(** * World-model event store

    [services/world_model/workbench_world_model/event_store.py]: typed
    [WorldEvent]s over the kernel's store of several runs.  Its two error classes
    are one constructor ([EventStoreMigrationRequiredError] is a subclass of the
    other).  The text of an event is its list of tokens; the object that
    [json.loads] gives for it keeps the order of the dump, which no reader
    inspects. *)

From Stdlib Require Import ZArith Ascii String SpecFloat.
From S2P Require Import Prelude PyVal Json Contracts ObservedAttributes EventPayloads Reducer EventStore.
Local Open Scope prog_scope.
Local Open Scope Z_scope.

(** [MAX_EVENTS_PER_RUN] of the backend's read model *)
Definition MAX_EVENTS_PER_RUN : Z := 10000.
Definition FIRST_SEQUENCE_NO : Z := 1.

Abbreviation adapter A := (prog EventStore store_exn A).

(** [_integrity_error] *)
Definition _integrity_error (e : store_exn) : store_exn := match e with StoreError => StoreIntegrity | _ => e end.

(** [_read]: a kernel call whose refusals are translated *)
Definition _read {A} (operation : adapter A) : adapter A :=
  λ s, match operation s with (Ok a, s') => (Ok a, s') | (Raise e, s') => (Raise (_integrity_error e), s') end.

(** A call of the payload boundary *)
Definition checked {A} (o : outcome exn A) : adapter A :=
  match o with Ok a => ret a | Raise e => raise (StorePayload e) end.

(** ** Events and their text *)

(** [_canonical_event_json]; [StoreValue] stands for what [json.dumps] raises *)
Definition _canonical_event_json (e : WorldEvent) : adapter (list token) :=
  of_option (json_tokens (event_dump e)) StoreValue.

(** [json.loads(event_json)] *)
Definition loaded (e : WorldEvent) : adapter pyval := of_option (json_roundtrip (event_dump e)) StoreValue.

(** [WorldEvent(...)]: the constraints on the arguments *)
Definition new_event (id run : string) (seq : Z) (ty : WorldEventType.t) (at_ : string) (p : dict) (refs : list string)
    : outcome exn WorldEvent :=
  ensure 0 <=? seq else EValue in
  ensure forallb (λ kv, bool_decide (is_Some (as_str kv.1))) p else EValue in
  Ok {| event_id := id; event_run_id := run; sequence_no := seq; event_type := ty; occurred_at := at_; payload := p;
        recorded_at := None; event_clock_id := None; event_evidence_refs := refs |}.

(** An optional field that must not be null *)
Definition optional_field {A} (f : string → option A) (k : string) (d : dict) : option (option A) :=
  match dict_get k d with
  | None => Some None
  | Some v => Some <$> (as_str v ≫= f)
  end.

Definition event_fields : list string :=
  ["event_id"; "run_id"; "sequence_no"; "event_type"; "occurred_at"; "payload"; "recorded_at"; "clock_id"; "evidence_refs"].

(** [WorldEvent.model_validate_json] of a decoded text *)
Definition event_of_json (v : pyval) : option WorldEvent :=
  d ← as_dict v;
  id ← as_str (at_key "event_id" d);
  run ← as_str (at_key "run_id" d);
  seq ← (match at_key "sequence_no" d with VInt z => if 0 <=? z then Some z else None | _ => None end);
  ty ← (as_str (at_key "event_type" d) ≫= of_value);
  occurred ← as_str (at_key "occurred_at" d);
  p ← as_dict (at_key "payload" d);
  recorded ← optional_field Some "recorded_at" d;
  clock ← optional_field of_value "clock_id" d;
  refs ← (match dict_get_or "evidence_refs" d (VList []) with VList l => mapM as_str l | _ => None end);
  if forallb (λ kv, key_in event_fields kv.1) d then
    Some {| event_id := id; event_run_id := run; sequence_no := seq; event_type := ty; occurred_at := occurred;
            payload := p; recorded_at := recorded; event_clock_id := clock; event_evidence_refs := refs |}
  else None.

(** [_parse_event_json] *)
Definition _parse_event_json (v : option pyval) : adapter WorldEvent :=
  e <- of_option (v ≫= event_of_json) (StorePayload EValue) ;;
  checked (normalize_world_event e None).

(** [_parse_stored_row] *)
Definition _parse_stored_row (r : row) (expected : option string) : adapter WorldEvent :=
  e <- _parse_event_json (row_json r) ;;
  require (String.eqb (event_id e) (default (event_id e) expected) && String.eqb (event_run_id e) (row_run r) &&
           (sequence_no e =? row_seq r)) StoreIntegrity ;;;
  ret e.

(** ** Appending *)

(** [_refuse_stream_overflow] *)
Definition _refuse_stream_overflow (run : string) : adapter () :=
  rows <- _read (raw_run_rows run) ;;
  require (Z.of_nat (length rows) <? MAX_EVENTS_PER_RUN) StoreIntegrity.

(** [append] *)
Definition append_event (event : WorldEvent) : adapter () :=
  e <- checked (normalize_world_event event None) ;;
  event_json <- _canonical_event_json e ;;
  stored <- _read (get_event (event_id e)) ;;
  match stored with
  | Some d =>
      stored_json <- of_option (json_tokens (VDict d)) StoreValue ;;
      require (bool_decide (stored_json = event_json)) StoreIntegrity
  | None =>
      _refuse_stream_overflow (event_run_id e) ;;;
      v <- loaded e ;;
      _read (append v)
  end.

(** The arguments of [append_allocated] *)
Record allocation := {
  a_event_id : string;
  a_run_id : string;
  a_event_type : WorldEventType.t;
  a_occurred_at : string;
  a_payload : dict;
  a_evidence_refs : list string
}.

(** The candidate at a sequence number, through the payload boundary *)
Definition candidate (a : allocation) (seq : Z) : outcome exn WorldEvent :=
  let* e := new_event (a_event_id a) (a_run_id a) seq (a_event_type a) (a_occurred_at a) (a_payload a) (a_evidence_refs a) in
  normalize_world_event e None.

(** [model_copy(update={"sequence_no": n})] *)
Definition with_sequence (e : WorldEvent) (n : Z) : WorldEvent :=
  {| event_id := event_id e; event_run_id := event_run_id e; sequence_no := n; event_type := event_type e;
     occurred_at := occurred_at e; payload := payload e; recorded_at := recorded_at e;
     event_clock_id := event_clock_id e; event_evidence_refs := event_evidence_refs e |}.

(** The retry branch: the record of the first call, when its content is the same *)
Definition retried_record (a : allocation) (preflight : WorldEvent) (existing : row) : adapter WorldEvent :=
  record <- _parse_stored_row existing (Some (a_event_id a)) ;;
  (if String.eqb (event_run_id record) (a_run_id a) then
     old <- _canonical_event_json record ;;
     new <- _canonical_event_json (with_sequence preflight (sequence_no record)) ;;
     require (bool_decide (old = new)) StoreIntegrity
   else raise StoreIntegrity) ;;;
  ret record.

(** [build] *)
Definition build (a : allocation) (seq : Z) : adapter pyval :=
  _refuse_stream_overflow (a_run_id a) ;;;
  e <- checked (candidate a seq) ;;
  _canonical_event_json e ;;;
  loaded e.

(** [append_allocated] *)
Definition append_allocated_event (a : allocation) : adapter WorldEvent :=
  preflight <- checked (candidate a FIRST_SEQUENCE_NO) ;;
  existing <- _read (raw_event_row (a_event_id a)) ;;
  match existing with
  | Some r => retried_record a preflight r
  | None =>
      written <- _read (append_allocated (a_run_id a) (build a) FIRST_SEQUENCE_NO) ;;
      _parse_event_json (json_roundtrip written)
  end.

(** ** Reading *)

(** [get_event] *)
Definition get_world_event (id : string) : adapter (option WorldEvent) :=
  r <- _read (raw_event_row id) ;;
  match r with None => ret None | Some r => e <- _parse_stored_row r (Some id) ;; ret (Some e) end.

Fixpoint parse_rows (rows : list row) : adapter (list WorldEvent) :=
  match rows with
  | [] => ret []
  | r :: rows' => e <- _parse_stored_row r None ;; l <- parse_rows rows' ;; ret (e :: l)
  end.

(** [list_run] *)
Definition list_world_run (run : string) : adapter (list WorldEvent) :=
  rows <- _read (raw_run_rows run) ;; parse_rows rows.

(** [run_ids] *)
Definition world_run_ids : adapter (list string) := _read run_ids.

(** [__init__]: a store of several runs *)
Definition open_world_store (db : database) : outcome store_exn EventStore :=
  match open_sqlite true db with Some s => Ok s | None => Raise StoreIntegrity end.
