(* ===== verification/WorldModelStoreTheorems.v ===== *)
(** * World-model event store: theorems

    Lemmas about the typed adapter, then the ceiling on a run, the numbering of
    allocated events and retries. *)

From Stdlib Require Import ZArith Ascii String SpecFloat.
From S2P Require Import Prelude PyVal Json Contracts ObservedAttributes EventPayloads Reducer EventStore EventStoreProofs WorldModelStore.
Local Open Scope prog_scope.
Local Open Scope Z_scope.

(** ** The stored form of an event *)

Lemma loaded_fields e w :
  json_roundtrip (event_dump e) = Some w →
  ∃ d, w = VDict d ∧ id_of d = event_id e ∧ run_of d = event_run_id e ∧ seq_of d = sequence_no e.
Proof.
  unfold event_dump, items_dict. intros H. simpl in H. destruct (mapM _ (payload e)) as [items|]; [|done]. simpl in H.
  destruct (recorded_at e), (event_clock_id e); simpl in H;
    (destruct (mapM json_roundtrip _) as [refs|]; [|done]); injection H as <-; by eexists.
Qed.

(** ** Calls that only read *)

Lemma reads_only_ret {A} (a : A) : reads_only (ret a).
Proof. by intros s. Qed.
Lemma reads_only_raise {A} e : reads_only (A:=A) (raise e).
Proof. by intros s. Qed.
Lemma reads_only_bind {A B} (m : adapter A) (k : A → adapter B) :
  reads_only m → (∀ a, reads_only (k a)) → reads_only (bind m k).
Proof. intros Hm Hk s. unfold bind. specialize (Hm s). destruct (m s) as [[a|e] s']; simpl in *; subst; [apply Hk|done]. Qed.
Lemma reads_only_read {A} (m : adapter A) : reads_only m → reads_only (_read m).
Proof. intros Hm s. unfold _read. specialize (Hm s). by destruct (m s) as [[a|e] s']. Qed.
Lemma reads_only_of_option {A} (o : option A) e : reads_only (of_option o e).
Proof. by destruct o; intros s. Qed.
Lemma reads_only_require b e : reads_only (require b e).
Proof. by destruct b; intros s. Qed.
Lemma reads_only_checked {A} (o : outcome exn A) : reads_only (checked o).
Proof. by destruct o; intros s. Qed.
Lemma reads_only_get : reads_only get.
Proof. by intros s. Qed.

Create HintDb reads.
#[export] Hint Resolve reads_only_ret reads_only_raise reads_only_bind reads_only_read reads_only_of_option
  reads_only_require reads_only_checked reads_only_get : reads.

Lemma raw_event_row_reads id : reads_only (raw_event_row id).
Proof. unfold raw_event_row, _require_connection. eauto with reads. Qed.
Lemma raw_run_rows_reads run : reads_only (raw_run_rows run).
Proof. unfold raw_run_rows, _require_connection. eauto with reads. Qed.
Lemma canonical_reads e : reads_only (_canonical_event_json e).
Proof. unfold _canonical_event_json. eauto with reads. Qed.
Lemma loaded_reads e : reads_only (loaded e).
Proof. unfold loaded. eauto with reads. Qed.
Lemma parse_reads v : reads_only (_parse_event_json v).
Proof. unfold _parse_event_json. eauto with reads. Qed.
#[export] Hint Resolve raw_event_row_reads raw_run_rows_reads canonical_reads loaded_reads parse_reads : reads.

Lemma refuse_reads run : reads_only (_refuse_stream_overflow run).
Proof. unfold _refuse_stream_overflow. eauto with reads. Qed.
#[export] Hint Resolve refuse_reads : reads.

Lemma build_reads a z : reads_only (build a z).
Proof. unfold build. eauto 8 with reads. Qed.

Lemma stored_row_reads r expected : reads_only (_parse_stored_row r expected).
Proof. unfold _parse_stored_row. eauto with reads. Qed.
#[export] Hint Resolve stored_row_reads : reads.

Lemma retried_reads a p r : reads_only (retried_record a p r).
Proof.
  unfold retried_record. apply reads_only_bind; [auto with reads|]. intros record.
  apply reads_only_bind; [case_match|]; eauto with reads.
Qed.

(** ** Rows *)

(** The rows as the connection sees them, and the committed ones *)
Definition rows_w (s : EventStore) : list row := match _connection s with Some c => db_rows (working c) | None => [] end.
Definition rows_d (s : EventStore) : list row := match _connection s with Some c => db_rows (durable c) | None => [] end.

Lemma insert_batch_run new s c :
  _connection s = Some c →
  insert_batch new s =
  match insert_rows (db_rows (working c)) (row_of <$> new) with
  | (rows, None) => (Ok (), set_connection (Some (commit (write c (with_rows (working c) rows)))) s)
  | (rows, Some IntegrityError) =>
      (Raise StoreError, set_connection (Some (rollback (write c (with_rows (working c) rows)))) s)
  | (rows, Some BindOverflow) => (Raise StoreOverflow, set_connection (Some (write c (with_rows (working c) rows))) s)
  end.
Proof.
  intros Hc. unfold insert_batch, _require_connection, bind, get, of_option. rewrite Hc. unfold ret.
  by destruct (insert_rows _ _) as [rows [[]|]].
Qed.

(** Appending one object adds its row and commits, or changes no row *)
Lemma append_one es0 v s :
  store_inv es0 s →
  let s' := (append_many [v] s).2 in
  (rows_w s' = rows_w s ∧ rows_d s' = rows_d s ∧ ∀ a, (append_many [v] s).1 ≠ Ok a) ∨
  (∃ e, json_roundtrip v = Some (VDict e) ∧ (append_many [v] s).1 = Ok () ∧
        rows_w s' = rows_w s ++ [row_of e] ∧ rows_d s' = rows_w s ++ [row_of e] ∧
        conflicts (row_of e) (rows_w s) = false).
Proof.
  intros Hi. destruct (append_many_cases es0 [v] s Hi) as [(x & -> & _)|H]; [by left|].
  destruct H as (persisted & old & c & es & ws & Hm & Hc & _ & _ & (_ & Hrows & _) & Hv & ->).
  apply mapM_Some in Hm. inversion Hm as [|? e ? ps He Hps]; subst. inversion Hps; subst.
  apply bind_Some in He as (w & Hw & He). destruct w; try done. injection He as ->.
  destruct (insert_rows_spec (es ++ ws) [e] Hv) as (ins & f & Heq & _ & Hcase). clear Hm Hps.
  remember (bind (insert_batch [e]) _ s) as r eqn:Hr. unfold bind at 1 in Hr.
  rewrite (insert_batch_run _ _ _ Hc), Hrows, Heq in Hr. unfold rows_w, rows_d. rewrite Hc, Hrows.
  destruct Hcase as [(-> & -> & _)|(-> & _ & x & rest & Hins & Hx)]; subst r; simpl.
  - right. exists e. rewrite fmap_app. split_and!; try done.
    change (row_of <$> [e]) with [row_of e] in Heq. cbn [insert_rows] in Heq.
    destruct (negb _); [done|]. by destruct (conflicts (row_of e) (row_of <$> es ++ ws)).
  - left. destruct ins as [|y ins]; [|by destruct ins]. by rewrite app_nil_r.
Qed.

Lemma get_event_reads id : reads_only (get_event id).
Proof.
  unfold get_event. apply reads_only_bind; [auto with reads|]. intros s0. case_decide.
  - apply reads_only_bind; [by intros s|]. intros l. induction l as [|e l IH]; [auto with reads|].
    apply reads_only_bind; [auto with reads|]. intros v. case_match; auto with reads.
  - apply reads_only_bind; [auto with reads|]. intros [r|]; eauto with reads.
Qed.
#[export] Hint Resolve get_event_reads build_reads retried_reads : reads.

(** What follows a call that only reads runs in the same state *)
Lemma after_reading {A B} (m : adapter A) (k : A → adapter B) s :
  reads_only m → bind m k s = match (m s).1 with Ok a => k a s | Raise e => (Raise e, s) end.
Proof. intros Hm. unfold bind. specialize (Hm s). destruct (m s) as [[a|e] s']; simpl in *; by subst. Qed.

(** The ceiling check looks at the rows of the run *)
Lemma refuse_ok run s :
  (_refuse_stream_overflow run s).1 = Ok () → Z.of_nat (length (run_rows run (rows_w s))) < MAX_EVENTS_PER_RUN.
Proof.
  unfold _refuse_stream_overflow, _read, raw_run_rows, _require_connection, bind, get, of_option, rows_w, require.
  destruct (_connection s) as [c|]; simpl; [|done].
  rewrite (Permutation_length (merge_sort_Permutation seq_row_le (run_rows run (db_rows (working c))))).
  destruct (Z.ltb_spec (Z.of_nat (length (run_rows run (db_rows (working c))))) MAX_EVENTS_PER_RUN); [done|]. simpl. done.
Qed.

(** A condition on the rows, on both sides of the transaction *)
Definition keeps (es0 : list dict) (Q : list row → Prop) (s : EventStore) : Prop :=
  store_inv es0 s ∧ Q (rows_w s) ∧ Q (rows_d s).

Definition below_ceiling (e : dict) (rows : list row) : Prop :=
  Z.of_nat (length (run_rows (run_of e) rows)) < MAX_EVENTS_PER_RUN.

Lemma append_one_keeps es0 Q v s :
  keeps es0 Q s → (∀ e, json_roundtrip v = Some (VDict e) → Q (rows_w s ++ [row_of e])) →
  keeps es0 Q (append_many [v] s).2.
Proof.
  intros (Hi & Hw & Hd) HQ. split; [by apply append_many_inv|].
  destruct (append_one es0 v s Hi) as [(-> & -> & _)|(e & Hv & _ & -> & -> & _)]; [done|]. split; by apply HQ.
Qed.

Lemma append_event_keeps es0 Q ev :
  (∀ rows e, Q rows → below_ceiling e rows → Q (rows ++ [row_of e])) → preserves (keeps es0 Q) (append_event ev).
Proof.
  intros HQ s Hk. unfold append_event. rewrite after_reading by auto with reads.
  destruct (normalize_world_event ev None) as [e|]; [|done]. cbn [checked fst ret].
  rewrite after_reading by auto with reads. destruct (_canonical_event_json e s).1; [|done].
  rewrite after_reading by auto with reads. destruct (_read _ s).1 as [[d|]|]; [| |done].
  { rewrite after_reading by auto with reads. case_match; [|done]. by rewrite (reads_only_require _ _ s). }
  rewrite after_reading by auto with reads. destruct (_refuse_stream_overflow _ s).1 as [[]|] eqn:Hr; [|done].
  apply refuse_ok in Hr. rewrite after_reading by auto with reads. destruct (loaded e s).1 as [v|] eqn:Hl; [|done].
  assert (Hv : json_roundtrip (event_dump e) = Some v).
  { unfold loaded, of_option in Hl. destruct (json_roundtrip _); simpl in Hl; by simplify_eq. }
  destruct (loaded_fields e v Hv) as (d & -> & _ & Hrun & _).
  unfold _read, append. assert (Hg : keeps es0 Q (append_many [VDict d] s).2).
  { apply append_one_keeps; [done|]. intros e' He'. rewrite (json_roundtrip_idem _ _ Hv) in He'. injection He' as <-.
    apply HQ; [apply Hk|]. unfold below_ceiling. by rewrite Hrun. }
  by destruct (append_many [VDict d] s) as [[]].
Qed.

Lemma rollback_keeps es0 Q s : keeps es0 Q s → keeps es0 Q (set_connection (rollback <$> _connection s) s).
Proof.
  intros (Hi & Hw & Hd). split; [by apply inv_rollback|]. unfold rows_w, rows_d in *. simpl.
  by destruct (_connection s).
Qed.

Lemma next_sequence_no_run run first s c :
  _connection s = Some c → (next_sequence_no run first s).1 = Ok (next_sequence first run (rows_w s)).
Proof. intros Hc. unfold next_sequence_no, _require_connection, bind, get, of_option, rows_w. by rewrite Hc. Qed.

(** The transaction of [append_allocated] *)
Lemma allocated_body_keeps es0 Q run b first s c :
  (∀ z, reads_only (b z)) → keeps es0 Q s → _connection s = Some c →
  (∀ v e, (b (next_sequence first run (rows_w s)) s).1 = Ok v → json_roundtrip v = Some (VDict e) →
          Q (rows_w s ++ [row_of e])) →
  keeps es0 Q ((z <- next_sequence_no run first ;; event <- b z ;; append_many [event] ;;; ret event) s).2.
Proof.
  intros Hb Hk Hc HQ. rewrite after_reading by apply next_sequence_no_reads. rewrite (next_sequence_no_run _ _ _ _ Hc).
  rewrite after_reading by apply Hb. destruct (b _ s).1 as [v|]; [|done].
  unfold bind. assert (Hg : keeps es0 Q (append_many [v] s).2).
  { apply append_one_keeps; [done|]. intros e. by apply HQ. }
  by destruct (append_many [v] s) as [[[]|] s'].
Qed.

Lemma append_allocated_keeps es0 Q run b first :
  (∀ z, reads_only (b z)) →
  (∀ s v e, keeps es0 Q s → (b (next_sequence first run (rows_w s)) s).1 = Ok v → json_roundtrip v = Some (VDict e) →
            Q (rows_w s ++ [row_of e])) →
  preserves (keeps es0 Q) (append_allocated run b first).
Proof.
  intros Hb HQ s Hk. unfold append_allocated, bind at 1, get. rewrite bind_require. case_match; [|done].
  rewrite after_reading by (unfold _require_connection; auto with reads).
  unfold _require_connection, bind at 1, get, of_option. destruct (_connection s) as [c|] eqn:Hc; [|done]. cbn [fst ret].
  unfold or_rollback. rewrite bind_require. destruct (in_transaction c) eqn:Ht; cbn [negb].
  { cbn [fst snd]. by apply rollback_keeps. }
  unfold bind at 1, modify. set (s1 := set_connection (Some (write c (working c))) s).
  assert (Hk1 : keeps es0 Q s1).
  { destruct Hk as (Hi & Hw & Hd). split; [|unfold rows_w, rows_d in *; by rewrite Hc in Hw, Hd].
    destruct (si_connection _ _ Hi c Hc) as (es & ws & ? & ? & ? & ?). apply inv_connection; [done|]. by exists es, ws. }
  pose proof (allocated_body_keeps es0 Q run b first s1 _ Hb Hk1 eq_refl) as Hg.
  specialize (Hg (λ v e, HQ s1 v e Hk1)). destruct (bind _ _ s1) as [[a|e] s']; [done|]. by apply rollback_keeps.
Qed.

Lemma candidate_fields a z e :
  candidate a z = Ok e → event_id e = a_event_id a ∧ event_run_id e = a_run_id a ∧ sequence_no e = z.
Proof.
  unfold candidate, new_event. case_match; [|done]. case_match; [|done]. cbn [outcome_bind]. intros H'.
  unfold normalize_world_event in H'. cbn [event_type] in H'.
  destruct (a_event_type a); try (by injection H' as <-); apply outcome_bind_Ok in H' as (p & _ & H');
    by injection H' as <-.
Qed.

Lemma build_ok a z s v :
  (build a z s).1 = Ok v →
  ∃ e, candidate a z = Ok e ∧ json_roundtrip (event_dump e) = Some v ∧
       Z.of_nat (length (run_rows (a_run_id a) (rows_w s))) < MAX_EVENTS_PER_RUN.
Proof.
  unfold build. rewrite after_reading by auto with reads.
  destruct (_refuse_stream_overflow _ s).1 as [[]|] eqn:Hr; [|done]. apply refuse_ok in Hr.
  rewrite after_reading by auto with reads. destruct (candidate a z) as [e|]; [|done]. cbn [checked ret fst].
  rewrite after_reading by auto with reads. destruct (_canonical_event_json e s).1; [|done].
  unfold loaded, of_option. destruct (json_roundtrip (event_dump e)) as [w|] eqn:Hw; [|done]. intros [= ->]. by exists e.
Qed.

Lemma append_allocated_event_keeps es0 Q a :
  (∀ rows e, Q rows → below_ceiling e rows → seq_of e = next_sequence FIRST_SEQUENCE_NO (run_of e) rows →
             Q (rows ++ [row_of e])) →
  preserves (keeps es0 Q) (append_allocated_event a).
Proof.
  intros HQ s Hk. unfold append_allocated_event. rewrite after_reading by auto with reads.
  destruct (checked _ s).1 as [p|]; [|done]. rewrite after_reading by auto with reads.
  destruct (_read _ s).1 as [[r|]|]; [by rewrite retried_reads| |done].
  assert (Hg : keeps es0 Q (append_allocated (a_run_id a) (build a) FIRST_SEQUENCE_NO s).2).
  { apply append_allocated_keeps; [apply build_reads| |done]. intros s1 v e Hk1 (ev & Hc & Hv & Hlt)%build_ok He.
    rewrite (json_roundtrip_idem _ _ Hv) in He. destruct (loaded_fields ev v Hv) as (d & -> & _ & Hrun & Hseq).
    injection He as <-. destruct (candidate_fields _ _ _ Hc) as (_ & Hrun' & Hseq').
    apply HQ; [apply Hk1|unfold below_ceiling; congruence|congruence]. }
  unfold bind, _read. destruct (append_allocated _ _ _ s) as [[w|x] s']; [|done]. by rewrite parse_reads.
Qed.

(** ** The text of what was loaded *)

(** No dict of the value has a key twice, as no Python dict has *)
Fixpoint distinct_keys (v : pyval) : bool :=
  match v with
  | VList l | VTuple l => forallb distinct_keys l
  | VDict kvs => bool_decide (NoDup (omap (λ kv, as_str kv.1) kvs)) && forallb (λ '(_, x), distinct_keys x) kvs
  | _ => true
  end.

Lemma tokens_list (l k : list pyval) ts :
  Forall (λ v, ∀ ts w, distinct_keys v = true → json_tokens v = Some ts → json_roundtrip v = Some w → json_tokens w = Some ts) l →
  forallb distinct_keys l = true → mapM json_tokens l = Some ts → mapM json_roundtrip l = Some k →
  mapM json_tokens k = Some ts.
Proof.
  intros IH. revert k ts. induction IH as [|v l Hv IH IHl]; intros k ts Hd Ht Hr; simpl in *; [by injection Ht as <-; injection Hr as <-|].
  apply andb_true_iff in Hd as [Hd1 Hd2].
  apply bind_Some in Ht as (t & Ht1 & (ts' & Ht2 & [= <-])%bind_Some).
  apply bind_Some in Hr as (w & Hr1 & (k' & Hr2 & [= <-])%bind_Some).
  simpl. rewrite (Hv _ _ Hd1 Ht1 Hr1). simpl. by rewrite (IHl _ _ Hd2 Ht2 Hr2).
Qed.

Lemma tokens_items (kvs : dict) items entries :
  Forall (λ kv, ∀ ts w, distinct_keys kv.2 = true → json_tokens kv.2 = Some ts → json_roundtrip kv.2 = Some w →
                        json_tokens w = Some ts) kvs →
  forallb (λ '(_, x), distinct_keys x) kvs = true →
  mapM (λ '(k, v), as_str k ≫= λ s, (λ ts, (s, ts)) <$> json_tokens v) kvs = Some entries →
  mapM (λ '(k, x), text_key k ≫= λ s, (λ y, (s, y)) <$> json_roundtrip x) kvs = Some items →
  items.*1 = omap (λ kv, as_str kv.1) kvs ∧
  mapM (λ '(k, v), as_str k ≫= λ s, (λ ts, (s, ts)) <$> json_tokens v) (str_items items) = Some entries.
Proof.
  intros IH. revert items entries. induction IH as [|[k v] kvs Hv IH IHl]; intros items entries Hd Ht Hr; simpl in *;
    [by injection Ht as <-; injection Hr as <-|].
  apply andb_true_iff in Hd as [Hd1 Hd2].
  apply bind_Some in Ht as (e & Ht1 & (entries' & Ht2 & [= <-])%bind_Some).
  apply bind_Some in Hr as (i & Hr1 & (items' & Hr2 & [= <-])%bind_Some).
  apply bind_Some in Ht1 as (s & Hs & (t & Ht & ->)%fmap_Some).
  apply bind_Some in Hr1 as (s' & Hs' & (w & Hw & ->)%fmap_Some).
  assert (s' = s) as -> by (destruct k; simpl in *; congruence).
  destruct (IHl _ _ Hd2 Ht2 Hr2) as [Hk Hm]. rewrite Hs. simpl. split; [f_equal; exact Hk|].
  rewrite (Hv _ _ Hd1 Ht Hw). simpl. change (map _ items') with (str_items items'). by rewrite Hm.
Qed.

(** A loaded value has the text it was loaded from *)
Lemma tokens_roundtrip v ts w :
  distinct_keys v = true → json_tokens v = Some ts → json_roundtrip v = Some w → json_tokens w = Some ts.
Proof.
  revert ts w. induction v as [v Hv|l IH|l IH|kvs IH] using pyval_deep_ind; intros ts w Hd Ht Hr.
  - destruct v; simpl in *; simplify_eq; try done. case_match; simplify_eq. simpl. by rewrite H.
  - simpl in *. apply fmap_Some in Ht as (ts' & Ht & ->). apply fmap_Some in Hr as (k & Hr & ->).
    simpl. by rewrite (tokens_list _ _ _ IH Hd Ht Hr).
  - simpl in *. apply fmap_Some in Ht as (ts' & Ht & ->). apply fmap_Some in Hr as (k & Hr & ->).
    simpl. by rewrite (tokens_list _ _ _ IH Hd Ht Hr).
  - simpl in Hd, Ht, Hr. apply andb_true_iff in Hd as [Hn%bool_decide_eq_true Hd].
    apply fmap_Some in Ht as (entries & Ht & ->). apply fmap_Some in Hr as (items & Hr & ->).
    destruct (tokens_items kvs items entries IH Hd Ht Hr) as [Hk Hm]. rewrite <-Hk in Hn.
    assert (Hu : update_dict [] items = str_items items) by exact (update_dict_fresh [] items Hn).
    rewrite Hu. simpl. by rewrite Hm.
Qed.

Local Open Scope prog_scope.
Local Open Scope Z_scope.

(** ** Sequences of calls *)

Inductive world_op : Type :=
| WAppend (event : WorldEvent)
| WAllocate (a : allocation)
| WGet (id : string)
| WList (run : string).

Definition world_exec (s : EventStore) (o : world_op) : EventStore :=
  match o with
  | WAppend ev => (append_event ev s).2
  | WAllocate a => (append_allocated_event a s).2
  | WGet id => (get_world_event id s).2
  | WList run => (list_world_run run s).2
  end.

Lemma get_world_reads id : reads_only (get_world_event id).
Proof. unfold get_world_event. apply reads_only_bind; [auto with reads|]. intros [r|]; eauto with reads. Qed.

Lemma parse_rows_reads rows : reads_only (parse_rows rows).
Proof. induction rows as [|r rows IH]; simpl; eauto 6 with reads. Qed.

Lemma list_world_reads run : reads_only (list_world_run run).
Proof. unfold list_world_run. apply reads_only_bind; [auto with reads|]. apply parse_rows_reads. Qed.

Lemma world_exec_all es0 Q ops s :
  (∀ o s', o ∈ ops → keeps es0 Q s' → keeps es0 Q (world_exec s' o)) → keeps es0 Q s →
  keeps es0 Q (foldl world_exec s ops).
Proof.
  revert s. induction ops as [|o ops IH]; intros s Ho Hk; [done|]. simpl. apply IH; [|apply Ho; [left|done]].
  intros o' s' Hin. apply Ho. by right.
Qed.

Lemma open_keeps db es (Q : list row → Prop) :
  holds db es → Q (row_of <$> es) → ∃ s, open_world_store db = Ok s ∧ keeps es Q s ∧ rows_d s = row_of <$> es.
Proof.
  intros (Hv & Hr & Hval) HQ. unfold open_world_store, open_sqlite. destruct db as [v rows cps]. simpl in *. subst v rows.
  rewrite decide_True by done. eexists. split; [done|]. split; [|done]. split; [|done]. split; try done. simpl.
  intros c [= <-]. exists es, []. by rewrite app_nil_r.
Qed.

(** ** The ceiling *)

(** Every run has at most as many rows as the reader accepts *)
Definition within_ceiling (rows : list row) : Prop :=
  ∀ run, Z.of_nat (length (run_rows run rows)) <= MAX_EVENTS_PER_RUN.

Lemma run_rows_snoc run rows r :
  run_rows run (rows ++ [r]) = if decide (row_run r = run) then run_rows run rows ++ [r] else run_rows run rows.
Proof.
  unfold run_rows. rewrite filter_app. case_decide.
  - by rewrite filter_cons_True, filter_nil.
  - by rewrite filter_cons_False, filter_nil, app_nil_r.
Qed.

Lemma within_ceiling_snoc rows e : within_ceiling rows → below_ceiling e rows → within_ceiling (rows ++ [row_of e]).
Proof.
  intros Hw Hb run. rewrite run_rows_snoc. case_decide as H; [|apply Hw]. simpl in H. subst run.
  rewrite length_app. simpl. unfold below_ceiling in Hb. lia.
Qed.

(** A durable stream can always be served.  Whatever events are appended, at
    given or at allocated sequence numbers, and whichever of the calls fail, no
    run of the database ever holds more committed events than the 10000 that the
    read model accepts, and no committed event is dropped to achieve it. *)
Theorem streams_stay_within_the_read_ceiling db es ops :
  holds db es → within_ceiling (row_of <$> es) →
  ∃ s, open_world_store db = Ok s ∧
    within_ceiling (rows_d (foldl world_exec s ops)) ∧ (row_of <$> es) `prefix_of` rows_d (foldl world_exec s ops).
Proof.
  intros Hh Hw. destruct (open_keeps db es within_ceiling Hh Hw) as (s & Hs & Hk & _). exists s. split; [done|].
  assert (Hk' : keeps es (λ rows, within_ceiling rows ∧ (row_of <$> es) `prefix_of` rows) (foldl world_exec s ops));
    [|by destruct Hk' as (_ & _ & ?)].
  apply world_exec_all.
  - intros [ev|a|id|run] s' _; simpl.
    + apply append_event_keeps. intros rows e [? ?] ?. split; [by apply within_ceiling_snoc|by apply prefix_app_r].
    + apply append_allocated_event_keeps. intros rows e [? ?] ? _. split; [by apply within_ceiling_snoc|by apply prefix_app_r].
    + by rewrite get_world_reads.
    + by rewrite list_world_reads.
  - destruct (open_keeps db es (λ rows, within_ceiling rows ∧ (row_of <$> es) `prefix_of` rows) Hh) as (s' & Hs' & Hk' & _);
      [done|]. rewrite Hs in Hs'. by injection Hs' as <-.
Qed.

Definition fault_event (id run : string) (seq : Z) : WorldEvent :=
  {| event_id := id; event_run_id := run; sequence_no := seq; event_type := WorldEventType.FAULT;
     occurred_at := "2026-01-01T00:00:00Z"; payload := [(VStr "code", VInt 7); (VStr "axes", VTuple [VInt 1; VInt 2])];
     recorded_at := None; event_clock_id := None; event_evidence_refs := ["frame-1"] |}.
Definition fault_allocation (id run : string) : allocation :=
  {| a_event_id := id; a_run_id := run; a_event_type := WorldEventType.FAULT; a_occurred_at := "2026-01-01T00:00:00Z";
     a_payload := []; a_evidence_refs := [] |}.
Definition world_ops : list world_op :=
  [WAppend (fault_event "a" "run-1" 4); WAllocate (fault_allocation "b" "run-1"); WAllocate (fault_allocation "c" "run-2");
   WAppend (fault_event "a" "run-1" 5); WAppend (fault_event "d" "run-1" (2 ^ 63)); WAllocate (fault_allocation "b" "run-1")].

Lemma streams_stay_within_the_read_ceiling_witness :
  ∃ s, open_world_store empty_database = Ok s ∧
    within_ceiling (rows_d (foldl world_exec s world_ops)) ∧ [] `prefix_of` rows_d (foldl world_exec s world_ops).
Proof.
  apply (streams_stay_within_the_read_ceiling empty_database [] world_ops); [apply empty_holds|].
  intros run. vm_compute. discriminate.
Defined.

(** The rows those calls commit: the changed event, the oversized one and the
    retried allocation added nothing *)
Example world_ops_rows :
  (λ s, (λ r, (row_id r, row_run r, row_seq r)) <$> rows_d (foldl world_exec s world_ops)) <$>
    (match open_world_store empty_database with Ok s => Some s | Raise _ => None end) =
  Some [("a", "run-1", 4); ("b", "run-1", 5); ("c", "run-2", 1)].
Proof. vm_compute. reflexivity. Qed.

(** ** Numbering *)

(** Every run is numbered from one without a gap *)
Definition numbered (rows : list row) : Prop :=
  ∀ run, row_seq <$> run_rows run rows = seqZ FIRST_SEQUENCE_NO (Z.of_nat (length (run_rows run rows))).

Lemma foldr_max_seqZ z i (k : nat) :
  z < i → foldr Z.max z (seqZ i (Z.of_nat k)) = match k with O => z | S _ => i + Z.of_nat k - 1 end.
Proof.
  revert i. induction k as [|k IH]; intros i Hz; [done|].
  rewrite Nat2Z.inj_succ, seqZ_cons, Z.pred_succ by lia. simpl foldr. rewrite IH by lia. destruct k; lia.
Qed.

Lemma next_sequence_numbered rows run :
  numbered rows → next_sequence FIRST_SEQUENCE_NO run rows = FIRST_SEQUENCE_NO + Z.of_nat (length (run_rows run rows)).
Proof.
  intros Hn. unfold next_sequence. rewrite (Hn run). destruct (length (run_rows run rows)) as [|k]; [done|].
  rewrite Nat2Z.inj_succ, seqZ_cons, Z.pred_succ by lia. rewrite foldr_max_seqZ by lia. unfold FIRST_SEQUENCE_NO. destruct k; lia.
Qed.

Lemma numbered_snoc rows e :
  numbered rows → seq_of e = next_sequence FIRST_SEQUENCE_NO (run_of e) rows → numbered (rows ++ [row_of e]).
Proof.
  intros Hn Hs run. rewrite run_rows_snoc. case_decide as H; [|apply Hn]. simpl in H. subst run.
  rewrite fmap_app, length_app, (Hn (run_of e)), Nat2Z.inj_add. simpl length. rewrite seqZ_app by lia. f_equal.
  rewrite next_sequence_numbered in Hs by done. simpl. by rewrite Hs.
Qed.

(** Allocated events are numbered without a gap.  Starting from an empty
    database, whatever [append_allocated] calls are made for whatever runs, and
    whichever of them fail, every run's committed events are numbered 1, 2, 3, ...
    in the order of the calls: a failed call consumes no number, and no number is
    given twice. *)
Theorem allocated_events_are_numbered_without_gaps allocations :
  ∃ s, open_world_store empty_database = Ok s ∧
    ∀ run, let mine := run_rows run (rows_d (foldl world_exec s (WAllocate <$> allocations))) in
      row_seq <$> mine = seqZ 1 (Z.of_nat (length mine)) ∧ Z.of_nat (length mine) <= 10000.
Proof.
  destruct (open_keeps empty_database [] (λ rows, numbered rows ∧ within_ceiling rows) empty_holds) as (s & Hs & Hk & _).
  { split; intros run; done. }
  exists s. split; [done|]. intros run. assert (Hk' : keeps [] (λ rows, numbered rows ∧ within_ceiling rows)
    (foldl world_exec s (WAllocate <$> allocations))); [|by destruct Hk' as (_ & _ & Hn & Hw); split; [apply Hn|apply Hw]].
  apply world_exec_all; [|done]. intros o s' (a & -> & _)%list_elem_of_fmap. simpl. apply append_allocated_event_keeps.
  intros rows e [Hn Hw] Hb Hseq. split; [by apply numbered_snoc|by apply within_ceiling_snoc].
Qed.

(** ** Retries *)

Definition world_reachable (s : EventStore) : Prop :=
  ∃ db es s0 ops, holds db es ∧ open_world_store db = Ok s0 ∧ s = foldl world_exec s0 ops.

Lemma world_reachable_inv s : world_reachable s → ∃ es, store_inv es s.
Proof.
  intros (db & es & s0 & ops & Hh & Ho & ->). destruct (open_keeps db es (λ _, True) Hh I) as (s & Hs & Hk & _).
  rewrite Ho in Hs. injection Hs as <-. exists es.
  assert (H : keeps es (λ _, True) (foldl world_exec s0 ops)); [|apply H]. apply world_exec_all; [|done].
  intros [ev|a|id|run] s' _; simpl.
  - by apply append_event_keeps.
  - by apply append_allocated_event_keeps.
  - by rewrite get_world_reads.
  - by rewrite list_world_reads.
Qed.

(** Appending under an identifier that the store has *)
Lemma append_stored s ev n ts d t0 :
  normalize_world_event ev None = Ok n → json_tokens (event_dump n) = Some ts →
  get_event (event_id n) s = (Ok (Some d), s) → json_tokens (VDict d) = Some t0 →
  append_event ev s = (if bool_decide (t0 = ts) then Ok () else Raise StoreIntegrity, s).
Proof.
  intros Hn Ht Hg Hd. unfold append_event. rewrite after_reading, Hn by auto with reads. cbn [checked fst ret].
  rewrite after_reading by auto with reads. unfold _canonical_event_json. rewrite Ht. cbn [of_option fst ret].
  rewrite after_reading by auto with reads. unfold _read. rewrite Hg. cbn [fst].
  rewrite after_reading by auto with reads. rewrite Hd. cbn [of_option fst ret]. by case_bool_decide.
Qed.

Lemma append_event_ok es s ev n s' :
  store_inv es s → normalize_world_event ev None = Ok n → distinct_keys (event_dump n) = true →
  append_event ev s = (Ok (), s') →
  ∃ ts d, json_tokens (event_dump n) = Some ts ∧ get_event (event_id n) s' = (Ok (Some d), s') ∧
          json_tokens (VDict d) = Some ts.
Proof.
  intros Hi Hn Hdk H. unfold append_event in H. rewrite after_reading, Hn in H by auto with reads. cbn [checked fst ret] in H.
  rewrite after_reading in H by auto with reads. unfold _canonical_event_json in H.
  destruct (json_tokens (event_dump n)) as [ts|] eqn:Ht; [|done]. cbn [of_option fst ret] in H. exists ts.
  rewrite after_reading in H by auto with reads. pose proof (get_event_reads (event_id n) s) as Hpure. unfold _read at 1 in H.
  destruct (get_event (event_id n) s) as [[[d|]|] s1] eqn:Hg; cbn [fst snd] in *; [subst s1|subst s1|done].
  - rewrite after_reading in H by auto with reads.
    destruct (json_tokens (VDict d)) as [t0|] eqn:Hd; [|done]. cbn [of_option fst ret] in H. unfold require in H.
    case_bool_decide; [|done]. injection H as <-. subst t0. by exists d.
  - rewrite after_reading in H by auto with reads. destruct (_refuse_stream_overflow _ s).1; [|done].
    rewrite after_reading in H by auto with reads. unfold loaded in H.
    destruct (json_roundtrip (event_dump n)) as [v|] eqn:Hv; [|done]. cbn [of_option fst ret] in H.
    destruct (loaded_fields n v Hv) as (d & -> & Hid & _). cbn [append] in H. unfold _read in H.
    destruct (append_many [VDict d] s) as [[[]|] s1] eqn:Ha; [|done]. injection H as ->. exists d.
    split; [done|]. split; [|by apply (tokens_roundtrip (event_dump n))].
    pose proof (append_many_inv es [VDict d] s Hi) as Hi'. rewrite Ha in Hi'.
    destruct (append_many_ok es _ _ _ Hi Ha) as (ps & c & ws & db & Hp & _ & _ & Hc' & Hh & _).
    rewrite <-Hid. eapply (get_event_found s' (connect db) (ws ++ ps)); [by split; [apply Hi'|..]|].
    apply elem_of_app. right. apply mapM_Some in Hp. inversion Hp as [|? e ? ps' He Hps]; subst. inversion Hps; subst.
    rewrite (json_roundtrip_idem _ _ Hv) in He. injection He as ->. left.
Qed.

(** A retry is idempotent and a change is refused.  Once [append] returned,
    appending the event again returns without changing the store, and so does
    any event with the same identifier whose canonical text is the same; an event
    that claims the identifier with another text is refused, and nothing changes
    then either. *)
Theorem retries_are_idempotent s ev n s' :
  world_reachable s → normalize_world_event ev None = Ok n → distinct_keys (event_dump n) = true →
  append_event ev s = (Ok (), s') →
  append_event ev s' = (Ok (), s') ∧
  ∀ ev' n' ts', normalize_world_event ev' None = Ok n' → event_id n' = event_id n →
    json_tokens (event_dump n') = Some ts' →
    append_event ev' s' =
    (if bool_decide (json_tokens (event_dump n) = Some ts') then Ok () else Raise StoreIntegrity, s').
Proof.
  intros [es Hi]%world_reachable_inv Hn Hdk H.
  destruct (append_event_ok es s ev n s' Hi Hn Hdk H) as (ts & d & Ht & Hg & Hd). split.
  - rewrite (append_stored s' ev n ts d ts Hn Ht Hg Hd). by rewrite bool_decide_true.
  - intros ev' n' ts' Hn' Hid Ht'. rewrite <-Hid in Hg. rewrite (append_stored s' ev' n' ts' d ts Hn' Ht' Hg Hd).
    rewrite Ht. by repeat case_bool_decide; simplify_eq.
Qed.

Definition world_store : EventStore :=
  match open_world_store empty_database with Ok s => s | Raise _ => open_jsonl false true None end.
Definition fault_stored : EventStore := (append_event (fault_event "a" "run-1" 4) world_store).2.

Lemma retries_are_idempotent_witness :
  append_event (fault_event "a" "run-1" 4) fault_stored = (Ok (), fault_stored) ∧
  append_event (fault_event "a" "run-1" 5) fault_stored = (Raise StoreIntegrity, fault_stored).
Proof.
  assert (Hr : world_reachable world_store).
  { exists empty_database, [], world_store, []. split; [apply empty_holds|]. split; vm_compute; reflexivity. }
  destruct (retries_are_idempotent world_store (fault_event "a" "run-1" 4) (fault_event "a" "run-1" 4) fault_stored Hr)
    as [H1 H2]; [reflexivity|vm_compute; reflexivity|vm_compute; reflexivity|].
  split; [exact H1|].
  rewrite (H2 (fault_event "a" "run-1" 5) (fault_event "a" "run-1" 5)
    (default [] (json_tokens (event_dump (fault_event "a" "run-1" 5))))); vm_compute; reflexivity.
Defined.
