(* ===== verification/AgingTheorems.v ===== *)
(** * Ageing of observations: theorems

    Ageing never invents freshness: an observed belief needs an explicit rule, a
    comparable clock and an age below the rule's bound; a location is at most as
    fresh as both of its ends; a deployment policy made by [tightened] never
    yields a fresher belief; and ageing twice is ageing once. *)

From Stdlib Require Import ZArith Ascii String SpecFloat.
From S2P Require Import Prelude PyVal DateTime Contracts Aging.
Local Open Scope Z_scope.
#[local] Arguments parse_utc_wall_time : simpl never.

(** How fresh a belief is. *)
Definition freshness (b : WorldBelief.t) : nat :=
  match b with
  | WorldBelief.OBSERVED => 3 | WorldBelief.INFERRED => 2 | WorldBelief.STALE => 1 | WorldBelief.LOST => 0
  end.

Lemma least_fresh_le b bs : b ∈ bs → (freshness (_least_fresh bs) ≤ freshness b)%nat.
Proof.
  intros Hb. unfold _least_fresh. case_decide; [simpl; lia|].
  case_decide; [|case_decide]; destruct b; simpl; try lia; done.
Qed.

Lemma fresh_observed b : (3 ≤ freshness b)%nat → b = WorldBelief.OBSERVED.
Proof. destruct b; simpl; [done|lia..]. Qed.

(** ** What an observed belief rests on *)

(** An observation that counts as fresh at the boundary. *)
Definition fresh_at (observed_at clock source ty : option string)
    (p : ObservationFreshnessPolicy) (b : ObservationAgingBoundary) : Prop :=
  ∃ at_ src t th t0 t1,
    observed_at = Some at_ ∧ clock = Some "wall" ∧ source = Some src ∧ ty = Some t ∧
    clock_id b = ClockId.WALL ∧ rules p !! (src, t) = Some th ∧
    parse_utc_wall_time (VStr at_) = Some t0 ∧ parse_utc_wall_time (VStr (as_of b)) = Some t1 ∧
    float_lt (total_seconds (instant t1 - instant t0)) float_zero = false ∧
    float_lt (total_seconds (instant t1 - instant t0)) (stale_after_s th) = true.

Lemma belief_observed_inv m1 m2 m3 m4 e p b :
  _belief_for_observation (get_str m1 e) (get_str m2 e) (get_str m3 e) (get_str m4 e) p b = WorldBelief.OBSERVED →
  fresh_at (m1 !! e) (m2 !! e) (m3 !! e) (m4 !! e) p b.
Proof.
  unfold _belief_for_observation, get_str, is_wall, fresh_at, belief_for_age.
  destruct (m1 !! e) as [at_|], (m2 !! e) as [c|], (m3 !! e) as [src|], (m4 !! e) as [t|]; simpl;
    repeat (case_decide || case_match || case_bool_decide; simplify_eq/=; try done).
  intros _. do 6 eexists. by split_and!.
Qed.

Lemma aged_entity_belief s p b e :
  aged_entity_beliefs s p b !! e =
  (λ _, _belief_for_observation (get_str (entity_last_observed_at s) e) (get_str (entity_observation_clock_ids s) e)
     (get_str (entity_observation_sources s) e) (get_str (entity_types s) e) p b) <$> entity_types s !! e.
Proof. unfold aged_entity_beliefs. rewrite map_lookup_imap. by destruct (entity_types s !! e). Qed.

Lemma aged_location_belief s beliefs p b e :
  aged_location_beliefs s beliefs p b !! e =
  (λ location, _least_fresh
    [default WorldBelief.LOST (beliefs !! e); endpoint_belief beliefs location;
     _belief_for_observation (get_str (entity_location_last_observed_at s) e)
       (get_str (entity_location_clock_ids s) e) (get_str (entity_location_sources s) e)
       (get_str (entity_types s) e) p b]) <$> entity_locations s !! e.
Proof. unfold aged_location_beliefs. rewrite map_lookup_imap. by destruct (entity_locations s !! e). Qed.

Lemma endpoint_observed beliefs loc :
  endpoint_belief beliefs loc = WorldBelief.OBSERVED →
  ∃ rel endpoint, partition_at ":" loc = (rel, true, endpoint) ∧ beliefs !! endpoint = Some WorldBelief.OBSERVED.
Proof.
  unfold endpoint_belief. destruct (partition_at ":" loc) as [[rel [|]] endpoint]; [|done]. simpl.
  destruct (non_blank endpoint); [|done]. destruct (beliefs !! endpoint) eqn:E; [|done]. simpl. intros ->. eauto.
Qed.

Lemma aged_entity_inv s p b e :
  entity_beliefs (age_world_state s p b) !! e = Some WorldBelief.OBSERVED →
  fresh_at (entity_last_observed_at s !! e) (entity_observation_clock_ids s !! e)
    (entity_observation_sources s !! e) (entity_types s !! e) p b.
Proof.
  cbn [age_world_state entity_beliefs]. rewrite aged_entity_belief. intros (ty & _ & H)%fmap_Some. by apply belief_observed_inv.
Qed.

Lemma aged_location_inv s p b e :
  entity_location_beliefs (age_world_state s p b) !! e = Some WorldBelief.OBSERVED →
  entity_beliefs (age_world_state s p b) !! e = Some WorldBelief.OBSERVED ∧
  (∃ loc rel endpoint, entity_locations s !! e = Some loc ∧ partition_at ":" loc = (rel, true, endpoint) ∧
     entity_beliefs (age_world_state s p b) !! endpoint = Some WorldBelief.OBSERVED) ∧
  fresh_at (entity_location_last_observed_at s !! e) (entity_location_clock_ids s !! e)
    (entity_location_sources s !! e) (entity_types s !! e) p b.
Proof.
  cbn [age_world_state entity_beliefs entity_location_beliefs].
  rewrite aged_location_belief. intros (loc & Hloc & H)%fmap_Some.
  set (beliefs := aged_entity_beliefs s p b) in *.
  set (own := _belief_for_observation _ _ _ _ p b) in H.
  set (l := [default WorldBelief.LOST (beliefs !! e); endpoint_belief beliefs loc; own]) in H.
  assert (∀ x, x ∈ l → x = WorldBelief.OBSERVED) as Hall.
  { intros x Hx. apply fresh_observed. pose proof (least_fresh_le x l Hx) as Hle. by rewrite <- H in Hle. }
  assert (default WorldBelief.LOST (beliefs !! e) = WorldBelief.OBSERVED) as He by (apply Hall; by left).
  assert (endpoint_belief beliefs loc = WorldBelief.OBSERVED) as Hep by (apply Hall; right; by left).
  assert (own = WorldBelief.OBSERVED) as Ho by (apply Hall; right; right; by left).
  split_and!.
  - destruct (beliefs !! e); [|done]. by f_equal.
  - apply endpoint_observed in Hep as (rel & ep & ? & ?). eauto 10.
  - by apply belief_observed_inv.
Qed.

(** Ageing sets no belief to INFERRED *)
Lemma belief_not_inferred m1 m2 m3 m4 p b : _belief_for_observation m1 m2 m3 m4 p b ≠ WorldBelief.INFERRED.
Proof. unfold _belief_for_observation, belief_for_age. repeat (case_decide || case_match); done. Qed.

Lemma aged_belief_not_inferred s p b e : entity_beliefs (age_world_state s p b) !! e ≠ Some WorldBelief.INFERRED.
Proof.
  cbn [age_world_state entity_beliefs]. rewrite aged_entity_belief. intros (ty & _ & H)%fmap_Some.
  symmetry in H. by apply belief_not_inferred in H.
Qed.

Lemma least_fresh_elem bs : WorldBelief.INFERRED ∉ bs → _least_fresh bs ≠ WorldBelief.INFERRED.
Proof. intros Hi. unfold _least_fresh. repeat case_decide; done. Qed.

Lemma aged_location_not_inferred s p b e : entity_location_beliefs (age_world_state s p b) !! e ≠ Some WorldBelief.INFERRED.
Proof.
  pose proof (aged_belief_not_inferred s p b) as Hn. cbn [age_world_state entity_beliefs entity_location_beliefs] in *.
  rewrite aged_location_belief. intros (loc & _ & H)%fmap_Some. symmetry in H. revert H. apply least_fresh_elem.
  set (beliefs := aged_entity_beliefs s p b) in *.
  rewrite !elem_of_cons, elem_of_nil. intros [H|[H|[H|[]]]].
  - destruct (beliefs !! e) as [x|] eqn:E; [|done]. simpl in H. subst x. by apply Hn in E.
  - unfold endpoint_belief in H. destruct (partition_at ":" loc) as [[rel sep] ep]. destruct (_ && _); [|done].
    destruct (beliefs !! ep) as [x|] eqn:E; [|done]. simpl in H. subst x. by apply Hn in E.
  - symmetry in H. by apply belief_not_inferred in H.
Qed.

(** Ageing fails closed.  After [age_world_state] exactly the entities with a
    type and the entities with a location have a belief.  An entity is OBSERVED
    only when its observation carries a wall clock and a source, the policy has
    an explicit rule for that source and type, both times parse as UTC, and the
    age is not negative and below the rule's bound.  A location is OBSERVED only
    when the entity is, its endpoint is, and its own observation is fresh in the
    same sense.  Nothing but the beliefs, the attribute metadata and the flag
    changes. *)
Theorem aged_beliefs_are_fail_closed s p b e :
  let s' := age_world_state s p b in
  dom (entity_beliefs s') = dom (entity_types s) ∧ dom (entity_location_beliefs s') = dom (entity_locations s) ∧
  (entity_beliefs s' !! e = Some WorldBelief.OBSERVED →
   fresh_at (entity_last_observed_at s !! e) (entity_observation_clock_ids s !! e)
     (entity_observation_sources s !! e) (entity_types s !! e) p b) ∧
  (entity_location_beliefs s' !! e = Some WorldBelief.OBSERVED →
   entity_beliefs s' !! e = Some WorldBelief.OBSERVED ∧
   (∃ loc rel endpoint, entity_locations s !! e = Some loc ∧ partition_at ":" loc = (rel, true, endpoint) ∧
      entity_beliefs s' !! endpoint = Some WorldBelief.OBSERVED) ∧
   fresh_at (entity_location_last_observed_at s !! e) (entity_location_clock_ids s !! e)
     (entity_location_sources s !! e) (entity_types s !! e) p b) ∧
  (entity_types s', entity_poses s', entity_locations s', entity_attributes s', entity_evidence_refs s',
   evidence_refs s', applied_event_ids s') =
  (entity_types s, entity_poses s, entity_locations s, entity_attributes s, entity_evidence_refs s,
   evidence_refs s, applied_event_ids s).
Proof.
  cbv zeta. split_and!; [| |apply aged_entity_inv|apply aged_location_inv|done];
    cbn [age_world_state entity_beliefs entity_location_beliefs].
  - apply set_eq. intros x. rewrite !elem_of_dom, aged_entity_belief. by rewrite fmap_is_Some.
  - apply set_eq. intros x. rewrite !elem_of_dom, aged_location_belief. by rewrite fmap_is_Some.
Qed.

(** ** Floats as an order *)

(** The position of a float that is not NaN in a lexicographic order. *)
Definition float_key (f : spec_float) : Z * Z * Z :=
  match f with
  | S754_infinity true => (-2, 0, 0)
  | S754_finite true m e => (-1, - e, Z.neg m)
  | S754_zero _ | S754_nan => (0, 0, 0)
  | S754_finite false m e => (1, e, Z.pos m)
  | S754_infinity false => (2, 0, 0)
  end.

Definition key_lt (x y : Z * Z * Z) : Prop :=
  let '(a, b, c) := x in let '(a', b', c') := y in
  a < a' ∨ (a = a' ∧ (b < b' ∨ (b = b' ∧ c < c'))).

Ltac solve_key :=
  first [ split; [done|intros (? & ? & ?); first [done|lia]]
        | split; [intros _; split_and!; first [done|lia]|done] ].

Lemma float_lt_key x y :
  float_lt x y = true ↔ x ≠ S754_nan ∧ y ≠ S754_nan ∧ key_lt (float_key x) (float_key y).
Proof.
  unfold float_lt, SFltb, key_lt.
  destruct x as [[]|[]| |[] m1 e1], y as [[]|[]| |[] m2 e2]; simpl; try solve_key;
    destruct (Z.compare_spec e1 e2); simpl; try solve_key;
    change (Pos.compare_cont Eq m1 m2) with (m1 ?= m2)%positive;
    destruct (Pos.compare_spec m1 m2); simpl; solve_key.
Qed.

Lemma float_lt_shorter x y z :
  float_lt x y = true → float_lt z y = false → isfinite z = true → float_lt x z = true.
Proof.
  rewrite !float_lt_key. intros (Hx & Hy & Hlt) Hzy Hz. apply not_true_iff_false in Hzy.
  assert (z ≠ S754_nan) as Hzn by (by intros ->). split_and!; [done..|].
  rewrite float_lt_key in Hzy. unfold key_lt in *.
  destruct (float_key x) as [[a b] c], (float_key y) as [[a' b'] c'], (float_key z) as [[a'' b''] c''].
  assert (¬ (a'' < a' ∨ (a'' = a' ∧ (b'' < b' ∨ (b'' = b' ∧ c'' < c'))))) by naive_solver. lia.
Qed.

(** ** Tightened policies *)

Lemma least_fresh_min l : freshness (_least_fresh l) = foldr Nat.min 3%nat (freshness <$> l).
Proof.
  induction l as [|b l IH]; [done|]. cbn [fmap list_fmap foldr]. rewrite <- IH.
  unfold _least_fresh. repeat case_decide; destruct b; try done; set_solver.
Qed.

Lemma least_fresh_mono l l' :
  Forall2 (λ b b', freshness b ≤ freshness b')%nat l l' → (freshness (_least_fresh l) ≤ freshness (_least_fresh l'))%nat.
Proof. rewrite !least_fresh_min. induction 1; cbn [fmap list_fmap foldr]; lia. Qed.

Definition tighter (th' th : FreshnessThresholds) : Prop := widens th' th = false.

(** What [make_thresholds] establishes, as far as the order of floats needs it. *)
Definition finite_thresholds (th : FreshnessThresholds) : Prop :=
  isfinite (stale_after_s th) = true ∧ isfinite (lost_after_s th) = true.

Lemma make_thresholds_finite stale lost th : make_thresholds stale lost = Ok th → finite_thresholds th.
Proof.
  unfold make_thresholds, _finite_seconds. intros H.
  repeat (case_match; simplify_eq/=; try done); by split.
Qed.

Lemma tighter_refl th : finite_thresholds th → tighter th th.
Proof.
  intros [Hs Hl]. unfold tighter, widens. apply orb_false_iff.
  split; apply not_true_iff_false; rewrite float_lt_key;
    intros (_ & _ & Hk); unfold key_lt in Hk; destruct (float_key _) as [[? ?] ?]; lia.
Qed.

Lemma belief_for_age_mono age th' th :
  tighter th' th → finite_thresholds th →
  (freshness (belief_for_age age th') ≤ freshness (belief_for_age age th))%nat.
Proof.
  intros [Hs Hl]%orb_false_iff [Fs Fl]. unfold belief_for_age.
  destruct (float_lt age float_zero); [done|].
  destruct (float_lt age (stale_after_s th')) eqn:E1.
  { by rewrite (float_lt_shorter _ _ _ E1 Hs Fs). }
  destruct (float_lt age (lost_after_s th')) eqn:E2; [|simpl; lia].
  rewrite (float_lt_shorter _ _ _ E2 Hl Fl). destruct (float_lt age (stale_after_s th)); simpl; lia.
Qed.

(** [p'] has the rules of [p], each with thresholds that are not wider. *)
Definition policy_tighter (m' m : gmap (string * string) FreshnessThresholds) : Prop :=
  ∀ k th', m' !! k = Some th' → ∃ th, m !! k = Some th ∧ tighter th' th.

Lemma merge_overrides_tighter orig ov : ∀ merged m,
  merge_overrides orig ov merged = Ok m → policy_tighter merged orig → policy_tighter m orig.
Proof.
  induction ov as [|[k r] ov IH]; intros merged m; simpl; [by intros [= ->]|].
  destruct (rule_key k) as [k'|]; simpl; [|done]. destruct (orig !! k') as [th|] eqn:Hk; simpl; [|done].
  destruct r as [r|]; [|done]. destruct (widens r th) eqn:Hw; [done|]. intros Hm Hp. eapply IH; [done|].
  intros k2 th2 [[<- <-]|[_ H2]]%lookup_insert_Some; [by exists th|by apply Hp].
Qed.

Lemma normalize_raw l m :
  normalize_rules ((λ '((s, e), th), (VTuple [VStr s; VStr e], Some th)) <$> l) = Ok m → m = list_to_map l.
Proof.
  revert m. induction l as [|[[s e] th] l IH]; intros m; [by intros [= <-]|].
  cbn [fmap list_fmap normalize_rules]. unfold _non_blank_policy_label.
  destruct (_ && _); [|done]. destruct (_ && _); [|done].
  destruct (normalize_rules _) as [m'|]; [|done]. intros [= <-]. simpl. by rewrite (IH m').
Qed.

Lemma tightened_spec ov p p' :
  tightened ov p = Ok p' → map_Forall (λ _ th, finite_thresholds th) (rules p) → policy_tighter (rules p') (rules p).
Proof.
  unfold tightened. destruct (merge_overrides _ _ _) as [m|] eqn:Hm; [|done]. intros Hp Hfin.
  assert (rules p' = m) as ->.
  { unfold make_policy in Hp. case_match eqn:Hr; [done|]. rewrite <- Hr in Hp.
    destruct (normalize_rules (raw_of m)) as [m'|] eqn:Hn; [|done]. injection Hp as <-.
    apply normalize_raw in Hn. by rewrite list_to_map_to_list in Hn. }
  eapply merge_overrides_tighter; [done|]. intros k th Hk. exists th. split; [done|]. by apply tighter_refl, (Hfin k).
Qed.

Lemma belief_mono p' p at_ c src ty b :
  policy_tighter (rules p') (rules p) → map_Forall (λ _ th, finite_thresholds th) (rules p) →
  (freshness (_belief_for_observation at_ c src ty p' b) ≤ freshness (_belief_for_observation at_ c src ty p b))%nat.
Proof.
  intros Hp Hfin. unfold _belief_for_observation. case_decide; [done|]. destruct (negb _); [done|].
  destruct (rule_for src ty p') as [th'|] eqn:Hr; [|simpl; lia].
  assert (∃ th, rule_for src ty p = Some th ∧ tighter th' th ∧ finite_thresholds th) as (th & -> & Ht & Hf).
  { unfold rule_for in *. destruct src, ty; try done. destruct (Hp _ _ Hr) as (th & Hth & ?).
    exists th. split_and!; [done..|]. by apply (Hfin _ _ Hth). }
  destruct (parse_utc_wall_time at_); [|done]. destruct (parse_utc_wall_time _); [|done]. by apply belief_for_age_mono.
Qed.

(** A deployment override can only make the world look older.  If [tightened]
    returns a policy, then for every state, boundary and entity the belief it
    gives the entity, and the belief it gives the entity's location, is at most
    as fresh as under the original policy. *)
Theorem tightened_policy_never_fresher ov p p' s b e :
  map_Forall (λ _ th, finite_thresholds th) (rules p) → tightened ov p = Ok p' →
  (∀ x', entity_beliefs (age_world_state s p' b) !! e = Some x' →
     ∃ x, entity_beliefs (age_world_state s p b) !! e = Some x ∧ (freshness x' ≤ freshness x)%nat) ∧
  (∀ x', entity_location_beliefs (age_world_state s p' b) !! e = Some x' →
     ∃ x, entity_location_beliefs (age_world_state s p b) !! e = Some x ∧ (freshness x' ≤ freshness x)%nat).
Proof.
  intros Hfin Hp%tightened_spec; [|done]. cbn [age_world_state entity_beliefs entity_location_beliefs].
  assert (∀ e', (freshness (default WorldBelief.LOST (aged_entity_beliefs s p' b !! e')) ≤
    freshness (default WorldBelief.LOST (aged_entity_beliefs s p b !! e')))%nat) as Hent.
  { intros e'. rewrite !aged_entity_belief. destruct (entity_types s !! e'); [|done]. by apply belief_mono. }
  split.
  - intros x'. rewrite !aged_entity_belief. destruct (entity_types s !! e); [|done]. intros [= <-].
    eexists. split; [done|]. by apply belief_mono.
  - intros x'. rewrite !aged_location_belief. destruct (entity_locations s !! e) as [loc|]; [|done].
    intros [= <-]. eexists. split; [done|]. apply least_fresh_mono. repeat constructor; [apply Hent| |by apply belief_mono].
    unfold endpoint_belief. destruct (partition_at ":" loc) as [[rel found] ep]. by destruct (found && non_blank ep).
Qed.

Definition secs (n e : Z) : spec_float := float_lit n e.
Definition cup_rule : FreshnessThresholds := {| stale_after_s := secs 2 0; lost_after_s := secs 10 0 |}.
Definition cup_policy : ObservationFreshnessPolicy := {| rules := {[("camera", "cup") := cup_rule]} |}.
Definition cup_override : raw_rules :=
  [(VTuple [VStr "camera"; VStr "cup"], Some {| stale_after_s := secs 1 0; lost_after_s := secs 5 0 |})].
Definition cup_policy' : ObservationFreshnessPolicy :=
  {| rules := {[("camera", "cup") := {| stale_after_s := secs 1 0; lost_after_s := secs 5 0 |}]} |}.
Definition cup_world : WorldState := {|
  run_id := "run-1"; entity_types := {["cup-1" := "cup"]}; entity_poses := ∅;
  entity_last_observed_at := {["cup-1" := "2026-01-02T03:04:05Z"]};
  entity_observation_clock_ids := {["cup-1" := "wall"]}; entity_observation_sources := {["cup-1" := "camera"]};
  entity_beliefs := ∅; entity_locations := {["cup-1" := "on:cup-1"]}; entity_location_evidence_refs := ∅;
  entity_location_last_observed_at := {["cup-1" := "2026-01-02T03:04:05Z"]};
  entity_location_clock_ids := {["cup-1" := "wall"]}; entity_location_sources := {["cup-1" := "camera"]};
  entity_location_beliefs := ∅; entity_confidence := ∅; entity_attributes := ∅; entity_attribute_baselines := ∅;
  entity_attribute_metadata := ∅; entity_attribute_schema_versions := ∅; entity_evidence_refs := ∅;
  evidence_refs := []; freshness_evaluated := false; applied_event_ids := [] |}.
Definition cup_boundary : ObservationAgingBoundary :=
  {| as_of := "2026-01-02T03:04:06.5Z"; clock_id := ClockId.WALL |}.

Lemma tightened_policy_never_fresher_witness :
  tightened cup_override cup_policy = Ok cup_policy' ∧
  entity_beliefs (age_world_state cup_world cup_policy cup_boundary) !! "cup-1" = Some WorldBelief.OBSERVED ∧
  entity_beliefs (age_world_state cup_world cup_policy' cup_boundary) !! "cup-1" = Some WorldBelief.STALE ∧
  ∃ x, entity_location_beliefs (age_world_state cup_world cup_policy cup_boundary) !! "cup-1" = Some x ∧
       (freshness WorldBelief.STALE ≤ freshness x)%nat.
Proof.
  assert (tightened cup_override cup_policy = Ok cup_policy') as Ht by (vm_compute; reflexivity).
  split; [exact Ht|]. split; [vm_compute; reflexivity|]. split; [vm_compute; reflexivity|].
  refine (proj2 (tightened_policy_never_fresher cup_override cup_policy cup_policy' cup_world cup_boundary "cup-1"
    _ Ht) WorldBelief.STALE _); [|vm_compute; reflexivity].
  intros k th Hk. unfold cup_policy in Hk. cbn [rules] in Hk. apply lookup_singleton_Some in Hk as [_ <-]. split; vm_compute; reflexivity.
Defined.

(** ** Ageing twice *)

Lemma age_metadata_idem ty p b raw : age_metadata ty p b (age_metadata ty p b raw) = age_metadata ty p b raw.
Proof.
  destruct raw as [| | | | | | | | | |kvs|]; try done. unfold age_metadata, dict_get_or.
  rewrite !dict_get_set, !dict_get_set_ne by done. rewrite dict_set_set. cbn [from_option]. do 3 f_equal.
  generalize (py_eqb (default VNone (dict_get "belief" kvs)) (VStr "inferred")). intros inferred.
  generalize (_belief_for_observation (default VNone (dict_get "observed_at" kvs))
    (default VNone (dict_get "clock_id" kvs)) (default VNone (dict_get "source" kvs)) ty p b). intros belief.
  by destruct inferred, belief.
Qed.

(** Ageing is idempotent: a state aged with a policy and a boundary is left
    unchanged by ageing it again with the same ones, its beliefs and the beliefs
    recorded in its attribute metadata included. *)
Theorem ageing_is_idempotent s p b :
  age_world_state (age_world_state s p b) p b = age_world_state s p b.
Proof.
  unfold age_world_state at 1 3. f_equal.
  apply map_eq. intros e. unfold _age_attribute_metadata at 1. rewrite map_lookup_imap.
  cbn [age_world_state entity_attribute_metadata]. unfold _age_attribute_metadata. rewrite !map_lookup_imap.
  destruct (entity_attribute_metadata s !! e) as [md|]; [|done]. simpl. f_equal. unfold age_entity_metadata. simpl.
  destruct (entity_attributes s !! e); [|done]. rewrite <- map_fmap_compose. apply map_fmap_ext.
  intros k raw _. apply age_metadata_idem.
Qed.
