(* ===== verification/PyText.v ===== *)
(** * Python text: [repr], [json.dumps], UTF-8 and SHA-256

    The text that f-strings and [json.dumps] make of values: [repr] of strings,
    lists of strings, dicts of strings and floats, compact JSON with sorted keys,
    and its UTF-8 encoding.  A text is a list of code points ([ustr]), since JSON
    material may hold characters above 255; identifiers stay [string]s. *)

From Stdlib Require Import ZArith Ascii String.
From Stdlib Require Import ZArith Ascii String SpecFloat.
From S2P Require Import Prelude PyVal Json.
Local Open Scope Z_scope.

Definition wrap32 (z : Z) : Z := Z.land z 0xFFFFFFFF.
Definition rotr (n x : Z) : Z := wrap32 (Z.lor (Z.shiftr x n) (Z.shiftl x (32 - n))).

(** ** The compression function *)

(** The standard takes its constants from the first primes: the first 32 bits of
    the fractional parts of their cube roots, and of the square roots of the first
    eight *)
Definition is_prime (n : nat) : bool := forallb (λ d, negb (n mod d =? 0)%nat) (seq 2 (n - 2)).
Definition first_primes (k : nat) : list Z := Z.of_nat <$> take k (List.filter is_prime (seq 2 310)).

(** The largest [r] with [r^3 <= z], bit by bit from below [2^bits] *)
Fixpoint cube_root (bits : nat) (r z : Z) : Z :=
  match bits with
  | O => r
  | S b =>
      let r' := r + Z.shiftl 1 (Z.of_nat b) in
      cube_root b (if r' * r' * r' <=? z then r' else r) z
  end.

Definition round_constants : list Z :=
  Eval vm_compute in (λ p, wrap32 (cube_root 36 0 (Z.shiftl p 96))) <$> first_primes 64.

Definition initial_hash : list Z :=
  Eval vm_compute in (λ p, wrap32 (Z.sqrt (Z.shiftl p 64))) <$> first_primes 8.

Definition small_sigma0 (x : Z) : Z := Z.lxor (rotr 7 x) (Z.lxor (rotr 18 x) (Z.shiftr x 3)).
Definition small_sigma1 (x : Z) : Z := Z.lxor (rotr 17 x) (Z.lxor (rotr 19 x) (Z.shiftr x 10)).
Definition big_sigma0 (x : Z) : Z := Z.lxor (rotr 2 x) (Z.lxor (rotr 13 x) (rotr 22 x)).
Definition big_sigma1 (x : Z) : Z := Z.lxor (rotr 6 x) (Z.lxor (rotr 11 x) (rotr 25 x)).
Definition choose (x y z : Z) : Z := Z.lxor (Z.land x y) (Z.land (Z.lxor x 0xFFFFFFFF) z).
Definition majority (x y z : Z) : Z := Z.lxor (Z.land x y) (Z.lxor (Z.land x z) (Z.land y z)).

(** The message schedule, from the last sixteen words, the oldest first *)
Fixpoint schedule (n : nat) (w : list Z) : list Z :=
  match n, w with
  | S n', w0 :: w' =>
      let next := wrap32 (small_sigma1 (nth 14 w 0) + nth 9 w 0 + small_sigma0 (nth 1 w 0) + w0) in
      w0 :: schedule n' (w' ++ [next])
  | _, _ => []
  end.

Definition sha_round (h : list Z) (kw : Z * Z) : list Z :=
  match h with
  | [a; b; c; d; e; f; g; h'] =>
      let t1 := h' + big_sigma1 e + choose e f g + kw.1 + kw.2 in
      [wrap32 (t1 + big_sigma0 a + majority a b c); a; b; c; wrap32 (d + t1); e; f; g]
  | _ => h
  end.

Definition compress (h block : list Z) : list Z :=
  zip_with (λ x y, wrap32 (x + y)) h (foldl sha_round h (zip round_constants (schedule 64 block))).

(** ** Padding and blocks *)

Definition big_endian (n : nat) (z : Z) : list Z :=
  (λ i, Z.land (Z.shiftr z (8 * Z.of_nat i)) 0xFF) <$> reverse (seq 0 n).

Definition pad (m : list Z) : list Z :=
  let l := length m in
  m ++ [0x80] ++ repeat 0 ((119 - l mod 64) mod 64) ++ big_endian 8 (8 * Z.of_nat l).

Fixpoint words (l : list Z) : list Z :=
  match l with
  | a :: b :: c :: d :: l' =>
      Z.lor (Z.shiftl a 24) (Z.lor (Z.shiftl b 16) (Z.lor (Z.shiftl c 8) d)) :: words l'
  | _ => []
  end.

(** One block of sixteen words after the other *)
Fixpoint blocks (n : nat) (h w : list Z) : list Z :=
  match n with
  | O => h
  | S n' => blocks n' (compress h (take 16 w)) (drop 16 w)
  end.

Definition sha256 (m : list Z) : list Z :=
  let w := words (pad m) in mjoin (big_endian 4 <$> blocks (length w / 16) initial_hash w).

(** [hexdigest] *)
Definition hex_nibble (z : Z) : ascii := ascii_of_nat (Z.to_nat (if z <? 10 then 48 + z else 87 + z)).
Definition hex (m : list Z) : string :=
  string_of_list_ascii (mjoin ((λ b, [hex_nibble (Z.shiftr b 4); hex_nibble (Z.land b 15)]) <$> m)).

Definition sha256_hexdigest (m : list Z) : string := hex (sha256 m).

(** The test vectors of the standard: the empty message, one block and two *)
Definition bytes_of (s : string) : list Z := (λ c, Z.of_nat (nat_of_ascii c)) <$> list_ascii_of_string s.

Example sha256_empty :
  sha256_hexdigest [] = "e3b0c44298fc1c149afbf4c8996fb92427ae41e4649b934ca495991b7852b855".
Proof. vm_compute. reflexivity. Qed.

Example sha256_abc :
  sha256_hexdigest (bytes_of "abc") = "ba7816bf8f01cfea414140de5dae2223b00361a396177a9cb410ff61f20015ad".
Proof. vm_compute. reflexivity. Qed.

Example sha256_two_blocks :
  sha256_hexdigest (bytes_of "abcdbcdecdefdefgefghfghighijhijkijkljklmklmnlmnomnopnopq")
  = "248d6a61d20638b8e5c026930c3e6039a33ce45964ff2167f6ecedd419db06c1".
Proof. vm_compute. reflexivity. Qed.

Local Open Scope Z_scope.

(** [sorted(ids)] of a set of strings *)
Definition sorted (X : gset string) : list string := merge_sort str_le (elements X).

(** ** [repr] *)

(** Two hexadecimal digits *)
Definition hex_char (z : Z) : ascii := ascii_of_nat (Z.to_nat (if z <? 10 then 48 + z else 87 + z)).

(** A character inside a literal quoted with [q] *)
Definition repr_char (q c : ascii) : string :=
  if Ascii.eqb c q || Ascii.eqb c "\" then String "\" (String c EmptyString)
  else if code c =? 9 then "\t" else if code c =? 10 then "\n" else if code c =? 13 then "\r"
  else if is_printable_char c then String c EmptyString
  else "\x" +:+ String (hex_char (Z.shiftr (code c) 4)) (String (hex_char (Z.land (code c) 15)) EmptyString).

Definition has_char (c : ascii) (s : string) : bool := existsb (Ascii.eqb c) (list_ascii_of_string s).

Definition single_quote : ascii := ascii_of_nat 39.
Definition double_quote : ascii := ascii_of_nat 34.

(** [repr(s)] *)
Definition repr_str (s : string) : string :=
  let q := if has_char single_quote s && negb (has_char double_quote s) then double_quote else single_quote in
  String q (String.concat "" (repr_char q <$> list_ascii_of_string s) +:+ String q EmptyString).

(** [repr] of a list of strings and of a dict from strings to strings *)
Definition repr_list (l : list string) : string := "[" +:+ join ", " (repr_str <$> l) +:+ "]".
Definition repr_dict (d : list (string * string)) : string :=
  "{" +:+ join ", " ((λ kv, repr_str kv.1 +:+ ": " +:+ repr_str kv.2) <$> d) +:+ "}".

(** ** Floats

    The shortest decimal that reads back as the float, the nearest to it where
    there are two: its digits as a number, their count and the exponent [x] of
    [0.d1..dn * 10^x]. *)

Definition nearest_decimal (f : spec_float) (num den x n : Z) : option (Z * Z) :=
  let k := x - n in
  let scaled_num := if 0 <=? k then num else num * 10 ^ (- k) in
  let scaled_den := if 0 <=? k then den * 10 ^ k else den in
  let lo := scaled_num / scaled_den in
  let rest := scaled_num - lo * scaled_den in
  let good m := match SFcompare (float_of_decimal m k) f with Some Eq => true | _ => false end in
  let pick m := Some (if m =? 10 ^ n then (m / 10, x + 1) else (m, x)) in
  match good lo, good (lo + 1) with
  | true, false => pick lo
  | false, true => pick (lo + 1)
  | true, true =>
      pick (if (2 * rest <? scaled_den) || ((2 * rest =? scaled_den) && Z.even lo) then lo else lo + 1)
  | false, false => None
  end.

Fixpoint shortest_decimal (fuel : nat) (f : spec_float) (num den x n : Z) : Z * Z * Z :=
  match nearest_decimal f num den x n, fuel with
  | Some (m, x'), _ => (m, n, x')
  | None, S fuel' => shortest_decimal fuel' f num den x (n + 1)
  | None, O => (0, n, x)
  end.

Definition zeros (n : Z) : string := String.concat "" (repeat "0" (Z.to_nat n)).

(** The text of [m], which has [n] digits, as [0.m * 10^x] *)
Definition format_repr (m n x : Z) : string :=
  let d : string := pretty m in
  if (-3 <=? x) && (x <=? 16) then
    if x <=? 0 then "0." +:+ zeros (- x) +:+ d
    else if x <? n then substring 0 (Z.to_nat x) d +:+ "." +:+ substring (Z.to_nat x) (Z.to_nat (n - x)) d
    else d +:+ zeros (x - n) +:+ ".0"
  else
    let e := Z.abs (x - 1) in
    substring 0 1 d +:+ (if n =? 1 then EmptyString else "." +:+ substring 1 (Z.to_nat (n - 1)) d) +:+
    "e" +:+ (if x - 1 <? 0 then "-" else "+") +:+ (if e <? 10 then "0" else EmptyString) +:+ (pretty e : string).

(** The digits of the float [m * 2^e] *)
Definition float_digits (m : positive) (e : Z) : Z * Z * Z :=
  let num := if 0 <=? e then Z.pos m * 2 ^ e else Z.pos m in
  let den := if 0 <=? e then 1 else 2 ^ (- e) in
  let x := decimal_exponent (Z.to_nat 800) (Z.log2 num * 3 / 10 - Z.log2 den * 3 / 10) num den in
  shortest_decimal 17 (S754_finite false m e) num den x 1.

(** [repr(f)] *)
Definition float_repr (f : spec_float) : string :=
  match f with
  | S754_zero s => if s then "-0.0" else "0.0"
  | S754_infinity s => if s then "-inf" else "inf"
  | S754_nan => "nan"
  | S754_finite s m e =>
      let '(m', n, x') := float_digits m e in
      (if s then "-" else EmptyString) +:+ format_repr m' n x'
  end.

Example float_repr_point_eight : float_repr (float_of_decimal 8 (-1)) = "0.8".
Proof. vm_compute. reflexivity. Qed.
Example float_repr_third : float_repr (SFdiv 53 1024 (float_of_Z 1) (float_of_Z 3)) = "0.3333333333333333".
Proof. vm_compute. reflexivity. Qed.
Example float_repr_large : float_repr (float_of_decimal 123456789 13) = "1.23456789e+21".
Proof. vm_compute. reflexivity. Qed.

(** ** JSON *)

(** Material for [json.dumps]: text of any characters, and sets, which a caller
    turns into lists first *)
Inductive material : Type :=
| MNull
| MBool (b : bool)
| MInt (z : Z)
| MFloat (f : spec_float)
| MText (s : ustr)
| MList (l : list material)
| MSet (l : list material)
| MDict (kvs : list (ustr * material)).

Fixpoint ustr_leb (a b : ustr) : bool :=
  match a, b with
  | [], _ => true
  | _ :: _, [] => false
  | x :: a', y :: b' => (x <? y) || ((x =? y) && ustr_leb a' b')
  end.

Definition entry_le {A} (a b : ustr * A) : Prop := ustr_leb a.1 b.1 = true.
#[global] Instance entry_le_dec {A} : RelDecision (@entry_le A).
Proof. intros a b. unfold entry_le. apply _. Defined.

(** A character of a JSON string, [ensure_ascii=False] *)
Definition json_char (c : Z) : ustr :=
  if (c =? 34) || (c =? 92) then [92; c]
  else if c =? 8 then ustr_of "\b" else if c =? 9 then ustr_of "\t" else if c =? 10 then ustr_of "\n"
  else if c =? 12 then ustr_of "\f" else if c =? 13 then ustr_of "\r"
  else if c <? 32 then ustr_of ("\u00" +:+ String (hex_char (Z.shiftr c 4)) (String (hex_char (Z.land c 15)) EmptyString))
  else [c].
Definition json_string (s : ustr) : ustr := [34] ++ mjoin (json_char <$> s) ++ [34].

Fixpoint ujoin (l : list ustr) : ustr :=
  match l with [] => [] | [s] => s | s :: l' => s ++ [44] ++ ujoin l' end.

(** [json.dumps(v, allow_nan=False, ensure_ascii=False, separators=(",", ":"),
    sort_keys=True)]; [None] when it raises *)
Fixpoint json_dumps (v : material) : option ustr :=
  match v with
  | MNull => Some (ustr_of "null")
  | MBool b => Some (ustr_of (if b then "true" else "false"))
  | MInt z => Some (ustr_of (pretty z))
  | MFloat f => if isfinite f then Some (ustr_of (float_repr f)) else None
  | MText s => Some (json_string s)
  | MList l => (λ ts, [91] ++ ujoin ts ++ [93]) <$> mapM json_dumps l
  | MSet _ => None
  | MDict kvs =>
      (λ es, [123] ++ ujoin ((λ e, json_string e.1 ++ [58] ++ e.2) <$> merge_sort entry_le es) ++ [125])
        <$> mapM (λ '(k, x), (λ t, (k, t)) <$> json_dumps x) kvs
  end.

(** Texts, lists of texts and records as material *)
Definition utext (s : string) : material := MText (ustr_of s).
Definition utexts (l : list string) : material := MList (utext <$> l).
Definition ufields (l : list (string * material)) : material := MDict ((λ kv, (ustr_of kv.1, kv.2)) <$> l).

(** [text.encode("utf-8")]; the texts hold no surrogates *)
Definition utf8_bytes (s : ustr) : list Z :=
  mjoin ((λ c,
    if c <? 0x80 then [c]
    else if c <? 0x800 then [0xC0 + Z.shiftr c 6; 0x80 + Z.land c 0x3F]
    else if c <? 0x10000 then [0xE0 + Z.shiftr c 12; 0x80 + Z.land (Z.shiftr c 6) 0x3F; 0x80 + Z.land c 0x3F]
    else [0xF0 + Z.shiftr c 18; 0x80 + Z.land (Z.shiftr c 12) 0x3F; 0x80 + Z.land (Z.shiftr c 6) 0x3F;
          0x80 + Z.land c 0x3F]) <$> s).

(** ** Unicode normalization

    [unicodedata.normalize("NFKC", s).casefold()] on characters below 256: each
    character is replaced on its own, since none of the replacements starts with a
    combining mark. *)
Definition nfkc_casefold_char (c : ascii) : ustr :=
  match code c with
  | 0xA0 => [0x20] | 0xA8 => [0x20; 0x308] | 0xAA => [0x61] | 0xAF => [0x20; 0x304]
  | 0xB2 => [0x32] | 0xB3 => [0x33] | 0xB4 => [0x20; 0x301] | 0xB5 => [0x3BC] | 0xB8 => [0x20; 0x327]
  | 0xB9 => [0x31] | 0xBA => [0x6F] | 0xBC => [0x31; 0x2044; 0x34] | 0xBD => [0x31; 0x2044; 0x32]
  | 0xBE => [0x33; 0x2044; 0x34]
  | _ => ustr_of (casefold_char c)
  end.
Definition nfkc_casefold (s : string) : ustr := mjoin (nfkc_casefold_char <$> list_ascii_of_string s).

(** [str.lower] *)
Definition lower_char (c : ascii) : ascii :=
  if ((65 <=? code c) && (code c <=? 90)) || ((192 <=? code c) && (code c <=? 222) && negb (code c =? 215))
  then ascii_of_nat (nat_of_ascii c + 32) else c.
Definition lower (s : string) : string := string_of_list_ascii (lower_char <$> list_ascii_of_string s).

(** ** Lemmas *)

Lemma elem_of_sorted x X : x ∈ sorted X ↔ x ∈ X.
Proof. unfold sorted. rewrite (merge_sort_Permutation str_le). apply elem_of_elements. Qed.

Lemma sorted_nil X : sorted X = [] ↔ X = ∅.
Proof.
  split; [|intros ->; done]. intros H. apply set_eq. intros x. rewrite <-elem_of_sorted, H. set_solver.
Qed.

Lemma NoDup_sorted X : NoDup (sorted X).
Proof. unfold sorted. rewrite (merge_sort_Permutation str_le). apply NoDup_elements. Qed.
