(* ===== verification/Verifier.v ===== *)
(** * World-model verifier

    [services/world_model/workbench_world_model/verifier.py]: the rules that turn
    a reduced world state into a verification result.  A state has the field types
    that [WorldState] declares; the arguments that the functions check at run time
    are dynamically typed.  A context is [None] when the caller passes an object
    of another class.  Objects of other classes inside metadata are taken to be
    hashable. *)

From Stdlib Require Import ZArith Ascii String SpecFloat.
From S2P Require Import Prelude PyVal Json PyText DateTime Contracts ObservedAttributes EventPayloads Aging Reducer.
Local Open Scope Z_scope.

Inductive verify_exn : Type := VValue | VType | VOverflow.

(** ** The context *)

Definition is_hex_digit (c : ascii) : bool :=
  let n := code c in ((48 <=? n) && (n <=? 57)) || ((97 <=? n) && (n <=? 102)).

(** [_validated_state_hash] *)
Definition _validated_state_hash (v : pyval) : outcome verify_exn string :=
  match as_str v with
  | Some s =>
      ensure (String.length s =? 64)%nat && forallb is_hex_digit (list_ascii_of_string s) else VValue in Ok s
  | None => Raise VValue
  end.

(** [_validated_utc_wall_time] *)
Definition _validated_utc_wall_time (v : pyval) : outcome verify_exn string :=
  match as_str v with
  | Some s => match parse_utc_wall_time (VStr s) with Some _ => Ok s | None => Raise VValue end
  | None => Raise VValue
  end.

Record VerificationContext := { ctx_state_hash : string; ctx_verified_at : string; ctx_clock_id : ClockId.t }.

(** [VerificationContext(...)] *)
Definition make_context (state_hash verified_at clock : pyval) : outcome verify_exn VerificationContext :=
  let* h := _validated_state_hash state_hash in
  let* t := _validated_utc_wall_time verified_at in
  ensure py_eqb clock (VStr (value ClockId.WALL)) else VValue in
  Ok {| ctx_state_hash := h; ctx_verified_at := t; ctx_clock_id := ClockId.WALL |}.

(** ** Evidence *)

Definition NO_EVIDENCE_REF : string := "system://world-state/no-evidence".

(** [state.entity_evidence_refs.get(entity_id, [])] *)
Definition refs_of (s : WorldState) (id : string) : list string := default [] (entity_evidence_refs s !! id).

(** [_entity_evidence] *)
Definition _entity_evidence (s : WorldState) (ids : gset string) : list string :=
  extend_new [] (mjoin (refs_of s <$> sorted ids)).

(** [_missing_entity_evidence] *)
Definition _missing_entity_evidence (s : WorldState) (ids : gset string) : list string :=
  sorted (filter (λ id, refs_of s id = []) ids).

(** The references that the metadata of one attribute cites *)
Definition metadata_refs (m : pyval) : list string :=
  match m with
  | VDict kvs => match dict_get_or "evidence_refs" kvs (VList []) with VList l => omap as_str l | _ => [] end
  | _ => []
  end.

(** The attributes of the metadata map that the state also holds *)
Definition attribute_refs (s : WorldState) (id : string) (keys : gset string) : list string :=
  let attributes := default ∅ (entity_attributes s !! id) in
  let metadata := default ∅ (entity_attribute_metadata s !! id) in
  mjoin ((λ k, if decide (is_Some (attributes !! k)) then metadata_refs (default (VDict []) (metadata !! k)) else [])
           <$> sorted keys).

(** [_attribute_evidence] *)
Definition _attribute_evidence (s : WorldState) (keys : gmap string (gset string)) : list string :=
  extend_new [] (mjoin ((λ id, attribute_refs s id (default ∅ (keys !! id))) <$> sorted (dom keys))).

(** ** The quality of an attribute *)

Inductive quality : Type := QMissing | QOk | QExpired | QInsufficient | QLowConfidence.
#[global] Instance quality_eq_dec : EqDecision quality.
Proof. solve_decision. Defined.

(** Whether [hash(v)] returns *)
Fixpoint hashable (v : pyval) : bool :=
  match v with
  | VList _ | VSet _ | VDict _ => false
  | VTuple l => forallb hashable l
  | _ => true
  end.

Definition evidence_ok (v : pyval) : bool :=
  match v with
  | VList l => negb (bool_decide (length l = 0%nat)) && forallb (λ r, match r with VStr t => non_blank t | _ => false end) l
  | _ => false
  end.

(** The end of [_attribute_quality]: the confidence *)
Definition confidence_quality (v : pyval) (threshold : spec_float) : outcome verify_exn quality :=
  let rate f := Ok (if negb (isfinite f) || float_lt f threshold then QLowConfidence else QOk) in
  match v with
  | VInt z => let f := float_of_Z z in if isfinite f then rate f else Raise VOverflow
  | VFloat f => rate f
  | _ => Ok QInsufficient
  end.

(** [_attribute_quality] *)
Definition _attribute_quality (s : WorldState) (id key : string) (threshold : spec_float) : outcome verify_exn quality :=
  if decide (default ∅ (entity_attributes s !! id) !! key = None) then Ok QMissing
  else match default ∅ (entity_attribute_metadata s !! id) !! key with
       | None | Some VNone =>
           Ok (if decide (entity_attribute_schema_versions s !! id = Some ATTRIBUTE_SCHEMA_VERSION) then QMissing else QOk)
       | Some (VDict kvs) =>
           let belief := dict_get_or "belief" kvs VNone in
           ensure hashable belief else VType in
           if py_eqb belief (VStr (value WorldBelief.STALE)) || py_eqb belief (VStr (value WorldBelief.LOST)) then Ok QExpired
           else if negb (py_eqb belief (VStr (value WorldBelief.OBSERVED))) then Ok QInsufficient
           else if negb (evidence_ok (dict_get_or "evidence_refs" kvs VNone)) then Ok QInsufficient
           else confidence_quality (dict_get_or "confidence" kvs VNone) threshold
       | Some _ => Ok QMissing
       end.

Record quality_summary := {
  q_missing : list string;
  q_expired : list string;
  q_low_confidence : list string;
  q_insufficient : list string;
  q_evidence_keys : gmap string (gset string)
}.

(** The loop body of [_attribute_quality_summary] *)
Definition add_quality (id key : string) (q : quality) (r : quality_summary) : quality_summary :=
  let label := id +:+ "." +:+ key in
  let keys := match q with
              | QMissing => q_evidence_keys r
              | _ => <[id := {[key]} ∪ default ∅ (q_evidence_keys r !! id)]> (q_evidence_keys r)
              end in
  {| q_missing := q_missing r ++ (if decide (q = QMissing) then [label] else []);
     q_expired := q_expired r ++ (if decide (q = QExpired) then [label] else []);
     q_low_confidence := q_low_confidence r ++ (if decide (q = QLowConfidence) then [label] else []);
     q_insufficient := q_insufficient r ++ (if decide (q = QInsufficient) then [label] else []);
     q_evidence_keys := keys |}.

Fixpoint summarize (s : WorldState) (threshold : spec_float) (l : list (string * string)) (r : quality_summary)
    : outcome verify_exn quality_summary :=
  match l with
  | [] => Ok r
  | (id, key) :: l' =>
      let* q := _attribute_quality s id key threshold in summarize s threshold l' (add_quality id key q r)
  end.

(** The pairs in the order of the two loops *)
Definition required_pairs (required : gmap string (gset string)) : list (string * string) :=
  mjoin ((λ id, (λ k, (id, k)) <$> sorted (default ∅ (required !! id))) <$> sorted (dom required)).

(** [_attribute_quality_summary] *)
Definition _attribute_quality_summary (s : WorldState) (required : gmap string (gset string)) (threshold : spec_float)
    : outcome verify_exn quality_summary :=
  summarize s threshold (required_pairs required)
    {| q_missing := []; q_expired := []; q_low_confidence := []; q_insufficient := []; q_evidence_keys := ∅ |}.

(** ** Arguments *)

(** [isinstance(v, str) and v.strip()], with the text *)
Definition text_arg (v : pyval) : outcome verify_exn string :=
  match as_str v with Some s => ensure non_blank s else VValue in Ok s | None => Raise VValue end.

(** [_required_entity_set] *)
Definition _required_entity_set (ids : list pyval) : outcome verify_exn (gset string) :=
  ensure negb (bool_decide (length ids = 0%nat)) else VValue in
  let* l := outcome_map text_arg ids in
  ensure bool_decide (NoDup l) else VValue in Ok (list_to_set l).

(** [_validate_confidence_threshold], with the threshold as a float *)
Definition _validate_confidence_threshold (v : pyval) : outcome verify_exn spec_float :=
  match v with
  | VInt z => ensure (0 <=? z) && (z <=? 1) else VValue in Ok (float_of_Z z)
  | VFloat f => ensure unit_interval f else VValue in Ok f
  | _ => Raise VValue
  end.

(** ** Parcel identities *)

Definition PARCEL_IDENTITY_KEYS : list string := ["tracking_id"; "barcode"; "parcel_uid"].

(** The characters that [re.sub(r"[\s-]+", "", ...)] removes *)
Definition is_separator (c : Z) : bool :=
  ((9 <=? c) && (c <=? 13)) || ((28 <=? c) && (c <=? 32)) || (c =? 133) || (c =? 45).

(** [_normalize_parcel_identity]; [None] is its ValueError *)
Definition _normalize_parcel_identity (v : pyval) : option ustr :=
  match as_str v with
  | Some s =>
      if non_blank s then
        let n := filter (λ c, is_separator c = false) (nfkc_casefold s) in
        if decide (n = []) then None else Some n
      else None
  | None => None
  end.

Definition identities := gmap string (gmap string ustr).

(** One identity key of one manifest entry; [seen] is what the manifest holds so
    far, with the parcel it belongs to *)
Fixpoint manifest_keys (parcel : string) (attributes : list (pyval * pyval)) (keys : list string)
    (seen : gmap ustr string) (acc : gmap string ustr) : outcome verify_exn (gmap ustr string * gmap string ustr) :=
  match keys with
  | [] => Ok (seen, acc)
  | key :: keys' =>
      match dict_get_or key attributes VNone with
      | VNone => manifest_keys parcel attributes keys' seen acc
      | v =>
          match _normalize_parcel_identity v with
          | None => Raise VValue
          | Some identity =>
              match seen !! identity with
              | Some p =>
                  ensure bool_decide (p = parcel) else VValue in
                  manifest_keys parcel attributes keys' (<[identity := parcel]> seen) (<[key := identity]> acc)
              | None => manifest_keys parcel attributes keys' (<[identity := parcel]> seen) (<[key := identity]> acc)
              end
          end
      end
  end.

(** The loop of [_validate_parcel_manifest] *)
Fixpoint manifest_entries (kvs : list (pyval * pyval)) (seen : gmap ustr string) (acc : identities)
    : outcome verify_exn identities :=
  match kvs with
  | [] => Ok acc
  | (k, VDict attributes) :: kvs' =>
      let unsupported := unknown_keys PARCEL_IDENTITY_KEYS attributes in
      (* the message joins the names of the keys *)
      ensure forallb (λ k, bool_decide (is_Some (as_str k))) unsupported else VType in
      ensure bool_decide (length unsupported = 0%nat) else VValue in
      let parcel := default "" (as_str k) in
      let* entry := manifest_keys parcel attributes PARCEL_IDENTITY_KEYS seen ∅ in
      let '(seen', expected) := entry in
      ensure negb (bool_decide (expected = ∅)) else VValue in
      manifest_entries kvs' seen' (<[parcel := expected]> acc)
  | _ => Raise VValue
  end.

(** [_validate_parcel_manifest]: the manifest identifier and the identities *)
Definition _validate_parcel_manifest (required : gset string) (manifest manifest_id : pyval)
    : outcome verify_exn (option string * identities) :=
  match manifest, manifest_id with
  | VNone, VNone => Ok (None, ∅)
  | VNone, _ => Raise VValue
  | _, _ =>
      let* id := text_arg manifest_id in
      match manifest with
      | VDict kvs =>
          ensure bool_decide (list_to_set (as_str <$> kvs.*1) =@{gset (option string)} set_map Some required) else VValue in
          let* expected := manifest_entries kvs ∅ ∅ in
          Ok (Some (strip id), expected)
      | _ => Raise VValue
      end
  end.

(** ** The identifier of a result *)

(** [_normalized_request_value]; [None] when a number is not finite *)
Fixpoint _normalized_request_value (v : material) : option material :=
  match v with
  | MDict kvs =>
      (λ l, MDict (merge_sort entry_le l)) <$> mapM (λ '(k, x), (λ y, (k, y)) <$> _normalized_request_value x) kvs
  | MSet l =>
      (λ l, MList ((merge_sort entry_le ((λ x, (default [] (json_dumps x), x)) <$> l)).*2))
        <$> mapM _normalized_request_value l
  | MList l => MList <$> mapM _normalized_request_value l
  | MFloat f => if isfinite f then Some v else None
  | _ => Some v
  end.

(** [_normalized_request_semantics] *)
Definition _normalized_request_semantics (v : material) : outcome verify_exn material :=
  match v with
  | MDict _ => match _normalized_request_value v with Some m => Ok m | None => Raise VValue end
  | _ => Raise VType
  end.

(** A verdict: the status, the reason and the hint of a result *)
Record verdict := { v_status : VerificationStatus.t; v_reason : ReasonCode.t; v_hint : RecoveryHint.t }.

Definition target_not_observed : verdict := {|
  v_status := VerificationStatus.INSUFFICIENT_EVIDENCE; v_reason := ReasonCode.TARGET_NOT_OBSERVED; v_hint := RecoveryHint.RE_OBSERVE |}.
Definition confidence_below_threshold : verdict := {|
  v_status := VerificationStatus.INSUFFICIENT_EVIDENCE; v_reason := ReasonCode.CONFIDENCE_BELOW_THRESHOLD;
  v_hint := RecoveryHint.RE_OBSERVE |}.
Definition evidence_missing : verdict := {|
  v_status := VerificationStatus.INSUFFICIENT_EVIDENCE; v_reason := ReasonCode.EVIDENCE_MISSING; v_hint := RecoveryHint.RE_OBSERVE |}.
Definition stale_observation : verdict := {|
  v_status := VerificationStatus.INSUFFICIENT_EVIDENCE; v_reason := ReasonCode.STALE_OBSERVATION; v_hint := RecoveryHint.RE_OBSERVE |}.
Definition goal_not_satisfied : verdict := {|
  v_status := VerificationStatus.REFUTED; v_reason := ReasonCode.GOAL_NOT_SATISFIED; v_hint := RecoveryHint.RETRY_ACTION |}.
Definition goal_satisfied : verdict := {|
  v_status := VerificationStatus.CONFIRMED; v_reason := ReasonCode.GOAL_SATISFIED; v_hint := RecoveryHint.NONE |}.

(** [_verification_id] *)
Definition _verification_id (run_id task_id state_hash claim : string) (v : verdict) (refs : list string)
    (rule_version verifier_kind : string) (semantics : material) : outcome verify_exn string :=
  ensure non_blank verifier_kind else VValue in
  let* request := _normalized_request_semantics semantics in
  let* hash := _validated_state_hash (VStr state_hash) in
  match json_dumps (ufields
    [("verifier_kind", utext verifier_kind); ("request_semantics", request); ("run_id", utext run_id);
     ("task_id", utext task_id); ("state_hash", utext hash); ("claim", utext claim); ("status", utext (value (v_status v)));
     ("reason_code", utext (value (v_reason v))); ("evidence_refs", utexts refs);
     ("recovery_hint", utext (value (v_hint v))); ("rule_version", utext rule_version)]) with
  | Some text => Ok ("ver-" +:+ sha256_hexdigest (utf8_bytes text))
  | None => Raise VValue
  end.

(** ** Results *)

(** Whether a belief is stale or lost *)
Definition expired_belief (b : option WorldBelief.t) : bool :=
  bool_decide (b = Some WorldBelief.STALE) || bool_decide (b = Some WorldBelief.LOST).

(** [_expired_support] *)
Definition _expired_support (s : WorldState) (ids : gset string) : list string :=
  filter (λ id, expired_belief (entity_beliefs s !! id) || expired_belief (entity_location_beliefs s !! id) = true) (sorted ids).

(** The verdict and the claim after the two checks of freshness *)
Definition checked_verdict (s : WorldState) (claim : string) (v : verdict) (ids : gset string) : verdict * string :=
  let '(v, claim) :=
    if negb (freshness_evaluated s) && negb (bool_decide (v_status v = VerificationStatus.INSUFFICIENT_EVIDENCE))
    then (stale_observation, claim +:+ "; freshness_not_evaluated") else (v, claim) in
  let expired := _expired_support s ids in
  if decide (expired = []) then (v, claim) else (stale_observation, claim +:+ "; stale_or_lost=" +:+ repr_list expired).

(** The references of a result *)
Definition result_evidence (s : WorldState) (ids : gset string) (keys : gmap string (gset string)) : list string :=
  let refs := extend_new (_entity_evidence s ids) (_attribute_evidence s keys) in
  if decide (refs = []) then [NO_EVIDENCE_REF] else refs.

(** [_result] *)
Definition _result (s : WorldState) (task_id claim : string) (v : verdict) (rule_version : string) (ids : gset string)
    (verifier_kind : string) (semantics : material) (context : option VerificationContext)
    (keys : gmap string (gset string)) : outcome verify_exn VerificationResult :=
  match context with
  | None => Raise VType
  | Some c =>
      let '(v, claim) := checked_verdict s claim v ids in
      let refs := result_evidence s ids keys in
      let* id := _verification_id (run_id s) task_id (ctx_state_hash c) claim v refs rule_version verifier_kind semantics in
      let r := {| verification_id := id; vr_run_id := run_id s; vr_task_id := task_id; claim := claim; status := v_status v;
                  reason_code := Some (v_reason v); completeness := None; vr_evidence_refs := refs; recovery_hint := v_hint v;
                  verified_at := ctx_verified_at c; vr_clock_id := ctx_clock_id c; rule_version := rule_version |} in
      ensure validate_status_semantics r else VValue in Ok r
  end.

(** ** An object in a tray *)

(** [verify_object_in_tray] *)
Definition verify_object_in_tray (s : WorldState) (task_id : string) (object tray : pyval)
    (context : option VerificationContext) : outcome verify_exn VerificationResult :=
  let* object_id := text_arg object in
  let* tray_id := text_arg tray in
  let about := object_id +:+ " inside " +:+ tray_id in
  let '(v, claim) :=
    match entity_locations s !! object_id with
    | None => (target_not_observed, about +:+ ": never observed")
    | Some actual =>
        if String.eqb actual ("in:" +:+ tray_id) then
          if decide (refs_of s object_id = []) then (evidence_missing, about +:+ ": relation has no evidence")
          else (goal_satisfied, about)
        else (goal_not_satisfied, about +:+ ": found at " +:+ actual)
    end in
  _result s task_id claim v "tray-membership-v1" {[object_id]} "object_in_tray"
    (ufields [("object_id", utext object_id); ("tray_id", utext tray_id)]) context ∅.

(** ** Kits and inspections *)

Definition unobserved_ids (s : WorldState) (required : gset string) : list string :=
  sorted (filter (λ id, entity_locations s !! id = None) required).

(** [state.entity_confidence.get(id, 0.0) < threshold] *)
Definition low_confidence (s : WorldState) (threshold : spec_float) (id : string) : bool :=
  float_lt (default float_zero (entity_confidence s !! id)) threshold.

Definition low_confidence_ids (s : WorldState) (required : gset string) (threshold : spec_float) : list string :=
  sorted (filter (λ id, low_confidence s threshold id = true) required).

(** Entities in a managed location that no one asked for *)
Definition extra_ids (s : WorldState) (required managed : gset string) : list string :=
  sorted (filter (λ id, id ∉ required ∧ default "" (entity_locations s !! id) ∈ managed) (dom (entity_locations s))).

(** Entities that were seen elsewhere *)
Definition misplaced_ids (s : WorldState) (expected : string → string) (required : gset string) : list string :=
  sorted (filter (λ id, entity_locations s !! id ≠ None ∧ entity_locations s !! id ≠ Some (expected id)) required).

(** [verify_kit_contents] *)
Definition verify_kit_contents (s : WorldState) (task_id : string) (object_ids : list pyval) (tray threshold : pyval)
    (context : option VerificationContext) : outcome verify_exn VerificationResult :=
  let* required := _required_entity_set object_ids in
  let* tray_id := text_arg tray in
  let* threshold := _validate_confidence_threshold threshold in
  let expected := "in:" +:+ tray_id in
  let unobserved := unobserved_ids s required in
  let misplaced := misplaced_ids s (λ _, expected) required in
  let extras := extra_ids s required {[expected]} in
  let low := low_confidence_ids s required threshold in
  let missing := _missing_entity_evidence s required in
  let claim := "kit in " +:+ tray_id +:+ ": unobserved=" +:+ repr_list unobserved +:+ "; misplaced=" +:+ repr_list misplaced +:+
    "; extras=" +:+ repr_list extras +:+ "; low_confidence=" +:+ repr_list low +:+ "; missing_evidence=" +:+ repr_list missing in
  let '(v, ids) :=
    if decide (unobserved ≠ []) then (target_not_observed, list_to_set unobserved)
    else if decide (low ≠ []) then (confidence_below_threshold, list_to_set low)
    else if decide (missing ≠ []) then (evidence_missing, list_to_set missing)
    else if decide (misplaced ≠ [] ∨ extras ≠ []) then (goal_not_satisfied, list_to_set misplaced ∪ list_to_set extras)
    else (goal_satisfied, required) in
  _result s task_id claim v "kit-contents-v1" ids "kit_contents"
    (ufields [("required_object_ids", utexts (sorted required)); ("tray_id", utext tray_id);
              ("confidence_threshold", MFloat threshold)]) context ∅.

(** [verify_inspection_evidence] *)
Definition verify_inspection_evidence (s : WorldState) (task_id : string) (entity_ids : list pyval) (threshold : pyval)
    (context : option VerificationContext) : outcome verify_exn VerificationResult :=
  let* required := _required_entity_set entity_ids in
  let* threshold := _validate_confidence_threshold threshold in
  let unobserved := unobserved_ids s required in
  let low := low_confidence_ids s required threshold in
  let missing := _missing_entity_evidence s required in
  let claim := "inspection: unobserved=" +:+ repr_list unobserved +:+ "; low_confidence=" +:+ repr_list low +:+
    "; missing_evidence=" +:+ repr_list missing in
  let '(v, ids) :=
    if decide (unobserved ≠ []) then (target_not_observed, list_to_set unobserved)
    else if decide (low ≠ []) then (confidence_below_threshold, list_to_set low)
    else if decide (missing ≠ []) then (evidence_missing, list_to_set missing)
    else (goal_satisfied, required) in
  _result s task_id claim v "inspection-evidence-v1" ids "inspection_evidence"
    (ufields [("required_entity_ids", utexts (sorted required)); ("confidence_threshold", MFloat threshold)]) context ∅.

(** ** The workspace *)

Definition clearance : gmap string string := {[ "blue_cylinder" := "in:staging_bin"; "red_block" := "in:tray" ]}.

(** [verify_workspace_clearance] *)
Definition verify_workspace_clearance (s : WorldState) (task_id : string) (context : option VerificationContext)
    : outcome verify_exn VerificationResult :=
  let required := dom clearance in
  let unobserved := unobserved_ids s required in
  let unmet_ids := misplaced_ids s (λ id, default "" (clearance !! id)) required in
  let unmet := (λ id, id +:+ "->" +:+ default "" (clearance !! id)) <$> unmet_ids in
  let missing := _missing_entity_evidence s required in
  let claim := "workspace clearance: unobserved=" +:+ repr_list unobserved +:+ "; unmet=" +:+ repr_list unmet +:+
    "; missing_evidence=" +:+ repr_list missing in
  let '(v, ids) :=
    if decide (unobserved ≠ []) then (target_not_observed, list_to_set unobserved)
    else if decide (missing ≠ []) then (evidence_missing, list_to_set missing)
    else if decide (unmet_ids ≠ []) then (goal_not_satisfied, list_to_set unmet_ids)
    else (goal_satisfied, required) in
  _result s task_id claim v "workspace-clearance-v1" ids "workspace_clearance" (ufields []) context ∅.
