(* ===== verification/VerifierParcels.v ===== *)
(** * World-model verifier: parcels

    [verify_parcel_sorting] and [verify_parcel_policy] of
    [services/world_model/workbench_world_model/verifier.py]. *)

From Stdlib Require Import ZArith Ascii String SpecFloat.
From S2P Require Import Prelude PyVal Json PyText DateTime Contracts ObservedAttributes EventPayloads Aging Reducer Verifier.
Local Open Scope Z_scope.

(** ** Shared checks *)

(** [math.isfinite(c)] is part of the test for parcels *)
Definition parcel_low_confidence (s : WorldState) (threshold : spec_float) (id : string) : bool :=
  negb (isfinite (default float_zero (entity_confidence s !! id))) || low_confidence s threshold id.

Definition parcel_low_confidence_ids (s : WorldState) (required : gset string) (threshold : spec_float) : list string :=
  sorted (filter (λ id, parcel_low_confidence s threshold id = true) required).

(** [{item.partition(".")[0] for item in labels}] *)
Definition label_entities (labels : list string) : gset string := list_to_set ((λ l, (partition_at "." l).1.1) <$> labels).

(** The attributes that a state holds for an entity *)
Definition attributes_at (s : WorldState) (id : string) : gmap string string := default ∅ (entity_attributes s !! id).

(** ** Sorting by given routes *)

Definition DEFAULT_PARCEL_ROUTES : list (string * string) :=
  [("parcel_box", "pickup_shelf"); ("parcel_envelope", "pickup_shelf"); ("parcel_damaged", "quarantine_bin")].
Definition DEFAULT_PARCEL_ATTRIBUTES : list (string * list (string * string)) :=
  [("parcel_box", [("label_status", "verified"); ("condition", "intact")]);
   ("parcel_envelope", [("label_status", "verified"); ("condition", "intact")]);
   ("parcel_damaged", [("label_status", "verified"); ("condition", "damaged")])].

Definition str_dict (l : list (string * string)) : pyval := VDict ((λ kv, (VStr kv.1, VStr kv.2)) <$> l).

(** [isinstance(v, Mapping)], with the items *)
Definition mapping_arg (v : pyval) : outcome verify_exn (list (pyval * pyval)) :=
  match v with VDict kvs => Ok kvs | _ => Raise VValue end.

(** The routes: the required parcels and the destination of each *)
Definition parse_routes (routes : pyval) : outcome verify_exn (gset string * gmap string string) :=
  let* kvs := mapping_arg (match routes with VNone => str_dict DEFAULT_PARCEL_ROUTES | v => v end) in
  let* required := _required_entity_set kvs.*1 in
  let* destinations := outcome_map text_arg kvs.*2 in
  Ok (required, list_to_map (zip (omap as_str kvs.*1) destinations)).

(** The requirements of one parcel: non-empty, of non-blank text, and valid
    observed attributes of a parcel *)
Definition requirements_shape (v : pyval) : bool :=
  match v with
  | VDict kvs =>
      negb (bool_decide (length kvs = 0%nat)) &&
      forallb (λ kv, match text_arg kv.1, text_arg kv.2 with Ok _, Ok _ => true | _, _ => false end) kvs
  | _ => false
  end.

Definition normalize_requirements (kv : pyval * pyval) : outcome verify_exn (string * list (string * string)) :=
  match as_str kv.1, validate_observed_attributes kv.2 (Some "parcel") false with
  | Some id, Some l => Ok (id, l)
  | _, _ => Raise VValue
  end.

Definition parse_requirements (required : gset string) (expected : pyval)
    : outcome verify_exn (gmap string (list (string * string))) :=
  let* kvs := mapping_arg (match expected with
                           | VNone => VDict ((λ kv, (VStr kv.1, str_dict kv.2)) <$> DEFAULT_PARCEL_ATTRIBUTES)
                           | v => v
                           end) in
  ensure bool_decide (list_to_set (as_str <$> kvs.*1) =@{gset (option string)} set_map Some required) else VValue in
  ensure forallb requirements_shape kvs.*2 else VValue in
  let* l := outcome_map normalize_requirements kvs in
  Ok (list_to_map l).

(** The loop over the expected attributes of one parcel: missing labels, and
    mismatches *)
Definition compare_attribute (s : WorldState) (id : string) (acc : list string * list string) (kv : string * string)
    : list string * list string :=
  let label := id +:+ "." +:+ kv.1 in
  match attributes_at s id !! kv.1 with
  | None => (extend_new acc.1 [label], acc.2)
  | Some v => if String.eqb v kv.2 then acc else (acc.1, acc.2 ++ [label +:+ "=" +:+ v])
  end.

Definition compare_attributes (s : WorldState) (required : gset string) (attributes : gmap string (list (string * string)))
    (missing : list string) : list string * list string :=
  foldl (λ acc id, foldl (compare_attribute s id) acc (default [] (attributes !! id))) (missing, []) (sorted required).

(** The parcels with a missing or with another value *)
Definition lacks_attribute (s : WorldState) (id : string) (kv : string * string) : bool :=
  bool_decide (attributes_at s id !! kv.1 = None).
Definition differs (s : WorldState) (id : string) (kv : string * string) : bool :=
  match attributes_at s id !! kv.1 with Some v => negb (String.eqb v kv.2) | None => false end.

(** [verify_parcel_sorting] *)
Definition verify_parcel_sorting (s : WorldState) (task_id : string) (routes expected_attributes threshold : pyval)
    (context : option VerificationContext) : outcome verify_exn VerificationResult :=
  let* parsed := parse_routes routes in
  let '(required, routes) := parsed in
  let* attributes := parse_requirements required expected_attributes in
  let* threshold := _validate_confidence_threshold threshold in
  let unobserved := unobserved_ids s required in
  let low := parcel_low_confidence_ids s required threshold in
  let missing_evidence := _missing_entity_evidence s required in
  let* q := _attribute_quality_summary s ((λ l, list_to_set l.*1) <$> attributes) threshold in
  let items id := default [] (attributes !! id) in
  let '(missing_attributes, mismatches) := compare_attributes s required attributes (extend_new [] (q_missing q)) in
  let missing_entities := label_entities (q_missing q) ∪ filter (λ id, existsb (lacks_attribute s id) (items id) = true) required in
  let mismatch_entities := filter (λ id, existsb (differs s id) (items id) = true) required in
  let destination id := default "" (routes !! id) in
  let misrouted_ids := misplaced_ids s (λ id, "in:" +:+ destination id) required in
  let misrouted := (λ id, id +:+ "->" +:+ destination id) <$> misrouted_ids in
  let extras := extra_ids s required (set_map (λ id, "in:" +:+ destination id) required) in
  let claim := "parcel sorting: unobserved=" +:+ repr_list unobserved +:+ "; low_confidence=" +:+ repr_list low +:+
    "; missing_evidence=" +:+ repr_list missing_evidence +:+ "; missing_attributes=" +:+ repr_list missing_attributes +:+
    "; expired_attributes=" +:+ repr_list (q_expired q) +:+ "; low_confidence_attributes=" +:+ repr_list (q_low_confidence q) +:+
    "; insufficient_attributes=" +:+ repr_list (q_insufficient q) +:+ "; attribute_mismatches=" +:+ repr_list mismatches +:+
    "; misrouted=" +:+ repr_list misrouted +:+ "; extras=" +:+ repr_list extras in
  let '(v, ids) :=
    if decide (unobserved ≠ []) then (target_not_observed, list_to_set unobserved)
    else if decide (low ≠ []) then (confidence_below_threshold, list_to_set low)
    else if decide (q_low_confidence q ≠ []) then (confidence_below_threshold, label_entities (q_low_confidence q))
    else if decide (q_expired q ≠ []) then (stale_observation, label_entities (q_expired q))
    else if decide (missing_evidence ≠ [] ∨ missing_attributes ≠ [] ∨ q_insufficient q ≠ []) then
      (evidence_missing, list_to_set missing_evidence ∪ missing_entities ∪ label_entities (q_insufficient q))
    else if decide (mismatches ≠ [] ∨ misrouted ≠ [] ∨ extras ≠ []) then
      (goal_not_satisfied, mismatch_entities ∪ list_to_set misrouted_ids ∪ list_to_set extras)
    else (goal_satisfied, required) in
  _result s task_id claim v "parcel-sorting-v1" ids "parcel_sorting"
    (ufields
      [("parcel_routes", ufields ((λ id, (id, utext (destination id))) <$> sorted required));
       ("expected_attributes", ufields ((λ id, (id, ufields ((λ kv, (kv.1, utext kv.2)) <$> items id))) <$> sorted required));
       ("confidence_threshold", MFloat threshold)]) context (q_evidence_keys q).

(** ** Sorting by what was observed *)

Record policy_state := {
  p_missing_attributes : list string;
  p_missing_entities : gset string;
  p_missing_identities : list string;
  p_mismatches : list string;
  p_duplicates : list string;
  p_duplicate_entities : gset string;
  p_seen : gmap ustr (string * string);
  p_decisions : list (string * string);
  p_reasons : list (string * string)
}.

Definition add_missing (id key : string) (p : policy_state) : policy_state := {|
  p_missing_attributes := extend_new (p_missing_attributes p) [id +:+ "." +:+ key];
  p_missing_entities := {[id]} ∪ p_missing_entities p; p_missing_identities := p_missing_identities p;
  p_mismatches := p_mismatches p; p_duplicates := p_duplicates p; p_duplicate_entities := p_duplicate_entities p;
  p_seen := p_seen p; p_decisions := p_decisions p; p_reasons := p_reasons p |}.

Definition add_duplicate (text : string) (ids : gset string) (p : policy_state) : policy_state := {|
  p_missing_attributes := p_missing_attributes p; p_missing_entities := p_missing_entities p;
  p_missing_identities := p_missing_identities p; p_mismatches := p_mismatches p; p_duplicates := p_duplicates p ++ [text];
  p_duplicate_entities := ids ∪ p_duplicate_entities p; p_seen := p_seen p; p_decisions := p_decisions p; p_reasons := p_reasons p |}.

Definition add_seen (identity : ustr) (owner : string * string) (p : policy_state) : policy_state := {|
  p_missing_attributes := p_missing_attributes p; p_missing_entities := p_missing_entities p;
  p_missing_identities := p_missing_identities p; p_mismatches := p_mismatches p; p_duplicates := p_duplicates p;
  p_duplicate_entities := p_duplicate_entities p; p_seen := <[identity := owner]> (p_seen p); p_decisions := p_decisions p;
  p_reasons := p_reasons p |}.

Definition add_manifest (missing mismatch : list string) (p : policy_state) : policy_state := {|
  p_missing_attributes := p_missing_attributes p; p_missing_entities := p_missing_entities p;
  p_missing_identities := p_missing_identities p ++ missing; p_mismatches := p_mismatches p ++ mismatch;
  p_duplicates := p_duplicates p; p_duplicate_entities := p_duplicate_entities p; p_seen := p_seen p;
  p_decisions := p_decisions p; p_reasons := p_reasons p |}.

Definition add_decision (id location why : string) (p : policy_state) : policy_state := {|
  p_missing_attributes := p_missing_attributes p; p_missing_entities := p_missing_entities p;
  p_missing_identities := p_missing_identities p; p_mismatches := p_mismatches p; p_duplicates := p_duplicates p;
  p_duplicate_entities := p_duplicate_entities p; p_seen := p_seen p; p_decisions := p_decisions p ++ [(id, location)];
  p_reasons := p_reasons p ++ [(id, why)] |}.

(** The loop over the identity keys: the state and the identities of the parcel *)
Definition observe_identity (observed : gmap string string) (id : string) (acc : policy_state * gmap string ustr) (key : string)
    : policy_state * gmap string ustr :=
  let '(p, mine) := acc in
  match observed !! key with
  | None => acc
  | Some v =>
      match _normalize_parcel_identity (VStr v) with
      | None => (add_missing id key p, mine)
      | Some identity =>
          let mine := <[key := identity]> mine in
          match p_seen p !! identity with
          | Some (other, other_key) =>
              if decide (other ≠ id) then
                (add_duplicate (other +:+ "." +:+ other_key +:+ "=" +:+ id +:+ "." +:+ key +:+ " (" +:+ strip v +:+ ")")
                   {[other; id]} p, mine)
              else (add_seen identity (id, key) p, mine)
          | None => (add_seen identity (id, key) p, mine)
          end
      end
  end.

(** An observed identity contradicts the manifest entry *)
Definition contradicts (expected mine : gmap string ustr) : bool :=
  existsb (λ kv, match expected !! kv.1 with Some e => negb (bool_decide (e = kv.2)) | None => false end) (map_to_list mine) ||
  bool_decide ((list_to_set (map_to_list expected).*2 : gset ustr) ∩ list_to_set (map_to_list mine).*2 = ∅).

Definition check_manifest (expected : option (gmap string ustr)) (id : string) (mine : gmap string ustr) (p : policy_state)
    : policy_state :=
  match expected with
  | None => p
  | Some expected =>
      if decide (mine = ∅) then add_manifest [id] [] p
      else if contradicts expected mine then add_manifest [] [id] p
      else p
  end.

(** The route that the observed label and condition require *)
Definition decide_route (shelf bin id label condition : string) (p : policy_state) : policy_state :=
  let label := lower (strip label) in
  let condition := lower (strip condition) in
  if String.eqb label "verified" && String.eqb condition "intact" then add_decision id ("in:" +:+ shelf) "verified_intact" p
  else add_decision id ("in:" +:+ bin)
         (join "+" ((if String.eqb label "verified" then [] else ["label_" +:+ label]) ++
                    (if String.eqb condition "intact" then [] else ["condition_" +:+ condition]))) p.

(** [isinstance(v, str) and v.strip()] *)
Definition readable (v : option string) : option string :=
  match v with Some s => if non_blank s then Some s else None | None => None end.

(** The body of the loop over the parcels *)
Definition policy_step (s : WorldState) (manifest : option identities) (shelf bin : string) (p : policy_state) (id : string)
    : policy_state :=
  let observed := attributes_at s id in
  let label := readable (observed !! "label_status") in
  let condition := readable (observed !! "condition") in
  let p := match label with None => add_missing id "label_status" p | _ => p end in
  let p := match condition with None => add_missing id "condition" p | _ => p end in
  let '(p, mine) := foldl (observe_identity observed id) (p, ∅) PARCEL_IDENTITY_KEYS in
  let p := check_manifest ((λ m : identities, default ∅ (m !! id)) <$> manifest) id mine p in
  match label, condition with
  | Some label, Some condition => decide_route shelf bin id label condition p
  | _, _ => p
  end.

(** The attributes whose quality is asked for *)
Definition policy_requirements (s : WorldState) (required : gset string) (manifest : option identities)
    : gmap string (gset string) :=
  set_to_map (λ id,
    (id, {["label_status"; "condition"]} ∪
         match manifest with
         | None => ∅
         | Some m =>
             let observed := dom (attributes_at s id) in
             let matching := dom (default ∅ (m !! id)) ∩ observed in
             if decide (matching = ∅) then list_to_set PARCEL_IDENTITY_KEYS ∩ observed else matching
         end)) required.

Definition initial_policy (missing : list string) : policy_state := {|
  p_missing_attributes := extend_new [] missing; p_missing_entities := label_entities missing; p_missing_identities := [];
  p_mismatches := []; p_duplicates := []; p_duplicate_entities := ∅; p_seen := ∅; p_decisions := []; p_reasons := [] |}.

(** The decisions that the locations do not follow *)
Definition misrouted_decisions (s : WorldState) (decisions : list (string * string)) : list (string * string) :=
  merge_sort key_le (filter (λ d, entity_locations s !! d.1 ≠ Some d.2) decisions).

Definition optional_text (o : option string) : string := match o with Some s => s | None => "None" end.

Definition manifest_material (m : identities) : material :=
  MDict ((λ kv, (ustr_of kv.1, MDict ((λ kv, (ustr_of kv.1, MText kv.2)) <$> map_to_list kv.2))) <$> map_to_list m).

(** [verify_parcel_policy] *)
Definition verify_parcel_policy (s : WorldState) (task_id : string) (parcel_ids : list pyval)
    (pickup_shelf_id quarantine_bin_id threshold parcel_manifest manifest_id : pyval) (context : option VerificationContext)
    : outcome verify_exn VerificationResult :=
  let* required := _required_entity_set parcel_ids in
  let* shelf := text_arg pickup_shelf_id in
  let* bin := text_arg quarantine_bin_id in
  ensure negb (String.eqb shelf bin) else VValue in
  let* threshold := _validate_confidence_threshold threshold in
  let* validated := _validate_parcel_manifest required parcel_manifest manifest_id in
  let '(manifest_id, expected) := validated in
  let manifest := (λ _, expected) <$> manifest_id in
  let* q := _attribute_quality_summary s (policy_requirements s required manifest) threshold in
  let unobserved := unobserved_ids s required in
  let low := parcel_low_confidence_ids s required threshold in
  let missing_evidence := _missing_entity_evidence s required in
  let p := foldl (policy_step s manifest shelf bin) (initial_policy (q_missing q)) (sorted required) in
  let misrouted := misrouted_decisions s (p_decisions p) in
  let extras := extra_ids s required {["in:" +:+ shelf; "in:" +:+ bin]} in
  let claim := "parcel policy: manifest_id=" +:+ optional_text manifest_id +:+ "; decisions=" +:+ repr_dict (p_decisions p) +:+
    "; reasons=" +:+ repr_dict (p_reasons p) +:+ "; unobserved=" +:+ repr_list unobserved +:+
    "; low_confidence=" +:+ repr_list low +:+ "; missing_evidence=" +:+ repr_list missing_evidence +:+
    "; missing_attributes=" +:+ repr_list (p_missing_attributes p) +:+
    "; missing_manifest_identities=" +:+ repr_list (p_missing_identities p) +:+
    "; expired_attributes=" +:+ repr_list (q_expired q) +:+ "; low_confidence_attributes=" +:+ repr_list (q_low_confidence q) +:+
    "; insufficient_attributes=" +:+ repr_list (q_insufficient q) +:+ "; manifest_mismatches=" +:+ repr_list (p_mismatches p) +:+
    "; duplicate_identities=" +:+ repr_list (p_duplicates p) +:+
    "; misrouted=" +:+ repr_list ((λ d, d.1 +:+ "->" +:+ d.2) <$> misrouted) +:+ "; extras=" +:+ repr_list extras in
  let '(v, ids) :=
    if decide (unobserved ≠ []) then (target_not_observed, list_to_set unobserved)
    else if decide (low ≠ []) then (confidence_below_threshold, list_to_set low)
    else if decide (q_low_confidence q ≠ []) then (confidence_below_threshold, label_entities (q_low_confidence q))
    else if decide (q_expired q ≠ []) then (stale_observation, label_entities (q_expired q))
    else if decide (missing_evidence ≠ [] ∨ p_missing_attributes p ≠ [] ∨ p_missing_identities p ≠ [] ∨ q_insufficient q ≠ [])
    then (evidence_missing, list_to_set missing_evidence ∪ p_missing_entities p ∪ list_to_set (p_missing_identities p) ∪
                            label_entities (q_insufficient q))
    else if decide (p_mismatches p ≠ [] ∨ p_duplicates p ≠ [] ∨ misrouted ≠ [] ∨ extras ≠ []) then
      (goal_not_satisfied, list_to_set (p_mismatches p) ∪ p_duplicate_entities p ∪ list_to_set misrouted.*1 ∪ list_to_set extras)
    else (goal_satisfied, required) in
  _result s task_id claim v "parcel-policy-v2" ids "parcel_policy"
    (ufields
      [("parcel_ids", utexts (sorted required)); ("pickup_shelf_id", utext shelf); ("quarantine_bin_id", utext bin);
       ("confidence_threshold", MFloat threshold);
       ("parcel_manifest", match manifest with None => MNull | Some m => manifest_material m end);
       ("manifest_id", match manifest_id with None => MNull | Some m => utext m end)]) context (q_evidence_keys q).
