(* ===== verification/VerifierTheorems.v ===== *)
(** * World-model verifier: theorems

    Lemmas about results and evidence, then what a confirmed or refuted claim rests
    on, and when a kit is confirmed. *)

From Stdlib Require Import ZArith Ascii String SpecFloat Lia.
From S2P Require Import Prelude PyVal DateTime Json Contracts ObservedAttributes EventPayloads Aging Reducer PyText Verifier VerifierParcels.
Local Open Scope Z_scope.

(** ** Sets and evidence lists *)

Lemma not_not_nil {A} (l : list A) : ¬ (l ≠ []) → l = [].
Proof. destruct l; [done|]. intros H. by destruct H. Qed.

Lemma not_or_nil {A} (l : list A) (P : Prop) : ¬ (l ≠ [] ∨ P) → l = [] ∧ ¬ P.
Proof. intros H. split; [apply not_not_nil|]; tauto. Qed.

(** The lists that the failed tests of a chain of verdicts show to be empty *)
Ltac nil_facts :=
  repeat match goal with
  | H : ¬ (_ ≠ [] ∨ _) |- _ => apply not_or_nil in H as [? ?]
  | H : ¬ (_ ≠ []) |- _ => apply not_not_nil in H
  end.

Lemma sorted_filter_nil (P : string → Prop) `{∀ x, Decision (P x)} (X : gset string) :
  sorted (filter P X) = [] ↔ ∀ x, x ∈ X → ¬ P x.
Proof.
  rewrite sorted_nil. split.
  - intros HX x Hx HP. apply (not_elem_of_empty (C:=gset string) x). rewrite <-HX. by apply elem_of_filter.
  - intros Hn. apply set_eq. intros x. rewrite elem_of_filter. set_solver.
Qed.

Lemma list_to_set_sorted (X : gset string) : list_to_set (sorted X) = X.
Proof. apply set_eq. intros x. by rewrite elem_of_list_to_set, elem_of_sorted. Qed.

Lemma elem_of_extend_new x l refs : x ∈ extend_new l refs ↔ x ∈ l ∨ x ∈ refs.
Proof.
  unfold extend_new. revert l. induction refs as [|r refs IH]; intros l; simpl; [set_solver|].
  rewrite IH. case_decide; set_solver.
Qed.

Lemma extend_new_nil l refs : extend_new l refs = [] ↔ l = [] ∧ refs = [].
Proof.
  split; [|by intros [-> ->]]. intros Hn.
  assert (∀ x, ¬ (x ∈ l ∨ x ∈ refs)) as Hx by (intros x; rewrite <-elem_of_extend_new, Hn; set_solver).
  destruct l as [|a l]; [|destruct (Hx a); left; set_solver].
  destruct refs as [|a refs]; [done|destruct (Hx a); right; set_solver].
Qed.

Lemma elem_of_entity_evidence x s ids :
  x ∈ _entity_evidence s ids ↔ ∃ id, id ∈ ids ∧ x ∈ refs_of s id.
Proof.
  unfold _entity_evidence. rewrite elem_of_extend_new, list_elem_of_join. setoid_rewrite list_elem_of_fmap.
  setoid_rewrite elem_of_sorted. set_solver.
Qed.

Lemma missing_evidence_nil s ids : _missing_entity_evidence s ids = [] ↔ ∀ id, id ∈ ids → refs_of s id ≠ [].
Proof. apply sorted_filter_nil. Qed.

(** ** Material that [json.dumps] accepts *)

Section MaterialInd.
Context (P : material → Prop).
Context (HNull : P MNull) (HBool : ∀ b, P (MBool b)) (HInt : ∀ z, P (MInt z)) (HFloat : ∀ f, P (MFloat f))
  (HText : ∀ s, P (MText s)) (HList : ∀ l, Forall P l → P (MList l)) (HSet : ∀ l, Forall P l → P (MSet l))
  (HDict : ∀ kvs, Forall (λ kv, P kv.2) kvs → P (MDict kvs)).

Fixpoint material_nested_ind (v : material) : P v :=
  let fix go (l : list material) : Forall P l :=
    match l with
    | [] => Forall_nil_2 _
    | x :: l' => Forall_cons_2 _ _ _ (material_nested_ind x) (go l')
    end in
  let fix go2 (l : list (ustr * material)) : Forall (λ kv, P kv.2) l :=
    match l with
    | [] => Forall_nil_2 _
    | (k, x) :: l' => Forall_cons_2 (λ kv, P kv.2) (k, x) l' (material_nested_ind x) (go2 l')
    end in
  match v with
  | MNull => HNull | MBool b => HBool b | MInt z => HInt z | MFloat f => HFloat f | MText s => HText s
  | MList l => HList l (go l) | MSet l => HSet l (go l) | MDict kvs => HDict kvs (go2 kvs)
  end.
End MaterialInd.

(** Finite numbers and no sets *)
Fixpoint clean (v : material) : bool :=
  match v with
  | MFloat f => isfinite f
  | MList l => forallb clean l
  | MSet _ => false
  | MDict kvs => forallb (λ '(_, x), clean x) kvs
  | _ => true
  end.

Lemma forallb_Permutation {A} (f : A → bool) l l' : l ≡ₚ l' → forallb f l = forallb f l'.
Proof. induction 1; simpl; [done|by f_equal|by destruct (f x), (f y)|congruence]. Qed.

Lemma mapM_exists {A B} (f : A → option B) l : Forall (λ x, is_Some (f x)) l → is_Some (mapM f l).
Proof. apply mapM_is_Some_2. Qed.

Lemma json_dumps_clean v : clean v = true → is_Some (json_dumps v).
Proof.
  induction v as [| | |f| |l IH|l _|kvs IH] using material_nested_ind; simpl; intros Hc; try done; try by eexists.
  - rewrite Hc. by eexists.
  - apply fmap_is_Some, mapM_exists. rewrite Forall_forall in IH |- *. intros x Hx.
    apply IH; [done|]. rewrite forallb_forall in Hc. apply Hc. by apply list_elem_of_In.
  - apply fmap_is_Some, mapM_exists. rewrite Forall_forall in IH |- *. intros [k x] Hx.
    apply fmap_is_Some. apply (IH (k, x)); [done|]. rewrite forallb_forall in Hc.
    apply (Hc (k, x)). by apply list_elem_of_In.
Qed.

Lemma normalized_clean v : clean v = true → ∃ w, _normalized_request_value v = Some w ∧ clean w = true.
Proof.
  induction v as [| | |f| |l IH|l _|kvs IH] using material_nested_ind; simpl; intros Hc; try done; try by eexists.
  - rewrite Hc. by eexists.
  - assert (∃ l', mapM _normalized_request_value l = Some l' ∧ forallb clean l' = true) as (l' & -> & Hl'); [|by eexists].
    induction l as [|x l IHl]; [by eexists|]. simpl in Hc. apply andb_prop in Hc as [Hx Hc].
    inversion IH as [|? ? IHx IH']; subst. destruct (IHx Hx) as (y & Hy & Hcy), (IHl IH' Hc) as (l' & Hl' & Hcl).
    simpl. rewrite Hy. simpl. rewrite Hl'. eexists. split; [done|]. simpl. by rewrite Hcy.
  - assert (∃ l', mapM (λ '(k, x), (λ y, (k, y)) <$> _normalized_request_value x) kvs = Some l' ∧
      forallb (λ '(_, x), clean x) l' = true) as (l' & -> & Hl').
    { induction kvs as [|[k x] kvs IHl]; [by eexists|]. simpl in Hc. apply andb_prop in Hc as [Hx Hc].
      inversion IH as [|? ? IHx IH']; subst. destruct (IHx Hx) as (y & Hy & Hcy), (IHl IH' Hc) as (l' & Hl' & Hcl).
      simpl in Hy |- *. rewrite Hy. simpl. rewrite Hl'. eexists. split; [done|]. simpl. by rewrite Hcy. }
    eexists. split; [done|]. simpl. by rewrite (forallb_Permutation _ _ _ (merge_sort_Permutation entry_le l')).
Qed.

Lemma clean_utexts l : clean (utexts l) = true.
Proof. unfold utexts. simpl. induction l; simpl; auto. Qed.

Lemma clean_ufields l : clean (ufields l) = forallb (λ '(_, x), clean x) l.
Proof. unfold ufields. simpl. induction l as [|[k x] l IH]; simpl; [done|]. by f_equal. Qed.

(** ** Results *)

(** A verdict that the contract of results admits *)
Definition admissible (v : verdict) : Prop :=
  match v_status v with
  | VerificationStatus.CONFIRMED => v_reason v = ReasonCode.GOAL_SATISFIED ∧ v_hint v = RecoveryHint.NONE
  | _ => v_reason v ≠ ReasonCode.GOAL_SATISFIED
  end.

Lemma checked_admissible s claim v ids : admissible v → admissible (checked_verdict s claim v ids).1.
Proof. intros Hv. unfold checked_verdict. repeat case_match; simplify_eq/=; try done; case_decide; simplify_eq/=; done. Qed.

(** An entity whose beliefs are neither stale nor lost *)
Definition current (s : WorldState) (id : string) : Prop :=
  expired_belief (entity_beliefs s !! id) = false ∧ expired_belief (entity_location_beliefs s !! id) = false.

Lemma expired_support_nil s ids : _expired_support s ids = [] ↔ ∀ id, id ∈ ids → current s id.
Proof.
  unfold _expired_support, current. split.
  - intros Hn id Hid. rewrite <-orb_false_iff.
    destruct (_ || _) eqn:E; [|done]. exfalso. apply (not_elem_of_nil id). rewrite <-Hn.
    apply list_elem_of_filter. by rewrite elem_of_sorted.
  - intros Hc. apply elem_of_nil_inv. intros id [Hf Hs%elem_of_sorted]%list_elem_of_filter.
    destruct (Hc id Hs) as [H1 H2]. by rewrite H1, H2 in Hf.
Qed.

(** A decisive status survives exactly when the state was aged and every
    supporting entity is current. *)
Lemma checked_decisive s claim v ids st :
  st ≠ VerificationStatus.INSUFFICIENT_EVIDENCE →
  v_status (checked_verdict s claim v ids).1 = st ↔
  v_status v = st ∧ freshness_evaluated s = true ∧ ∀ id, id ∈ ids → current s id.
Proof.
  intros Hst. rewrite <-expired_support_nil. unfold checked_verdict.
  destruct (freshness_evaluated s); simpl; [|case_bool_decide as E; simpl];
    case_decide as Hd; simpl; rewrite ?Hd; split; intros H; destruct_and?; simplify_eq; try done; try tauto; congruence.
Qed.

Lemma validated_hash h t k c : make_context h t k = Ok c →
  _validated_state_hash (VStr (ctx_state_hash c)) = Ok (ctx_state_hash c) ∧ ctx_clock_id c = ClockId.WALL.
Proof.
  unfold make_context, _validated_state_hash at 1. destruct (as_str h) as [s|]; [|done]. simpl.
  destruct (_ && _) eqn:E; [|done]. simpl. destruct (_validated_utc_wall_time t); [|done]. simpl.
  destruct (py_eqb _ _); [|done]. intros [= <-]. unfold _validated_state_hash. simpl. by rewrite E.
Qed.

Lemma result_evidence_nonempty s ids keys : result_evidence s ids keys ≠ [].
Proof. unfold result_evidence. by case_decide. Qed.

(** The result of an admissible verdict on clean semantics *)
Lemma result_Ok s task claim v rule ids kind sem h t k c keys kvs :
  make_context h t k = Ok c → admissible v → non_blank kind = true → sem = MDict kvs → clean sem = true →
  ∃ r, _result s task claim v rule ids kind sem (Some c) keys = Ok r ∧
       status r = v_status (checked_verdict s claim v ids).1 ∧ reason_code r = Some (v_reason (checked_verdict s claim v ids).1) ∧
       recovery_hint r = v_hint (checked_verdict s claim v ids).1 ∧
       vr_evidence_refs r = result_evidence s ids keys ∧ vr_clock_id r = ClockId.WALL ∧ vr_run_id r = run_id s.
Proof.
  intros Hc Hv Hk -> Hclean. destruct (validated_hash _ _ _ _ Hc) as [Hh Hclk].
  destruct (normalized_clean _ Hclean) as (w & Hw & Hcw).
  unfold _result. destruct (checked_verdict s claim v ids) as [v' claim'] eqn:Ev.
  assert (admissible v') as Hv' by (change v' with (v', claim').1; rewrite <-Ev; by apply checked_admissible).
  unfold _verification_id. rewrite Hk. unfold _normalized_request_semantics. rewrite Hw. cbn [outcome_bind]. rewrite Hh.
  cbn [outcome_bind].
  match goal with |- context [json_dumps ?m] => destruct (json_dumps_clean m) as [text ->] end.
  { rewrite clean_ufields. cbn [forallb]. rewrite Hcw, clean_utexts. done. }
  cbn [outcome_bind]. simpl. unfold validate_status_semantics. simpl.
  rewrite bool_decide_false by (intros E%length_zero_iff_nil; by apply result_evidence_nonempty in E).
  unfold admissible in Hv'. destruct (v_status v') eqn:Es; simpl.
  - destruct Hv' as [Hr Hh']. rewrite Hr, Hh'. eexists. split; [done|]. simpl. by rewrite ?Hr, ?Hh'.
  - rewrite bool_decide_false by congruence. eexists. split; [done|]. simpl. by rewrite ?Es.
  - rewrite bool_decide_false by congruence. eexists. split; [done|]. simpl. by rewrite ?Es.
Qed.

Lemma result_inv s task claim v rule ids kind sem ctx keys r :
  _result s task claim v rule ids kind sem ctx keys = Ok r →
  status r = v_status (checked_verdict s claim v ids).1 ∧ vr_evidence_refs r = result_evidence s ids keys.
Proof.
  unfold _result. destruct ctx as [c|]; [|done]. destruct (checked_verdict s claim v ids) as [v' claim'].
  destruct (_verification_id _ _ _ _ _ _ _ _ _); [|done]. cbn [outcome_bind]. destruct (validate_status_semantics _); [|done].
  by intros [= <-].
Qed.

(** What a result that is not insufficient rests on *)
Record rests_on (s : WorldState) (ids : gset string) (keys : gmap string (gset string)) (r : VerificationResult) : Prop := {
  rests_fresh : freshness_evaluated s = true;
  rests_current : ∀ id, id ∈ ids → current s id;
  rests_cites : ∀ id x, id ∈ ids → x ∈ refs_of s id → x ∈ vr_evidence_refs r;
  rests_only : ∀ x, x ∈ vr_evidence_refs r →
    (∃ id, id ∈ ids ∧ x ∈ refs_of s id) ∨ x ∈ _attribute_evidence s keys ∨ x = NO_EVIDENCE_REF
}.

Lemma elem_of_result_evidence x s ids keys :
  x ∈ result_evidence s ids keys ↔
  (∃ id, id ∈ ids ∧ x ∈ refs_of s id) ∨ x ∈ _attribute_evidence s keys ∨
  (x = NO_EVIDENCE_REF ∧ (∀ id, id ∈ ids → refs_of s id = []) ∧ _attribute_evidence s keys = []).
Proof.
  unfold result_evidence. rewrite <-elem_of_entity_evidence. case_decide as Hn.
  - apply extend_new_nil in Hn as [He Ha]. rewrite He, Ha, list_elem_of_singleton.
    assert (∀ id, id ∈ ids → refs_of s id = []) as Hr.
    { intros id Hid. apply elem_of_nil_inv. intros y Hy. apply (not_elem_of_nil y). rewrite <-He.
      apply elem_of_entity_evidence. eauto. }
    set_solver.
  - rewrite elem_of_extend_new. split; [tauto|]. intros [?|[?|(_ & Hr & Ha)]]; [tauto..|].
    exfalso. apply Hn, extend_new_nil. split; [|done]. apply elem_of_nil_inv. intros y (id & Hid & Hy)%elem_of_entity_evidence.
    rewrite (Hr id Hid) in Hy. set_solver.
Qed.

Lemma result_decisive s task claim v rule ids kind sem ctx keys r :
  _result s task claim v rule ids kind sem ctx keys = Ok r → status r ≠ VerificationStatus.INSUFFICIENT_EVIDENCE →
  status r = v_status v ∧ rests_on s ids keys r.
Proof.
  intros Hr Hst. apply result_inv in Hr as [Hs He].
  symmetry in Hs. apply checked_decisive in Hs as (Hv & Hf & Hc); [|done]. split; [done|].
  split; [done..| |]; intros; rewrite He in *.
  - apply elem_of_result_evidence. eauto.
  - match goal with H : _ ∈ _ |- _ => apply elem_of_result_evidence in H end. tauto.
Qed.

(** ** Arguments *)

Lemma required_set_inv ids X : _required_entity_set ids = Ok X → X ≠ ∅.
Proof.
  unfold _required_entity_set. destruct ids as [|a ids]; [done|]. simpl. destruct (text_arg a); [|done]. simpl.
  destruct (outcome_map text_arg ids); [|done]. simpl. case_bool_decide; [|done]. intros [= <-]. set_solver.
Qed.

Lemma threshold_finite v f : _validate_confidence_threshold v = Ok f → isfinite f = true.
Proof.
  unfold _validate_confidence_threshold. destruct v; try done.
  - destruct ((0 <=? z) && (z <=? 1)) eqn:E; [|done]. intros [= <-].
    apply andb_prop in E as [?%Z.leb_le ?%Z.leb_le]. assert (z = 0 ∨ z = 1) as [-> | ->] by lia; vm_compute; done.
  - destruct (unit_interval f0) eqn:E; [|done]. intros [= <-].
    unfold unit_interval in E. destruct f0 as [| | |]; try done. by destruct s.
Qed.

(** The parcels and objects that a request is about *)
Lemma unobserved_nil s X : unobserved_ids s X = [] ↔ ∀ id, id ∈ X → is_Some (entity_locations s !! id).
Proof. unfold unobserved_ids. rewrite sorted_filter_nil. setoid_rewrite not_eq_None_Some. done. Qed.

Lemma low_nil s X th : low_confidence_ids s X th = [] ↔ ∀ id, id ∈ X → low_confidence s th id = false.
Proof. unfold low_confidence_ids. rewrite sorted_filter_nil. setoid_rewrite not_true_iff_false. done. Qed.

Lemma parcel_low_nil s X th : parcel_low_confidence_ids s X th = [] ↔ ∀ id, id ∈ X → parcel_low_confidence s th id = false.
Proof. unfold parcel_low_confidence_ids. rewrite sorted_filter_nil. setoid_rewrite not_true_iff_false. done. Qed.

Lemma misplaced_nil s e X :
  misplaced_ids s e X = [] ↔ ∀ id, id ∈ X → entity_locations s !! id = None ∨ entity_locations s !! id = Some (e id).
Proof.
  unfold misplaced_ids. rewrite sorted_filter_nil. split; intros H id Hid; specialize (H id Hid).
  - destruct (decide (entity_locations s !! id = None)), (decide (entity_locations s !! id = Some (e id))); tauto.
  - tauto.
Qed.

Lemma extra_nil s X managed :
  extra_ids s X managed = [] ↔ ∀ id l, entity_locations s !! id = Some l → l ∈ managed → id ∈ X.
Proof.
  unfold extra_ids. rewrite sorted_filter_nil. split.
  - intros H id l Hl Hm. destruct (decide (id ∈ X)); [done|]. exfalso.
    apply (H id); [by apply elem_of_dom_2 in Hl|]. by rewrite Hl.
  - intros H id [l Hl]%elem_of_dom [Hn Hm]. rewrite Hl in Hm. by apply Hn, (H id l).
Qed.

Local Open Scope Z_scope.

(** ** All verifiers *)

(** A call of one of the six verifiers *)
Inductive request : Type :=
| ObjectInTray (object tray : pyval)
| KitContents (objects : list pyval) (tray threshold : pyval)
| InspectionEvidence (entities : list pyval) (threshold : pyval)
| WorkspaceClearance
| ParcelSorting (routes attributes threshold : pyval)
| ParcelPolicy (parcels : list pyval) (shelf bin threshold manifest manifest_id : pyval).

Definition verify_request (s : WorldState) (task : string) (q : request) (ctx : option VerificationContext)
    : outcome verify_exn VerificationResult :=
  match q with
  | ObjectInTray o t => verify_object_in_tray s task o t ctx
  | KitContents os t th => verify_kit_contents s task os t th ctx
  | InspectionEvidence es th => verify_inspection_evidence s task es th ctx
  | WorkspaceClearance => verify_workspace_clearance s task ctx
  | ParcelSorting rs atts th => verify_parcel_sorting s task rs atts th ctx
  | ParcelPolicy ps sh b th m mid => verify_parcel_policy s task ps sh b th m mid ctx
  end.

(** The entities that the claim of a request names *)
Definition subjects (q : request) : outcome verify_exn (gset string) :=
  match q with
  | ObjectInTray o _ => let* id := text_arg o in Ok {[id]}
  | KitContents ids _ _ | InspectionEvidence ids _ | ParcelPolicy ids _ _ _ _ _ => _required_entity_set ids
  | WorkspaceClearance => Ok (dom clearance)
  | ParcelSorting rs _ _ => let* p := parse_routes rs in Ok p.1
  end.

(** A verdict that is not insufficient rests on supporting entities; a
    confirmation on the subjects, all of them observed and with evidence. *)
Definition supported (s : WorldState) (q : request) (r : VerificationResult) : Prop :=
  ∃ ids keys, rests_on s ids keys r ∧
    (status r = VerificationStatus.CONFIRMED →
     subjects q = Ok ids ∧ ids ≠ ∅ ∧ ∀ id, id ∈ ids → is_Some (entity_locations s !! id) ∧ refs_of s id ≠ []).

Ltac step_bind H :=
  match type of H with
  | outcome_bind ?m _ = Ok _ => let E := fresh "E" in destruct m eqn:E; [|discriminate]; cbn [outcome_bind] in H
  | (if ?b then _ else Raise _) = Ok _ => let E := fresh "E" in destruct b eqn:E; [|discriminate]
  end.

(** Splits a chain of verdicts and closes the ones that are insufficient or refute *)
Ltac decisive H :=
  match type of H with
  | (let '(_, _) := ?m in _) = _ => let E := fresh "E" in destruct m as [v ids] eqn:E
  end.

Ltac verdict_cases E :=
  repeat match type of E with
  | (if decide ?P then _ else _) = _ => destruct (decide P); [apply pair_equal_spec in E as [<- <-]|]
  end; [..|apply pair_equal_spec in E as [<- <-]].

Lemma tray_supported s task o t ctx r :
  verify_object_in_tray s task o t ctx = Ok r → status r ≠ VerificationStatus.INSUFFICIENT_EVIDENCE →
  supported s (ObjectInTray o t) r.
Proof.
  unfold verify_object_in_tray. intros H Hst. do 2 step_bind H. decisive H.
  apply result_decisive in H as [Hv Hr]; [|done]. eexists _, _. split; [exact Hr|]. intros Hc. simpl. rewrite E. simpl.
  split; [done|]. split; [set_solver|]. intros id ->%elem_of_singleton.
  rewrite Hc in Hv. destruct (entity_locations s !! a) as [l|]; [|by simplify_eq].
  destruct (String.eqb _ _); [|by simplify_eq]. case_decide; simplify_eq. eauto.
Qed.

Lemma kit_supported s task os t th ctx r :
  verify_kit_contents s task os t th ctx = Ok r → status r ≠ VerificationStatus.INSUFFICIENT_EVIDENCE →
  supported s (KitContents os t th) r.
Proof.
  unfold verify_kit_contents. intros H Hst. do 3 step_bind H. decisive H.
  apply result_decisive in H as [Hv Hr]; [|done]. eexists _, _. split; [exact Hr|]. intros Hc.
  verdict_cases E2; try (rewrite Hc in Hv; discriminate Hv).
  split; [done|]. split; [by eapply required_set_inv|]. intros id Hid. split.
  - apply (unobserved_nil s a); [by apply not_not_nil|done].
  - apply (missing_evidence_nil s a); [by apply not_not_nil|done].
Qed.

Lemma inspection_supported s task es th ctx r :
  verify_inspection_evidence s task es th ctx = Ok r → status r ≠ VerificationStatus.INSUFFICIENT_EVIDENCE →
  supported s (InspectionEvidence es th) r.
Proof.
  unfold verify_inspection_evidence. intros H Hst. do 2 step_bind H. decisive H.
  apply result_decisive in H as [Hv Hr]; [|done]. eexists _, _. split; [exact Hr|]. intros Hc.
  verdict_cases E1; try (rewrite Hc in Hv; discriminate Hv).
  split; [done|]. split; [by eapply required_set_inv|]. intros id Hid. split.
  - apply (unobserved_nil s a); [by apply not_not_nil|done].
  - apply (missing_evidence_nil s a); [by apply not_not_nil|done].
Qed.

Lemma clearance_supported s task ctx r :
  verify_workspace_clearance s task ctx = Ok r → status r ≠ VerificationStatus.INSUFFICIENT_EVIDENCE →
  supported s WorkspaceClearance r.
Proof.
  unfold verify_workspace_clearance. intros H Hst. decisive H.
  apply result_decisive in H as [Hv Hr]; [|done]. eexists _, _. split; [exact Hr|]. intros Hc.
  verdict_cases E; try (rewrite Hc in Hv; discriminate Hv).
  split; [done|]. split; [done|]. intros id Hid. split.
  - apply (unobserved_nil s (dom clearance)); [by apply not_not_nil|done].
  - apply (missing_evidence_nil s (dom clearance)); [by apply not_not_nil|done].
Qed.

Lemma parse_routes_inv v p : parse_routes v = Ok p → p.1 ≠ ∅.
Proof.
  unfold parse_routes. intros H. do 3 step_bind H. injection H as <-. simpl. by eapply required_set_inv.
Qed.

Lemma sorting_supported s task rs atts th ctx r :
  verify_parcel_sorting s task rs atts th ctx = Ok r → status r ≠ VerificationStatus.INSUFFICIENT_EVIDENCE →
  supported s (ParcelSorting rs atts th) r.
Proof.
  unfold verify_parcel_sorting. intros H Hst. step_bind H. destruct a as [required routes]. do 3 step_bind H.
  destruct (compare_attributes _ _ _ _) as [missing mismatches]. decisive H.
  apply result_decisive in H as [Hv Hr]; [|done]. eexists _, _. split; [exact Hr|]. intros Hc.
  verdict_cases E3; try (rewrite Hc in Hv; discriminate Hv).
  simpl. rewrite E. split; [done|]. split; [by apply parse_routes_inv in E|]. intros id Hid. split.
  - apply (unobserved_nil s required); [by apply not_not_nil|done].
  - apply (missing_evidence_nil s required); [apply not_not_nil; tauto|done].
Qed.

Lemma policy_supported s task ps sh b th m mid ctx r :
  verify_parcel_policy s task ps sh b th m mid ctx = Ok r → status r ≠ VerificationStatus.INSUFFICIENT_EVIDENCE →
  supported s (ParcelPolicy ps sh b th m mid) r.
Proof.
  unfold verify_parcel_policy. intros H Hst. do 6 step_bind H. destruct a3 as [manifest_id expected]. step_bind H.
  decisive H. apply result_decisive in H as [Hv Hr]; [|done]. eexists _, _. split; [exact Hr|]. intros Hc.
  verdict_cases E6; try (rewrite Hc in Hv; discriminate Hv).
  split; [done|]. split; [by eapply required_set_inv|]. intros id Hid. split.
  - apply (unobserved_nil s a); [by apply not_not_nil|done].
  - apply (missing_evidence_nil s a); [apply not_not_nil; tauto|done].
Qed.

Lemma request_supported s task q ctx r :
  verify_request s task q ctx = Ok r → status r ≠ VerificationStatus.INSUFFICIENT_EVIDENCE → supported s q r.
Proof.
  destruct q; simpl.
  - apply tray_supported.
  - apply kit_supported.
  - apply inspection_supported.
  - apply clearance_supported.
  - apply sorting_supported.
  - apply policy_supported.
Qed.

(** ** A sample state: two parcels, sorted *)

Definition sample_metadata : pyval := VDict
  [(VStr "belief", VStr "observed"); (VStr "confidence", VFloat (float_of_decimal 9 (-1)));
   (VStr "evidence_refs", VList [VStr "frame://label"])].

Definition sample_attributes (condition tracking : string) : gmap string string :=
  {["label_status" := "verified"; "condition" := condition; "tracking_id" := tracking]}.

Definition sample_parcels : WorldState := {|
  run_id := "run-1"; entity_types := {["p1" := "parcel"; "p2" := "parcel"]}; entity_poses := ∅;
  entity_last_observed_at := ∅; entity_observation_clock_ids := ∅; entity_observation_sources := ∅;
  entity_beliefs := {["p1" := WorldBelief.OBSERVED; "p2" := WorldBelief.OBSERVED]};
  entity_locations := {["p1" := "in:pickup_shelf"; "p2" := "in:quarantine_bin"]};
  entity_location_evidence_refs := ∅; entity_location_last_observed_at := ∅; entity_location_clock_ids := ∅;
  entity_location_sources := ∅; entity_location_beliefs := ∅;
  entity_confidence := {["p1" := float_of_decimal 9 (-1); "p2" := float_of_decimal 95 (-2)]};
  entity_attributes := {["p1" := sample_attributes "intact" "TR-1"; "p2" := sample_attributes "damaged" "TR-2"]};
  entity_attribute_baselines := ∅;
  entity_attribute_metadata :=
    let m := {["label_status" := sample_metadata; "condition" := sample_metadata; "tracking_id" := sample_metadata]} in
    {["p1" := m; "p2" := m]};
  entity_attribute_schema_versions := {["p1" := ATTRIBUTE_SCHEMA_VERSION; "p2" := ATTRIBUTE_SCHEMA_VERSION]};
  entity_evidence_refs := {["p1" := ["frame://1"]; "p2" := ["frame://2"]]};
  evidence_refs := ["frame://1"; "frame://2"]; freshness_evaluated := true; applied_event_ids := [] |}.

Definition sample_hash : string := "e3b0c44298fc1c149afbf4c8996fb92427ae41e4649b934ca495991b7852b855".
Definition sample_time : string := "2026-01-01T00:00:00Z".
Definition sample_context : VerificationContext := {|
  ctx_state_hash := sample_hash; ctx_verified_at := sample_time; ctx_clock_id := ClockId.WALL |}.

Lemma sample_context_Ok : make_context (VStr sample_hash) (VStr sample_time) (VStr "wall") = Ok sample_context.
Proof. vm_compute. reflexivity. Qed.

Definition point_eight : spec_float := float_of_decimal 8 (-1).

(** The identifiers are the digests that [hashlib] gives for the same material. *)
Definition result_of (m : outcome verify_exn VerificationResult) : VerificationResult :=
  match m with
  | Ok r => r
  | Raise _ => {| verification_id := ""; vr_run_id := ""; vr_task_id := ""; claim := ""; status := VerificationStatus.REFUTED;
                  reason_code := None; completeness := None; vr_evidence_refs := []; recovery_hint := RecoveryHint.NONE;
                  verified_at := ""; vr_clock_id := ClockId.WALL; rule_version := "" |}
  end.
Definition sample_request : request :=
  ParcelPolicy [VStr "p1"; VStr "p2"] (VStr "pickup_shelf") (VStr "quarantine_bin") (VFloat point_eight)
    (VDict [(VStr "p1", VDict [(VStr "tracking_id", VStr "tr1")]); (VStr "p2", VDict [(VStr "tracking_id", VStr "TR 2")])])
    (VStr "m-1").
Definition sample_result : VerificationResult :=
  result_of (verify_request sample_parcels "task-1" sample_request (Some sample_context)).

Example sample_result_id :
  verification_id sample_result = "ver-8b86cace7b2e4dccf3b43cd5ff0b0e4d7a10592c0fb5f4546198731fa3e97efe".
Proof. vm_compute. reflexivity. Qed.

Lemma sample_request_Ok : verify_request sample_parcels "task-1" sample_request (Some sample_context) = Ok sample_result.
Proof. vm_compute. reflexivity. Qed.

(** C16: Whatever the request, a verdict other than insufficient evidence is given
    only on a state whose freshness was evaluated; no supporting entity is stale
    or lost, and the result cites all their evidence.  A confirmation is supported
    by every entity that the request names, each observed and with evidence. *)
Theorem verdicts_rest_on_current_evidence s task q ctx r :
  verify_request s task q ctx = Ok r → status r ≠ VerificationStatus.INSUFFICIENT_EVIDENCE → supported s q r.
Proof. apply request_supported. Qed.

Lemma verdicts_rest_on_current_evidence_witness :
  status sample_result = VerificationStatus.CONFIRMED ∧ supported sample_parcels sample_request sample_result.
Proof.
  split; [vm_compute; reflexivity|].
  apply (verdicts_rest_on_current_evidence sample_parcels "task-1" sample_request (Some sample_context) sample_result).
  - exact sample_request_Ok.
  - vm_compute. discriminate.
Defined.

(** ** Kits *)

(** The kit as the request describes it, on current evidence and with enough
    confidence, and nothing else in the tray *)
Definition kit_complete (s : WorldState) (required : gset string) (tray_id : string) (threshold : spec_float) : Prop :=
  freshness_evaluated s = true ∧
  (∀ id, id ∈ required → entity_locations s !! id = Some ("in:" +:+ tray_id) ∧ low_confidence s threshold id = false ∧
                         refs_of s id ≠ [] ∧ current s id) ∧
  (∀ id, entity_locations s !! id = Some ("in:" +:+ tray_id) → id ∈ required).

Lemma kit_complete_lists s X tray f :
  kit_complete s X tray f ↔
  freshness_evaluated s = true ∧ (∀ id, id ∈ X → current s id) ∧ unobserved_ids s X = [] ∧ low_confidence_ids s X f = [] ∧
  _missing_entity_evidence s X = [] ∧ misplaced_ids s (λ _, "in:" +:+ tray) X = [] ∧ extra_ids s X {["in:" +:+ tray]} = [].
Proof.
  rewrite unobserved_nil, low_nil, missing_evidence_nil, misplaced_nil, extra_nil. unfold kit_complete. split.
  - intros (Hf & Hi & He). split_and!; [done|intros id Hid; destruct (Hi id Hid) as (Hl & ? & ? & ?)..|]; eauto.
    intros id l Hl ->%elem_of_singleton. eauto.
  - intros (Hf & Hc & Ho & Hl & Hm & Hp & He). split_and!; [done| |].
    + intros id Hid. split_and!; [|by apply Hl|by apply Hm|by apply Hc].
      destruct (Hp id Hid) as [Hn|]; [|done]. by destruct (Ho id Hid) as [? ?%eq_None_ne_Some].
    + intros id Hl'. apply (He id _ Hl'). set_solver.
Qed.

Lemma clean_threshold v f : _validate_confidence_threshold v = Ok f → clean (MFloat f) = true.
Proof. apply threshold_finite. Qed.

(** A kit request with valid arguments always gets a result, and it is a
    confirmation if and only if every required object is in the tray on current
    evidence with enough confidence, and nothing else is in the tray. *)
Theorem kit_is_confirmed_exactly_when_complete s task objects tray threshold h t k required tray_id f c :
  _required_entity_set objects = Ok required → text_arg tray = Ok tray_id → _validate_confidence_threshold threshold = Ok f →
  make_context h t k = Ok c →
  ∃ r, verify_kit_contents s task objects tray threshold (Some c) = Ok r ∧
       (status r = VerificationStatus.CONFIRMED ↔ kit_complete s required tray_id f).
Proof.
  intros Hr Ht Hf Hc. unfold verify_kit_contents. rewrite Hr, Ht, Hf. cbn [outcome_bind].
  match goal with |- context [let '(_, _) := ?m in _] => destruct m as [v ids] eqn:E end.
  edestruct (result_Ok s task) as (r & -> & Hs & _); [done| |reflexivity|reflexivity| |eexists; split; [done|]].
  { by verdict_cases E. }
  { rewrite clean_ufields. cbn [forallb]. rewrite clean_utexts, (clean_threshold _ _ Hf). done. }
  rewrite Hs, checked_decisive, kit_complete_lists by done.
  verdict_cases E; simpl v_status; nil_facts; naive_solver.
Qed.

Lemma kit_is_confirmed_exactly_when_complete_witness :
  ∃ r, verify_kit_contents sample_parcels "task-1" [VStr "p1"] (VStr "pickup_shelf") (VFloat point_eight) (Some sample_context) = Ok r ∧
       (status r = VerificationStatus.CONFIRMED ↔ kit_complete sample_parcels {["p1"]} "pickup_shelf" point_eight).
Proof.
  apply (kit_is_confirmed_exactly_when_complete sample_parcels "task-1" [VStr "p1"] (VStr "pickup_shelf") (VFloat point_eight)
    (VStr sample_hash) (VStr sample_time) (VStr "wall") {["p1"]} "pickup_shelf" point_eight sample_context);
    [vm_compute; reflexivity..].
Defined.
