(* ===== verification/VerifierPolicy.v ===== *)
(** * World-model verifier: the parcel policy

    [verify_parcel_policy] confirms exactly the states in which every parcel is
    where its observed label and condition require, under its own identity. *)

From Stdlib Require Import ZArith Ascii String SpecFloat Lia.
From S2P Require Import Prelude PyVal Json PyText DateTime Contracts ObservedAttributes EventPayloads Aging Reducer Verifier VerifierParcels VerifierTheorems.
Local Open Scope Z_scope.

(** ** What the policy asks of one parcel *)

(** The identity that an observed attribute gives *)
Definition identity_at (s : WorldState) (id key : string) : option ustr :=
  attributes_at s id !! key ≫= λ v, _normalize_parcel_identity (VStr v).

(** The parcel was observed under this identity *)
Definition known_as (s : WorldState) (id : string) (x : ustr) : Prop :=
  ∃ key, key ∈ PARCEL_IDENTITY_KEYS ∧ identity_at s id key = Some x.

(** Where the observed label and condition send the parcel *)
Definition route (s : WorldState) (shelf bin id : string) : option string :=
  match readable (attributes_at s id !! "label_status"), readable (attributes_at s id !! "condition") with
  | Some label, Some condition =>
      Some (if String.eqb (lower (strip label)) "verified" && String.eqb (lower (strip condition)) "intact"
            then "in:" +:+ shelf else "in:" +:+ bin)
  | _, _ => None
  end.

(** The observed identities agree with the entry of the manifest: none differs
    from the entry under its own key, and one of them occurs in the entry *)
Definition agrees (s : WorldState) (expected : gmap string ustr) (id : string) : Prop :=
  (∀ key e x, key ∈ PARCEL_IDENTITY_KEYS → expected !! key = Some e → identity_at s id key = Some x → e = x) ∧
  ∃ key x, expected !! key = Some x ∧ known_as s id x.

(** The identities of the parcel can be read *)
Definition legible (s : WorldState) (id : string) : Prop :=
  ∀ key, key ∈ PARCEL_IDENTITY_KEYS → attributes_at s id !! key ≠ None → identity_at s id key ≠ None.

(** ** The loop over the parcels *)

Section Loop.
Context (s : WorldState) (manifest : option identities) (shelf bin : string).

Record spotless (p : policy_state) : Prop := {
  no_missing : p_missing_attributes p = [];
  no_unidentified : p_missing_identities p = [];
  no_mismatch : p_mismatches p = [];
  no_duplicate : p_duplicates p = []
}.

Definition spotless_dec (p : policy_state) : {spotless p} + {¬ spotless p}.
Proof.
  destruct (decide (p_missing_attributes p = [] ∧ p_missing_identities p = [] ∧ p_mismatches p = [] ∧ p_duplicates p = []))
    as [(?&?&?&?)|H]; [left; by split|right; intros []; tauto].
Defined.

(** [x] is not yet the identity of another parcel *)
Definition free_for (id : string) (p : policy_state) (x : ustr) : Prop :=
  ∀ o k, p_seen p !! x = Some (o, k) → o = id.

Lemma add_missing_spotted id key p : ¬ spotless (add_missing id key p).
Proof. intros [Hm _ _ _]. cbn [p_missing_attributes add_missing] in Hm. by apply extend_new_nil in Hm as [_ ?]. Qed.

Lemma add_duplicate_spotted t X p : ¬ spotless (add_duplicate t X p).
Proof. intros [_ _ _ Hd]. cbn [p_duplicates add_duplicate] in Hd. by destruct (p_duplicates p). Qed.

Lemma spotless_seen x o p : spotless (add_seen x o p) ↔ spotless p.
Proof. split; intros []; by split. Qed.

Lemma free_for_seen id x y k p : free_for id p x → free_for id (add_seen x (id, k) p) y ↔ free_for id p y.
Proof.
  unfold free_for. simpl. intros Hx. destruct (decide (x = y)) as [->|Hne].
  - rewrite lookup_insert_eq. naive_solver.
  - rewrite lookup_insert_ne by done. naive_solver.
Qed.

(** The owner of an identity that the loop has seen *)
Definition owner (p : policy_state) (x : ustr) (o : string) : Prop := ∃ k, p_seen p !! x = Some (o, k).

Lemma owner_seen p x id k y o : owner (add_seen x (id, k) p) y o ↔ (x = y ∧ o = id) ∨ (x ≠ y ∧ owner p y o).
Proof.
  unfold owner. simpl. destruct (decide (x = y)) as [->|Hne].
  - rewrite lookup_insert_eq. naive_solver.
  - rewrite lookup_insert_ne by done. naive_solver.
Qed.

Lemma free_for_owner id p x : free_for id p x ↔ ∀ o, owner p x o → o = id.
Proof. unfold free_for, owner. naive_solver. Qed.

(** One key: nothing is reported exactly when the key is absent or gives an
    identity that no other parcel has. *)
Lemma observe_step id p mine key :
  let '(p', mine') := observe_identity (attributes_at s id) id (p, mine) key in
  (spotless p' ↔ spotless p ∧ (attributes_at s id !! key ≠ None → ∃ x, identity_at s id key = Some x ∧ free_for id p x)) ∧
  mine' = (match identity_at s id key with Some x => <[key := x]> mine | None => mine end) ∧
  (spotless p' → ∀ x o, owner p' x o ↔ owner p x o ∨ (o = id ∧ identity_at s id key = Some x)) ∧
  p_decisions p' = p_decisions p.
Proof.
  unfold observe_identity, identity_at. destruct (attributes_at s id !! key) as [v|] eqn:Ev; simpl.
  2: { split_and!; naive_solver. }
  destruct (_normalize_parcel_identity (VStr v)) as [x|] eqn:Ex.
  2: { pose proof (add_missing_spotted id key p). split_and!; naive_solver. }
  destruct (p_seen p !! x) as [[o k]|] eqn:Eo.
  - case_decide as Hne.
    + match goal with |- context [add_duplicate ?t ?X p] => pose proof (add_duplicate_spotted t X p) end.
      split_and!; [|done|tauto|done]. unfold free_for. naive_solver.
    + subst o. assert (free_for id p x) as Hf by (unfold free_for; naive_solver).
      split_and!; [|done| |done].
      * rewrite spotless_seen. naive_solver.
      * intros _ y o. rewrite owner_seen. assert (owner p x id) by (eexists; done).
        destruct (decide (x = y)) as [->|]; [|naive_solver]. unfold owner in *. naive_solver.
  - assert (free_for id p x) as Hf by (unfold free_for; naive_solver).
    split_and!; [|done| |done].
    + rewrite spotless_seen. naive_solver.
    + intros _ y o. rewrite owner_seen. assert (∀ o, ¬ owner p x o) by (unfold owner; naive_solver).
      destruct (decide (x = y)) as [->|]; naive_solver.
Qed.

Lemma observe_keys id ks : ∀ p mine,
  let '(p', mine') := foldl (observe_identity (attributes_at s id) id) (p, mine) ks in
  (spotless p' ↔ spotless p ∧
     ∀ key, key ∈ ks → attributes_at s id !! key ≠ None → ∃ x, identity_at s id key = Some x ∧ free_for id p x) ∧
  (∀ key, mine' !! key = if decide (key ∈ ks) then (match identity_at s id key with Some x => Some x | None => mine !! key end)
                         else mine !! key) ∧
  (spotless p' → ∀ x o, owner p' x o ↔ owner p x o ∨ (o = id ∧ ∃ key, key ∈ ks ∧ identity_at s id key = Some x)) ∧
  p_decisions p' = p_decisions p.
Proof.
  induction ks as [|k ks IH]; intros p mine; cbn [foldl].
  { split_and!; [set_solver|intros key; by rewrite decide_False by set_solver|set_solver|done]. }
  pose proof (observe_step id p mine k) as H1. destruct (observe_identity _ _ (p, mine) k) as [p1 mine1].
  destruct H1 as (Hs1 & Hm1 & Ho1 & Hd1). specialize (IH p1 mine1).
  destruct (foldl _ (p1, mine1) ks) as [p2 mine2]. destruct IH as (Hs2 & Hm2 & Ho2 & Hd2).
  assert (spotless p1 → ∀ x, free_for id p1 x ↔ free_for id p x) as Hf.
  { intros Hs x. rewrite !free_for_owner. setoid_rewrite (Ho1 Hs). naive_solver. }
  split_and!; [| | |congruence].
  - rewrite Hs2. split.
    + intros [Hs Hk]. apply Hs1 in Hs as Hs'. destruct Hs' as [Hp Hk1]. split; [done|]. intros key [->|Hin]%elem_of_cons.
      * auto.
      * intros Ha. destruct (Hk key Hin Ha) as (x & Hx & Hfx). exists x. split; [done|]. by apply Hf.
    + intros [Hp Hk]. assert (spotless p1) as Hs by (apply Hs1; split; [done|]; apply Hk; set_solver).
      split; [done|]. intros key Hin Ha. destruct (Hk key) as (x & Hx & Hfx); [set_solver|done|].
      exists x. split; [done|]. by apply Hf.
  - intros key. rewrite Hm2, Hm1. destruct (decide (key = k)) as [->|Hne].
    + rewrite (decide_True (P:=k ∈ k :: ks)) by set_solver.
      destruct (identity_at s id k) as [x|]; [by case_decide; rewrite ?lookup_insert_eq|by case_decide].
    + rewrite (decide_ext (key ∈ ks) (key ∈ k :: ks)) by set_solver.
      destruct (identity_at s id k) as [x|]; [by rewrite lookup_insert_ne|done].
  - intros Hs x o. rewrite (Ho2 Hs), Ho1 by (by apply Hs2 in Hs as [? _]). set_solver.
Qed.

(** What the manifest says about a parcel *)
Definition manifest_ok (id : string) : Prop :=
  match manifest with None => True | Some m => agrees s (default ∅ (m !! id)) id end.

Lemma mine_spec id (mine : gmap string ustr) :
  (∀ key, mine !! key = if decide (key ∈ PARCEL_IDENTITY_KEYS) then
     (match identity_at s id key with Some x => Some x | None => (∅ : gmap string ustr) !! key end) else (∅ : gmap string ustr) !! key) →
  ∀ key x, mine !! key = Some x ↔ key ∈ PARCEL_IDENTITY_KEYS ∧ identity_at s id key = Some x.
Proof.
  intros Hm key x. rewrite Hm, lookup_empty. case_decide as Hk; [|naive_solver].
  destruct (identity_at s id key); naive_solver.
Qed.

Lemma contradicts_agrees id expected (mine : gmap string ustr) :
  (∀ key x, mine !! key = Some x ↔ key ∈ PARCEL_IDENTITY_KEYS ∧ identity_at s id key = Some x) →
  contradicts expected mine = false ↔ agrees s expected id.
Proof.
  intros Hm. unfold contradicts, agrees, known_as. rewrite orb_false_iff, bool_decide_eq_false. split.
  - intros [He Hd]. split.
    + intros key e x Hk Hx Hi. assert (mine !! key = Some x) as Hin by (by apply Hm).
      destruct (decide (e = x)) as [|Hne]; [done|]. exfalso.
      apply not_true_iff_false in He. apply He. apply existsb_exists. exists (key, x). split.
      * by apply list_elem_of_In, elem_of_map_to_list.
      * simpl. by rewrite Hx, bool_decide_false.
    + apply set_choose_L in Hd as [x Hx]. apply elem_of_intersection in Hx as [H1 H2].
      rewrite elem_of_list_to_set, list_elem_of_fmap in H1, H2.
      destruct H1 as ([k e] & -> & H1%elem_of_map_to_list), H2 as ([k' e'] & E & H2%elem_of_map_to_list). simpl in *. subst e'.
      apply Hm in H2. eauto.
  - intros [Ha (key & x & Hx & key' & Hk & Hi)]. split.
    + apply not_true_iff_false. intros (kv & Hin & Hc)%existsb_exists. destruct kv as [k y].
      apply list_elem_of_In, elem_of_map_to_list, Hm in Hin as [Hk' Hy]. simpl in Hc.
      destruct (expected !! k) as [e|] eqn:E; [|done]. apply negb_true_iff, bool_decide_eq_false in Hc. eauto.
    + intros Hd. assert (x ∈ (∅ : gset ustr)) as []%not_elem_of_empty. rewrite <-Hd, elem_of_intersection, !elem_of_list_to_set.
      split; apply list_elem_of_fmap; [exists (key, x)|exists (key', x)]; split; try done; apply elem_of_map_to_list; [done|].
      by apply Hm.
Qed.

Lemma add_manifest_spotted a b p : a ++ b ≠ [] → ¬ spotless (add_manifest a b p).
Proof. intros H [_ Hi Hm _]. simpl in *. apply app_nil in Hi as [_ ->], Hm as [_ ->]. done. Qed.

Lemma check_manifest_spotless id (mine : gmap string ustr) p :
  (∀ key x, mine !! key = Some x ↔ key ∈ PARCEL_IDENTITY_KEYS ∧ identity_at s id key = Some x) →
  spotless (check_manifest ((λ m : identities, default ∅ (m !! id)) <$> manifest) id mine p) ↔ spotless p ∧ manifest_ok id.
Proof.
  intros Hm. unfold check_manifest, manifest_ok. destruct manifest as [m|]; simpl; [|tauto].
  case_decide as He.
  - split; [by intros []%add_manifest_spotted|]. intros (_ & _ & key & x & _ & key' & Hk & Hx).
    assert (mine !! key' = Some x) as Hin by (by apply Hm). by rewrite He in Hin.
  - destruct (contradicts _ _) eqn:Ec.
    + split; [by intros []%add_manifest_spotted|]. intros [_ Ha%(contradicts_agrees id _ mine Hm)]. congruence.
    + apply (contradicts_agrees id _ mine Hm) in Ec. tauto.
Qed.

Lemma check_manifest_frame id mine p :
  p_seen (check_manifest ((λ m : identities, default ∅ (m !! id)) <$> manifest) id mine p) = p_seen p ∧
  p_decisions (check_manifest ((λ m : identities, default ∅ (m !! id)) <$> manifest) id mine p) = p_decisions p.
Proof. unfold check_manifest. destruct (_ <$> manifest); [|done]. case_decide; [done|]. by destruct (contradicts _ _). Qed.

(** What the loop checks of one parcel by itself *)
Definition in_order (id : string) : Prop :=
  is_Some (route s shelf bin id) ∧ legible s id ∧ manifest_ok id.

Lemma route_readable id :
  is_Some (route s shelf bin id) ↔
  is_Some (readable (attributes_at s id !! "label_status")) ∧ is_Some (readable (attributes_at s id !! "condition")).
Proof. unfold route. destruct (readable _), (readable _); split; intros H; destruct_and?; eauto; by destruct H; destruct_and?. Qed.

Lemma add_missing_if {A} id key (o : option A) p :
  (spotless (match o with None => add_missing id key p | _ => p end) ↔ spotless p ∧ is_Some o) ∧
  p_seen (match o with None => add_missing id key p | _ => p end) = p_seen p ∧
  p_decisions (match o with None => add_missing id key p | _ => p end) = p_decisions p.
Proof.
  destruct o; [split; [|done]; naive_solver|]. split; [|done]. split; [by intros []%add_missing_spotted|]. by intros [_ []].
Qed.

Lemma decide_route_frame id a b p :
  (spotless (decide_route shelf bin id a b p) ↔ spotless p) ∧ p_seen (decide_route shelf bin id a b p) = p_seen p ∧
  p_decisions (decide_route shelf bin id a b p) = p_decisions p ++
    [(id, if String.eqb (lower (strip a)) "verified" && String.eqb (lower (strip b)) "intact" then "in:" +:+ shelf else "in:" +:+ bin)].
Proof. unfold decide_route. destruct (_ && _); split_and!; try done; split; intros []; by split. Qed.

Lemma policy_step_spec p id :
  (spotless (policy_step s manifest shelf bin p id) ↔
     spotless p ∧ in_order id ∧ ∀ x, known_as s id x → free_for id p x) ∧
  (spotless (policy_step s manifest shelf bin p id) →
     ∀ x o, owner (policy_step s manifest shelf bin p id) x o ↔ owner p x o ∨ (o = id ∧ known_as s id x)) ∧
  p_decisions (policy_step s manifest shelf bin p id) =
    p_decisions p ++ match route s shelf bin id with Some l => [(id, l)] | None => [] end.
Proof.
  unfold policy_step.
  set (label := readable (attributes_at s id !! "label_status")). set (condition := readable (attributes_at s id !! "condition")).
  destruct (add_missing_if id "label_status" label p) as (Hs1 & Ho1 & Hd1).
  set (p1 := match label with None => _ | _ => p end) in *.
  destruct (add_missing_if id "condition" condition p1) as (Hs2 & Ho2 & Hd2).
  set (p2 := match condition with None => _ | _ => p1 end) in *.
  pose proof (observe_keys id PARCEL_IDENTITY_KEYS p2 ∅) as H3. destruct (foldl _ (p2, ∅) PARCEL_IDENTITY_KEYS) as [p3 mine].
  destruct H3 as (Hs3 & Hm0 & Ho3 & Hd3). pose proof (mine_spec id mine Hm0) as Hm. clear Hm0.
  pose proof (check_manifest_spotless id mine p3 Hm) as Hs4. destruct (check_manifest_frame id mine p3) as [Ho4 Hd4].
  set (p4 := check_manifest _ id mine p3) in *.
  set (p5 := match label with Some _ => _ | None => _ end).
  assert ((spotless p5 ↔ spotless p4) ∧ p_seen p5 = p_seen p4 ∧
    p_decisions p5 = p_decisions p4 ++ match route s shelf bin id with Some l => [(id, l)] | None => [] end) as (Hs5 & Ho5 & Hd5).
  { unfold p5, route. fold label condition. destruct label, condition; try (by rewrite app_nil_r). apply decide_route_frame. }
  assert (∀ x, free_for id p2 x ↔ free_for id p x) as Hf by (intros x; unfold free_for; by rewrite Ho2, Ho1).
  assert ((∀ key, key ∈ PARCEL_IDENTITY_KEYS → attributes_at s id !! key ≠ None →
    ∃ x, identity_at s id key = Some x ∧ free_for id p2 x) ↔ legible s id ∧ ∀ x, known_as s id x → free_for id p x) as Hk.
  { unfold legible, known_as. setoid_rewrite Hf. split.
    - intros H. split.
      + intros key Hk Ha. destruct (H key Hk Ha) as (x & -> & _). done.
      + intros x (key & Hk & Hx). destruct (H key Hk) as (y & Hy & ?); [|by simplify_eq].
        unfold identity_at in Hx. by destruct (attributes_at s id !! key).
    - intros [Hl Hx] key Hk Ha. specialize (Hl key Hk Ha). destruct (identity_at s id key) as [x|] eqn:E; [|done].
      exists x. split; [done|]. apply Hx. by exists key. }
  split_and!.
  - rewrite Hs5, Hs4, Hs3, Hk, Hs2, Hs1. unfold in_order. rewrite route_readable. tauto.
  - intros Hs%Hs5%Hs4 x o. unfold owner at 1. rewrite Ho5, Ho4.
    fold (owner p3 x o). rewrite Ho3 by tauto. unfold owner, known_as. by rewrite Ho2, Ho1.
  - by rewrite Hd5, Hd4, Hd3, Hd2, Hd1.
Qed.

Lemma policy_loop l : ∀ p (seen : list string), NoDup (seen ++ l) →
  (spotless p → ∀ x o, owner p x o ↔ o ∈ seen ∧ known_as s o x) →
  let p' := foldl (policy_step s manifest shelf bin) p l in
  (spotless p' ↔ spotless p ∧ (∀ id, id ∈ l → in_order id) ∧
     ∀ id o x, id ∈ l → o ∈ seen ++ l → known_as s id x → known_as s o x → o = id) ∧
  p_decisions p' = p_decisions p ++ omap (λ id, (λ r, (id, r)) <$> route s shelf bin id) l.
Proof.
  induction l as [|id l IH]; intros p seen Hnd Ho; cbn [foldl omap list_omap].
  { split; [set_solver|by rewrite app_nil_r]. }
  destruct (policy_step_spec p id) as (Hs1 & Ho1 & Hd1).
  set (p1 := policy_step s manifest shelf bin p id) in *.
  specialize (IH p1 (seen ++ [id])). rewrite <-app_assoc in IH.
  destruct IH as [Hs2 Hd2]; [done| |].
  { intros Hs x o. rewrite (Ho1 Hs), (Ho (proj1 (proj1 Hs1 Hs))). set_solver. }
  cbn zeta. split.
  - rewrite Hs2, Hs1. setoid_rewrite free_for_owner. split.
    + intros ((Hp & Hi & Hf) & Hl & Hd). split_and!; [done|set_solver|].
      intros id' o x [->|Hid]%elem_of_cons Hin Hk Hk'; [|by eapply Hd].
      apply elem_of_app in Hin as [Hin|[->|Hin]%elem_of_cons]; [|done|].
      * apply (Hf x Hk). by apply Ho.
      * symmetry. apply (Hd o id x); try done. set_solver.
    + intros (Hp & Hi & Hd). split_and!; [done|set_solver| |set_solver|].
      * intros x Hk o [Hin Hk']%Ho; [|done]. apply (Hd id o x); [left| |done..]. apply elem_of_app. by left.
      * intros id' o x Hid Hin. apply Hd; set_solver.
  - rewrite Hd2, Hd1, <-app_assoc. f_equal. by destruct (route s shelf bin id).
Qed.
End Loop.

(** ** The quality of the attributes *)

Definition no_defect (q : quality_summary) : Prop :=
  q_missing q = [] ∧ q_expired q = [] ∧ q_low_confidence q = [] ∧ q_insufficient q = [].

Lemma add_quality_defect id key x q : no_defect (add_quality id key x q) ↔ no_defect q ∧ x = QOk.
Proof.
  unfold no_defect, add_quality. simpl. rewrite !app_nil. destruct x; simpl; naive_solver.
Qed.

Lemma summarize_spec s th l : ∀ q,
  match summarize s th l q with
  | Ok q' => no_defect q' ↔ no_defect q ∧ ∀ id key, (id, key) ∈ l → _attribute_quality s id key th = Ok QOk
  | Raise e => ∃ id key, (id, key) ∈ l ∧ _attribute_quality s id key th = Raise e
  end.
Proof.
  induction l as [|[id key] l IH]; intros q; cbn [summarize]; [set_solver|].
  destruct (_attribute_quality s id key th) as [x|e] eqn:E; cbn [outcome_bind]; [|exists id, key; set_solver].
  specialize (IH (add_quality id key x q)). destruct (summarize _ _ _ _) as [q'|e].
  - rewrite IH, add_quality_defect. split.
    + intros [[Hq ->] Hl]. split; [done|]. intros i k [[= -> ->]|Hin]%elem_of_cons; auto.
    + intros [Hq Hl]. split; [split; [done|]|]; [|set_solver]. specialize (Hl id key). rewrite E in Hl.
      assert (Ok (E:=verify_exn) x = Ok QOk) as [= ->] by (apply Hl; set_solver). done.
  - destruct IH as (i & k & Hin & He). exists i, k. set_solver.
Qed.

Lemma elem_of_required_pairs m id key : (id, key) ∈ required_pairs m ↔ key ∈ default ∅ (m !! id).
Proof.
  unfold required_pairs. rewrite list_elem_of_join. setoid_rewrite list_elem_of_fmap. split.
  - intros (l & Hin & i & -> & Hi). apply list_elem_of_fmap in Hin as (k & [= -> ->] & Hk). by apply elem_of_sorted in Hk.
  - intros Hk. eexists. split; [|exists id; split; [done|]].
    + apply list_elem_of_fmap. exists key. split; [done|]. by apply elem_of_sorted.
    + apply elem_of_sorted, elem_of_dom. destruct (m !! id); [done|set_solver].
Qed.

Lemma summary_spec s m th :
  match _attribute_quality_summary s m th with
  | Ok q => no_defect q ↔ ∀ id key, key ∈ default ∅ (m !! id) → _attribute_quality s id key th = Ok QOk
  | Raise e => ∃ id key, key ∈ default ∅ (m !! id) ∧ _attribute_quality s id key th = Raise e
  end.
Proof.
  unfold _attribute_quality_summary. pose proof (summarize_spec s th (required_pairs m)
    {| q_missing := []; q_expired := []; q_low_confidence := []; q_insufficient := []; q_evidence_keys := ∅ |}) as H.
  destruct (summarize _ _ _ _) as [q|e]; setoid_rewrite elem_of_required_pairs in H; [|done].
  rewrite H. split; [by intros [_ ?]|]. by split.
Qed.

(** ** The policy *)

(** The attributes whose quality counts *)
Definition quality_keys (s : WorldState) (required : gset string) (manifest : option identities) (id : string) : gset string :=
  default ∅ (policy_requirements s required manifest !! id).

Record policy_satisfied (s : WorldState) (required : gset string) (manifest : option identities) (shelf bin : string)
    (threshold : spec_float) : Prop := {
  sat_fresh : freshness_evaluated s = true;
  sat_order : ∀ id, id ∈ required → in_order s manifest shelf bin id;
  sat_routed : ∀ id, id ∈ required → entity_locations s !! id = route s shelf bin id;
  sat_confident : ∀ id, id ∈ required → parcel_low_confidence s threshold id = false;
  sat_evidence : ∀ id, id ∈ required → refs_of s id ≠ [] ∧ current s id;
  sat_quality : ∀ id key, key ∈ quality_keys s required manifest id → _attribute_quality s id key threshold = Ok QOk;
  sat_distinct : ∀ id o x, id ∈ required → o ∈ required → known_as s id x → known_as s o x → o = id;
  sat_alone : ∀ id l, entity_locations s !! id = Some l → l = "in:" +:+ shelf ∨ l = "in:" +:+ bin → id ∈ required
}.

Lemma misrouted_nil s ds : misrouted_decisions s ds = [] ↔ ∀ d, d ∈ ds → entity_locations s !! d.1 = Some d.2.
Proof.
  unfold misrouted_decisions. split.
  - intros H d Hd. destruct (decide (entity_locations s !! d.1 = Some d.2)); [done|]. exfalso.
    apply (not_elem_of_nil d). rewrite <-H, (merge_sort_Permutation key_le). by apply list_elem_of_filter.
  - intros H. apply elem_of_nil_inv. intros d. rewrite (merge_sort_Permutation key_le). intros [Hn Hd]%list_elem_of_filter. auto.
Qed.

(** The empty lists of a confirmation, put together *)
Lemma policy_satisfied_lists s X m shelf bin th q :
  _attribute_quality_summary s (policy_requirements s X m) th = Ok q →
  let p := foldl (policy_step s m shelf bin) (initial_policy (q_missing q)) (sorted X) in
  policy_satisfied s X m shelf bin th ↔
  freshness_evaluated s = true ∧ (∀ id, id ∈ X → current s id) ∧ unobserved_ids s X = [] ∧ parcel_low_confidence_ids s X th = [] ∧
  _missing_entity_evidence s X = [] ∧ q_expired q = [] ∧ q_low_confidence q = [] ∧ q_insufficient q = [] ∧ spotless p ∧ misrouted_decisions s (p_decisions p) = [] ∧
  extra_ids s X {["in:" +:+ shelf; "in:" +:+ bin]} = [].
Proof.
  intros Hq p. pose proof (summary_spec s (policy_requirements s X m) th) as Hd. rewrite Hq in Hd.
  destruct (policy_loop s m shelf bin (sorted X) (initial_policy (q_missing q)) []) as [Hs Hds].
  { apply NoDup_sorted. }
  { intros _ x o. unfold owner. simpl. rewrite lookup_empty. set_solver. }
  fold p in Hs, Hds. simpl in Hds. rewrite Hds. rewrite Hs, misrouted_nil, unobserved_nil, parcel_low_nil, missing_evidence_nil, extra_nil.
  setoid_rewrite elem_of_sorted. setoid_rewrite elem_of_union. setoid_rewrite elem_of_singleton.
  assert (spotless (initial_policy (q_missing q)) ↔ q_missing q = []) as Hi.
  { split; [intros [H _ _ _]; by apply extend_new_nil in H as [_ ?]|intros ->; by split]. }
  rewrite Hi. split.
  - intros [Hf Hor Hr Hl He Hqual Hdis Hx]. destruct (proj2 Hd Hqual) as (? & ? & ? & ?).
    split_and!; [done| | |done| |done..| |done].
    + intros id Hid. by apply He.
    + intros id Hid. rewrite Hr by done. by apply Hor.
    + intros id Hid. by apply He.
    + intros [id r] (i & Hin & (r' & Hrt & [= -> ->])%fmap_Some)%list_elem_of_omap. simpl. apply elem_of_sorted in Hin.
      by rewrite Hr.
  - intros (Hf & Hc & Ho & Hl & He & Hqe & Hql & Hqi & (Hqm & Hor & Hdis) & Hr & Hx).
    split; try done; [|by auto|by apply Hd].
    intros id Hid. destruct (Hor id Hid) as [[r Hrt] _]. rewrite Hrt.
    apply (Hr (id, r)). apply list_elem_of_omap. exists id. split; [by apply elem_of_sorted|]. by rewrite Hrt.
Qed.

Lemma forallb_fmap_true {A B} (f : B → bool) (g : A → B) l : (∀ a, f (g a) = true) → forallb f (g <$> l) = true.
Proof. intros H. induction l; [done|]. simpl. by rewrite H. Qed.

Lemma clean_manifest m : clean (manifest_material m) = true.
Proof. apply forallb_fmap_true. intros [id e]. by apply forallb_fmap_true. Qed.

Lemma spotless_lists p :
  spotless p ↔ p_missing_attributes p = [] ∧ p_missing_identities p = [] ∧ p_mismatches p = [] ∧ p_duplicates p = [].
Proof. split; [by intros []|]. intros (?&?&?&?). by split. Qed.

(** C17: A parcel-policy request with valid arguments is confirmed if and only if
    every parcel lies where its observed label and condition send it, its
    identities are legible, agree with the manifest and belong to no other parcel,
    evidence, confidence and attribute quality suffice, and no other entity is on
    the shelf or in the bin.  It raises only what reading an attribute raises. *)
Theorem policy_is_confirmed_exactly_when_satisfied
    s task parcels shelf_v bin_v threshold manifest manifest_id h t k required shelf bin f mid expected c :
  _required_entity_set parcels = Ok required → text_arg shelf_v = Ok shelf → text_arg bin_v = Ok bin → shelf ≠ bin →
  _validate_confidence_threshold threshold = Ok f → _validate_parcel_manifest required manifest manifest_id = Ok (mid, expected) →
  make_context h t k = Ok c →
  match verify_parcel_policy s task parcels shelf_v bin_v threshold manifest manifest_id (Some c) with
  | Ok r => status r = VerificationStatus.CONFIRMED ↔ policy_satisfied s required ((λ _, expected) <$> mid) shelf bin f
  | Raise e => ∃ id key, key ∈ quality_keys s required ((λ _, expected) <$> mid) id ∧ _attribute_quality s id key f = Raise e
  end.
Proof.
  intros Hr Hsh Hb Hne Hf Hm Hc. unfold verify_parcel_policy. rewrite Hr, Hsh, Hb. cbn [outcome_bind].
  apply String.eqb_neq in Hne. rewrite Hne. cbn [negb]. rewrite Hf. cbn [outcome_bind]. rewrite Hm. cbn [outcome_bind].
  set (m := (λ _, expected) <$> mid).
  pose proof (summary_spec s (policy_requirements s required m) f) as Hd.
  destruct (_attribute_quality_summary _ _ _) as [q|e] eqn:Hq; cbn [outcome_bind]; [|done].
  match goal with |- context [let '(_, _) := ?w in _] => destruct w as [v' ids] eqn:E end.
  edestruct (result_Ok s task) as (r & -> & Hs & _); [done| |reflexivity|reflexivity| |].
  { by verdict_cases E. }
  { rewrite clean_ufields. cbn [forallb]. rewrite clean_utexts, (clean_threshold _ _ Hf).
    unfold m. destruct mid as [mid'|]; [|done]. change (clean (manifest_material expected) && true = true).
    by rewrite clean_manifest. }
  rewrite Hs, checked_decisive, (policy_satisfied_lists _ _ _ _ _ _ _ Hq) by done.
  cbn zeta. rewrite spotless_lists. clear Hs Hd Hr Hsh Hb Hf Hm Hc Hq.
  verdict_cases E; simpl v_status; nil_facts; split; intros Hall; destruct_and?; try discriminate; try tauto.
Qed.

Definition sample_manifest : pyval :=
  VDict [(VStr "p1", VDict [(VStr "tracking_id", VStr "tr1")]); (VStr "p2", VDict [(VStr "tracking_id", VStr "TR 2")])].
Definition sample_identities : identities :=
  {["p1" := {["tracking_id" := ustr_of "tr1"]}; "p2" := {["tracking_id" := ustr_of "tr2"]}]}.

Lemma policy_is_confirmed_exactly_when_satisfied_witness :
  policy_satisfied sample_parcels {["p1"; "p2"]} (Some sample_identities) "pickup_shelf" "quarantine_bin" point_eight.
Proof.
  pose proof (policy_is_confirmed_exactly_when_satisfied sample_parcels "task-1" [VStr "p1"; VStr "p2"] (VStr "pickup_shelf")
    (VStr "quarantine_bin") (VFloat point_eight) sample_manifest (VStr "m-1") (VStr sample_hash) (VStr sample_time) (VStr "wall")
    {["p1"; "p2"]} "pickup_shelf" "quarantine_bin" point_eight (Some "m-1") sample_identities sample_context) as H.
  do 5 (specialize (H ltac:(first [vm_compute; reflexivity|discriminate]))).
  specialize (H ltac:(vm_compute; reflexivity) sample_context_Ok).
  change (verify_parcel_policy _ _ _ _ _ _ _ _ _) with (verify_request sample_parcels "task-1" sample_request (Some sample_context)) in H.
  rewrite sample_request_Ok in H. apply H. vm_compute. reflexivity.
Defined.

(** ** Identifiers with a point *)

(** An entity is found again in a label by the text before the first point. *)
Lemma partition_label id key : has_char "." id = false → partition_at "." (id +:+ "." +:+ key) = (id, true, key).
Proof.
  unfold has_char. induction id as [|c id IH]; [done|]. cbn [list_ascii_of_string existsb]. rewrite orb_false_iff.
  intros [Hc Hid]. change (String c id +:+ "." +:+ key) with (String c (id +:+ "." +:+ key)). cbn [partition_at].
  rewrite Ascii.eqb_sym, Hc, IH by done. done.
Qed.

Lemma label_entities_exact labels :
  Forall (λ l, ∃ id key, has_char "." id = false ∧ l = id +:+ "." +:+ key) labels →
  ∀ id, has_char "." id = false → id ∈ label_entities labels ↔ ∃ key, id +:+ "." +:+ key ∈ labels.
Proof.
  intros Hl id Hid. unfold label_entities. rewrite elem_of_list_to_set, list_elem_of_fmap. rewrite Forall_forall in Hl. split.
  - intros (l & -> & Hin). destruct (Hl l Hin) as (i & k & Hi & ->). exists k. by rewrite partition_label.
  - intros [k Hin]. exists (id +:+ "." +:+ k). split; [by rewrite partition_label|done].
Qed.

Definition doubtful_metadata : pyval := VDict
  [(VStr "belief", VStr "observed"); (VStr "confidence", VFloat (float_of_decimal 1 (-1)));
   (VStr "evidence_refs", VList [VStr "frame://label"])].

Definition dotted_parcels : WorldState := {|
  run_id := "run-1"; entity_types := {["box.1" := "parcel"; "box" := "parcel"]}; entity_poses := ∅;
  entity_last_observed_at := ∅; entity_observation_clock_ids := ∅; entity_observation_sources := ∅;
  entity_beliefs := ∅; entity_locations := {["box.1" := "in:pickup_shelf"; "box" := "on:table"]};
  entity_location_evidence_refs := ∅; entity_location_last_observed_at := ∅; entity_location_clock_ids := ∅;
  entity_location_sources := ∅; entity_location_beliefs := ∅;
  entity_confidence := {["box.1" := float_of_decimal 9 (-1)]};
  entity_attributes := {["box.1" := {["label_status" := "verified"; "condition" := "intact"]}]};
  entity_attribute_baselines := ∅;
  entity_attribute_metadata := {["box.1" := {["label_status" := doubtful_metadata; "condition" := doubtful_metadata]}]};
  entity_attribute_schema_versions := {["box.1" := ATTRIBUTE_SCHEMA_VERSION]};
  entity_evidence_refs := {["box.1" := ["frame://parcel"]; "box" := ["frame://elsewhere"]]};
  evidence_refs := []; freshness_evaluated := true; applied_event_ids := [] |}.

Definition dotted_result : VerificationResult :=
  result_of (verify_parcel_policy dotted_parcels "task-1" [VStr "box.1"] (VStr "pickup_shelf") (VStr "quarantine_bin")
    (VFloat point_eight) VNone VNone (Some sample_context)).

(** An entity identifier with a point is cut at the point when labels are
    turned back into entities: a request about the parcel "box.1" alone is
    answered with the evidence of the unrelated entity "box", and the evidence of
    the parcel itself is not cited. *)
Theorem dotted_parcel_cites_another_entity :
  verify_parcel_policy dotted_parcels "task-1" [VStr "box.1"] (VStr "pickup_shelf") (VStr "quarantine_bin")
    (VFloat point_eight) VNone VNone (Some sample_context) = Ok dotted_result ∧
  reason_code dotted_result = Some ReasonCode.CONFIDENCE_BELOW_THRESHOLD ∧
  refs_of dotted_parcels "box" = ["frame://elsewhere"] ∧ refs_of dotted_parcels "box.1" = ["frame://parcel"] ∧
  vr_evidence_refs dotted_result = ["frame://elsewhere"; "frame://label"].
Proof. vm_compute. split_and!; reflexivity. Qed.
