(* ===== verification/VerifierReplay.v ===== *)
(** * From a replayed stream to a verdict

    The reducer, the ageing of its state and the verifiers together: a claim that
    is confirmed on an aged replay rests on observations that were recent at the
    boundary. *)

From Stdlib Require Import ZArith Ascii String SpecFloat Lia.
From S2P Require Import Prelude PyVal Json PyText DateTime Contracts ObservedAttributes EventPayloads Aging Reducer AgingTheorems Verifier VerifierParcels VerifierTheorems VerifierPolicy.
Local Open Scope Z_scope.






