(* ===== verification/PyFloat.v ===== *)
(** * Float arithmetic of the motion code

    Python floats as IEEE 754 binary64 values: arithmetic to nearest even,
    comparisons, [max] and [abs], conversions between floats, integers and exact
    decimals, [float.hex] and [float(text)].  Powers and cube roots come from the
    platform's C library and are fields of [Libm]. *)

From Stdlib Require Import ZArith Ascii String SpecFloat.
From S2P Require Import Prelude PyVal Json PyText.
Set Warnings "-register-all".
Local Open Scope Z_scope.

Abbreviation float := spec_float.

(** ** Arithmetic and comparison *)

Definition float_add (x y : float) : float := SFadd 53 1024 x y.
Definition float_mul (x y : float) : float := SFmul 53 1024 x y.
Definition float_div (x y : float) : float := SFdiv 53 1024 x y.
Definition float_sqrt (x : float) : float := SFsqrt 53 1024 x.
Definition float_opp (x : float) : float := SFopp x.
Definition float_abs (x : float) : float := SFabs x.
Definition float_eqb (x y : float) : bool := SFeqb x y.
Definition float_is_zero (x : float) : bool := match x with S754_zero _ => true | _ => false end.
(** [math.nextafter(x, math.inf)] *)
Definition next_up (x : float) : float := SFsucc 53 1024 x.

(** [max(x, y)] keeps the first of two that do not compare greater *)
Definition float_max (x y : float) : float := if float_lt x y then y else x.
Definition float_min (x y : float) : float := if float_lt y x then y else x.

(** A decimal literal [m * 10^k] *)
Definition float_dec (m k : Z) : float :=
  if m <? 0 then float_opp (float_of_decimal (- m) k) else float_of_decimal m k.
Definition billion : float := float_of_Z 1000000000.

(** The C library: [x ** n] for a small integer [n], [None] when it raises
    [OverflowError], and [math.cbrt] *)
Class Libm := { pow : float → nat → option float; cbrt : float → float }.

(** ** Floats and integers *)

(** The integer part rounded down of [m * 2^e], and whether something is left *)
Definition floor_scaled (m e : Z) : Z * bool :=
  if 0 <=? e then (m * 2 ^ e, false) else (m / 2 ^ (- e), negb (m mod 2 ^ (- e) =? 0)).

Definition signed (s : bool) (m : positive) : Z := if s then Z.neg m else Z.pos m.

(** [math.ceil(x)]; [None] when it raises *)
Definition float_ceil (x : float) : option Z :=
  match x with
  | S754_zero _ => Some 0
  | S754_finite s m e => let '(q, rest) := floor_scaled (signed s m) e in Some (if rest then q + 1 else q)
  | _ => None
  end.

(** [round(x)], half to even; [None] when it raises *)
Definition float_round (x : float) : option Z :=
  match x with
  | S754_zero _ => Some 0
  | S754_finite s m e =>
      let z := signed s m in
      if 0 <=? e then Some (z * 2 ^ e)
      else
        let d := 2 ^ (- e) in
        let q := z / d in
        let r := z mod d in
        Some (if (2 * r <? d) || ((2 * r =? d) && Z.even q) then q else q + 1)
  | _ => None
  end.

(** [float(n)]; [None] when it raises [OverflowError] *)
Definition float_of_int (n : Z) : option float := let f := float_of_Z n in if isfinite f then Some f else None.

(** [n / 1_000_000_000], rounded once; [None] when it raises [OverflowError] *)
Definition billionth (n : Z) : option float := let f := float_dec n (-9) in if isfinite f then Some f else None.

(** [Decimal(str(x)) * 1_000_000_000] when it is an integer: a float has at most
    seventeen digits, so the product fits the context of 28 digits *)
Definition decimal_nanoseconds (x : float) : option Z :=
  match x with
  | S754_zero _ => Some 0
  | S754_finite s m e =>
      let '(m', n, x') := float_digits m e in
      let k := x' - n + 9 in
      let sign := if s then -1 else 1 in
      if 0 <=? k then Some (sign * m' * 10 ^ k)
      else if m' mod 10 ^ (- k) =? 0 then Some (sign * (m' / 10 ^ (- k))) else None
  | _ => None
  end.

(** ** Text *)

Fixpoint hex_digits (n : nat) (z : Z) : string :=
  match n with
  | O => ""
  | S n' => hex_digits n' (Z.shiftr z 4) +:+ String (hex_char (Z.land z 15)) ""
  end.

(** [x.hex()] *)
Definition float_hex (x : float) : string :=
  let sign s := if (s : bool) then "-" else "" in
  match x with
  | S754_zero s => sign s +:+ "0x0.0p+0"
  | S754_infinity s => sign s +:+ "inf"
  | S754_nan => "nan"
  | S754_finite s m e =>
      let z := Z.pos m in
      if z <? 2 ^ 52 then sign s +:+ "0x0." +:+ hex_digits 13 z +:+ "p-1022"
      else
        let x := e + 52 in
        sign s +:+ "0x1." +:+ hex_digits 13 (z - 2 ^ 52) +:+ "p" +:+ (if x <? 0 then "-" else "+") +:+ (pretty (Z.abs x) : string)
  end.

Definition is_digit (c : ascii) : bool := (48 <=? code c) && (code c <=? 57).

(** Underscores are allowed between two digits; the characters without them *)
Fixpoint drop_underscores (digit : bool) (l : list ascii) : option (list ascii) :=
  match l with
  | [] => Some []
  | c :: l' =>
      if Ascii.eqb c "_" then
        match l' with
        | d :: _ => if digit && is_digit d then drop_underscores false l' else None
        | [] => None
        end
      else (cons c) <$> drop_underscores (is_digit c) l'
  end.

(** Leading digits: their value after [acc], their number and the rest *)
Fixpoint read_digits (acc : Z) (n : Z) (l : list ascii) : Z * Z * list ascii :=
  match l with
  | c :: l' => if is_digit c then read_digits (10 * acc + (code c - 48)) (n + 1) l' else (acc, n, l)
  | [] => (acc, n, [])
  end.

Definition read_sign (l : list ascii) : bool * list ascii :=
  match l with
  | c :: l' => if Ascii.eqb c "-" then (true, l') else if Ascii.eqb c "+" then (false, l') else (false, l)
  | [] => (false, [])
  end.

(** An exponent part to the end of the text *)
Definition read_exponent (l : list ascii) : option Z :=
  match l with
  | [] => Some 0
  | c :: l' =>
      if String.eqb (lower (String c "")) "e" then
        let '(s, l'') := read_sign l' in
        let '(x, n, rest) := read_digits 0 0 l'' in
        match rest with [] => if n =? 0 then None else Some (if s then - x else x) | _ => None end
      else None
  end.

(** An unsigned number *)
Definition read_number (l : list ascii) : option float :=
  let '(m, n, l1) := read_digits 0 0 l in
  let '(m', k, l2) := match l1 with
                      | c :: l' => if Ascii.eqb c "." then read_digits m 0 l' else (m, 0, l1)
                      | [] => (m, 0, [])
                      end in
  if n + k =? 0 then None else (λ x, float_of_decimal m' (x - k)) <$> read_exponent l2.

(** [float(text)]; [None] when it raises *)
Definition float_of_text (s : string) : option float :=
  l ← drop_underscores false (list_ascii_of_string (strip s));
  let '(neg, l) := read_sign l in
  let word := lower (string_of_list_ascii l) in
  f ← if String.eqb word "inf" || String.eqb word "infinity" then Some (S754_infinity false)
      else if String.eqb word "nan" then Some S754_nan
      else read_number l;
  Some (if neg : bool then float_opp f else f).

(** [float(v)] for an object that is not a [bool]; [None] when it raises.  Objects
    of other classes have no conversion. *)
Definition py_float (v : pyval) : option float :=
  match v with
  | VInt z => float_of_int z
  | VFloat f => Some f
  | VStr s | VEnum _ s => float_of_text s
  | _ => None
  end.

(** [isinstance(v, int | float) and not isinstance(v, bool)], then [float(v)]:
    [None] when the value is not a finite number *)
Definition finite_number (v : pyval) : option float :=
  match v with
  | VInt z => float_of_int z
  | VFloat f => if isfinite f then Some f else None
  | _ => None
  end.

(** ** Collections of floats *)

(** [max(map(abs, l))]; [None] when [l] is empty *)
Definition max_abs (l : list float) : option float :=
  match l with
  | [] => None
  | x :: l' => Some (foldl (λ m y, float_max m (float_abs y)) (float_abs x) l')
  end.

(** ** Lemmas *)

Definition is_nan (x : float) : bool := match x with S754_nan => true | _ => false end.

Lemma isfinite_not_nan x : isfinite x = true → is_nan x = false.
Proof. by destruct x. Qed.

Lemma float_of_int_finite n f : float_of_int n = Some f → isfinite f = true.
Proof. unfold float_of_int. case_match; congruence. Qed.

Lemma finite_number_finite v f : finite_number v = Some f → isfinite f = true.
Proof. destruct v; simpl; try done; [apply float_of_int_finite|]. case_match; congruence. Qed.

Example hex_of_point_one : float_hex (float_dec 1 (-1)) = "0x1.999999999999ap-4".
Proof. vm_compute. reflexivity. Qed.
Example hex_of_least : float_hex (float_lit (-1) (-1074)) = "-0x0.0000000000001p-1022".
Proof. vm_compute. reflexivity. Qed.
Example text_float : float_of_text " -1_0.25e-1 " = Some (float_opp (float_dec 1025 (-3))).
Proof. vm_compute. reflexivity. Qed.
Example text_not_float : float_of_text "1__0" = None ∧ float_of_text "." = None ∧ float_of_text "0x1" = None.
Proof. vm_compute. done. Qed.
Example nanoseconds_of_float :
  decimal_nanoseconds (float_dec 3 (-1)) = Some 300000000 ∧ decimal_nanoseconds (float_dec 15 (-11)) = None.
Proof. vm_compute. done. Qed.
