(* ===== verification/MotionTypes.v ===== *)
(** * Motion control: values and exceptions

    [robot/control/workbench_motion/workbench_motion/motion_types.py]: commands,
    feedback and receipts of the motion boundary, with the checks of their
    constructors, and the exceptions that the motion modules raise and catch. *)

From Stdlib Require Import ZArith Ascii String SpecFloat.
From S2P Require Import Prelude PyVal Json PyText PyFloat.
Local Open Scope Z_scope.

(** ** Exceptions *)

(** The classes that an [except] clause of the motion modules tells apart.
    [OtherError] stands for the other subclasses of [Exception], [BaseExit] for
    exceptions that are not (KeyboardInterrupt and the like). *)
Inductive error_class : Type :=
| FeedbackUnavailable | PreflightConfigurationError | ValueError | RuntimeError | TimeoutError | OSError | OtherError
| BaseExit.
#[global] Instance error_class_eq_dec : EqDecision error_class.
Proof. solve_decision. Defined.

(** An exception: its class and [str(error)] *)
Record error := { class : error_class; text : string }.
#[global] Instance error_eq_dec : EqDecision error.
Proof. solve_decision. Defined.

Definition value_error (s : string) : error := {| class := ValueError; text := s |}.
Definition other_error (s : string) : error := {| class := OtherError; text := s |}.

(** [except ValueError], [except (ValueError, RuntimeError, TimeoutError)], the
    same with [OSError], and [except Exception] *)
Definition is_value_error (e : error) : bool :=
  match class e with FeedbackUnavailable | PreflightConfigurationError | ValueError => true | _ => false end.
Definition is_gate_error (e : error) : bool :=
  is_value_error e || match class e with RuntimeError | TimeoutError => true | _ => false end.
Definition is_io_error (e : error) : bool := is_gate_error e || bool_decide (class e = OSError).
Definition is_exception (e : error) : bool := negb (bool_decide (class e = BaseExit)).

(** A partial operation as a computation *)
Definition or_raise {A} (o : option A) (e : error) : outcome error A :=
  match o with Some a => Ok a | None => Raise e end.

(** [any(f(a, b) for a, b in zip(l, k, strict=True))] *)
Fixpoint any_zip (f : float → float → bool) (l k : list float) : outcome error bool :=
  match l, k with
  | [], [] => Ok false
  | x :: l', y :: k' => if f x y then Ok true else any_zip f l' k'
  | _, _ => Raise (value_error "zip() argument 2 differs in length")
  end.

(** ** Enumerations *)

Module CommandMode.
Inductive t : Type :=
| POSITION | VELOCITY.
#[global] Instance eq_dec : EqDecision t.
Proof. solve_decision. Defined.
#[global] Instance enum : StrEnum t := {|
  value x := match x with
    | POSITION => "position"
    | VELOCITY => "velocity"
    end;
  members := [POSITION; VELOCITY]
|}.
#[global] Instance laws : StrEnumLaws t.
Proof. solve_enum_laws. Qed.
End CommandMode.

Module ControllerLifecycle.
Inductive t : Type :=
| READY | EXECUTING | STOPPING | HOLDING | STOPPED | FAULTED.
#[global] Instance eq_dec : EqDecision t.
Proof. solve_decision. Defined.
#[global] Instance enum : StrEnum t := {|
  value x := match x with
    | READY => "ready"
    | EXECUTING => "executing"
    | STOPPING => "stopping"
    | HOLDING => "holding"
    | STOPPED => "stopped"
    | FAULTED => "faulted"
    end;
  members := [READY; EXECUTING; STOPPING; HOLDING; STOPPED; FAULTED]
|}.
#[global] Instance laws : StrEnumLaws t.
Proof. solve_enum_laws. Qed.
End ControllerLifecycle.

Module ReceiptStatus.
Inductive t : Type :=
| ACCEPTED | REJECTED.
#[global] Instance eq_dec : EqDecision t.
Proof. solve_decision. Defined.
#[global] Instance enum : StrEnum t := {|
  value x := match x with
    | ACCEPTED => "accepted"
    | REJECTED => "rejected"
    end;
  members := [ACCEPTED; REJECTED]
|}.
#[global] Instance laws : StrEnumLaws t.
Proof. solve_enum_laws. Qed.
End ReceiptStatus.

Module ReceiptReason.
Inductive t : Type :=
| ACCEPTED | NO_STATE | STALE_STATE | FUTURE_STATE | STALE_COMMAND | FUTURE_COMMAND
| CLOCK_MISMATCH | ROBOT_ID_MISMATCH | JOINT_SCHEMA_MISMATCH | POSITION_LIMIT
| VELOCITY_LIMIT | DUPLICATE_REQUEST | INVALID_LIFECYCLE | INVALID_TRAJECTORY
| TRAJECTORY_CONTEXT_MISMATCH | START_STATE_DISCONTINUITY | SAFE_STOP_FAILURE
| UNSUPPORTED_MODE | NOT_READY | COLLISION | SCENE_CHANGED | BACKEND_REJECTED
| BACKEND_FAILURE | TRACKING_ERROR | TIMEOUT | FEEDBACK_LIMIT.
#[global] Instance eq_dec : EqDecision t.
Proof. solve_decision. Defined.
#[global] Instance enum : StrEnum t := {|
  value x := match x with
    | ACCEPTED => "accepted"
    | NO_STATE => "no_state"
    | STALE_STATE => "stale_state"
    | FUTURE_STATE => "future_state"
    | STALE_COMMAND => "stale_command"
    | FUTURE_COMMAND => "future_command"
    | CLOCK_MISMATCH => "clock_mismatch"
    | ROBOT_ID_MISMATCH => "robot_id_mismatch"
    | JOINT_SCHEMA_MISMATCH => "joint_schema_mismatch"
    | POSITION_LIMIT => "position_limit"
    | VELOCITY_LIMIT => "velocity_limit"
    | DUPLICATE_REQUEST => "duplicate_request"
    | INVALID_LIFECYCLE => "invalid_lifecycle"
    | INVALID_TRAJECTORY => "invalid_trajectory"
    | TRAJECTORY_CONTEXT_MISMATCH => "trajectory_context_mismatch"
    | START_STATE_DISCONTINUITY => "start_state_discontinuity"
    | SAFE_STOP_FAILURE => "safe_stop_failure"
    | UNSUPPORTED_MODE => "unsupported_mode"
    | NOT_READY => "not_ready"
    | COLLISION => "collision"
    | SCENE_CHANGED => "scene_changed"
    | BACKEND_REJECTED => "backend_rejected"
    | BACKEND_FAILURE => "backend_failure"
    | TRACKING_ERROR => "tracking_error"
    | TIMEOUT => "timeout"
    | FEEDBACK_LIMIT => "feedback_limit"
    end;
  members := [ACCEPTED; NO_STATE; STALE_STATE; FUTURE_STATE; STALE_COMMAND; FUTURE_COMMAND; CLOCK_MISMATCH; ROBOT_ID_MISMATCH; JOINT_SCHEMA_MISMATCH; POSITION_LIMIT; VELOCITY_LIMIT; DUPLICATE_REQUEST; INVALID_LIFECYCLE; INVALID_TRAJECTORY; TRAJECTORY_CONTEXT_MISMATCH; START_STATE_DISCONTINUITY; SAFE_STOP_FAILURE; UNSUPPORTED_MODE; NOT_READY; COLLISION; SCENE_CHANGED; BACKEND_REJECTED; BACKEND_FAILURE; TRACKING_ERROR; TIMEOUT; FEEDBACK_LIMIT]
|}.
#[global] Instance laws : StrEnumLaws t.
Proof. solve_enum_laws. Qed.
End ReceiptReason.

(** ** Constructors *)

(** [_nonblank] *)
Definition _nonblank (v : pyval) (label : string) : outcome error string :=
  match as_str v with
  | Some s => ensure non_blank s else value_error (label +:+ " must be a non-blank string") in Ok s
  | None => Raise (value_error (label +:+ " must be a non-blank string"))
  end.

(** [_joint_names] *)
Definition _joint_names (v : pyval) : outcome error (list string) :=
  match v with
  | VTuple (x :: l) =>
      let* names := outcome_map (λ n, _nonblank n "joint name") (x :: l) in
      ensure bool_decide (NoDup names) else value_error "joint_names must be unique" in Ok names
  | _ => Raise (value_error "joint_names must be a non-empty tuple")
  end.

(** One number: an integer that no float approximates raises [OverflowError] *)
Definition finite_item (msg : string) (v : pyval) : outcome error float :=
  match v with
  | VInt z => or_raise (float_of_int z) (other_error "int too large to convert to float")
  | VFloat f => ensure isfinite f else value_error msg in Ok f
  | _ => Raise (value_error msg)
  end.

(** [_finite_values] *)
Definition _finite_values (v : pyval) (label : string) (size : nat) : outcome error (list float) :=
  match v with
  | VTuple l =>
      ensure (length l =? size)%nat else value_error (label +:+ " must be a tuple matching joint_names") in
      outcome_map (finite_item (label +:+ " must contain finite numbers")) l
  | _ => Raise (value_error (label +:+ " must be a tuple matching joint_names"))
  end.

(** [_finite_timestamp] *)
Definition _finite_timestamp (v : pyval) (label : string) : outcome error float :=
  finite_item (label +:+ " must be a finite number") v.

Record RobotState := {
  robot_id : string;
  joint_names : list string;
  positions : list float;
  velocities : list float;
  observed_at_s : float;
  clock_id : string;
  accelerations : option (list float)
}.

(** [RobotState(...)] *)
Definition make_state (robot names pos vel at_s clock acc : pyval) : outcome error RobotState :=
  let* names := _joint_names names in
  let* robot := _nonblank robot "robot_id" in
  let size := length names in
  let* pos := _finite_values pos "positions" size in
  let* vel := _finite_values vel "velocities" size in
  let* at_s := _finite_timestamp at_s "observed_at_s" in
  let* clock := _nonblank clock "clock_id" in
  let* acc := match acc with
              | VNone => Ok None
              | v => let* a := _finite_values v "accelerations" size in Ok (Some a)
              end in
  Ok {| robot_id := robot; joint_names := names; positions := pos; velocities := vel; observed_at_s := at_s;
        clock_id := clock; accelerations := acc |}.

(** [replace(state, positions=...)] with positions of floats: the constructor
    checks them again *)
Definition with_positions (s : RobotState) (l : list float) : outcome error RobotState :=
  let* l := _finite_values (VTuple (VFloat <$> l)) "positions" (length (joint_names s)) in
  Ok {| robot_id := robot_id s; joint_names := joint_names s; positions := l; velocities := velocities s;
        observed_at_s := observed_at_s s; clock_id := clock_id s; accelerations := accelerations s |}.

(** [position_by_joint], as the dict that a preflight check reads *)
Definition position_by_joint (s : RobotState) : pyval :=
  VDict (zip (VStr <$> joint_names s) (VFloat <$> positions s)).

Record RobotCommand := {
  command_id : string;
  command_robot_id : string;
  command_joint_names : list string;
  mode : CommandMode.t;
  values : list float;
  issued_at_s : float;
  command_clock_id : string
}.

(** [RobotCommand(...)]; a mode of another class is [None] *)
Definition make_command (id robot names : pyval) (m : option CommandMode.t) (vals at_s clock : pyval)
    : outcome error RobotCommand :=
  let* names := _joint_names names in
  let* id := _nonblank id "command_id" in
  let* robot := _nonblank robot "robot_id" in
  let* m := or_raise m (other_error "mode must be CommandMode") in
  let* vals := _finite_values vals "values" (length names) in
  let* at_s := _finite_timestamp at_s "issued_at_s" in
  let* clock := _nonblank clock "clock_id" in
  Ok {| command_id := id; command_robot_id := robot; command_joint_names := names; mode := m; values := vals;
        issued_at_s := at_s; command_clock_id := clock |}.

Record ExecutionReceipt := {
  request_id : string;
  status : ReceiptStatus.t;
  reason : ReceiptReason.t;
  lifecycle_before : ControllerLifecycle.t;
  lifecycle_after : ControllerLifecycle.t;
  dispatch_attempted : bool;
  detail : option string
}.

(** [ExecutionReceipt(...)] on fields of the declared types *)
Definition make_receipt (request : string) (st : ReceiptStatus.t) (r : ReceiptReason.t) (before after : ControllerLifecycle.t)
    (attempted : bool) (d : option string) : outcome error ExecutionReceipt :=
  ensure non_blank request else value_error "request_id must be a non-blank string" in
  ensure negb (bool_decide (d = Some EmptyString)) else value_error "detail must be a non-empty string when present" in
  Ok {| request_id := request; status := st; reason := r; lifecycle_before := before; lifecycle_after := after;
        dispatch_attempted := attempted; detail := d |}.

(** ** Well-formed values *)

Record valid_state (s : RobotState) : Prop := {
  vs_names : joint_names s ≠ [] ∧ NoDup (joint_names s);
  vs_positions : length (positions s) = length (joint_names s) ∧ Forall (λ f, isfinite f = true) (positions s);
  vs_velocities : length (velocities s) = length (joint_names s) ∧ Forall (λ f, isfinite f = true) (velocities s);
  vs_time : isfinite (observed_at_s s) = true
}.

Lemma finite_item_finite msg v f : finite_item msg v = Ok f → isfinite f = true.
Proof.
  destruct v; simpl; try done.
  - unfold or_raise. destruct (float_of_int z) eqn:Hf; [|done]. intros [= <-]. by eapply float_of_int_finite.
  - case_match; congruence.
Qed.

Lemma finite_values_spec v label n l :
  _finite_values v label n = Ok l → length l = n ∧ Forall (λ f, isfinite f = true) l.
Proof.
  destruct v; try done. simpl. destruct (length l0 =? n)%nat eqn:Hn; [|done]. apply Nat.eqb_eq in Hn as <-.
  intros H%outcome_map_Ok. split; [by rewrite <-(Forall2_length _ _ _ H)|].
  induction H; constructor; [by eapply finite_item_finite|done].
Qed.

Lemma joint_names_spec v l : _joint_names v = Ok l → l ≠ [] ∧ NoDup l.
Proof.
  unfold _joint_names. destruct v as [| | | | | | |[|x k]| | | |]; try done. intros H. run_outcome H. injection H as <-.
  apply outcome_map_Ok in Hv. split; [inversion Hv; congruence|by apply bool_decide_eq_true in Hb].
Qed.

(** Every state that the constructor returns is well formed *)
Lemma make_state_valid robot names pos vel at_s clock acc s :
  make_state robot names pos vel at_s clock acc = Ok s → valid_state s.
Proof.
  unfold make_state. intros H. run_outcome H. injection H as <-.
  apply joint_names_spec in Hv. apply finite_values_spec in Hv1, Hv2. apply finite_item_finite in Hv3.
  by constructor.
Qed.

Lemma any_zip_false f l k : any_zip f l k = Ok false ↔ Forall2 (λ x y, f x y = false) l k.
Proof.
  revert k. induction l as [|x l IH]; intros [|y k]; simpl; try (split; [done|by inversion 1]).
  destruct (f x y) eqn:Hf; [split; [done|inversion 1; congruence]|].
  rewrite IH. split; [by constructor|by inversion 1].
Qed.
