(* ===== verification/JointLimits.v ===== *)
(** * Motion control: limits and trajectory preflight

    [robot/control/workbench_motion/workbench_motion/joint_limits.py].  Limits,
    policies and contexts have the field types that their classes declare; a raw
    trajectory and the current positions are dynamically typed.  An object that
    gives its fields as attributes is the dict of them, which [_field] and
    [_time_ns] treat alike.  The files that the loaders read are given by what the
    YAML library returns for them.  Messages leave out paths and lists of fields. *)

From Stdlib Require Import ZArith Ascii String SpecFloat.
From S2P Require Import Prelude PyVal Json PyText PyFloat MotionTypes.
Local Open Scope Z_scope.

Module ReasonCode.
Inductive t : Type :=
| JOINT_NAMES | CURRENT_STATE | POINTS | ARRAY_LENGTH | NON_FINITE | TIME
| CURRENT_POSITION | POSITION | VELOCITY | EFFORT | INITIAL_POSITION | SEGMENT_VELOCITY
| JOINT_ORDER_MISMATCH | TIMESTAMP_MALFORMED | DURATION_EXCEEDED
| START_STATE_DISCONTINUITY.
#[global] Instance eq_dec : EqDecision t.
Proof. solve_decision. Defined.
#[global] Instance enum : StrEnum t := {|
  value x := match x with
    | JOINT_NAMES => "joint_names"
    | CURRENT_STATE => "current_state"
    | POINTS => "points"
    | ARRAY_LENGTH => "array_length"
    | NON_FINITE => "non_finite"
    | TIME => "time"
    | CURRENT_POSITION => "current_position"
    | POSITION => "position"
    | VELOCITY => "velocity"
    | EFFORT => "effort"
    | INITIAL_POSITION => "initial_position"
    | SEGMENT_VELOCITY => "segment_velocity"
    | JOINT_ORDER_MISMATCH => "joint_order_mismatch"
    | TIMESTAMP_MALFORMED => "timestamp_malformed"
    | DURATION_EXCEEDED => "duration_exceeded"
    | START_STATE_DISCONTINUITY => "start_state_discontinuity"
    end;
  members := [JOINT_NAMES; CURRENT_STATE; POINTS; ARRAY_LENGTH; NON_FINITE; TIME; CURRENT_POSITION; POSITION; VELOCITY; EFFORT; INITIAL_POSITION; SEGMENT_VELOCITY; JOINT_ORDER_MISMATCH; TIMESTAMP_MALFORMED; DURATION_EXCEEDED; START_STATE_DISCONTINUITY]
|}.
#[global] Instance laws : StrEnumLaws t.
Proof. solve_enum_laws. Qed.
End ReasonCode.

Module ConfigurationCode.
Inductive t : Type :=
| INVALID_POLICY | INVALID_LIMITS.
#[global] Instance eq_dec : EqDecision t.
Proof. solve_decision. Defined.
#[global] Instance enum : StrEnum t := {|
  value x := match x with
    | INVALID_POLICY => "invalid_policy"
    | INVALID_LIMITS => "invalid_limits"
    end;
  members := [INVALID_POLICY; INVALID_LIMITS]
|}.
#[global] Instance laws : StrEnumLaws t.
Proof. solve_enum_laws. Qed.
End ConfigurationCode.

(** ** Limits and policies *)

Record JointLimit := { min_position : float; max_position : float; max_velocity : float; max_effort : float }.

Record PreflightPolicy := {
  version : string;
  limit_epsilon : float;
  max_duration_s : float;
  max_start_state_delta_rad : float
}.

Record PreflightContext := {
  expected_joint_names : list string;
  effective_limits_of : list (string * JointLimit);
  policy : PreflightPolicy;
  effective_limits_sha256 : string;
  context_sha256 : string
}.

(** [PreflightConfigurationError(code, message)] *)
Definition configuration_error (c : ConfigurationCode.t) (e : error) : error :=
  {| class := PreflightConfigurationError; text := value c +:+ ": " +:+ text e |}.

(** [_number] *)
Definition _number (v : pyval) (label : string) : outcome error float :=
  or_raise (finite_number v) (value_error (label +:+ " must be a finite number")).

(** The four numbers of a limit *)
Definition limit_values (l : JointLimit) : list float := [min_position l; max_position l; max_velocity l; max_effort l].
Definition bad_bounds (l : JointLimit) : bool :=
  float_lt (max_position l) (min_position l) || float_lt (max_velocity l) float_zero || float_lt (max_effort l) float_zero.
(** A limit that allows more than another *)
Definition looser (candidate base : JointLimit) : bool :=
  float_lt (min_position candidate) (min_position base) || float_lt (max_position base) (max_position candidate) ||
  float_lt (max_velocity base) (max_velocity candidate) || float_lt (max_effort base) (max_effort candidate).

(** [value or {}] *)
Definition or_empty (v : pyval) : pyval :=
  match v with
  | VNone | VBool false | VList [] | VTuple [] | VSet [] | VFrozenset [] | VStr EmptyString => VDict []
  | VInt z => if z =? 0 then VDict [] else v
  | VFloat f => if float_is_zero f then VDict [] else v
  | _ => v
  end.

Definition flag_set (kvs : list (pyval * pyval)) (flag : string) : bool :=
  match dict_get flag kvs with Some (VBool true) => true | _ => false end.

(** An entry of the vendor's limits *)
Definition hard_limit_entry (kv : pyval * pyval) : outcome error (string * JointLimit) :=
  match as_str kv.1, kv.2 with
  | Some joint, VDict kvs =>
      ensure forallb (flag_set kvs) ["has_position_limits"; "has_velocity_limits"; "has_effort_limits"]
        else value_error (joint +:+ " must declare position, velocity and effort limits") in
      let number key := _number (dict_get_or key kvs VNone) (joint +:+ "." +:+ key) in
      let* min_p := number "min_position" in
      let* max_p := number "max_position" in
      let* max_v := number "max_velocity" in
      let* max_e := number "max_effort" in
      let l := {| min_position := min_p; max_position := max_p; max_velocity := max_v; max_effort := max_e |} in
      ensure negb (bad_bounds l) else value_error ("invalid bounds for " +:+ joint) in Ok (joint, l)
  | _, _ => Raise (value_error "malformed joint limit entry")
  end.

(** [load_hard_limits], after the file was read *)
Definition load_hard_limits (data : pyval) : outcome error (list (string * JointLimit)) :=
  match or_empty data with
  | VDict kvs =>
      match dict_get_or "joint_limits" kvs VNone with
      | VDict (kv :: kvs') => outcome_map hard_limit_entry (kv :: kvs')
      | _ => Raise (value_error "joint_limits must be a non-empty mapping")
      end
  | _ => Raise (other_error "object has no attribute 'get'")
  end.

(** One field of an override *)
Definition override_field (joint : string) (acc : JointLimit) (kv : pyval * pyval) : outcome error JointLimit :=
  match as_str kv.1 with
  | Some key =>
      let* x := _number kv.2 (joint +:+ "." +:+ key) in
      Ok {| min_position := if String.eqb key "min_position" then x else min_position acc;
            max_position := if String.eqb key "max_position" then x else max_position acc;
            max_velocity := if String.eqb key "max_velocity" then x else max_velocity acc;
            max_effort := if String.eqb key "max_effort" then x else max_effort acc |}
  | None => Ok acc
  end.

Fixpoint override_fields (joint : string) (acc : JointLimit) (kvs : list (pyval * pyval)) : outcome error JointLimit :=
  match kvs with
  | [] => Ok acc
  | kv :: kvs' => let* acc := override_field joint acc kv in override_fields joint acc kvs'
  end.

Definition override_entry (hard : list (string * JointLimit)) (kv : pyval * pyval) : outcome error (string * JointLimit) :=
  match as_str kv.1 with
  | None => Raise (value_error "hardware override contains unknown joint")
  | Some joint =>
      let* base := or_raise (assoc_get joint hard) (value_error ("hardware override contains unknown joint " +:+ repr_str joint)) in
      match kv.2 with
      | VDict (f :: fields) =>
          ensure bool_decide (unknown_keys ["min_position"; "max_position"; "max_velocity"; "max_effort"] (f :: fields) = [])
            else value_error ("hardware override for " +:+ joint +:+ " has unknown fields") in
          let* candidate := override_fields joint base (f :: fields) in
          ensure negb (float_lt (max_position candidate) (min_position candidate))
            else value_error ("hardware override for " +:+ joint +:+ " has min_position > max_position") in
          ensure negb (bad_bounds candidate)
            else value_error ("hardware override for " +:+ joint +:+ " has a negative magnitude") in
          ensure negb (looser candidate base)
            else value_error ("hardware override for " +:+ joint +:+ " is looser than the vendor hard limit") in
          Ok (joint, candidate)
      | _ => Raise (value_error ("hardware override for " +:+ joint +:+ " must be a non-empty mapping"))
      end
  end.

(** [load_hw_override], after the file was read *)
Definition load_hw_override (hard : list (string * JointLimit)) (data : pyval) : outcome error (list (string * JointLimit)) :=
  match or_empty data with
  | VDict kvs =>
      match dict_get_or "joint_limits" kvs VNone with
      | VNone => Ok []
      | VDict entries => outcome_map (override_entry hard) entries
      | _ => Raise (value_error "hardware override joint_limits must be a mapping")
      end
  | _ => Raise (value_error "hardware override root must be a mapping")
  end.

(** One entry of [_validate_override_within_hard] *)
Definition override_within (hard : list (string * JointLimit)) (kv : string * JointLimit) : outcome error () :=
  let '(joint, candidate) := kv in
  ensure forallb isfinite (limit_values candidate) else value_error ("override limit for " +:+ joint +:+ " must be a finite number") in
  ensure negb (float_lt (max_position candidate) (min_position candidate))
    else value_error ("override limit for " +:+ joint +:+ " has min_position > max_position") in
  ensure negb (bad_bounds candidate) else value_error ("override limit for " +:+ joint +:+ " has a negative magnitude") in
  let* base := or_raise (assoc_get joint hard) (other_error joint) in
  ensure negb (looser candidate base) else value_error ("override limit for " +:+ joint +:+ " is looser than the hard limit") in
  Ok ().

(** [_validate_override_within_hard] *)
Definition _validate_override_within_hard (hard override : list (string * JointLimit)) : outcome error () :=
  ensure forallb (λ joint, str_in joint hard.*1) override.*1 else value_error "override contains unknown joints" in
  let* _ := outcome_map (override_within hard) override in Ok ().

(** The tighter of the two bounds, independently *)
Definition tighter (base other : JointLimit) : JointLimit := {|
  min_position := float_max (min_position base) (min_position other);
  max_position := float_min (max_position base) (max_position other);
  max_velocity := float_min (max_velocity base) (max_velocity other);
  max_effort := float_min (max_effort base) (max_effort other) |}.

(** [effective_limits] *)
Definition effective_limits (hard override : list (string * JointLimit)) : outcome error (list (string * JointLimit)) :=
  let* _ := _validate_override_within_hard hard override in
  Ok ((λ kv, (kv.1, tighter kv.2 (default kv.2 (assoc_get kv.1 override)))) <$> hard).

(** [_policy_from_mapping] *)
Definition _policy_from_mapping (raw : list (pyval * pyval)) : outcome error PreflightPolicy :=
  let fields := ["version"; "limit_epsilon"; "max_duration_s"; "max_start_state_delta_rad"] in
  ensure bool_decide (list_to_set (as_str <$> raw.*1) =@{gset (option string)} list_to_set (Some <$> fields))
    else value_error "policy fields mismatch" in
  let* v := match as_str (dict_get_or "version" raw VNone) with
            | Some EmptyString | None => Raise (value_error "policy version must be a non-empty string")
            | Some v => Ok v
            end in
  let number key := _number (dict_get_or key raw VNone) key in
  let* epsilon := number "limit_epsilon" in
  let* duration := number "max_duration_s" in
  let* delta := number "max_start_state_delta_rad" in
  Ok {| version := v; limit_epsilon := epsilon; max_duration_s := duration; max_start_state_delta_rad := delta |}.

(** [_duration_threshold_ns] *)
Definition _duration_threshold_ns (seconds : float) : outcome error Z :=
  or_raise (decimal_nanoseconds seconds) (value_error "duration must be exactly representable in nanoseconds").

(** [_validate_policy] *)
Definition _validate_policy (p : PreflightPolicy) : outcome error PreflightPolicy :=
  ensure negb (String.eqb (version p) EmptyString) else value_error "policy version must be a non-empty string" in
  ensure isfinite (limit_epsilon p) else value_error "limit_epsilon must be a finite number" in
  ensure isfinite (max_duration_s p) else value_error "max_duration_s must be a finite number" in
  ensure isfinite (max_start_state_delta_rad p) else value_error "max_start_state_delta_rad must be a finite number" in
  ensure negb (float_lt (limit_epsilon p) float_zero) else value_error "limit_epsilon must be non-negative" in
  ensure negb (float_le (max_duration_s p) float_zero || float_le (max_start_state_delta_rad p) float_zero)
    else value_error "duration and start-state delta must be positive" in
  let* _ := _duration_threshold_ns (max_duration_s p) in
  Ok p.

(** [load_preflight_policy], after the file was read *)
Definition load_preflight_policy (data : pyval) : outcome error PreflightPolicy :=
  outcome_except (configuration_error ConfigurationCode.INVALID_POLICY)
    match data with
    | VDict [(k, raw)] =>
        ensure bool_decide (as_str k = Some "trajectory_preflight")
          else value_error "policy root must contain only trajectory_preflight" in
        match raw with
        | VDict kvs => let* p := _policy_from_mapping kvs in _validate_policy p
        | _ => Raise (value_error "trajectory_preflight must be a mapping")
        end
    | _ => Raise (value_error "policy root must contain only trajectory_preflight")
    end.

(** ** Contexts *)

(** [_canonical_json_bytes]; the payloads hold no numbers that [json.dumps]
    refuses *)
Definition _canonical_json_bytes (m : material) : list Z := utf8_bytes (default [] (json_dumps m)).

(** [_sha256] *)
Definition _sha256 (payload : list Z) : string := "sha256:" +:+ sha256_hexdigest payload.

(** The limit of a joint; [_validate_limits] checks that there is one *)
Definition limit_at (limits : list (string * JointLimit)) (joint : string) : JointLimit :=
  default {| min_position := float_zero; max_position := float_zero; max_velocity := float_zero; max_effort := float_zero |}
    (assoc_get joint limits).

Definition hex_text (f : float) : material := utext (float_hex f).

(** [_limit_payload] *)
Definition _limit_payload (expected : list string) (limits : list (string * JointLimit)) : material :=
  ufields
    [("schema_version", utext "1");
     ("joint_limits", MList ((λ joint,
        let l := limit_at limits joint in
        ufields [("joint", utext joint); ("min_position", hex_text (min_position l)); ("max_position", hex_text (max_position l));
                 ("max_velocity", hex_text (max_velocity l)); ("max_effort", hex_text (max_effort l))]) <$> expected))].

(** [_context_hashes] *)
Definition _context_hashes (expected : list string) (limits : list (string * JointLimit)) (p : PreflightPolicy)
    : string * string :=
  let limits_hash := _sha256 (_canonical_json_bytes (_limit_payload expected limits)) in
  (limits_hash, _sha256 (_canonical_json_bytes (ufields
    [("schema_version", utext "1"); ("expected_joint_names", utexts expected); ("effective_limits_sha256", utext limits_hash);
     ("policy", ufields [("version", utext (version p)); ("limit_epsilon", hex_text (limit_epsilon p));
        ("max_duration_s", hex_text (max_duration_s p));
        ("max_start_state_delta_rad", hex_text (max_start_state_delta_rad p))])]))).

(** One joint of [_validate_limits] *)
Definition valid_limit (limits : list (string * JointLimit)) (epsilon : float) (joint : string) : outcome error () :=
  let l := limit_at limits joint in
  ensure forallb isfinite (limit_values l) else value_error ("limit for " +:+ joint +:+ " must be a finite number") in
  ensure negb (bad_bounds l) else value_error ("limit for " +:+ joint +:+ " has invalid bounds") in
  ensure negb (float_lt (float_sub (max_position l) epsilon) (float_add (min_position l) epsilon))
    else value_error ("limit epsilon collapses the position range for " +:+ joint) in
  Ok ().

(** [_validate_limits] *)
Definition _validate_limits (expected : list string) (limits : list (string * JointLimit)) (epsilon : float) : outcome error () :=
  ensure bool_decide (expected ≠ []) && negb (str_in EmptyString expected)
    else value_error "expected joint names must be non-empty strings" in
  ensure bool_decide (NoDup expected) else value_error "expected joint names contain duplicates" in
  ensure bool_decide (list_to_set limits.*1 =@{gset string} list_to_set expected)
    else value_error "effective limits must contain exactly the expected joints" in
  let* _ := outcome_map (valid_limit limits epsilon) expected in
  Ok ().

(** The policy argument of [build_preflight_context] *)
Inductive policy_source : Type :=
| PolicyValue (p : PreflightPolicy)
| PolicyMapping (raw : list (pyval * pyval)).

(** [build_preflight_context] with all its arguments given *)
Definition build_preflight_context (source : policy_source) (expected : list string)
    (hard override : list (string * JointLimit)) : outcome error PreflightContext :=
  let* p := outcome_except (configuration_error ConfigurationCode.INVALID_POLICY)
    (let* candidate := match source with PolicyValue p => Ok p | PolicyMapping raw => _policy_from_mapping raw end in
     _validate_policy candidate) in
  outcome_except (configuration_error ConfigurationCode.INVALID_LIMITS)
    (let* _ := _validate_limits expected hard (limit_epsilon p) in
     let* combined := effective_limits hard override in
     let* _ := _validate_limits expected combined (limit_epsilon p) in
     let ordered := (λ joint, (joint, limit_at combined joint)) <$> expected in
     let '(limits_hash, context_hash) := _context_hashes expected ordered p in
     Ok {| expected_joint_names := expected; effective_limits_of := ordered; policy := p;
           effective_limits_sha256 := limits_hash; context_sha256 := context_hash |}).

(** [_validated_context] *)
Definition _validated_context (c : PreflightContext)
    : outcome error (list string * list (string * JointLimit) * PreflightPolicy) :=
  let* p := outcome_except (configuration_error ConfigurationCode.INVALID_POLICY) (_validate_policy (policy c)) in
  outcome_except (configuration_error ConfigurationCode.INVALID_LIMITS)
    (let expected := expected_joint_names c in
     let limits := effective_limits_of c in
     ensure bool_decide (NoDup limits.*1) else value_error "effective limits contain duplicate joints" in
     let* _ := _validate_limits expected limits (limit_epsilon p) in
     let '(limits_hash, context_hash) := _context_hashes expected limits p in
     ensure String.eqb limits_hash (effective_limits_sha256 c) && String.eqb context_hash (context_sha256 c)
       else value_error "context hashes do not match context contents" in
     Ok (expected, limits, p)).

(** ** Trajectories *)

Record Violation := {
  kind : ReasonCode.t;
  message : string;
  violation_joint : option string;
  violation_value : option float;
  bound : option float;
  point_index : option nat
}.

Record NormalizedPoint := {
  point_positions : list float;
  point_velocities : list float;
  point_accelerations : list float;
  effort : list float;
  time_from_start_ns : Z
}.

Record NormalizedTrajectory := { trajectory_joint_names : list string; points : list NormalizedPoint }.

(** [AcceptedTrajectory]: only [_accept] makes one *)
Record AcceptedTrajectory := {
  snapshot : NormalizedTrajectory;
  canonical_bytes : list Z;
  trajectory_sha256 : string;
  policy_version : string;
  accepted_limits_sha256 : string;
  accepted_context_sha256 : string
}.

(** What ends the check early: [return _bad(...)], or an exception *)
Inductive stop : Type := Bad (v : Violation) | Err (e : error).

(** [_bad] *)
Definition _bad (k : ReasonCode.t) (msg : string) (joint : option string) (v b : option float) (index : option nat) : Violation :=
  {| kind := k; message := msg; violation_joint := joint; violation_value := v; bound := b; point_index := index |}.

Definition bad_point (k : ReasonCode.t) (msg : string) (index : nat) : Violation := _bad k msg None None None (Some index).

(** The first violation of a loop, and the end of the function when there is one *)
Fixpoint first_bad {A} (f : A → option Violation) (l : list A) : option Violation :=
  match l with [] => None | x :: l' => match f x with Some v => Some v | None => first_bad f l' end end.

Definition unless (o : option Violation) : outcome stop () := match o with Some v => Raise (Bad v) | None => Ok () end.

(** [enumerate] *)
Definition enumerate {A} (l : list A) : list (nat * A) := zip (seq 0 (length l)) l.

(** [_field]; [None] for the default *)
Definition _field (v : pyval) (name : string) : option pyval :=
  match v with VDict kvs => dict_get name kvs | _ => None end.

(** [_array]; the outer [None] is a missing field *)
Definition _array (v : option pyval) : option (list pyval) :=
  match v with
  | Some VNone => Some []
  | Some (VList l) | Some (VTuple l) => Some l
  | _ => None
  end.

(** One item of [_numeric_array] *)
Definition numeric_item (index : nat) (v : pyval) : outcome stop float :=
  match v with
  | VBool _ => Raise (Bad (bad_point ReasonCode.NON_FINITE "trajectory contains a non-numeric value" index))
  | _ =>
      match py_float v with
      | None => Raise (Bad (bad_point ReasonCode.NON_FINITE "trajectory contains a non-numeric value" index))
      | Some f =>
          ensure isfinite f else Bad (bad_point ReasonCode.NON_FINITE "trajectory contains NaN or infinity" index) in Ok f
      end
  end.

(** [_numeric_array] *)
Definition _numeric_array (l : list pyval) (index : nat) : outcome stop (list float) := outcome_map (numeric_item index) l.

Definition malformed (msg : string) (index : nat) : stop := Bad (bad_point ReasonCode.TIMESTAMP_MALFORMED msg index).

(** [_structured_time_ns] *)
Definition _structured_time_ns (sec nanosec : pyval) (index : nat) : outcome stop Z :=
  match sec, nanosec with
  | VInt s, VInt n =>
      ensure (- 2 ^ 31 <=? s) && (s <=? 2 ^ 31 - 1) && (0 <=? n) && (n <? 1000000000)
        else malformed "duration sec/nanosec fields are malformed" index in
      Ok (s * 1000000000 + n)
  | _, _ => Raise (malformed "duration sec/nanosec fields are malformed" index)
  end.

(** [_time_ns] *)
Definition _time_ns (raw : option pyval) (index : nat) : outcome stop Z :=
  match raw with
  | None | Some (VBool _) => Raise (malformed "time_from_start is missing or malformed" index)
  | Some (VInt z) => Ok (z * 1000000000)
  | Some (VFloat f) =>
      ensure isfinite f else Bad (bad_point ReasonCode.NON_FINITE "trajectory contains NaN or infinity" index) in
      match decimal_nanoseconds f with
      | Some ns => Ok ns
      | None => Raise (malformed "time is not representable in nanoseconds" index)
      end
  | Some (VDict kvs) =>
      match dict_get "sec" kvs, dict_get "nanosec" kvs with
      | Some sec, Some nanosec => _structured_time_ns sec nanosec index
      | _, _ => Raise (malformed "duration requires sec and nanosec" index)
      end
  | Some _ => Raise (malformed "duration requires sec and nanosec" index)
  end.

(** [_seconds_for_violation] *)
Definition _seconds_for_violation (ns : Z) : option float := billionth ns.

Definition hex_texts (l : list float) : material := MList (hex_text <$> l).

(** [_trajectory_bytes] *)
Definition _trajectory_bytes (t : NormalizedTrajectory) : list Z :=
  _canonical_json_bytes (ufields
    [("schema_version", utext "1"); ("joint_names", utexts (trajectory_joint_names t));
     ("points", MList ((λ p, ufields
        [("positions", hex_texts (point_positions p)); ("velocities", hex_texts (point_velocities p));
         ("accelerations", hex_texts (point_accelerations p)); ("effort", hex_texts (effort p));
         ("time_from_start_ns", MInt (time_from_start_ns p))]) <$> points t))]).

(** [_accept] *)
Definition _accept (t : NormalizedTrajectory) (c : PreflightContext) : AcceptedTrajectory :=
  let canonical := _trajectory_bytes t in
  {| snapshot := t; canonical_bytes := canonical; trajectory_sha256 := _sha256 canonical;
     policy_version := version (policy c); accepted_limits_sha256 := effective_limits_sha256 c;
     accepted_context_sha256 := context_sha256 c |}.

(** *** Names and current positions *)

Definition named (v : pyval) : option string := match as_str v with Some EmptyString => None | o => o end.

Definition check_names (traj : pyval) (expected : list string) : outcome stop () :=
  let refuse k msg := Raise (Bad (_bad k msg None None None None)) in
  match _array (_field traj "joint_names") ≫= mapM named with
  | None | Some [] => refuse ReasonCode.JOINT_NAMES "joint_names must be non-empty strings"
  | Some names =>
      if negb (bool_decide (NoDup names)) then refuse ReasonCode.JOINT_NAMES "joint_names contains duplicates"
      else if negb (bool_decide (list_to_set names =@{gset string} list_to_set expected)) then
        refuse ReasonCode.JOINT_NAMES "joint_names must contain exactly all controlled joints"
      else if negb (bool_decide (names = expected)) then
        refuse ReasonCode.JOINT_ORDER_MISMATCH "joint_names order does not match the controlled order"
      else Ok ()
  end.

Definition current_item (kvs : list (pyval * pyval)) (joint : string) : outcome stop (string * float) :=
  let refuse msg v := Raise (Bad (_bad ReasonCode.NON_FINITE ("current state for " +:+ joint +:+ msg) (Some joint) v None None)) in
  match dict_get_or joint kvs VNone with
  | VBool _ => refuse " is not numeric" None
  | v =>
      match py_float v with
      | None => refuse " is not numeric" None
      | Some f => if isfinite f then Ok (joint, f) else refuse " is not finite" (Some f)
      end
  end.

(** The current positions in the expected order *)
Definition check_current (current : pyval) (expected : list string) : outcome stop (list (string * float)) :=
  let refuse := Raise (Bad (_bad ReasonCode.CURRENT_STATE "current state must contain exactly all controlled joints" None None None None)) in
  match current with
  | VDict kvs =>
      if bool_decide (list_to_set (as_str <$> kvs.*1) =@{gset (option string)} list_to_set (Some <$> expected))
      then outcome_map (current_item kvs) expected else refuse
  | _ => refuse
  end.

(** The bounds with the margin taken off *)
Definition low (l : JointLimit) (epsilon : float) : float := float_add (min_position l) epsilon.
Definition high (l : JointLimit) (epsilon : float) : float := float_sub (max_position l) epsilon.
Definition top_speed (l : JointLimit) (epsilon : float) : float := float_max float_zero (float_sub (max_velocity l) epsilon).
Definition top_effort (l : JointLimit) (epsilon : float) : float := float_max float_zero (float_sub (max_effort l) epsilon).

Definition outside (l : JointLimit) (epsilon x : float) : bool := float_lt x (low l epsilon) || float_lt (high l epsilon) x.
Definition nearer_bound (l : JointLimit) (epsilon x : float) : float :=
  if float_lt x (low l epsilon) then low l epsilon else high l epsilon.

Definition current_outside (limits : list (string * JointLimit)) (epsilon : float) (jx : string * float) : option Violation :=
  let l := limit_at limits jx.1 in
  if outside l epsilon jx.2 then
    Some (_bad ReasonCode.CURRENT_POSITION ("current state for " +:+ jx.1 +:+ " is outside limits") (Some jx.1) (Some jx.2)
            (Some (nearer_bound l epsilon jx.2)) None)
  else None.

(** *** Points *)

Record raw_point := {
  raw_positions : list pyval;
  raw_velocities : list pyval;
  raw_accelerations : list pyval;
  raw_effort : list pyval;
  raw_time : option pyval
}.

(** An array of a point: as long as the joints, or empty when it is optional *)
Definition array_field (size index : nat) (point : pyval) (name : string) (optional : bool) : outcome stop (list pyval) :=
  let refuse := Raise (Bad (bad_point ReasonCode.ARRAY_LENGTH
    (name +:+ " length must " +:+ (if optional then "be zero or match joint_names" else "match joint_names")) index)) in
  match _array (match _field point name with None => if optional then Some (VTuple []) else None | v => v end) with
  | None => refuse
  | Some l => if (length l =? size)%nat || (optional && (length l =? 0)%nat) then Ok l else refuse
  end.

Definition check_arrays (size : nat) (ip : nat * pyval) : outcome stop raw_point :=
  let '(index, point) := ip in
  let* pos := array_field size index point "positions" false in
  let* vel := array_field size index point "velocities" true in
  let* acc := array_field size index point "accelerations" true in
  let* eff := array_field size index point "effort" true in
  Ok {| raw_positions := pos; raw_velocities := vel; raw_accelerations := acc; raw_effort := eff;
        raw_time := _field point "time_from_start" |}.

(** The numbers of a point; its time is read later *)
Definition parse_arrays (ip : nat * raw_point) : outcome stop (list float * list float * list float * list float) :=
  let '(index, p) := ip in
  let* pos := _numeric_array (raw_positions p) index in
  let* vel := _numeric_array (raw_velocities p) index in
  let* acc := _numeric_array (raw_accelerations p) index in
  let* eff := _numeric_array (raw_effort p) index in
  Ok (pos, vel, acc, eff).

Definition time_not_finite (ip : nat * raw_point) : option Violation :=
  match raw_time ip.2 with
  | Some (VFloat f) =>
      if isfinite f then None else Some (bad_point ReasonCode.NON_FINITE "trajectory contains NaN or infinity" ip.1)
  | _ => None
  end.

Definition normalize_point (x : nat * (raw_point * (list float * list float * list float * list float))) : outcome stop NormalizedPoint :=
  let '(index, (p, (pos, vel, acc, eff))) := x in
  let* ns := _time_ns (raw_time p) index in
  Ok {| point_positions := pos; point_velocities := vel; point_accelerations := acc; effort := eff; time_from_start_ns := ns |}.

(** The points of a raw trajectory *)
Definition read_points (traj : pyval) (size : nat) : outcome stop (list NormalizedPoint) :=
  match _array (_field traj "points") with
  | None | Some [] => Raise (Bad (_bad ReasonCode.POINTS "trajectory points must be non-empty" None None None None))
  | Some raw =>
      let* arrays := outcome_map (check_arrays size) (enumerate raw) in
      let* parsed := outcome_map parse_arrays (enumerate arrays) in
      let* _ := unless (first_bad time_not_finite (enumerate arrays)) in
      outcome_map normalize_point (enumerate (zip arrays parsed))
  end.

(** *** Checks of the normalized points *)

Definition time_negative (ip : nat * NormalizedPoint) : option Violation :=
  let ns := time_from_start_ns ip.2 in
  if ns <? 0 then
    Some (_bad ReasonCode.TIME "time_from_start must be non-negative" None (_seconds_for_violation ns) (Some float_zero) (Some ip.1))
  else None.

Fixpoint time_not_increasing (previous : Z) (l : list (nat * NormalizedPoint)) : option Violation :=
  match l with
  | [] => None
  | (index, p) :: l' =>
      let ns := time_from_start_ns p in
      if ns <=? previous then
        Some (_bad ReasonCode.TIME "time_from_start must be strictly increasing" None (_seconds_for_violation ns)
                (_seconds_for_violation previous) (Some index))
      else time_not_increasing ns l'
  end.

Definition first_time (l : list NormalizedPoint) : Z := from_option time_from_start_ns 0 (head l).
Definition final_time (l : list NormalizedPoint) : Z := from_option time_from_start_ns 0 (last l).

Definition duration_exceeded (p : PreflightPolicy) (max_ns : Z) (l : list NormalizedPoint) : option Violation :=
  if max_ns <? final_time l then
    Some (_bad ReasonCode.DURATION_EXCEEDED "trajectory duration exceeds policy" None (_seconds_for_violation (final_time l))
            (Some (max_duration_s p)) (Some (length l - 1)%nat))
  else None.

(** An item of an array that is as long as the joints *)
Definition item (l : list float) (offset : nat) : float := nth offset l float_zero.

Definition joint_outside (limits : list (string * JointLimit)) (epsilon : float) (index : nat) (p : NormalizedPoint)
    (oj : nat * string) : option Violation :=
  let '(offset, joint) := oj in
  let l := limit_at limits joint in
  let x := item (point_positions p) offset in
  let v := item (point_velocities p) offset in
  let e := item (effort p) offset in
  if outside l epsilon x then
    Some (_bad ReasonCode.POSITION (joint +:+ " position is outside limits") (Some joint) (Some x) (Some (nearer_bound l epsilon x)) (Some index))
  else if bool_decide (point_velocities p ≠ []) && float_lt (top_speed l epsilon) (float_abs v) then
    Some (_bad ReasonCode.VELOCITY (joint +:+ " velocity exceeds limit") (Some joint) (Some v) (Some (top_speed l epsilon)) (Some index))
  else if bool_decide (effort p ≠ []) && float_lt (top_effort l epsilon) (float_abs e) then
    Some (_bad ReasonCode.EFFORT (joint +:+ " effort exceeds limit") (Some joint) (Some e) (Some (top_effort l epsilon)) (Some index))
  else None.

Definition point_outside (limits : list (string * JointLimit)) (epsilon : float) (expected : list string)
    (ip : nat * NormalizedPoint) : option Violation :=
  first_bad (joint_outside limits epsilon ip.1 ip.2) (enumerate expected).

(** The first point against the current position *)
Definition start_differs (p : PreflightPolicy) (first : NormalizedPoint) (oj : nat * (string * float)) : option Violation :=
  let '(offset, (joint, current)) := oj in
  let x := item (point_positions first) offset in
  let delta := float_abs (float_sub x current) in
  if time_from_start_ns first =? 0 then
    if float_lt (limit_epsilon p) delta then
      Some (_bad ReasonCode.INITIAL_POSITION (joint +:+ " first point at t=0 differs from current state") (Some joint) (Some x)
              (Some current) (Some 0%nat))
    else None
  else if float_lt (max_start_state_delta_rad p) delta then
    Some (_bad ReasonCode.START_STATE_DISCONTINUITY (joint +:+ " first point is too far from current state") (Some joint)
            (Some delta) (Some (max_start_state_delta_rad p)) (Some 0%nat))
  else None.

(** The mean velocity from [start] over [dt] nanoseconds *)
Definition segment_joint (limits : list (string * JointLimit)) (epsilon : float) (msg : string) (index : nat) (dt : Z)
    (p : NormalizedPoint) (oj : nat * (string * float)) : outcome stop () :=
  let '(offset, (joint, start)) := oj in
  let delta := float_abs (float_sub (item (point_positions p) offset) start) in
  let* dt := match float_of_int dt with Some f => Ok f | None => Raise (Err (other_error "int too large to convert to float")) end in
  let mean := float_div (float_mul delta billion) dt in
  let vmax := top_speed (limit_at limits joint) epsilon in
  unless (if float_lt vmax mean then
            Some (_bad ReasonCode.SEGMENT_VELOCITY (joint +:+ msg) (Some joint) (Some mean) (Some vmax) (Some index))
          else None).

Definition segment_check (limits : list (string * JointLimit)) (epsilon : float) (msg : string) (index : nat) (dt : Z)
    (starts : list (string * float)) (p : NormalizedPoint) : outcome stop () :=
  let* _ := outcome_map (segment_joint limits epsilon msg index dt p) (enumerate starts) in Ok ().

Fixpoint segments_check (limits : list (string * JointLimit)) (epsilon : float) (expected : list string) (previous : NormalizedPoint)
    (l : list (nat * NormalizedPoint)) : outcome stop () :=
  match l with
  | [] => Ok ()
  | (index, p) :: l' =>
      let* _ := segment_check limits epsilon " segment mean velocity exceeds limit" index
                  (time_from_start_ns p - time_from_start_ns previous) (zip expected (point_positions previous)) p in
      segments_check limits epsilon expected p l'
  end.

(** The last loop of the check *)
Definition check_segments (limits : list (string * JointLimit)) (epsilon : float) (expected : list string)
    (current : list (string * float)) (l : list NormalizedPoint) : outcome stop () :=
  match enumerate l with
  | [] => Ok ()
  | (index, p) :: l' =>
      let* _ := if time_from_start_ns p =? 0 then Ok ()
                else segment_check limits epsilon " current-to-first mean velocity exceeds limit" index (time_from_start_ns p) current p in
      segments_check limits epsilon expected p l'
  end.

(** The loops over the normalized points *)
Definition check_points (expected : list string) (limits : list (string * JointLimit)) (p : PreflightPolicy)
    (current : list (string * float)) (l : list NormalizedPoint) : outcome stop () :=
  let epsilon := limit_epsilon p in
  let* _ := unless (first_bad time_negative (enumerate l)) in
  let* _ := unless (time_not_increasing (first_time l) (drop 1 (enumerate l))) in
  let* max_ns := outcome_except Err (_duration_threshold_ns (max_duration_s p)) in
  let* _ := unless (duration_exceeded p max_ns l) in
  let* _ := unless (first_bad (point_outside limits epsilon expected) (enumerate l)) in
  let* _ := unless (match l with [] => None | first :: _ => first_bad (start_differs p first) (enumerate current) end) in
  check_segments limits epsilon expected current l.

(** [preflight_trajectory] up to its acceptance *)
Definition preflight_points (traj current : pyval) (expected : list string) (limits : list (string * JointLimit))
    (p : PreflightPolicy) : outcome stop (list NormalizedPoint) :=
  let* _ := check_names traj expected in
  let* current := check_current current expected in
  let* _ := unless (first_bad (current_outside limits (limit_epsilon p)) current) in
  let* l := read_points traj (length expected) in
  let* _ := check_points expected limits p current l in
  Ok l.

(** [preflight_trajectory] *)
Definition preflight_trajectory (traj current : pyval) (c : PreflightContext) : outcome error (Violation + AcceptedTrajectory) :=
  let* validated := _validated_context c in
  let '(expected, limits, p) := validated in
  match preflight_points traj current expected limits p with
  | Ok l => Ok (inr (_accept {| trajectory_joint_names := expected; points := l |} c))
  | Raise (Bad v) => Ok (inl v)
  | Raise (Err e) => Raise e
  end.

(** [check_trajectory] with limits given; the policy is what
    [load_preflight_policy] returns *)
Definition check_trajectory (loaded : PreflightPolicy) (traj current : pyval) (limits : list (string * JointLimit)) (epsilon : pyval)
    : outcome error (option Violation) :=
  let refused := value_error "limit_epsilon must be finite and non-negative" in
  let* epsilon := or_raise (finite_number epsilon) refused in
  ensure negb (float_lt epsilon float_zero) else refused in
  let p := {| version := version loaded; limit_epsilon := epsilon; max_duration_s := max_duration_s loaded;
              max_start_state_delta_rad := max_start_state_delta_rad loaded |} in
  let* c := build_preflight_context (PolicyValue p) limits.*1 limits [] in
  let* r := preflight_trajectory traj current c in
  Ok (match r with inl v => Some v | inr _ => None end).
