(* ===== verification/JointLimitsTheorems.v ===== *)
(** * Motion control: what the preflight check accepts

    The loops of [preflight_trajectory] against a declarative description of a
    trajectory within limits. *)

From Stdlib Require Import ZArith Ascii String SpecFloat Sorted.
From S2P Require Import Prelude PyVal Json PyText PyFloat MotionTypes JointLimits.
Local Open Scope Z_scope.

(** ** The description *)

(** The positions, speeds and efforts of one point *)
Definition point_within (limits : list (string * JointLimit)) (epsilon : float) (expected : list string) (p : NormalizedPoint) : Prop :=
  ∀ offset joint, expected !! offset = Some joint →
    let l := limit_at limits joint in
    (float_lt (item (point_positions p) offset) (low l epsilon) = false ∧
     float_lt (high l epsilon) (item (point_positions p) offset) = false) ∧
    (point_velocities p ≠ [] → float_lt (top_speed l epsilon) (float_abs (item (point_velocities p) offset)) = false) ∧
    (effort p ≠ [] → float_lt (top_effort l epsilon) (float_abs (item (effort p) offset)) = false).

(** The mean speed of every joint from [starts] to the point, [dt] nanoseconds later *)
Definition slow_enough (limits : list (string * JointLimit)) (epsilon : float) (dt : Z) (starts : list (string * float))
    (p : NormalizedPoint) : Prop :=
  ∀ offset joint start, starts !! offset = Some (joint, start) →
    ∃ t, float_of_int dt = Some t ∧
      float_lt (top_speed (limit_at limits joint) epsilon)
        (float_div (float_mul (float_abs (float_sub (item (point_positions p) offset) start)) billion) t) = false.

(** The first point is where the joints are: within the margin when the motion
    starts at once, else within the allowed distance *)
Definition starts_near (p : PreflightPolicy) (current : list (string * float)) (first : NormalizedPoint) : Prop :=
  ∀ offset joint x, current !! offset = Some (joint, x) →
    let delta := float_abs (float_sub (item (point_positions first) offset) x) in
    if time_from_start_ns first =? 0 then float_lt (limit_epsilon p) delta = false
    else float_lt (max_start_state_delta_rad p) delta = false.

Record within_limits (expected : list string) (limits : list (string * JointLimit)) (p : PreflightPolicy)
    (current : list (string * float)) (first : NormalizedPoint) (rest : list NormalizedPoint) : Prop := {
  wl_start : 0 ≤ time_from_start_ns first;
  wl_increasing : Sorted (λ a b, time_from_start_ns a < time_from_start_ns b) (first :: rest);
  wl_duration : ∃ max_ns, decimal_nanoseconds (max_duration_s p) = Some max_ns ∧ final_time (first :: rest) ≤ max_ns;
  wl_points : Forall (point_within limits (limit_epsilon p) expected) (first :: rest);
  wl_near : starts_near p current first;
  wl_first : time_from_start_ns first ≠ 0 → slow_enough limits (limit_epsilon p) (time_from_start_ns first) current first;
  wl_segments : ∀ i a b, (first :: rest) !! i = Some a → rest !! i = Some b →
    slow_enough limits (limit_epsilon p) (time_from_start_ns b - time_from_start_ns a) (zip expected (point_positions a)) b
}.

(** ** Loops *)

Lemma unless_Ok o x : unless o = Ok x ↔ o = None.
Proof. destruct o, x; simpl; split; congruence. Qed.

Lemma first_bad_None {A} (f : A → option Violation) l : first_bad f l = None ↔ Forall (λ x, f x = None) l.
Proof.
  induction l as [|x l IH]; simpl; [split; [constructor|done]|].
  rewrite Forall_cons, <-IH. destruct (f x); split; [done|by intros [[=] _]|by split|by intros [_ ?]].
Qed.

Lemma lookup_enumerate {A} (l : list A) i x : enumerate l !! i = Some x ↔ ∃ y, l !! i = Some y ∧ x = (i, y).
Proof.
  unfold enumerate. rewrite lookup_zip_with_Some. split.
  - intros (k & y & -> & Hk & Hy). apply lookup_seq in Hk as [-> _]. eauto.
  - intros (y & Hy & ->). exists i, y. split; [done|]. split; [|done].
    apply lookup_seq. split; [lia|]. by apply lookup_lt_Some in Hy.
Qed.

Lemma Forall_enumerate {A} (P : nat * A → Prop) l : Forall P (enumerate l) ↔ ∀ i x, l !! i = Some x → P (i, x).
Proof.
  rewrite Forall_lookup. setoid_rewrite lookup_enumerate. split.
  - intros H i x Hx. eapply H. eauto.
  - intros H i x (y & Hy & ->). eauto.
Qed.

Lemma Forall_enumerate_snd {A} (P : A → Prop) l : Forall (λ ix, P ix.2) (enumerate l) ↔ Forall P l.
Proof. rewrite Forall_enumerate, Forall_lookup. done. Qed.

Lemma enumerate_cons_snd {A} (x : A) l : enumerate (x :: l) = (0%nat, x) :: zip (seq 1 (length l)) l.
Proof. done. Qed.

Lemma time_negative_None ip : time_negative ip = None ↔ 0 ≤ time_from_start_ns ip.2.
Proof. unfold time_negative. case_match eqn:H; [|split; [lia|done]]. split; [done|lia]. Qed.

Lemma time_not_increasing_None first n l :
  time_not_increasing (time_from_start_ns first) (zip (seq n (length l)) l) = None ↔
  Sorted (λ a b, time_from_start_ns a < time_from_start_ns b) (first :: l).
Proof.
  revert first n. induction l as [|p l IH]; intros first n; simpl; [split; [by repeat constructor|done]|].
  case_match eqn:H.
  - split; [done|]. intros Hs. apply Sorted_inv in Hs as [_ Hs]. inversion Hs; subst. lia.
  - rewrite IH. split.
    + intros Hs. constructor; [done|]. constructor. lia.
    + intros Hs. by apply Sorted_inv in Hs as [? _].
Qed.

Lemma joint_outside_None limits epsilon index p offset joint :
  joint_outside limits epsilon index p (offset, joint) = None ↔
  let l := limit_at limits joint in
  (float_lt (item (point_positions p) offset) (low l epsilon) = false ∧
   float_lt (high l epsilon) (item (point_positions p) offset) = false) ∧
  (point_velocities p ≠ [] → float_lt (top_speed l epsilon) (float_abs (item (point_velocities p) offset)) = false) ∧
  (effort p ≠ [] → float_lt (top_effort l epsilon) (float_abs (item (effort p) offset)) = false).
Proof.
  unfold joint_outside, outside. cbv zeta.
  destruct (float_lt (item (point_positions p) offset) _), (float_lt (high _ _) _); simpl; try (split; [done|naive_solver]).
  do 2 (case_bool_decide; simpl); repeat (destruct (float_lt _ (float_abs _)); simpl); naive_solver.
Qed.

Lemma point_outside_None limits epsilon expected ip :
  point_outside limits epsilon expected ip = None ↔ point_within limits epsilon expected ip.2.
Proof.
  unfold point_outside. rewrite first_bad_None, Forall_enumerate. unfold point_within.
  by setoid_rewrite joint_outside_None.
Qed.

Lemma start_differs_None p current first :
  first_bad (start_differs p first) (enumerate current) = None ↔ starts_near p current first.
Proof.
  rewrite first_bad_None, Forall_enumerate. unfold starts_near, start_differs. split.
  - intros H offset joint x Hx. specialize (H _ _ Hx). simpl in H. repeat case_match; congruence.
  - intros H offset [joint x] Hx. specialize (H _ _ _ Hx). simpl in H. repeat case_match; congruence.
Qed.

Lemma segment_check_Ok limits epsilon msg index dt starts p x :
  segment_check limits epsilon msg index dt starts p = Ok x ↔ slow_enough limits epsilon dt starts p.
Proof.
  unfold segment_check. rewrite outcome_bind_Ok. setoid_rewrite outcome_map_Ok. destruct x. split.
  - intros (l & Hl & _) offset joint start Hs.
    destruct (Forall2_lookup_l _ _ _ offset (offset, (joint, start)) Hl) as (u & _ & Hu); [apply lookup_enumerate; eauto|].
    simpl in Hu. destruct (float_of_int dt) as [t|]; [|done]. exists t. split; [done|]. simpl in Hu.
    apply unless_Ok in Hu. by case_match.
  - intros H. exists (replicate (length (enumerate starts)) ()). split; [|done].
    apply Forall2_same_length_lookup_2; [by rewrite length_replicate|]. intros i [offset [joint start]] u Hx _.
    apply lookup_enumerate in Hx as (y & Hy & [= <- <-]). destruct (H _ _ _ Hy) as (t & Ht & Hlt).
    unfold segment_joint. rewrite Ht. cbn [outcome_bind]. rewrite Hlt. by destruct u.
Qed.

Lemma segments_check_Ok limits epsilon expected previous n l x :
  segments_check limits epsilon expected previous (zip (seq n (length l)) l) = Ok x ↔
  ∀ i a b, (previous :: l) !! i = Some a → l !! i = Some b →
    slow_enough limits epsilon (time_from_start_ns b - time_from_start_ns a) (zip expected (point_positions a)) b.
Proof.
  revert previous n. destruct x. induction l as [|p l IH]; intros previous n; simpl; [done|].
  rewrite outcome_bind_Ok. setoid_rewrite segment_check_Ok. setoid_rewrite IH. split.
  - intros ([] & Hp & H) [|i] a b Ha Hb; [by simplify_eq/=|]. by eapply H.
  - intros H. exists (). split; [by apply (H 0%nat)|]. intros i a b Ha Hb. by apply (H (S i)).
Qed.

Lemma unless_bind {A} o (k : () → outcome stop A) x : outcome_bind (unless o) k = Ok x ↔ o = None ∧ k () = Ok x.
Proof. destruct o; simpl; [split; [done|by intros [[=] _]]|]. by split; [|intros [_ ?]]. Qed.

Lemma duration_exceeded_None p m l : duration_exceeded p m l = None ↔ final_time l ≤ m.
Proof. unfold duration_exceeded. case_match; [split; [done|lia]|]. split; [lia|done]. Qed.

Lemma threshold_bind {A} (f : float) (k : Z → outcome stop A) x :
  outcome_bind (outcome_except Err (_duration_threshold_ns f)) k = Ok x ↔ ∃ m, decimal_nanoseconds f = Some m ∧ k m = Ok x.
Proof.
  unfold _duration_threshold_ns. destruct (decimal_nanoseconds f) as [m|]; simpl; [|split; [done|by intros (? & [=] & _)]].
  split; [eauto|by intros (? & [= <-] & ?)].
Qed.

Lemma first_segment_bind limits epsilon current index p (k : () → outcome stop ()) x :
  outcome_bind (if time_from_start_ns p =? 0 then Ok ()
    else segment_check limits epsilon " current-to-first mean velocity exceeds limit" index (time_from_start_ns p) current p) k = Ok x ↔
  (time_from_start_ns p ≠ 0 → slow_enough limits epsilon (time_from_start_ns p) current p) ∧ k () = Ok x.
Proof.
  destruct (Z.eqb_spec (time_from_start_ns p) 0) as [He|He].
  - simpl. split; [by intros ?|by intros [_ ?]].
  - rewrite outcome_bind_Ok. setoid_rewrite segment_check_Ok. split.
    + intros ([] & ? & ?). by split.
    + intros [? ?]. exists (). by split; [apply H|].
Qed.

(** Later times are not before the first one *)
Lemma times_from_first first l :
  0 ≤ time_from_start_ns first → Sorted (λ a b, time_from_start_ns a < time_from_start_ns b) (first :: l) →
  Forall (λ p, 0 ≤ time_from_start_ns p) (first :: l).
Proof.
  revert first. induction l as [|p l IH]; intros first H Hs; [by repeat constructor|].
  apply Sorted_inv in Hs as [Hs Hr]. inversion Hr; subst. constructor; [done|]. apply IH; [lia|done].
Qed.

Lemma check_points_Ok expected limits p current first rest x :
  check_points expected limits p current (first :: rest) = Ok x ↔ within_limits expected limits p current first rest.
Proof.
  unfold check_points, check_segments. rewrite enumerate_cons_snd. cbn [drop first_time head from_option].
  rewrite !unless_bind. rewrite threshold_bind. do 3 setoid_rewrite unless_bind. rewrite <-enumerate_cons_snd.
  setoid_rewrite first_segment_bind. setoid_rewrite segments_check_Ok.
  setoid_rewrite start_differs_None. setoid_rewrite first_bad_None. rewrite drop_0, time_not_increasing_None.
  setoid_rewrite duration_exceeded_None. setoid_rewrite point_outside_None. setoid_rewrite time_negative_None.
  rewrite (Forall_enumerate_snd (λ p, 0 ≤ time_from_start_ns p)). setoid_rewrite Forall_enumerate_snd. split.
  - intros (H1 & H2 & m & Hm & H3 & H4 & H5 & H6 & H7). inversion H1; subst. constructor; eauto.
  - intros []. split; [by apply times_from_first|]. split; [done|]. destruct wl_duration0 as (m & ? & ?). by exists m.
Qed.

(** ** The whole check *)

(** The names that a raw trajectory gives *)
Definition given_names (traj : pyval) : option (list string) := _array (_field traj "joint_names") ≫= mapM named.

Lemma check_names_Ok traj expected x :
  expected ≠ [] → NoDup expected → check_names traj expected = Ok x ↔ given_names traj = Some expected.
Proof.
  intros Hne Hnd. unfold check_names, given_names. destruct (_array _ ≫= _) as [[|n names]|]; [split; congruence| |split; congruence].
  destruct x. destruct (decide (n :: names = expected)) as [<-|Hd].
  - by rewrite !bool_decide_eq_true_2.
  - split; [|congruence]. repeat (case_bool_decide; simpl); congruence.
Qed.

(** The current positions, when they are exactly those of the joints and finite *)
Definition given_positions (current : pyval) (expected : list string) : option (list (string * float)) :=
  match check_current current expected with Ok l => Some l | Raise _ => None end.

Lemma check_current_keys current expected l : check_current current expected = Ok l → l.*1 = expected.
Proof.
  unfold check_current. destruct current; try done. case_bool_decide as Hk; [|done]. intros Hl%outcome_map_Ok. clear Hk.
  induction Hl as [|joint [j f] expected' l' Hj _ IH]; [done|]. rewrite fmap_cons, IH. f_equal.
  unfold current_item in Hj. repeat case_match; simplify_eq; done.
Qed.

Lemma read_points_nonempty traj n l : read_points traj n = Ok l → ∃ first rest, l = first :: rest.
Proof.
  unfold read_points. destruct (_array _) as [[|x raw]|]; [done| |done]. intros H. run_outcome H.
  apply outcome_map_Ok in H, Hv, Hv0. apply Forall2_length in H, Hv, Hv0. unfold enumerate in *.
  rewrite !length_zip_with, !length_seq in *. simpl in *. destruct l as [|first rest]; [simpl in *; lia|eauto].
Qed.

(** The parts of a successful check *)
Lemma preflight_points_Ok traj current expected limits p l :
  expected ≠ [] → NoDup expected →
  preflight_points traj current expected limits p = Ok l ↔
  given_names traj = Some expected ∧
  ∃ cur first rest, given_positions current expected = Some cur ∧
    Forall (λ jx, outside (limit_at limits jx.1) (limit_epsilon p) jx.2 = false) cur ∧
    read_points traj (length expected) = Ok (first :: rest) ∧ l = first :: rest ∧
    within_limits expected limits p cur first rest.
Proof.
  intros Hne Hnd. unfold preflight_points, given_positions. rewrite outcome_bind_Ok. setoid_rewrite check_names_Ok; [|done..].
  assert (Hout : ∀ cur, first_bad (current_outside limits (limit_epsilon p)) cur = None ↔
                        Forall (λ jx, outside (limit_at limits jx.1) (limit_epsilon p) jx.2 = false) cur).
  { intros cur. rewrite first_bad_None. apply Forall_iff. intros jx. unfold current_outside. case_match; split; congruence. }
  split.
  - intros (? & Hn & H). split; [done|]. apply outcome_bind_Ok in H as (cur & Hc & H). rewrite Hc.
    apply unless_bind in H as [Ho H]. apply outcome_bind_Ok in H as (l' & Hl & H).
    destruct (read_points_nonempty _ _ _ Hl) as (first & rest & ->).
    apply outcome_bind_Ok in H as (? & Hp & [= <-]). apply check_points_Ok in Hp.
    exists cur, first, rest. rewrite <-Hout. by split_and!.
  - intros (Hn & cur & first & rest & Hc & Ho & Hl & -> & Hw). exists (). split; [done|].
    destruct (check_current current expected) as [cur'|]; [|done]. injection Hc as ->. simpl.
    apply unless_bind. rewrite Hout. split; [done|]. rewrite Hl. simpl.
    apply (check_points_Ok _ _ _ _ _ _ ()) in Hw. by rewrite Hw.
Qed.

Lemma validated_context_parts c expected limits p :
  _validated_context c = Ok (expected, limits, p) →
  expected = expected_joint_names c ∧ limits = effective_limits_of c ∧ p = policy c ∧ expected ≠ [] ∧ NoDup expected ∧
  EmptyString ∉ expected ∧ NoDup limits.*1 ∧ (list_to_set limits.*1 : gset string) = list_to_set expected ∧
  (∀ joint, joint ∈ expected → valid_limit limits (limit_epsilon p) joint = Ok ()).
Proof.
  unfold _validated_context. intros H. apply outcome_bind_Ok in H as (p' & Hp & H). apply outcome_except_Ok in Hp.
  assert (p' = policy c) as -> by (unfold _validate_policy in Hp; run_outcome Hp; by simplify_eq).
  apply outcome_except_Ok in H. run_outcome H. unfold _validate_limits in Hv. run_outcome Hv.
  destruct (_context_hashes _ _ _). run_outcome H. simplify_eq.
  apply andb_true_iff in Hb0 as [Hb0 He]. apply bool_decide_eq_true in Hb, Hb0, Hb1, Hb2.
  split_and!; try done; [by intros Hin%str_in_spec; rewrite Hin in He|]. intros joint Hj. apply outcome_map_Ok in Hv0. apply list_elem_of_lookup in Hj as [i Hi].
  destruct (Forall2_lookup_l _ _ _ _ _ Hv0 Hi) as ([] & _ & ?). done.
Qed.

(** The whole check, with the parts of an acceptance *)
Lemma preflight_accepted traj current c expected limits p a :
  _validated_context c = Ok (expected, limits, p) →
  preflight_trajectory traj current c = Ok (inr a) ↔
  given_names traj = Some expected ∧
  ∃ cur first rest, given_positions current expected = Some cur ∧
    Forall (λ jx, outside (limit_at limits jx.1) (limit_epsilon p) jx.2 = false) cur ∧
    read_points traj (length expected) = Ok (first :: rest) ∧
    within_limits expected limits p cur first rest ∧
    a = _accept {| trajectory_joint_names := expected; points := first :: rest |} c.
Proof.
  intros Hc. destruct (validated_context_parts _ _ _ _ Hc) as (_ & _ & _ & Hne & Hnd & _).
  unfold preflight_trajectory. rewrite Hc. simpl.
  pose proof (preflight_points_Ok traj current expected limits p) as Hok.
  destruct (preflight_points traj current expected limits p) as [l|[v|e]].
  - specialize (Hok l Hne Hnd). destruct (proj1 Hok eq_refl) as (Hn & cur & first & rest & ? & ? & Hl & -> & ?). split.
    + intros [= <-]. split; [done|]. exists cur, first, rest. by split_and!.
    + intros (_ & cur' & first' & rest' & _ & _ & Hr & _ & ->). rewrite Hl in Hr. congruence.
  - split; [done|]. intros (Hn & cur & first & rest & ? & ? & ? & ? & _). exfalso.
    enough (Hx : Raise (Bad v) = Ok (first :: rest)) by discriminate Hx.
    apply Hok; [done..|]. split; [done|]. exists cur, first, rest. by split_and!.
  - split; [done|]. intros (Hn & cur & first & rest & ? & ? & ? & ? & _). exfalso.
    enough (Hx : Raise (Err e) = Ok (first :: rest)) by discriminate Hx.
    apply Hok; [done..|]. split; [done|]. exists cur, first, rest. by split_and!.
Qed.

(** C38: With a valid context, a trajectory is accepted if and only if it names the
    expected joints in order; the current positions are given for exactly these
    joints, finite, and within the position limits less the margin; its points can be
    read; and they are within limits: times are not negative and increase up to the
    longest duration, every position, speed and effort is within the limits less the
    margin, the first point is near the current position, and the mean speed of
    every segment, and from the current position to a first point that is not at
    time zero, is within the limits.  What is accepted is the normalized trajectory
    itself. *)
Theorem preflight_accepts_exactly_within_limits traj current c expected limits p a :
  _validated_context c = Ok (expected, limits, p) →
  preflight_trajectory traj current c = Ok (inr a) ↔
  given_names traj = Some expected ∧
  ∃ cur first rest, given_positions current expected = Some cur ∧
    Forall (λ jx, outside (limit_at limits jx.1) (limit_epsilon p) jx.2 = false) cur ∧
    read_points traj (length expected) = Ok (first :: rest) ∧
    within_limits expected limits p cur first rest ∧
    a = _accept {| trajectory_joint_names := expected; points := first :: rest |} c.
Proof. apply preflight_accepted. Qed.

(** ** Contexts *)

Lemma assoc_get_map {V} (f : string → V) l j : j ∈ l → assoc_get j ((λ k, (k, f k)) <$> l) = Some (f j).
Proof.
  induction l as [|k l IH]; [by intros ?%elem_of_nil|]. intros [->|Hj]%elem_of_cons; simpl; [by rewrite decide_True|].
  case_decide; [by subst|by apply IH].
Qed.

Lemma validate_policy_same p p' : _validate_policy p = Ok p' → p' = p.
Proof. unfold _validate_policy. intros H. run_outcome H. congruence. Qed.

Lemma outcome_map_ext {E A B} (f g : A → outcome E B) l : (∀ x, x ∈ l → f x = g x) → outcome_map f l = outcome_map g l.
Proof.
  induction l as [|x l IH]; intros Hl; simpl; [done|]. rewrite Hl by (by left). destruct (g x); simpl; [|done].
  rewrite IH; [done|]. intros y Hy. apply Hl. by right.
Qed.

(** A context that was built is valid when a trajectory is checked against it, and
    stands for the tighter of the given limits *)
Lemma built_context_is_valid source expected hard override c :
  build_preflight_context source expected hard override = Ok c →
  expected_joint_names c = expected ∧
  _validated_context c = Ok (expected, effective_limits_of c, policy c) ∧
  ∃ combined, effective_limits hard override = Ok combined ∧
    ∀ joint, joint ∈ expected → limit_at (effective_limits_of c) joint = limit_at combined joint.
Proof.
  unfold build_preflight_context. intros H. apply outcome_bind_Ok in H as (p & Hp & H). apply outcome_except_Ok in Hp, H.
  run_outcome H. run_outcome Hp. destruct (_context_hashes expected _ p) as [h1 h2] eqn:Hh. injection H as <-. cbn [expected_joint_names effective_limits_of policy].
  pose proof (validate_policy_same _ _ Hp) as Hsame. rewrite <-Hsame in Hp.
  set (ordered := (λ joint, (joint, limit_at v0 joint)) <$> expected) in *.
  assert (Hat : ∀ joint, joint ∈ expected → limit_at ordered joint = limit_at v0 joint).
  { intros joint Hj. unfold limit_at at 1. unfold ordered. by rewrite assoc_get_map. }
  assert (Hkeys : ordered.*1 = expected) by (unfold ordered; rewrite <-list_fmap_compose; apply list_fmap_id).
  split; [done|]. split; [|by exists v0].
  unfold _validated_context. cbn [expected_joint_names effective_limits_of policy effective_limits_sha256 context_sha256].
  rewrite Hp. cbn [outcome_except outcome_bind].
  unfold _validate_limits in Hv1 |- *. run_outcome Hv1. rewrite !Hkeys, Hh.
  rewrite Hb0, (bool_decide_eq_true_2 (list_to_set _ = _)) by done.
  rewrite (outcome_map_ext _ (valid_limit v0 (limit_epsilon p))), Hv3.
  2: { intros joint Hj. unfold valid_limit. by rewrite Hat. }
  cbn [outcome_bind]. by rewrite !String.eqb_refl.
Qed.

(** ** An arm of two joints *)

Definition sample_limit : JointLimit := {|
  min_position := float_of_Z (-2); max_position := float_of_Z 2; max_velocity := float_dec 3 (-1); max_effort := float_of_Z 20 |}.
Definition sample_policy : PreflightPolicy := {|
  version := "1"; limit_epsilon := float_dec 1 (-6); max_duration_s := float_of_Z 30;
  max_start_state_delta_rad := float_dec 5 (-2) |}.
Definition sample_joints : list string := ["j1"; "j2"].
Definition sample_limits : list (string * JointLimit) := (λ j, (j, sample_limit)) <$> sample_joints.
Definition sample_context : PreflightContext :=
  Eval vm_compute in
  match build_preflight_context (PolicyValue sample_policy) sample_joints sample_limits [] with
  | Ok c => c
  | Raise _ => {| expected_joint_names := []; effective_limits_of := []; policy := sample_policy; effective_limits_sha256 := "";
                  context_sha256 := "" |}
  end.

Definition sample_current : pyval := VDict [(VStr "j1", VFloat float_zero); (VStr "j2", VFloat float_zero)].
Definition sample_motion : pyval := VDict
  [(VStr "joint_names", VTuple [VStr "j1"; VStr "j2"]);
   (VStr "points", VList
     [VDict [(VStr "positions", VList [VInt 0; VInt 0]); (VStr "time_from_start", VFloat float_zero)];
      VDict [(VStr "positions", VList [VFloat (float_dec 1 (-1)); VInt 0]); (VStr "time_from_start", VInt 1)]])].

Lemma preflight_accepts_exactly_within_limits_witness :
  given_names sample_motion = Some sample_joints ∧
  ∃ a cur first rest, preflight_trajectory sample_motion sample_current sample_context = Ok (inr a) ∧
    given_positions sample_current sample_joints = Some cur ∧
    within_limits sample_joints sample_limits sample_policy cur first rest ∧
    points (snapshot a) = first :: rest.
Proof.
  assert (Hc : _validated_context sample_context = Ok (sample_joints, sample_limits, sample_policy)) by (vm_compute; reflexivity).
  destruct (preflight_trajectory sample_motion sample_current sample_context) as [[v|a]|e] eqn:Ha;
    [vm_compute in Ha; discriminate Ha| |vm_compute in Ha; discriminate Ha].
  apply (preflight_accepts_exactly_within_limits sample_motion sample_current sample_context sample_joints sample_limits sample_policy a Hc)
    in Ha as Hw.
  destruct Hw as (Hn & cur & first & rest & Hp & _ & _ & Hw & ->). split; [done|].
  eexists _, cur, first, rest. split_and!; done.
Defined.
