(* ===== verification/Quintic.v ===== *)
(** * Motion control: quintic profiles

    [robot/control/workbench_motion/workbench_motion/quintic_trajectory.py]: limits
    of a joint's motion and rest-to-rest profiles that respect them.  Arguments
    have the declared types, with floats for numbers. *)

From Stdlib Require Import ZArith Ascii String SpecFloat.
From S2P Require Import Prelude PyVal Json PyText PyFloat MotionTypes.
Local Open Scope Z_scope.

Record JointMotionLimit := {
  motion_min : float;
  motion_max : float;
  motion_velocity : float;
  motion_acceleration : float;
  motion_jerk : float
}.

Record TrajectorySample := {
  sample_positions : list float;
  sample_velocities : list float;
  sample_accelerations : list float;
  sample_jerks : list float
}.

(** [x / y], which raises on zero *)
Definition checked_div (x y : float) : outcome error float :=
  ensure negb (float_is_zero y) else other_error "float division by zero" in Ok (float_div x y).

(** [_joint_names] of this module *)
Definition profile_names (names : list string) : outcome error (list string) :=
  ensure bool_decide (names ≠ []) && forallb non_blank names else value_error "joint_names must contain non-empty strings" in
  ensure bool_decide (NoDup names) else value_error "joint_names must be unique" in
  Ok names.

(** [_positions] *)
Definition _positions (l : list float) (label : string) (size : nat) : outcome error (list float) :=
  ensure forallb isfinite l else value_error (label +:+ " must be a finite number") in
  ensure (length l =? size)%nat else value_error (label +:+ " must have the same length as joint_names") in
  Ok l.

(** One entry of [_normalized_limits] *)
Definition normalized_limit (limits : list (string * JointMotionLimit)) (joint : string) : outcome error JointMotionLimit :=
  let* l := or_raise (assoc_get joint limits) (other_error joint) in
  ensure forallb isfinite [motion_min l; motion_max l; motion_velocity l; motion_acceleration l; motion_jerk l]
    else value_error (joint +:+ " must be a finite number") in
  ensure negb (float_lt (motion_max l) (motion_min l))
    else value_error (joint +:+ " min_position must not exceed max_position") in
  ensure forallb (λ x, negb (float_le x float_zero)) [motion_velocity l; motion_acceleration l; motion_jerk l]
    else value_error (joint +:+ " motion limits must be positive") in
  Ok l.

(** [_normalized_limits] *)
Definition _normalized_limits (names : list string) (limits : list (string * JointMotionLimit)) : outcome error (list JointMotionLimit) :=
  ensure bool_decide (list_to_set limits.*1 =@{gset string} list_to_set names)
    else value_error "limits must contain exactly the requested joint names" in
  outcome_map (normalized_limit limits) names.

Record QuinticTrajectory := {
  profile_joint_names : list string;
  start_positions : list float;
  target_positions : list float;
  duration_s : float;
  deltas : list float
}.

(** [QuinticTrajectory(...)] *)
Definition make_quintic (names : list string) (start target : list float) (duration : float) : outcome error QuinticTrajectory :=
  let* names := profile_names names in
  let* start := _positions start "start_positions" (length names) in
  let* target := _positions target "target_positions" (length names) in
  ensure isfinite duration else value_error "duration_s must be a finite number" in
  ensure negb (float_lt duration float_zero) else value_error "duration_s must be finite and non-negative" in
  let ds := zip_with (λ s t, float_sub t s) start target in
  ensure forallb isfinite ds else value_error "trajectory position deltas must be finite" in
  ensure negb (float_is_zero duration && existsb (λ d, negb (float_is_zero d)) ds)
    else value_error "zero-duration trajectories require identical positions" in
  Ok {| profile_joint_names := names; start_positions := start; target_positions := target; duration_s := duration; deltas := ds |}.

(** [QuinticTrajectory.sample] *)
Definition sample (t : QuinticTrajectory) (time : float) : outcome error TrajectorySample :=
  ensure isfinite time else value_error "time_s must be a finite number" in
  ensure negb (float_lt time float_zero || float_lt (duration_s t) time)
    else value_error "time_s must be within the closed trajectory interval" in
  if float_is_zero (duration_s t) then
    let zeros := replicate (length (profile_joint_names t)) float_zero in
    Ok {| sample_positions := start_positions t; sample_velocities := zeros; sample_accelerations := zeros; sample_jerks := zeros |}
  else
    let inv := float_div (float_of_Z 1) (duration_s t) in
    ensure isfinite inv else value_error "time scale is too small to sample finite derivatives" in
    let n x := float_of_Z x in
    let s := float_div time (duration_s t) in
    let s2 := float_mul s s in
    let s3 := float_mul s2 s in
    let s4 := float_mul s3 s in
    let s5 := float_mul s4 s in
    let position_scale := float_add (float_sub (float_mul (n 10) s3) (float_mul (n 15) s4)) (float_mul (n 6) s5) in
    let velocity := float_add (float_sub (float_mul (n 30) s2) (float_mul (n 60) s3)) (float_mul (n 30) s4) in
    let acceleration := float_add (float_sub (float_mul (n 60) s) (float_mul (n 180) s2)) (float_mul (n 120) s3) in
    let jerk := float_add (float_sub (n 60) (float_mul (n 360) s)) (float_mul (n 360) s2) in
    let r := {|
      sample_positions := zip_with (λ x d, float_add x (float_mul d position_scale)) (start_positions t) (deltas t);
      sample_velocities := (λ d, float_mul (float_mul d inv) velocity) <$> deltas t;
      sample_accelerations := (λ d, float_mul (float_mul (float_mul d inv) inv) acceleration) <$> deltas t;
      sample_jerks := (λ d, float_mul (float_mul (float_mul (float_mul d inv) inv) inv) jerk) <$> deltas t |} in
    ensure forallb isfinite (sample_positions r ++ sample_velocities r ++ sample_accelerations r ++ sample_jerks r)
      else value_error "trajectory sample must contain finite values" in
    Ok r.

Section Generator.
Context `{Libm}.

(** The durations that the three derivative limits ask for *)
Definition candidate_durations (displacement : float) (l : JointMotionLimit) : outcome error (list float) :=
  let* a := checked_div displacement (motion_velocity l) in
  let root3 := float_sqrt (float_of_Z 3) in
  let* b := checked_div (float_mul (float_sqrt (float_div (float_of_Z 10) root3)) (float_sqrt displacement))
              (float_sqrt (motion_acceleration l)) in
  let* c := checked_div (float_mul (cbrt (float_of_Z 60)) (cbrt displacement)) (cbrt (motion_jerk l)) in
  Ok [float_mul (float_div (float_of_Z 15) (float_of_Z 8)) a; b; c].

(** The loop body over the joints *)
Definition joint_duration (acc : float) (name : string) (start target : float) (l : JointMotionLimit) : outcome error float :=
  ensure float_le (motion_min l) start && float_le start (motion_max l)
    else value_error (name +:+ " start position is outside its explicit limits") in
  ensure float_le (motion_min l) target && float_le target (motion_max l)
    else value_error (name +:+ " target position is outside its explicit limits") in
  let displacement := float_abs (float_sub target start) in
  ensure isfinite displacement else value_error (name +:+ " displacement must be finite") in
  if float_is_zero displacement then Ok acc
  else
    let* candidates := candidate_durations displacement l in
    ensure forallb (λ c, isfinite c && negb (float_le c float_zero)) candidates
      else value_error (name +:+ " trajectory duration must be finite") in
    Ok (foldl float_max acc candidates).

Fixpoint joint_durations (acc : float) (l : list (string * float * float * JointMotionLimit)) : outcome error float :=
  match l with
  | [] => Ok acc
  | (name, start, target, limit) :: l' => let* acc := joint_duration acc name start target limit in joint_durations acc l'
  end.

Definition critical_times : list float :=
  let root3 := float_sqrt (float_of_Z 3) in
  let early := float_div (float_sub (float_of_Z 3) root3) (float_of_Z 6) in
  [float_zero; early; float_dec 5 (-1); float_div (float_add (float_of_Z 3) root3) (float_of_Z 6);
   float_sub (float_of_Z 1) early; float_of_Z 1].

(** The samples at the critical times, none when one cannot be taken *)
Definition critical_samples (t : QuinticTrajectory) (duration : float) : outcome error (list TrajectorySample) :=
  match outcome_map (λ x, sample t (float_mul duration x)) critical_times with
  | Ok l => Ok l
  | Raise e => if is_value_error e then Ok [] else Raise e
  end.

Definition column_within (index : nat) (bound : float) (column : TrajectorySample → list float) (l : list TrajectorySample) : bool :=
  forallb (λ s, float_le (float_abs (nth index (column s) float_zero)) bound) l.

Definition samples_within (limits : list JointMotionLimit) (l : list TrajectorySample) : bool :=
  bool_decide (length l ≠ 0%nat) &&
  forallb (λ '(index, limit),
    column_within index (motion_velocity limit) sample_velocities l &&
    column_within index (motion_acceleration limit) sample_accelerations l &&
    column_within index (motion_jerk limit) sample_jerks l) (zip (seq 0 (length limits)) limits).

(** At most sixteen steps of one unit in the last place *)
Fixpoint lengthen (fuel : nat) (names : list string) (start target : list float) (limits : list JointMotionLimit) (duration : float)
    : outcome error QuinticTrajectory :=
  match fuel with
  | O => Raise (value_error "trajectory duration cannot satisfy explicit limits")
  | S fuel' =>
      let* t := make_quintic names start target duration in
      let* samples := critical_samples t duration in
      if samples_within limits samples then Ok t
      else
        let duration := next_up duration in
        ensure isfinite duration else value_error "trajectory duration must remain finite after rounding" in
        lengthen fuel' names start target limits duration
  end.

(** [quintic_point_to_point] *)
Definition quintic_point_to_point (names : list string) (start target : list float) (limits : list (string * JointMotionLimit))
    : outcome error QuinticTrajectory :=
  let* names := profile_names names in
  let* start := _positions start "start_positions" (length names) in
  let* target := _positions target "target_positions" (length names) in
  let* limits := _normalized_limits names limits in
  let* duration := joint_durations float_zero (zip (zip (zip names start) target) limits) in
  if float_lt float_zero duration then lengthen 16 names start target limits duration
  else
    ensure negb (existsb (λ st, negb (float_eqb st.1 st.2)) (zip start target))
      else value_error "nonzero displacement requires a positive duration" in
    make_quintic names start target duration.

Lemma positions_same l label n l' : _positions l label n = Ok l' → l' = l ∧ length l = n.
Proof. unfold _positions. intros Hl. run_outcome Hl. apply Nat.eqb_eq in Hb0. by simplify_eq. Qed.

(** A profile that was made goes from the start to the target and its samples at
    the critical times are within the limits *)
Lemma lengthen_within fuel names start target limits duration t :
  lengthen fuel names start target limits duration = Ok t →
  start_positions t = start ∧ target_positions t = target ∧
  ∃ samples, critical_samples t (duration_s t) = Ok samples ∧ samples_within limits samples = true.
Proof.
  revert duration. induction fuel as [|fuel IH]; intros duration; [done|]. cbn [lengthen]. intros Ht. run_outcome Ht.
  destruct (samples_within limits v0) eqn:Hw; [|run_outcome Ht; by eapply IH].
  injection Ht as <-. unfold make_quintic in Hv. run_outcome Hv. injection Hv as <-.
  apply positions_same in Hv2 as [-> _], Hv3 as [-> _]. split; [done|]. split; [done|]. by exists v0.
Qed.

End Generator.
