(* ===== verification/MotionSafety.v ===== *)
(** * Motion control: the interpolation gate

    [robot/control/workbench_motion/workbench_motion/motion_safety.py]: policies,
    the check of every quintic interval with its interior extrema, and references
    that start, hold and brake.  [load_motion_config] reads a file and is left
    out. *)

From Stdlib Require Import ZArith Ascii String SpecFloat.
From S2P Require Import Prelude PyVal Json PyText PyFloat MotionTypes JointLimits Quintic.
Local Open Scope Z_scope.

Record MotionPolicy := {
  max_state_age_s : float;
  max_feedback_wall_age_s : float;
  max_command_age_s : float;
  start_position_tolerance_rad : float;
  start_velocity_tolerance_rad_s : float;
  tracking_tolerance_rad : float;
  goal_tolerance_rad : float;
  goal_time_s : float;
  stopped_velocity_rad_s : float;
  stopped_dwell_s : float;
  max_braking_time_s : float;
  collision_resolution_rad : float;
  dispatch_lead_s : float;
  dispatch_margin_s : float
}.

Definition policy_values (p : MotionPolicy) : list float :=
  [max_state_age_s p; max_feedback_wall_age_s p; max_command_age_s p; start_position_tolerance_rad p;
   start_velocity_tolerance_rad_s p; tracking_tolerance_rad p; goal_tolerance_rad p; goal_time_s p; stopped_velocity_rad_s p;
   stopped_dwell_s p; max_braking_time_s p; collision_resolution_rad p; dispatch_lead_s p; dispatch_margin_s p].

(** [MotionPolicy.__post_init__] *)
Definition make_policy (p : MotionPolicy) : outcome error MotionPolicy :=
  ensure forallb (λ x, isfinite x && negb (float_le x float_zero)) (policy_values p) else value_error "must be finite and positive" in
  ensure negb (float_le (dispatch_lead_s p) (dispatch_margin_s p)) else value_error "dispatch margin must be smaller than lead time" in
  Ok p.

(** ** Polynomials on the unit interval *)

(** [_value] *)
Definition _value (coefficients : list float) (t : float) : float :=
  foldr (λ c result, float_add (float_mul result t) c) float_zero coefficients.

(** [_derivative] *)
Definition _derivative (coefficients : list float) : list float :=
  match zip_with (λ i c, float_mul (float_of_Z (Z.of_nat i)) c) (seq 1 (length coefficients - 1)) (drop 1 coefficients) with
  | [] => [float_zero]
  | l => l
  end.

(** Trailing zero coefficients are dropped, but for the last one *)
Fixpoint trim (reversed : list float) : list float :=
  match reversed with
  | c :: ((_ :: _) as l) => if float_is_zero c then trim l else reversed
  | l => l
  end.

Definition opposite (a c : float) : bool :=
  (float_lt a float_zero && float_lt float_zero c) || (float_lt c float_zero && float_lt float_zero a).

Definition midpoint (left right : float) : float := float_div (float_add left right) (float_of_Z 2).

(** The bisection of an interval at whose ends the signs differ *)
Fixpoint bisect (fuel : nat) (coefficients : list float) (left right a : float) : float :=
  match fuel with
  | O => midpoint left right
  | S fuel' =>
      let middle := midpoint left right in
      let c := _value coefficients middle in
      if float_is_zero c then midpoint middle middle
      else if opposite a c then bisect fuel' coefficients left middle a
      else bisect fuel' coefficients middle right c
  end.

(** [sorted(set(l))] for numbers *)
Fixpoint insert_unique (x : float) (l : list float) : list float :=
  match l with
  | [] => [x]
  | y :: l' => if float_eqb x y then l else if float_lt x y then x :: l else y :: insert_unique x l'
  end.
Definition sort_unique (l : list float) : list float := foldl (λ acc x, insert_unique x acc) [] l.

Definition pairwise {A} (l : list A) : list (A * A) := zip l (drop 1 l).

(** [_roots]; a derivative has fewer coefficients *)
Fixpoint roots_fuel (fuel : nat) (coefficients : list float) : list float :=
  match fuel with
  | O => []
  | S fuel' =>
      let coefficients := reverse (trim (reverse coefficients)) in
      if (length coefficients =? 1)%nat then []
      else
        let partitions := [float_zero] ++ roots_fuel fuel' (_derivative coefficients) ++ [float_of_Z 1] in
        sort_unique
          (List.filter (λ t, float_is_zero (_value coefficients t)) partitions ++
           omap (λ lr,
             let a := _value coefficients lr.1 in
             if opposite a (_value coefficients lr.2) then Some (bisect 64 coefficients lr.1 lr.2 a) else None) (pairwise partitions))
  end.
Definition _roots (coefficients : list float) : list float := roots_fuel (length coefficients) coefficients.

Section Gate.
Context `{Libm}.

(** [x ** n], which raises [OverflowError] *)
Definition power (x : float) (n : nat) : outcome error float := or_raise (pow x n) (other_error "Result too large").
(** [n / 1e9] for an integer *)
Definition seconds (ns : Z) : outcome error float :=
  let* f := or_raise (float_of_int ns) (other_error "int too large to convert to float") in Ok (float_div f billion).
(** [math.ceil(x * 1e9)] *)
Definition nanoseconds (x : float) : outcome error Z :=
  or_raise (float_ceil (float_mul x billion)) (other_error "cannot convert float infinity to integer").

(** [l[index]] *)
Definition at_index (l : list float) (index : nat) : outcome error float :=
  or_raise (l !! index) (other_error "tuple index out of range").

(** [_coefficients] *)
Definition _coefficients (start stop : NormalizedPoint) (index : nat) (duration : float) : outcome error (list float) :=
  let* q0 := at_index (point_positions start) index in
  let* q1 := at_index (point_positions stop) index in
  let* v0 := at_index (point_velocities start) index in
  let* v1 := at_index (point_velocities stop) index in
  let* a0 := at_index (point_accelerations start) index in
  let* square := power duration 2 in
  let* a1 := at_index (point_accelerations stop) index in
  let v0 := float_mul v0 duration in
  let v1 := float_mul v1 duration in
  let a0 := float_mul a0 square in
  let a1 := float_mul a1 square in
  let delta := float_sub q1 q0 in
  let n x y := float_mul (float_of_Z x) y in
  let half x := float_mul (float_dec 5 (-1)) x in
  let three_halves x := float_mul (float_dec 15 (-1)) x in
  Ok [q0; v0; float_div a0 (float_of_Z 2);
      float_add (float_sub (float_sub (float_sub (n 10 delta) (n 6 v0)) (n 4 v1)) (three_halves a0)) (half a1);
      float_sub (float_add (float_add (float_add (n (-15) delta) (n 8 v0)) (n 7 v1)) (three_halves a0)) a1;
      float_add (float_sub (float_sub (float_sub (n 6 delta) (n 3 v0)) (n 3 v1)) (half a0)) (half a1)].

(** [validate_limits] *)
Definition within_hard (hard : list (string * JointLimit)) (kv : string * JointMotionLimit) : outcome error () :=
  let '(name, l) := kv in
  let* _ := quintic_point_to_point [name] [motion_min l] [motion_min l] [(name, l)] in
  let* h := or_raise (assoc_get name hard) (other_error name) in
  ensure negb (float_lt (motion_min l) (min_position h) || float_lt (max_position h) (motion_max l) ||
               float_lt (max_velocity h) (motion_velocity l))
    else value_error "motion limits cannot relax effective hardware limits" in
  Ok ().

Definition validate_limits (c : PreflightContext) (limits : list (string * JointMotionLimit)) : outcome error () :=
  ensure bool_decide (list_to_set limits.*1 =@{gset string} list_to_set (expected_joint_names c))
    else value_error "motion limits must exactly match controlled joints" in
  let* _ := outcome_map (within_hard (effective_limits_of c)) limits in
  Ok ().

(** ** The gate *)

(** The durations of ROS messages *)
Definition ros_time (ns : Z) : pyval := VDict [(VStr "sec", VInt (ns / 1000000000)); (VStr "nanosec", VInt (ns mod 1000000000))].

Definition float_list (l : list float) : pyval := VList (VFloat <$> l).

(** [_raw] *)
Definition raw_entry (p : NormalizedPoint) : pyval := VDict
  [(VStr "positions", float_list (point_positions p)); (VStr "velocities", float_list (point_velocities p));
   (VStr "accelerations", float_list (point_accelerations p)); (VStr "effort", float_list (effort p));
   (VStr "time_from_start", ros_time (time_from_start_ns p))].
Definition _raw (l : list NormalizedPoint) (names : list string) : pyval := VDict
  [(VStr "joint_names", VList (VStr <$> names)); (VStr "points", VList (raw_entry <$> l))].

(** What [accept_motion] is called on: raw fields, or a trajectory accepted before *)
Inductive motion : Type := RawMotion (v : pyval) | Accepted (a : AcceptedTrajectory).

(** The values of one derivative at the ends of an interval and at the interior
    extrema *)
Definition extreme_values (coefficients : list float) (duration : float) (derivative : nat) : outcome error (list float) :=
  outcome_map (λ t, let* d := power duration derivative in checked_div (_value coefficients t) d)
    ([float_zero] ++ _roots (_derivative coefficients) ++ [float_of_Z 1]).

Definition value_outside (low high v : float) : bool := negb (isfinite v) || float_lt v low || float_lt high v.

(** The four derivatives of one joint over one interval *)
Fixpoint check_derivatives (name : string) (duration : float) (coefficients : list float) (derivative : nat)
    (bounds : list (string * float * float)) : outcome error () :=
  match bounds with
  | [] => Ok ()
  | (label, low, high) :: bounds' =>
      let* l := extreme_values coefficients duration derivative in
      ensure negb (existsb (value_outside low high) l) else value_error ("continuous " +:+ label +:+ " limit: " +:+ name) in
      check_derivatives name duration (_derivative coefficients) (S derivative) bounds'
  end.

Definition derivative_bounds (l : JointMotionLimit) : list (string * float * float) :=
  [("position", motion_min l, motion_max l); ("velocity", float_opp (motion_velocity l), motion_velocity l);
   ("acceleration", float_opp (motion_acceleration l), motion_acceleration l); ("jerk", float_opp (motion_jerk l), motion_jerk l)].

Definition check_joint (limits : list (string * JointMotionLimit)) (start stop : NormalizedPoint) (duration : float)
    (ij : nat * string) : outcome error () :=
  let '(index, name) := ij in
  let* l := or_raise (assoc_get name limits) (other_error name) in
  let* coefficients := _coefficients start stop index duration in
  check_derivatives name duration coefficients 0 (derivative_bounds l).

Definition check_interval (names : list string) (limits : list (string * JointMotionLimit)) (pq : NormalizedPoint * NormalizedPoint)
    : outcome error () :=
  let* duration := seconds (time_from_start_ns pq.2 - time_from_start_ns pq.1) in
  let* _ := outcome_map (check_joint limits pq.1 pq.2 duration) (enumerate names) in
  Ok ().

(** The part of [accept_motion] after the preflight check *)
Definition check_motion (names : list string) (limits : list (string * JointMotionLimit)) (l : list NormalizedPoint) : outcome error () :=
  ensure (2 <=? length l)%nat && (first_time l =? 0) else value_error "motion needs a t=0 anchor and a positive interval" in
  let size := length names in
  ensure forallb (λ p, (length (point_velocities p) =? size)%nat && (length (point_accelerations p) =? size)%nat &&
                       (length (effort p) =? 0)%nat) l
    else value_error "complete velocity/acceleration derivatives and no effort are required" in
  ensure forallb (λ p, forallb float_is_zero (point_velocities p ++ point_accelerations p)) (drop (length l - 1) l)
    else value_error "M1 trajectories must end at rest" in
  let* _ := outcome_map (check_interval names limits) (pairwise l) in
  Ok ().

(** The evidence of a trajectory that was accepted before *)
Definition same_evidence (original accepted : AcceptedTrajectory) : bool :=
  bool_decide (canonical_bytes original = canonical_bytes accepted) &&
  String.eqb (trajectory_sha256 original) (trajectory_sha256 accepted) &&
  String.eqb (accepted_context_sha256 original) (accepted_context_sha256 accepted).

(** [accept_motion] *)
Definition accept_motion (m : motion) (s : RobotState) (c : PreflightContext) (limits : list (string * JointMotionLimit))
    : outcome error AcceptedTrajectory :=
  let* _ := validate_limits c limits in
  let raw := match m with
             | RawMotion v => v
             | Accepted a => _raw (points (snapshot a)) (trajectory_joint_names (snapshot a))
             end in
  let* r := preflight_trajectory raw (position_by_joint s) c in
  match r with
  | inl v => Raise (value_error (value (kind v) +:+ ": " +:+ message v))
  | inr accepted =>
      ensure match m with RawMotion _ => true | Accepted a => same_evidence a accepted end
        else value_error "accepted trajectory evidence changed" in
      let* _ := check_motion (joint_names s) limits (points (snapshot accepted)) in
      Ok accepted
  end.

(** ** References *)

(** [_point] *)
Definition _point (q v a : list float) (ns : Z) : pyval := VDict
  [(VStr "positions", float_list q); (VStr "velocities", float_list v); (VStr "accelerations", float_list a);
   (VStr "time_from_start", ros_time ns)].

Definition raw_motion (names : list string) (l : list pyval) : motion :=
  RawMotion (VDict [(VStr "joint_names", VTuple (VStr <$> names)); (VStr "points", VList l)]).

(** [point_to_point] *)
Definition point_to_point (s : RobotState) (target : list float) (c : PreflightContext) (limits : list (string * JointMotionLimit))
    : outcome error AcceptedTrajectory :=
  let* _ := validate_limits c limits in
  let* profile := quintic_point_to_point (joint_names s) (positions s) target limits in
  let* ns := nanoseconds (float_mul (duration_s profile) (float_dec 1000001 (-6))) in
  let zero := replicate (length (joint_names s)) float_zero in
  accept_motion (raw_motion (joint_names s) [_point (positions s) zero zero 0; _point target zero zero (Z.max 100000000 ns)]) s c limits.

(** The point at which a brake ends, [duration] after [q], [v], [a] *)
Fixpoint brake_target (duration : float) (q v a : list float) : outcome error (list float) :=
  match q, v, a with
  | [], [], [] => Ok []
  | x :: q', y :: v', z :: a' =>
      let* square := power duration 2 in
      let* rest := brake_target duration q' v' a' in
      Ok (float_add (float_add x (float_div (float_mul y duration) (float_of_Z 2))) (float_div (float_mul z square) (float_of_Z 12)) :: rest)
  | _, _, _ => Raise (value_error "zip() argument differs in length")
  end.

(** One candidate of [_brake_candidates]: its points *)
Definition brake_candidate (q v a : list float) (offset_ns ns : Z) (duration : float) : outcome error (list pyval) :=
  let zero := replicate (length q) float_zero in
  let* target := brake_target duration q v a in
  Ok [_point q v a offset_ns; _point target zero zero (offset_ns + ns)].

(** The search over [_brake_candidates] for one that [attempt] accepts; a
    candidate that raises [ValueError] is passed over.  [None]: out of fuel. *)
Fixpoint brake_search {A} (fuel : nat) (limit duration : float) (candidate : Z → float → outcome error (list pyval))
    (attempt : list pyval → outcome error A) : option (outcome error A) :=
  if float_le duration limit then
    match fuel with
    | O => None
    | S fuel' =>
        match nanoseconds duration with
        | Raise e => Some (Raise e)
        | Ok ns =>
            match seconds ns with
            | Raise e => Some (Raise e)
            | Ok duration =>
                match candidate ns duration with
                | Raise e => Some (Raise e)
                | Ok l =>
                    match attempt l with
                    | Ok a => Some (Ok a)
                    | Raise e =>
                        if is_value_error e then
                          brake_search fuel' limit (float_mul duration (float_dec 125 (-2))) candidate attempt
                        else Some (Raise e)
                    end
                end
            end
        end
    end
  else Some (Raise (value_error "no feasible bounded braking trajectory")).

(** The durations grow by a quarter from 0.05 s and leave the range of a float
    within this many steps *)
Definition brake_fuel : nat := 3300.

Definition brake {A} (limit : float) (candidate : Z → float → outcome error (list pyval)) (attempt : list pyval → outcome error A)
    : outcome error A :=
  default (Raise (other_error "unreachable")) (brake_search brake_fuel limit (float_dec 5 (-2)) candidate attempt).

(** [braking_trajectory] *)
Definition braking_trajectory (s : RobotState) (c : PreflightContext) (limits : list (string * JointMotionLimit)) (p : MotionPolicy)
    : outcome error AcceptedTrajectory :=
  match accelerations s with
  | None => Raise (value_error "braking requires an observed acceleration estimate")
  | Some a =>
      brake (max_braking_time_s p) (brake_candidate (positions s) (velocities s) a 0)
        (λ l, accept_motion (raw_motion (joint_names s) l) s c limits)
  end.

Definition shift (ns : Z) (p : NormalizedPoint) : NormalizedPoint := {|
  point_positions := point_positions p; point_velocities := point_velocities p; point_accelerations := point_accelerations p;
  effort := effort p; time_from_start_ns := time_from_start_ns p + ns |}.

(** The first point; an accepted trajectory has one *)
Definition first_point (a : AcceptedTrajectory) : outcome error NormalizedPoint :=
  or_raise (head (points (snapshot a))) (other_error "tuple index out of range").
Definition last_point (a : AcceptedTrajectory) : outcome error NormalizedPoint :=
  or_raise (last (points (snapshot a))) (other_error "tuple index out of range").

(** [with_start_hold] *)
Definition with_start_hold (a : AcceptedTrajectory) (s : RobotState) (c : PreflightContext) (limits : list (string * JointMotionLimit))
    (lead_s : float) : outcome error AcceptedTrajectory :=
  ensure isfinite lead_s && negb (float_le lead_s float_zero) else value_error "lead time must be finite and positive" in
  let* first := first_point a in
  ensure forallb float_is_zero (point_velocities first ++ point_accelerations first) else value_error "scheduled motion must start at rest" in
  let* ns := nanoseconds lead_s in
  accept_motion (RawMotion (_raw (first :: (shift ns <$> points (snapshot a))) (trajectory_joint_names (snapshot a)))) s c limits.

(** The four columns of a sample *)
Definition sample_derivative (t duration : float) (derivative : nat) (coefficients : list float) : outcome error float :=
  let* d := power duration derivative in checked_div (_value coefficients t) d.

Definition sample_joint (t duration : float) (start stop : NormalizedPoint) (index : nat) : outcome error (float * float * float * float) :=
  let* c := _coefficients start stop index duration in
  let* q := sample_derivative t duration 0 c in
  let* v := sample_derivative t duration 1 (_derivative c) in
  let* a := sample_derivative t duration 2 (_derivative (_derivative c)) in
  let* j := sample_derivative t duration 3 (_derivative (_derivative (_derivative c))) in
  Ok (q, v, a, j).

Fixpoint sample_intervals (time_s : float) (l : list (NormalizedPoint * NormalizedPoint)) : outcome error TrajectorySample :=
  match l with
  | [] => Raise (value_error "trajectory has no sampleable interval")
  | (start, stop) :: l' =>
      let* stop_s := seconds (time_from_start_ns stop) in
      if float_le time_s stop_s then
        let* duration := seconds (time_from_start_ns stop - time_from_start_ns start) in
        let* start_s := seconds (time_from_start_ns start) in
        let* t := checked_div (float_sub time_s start_s) duration in
        let* rows := outcome_map (sample_joint t duration start stop) (seq 0 (length (point_positions start))) in
        Ok {| sample_positions := (λ r, r.1.1.1) <$> rows; sample_velocities := (λ r, r.1.1.2) <$> rows;
              sample_accelerations := (λ r, r.1.2) <$> rows; sample_jerks := (λ r, r.2) <$> rows |}
      else sample_intervals time_s l'
  end.

(** [sample_trajectory] *)
Definition sample_trajectory (a : AcceptedTrajectory) (time_s : float) : outcome error TrajectorySample :=
  ensure isfinite time_s && negb (float_lt time_s float_zero) else value_error "sample time must be finite and nonnegative" in
  let* stop := last_point a in
  let* stop_s := seconds (time_from_start_ns stop) in
  if float_lt stop_s time_s then
    Ok {| sample_positions := point_positions stop; sample_velocities := point_velocities stop;
          sample_accelerations := point_accelerations stop;
          sample_jerks := replicate (length (point_positions stop)) float_zero |}
  else sample_intervals time_s (pairwise (points (snapshot a))).

(** [splice_braking_trajectory] *)
Definition splice_braking_trajectory (active : AcceptedTrajectory) (splice_s : float) (s : RobotState) (c : PreflightContext)
    (limits : list (string * JointMotionLimit)) (p : MotionPolicy) : outcome error AcceptedTrajectory :=
  ensure isfinite splice_s && negb (float_le splice_s float_zero) else value_error "splice time must be finite and positive" in
  let* ns := nanoseconds splice_s in
  let* at_s := seconds ns in
  let* reference := sample_trajectory active at_s in
  let prefix := List.filter (λ q, time_from_start_ns q <? ns) (points (snapshot active)) in
  let* first := first_point active in
  let* anchor := with_positions s (point_positions first) in
  brake (max_braking_time_s p)
    (brake_candidate (sample_positions reference) (sample_velocities reference) (sample_accelerations reference) ns)
    (λ tail, accept_motion (raw_motion (trajectory_joint_names (snapshot active)) ((raw_entry <$> prefix) ++ tail)) anchor c limits).

End Gate.
