(* ===== verification/InterpolationSpec.v ===== *)
(** * Motion control: what a quintic interval and its extrema are

    A specification of the interpolation that does not use the gate's own routines:
    the quintic through two points, over any arithmetic, with its exact boundary
    conditions over the rationals; values and derivatives of polynomials; where a
    polynomial changes its sign, found by 64 halvings between the critical points;
    and being within bounds at the ends and extrema.  The routines of
    [motion_safety.py] are shown to compute these on floats. *)

From Stdlib Require Import ZArith Ascii String SpecFloat QArith.
From S2P Require Import Prelude PyVal Json PyText PyFloat MotionTypes JointLimits Quintic MotionSafety.
Local Open Scope Z_scope.

(** ** Polynomials over an arithmetic *)

Record arithmetic (A : Type) := {
  plus : A → A → A;
  minus : A → A → A;
  times : A → A → A;
  over : A → A → A;
  (** [n * 10^k], for a [k] that is not positive *)
  number : Z → Z → A
}.
Arguments plus {A} _ _ _.
Arguments minus {A} _ _ _.
Arguments times {A} _ _ _.
Arguments over {A} _ _ _.
Arguments number {A} _ _ _.

(** Floats, and the exact fractions *)
Definition floats : arithmetic float := {|
  plus := float_add; minus := float_sub; times := float_mul; over := float_div;
  number n k := if k =? 0 then float_of_Z n else float_dec n k |}.
Definition fractions : arithmetic Q := {|
  plus := Qplus; minus := Qminus; times := Qmult; over := Qdiv; number n k := (n # Z.to_pos (10 ^ (- k)))%Q |}.

Section Polynomials.
Context {A : Type} (o : arithmetic A).

(** The coefficients start with the constant *)
Fixpoint horner (l : list A) (u : A) : A :=
  match l with [] => number o 0 0 | c :: l' => plus o (times o (horner l' u) u) c end.

Fixpoint derive_from (n : Z) (l : list A) : list A :=
  match l with [] => [] | c :: l' => times o (number o n 0) c :: derive_from (n + 1) l' end.
Definition derive (l : list A) : list A :=
  match l with [] | [_] => [number o 0 0] | _ :: l' => derive_from 1 l' end.

(** The quintic on the unit interval with given values and first and second
    derivatives at its ends *)
Definition hermite (q0 q1 v0 v1 a0 a1 : A) : list A :=
  let int n := number o n 0 in
  let delta := minus o q1 q0 in
  [ q0; v0; over o a0 (int 2);
    plus o (minus o (minus o (minus o (times o (int 10) delta) (times o (int 6) v0)) (times o (int 4) v1))
      (times o (number o 15 (-1)) a0)) (times o (number o 5 (-1)) a1);
    minus o (plus o (plus o (plus o (times o (int (-15)) delta) (times o (int 8) v0)) (times o (int 7) v1))
      (times o (number o 15 (-1)) a0)) a1;
    plus o (minus o (minus o (minus o (times o (int 6) delta) (times o (int 3) v0)) (times o (int 3) v1))
      (times o (number o 5 (-1)) a0)) (times o (number o 5 (-1)) a1) ].

End Polynomials.

(** Over the fractions it meets its six boundary conditions *)
Lemma hermite_interpolates q0 q1 v0 v1 a0 a1 :
  let p := hermite fractions q0 q1 v0 v1 a0 a1 in
  let d := derive fractions in
  let at_ l u := horner fractions l u in
  (at_ p 0 == q0 ∧ at_ (d p) 0 == v0 ∧ at_ (d (d p)) 0 == a0 ∧ at_ p 1 == q1 ∧ at_ (d p) 1 == v1 ∧ at_ (d (d p)) 1 == a1)%Q.
Proof. cbv -[Qplus Qminus Qmult Qdiv Qeq]. split_and!; field; done. Qed.

(** ** Where a polynomial vanishes *)

Definition middle (l r : float) : float := float_div (float_add l r) (float_of_Z 2).

(** Values on the two sides of zero *)
Definition differ (x y : float) : Prop :=
  (float_lt x float_zero = true ∧ float_lt float_zero y = true) ∨ (float_lt y float_zero = true ∧ float_lt float_zero x = true).

(** An interval after some halvings of a given one *)
Inductive halved (l r : float) : nat → float → float → Prop :=
| Whole : halved l r 0 l r
| Lower n l' r' : halved l r n l' r' → halved l r (S n) l' (middle l' r')
| Upper n l' r' : halved l r n l' r' → halved l r (S n) (middle l' r') r'.

(** A place where the sign changes: the middle of an interval after 64 halvings, at
    whose ends the signs still differ; or a midpoint on the way with value zero.  A
    midpoint may also be found at which the value is not a number. *)
Definition located (c : list float) (l r u : float) : Prop :=
  ∃ n l' r', halved l r n l' r' ∧ let m := middle l' r' in
    (n = 64%nat ∧ u = m ∧ differ (horner floats c l') (horner floats c r')) ∨
    ((n < 64)%nat ∧ float_is_zero (horner floats c m) = true ∧ u = middle m m) ∨
    ((n < 64)%nat ∧ is_nan (horner floats c m) = true).

(** Equal as numbers *)
Definition alike (u v : float) : Prop := u = v ∨ float_eqb u v = true.

(** A polynomial without its highest coefficients that are zero *)
Definition stripped (c c' : list float) : Prop :=
  ∃ zeros, c = c' ++ zeros ∧ Forall (λ x, float_is_zero x = true) zeros ∧
    (length c' = 1%nat ∨ ∃ x, last c' = Some x ∧ float_is_zero x = false).

(** The points of the unit interval at which a polynomial is looked at *)
Definition marks (critical : list float) : list float := [float_zero] ++ critical ++ [float_of_Z 1].

(** A list with the zeros of a polynomial on the unit interval: those among the ends
    and the critical points, and one between any two neighbours of these where the
    signs differ *)
Inductive zeros_in : list float → list float → Prop :=
| Constant c c' : stripped c c' → length c' = 1%nat → zeros_in c []
| Isolated c c' critical found :
    stripped c c' → (2 ≤ length c')%nat → zeros_in (derive floats c') critical →
    (∀ u, u ∈ marks critical → float_is_zero (horner floats c' u) = true → ∃ v, v ∈ found ∧ alike u v) →
    (∀ i l r, marks critical !! i = Some l → marks critical !! S i = Some r → differ (horner floats c' l) (horner floats c' r) →
      ∃ u v, located c' l r u ∧ v ∈ found ∧ alike u v) →
    zeros_in c found.

(** ** Bounds *)

Definition bounded (low high v : float) : Prop := isfinite v = true ∧ float_lt v low = false ∧ float_lt high v = false.

(** ** The routines of the gate *)

Lemma value_horner c u : _value c u = horner floats c u.
Proof. induction c as [|x c IH]; [done|]. simpl. by rewrite <-IH. Qed.

Lemma derive_from_zip n l :
  zip_with (λ i c, float_mul (float_of_Z (Z.of_nat i)) c) (seq n (length l)) l = derive_from floats (Z.of_nat n) l.
Proof.
  revert n. induction l as [|c l IH]; intros n; [done|]. simpl. f_equal. rewrite IH. f_equal. lia.
Qed.

Lemma derive_from_length n l : length (derive_from floats n l) = length l.
Proof. revert n. induction l as [|c l IH]; intros n; [done|]. simpl. by rewrite IH. Qed.

Lemma derivative_derive c : _derivative c = derive floats c.
Proof.
  destruct c as [|x [|y c]]; [done..|]. unfold _derivative. change (length (x :: y :: c) - 1)%nat with (length (y :: c)).
  change (drop 1 (x :: y :: c)) with (y :: c). by rewrite (derive_from_zip 1).
Qed.

Lemma opposite_differ a c : opposite a c = true ↔ differ a c.
Proof. unfold opposite, differ. by rewrite orb_true_iff, !andb_true_iff. Qed.

(** Values that are numbers and not zero are on one of the two sides *)
Lemma sides x : float_is_zero x = false → is_nan x = false → float_lt x float_zero = true ∨ float_lt float_zero x = true.
Proof. destruct x as [|[]| |[] m e]; try done; auto. Qed.
Lemma one_side x : float_lt x float_zero = true → float_lt float_zero x = false.
Proof. by destruct x as [|[]| |[] m e]. Qed.

(** The sign of a value on the side of [a] differs where that of [a] does *)
Lemma same_side a b c : differ a b → opposite a c = false → float_is_zero c = false → is_nan c = false → differ c b.
Proof.
  intros Hab Hac Hz Hn. apply not_true_iff_false in Hac. rewrite opposite_differ in Hac. unfold differ in *.
  destruct (sides c Hz Hn); destruct Hab as [[]|[]]; tauto.
Qed.

Lemma bisect_located c l0 r0 k n l r :
  (k + n)%nat = 64%nat → halved l0 r0 k l r → differ (_value c l) (_value c r) → located c l0 r0 (bisect n c l r (_value c l)).
Proof.
  revert k l r. induction n as [|n IH]; intros k l r Hk Hh Hd; cbn [bisect]; cbv zeta.
  - exists k, l, r. split; [done|]. left. rewrite <-!value_horner. split_and!; [lia|done..].
  - change (midpoint l r) with (middle l r). destruct (float_is_zero (_value c (middle l r))) eqn:Hz.
    { exists k, l, r. split; [done|]. right. left. rewrite <-value_horner. split_and!; [lia|done..]. }
    destruct (is_nan (_value c (middle l r))) eqn:Hn.
    { exists k, l, r. split; [done|]. right. right. rewrite <-value_horner. split; [lia|done]. }
    destruct (opposite _ _) eqn:Ho.
    + apply (IH (S k)); [lia|by constructor|by apply opposite_differ].
    + apply (IH (S k)); [lia|by constructor|by eapply same_side].
Qed.

(** *** Sorting *)

Lemma alike_refl u : alike u u.
Proof. by left. Qed.

Lemma insert_unique_keeps x y l : y ∈ l → y ∈ insert_unique x l.
Proof.
  induction l as [|z l IH]; [by intros ?%elem_of_nil|]. simpl. case_match; [done|]. case_match; [by right|].
  intros [->|Hy]%elem_of_cons; [left|right; by apply IH].
Qed.
Lemma insert_unique_adds x l : ∃ v, v ∈ insert_unique x l ∧ alike x v.
Proof.
  induction l as [|z l IH]; [exists x; split; [left|apply alike_refl]|]. simpl. destruct (float_eqb x z) eqn:He.
  { exists z. split; [left|by right]. }
  case_match; [exists x; split; [left|apply alike_refl]|]. destruct IH as (v & Hv & Ha). exists v. split; [by right|done].
Qed.

Lemma sort_unique_has u l : u ∈ l → ∃ v, v ∈ sort_unique l ∧ alike u v.
Proof.
  unfold sort_unique. generalize (@nil float). induction l as [|x l IH]; intros acc; [by intros ?%elem_of_nil|].
  intros [->|Hu]%elem_of_cons; [|by apply IH]. simpl. destruct (insert_unique_adds x acc) as (v & Hv & Ha).
  exists v. split; [|done]. clear IH Ha. revert Hv. generalize (insert_unique x acc). induction l as [|y l IH]; intros acc' Hv; [done|].
  simpl. by apply IH, insert_unique_keeps.
Qed.

(** *** The search for roots *)

Lemma lookup_pairwise {A} (l : list A) i p q : l !! i = Some p → l !! S i = Some q → pairwise l !! i = Some (p, q).
Proof.
  intros Hp Hq. unfold pairwise. apply lookup_zip_with_Some. exists p, q. split; [done|]. split; [done|].
  by rewrite lookup_drop.
Qed.

Lemma trim_strips l : l ≠ [] → ∃ zeros, l = zeros ++ trim l ∧ Forall (λ x, float_is_zero x = true) zeros ∧
  (length (trim l) = 1%nat ∨ ∃ x, head (trim l) = Some x ∧ float_is_zero x = false).
Proof.
  induction l as [|x [|y l] IH]; intros Hl; [done|by exists []; split_and!; [..|left]|]. cbn [trim]. destruct (float_is_zero x) eqn:Hx.
  - destruct IH as (zeros & Hz & Hf & Ht); [done|]. exists (x :: zeros). split; [cbn [app]; by f_equal|]. split; [by constructor|done].
  - exists []. split_and!; [done..|]. right. by exists x.
Qed.

Lemma trim_stripped c : c ≠ [] → stripped c (reverse (trim (reverse c))).
Proof.
  intros Hc. destruct (trim_strips (reverse c)) as (zeros & Hz & Hf & Ht); [by intros ?%(f_equal reverse); rewrite reverse_involutive in *|].
  exists (reverse zeros). split_and!.
  - apply (f_equal reverse) in Hz. by rewrite reverse_involutive, reverse_app in Hz.
  - by apply Forall_reverse.
  - rewrite length_reverse, last_reverse. done.
Qed.

Section Bounds.
Context `{Libm}.

(** The [k]-th derivative [l] of a quintic over an interval of the given duration is
    bounded at the start, at the end, and at the extrema *)
Definition bounded_over (duration : float) (k : nat) (l : list float) (low high : float) : Prop :=
  ∃ scale extrema, pow duration k = Some scale ∧ float_is_zero scale = false ∧ zeros_in (derive floats l) extrema ∧
    ∀ u, u = float_zero ∨ u = float_of_Z 1 ∨ u ∈ extrema → bounded low high (float_div (horner floats l u) scale).

Lemma roots_fuel_zeros n c : c ≠ [] → (length c ≤ n)%nat → zeros_in c (roots_fuel n c).
Proof.
  revert c. induction n as [|n IH]; intros c Hc Hn; [by destruct c; simpl in Hn; [|lia]|]. cbn [roots_fuel].
  pose proof (trim_stripped c Hc) as Hs. revert Hs. generalize (reverse (trim (reverse c))). intros c' Hs.
  destruct (Nat.eqb_spec (length c') 1) as [H1|H1]; [by eapply Constant|].
  assert (Hlen : (2 ≤ length c' ≤ length c)%nat).
  { destruct Hs as (zeros & -> & _ & [Hl|(x & Hx & _)]); [done|]. rewrite length_app. destruct c' as [|? [|]]; simpl in *; [done..|lia]. }
  rewrite derivative_derive. apply (Isolated c c' (roots_fuel n (derive floats c'))); [done|lia|apply IH|..].
  - destruct c' as [|? [|]]; simpl in *; [lia..|done].
  - destruct c' as [|x [|y c']]; simpl in *; [lia..|]. rewrite derive_from_length. simpl. lia.
  - intros u Hu Hz. apply sort_unique_has, elem_of_app. left. rewrite list_elem_of_In. apply filter_In. rewrite <-list_elem_of_In.
    by rewrite value_horner.
  - intros i l r Hl Hr Hd. rewrite <-!value_horner in Hd. destruct (sort_unique_has (bisect 64 c' l r (_value c' l))
      (List.filter (λ t, float_is_zero (_value c' t)) (marks (roots_fuel n (derive floats c'))) ++
       omap (λ lr, if opposite (_value c' lr.1) (_value c' lr.2) then Some (bisect 64 c' lr.1 lr.2 (_value c' lr.1)) else None)
         (pairwise (marks (roots_fuel n (derive floats c')))))) as (v & Hv & Ha).
    + apply elem_of_app. right. apply list_elem_of_omap. exists (l, r). split; [|cbn [fst snd]; rewrite (proj2 (opposite_differ _ _) Hd); reflexivity].
      eapply list_elem_of_lookup_2. by apply lookup_pairwise.
    + exists (bisect 64 c' l r (_value c' l)), v. split; [|split; assumption]. apply (bisect_located c' l r 0); [reflexivity|constructor|assumption].
Qed.

Lemma roots_zeros c : c ≠ [] → zeros_in c (_roots c).
Proof. intros Hc. by apply roots_fuel_zeros. Qed.

(** One joint over the interval between two points: its position, velocity,
    acceleration and jerk are within the motion limits *)
Definition joint_safe (limits : list (string * JointMotionLimit)) (start stop : NormalizedPoint) (index : nat) (name : string) : Prop :=
  ∃ l ns duration square q0 q1 v0 v1 a0 a1,
    assoc_get name limits = Some l ∧
    float_of_int (time_from_start_ns stop - time_from_start_ns start) = Some ns ∧ duration = float_div ns billion ∧
    pow duration 2 = Some square ∧
    point_positions start !! index = Some q0 ∧ point_positions stop !! index = Some q1 ∧
    point_velocities start !! index = Some v0 ∧ point_velocities stop !! index = Some v1 ∧
    point_accelerations start !! index = Some a0 ∧ point_accelerations stop !! index = Some a1 ∧
    let d := derive floats in
    let p := hermite floats q0 q1 (float_mul v0 duration) (float_mul v1 duration) (float_mul a0 square) (float_mul a1 square) in
    bounded_over duration 0 p (motion_min l) (motion_max l) ∧
    bounded_over duration 1 (d p) (float_opp (motion_velocity l)) (motion_velocity l) ∧
    bounded_over duration 2 (d (d p)) (float_opp (motion_acceleration l)) (motion_acceleration l) ∧
    bounded_over duration 3 (d (d (d p))) (float_opp (motion_jerk l)) (motion_jerk l).

End Bounds.
