(* ===== verification/MotionSafetyTheorems.v ===== *)
(** * Motion control: what the interpolation gate accepts

    The searches for roots and for a brake end; an accepted motion is within the
    limits of every derivative at the ends and the extrema of every interval, in the
    sense of [InterpolationSpec], ends at rest, and is accepted again as it stands. *)

From Stdlib Require Import ZArith Ascii String SpecFloat Sorted.
From S2P Require Import Prelude PyVal Json PyText PyFloat MotionTypes JointLimits JointLimitsTheorems Quintic MotionSafety InterpolationSpec.
Local Open Scope Z_scope.

(** ** The search for roots ends *)

Lemma trim_length l : l ≠ [] → (1 <= length (trim l) <= length l)%nat.
Proof.
  induction l as [|c [|c' l] IH]; intros Hl; [done|simpl; lia|]. cbn [trim]. destruct (float_is_zero c); [|simpl; lia].
  specialize (IH ltac:(done)). simpl in *. lia.
Qed.

Lemma derivative_length c : (2 <= length c)%nat → length (_derivative c) = (length c - 1)%nat.
Proof.
  intros Hc. unfold _derivative. destruct (zip_with _ _ _) as [|x l] eqn:Hz.
  - apply (f_equal length) in Hz. rewrite length_zip_with, length_seq, length_drop in Hz. simpl in Hz. lia.
  - rewrite <-Hz, length_zip_with, length_seq, length_drop. lia.
Qed.

(** As much fuel as there are coefficients is enough: more changes nothing *)
Lemma roots_fuel_enough n m c : c ≠ [] → (length c <= n)%nat → (length c <= m)%nat → roots_fuel n c = roots_fuel m c.
Proof.
  revert m c. induction n as [|n IH]; intros m c Hc Hn Hm; [by destruct c; simpl in Hn; [|lia]|].
  destruct m as [|m]; [by destruct c; simpl in Hm; [|lia]|]. cbn [roots_fuel].
  assert (Hlen : (1 <= length (reverse (trim (reverse c))) <= length c)%nat).
  { rewrite length_reverse. destruct (trim_length (reverse c)) as [H1 H2]; [by intros ?%(f_equal reverse); rewrite reverse_involutive in *|].
    rewrite length_reverse in H2. lia. }
  revert Hlen. generalize (reverse (trim (reverse c))). intros c' Hlen. destruct (Nat.eqb_spec (length c') 1) as [|Hne]; [done|].
  rewrite (IH m (_derivative c')); [done|..]; try (rewrite derivative_length by lia; lia).
  intros Hd. apply (f_equal length) in Hd. rewrite derivative_length in Hd by lia. simpl in Hd. lia.
Qed.

(** ** The search of a brake ends *)

(** Whether the durations leave the range of a float within so many steps *)
Fixpoint brake_orbit (fuel : nat) (duration : float) : bool :=
  match fuel with
  | O => false
  | S fuel' =>
      match nanoseconds duration with
      | Raise _ => true
      | Ok ns =>
          match seconds ns with
          | Raise _ => true
          | Ok duration => brake_orbit fuel' (float_mul duration (float_dec 125 (-2)))
          end
      end
  end.

Lemma brake_orbit_ends : brake_orbit brake_fuel (float_dec 5 (-2)) = true.
Proof. vm_compute. reflexivity. Qed.

Lemma brake_search_total {A} fuel limit duration candidate (attempt : list pyval → outcome error A) :
  brake_orbit fuel duration = true → is_Some (brake_search fuel limit duration candidate attempt).
Proof.
  revert duration. induction fuel as [|fuel IH]; intros duration H; [done|]. cbn [brake_search brake_orbit] in *.
  destruct (float_le _ _); [|eauto]. destruct (nanoseconds duration) as [ns|]; [|eauto].
  destruct (seconds ns) as [d|]; [|eauto]. destruct (candidate ns d); [|eauto]. destruct (attempt _); [eauto|].
  destruct (is_value_error e); eauto.
Qed.

(** Whatever the bound of the policy, the search returns or raises, and what it
    returns was accepted for one of its candidates *)
Lemma brake_found {A} limit candidate (attempt : list pyval → outcome error A) a :
  brake limit candidate attempt = Ok a → ∃ l, attempt l = Ok a.
Proof.
  unfold brake. generalize brake_fuel, (float_dec 5 (-2)). intros fuel. induction fuel as [|fuel IH]; intros d; cbn [brake_search].
  { by destruct (float_le d limit). }
  destruct (float_le d limit); [|done]. destruct (nanoseconds d) as [ns|]; [|done]. destruct (seconds ns) as [d'|]; [|done].
  destruct (candidate ns d') as [l|]; [|done]. destruct (attempt l) as [a'|e] eqn:Ha; [intros [= <-]; eauto|].
  destruct (is_value_error e); [apply IH|done].
Qed.

Lemma brake_total {A} limit candidate (attempt : list pyval → outcome error A) :
  ∃ r, brake_search brake_fuel limit (float_dec 5 (-2)) candidate attempt = Some r ∧ brake limit candidate attempt = r.
Proof.
  destruct (brake_search_total brake_fuel limit _ candidate attempt brake_orbit_ends) as [r Hr].
  exists r. unfold brake. by rewrite Hr.
Qed.

(** ** Safe motions *)

Section Safe.
Context `{Libm}.

Record safe_motion (c : PreflightContext) (limits : list (string * JointMotionLimit)) (names : list string)
    (l : list NormalizedPoint) : Prop := {
  sm_size : (2 ≤ length l)%nat;
  sm_anchor : first_time l = 0;
  sm_increasing : Sorted (λ a b, time_from_start_ns a < time_from_start_ns b) l;
  sm_rest : ∃ p, last l = Some p ∧ Forall (λ x, float_is_zero x = true) (point_velocities p ++ point_accelerations p);
  sm_points : Forall (point_within (effective_limits_of c) (limit_epsilon (policy c)) (expected_joint_names c)) l;
  sm_complete : Forall (λ p, length (point_velocities p) = length names ∧ length (point_accelerations p) = length names ∧ effort p = []) l;
  sm_intervals : ∀ i p q, l !! i = Some p → l !! S i = Some q →
    ∀ index name, names !! index = Some name → joint_safe limits p q index name
}.

Lemma outcome_map_elem {E A B} (f : A → outcome E B) l bs i a :
  outcome_map f l = Ok bs → l !! i = Some a → ∃ b, f a = Ok b.
Proof. intros Hm%outcome_map_Ok Hi. destruct (Forall2_lookup_l _ _ _ _ _ Hm Hi) as (b & _ & ?). eauto. Qed.

Lemma in_bounds low high v : value_outside low high v = false → bounded low high v.
Proof.
  unfold value_outside. intros Hv. apply orb_false_iff in Hv as [Hv ?]. apply orb_false_iff in Hv as [Hv ?].
  split_and!; [|done..]. by apply negb_false_iff.
Qed.

(** A step of the check looks at the ends and at all the extrema *)
Lemma check_derivatives_bounded name duration c n label low high bounds x :
  c ≠ [] → check_derivatives name duration c n ((label, low, high) :: bounds) = Ok x →
  bounded_over duration n c low high ∧ check_derivatives name duration (derive floats c) (S n) bounds = Ok x.
Proof.
  intros Hc Hx. cbn [check_derivatives] in Hx. run_outcome Hx. rewrite derivative_derive in Hx. split; [|exact Hx].
  unfold extreme_values in Hv. rewrite derivative_derive in Hv. apply negb_true_iff in Hb.
  assert (Hall : ∀ u, u ∈ [float_zero] ++ _roots (derive floats c) ++ [float_of_Z 1] →
    ∃ scale, pow duration n = Some scale ∧ float_is_zero scale = false ∧ bounded low high (float_div (horner floats c u) scale)).
  { intros u Hu. apply list_elem_of_lookup_1 in Hu as [i Hi]. apply outcome_map_Ok in Hv.
    destruct (Forall2_lookup_l _ _ _ _ _ Hv Hi) as (y & Hy & Hd). unfold power, or_raise, checked_div in Hd.
    destruct (pow duration n) as [scale|]; [|done]. cbn [outcome_bind] in Hd. run_outcome Hd. injection Hd as <-.
    exists scale. split; [done|]. split; [by apply negb_true_iff|]. rewrite <-value_horner. apply in_bounds.
    apply not_true_iff_false. intros Ho. apply not_true_iff_false in Hb. apply Hb, existsb_exists. eexists. split; [|exact Ho].
    apply list_elem_of_In. by eapply list_elem_of_lookup_2. }
  destruct (Hall float_zero) as (scale & Hp & Hz & _); [left|]. exists scale, (_roots (derive floats c)).
  split_and!; [done..|apply roots_zeros; by destruct c as [|? [|]]|]. intros u Hu. destruct (Hall u) as (scale' & Hp' & _ & Hb').
  - rewrite !elem_of_app, !list_elem_of_singleton. tauto.
  - rewrite Hp in Hp'. by injection Hp' as <-.
Qed.

Lemma at_index_Ok l i x : at_index l i = Ok x → l !! i = Some x.
Proof. unfold at_index, or_raise. case_match; [by intros [= <-]|done]. Qed.

Lemma check_joint_safe limits p q duration index name x :
  seconds (time_from_start_ns q - time_from_start_ns p) = Ok duration →
  check_joint limits p q duration (index, name) = Ok x → joint_safe limits p q index name.
Proof.
  intros Hd. unfold check_joint. intros Hx. run_outcome Hx. unfold or_raise in Hv.
  destruct (assoc_get name limits) as [l|] eqn:Hl; [|done]. injection Hv as ->.
  unfold seconds, or_raise in Hd. destruct (float_of_int _) as [ns|] eqn:Hns; [|done]. injection Hd as <-.
  unfold _coefficients in Hv0. run_outcome Hv0. unfold power, or_raise in *.
  destruct (pow (float_div ns billion) 2) as [square|] eqn:Hsq; [|done].
  repeat match goal with E : at_index _ _ = Ok _ |- _ => apply at_index_Ok in E end.
  repeat match goal with E : Ok _ = Ok _ |- _ => injection E as ? end. subst.
  apply check_derivatives_bounded in Hx as [B0 Hx]; [|done]. apply check_derivatives_bounded in Hx as [B1 Hx]; [|done].
  apply check_derivatives_bounded in Hx as [B2 Hx]; [|done]. apply check_derivatives_bounded in Hx as [B3 _]; [|done].
  do 10 eexists. by split_and!.
Qed.

Lemma check_interval_safe names limits p q x :
  check_interval names limits (p, q) = Ok x → ∀ index name, names !! index = Some name → joint_safe limits p q index name.
Proof.
  unfold check_interval. intros Hx index name Hn. run_outcome Hx.
  destruct (outcome_map_elem _ _ _ index (index, name) Hv0) as [? ?]; [apply lookup_enumerate; eauto|].
  by eapply check_joint_safe.
Qed.

Lemma drop_last_elem {A} (l : list A) : l ≠ [] → ∃ p, last l = Some p ∧ drop (length l - 1) l = [p].
Proof.
  intros Hl. destruct l as [|x l] using rev_ind; [done|]. exists x. rewrite last_snoc. split; [done|].
  rewrite length_app. simpl. replace (length l + 1 - 1)%nat with (length l + 0)%nat by lia. by rewrite drop_app_add.
Qed.

Lemma forallb_Forall {A} (f : A → bool) l : forallb f l = true ↔ Forall (λ x, f x = true) l.
Proof. rewrite forallb_forall, Forall_forall. by setoid_rewrite list_elem_of_In. Qed.

Lemma preflight_validates raw current c r :
  preflight_trajectory raw current c = Ok r → ∃ expected lims p, _validated_context c = Ok (expected, lims, p).
Proof. unfold preflight_trajectory. destruct (_validated_context c) as [[[? ?] ?]|]; [eauto|done]. Qed.

(** The parts of an acceptance *)
Lemma accept_motion_Ok m s c limits a :
  accept_motion m s c limits = Ok a ↔
  validate_limits c limits = Ok () ∧
  preflight_trajectory (match m with
    | RawMotion v => v
    | Accepted a => _raw (points (snapshot a)) (trajectory_joint_names (snapshot a)) end) (position_by_joint s) c = Ok (inr a) ∧
  match m with RawMotion _ => true | Accepted b => same_evidence b a end = true ∧
  check_motion (joint_names s) limits (points (snapshot a)) = Ok ().
Proof.
  unfold accept_motion. split.
  - intros Ha. apply outcome_bind_Ok in Ha as ([] & Hv & Ha). apply outcome_bind_Ok in Ha as ([v|b] & Hp & Ha); [done|].
    run_outcome Ha. injection Ha as ->. destruct v. by split_and!.
  - intros (-> & -> & He & Hm). cbn [outcome_bind]. by rewrite He, Hm.
Qed.

Lemma accept_motion_safe m s c limits a :
  accept_motion m s c limits = Ok a → safe_motion c limits (joint_names s) (points (snapshot a)).
Proof.
  intros (_ & Hp & _ & Hm)%accept_motion_Ok.
  destruct (preflight_validates _ _ _ _ Hp) as (expected & lims & p & Hc).
  apply (preflight_accepted _ _ _ _ _ _ _ Hc) in Hp as (_ & cur & first & rest & _ & _ & _ & Hw & ->).
  destruct (validated_context_parts _ _ _ _ Hc) as (-> & -> & -> & _). cbn [_accept snapshot points] in *.
  unfold check_motion in Hm. run_outcome Hm. clear Hm.
  apply andb_true_iff in Hb as [Hsize Hanchor]. apply Nat.leb_le in Hsize. apply Z.eqb_eq in Hanchor.
  destruct (drop_last_elem (first :: rest)) as (z & Hz & Hdrop); [done|]. rewrite Hdrop in Hb1.
  constructor; [done|done|by destruct Hw| |by destruct Hw| |].
  - exists z. split; [done|]. simpl in Hb1. rewrite andb_true_r in Hb1. by apply forallb_Forall.
  - apply forallb_Forall in Hb0. eapply Forall_impl; [exact Hb0|]. intros q Hq. simpl in Hq.
    apply andb_true_iff in Hq as [Hq He]. apply andb_true_iff in Hq as [Hq1 Hq2].
    apply Nat.eqb_eq in Hq1, Hq2, He. split_and!; [done..|]. by destruct (effort q).
  - intros i q r Hq Hr. destruct (outcome_map_elem _ _ _ _ _ Hv (lookup_pairwise _ _ _ _ Hq Hr)) as [u Hu].
    by apply (check_interval_safe _ _ _ _ u).
Qed.

(** C37: Every motion that the gate accepts is safe: it has two points or more, starts
    at time zero and ends at rest with times increasing, every point is within the
    effective limits with complete derivatives, and over every interval each joint is
    [joint_safe]: with the coefficients of the quintic through the two points, the
    position, velocity, acceleration and jerk have finite values within the motion
    limits of the joint at the start, at the end, and at the zeros of their own
    derivative, which are isolated between critical points by 64 halvings. *)
Theorem accepted_motions_are_safe m s c limits a :
  accept_motion m s c limits = Ok a → safe_motion c limits (joint_names s) (points (snapshot a)).
Proof. apply accept_motion_safe. Qed.

(** ** Accepted motions are accepted again *)

(** The arrays of a point that was read: complete or empty, and of finite numbers *)
Definition shaped (n : nat) (p : NormalizedPoint) : Prop :=
  length (point_positions p) = n ∧ (length (point_velocities p) = n ∨ point_velocities p = []) ∧
  (length (point_accelerations p) = n ∨ point_accelerations p = []) ∧ (length (effort p) = n ∨ effort p = []) ∧
  Forall (λ x, isfinite x = true) (point_positions p ++ point_velocities p ++ point_accelerations p ++ effort p).

Lemma numeric_array_finite l i fs : _numeric_array l i = Ok fs → length fs = length l ∧ Forall (λ x, isfinite x = true) fs.
Proof.
  intros Hf%outcome_map_Ok. split; [by rewrite (Forall2_length _ _ _ Hf)|].
  induction Hf as [|v f vs fs Hv]; constructor; [|done]. unfold numeric_item in Hv. repeat case_match; simplify_eq; done.
Qed.

Lemma numeric_array_floats l i : Forall (λ x, isfinite x = true) l → _numeric_array (VFloat <$> l) i = Ok l.
Proof.
  intros Hl. apply outcome_map_Ok. induction Hl as [|x l Hx]; constructor; [|done]. simpl. by rewrite Hx.
Qed.

Lemma array_field_length n i p name optional l :
  array_field n i p name optional = Ok l → length l = n ∨ (optional = true ∧ length l = 0%nat).
Proof.
  unfold array_field. destruct (_array _) as [l'|]; [|done]. destruct (_ || _) eqn:Hl; [|done]. intros [= <-].
  apply orb_true_iff in Hl as [Hl|Hl]; [left; by apply Nat.eqb_eq|]. apply andb_true_iff in Hl as [? ?%Nat.eqb_eq]. by right.
Qed.

Lemma array_field_list n i kvs name optional l :
  dict_get name kvs = Some (float_list l) → length l = n ∨ (optional = true ∧ l = []) →
  array_field n i (VDict kvs) name optional = Ok (VFloat <$> l).
Proof.
  intros Hg Hl. unfold array_field, _field. rewrite Hg. simpl. rewrite length_fmap.
  destruct Hl as [<-|[-> ->]]; [by rewrite Nat.eqb_refl|by destruct n].
Qed.

(** A loop over an enumeration *)
Lemma outcome_map_enumerate {E A B} (f : nat * A → outcome E B) l bs :
  outcome_map f (enumerate l) = Ok bs ↔ length bs = length l ∧ ∀ i a b, l !! i = Some a → bs !! i = Some b → f (i, a) = Ok b.
Proof.
  rewrite outcome_map_Ok. split.
  - intros Hf. split.
    + rewrite <-(Forall2_length _ _ _ Hf). unfold enumerate. rewrite length_zip_with, length_seq. lia.
    + intros i a b Ha Hb. apply (Forall2_lookup_lr _ _ _ i (i, a) b Hf); [apply lookup_enumerate; eauto|done].
  - intros [Hlen Hf]. apply Forall2_same_length_lookup_2.
    + rewrite Hlen. unfold enumerate. rewrite length_zip_with, length_seq. lia.
    + intros i x b Hx Hb. apply lookup_enumerate in Hx as (a & Ha & ->). eauto.
Qed.

Lemma lookup_same_length {A B} (l : list A) (k : list B) i b : length k = length l → k !! i = Some b → ∃ a, l !! i = Some a.
Proof. intros Hl Hb. apply lookup_lt_is_Some_2. rewrite <-Hl. by apply lookup_lt_Some in Hb. Qed.

Lemma read_points_shaped traj n l : read_points traj n = Ok l → Forall (shaped n) l.
Proof.
  unfold read_points. destruct (_array _) as [[|x raw]|]; [done| |done]. intros Hl. run_outcome Hl.
  apply outcome_map_enumerate in Hv as [Hn0 Harr], Hv0 as [Hn1 Hnum], Hl as [Hn2 Hpt].
  apply Forall_lookup. intros i p Hp. rewrite length_zip_with in Hn2.
  destruct (lookup_same_length v0 l i p) as [nums Hnums]; [lia|done|].
  destruct (lookup_same_length v l i p) as [arr Harr']; [lia|done|].
  destruct (lookup_same_length (x :: raw) v i arr Hn0 Harr') as [y Hy].
  specialize (Harr _ _ _ Hy Harr'). specialize (Hnum _ _ _ Harr' Hnums).
  assert (Hp' : zip v v0 !! i = Some (arr, nums)) by (apply lookup_zip_with_Some; eauto).
  specialize (Hpt _ _ _ Hp' Hp). destruct nums as [[[pos vel] acc] eff].
  unfold check_arrays in Harr. run_outcome Harr. unfold parse_arrays in Hnum. run_outcome Hnum.
  unfold normalize_point in Hpt. run_outcome Hpt. injection Hpt as <-. injection Hnum as <- <- <- <-. injection Harr as <-.
  cbn [raw_positions raw_velocities raw_accelerations raw_effort] in *.
  repeat match goal with
    | H : _numeric_array _ _ = Ok _ |- _ => apply numeric_array_finite in H as [? ?]
    | H : array_field _ _ _ _ _ = Ok _ |- _ => apply array_field_length in H
    end.
  unfold shaped. cbn [point_positions point_velocities point_accelerations effort].
  rewrite !Forall_app. rewrite <-!(length_zero_iff_nil (A:=float)). split_and!; try done; intuition (congruence || lia).
Qed.

(** The raw form of a point is read back as the point *)
Definition raw_of (p : NormalizedPoint) : raw_point := {|
  raw_positions := VFloat <$> point_positions p; raw_velocities := VFloat <$> point_velocities p;
  raw_accelerations := VFloat <$> point_accelerations p; raw_effort := VFloat <$> effort p;
  raw_time := Some (ros_time (time_from_start_ns p)) |}.

Lemma check_arrays_raw n i p : shaped n p → check_arrays n (i, raw_entry p) = Ok (raw_of p).
Proof.
  intros (Hp & Hv & Ha & He & _). unfold check_arrays, raw_entry.
  rewrite (array_field_list n i _ "positions" false (point_positions p)) by (by try left).
  cbn [outcome_bind]. rewrite (array_field_list n i _ "velocities" true (point_velocities p)) by naive_solver.
  cbn [outcome_bind]. rewrite (array_field_list n i _ "accelerations" true (point_accelerations p)) by naive_solver.
  cbn [outcome_bind]. by rewrite (array_field_list n i _ "effort" true (effort p)) by naive_solver.
Qed.

Lemma parse_arrays_raw n i p :
  shaped n p → parse_arrays (i, raw_of p) = Ok (point_positions p, point_velocities p, point_accelerations p, effort p).
Proof.
  intros (_ & _ & _ & _ & Hf). rewrite !Forall_app in Hf. destruct Hf as (? & ? & ? & ?).
  unfold parse_arrays, raw_of. cbn [raw_positions raw_velocities raw_accelerations raw_effort].
  by do 4 (rewrite numeric_array_floats by done; cbn [outcome_bind]).
Qed.

Lemma time_ns_raw i t : 0 ≤ t < 2 ^ 31 * 1000000000 → _time_ns (Some (ros_time t)) i = Ok t.
Proof.
  intros Ht. unfold _time_ns, ros_time. cbn [dict_get as_str]. rewrite decide_True by done. rewrite decide_False by done.
  rewrite decide_True by done. unfold _structured_time_ns.
  assert (Hd : 0 ≤ t / 1000000000 < 2 ^ 31) by (split; [apply Z.div_pos; lia|apply Z.div_lt_upper_bound; lia]).
  pose proof (Z.mod_pos_bound t 1000000000). rewrite !(proj2 (Z.leb_le _ _)), (proj2 (Z.ltb_lt _ _)) by lia.
  cbn [andb]. f_equal. rewrite (Z.div_mod t 1000000000) at 3 by lia. lia.
Qed.

Lemma read_points_raw n l names :
  l ≠ [] → Forall (shaped n) l → Forall (λ p, 0 ≤ time_from_start_ns p < 2 ^ 31 * 1000000000) l →
  read_points (_raw l names) n = Ok l.
Proof.
  intros Hne Hl Ht. unfold read_points, _raw, _field. cbn [dict_get as_str]. rewrite decide_False by done. rewrite decide_True by done.
  cbn [_array]. destruct (raw_entry <$> l) as [|e es] eqn:He; [by destruct l|]. rewrite <-He.
  rewrite Forall_lookup in Hl, Ht.
  assert (H1 : outcome_map (check_arrays n) (enumerate (raw_entry <$> l)) = Ok (raw_of <$> l)).
  { apply outcome_map_enumerate. split; [by rewrite !length_fmap|]. intros i a b Ha Hb.
    apply list_lookup_fmap_Some in Ha as (p & -> & Hp). apply list_lookup_fmap_Some in Hb as (p' & -> & Hp').
    simplify_eq. by apply check_arrays_raw, (Hl i). }
  rewrite H1. cbn [outcome_bind].
  assert (H2 : outcome_map parse_arrays (enumerate (raw_of <$> l)) =
    Ok ((λ p, (point_positions p, point_velocities p, point_accelerations p, effort p)) <$> l)).
  { apply outcome_map_enumerate. split; [by rewrite !length_fmap|]. intros i a b Ha Hb.
    apply list_lookup_fmap_Some in Ha as (p & -> & Hp). apply list_lookup_fmap_Some in Hb as (p' & -> & Hp').
    simplify_eq. by apply (parse_arrays_raw n), (Hl i). }
  rewrite H2. cbn [outcome_bind]. apply unless_bind. split.
  - apply first_bad_None, Forall_enumerate. intros i a Ha. by apply list_lookup_fmap_Some in Ha as (p & -> & Hp).
  - apply outcome_map_enumerate. split; [rewrite length_zip_with, !length_fmap; lia|]. intros i a b Ha Hb.
    apply lookup_zip_with_Some in Ha as (r & x & -> & Hr & Hx).
    apply list_lookup_fmap_Some in Hr as (p & -> & Hp). apply list_lookup_fmap_Some in Hx as (p' & -> & Hp').
    simplify_eq. unfold normalize_point. cbn [raw_of raw_time]. rewrite time_ns_raw by (by apply (Ht i)). by destruct p.
Qed.

Lemma numeric_array_same l i fs : _numeric_array (VFloat <$> l) i = Ok fs → fs = l.
Proof.
  intros Hf%outcome_map_Ok. revert fs Hf. induction l as [|x l IH]; intros fs Hf; inversion Hf as [|? y ? k Hy Hk]; subst; [done|].
  unfold numeric_item in Hy. simpl in Hy. destruct (isfinite x); [|done]. injection Hy as <-. f_equal. by apply IH.
Qed.

Lemma array_field_same n i kvs name optional l v :
  dict_get name kvs = Some (float_list l) → array_field n i (VDict kvs) name optional = Ok v → v = VFloat <$> l.
Proof. intros Hg. unfold array_field, _field. rewrite Hg. simpl. destruct (_ || _); congruence. Qed.

Lemma check_arrays_same n i p r : check_arrays n (i, raw_entry p) = Ok r → r = raw_of p.
Proof.
  unfold check_arrays. intros Hr. run_outcome Hr.
  apply (array_field_same _ _ _ _ _ (point_positions p)) in Hv; [|done]. apply (array_field_same _ _ _ _ _ (point_velocities p)) in Hv0; [|done].
  apply (array_field_same _ _ _ _ _ (point_accelerations p)) in Hv1; [|done]. apply (array_field_same _ _ _ _ _ (effort p)) in Hv2; [|done].
  injection Hr as <-. by subst.
Qed.

Lemma time_ns_same i t t' : _time_ns (Some (ros_time t)) i = Ok t' → t' = t.
Proof.
  unfold _time_ns, ros_time. cbn [dict_get as_str]. rewrite decide_True by done. rewrite decide_False by done.
  rewrite decide_True by done. unfold _structured_time_ns. case_match; [|done]. intros [= <-].
  rewrite (Z.div_mod t 1000000000) at 3 by lia. lia.
Qed.

(** Whatever is read from the raw form of points is those points *)
Lemma read_points_same n l names l' : read_points (_raw l names) n = Ok l' → l' = l.
Proof.
  unfold read_points, _raw, _field. cbn [dict_get as_str]. rewrite decide_False by done. rewrite decide_True by done. cbn [_array].
  destruct (raw_entry <$> l) as [|e es] eqn:He; [done|]. rewrite <-He. intros Hr. run_outcome Hr.
  apply outcome_map_enumerate in Hv as [Hn0 Harr], Hv0 as [Hn1 Hnum], Hr as [Hn2 Hpt].
  rewrite length_fmap in Hn0. rewrite length_zip_with in Hn2. apply list_eq_same_length with (n := length l); [lia|lia|].
  intros i p' p Hi Hp' Hp.
  assert (Hraw : (raw_entry <$> l) !! i = Some (raw_entry p)) by (by rewrite list_lookup_fmap, Hp).
  destruct (lookup_lt_is_Some_2 v i) as [arr Ha]; [lia|]. destruct (lookup_lt_is_Some_2 v0 i) as [nums Hm]; [lia|].
  specialize (Harr _ _ _ Hraw Ha). apply check_arrays_same in Harr as ->. specialize (Hnum _ _ _ Ha Hm).
  assert (Hz : zip v v0 !! i = Some (raw_of p, nums)) by (apply lookup_zip_with_Some; eauto). specialize (Hpt _ _ _ Hz Hp').
  unfold parse_arrays, raw_of in Hnum. cbn [raw_positions raw_velocities raw_accelerations raw_effort] in Hnum. run_outcome Hnum.
  apply numeric_array_same in Hv, Hv0, Hv2, Hv3. injection Hnum as <-. unfold normalize_point in Hpt. run_outcome Hpt.
  apply time_ns_same in Hv4. injection Hpt as <-. subst. by destruct p.
Qed.

Lemma given_names_raw l names : EmptyString ∉ names → given_names (_raw l names) = Some names.
Proof.
  intros Hn. unfold given_names, _raw, _field. cbn [dict_get as_str]. rewrite decide_True by done. cbn [_array mbind option_bind].
  induction names as [|n names IH]; [done|]. rewrite not_elem_of_cons in Hn. destruct Hn as [Hn Hns].
  cbn [fmap list_fmap mapM]. destruct n as [|c n]; [done|]. cbn [named as_str mbind option_bind]. by rewrite (IH Hns).
Qed.

Lemma times_to_final l : Sorted (λ a b, time_from_start_ns a < time_from_start_ns b) l →
  Forall (λ p, time_from_start_ns p ≤ final_time l) l.
Proof.
  induction l as [|p l IH]; intros Hs; [constructor|]. apply Sorted_inv in Hs as [Hs Hr]. specialize (IH Hs).
  destruct l as [|q l]; [by repeat constructor|]. inversion Hr; subst.
  assert (Hf : final_time (p :: q :: l) = final_time (q :: l)) by done. rewrite Hf. constructor; [|done].
  inversion IH; subst. lia.
Qed.

(** A motion that was accepted is accepted again unchanged when it is submitted
    as it stands from the same position, as long as the policy allows no duration
    beyond the seconds of a ROS message: its raw form reads back as the same
    points and its evidence is the same. *)
Theorem accepted_motion_is_accepted_again m s c limits a max_ns :
  decimal_nanoseconds (max_duration_s (policy c)) = Some max_ns → max_ns < 2 ^ 31 * 1000000000 →
  accept_motion m s c limits = Ok a → accept_motion (Accepted a) s c limits = Ok a.
Proof.
  intros Hmax Hlt (Hl & Hp & _ & Hm)%accept_motion_Ok. apply accept_motion_Ok. split; [done|].
  split; [|split; [unfold same_evidence; by rewrite bool_decide_eq_true_2, !String.eqb_refl|done]].
  destruct (preflight_validates _ _ _ _ Hp) as (expected & lims & p & Hc).
  apply (preflight_accepted _ _ _ _ _ _ _ Hc) in Hp as (_ & cur & first & rest & Hcur & Ho & Hr & Hw & ->).
  destruct (validated_context_parts _ _ _ _ Hc) as (_ & _ & -> & _ & _ & He & _).
  cbn [_accept snapshot points trajectory_joint_names].
  apply (preflight_accepted _ _ _ _ _ _ _ Hc). split; [by apply given_names_raw|].
  exists cur, first, rest. split_and!; [done|done| |done|done].
  apply read_points_raw; [done|by eapply read_points_shaped|].
  destruct Hw as [H0 Hs (m' & Hm' & Hle) _ _ _ _]. rewrite Hmax in Hm'. injection Hm' as <-.
  pose proof (times_from_first _ _ H0 Hs) as Hpos. pose proof (times_to_final _ Hs) as Hfin.
  apply Forall_lookup. intros i q Hq. rewrite Forall_lookup in Hpos, Hfin. specialize (Hpos _ _ Hq). specialize (Hfin _ _ Hq). lia.
Qed.

(** The points of a motion that is given as points, or as a trajectory *)
Lemma accept_motion_points m s c limits a l names :
  match m with RawMotion v => v | Accepted b => _raw (points (snapshot b)) (trajectory_joint_names (snapshot b)) end = _raw l names →
  accept_motion m s c limits = Ok a → points (snapshot a) = l.
Proof.
  intros Hraw Ha. apply accept_motion_Ok in Ha as (_ & Hp & _). rewrite Hraw in Hp.
  destruct (preflight_validates _ _ _ _ Hp) as (expected & lims & p & Hc).
  destruct (proj1 (preflight_accepted _ _ _ _ _ _ _ Hc) Hp) as (_ & cur & first & rest & _ & _ & Hr & _ & ->).
  by apply read_points_same in Hr.
Qed.

(** A held start is the first point, then all points later *)
Lemma with_start_hold_run a s c limits lead b :
  with_start_hold a s c limits lead = Ok b →
  ∃ first ns, head (points (snapshot a)) = Some first ∧ points (snapshot b) = first :: (shift ns <$> points (snapshot a)) ∧
    safe_motion c limits (joint_names s) (points (snapshot b)).
Proof.
  unfold with_start_hold. intros Hb. run_outcome Hb. unfold first_point, or_raise in Hv.
  destruct (head (points (snapshot a))) as [first|] eqn:Hh; [|done]. injection Hv as ->. exists v, v0. split; [done|].
  split; [by eapply (accept_motion_points (RawMotion _)) in Hb|by eapply accept_motion_safe].
Qed.

End Safe.

(** ** An arm of two joints *)

(** A C library: powers by repeated multiplication, and cube roots from integers *)
Definition sample_pow (x : float) (n : nat) : option float :=
  let f := Nat.iter n (float_mul x) (float_of_Z 1) in if isfinite f then Some f else None.
Definition sample_cbrt (x : float) : float :=
  match x with
  | S754_finite s m e =>
      let k := e mod 3 in
      let f := float_lit (cube_root 64 0 (Z.shiftl (Z.pos m) (k + 120))) ((e - k) / 3 - 40) in
      if s then float_opp f else f
  | _ => x
  end.
Definition sample_libm : Libm := {| pow := sample_pow; cbrt := sample_cbrt |}.

Definition sample_motion_limit : JointMotionLimit := {|
  motion_min := float_of_Z (-2); motion_max := float_of_Z 2; motion_velocity := float_dec 2 (-1);
  motion_acceleration := float_dec 5 (-1); motion_jerk := float_of_Z 2 |}.
Definition sample_motion_limits : list (string * JointMotionLimit) := (λ j, (j, sample_motion_limit)) <$> sample_joints.
Definition sample_state : RobotState := {|
  robot_id := "arm"; joint_names := sample_joints; positions := [float_zero; float_zero]; velocities := [float_zero; float_zero];
  observed_at_s := float_of_Z 1; clock_id := "monotonic"; accelerations := Some [float_zero; float_zero] |}.
Definition sample_target : list float := [float_dec 1 (-1); float_zero].
Definition sample_points : motion :=
  raw_motion sample_joints
    [_point [float_zero; float_zero] [float_zero; float_zero] [float_zero; float_zero] 0;
     _point sample_target [float_zero; float_zero] [float_zero; float_zero] 1500000000].
Definition no_trajectory : AcceptedTrajectory := {|
  snapshot := {| trajectory_joint_names := []; points := [] |}; canonical_bytes := []; trajectory_sha256 := ""; policy_version := "";
  accepted_limits_sha256 := ""; accepted_context_sha256 := "" |}.
Definition sample_accepted : AcceptedTrajectory :=
  Eval vm_compute in
  match accept_motion (H:=sample_libm) sample_points sample_state sample_context sample_motion_limits with
  | Ok a => a
  | Raise _ => no_trajectory
  end.

Lemma accepted_motions_are_safe_witness :
  points (snapshot sample_accepted) ≠ [] ∧
  safe_motion (H:=sample_libm) sample_context sample_motion_limits sample_joints (points (snapshot sample_accepted)).
Proof.
  split; [discriminate|].
  apply (accepted_motions_are_safe (H:=sample_libm) sample_points sample_state); vm_compute; reflexivity.
Defined.

Lemma accepted_motion_is_accepted_again_witness :
  accept_motion (H:=sample_libm) (Accepted sample_accepted) sample_state sample_context sample_motion_limits = Ok sample_accepted.
Proof.
  apply (accepted_motion_is_accepted_again (H:=sample_libm) sample_points sample_state sample_context sample_motion_limits
    sample_accepted 30000000000); [vm_compute; reflexivity|reflexivity|vm_compute; reflexivity].
Defined.
