(* ===== verification/TrajectoryExecutor.v ===== *)
(** * Motion control: the trajectory executor

    [robot/control/workbench_motion/workbench_motion/trajectory_executor.py].  The
    transport, the event sink, the configuration check and the monotonic clock
    belong to a world of their own: a call may change it in any way, return
    anything and raise anything.  The executor's record also keeps the calls that
    were made with their outcomes, the newest first. *)

From Stdlib Require Import ZArith Ascii String SpecFloat.
From S2P Require Import Prelude PyVal Json PyText PyFloat MotionTypes JointLimits Quintic MotionSafety.
Local Open Scope Z_scope.

(** ** Digests *)

(** A character of [json.dumps] with [ensure_ascii] *)
Definition ascii_char (c : Z) : ustr :=
  if c <? 128 then [c] else ustr_of ("\u00" +:+ String (hex_char (Z.shiftr c 4)) (String (hex_char (Z.land c 15)) EmptyString)).

(** [digest]; the values are finite *)
Definition digest (m : material) : string :=
  "sha256:" +:+ sha256_hexdigest (mjoin (ascii_char <$> default [] (json_dumps m))).

Definition floats (l : list float) : material := MList (MFloat <$> l).

(** [asdict(state)] *)
Definition state_fields (s : RobotState) : material := ufields
  [("robot_id", utext (robot_id s)); ("joint_names", utexts (joint_names s)); ("positions", floats (positions s));
   ("velocities", floats (velocities s)); ("observed_at_s", MFloat (observed_at_s s)); ("clock_id", utext (clock_id s));
   ("accelerations", from_option floats MNull (accelerations s))].

Definition limit_fields (l : JointMotionLimit) : material := ufields
  [("min_position", MFloat (motion_min l)); ("max_position", MFloat (motion_max l)); ("max_velocity", MFloat (motion_velocity l));
   ("max_acceleration", MFloat (motion_acceleration l)); ("max_jerk", MFloat (motion_jerk l))].

Definition policy_fields (p : MotionPolicy) : material := ufields
  (zip ["max_state_age_s"; "max_feedback_wall_age_s"; "max_command_age_s"; "start_position_tolerance_rad";
        "start_velocity_tolerance_rad_s"; "tracking_tolerance_rad"; "goal_tolerance_rad"; "goal_time_s"; "stopped_velocity_rad_s";
        "stopped_dwell_s"; "max_braking_time_s"; "collision_resolution_rad"; "dispatch_lead_s"; "dispatch_margin_s"]
       (MFloat <$> policy_values p)).

(** ** Events and ports *)

Record intent := {
  intent_request : string;
  intent_trajectory : AcceptedTrajectory;
  intent_configuration : string;
  intent_scene : string;
  intent_state : RobotState;
  intent_state_sha256 : string;
  intent_braking : bool;
  intent_sim_time : float;
  intent_start : float;
  intent_accept_before : float;
  intent_splice : option float
}.

Inductive event : Type :=
| RejectedEvent (r : ExecutionReceipt)
| DispatchIntent (i : intent)
| DispatchedEvent (r : ExecutionReceipt) (preempted : option string) (sim_time : float)
| FaultEvent (request : string) (r : ReceiptReason.t) (d : string)
| SampleEvent (request : string) (s : RobotState) (desired : TrajectorySample) (elapsed : float)
| CompletedEvent (request : string) (stopped : bool) (l : ControllerLifecycle.t) (s : RobotState) (elapsed : float)
| ResetEvent (r : ExecutionReceipt) (s : RobotState).

(** A call of a port with its outcome *)
Inductive call : Type :=
| CallNow (r : outcome error float)
| CallRead (r : outcome error (option RobotState))
| CallReady (r : outcome error bool)
| CallScene (r : outcome error string)
| CallCheck (t : AcceptedTrajectory) (resolution : float) (r : outcome error bool)
| CallSend (t : AcceptedTrajectory) (start : float) (r : outcome error (option string))
| CallStatus (h : string) (r : outcome error (option string))
| CallCancel (h : string) (r : outcome error ())
| CallEmit (e : event) (r : outcome error ())
| CallConfig (r : outcome error bool)
| CallMonotonic (r : outcome error float).

Section Executor.
Context `{Libm} {W : Type}.

(** [MotionTransport], with the other collaborators of the executor *)
Record MotionTransport := {
  now_s : W → outcome error float * W;
  read_state : W → outcome error (option RobotState) * W;
  readiness : W → outcome error bool * W;
  scene_revision : W → outcome error string * W;
  check_path : AcceptedTrajectory → float → W → outcome error bool * W;
  send : AcceptedTrajectory → float → W → outcome error (option string) * W;
  backend_status : string → W → outcome error (option string) * W;
  cancel : string → W → outcome error () * W;
  emit : event → W → outcome error () * W;
  configuration_current : W → outcome error bool * W;
  monotonic : W → outcome error float * W
}.

(** What the constructor fixes *)
Record configuration := {
  executor_robot_id : string;
  context : PreflightContext;
  limits : list (string * JointMotionLimit);
  motion_policy : MotionPolicy;
  configuration_sha256 : string
}.

Record Executor := {
  lifecycle : ControllerLifecycle.t;
  feedback : option RobotState;
  seen : gset string;
  handle : option string;
  trajectory : option AcceptedTrajectory;
  request : string;
  scene : string;
  start_s : float;
  last_feedback_wall : float;
  last_stamp : float;
  last_now : float;
  dwell_start : option float;
  stop_target : ControllerLifecycle.t;
  world : W;
  calls : list call
}.

Definition set_lifecycle (x : ControllerLifecycle.t) (s : Executor) : Executor :=
  {| lifecycle := x; feedback := feedback s; seen := seen s; handle := handle s; trajectory := trajectory s;
     request := request s; scene := scene s; start_s := start_s s; last_feedback_wall := last_feedback_wall s;
     last_stamp := last_stamp s; last_now := last_now s; dwell_start := dwell_start s; stop_target := stop_target s;
     world := world s; calls := calls s |}.
Definition set_feedback (x : option RobotState) (s : Executor) : Executor :=
  {| lifecycle := lifecycle s; feedback := x; seen := seen s; handle := handle s; trajectory := trajectory s;
     request := request s; scene := scene s; start_s := start_s s; last_feedback_wall := last_feedback_wall s;
     last_stamp := last_stamp s; last_now := last_now s; dwell_start := dwell_start s; stop_target := stop_target s;
     world := world s; calls := calls s |}.
Definition set_seen (x : gset string) (s : Executor) : Executor :=
  {| lifecycle := lifecycle s; feedback := feedback s; seen := x; handle := handle s; trajectory := trajectory s;
     request := request s; scene := scene s; start_s := start_s s; last_feedback_wall := last_feedback_wall s;
     last_stamp := last_stamp s; last_now := last_now s; dwell_start := dwell_start s; stop_target := stop_target s;
     world := world s; calls := calls s |}.
Definition set_handle (x : option string) (s : Executor) : Executor :=
  {| lifecycle := lifecycle s; feedback := feedback s; seen := seen s; handle := x; trajectory := trajectory s;
     request := request s; scene := scene s; start_s := start_s s; last_feedback_wall := last_feedback_wall s;
     last_stamp := last_stamp s; last_now := last_now s; dwell_start := dwell_start s; stop_target := stop_target s;
     world := world s; calls := calls s |}.
Definition set_trajectory (x : option AcceptedTrajectory) (s : Executor) : Executor :=
  {| lifecycle := lifecycle s; feedback := feedback s; seen := seen s; handle := handle s; trajectory := x;
     request := request s; scene := scene s; start_s := start_s s; last_feedback_wall := last_feedback_wall s;
     last_stamp := last_stamp s; last_now := last_now s; dwell_start := dwell_start s; stop_target := stop_target s;
     world := world s; calls := calls s |}.
Definition set_request (x : string) (s : Executor) : Executor :=
  {| lifecycle := lifecycle s; feedback := feedback s; seen := seen s; handle := handle s; trajectory := trajectory s;
     request := x; scene := scene s; start_s := start_s s; last_feedback_wall := last_feedback_wall s;
     last_stamp := last_stamp s; last_now := last_now s; dwell_start := dwell_start s; stop_target := stop_target s;
     world := world s; calls := calls s |}.
Definition set_scene (x : string) (s : Executor) : Executor :=
  {| lifecycle := lifecycle s; feedback := feedback s; seen := seen s; handle := handle s; trajectory := trajectory s;
     request := request s; scene := x; start_s := start_s s; last_feedback_wall := last_feedback_wall s;
     last_stamp := last_stamp s; last_now := last_now s; dwell_start := dwell_start s; stop_target := stop_target s;
     world := world s; calls := calls s |}.
Definition set_start_s (x : float) (s : Executor) : Executor :=
  {| lifecycle := lifecycle s; feedback := feedback s; seen := seen s; handle := handle s; trajectory := trajectory s;
     request := request s; scene := scene s; start_s := x; last_feedback_wall := last_feedback_wall s;
     last_stamp := last_stamp s; last_now := last_now s; dwell_start := dwell_start s; stop_target := stop_target s;
     world := world s; calls := calls s |}.
Definition set_last_feedback_wall (x : float) (s : Executor) : Executor :=
  {| lifecycle := lifecycle s; feedback := feedback s; seen := seen s; handle := handle s; trajectory := trajectory s;
     request := request s; scene := scene s; start_s := start_s s; last_feedback_wall := x; last_stamp := last_stamp s;
     last_now := last_now s; dwell_start := dwell_start s; stop_target := stop_target s; world := world s;
     calls := calls s |}.
Definition set_last_stamp (x : float) (s : Executor) : Executor :=
  {| lifecycle := lifecycle s; feedback := feedback s; seen := seen s; handle := handle s; trajectory := trajectory s;
     request := request s; scene := scene s; start_s := start_s s; last_feedback_wall := last_feedback_wall s;
     last_stamp := x; last_now := last_now s; dwell_start := dwell_start s; stop_target := stop_target s; world := world s;
     calls := calls s |}.
Definition set_last_now (x : float) (s : Executor) : Executor :=
  {| lifecycle := lifecycle s; feedback := feedback s; seen := seen s; handle := handle s; trajectory := trajectory s;
     request := request s; scene := scene s; start_s := start_s s; last_feedback_wall := last_feedback_wall s;
     last_stamp := last_stamp s; last_now := x; dwell_start := dwell_start s; stop_target := stop_target s;
     world := world s; calls := calls s |}.
Definition set_dwell_start (x : option float) (s : Executor) : Executor :=
  {| lifecycle := lifecycle s; feedback := feedback s; seen := seen s; handle := handle s; trajectory := trajectory s;
     request := request s; scene := scene s; start_s := start_s s; last_feedback_wall := last_feedback_wall s;
     last_stamp := last_stamp s; last_now := last_now s; dwell_start := x; stop_target := stop_target s; world := world s;
     calls := calls s |}.
Definition set_stop_target (x : ControllerLifecycle.t) (s : Executor) : Executor :=
  {| lifecycle := lifecycle s; feedback := feedback s; seen := seen s; handle := handle s; trajectory := trajectory s;
     request := request s; scene := scene s; start_s := start_s s; last_feedback_wall := last_feedback_wall s;
     last_stamp := last_stamp s; last_now := last_now s; dwell_start := dwell_start s; stop_target := x; world := world s;
     calls := calls s |}.
Definition set_world (x : W) (s : Executor) : Executor :=
  {| lifecycle := lifecycle s; feedback := feedback s; seen := seen s; handle := handle s; trajectory := trajectory s;
     request := request s; scene := scene s; start_s := start_s s; last_feedback_wall := last_feedback_wall s;
     last_stamp := last_stamp s; last_now := last_now s; dwell_start := dwell_start s; stop_target := stop_target s;
     world := x; calls := calls s |}.
Definition set_calls (x : list call) (s : Executor) : Executor :=
  {| lifecycle := lifecycle s; feedback := feedback s; seen := seen s; handle := handle s; trajectory := trajectory s;
     request := request s; scene := scene s; start_s := start_s s; last_feedback_wall := last_feedback_wall s;
     last_stamp := last_stamp s; last_now := last_now s; dwell_start := dwell_start s; stop_target := stop_target s;
     world := world s; calls := x |}.

Definition minus_infinity : float := S754_infinity true.

(** [TrajectoryExecutor.__init__] *)
Definition make_executor (robot : string) (c : PreflightContext) (l : list (string * JointMotionLimit)) (p : MotionPolicy) (w : W)
    : outcome error (configuration * Executor) :=
  let* _ := validate_limits c l in
  ensure non_blank robot else value_error "robot_id must be nonblank" in
  Ok ({| executor_robot_id := robot; context := c; limits := l; motion_policy := p;
         configuration_sha256 := digest (ufields
           [("context", utext (context_sha256 c)); ("limits", ufields ((λ kv, (kv.1, limit_fields kv.2)) <$> l));
            ("policy", policy_fields p)]) |},
      {| lifecycle := ControllerLifecycle.READY; feedback := None; seen := ∅; handle := None; trajectory := None; request := "";
         scene := ""; start_s := float_zero; last_feedback_wall := float_zero; last_stamp := minus_infinity; last_now := minus_infinity;
         dwell_start := None; stop_target := ControllerLifecycle.STOPPED; world := w; calls := [] |}).

Abbreviation ex := (prog Executor error).
Local Open Scope prog_scope.

(** A call of a port *)
Definition port {A} (f : W → outcome error A * W) (log : outcome error A → call) : ex A := λ s,
  let '(r, w) := f (world s) in (r, set_calls (log r :: calls s) (set_world w s)).

Definition lift {A} (o : outcome error A) : ex A := λ s, (o, s).

(** [try: m; except (classes) as error: handler] *)
Definition try_except {A} (m : ex A) (classes : error → bool) (handler : error → ex A) : ex A := λ s,
  match m s with
  | (Raise e, s') => if classes e then handler e s' else (Raise e, s')
  | r => r
  end.

Definition when (b : bool) (m : ex ()) : ex () := if b then m else ret ().

Context (cfg : configuration) (io : MotionTransport).
Let policy := motion_policy cfg.

Definition call_now : ex float := port (now_s io) CallNow.
Definition call_read : ex (option RobotState) := port (read_state io) CallRead.
Definition call_ready : ex bool := port (readiness io) CallReady.
Definition call_scene : ex string := port (scene_revision io) CallScene.
Definition call_check (t : AcceptedTrajectory) (r : float) : ex bool := port (check_path io t r) (CallCheck t r).
Definition call_send (t : AcceptedTrajectory) (start : float) : ex (option string) := port (send io t start) (CallSend t start).
Definition call_status (h : string) : ex (option string) := port (backend_status io h) (CallStatus h).
Definition call_cancel (h : string) : ex () := port (cancel io h) (CallCancel h).
Definition call_emit (e : event) : ex () := port (emit io e) (CallEmit e).
Definition call_config : ex bool := port (configuration_current io) CallConfig.
Definition call_monotonic : ex float := port (monotonic io) CallMonotonic.

(** ** Feedback *)

(** [x <= y <= z] *)
Definition between (x y z : float) : bool := float_le x y && float_le y z.

(** [execution_progress] *)
Definition execution_progress (now : float) : ex (float * float) :=
  s <- get ;;
  match trajectory s with
  | None => raise (value_error "no trajectory has been dispatched")
  | Some t => p <- lift (last_point t) ;; d <- lift (seconds (time_from_start_ns p)) ;; ret (float_sub now (start_s s), d)
  end.

(** [update_state] *)
Definition update_state (st : RobotState) : ex () :=
  s <- get ;;
  if negb (String.eqb (robot_id st) (executor_robot_id cfg) && bool_decide (joint_names st = expected_joint_names (context cfg))) then
    raise (value_error "feedback identity or joint schema mismatch")
  else if match feedback s with
          | Some old => negb (String.eqb (clock_id st) (clock_id old)) || float_lt (observed_at_s st) (observed_at_s old)
          | None => false
          end then raise (value_error "feedback clock changed or moved backwards")
  else modify (set_feedback (Some st)).

(** [get_state] *)
Definition get_state (now : float) : ex (option RobotState) :=
  if negb (isfinite now) then raise (value_error "now_s must be finite")
  else
    st <- call_read ;;
    match st with Some st => update_state st | None => ret () end ;;;
    s <- get ;;
    match feedback s with
    | Some st => ret (if between float_zero (float_sub now (observed_at_s st)) (max_state_age_s policy) then Some st else None)
    | None => ret None
    end.

(** One joint of [_fresh] *)
Definition measured_outside (nqv : string * (float * float)) : bool :=
  match assoc_get nqv.1 (limits cfg) with
  | Some l => negb (between (motion_min l) nqv.2.1 (motion_max l)) || float_lt (motion_velocity l) (float_abs nqv.2.2)
  | None => true
  end.

(** [_fresh]; the limits have the joints of the context *)
Definition _fresh (now : float) : ex RobotState :=
  st <- get_state now ;;
  match st with
  | None => raise {| class := FeedbackUnavailable; text := "fresh feedback unavailable" |}
  | Some st =>
      if existsb measured_outside (zip (joint_names st) (zip (positions st) (velocities st))) then
        raise (value_error "measured position or velocity outside motion limits")
      else ret st
  end.

(** ** Receipts *)

(** [_receipt] *)
Definition _receipt (rq : string) (r : ReceiptReason.t) (before : ControllerLifecycle.t) (attempted accepted : bool) (d : option string)
    : ex ExecutionReceipt :=
  s <- get ;;
  lift (make_receipt rq (if accepted then ReceiptStatus.ACCEPTED else ReceiptStatus.REJECTED) r before (lifecycle s) attempted d).

(** [_reject] *)
Definition _reject (rq : string) (r : ReceiptReason.t) (d : option string) : ex ExecutionReceipt :=
  s <- get ;;
  receipt <- _receipt rq r (lifecycle s) false false d ;;
  call_emit (RejectedEvent receipt) ;;;
  ret receipt.

(** [_fault] *)
Definition _fault (r : ReceiptReason.t) (d : string) (rq : option string) : ex () :=
  modify (set_lifecycle ControllerLifecycle.FAULTED) ;;;
  s <- get ;;
  d <- match handle s with
       | None => ret d
       | Some h =>
           try_except (call_cancel h ;;; ret d) is_exception (λ e, ret (d +:+ "; cancellation unconfirmed: " +:+ text e))
       end ;;
  call_emit (FaultEvent (match rq with Some EmptyString | None => request s | Some rq => rq end) r d).

(** [abort] *)
Definition abort (d : string) : ex () :=
  s <- get ;;
  when (bool_decide (lifecycle s ∈ [ControllerLifecycle.EXECUTING; ControllerLifecycle.STOPPING]))
    (_fault ReceiptReason.BACKEND_FAILURE d None).

(** ** Dispatch *)

(** [max(map(abs, velocities)) > stopped_velocity] *)
Definition moving (st : RobotState) : outcome error bool :=
  let* m := or_raise (max_abs (velocities st)) (value_error "max() arg is an empty sequence") in
  Ok (float_lt (stopped_velocity_rad_s policy) m).

Definition farther (tolerance x y : float) : bool := float_lt tolerance (float_abs (float_sub x y)).

(** The measured state against where the reference is *)
Definition discontinuous (pos vel : list float) (st : RobotState) : outcome error bool :=
  let* p := any_zip (farther (start_position_tolerance_rad policy)) pos (positions st) in
  if p : bool then Ok true else any_zip (farther (start_velocity_tolerance_rad_s policy)) vel (velocities st).

(** [self._trajectory], when it is used *)
Definition active (s : Executor) : outcome error AcceptedTrajectory :=
  or_raise (trajectory s) (other_error "'NoneType' object has no attribute 'snapshot'").

(** [max(0.0, observed - start)] *)
Definition elapsed_at (st : RobotState) (s : Executor) : float := float_max float_zero (float_sub (observed_at_s st) (start_s s)).

(** What the gate of [_dispatch] decided *)
Record gated := {
  g_trajectory : AcceptedTrajectory;
  g_scene : string;
  g_now : float;
  g_state : RobotState;
  g_epoch : float;
  g_deadline : float
}.

(** [round(now * 1e9) / 1e9] *)
Definition to_nanosecond (now : float) : outcome error float :=
  let* n := or_raise (float_round (float_mul now billion)) (other_error "cannot convert float infinity to integer") in
  seconds n.

(** The [try] block of [_dispatch] after the path was checked *)
Definition gate_timing (rq : string) (first : NormalizedPoint) (t : AcceptedTrajectory) (sc : string) (issued splice : option float)
    : ex (ExecutionReceipt + gated) :=
  let refuse r d := (receipt <- _reject rq r d ;; ret (inl receipt)) in
  now <- call_now ;;
  st <- _fresh now ;;
  if match issued with Some i => negb (between float_zero (float_sub now i) (max_command_age_s policy)) | None => false end then
    refuse ReceiptReason.STALE_COMMAND None
  else
    s <- get ;;
    reference <- match splice with
                 | None => ret (point_positions first, point_velocities first)
                 | Some _ =>
                     a <- lift (active s) ;;
                     r <- lift (sample_trajectory a (elapsed_at st s)) ;;
                     ret (sample_positions r, sample_velocities r)
                 end ;;
    apart <- lift (discontinuous reference.1 reference.2 st) ;;
    if apart : bool then refuse ReceiptReason.START_STATE_DISCONTINUITY None
    else
      epoch <- match splice with Some _ => ret (start_s s) | None => lift (to_nanosecond now) end ;;
      let deadline := float_sub (float_add epoch (default (dispatch_lead_s policy) splice)) (dispatch_margin_s policy) in
      if float_le epoch float_zero || float_le deadline now then
        refuse ReceiptReason.TIMEOUT (Some "dispatch continuity deadline expired")
      else
        ret (inr {| g_trajectory := t; g_scene := sc; g_now := now; g_state := st; g_epoch := epoch; g_deadline := deadline |}).

(** The [try] block of [_dispatch] around the check of the path *)
Definition gate_scene (rq : string) (first : NormalizedPoint) (t : AcceptedTrajectory) (issued splice : option float)
    : ex (ExecutionReceipt + gated) :=
  let refuse r := (receipt <- _reject rq r None ;; ret (inl receipt)) in
  sc <- call_scene ;;
  s <- get ;;
  if String.eqb sc "" then refuse ReceiptReason.NOT_READY
  else if bool_decide (splice ≠ None) && negb (String.eqb sc (scene s)) then refuse ReceiptReason.SCENE_CHANGED
  else
    clear <- call_check t (collision_resolution_rad policy) ;;
    if negb clear then refuse ReceiptReason.COLLISION
    else
      sc' <- call_scene ;;
      if negb (String.eqb sc' sc) then refuse ReceiptReason.SCENE_CHANGED
      else
        current <- call_config ;;
        if negb current then refuse ReceiptReason.NOT_READY
        else gate_timing rq first t sc issued splice.

(** The [try] block of [_dispatch] *)
Definition gate (rq : string) (t : AcceptedTrajectory) (braking : bool) (issued splice : option float) : ex (ExecutionReceipt + gated) :=
  let refuse r := (receipt <- _reject rq r None ;; ret (inl receipt)) in
  current <- call_config ;;
  ready <- (if current : bool then call_ready else ret false) ;;
  if negb ready then refuse ReceiptReason.NOT_READY
  else
    now <- call_now ;;
    st <- _fresh now ;;
    first <- lift (first_point t) ;;
    fast <- (if braking : bool then ret false else lift (moving st)) ;;
    if fast : bool then refuse ReceiptReason.START_STATE_DISCONTINUITY
    else
      anchor <- lift (with_positions st (point_positions first)) ;;
      t <- lift (accept_motion (Accepted t) anchor (context cfg) (limits cfg)) ;;
      t <- lift match splice with
                | None => with_start_hold t anchor (context cfg) (limits cfg) (dispatch_lead_s policy)
                | Some _ => Ok t
                end ;;
      gate_scene rq first t issued splice.

Definition make_intent (rq : string) (g : gated) (braking : bool) (splice : option float) : intent := {|
  intent_request := rq; intent_trajectory := g_trajectory g; intent_configuration := configuration_sha256 cfg;
  intent_scene := g_scene g; intent_state := g_state g; intent_state_sha256 := digest (state_fields (g_state g));
  intent_braking := braking; intent_sim_time := g_now g; intent_start := g_epoch g; intent_accept_before := g_deadline g;
  intent_splice := splice |}.

(** The end of [_dispatch]: the goal was accepted in time *)
Definition dispatched (rq : string) (g : gated) (h : string) (old : option string) (wall : option float) (braking : bool)
    (before : ControllerLifecycle.t) : ex ExecutionReceipt :=
  modify (set_last_now (g_now g)) ;;;
  wall <- match wall with Some w => ret w | None => call_monotonic end ;;
  modify (set_last_feedback_wall wall) ;;;
  modify (set_last_stamp (observed_at_s (g_state g))) ;;;
  modify (set_dwell_start None) ;;;
  modify (set_lifecycle (if braking then ControllerLifecycle.STOPPING else ControllerLifecycle.EXECUTING)) ;;;
  receipt <- _receipt rq ReceiptReason.ACCEPTED before true true None ;;
  try_except (call_emit (DispatchedEvent receipt old (g_now g))) is_exception
    (λ e, modify (set_lifecycle ControllerLifecycle.FAULTED) ;;; call_cancel h ;;; raise e) ;;;
  ret receipt.

(** The goal becomes the active one *)
Definition adopt (rq : string) (g : gated) (h : string) (s : Executor) : Executor :=
  set_start_s (g_epoch g) (set_scene (g_scene g) (set_request rq (set_trajectory (Some (g_trajectory g)) (set_handle (Some h) s)))).

(** [_dispatch] after the backend took the goal *)
Definition taken (rq : string) (g : gated) (h : string) (old : option string) (wall : option float) (braking : bool)
    (before : ControllerLifecycle.t) : ex ExecutionReceipt :=
  now <- call_now ;;
  if float_le (g_deadline g) now then
    _fault ReceiptReason.TIMEOUT "acceptance missed continuity deadline" None ;;;
    _receipt rq ReceiptReason.TIMEOUT before true false None
  else dispatched rq g h old wall braking before.

(** [_dispatch] from the transmission on *)
Definition transmit (rq : string) (g : gated) (old : option string) (wall : option float) (braking : bool)
    (before : ControllerLifecycle.t) : ex ExecutionReceipt :=
  sent <- try_except (h <- call_send (g_trajectory g) (g_epoch g) ;; ret (inr h)) is_exception
    (λ e, _fault ReceiptReason.BACKEND_FAILURE (text e) (Some rq) ;;;
          receipt <- _receipt rq ReceiptReason.BACKEND_FAILURE before true false (Some (text e)) ;; ret (inl receipt)) ;;
  match sent with
  | inl receipt => ret receipt
  | inr None =>
      _fault ReceiptReason.BACKEND_REJECTED "goal rejected" (Some rq) ;;;
      _receipt rq ReceiptReason.BACKEND_REJECTED before true false None
  | inr (Some h) => modify (adopt rq g h) ;;; taken rq g h old wall braking before
  end.

(** A handle is true unless it is empty *)
Definition held (s : Executor) : bool := match handle s with None | Some EmptyString => false | Some _ => true end.

(** [_dispatch] from the journal on *)
Definition commit (rq : string) (g : gated) (wall : option float) (braking : bool) (splice : option float)
    (before : ControllerLifecycle.t) : ex ExecutionReceipt :=
  call_emit (DispatchIntent (make_intent rq g braking splice)) ;;;
  s <- get ;;
  let old := if held s then Some (request s) else None in
  late <- try_except
    (now <- call_now ;;
     if float_le (g_deadline g) now then
       receipt <- _reject rq ReceiptReason.TIMEOUT (Some "dispatch journal exhausted continuity deadline") ;; ret (Some receipt)
     else ret None)
    is_gate_error (λ e, receipt <- _reject rq ReceiptReason.NOT_READY (Some (text e)) ;; ret (Some receipt)) ;;
  match late with
  | Some receipt => ret receipt
  | None => transmit rq g old wall braking before
  end.

(** [_dispatch]; an object of another class is no trajectory *)
Definition _dispatch (rq : string) (t : option AcceptedTrajectory) (wall : option float) (braking : bool) (issued splice : option float)
    : ex ExecutionReceipt :=
  s <- get ;;
  let before := lifecycle s in
  if negb (non_blank rq) then raise (value_error "request_id must be nonblank")
  else if bool_decide (rq ∈ seen s) then _reject rq ReceiptReason.DUPLICATE_REQUEST None
  else if negb (bool_decide (before = ControllerLifecycle.READY) || (braking && bool_decide (before = ControllerLifecycle.EXECUTING)))
  then _reject rq ReceiptReason.INVALID_LIFECYCLE None
  else
    match t with
    | None => _reject rq ReceiptReason.INVALID_TRAJECTORY None
    | Some t =>
        if negb (String.eqb (accepted_context_sha256 t) (context_sha256 (context cfg))) then
          _reject rq ReceiptReason.TRAJECTORY_CONTEXT_MISMATCH None
        else
          modify (set_seen ({[rq]} ∪ seen s)) ;;;
          g <- try_except (gate rq t braking issued splice) is_gate_error
                 (λ e, receipt <- _reject rq ReceiptReason.INVALID_TRAJECTORY (Some (text e)) ;; ret (inl receipt)) ;;
          match g with
          | inl receipt => ret receipt
          | inr g => commit rq g wall braking splice before
          end
    end.

(** [submit_trajectory] *)
Definition submit_trajectory (rq : string) (t : option AcceptedTrajectory) (wall : option float) : ex ExecutionReceipt :=
  _dispatch rq t wall false None None.

(** [submit_command] *)
Definition submit_command (c : RobotCommand) (now : float) (wall : option float) : ex ExecutionReceipt :=
  let id := command_id c in
  if negb (bool_decide (mode c = CommandMode.POSITION)) then _reject id ReceiptReason.UNSUPPORTED_MODE None
  else if negb (String.eqb (command_robot_id c) (executor_robot_id cfg) &&
                bool_decide (command_joint_names c = expected_joint_names (context cfg))) then
    _reject id ReceiptReason.JOINT_SCHEMA_MISMATCH None
  else if negb (between float_zero (float_sub now (issued_at_s c)) (max_command_age_s policy)) then
    _reject id ReceiptReason.STALE_COMMAND None
  else
    t <- try_except
      (st <- _fresh now ;;
       if negb (String.eqb (command_clock_id c) (clock_id st)) then
         receipt <- _reject id ReceiptReason.CLOCK_MISMATCH None ;; ret (inl receipt)
       else t <- lift (point_to_point st (values c) (context cfg) (limits cfg)) ;; ret (inr t))
      is_value_error (λ e, receipt <- _reject id ReceiptReason.INVALID_TRAJECTORY (Some (text e)) ;; ret (inl receipt)) ;;
    match t with
    | inl receipt => ret receipt
    | inr t => _dispatch id (Some t) wall false (Some (issued_at_s c)) None
    end.

(** ** Supervision *)

Definition is_confirmed (l : ControllerLifecycle.t) : bool :=
  bool_decide (l ∈ [ControllerLifecycle.HOLDING; ControllerLifecycle.STOPPED]).

(** [max(abs(a - b) for a, b in zip(l, k, strict=True))] *)
Fixpoint differences (l k : list float) : outcome error (list float) :=
  match l, k with
  | [], [] => Ok []
  | x :: l', y :: k' => let* ds := differences l' k' in Ok (float_sub x y :: ds)
  | _, _ => Raise (value_error "zip() argument 2 differs in length")
  end.
Definition tracking_error (l k : list float) : outcome error float :=
  let* ds := differences l k in or_raise (max_abs ds) (value_error "max() iterable argument is empty").

(** A stopped arm that moves again *)
Definition revoked (t : AcceptedTrajectory) (st : RobotState) : outcome error bool :=
  let* target := last_point t in
  let* m := moving st in
  if m : bool then Ok true else any_zip (farther (goal_tolerance_rad policy)) (positions st) (point_positions target).

(** The first part of [poll]: fresh feedback, clocks, the watchdog, the scene *)
Definition watch (now wall : float) : ex RobotState :=
  if negb (isfinite wall) then raise (value_error "wall time must be finite")
  else
    st <- _fresh now ;;
    s <- get ;;
    if float_lt now (last_now s) then raise (value_error "simulation clock moved backwards")
    else
      modify (set_last_now now) ;;;
      if float_lt wall (last_feedback_wall s) ||
         float_lt (max_feedback_wall_age_s policy) (float_sub wall (last_feedback_wall s)) then
        raise {| class := FeedbackUnavailable; text := "feedback wall watchdog expired or moved backwards" |}
      else
        when (float_lt (last_stamp s) (observed_at_s st))
          (modify (set_last_feedback_wall wall) ;;; modify (set_last_stamp (observed_at_s st))) ;;;
        current <- call_config ;;
        same <- (if current : bool then sc <- call_scene ;; ret (String.eqb sc (scene s)) else ret false) ;;
        if negb same then raise (value_error "scene or control configuration changed during execution")
        else ret st.

(** The last part of [poll]: the goal, where the arm must rest for the dwell time *)
Definition settle (now elapsed : float) (t : AcceptedTrajectory) (st : RobotState) (result : option string) : ex () :=
  s <- get ;;
  target <- lift (last_point t) ;;
  duration <- lift (seconds (time_from_start_ns target)) ;;
  if float_lt (float_add (float_add duration (goal_time_s policy)) (stopped_dwell_s policy)) (float_sub now (start_s s)) then
    _fault ReceiptReason.TIMEOUT "goal or stopping confirmation timed out" None
  else
    fast <- lift (moving st) ;;
    apart <- lift (any_zip (farther (goal_tolerance_rad policy)) (positions st) (point_positions target)) ;;
    if bool_decide (result = Some "succeeded") && float_le duration elapsed && negb fast && negb apart then
      when (bool_decide (dwell_start s = None)) (modify (set_dwell_start (Some (observed_at_s st)))) ;;;
      when (float_le (stopped_dwell_s policy) (float_sub (observed_at_s st) (default (observed_at_s st) (dwell_start s))))
        (let stopping := bool_decide (lifecycle s = ControllerLifecycle.STOPPING) in
         let next := if stopping then stop_target s else ControllerLifecycle.READY in
         modify (set_lifecycle next) ;;;
         call_emit (CompletedEvent (request s) stopping next st elapsed) ;;;
         modify (set_handle None))
    else modify (set_dwell_start None).

(** The middle part: tracking and the status of the action *)
Definition track (now : float) (st : RobotState) : ex () :=
  s <- get ;;
  t <- lift (active s) ;;
  let elapsed := elapsed_at st s in
  desired <- lift (sample_trajectory t elapsed) ;;
  error <- lift (tracking_error (positions st) (sample_positions desired)) ;;
  call_emit (SampleEvent (request s) st desired elapsed) ;;;
  if float_lt (tracking_tolerance_rad policy) error then
    _fault ReceiptReason.TRACKING_ERROR ("position tracking error " +:+ float_repr error) None
  else
    h <- lift (or_raise (handle s) (other_error "no goal handle")) ;;
    result <- call_status h ;;
    match result with
    | None => settle now elapsed t st result
    | Some word =>
        if String.eqb word "succeeded" then settle now elapsed t st result
        else _fault ReceiptReason.BACKEND_FAILURE ("action ended " +:+ word) None
    end.

Definition poll_body (now wall : float) : ex (option RobotState) :=
  st <- watch now wall ;;
  s <- get ;;
  if is_confirmed (lifecycle s) then
    t <- lift (active s) ;;
    moved <- lift (revoked t st) ;;
    if moved : bool then raise (value_error "stopped confirmation revoked by movement") else ret (Some st)
  else track now st ;;; ret (Some st).

(** [poll] *)
Definition poll (now : float) (wall : option float) : ex (option RobotState) :=
  wall <- match wall with Some w => ret w | None => call_monotonic end ;;
  s <- get ;;
  if negb (bool_decide (lifecycle s ∈ [ControllerLifecycle.EXECUTING; ControllerLifecycle.STOPPING; ControllerLifecycle.HOLDING;
                                       ControllerLifecycle.STOPPED])) then get_state now
  else
    try_except (poll_body now wall) is_io_error
      (λ e, _fault (if bool_decide (class e = FeedbackUnavailable) then ReceiptReason.STALE_STATE else ReceiptReason.BACKEND_FAILURE)
              (text e) None ;;; ret None).

(** ** Stopping *)

(** The reference of a brake, with the time of its splice *)
Definition brake_reference (st : RobotState) (now : float) : ex (AcceptedTrajectory * option float) :=
  s <- get ;;
  if bool_decide (lifecycle s = ControllerLifecycle.EXECUTING) then
    ns <- lift (nanoseconds (float_add (float_sub now (start_s s)) (dispatch_lead_s policy))) ;;
    splice <- lift (seconds ns) ;;
    a <- lift (active s) ;;
    t <- lift (splice_braking_trajectory a splice st (context cfg) (limits cfg) policy) ;;
    ret (t, Some splice)
  else
    fast <- lift (moving st) ;;
    if fast : bool then raise (value_error "no accepted active reference for moving device")
    else t <- lift (point_to_point st (positions st) (context cfg) (limits cfg)) ;; ret (t, None).

(** The [try] block of [_brake] *)
Definition brake_body (rq : string) (now : float) (wall : option float) (target : ControllerLifecycle.t) : ex ExecutionReceipt :=
  st <- _fresh now ;;
  reference <- brake_reference st now ;;
  modify (set_stop_target target) ;;;
  receipt <- _dispatch rq (Some reference.1) wall true None reference.2 ;;
  if bool_decide (status receipt = ReceiptStatus.REJECTED) then
    _fault ReceiptReason.SAFE_STOP_FAILURE (value (reason receipt)) (Some rq) ;;;
    s <- get ;;
    lift (make_receipt (request_id receipt) (status receipt) (reason receipt) (lifecycle_before receipt) (lifecycle s)
            (dispatch_attempted receipt) (detail receipt))
  else ret receipt.

(** [_brake] *)
Definition _brake (rq : string) (now : float) (wall : option float) (target : ControllerLifecycle.t) : ex ExecutionReceipt :=
  s <- get ;;
  let before := lifecycle s in
  if bool_decide (rq ∈ seen s) then _reject rq ReceiptReason.DUPLICATE_REQUEST None
  else if negb (bool_decide (before ∈ [ControllerLifecycle.READY; ControllerLifecycle.EXECUTING])) then
    _reject rq ReceiptReason.INVALID_LIFECYCLE None
  else
    try_except (brake_body rq now wall target) is_io_error
      (λ e, s <- get ;;
            modify (set_seen ({[rq]} ∪ seen s)) ;;;
            _fault ReceiptReason.SAFE_STOP_FAILURE (text e) (Some rq) ;;;
            _receipt rq ReceiptReason.SAFE_STOP_FAILURE before false false (Some (text e))).

(** [stop] *)
Definition stop (rq : string) (now : float) (wall : option float) : ex ExecutionReceipt :=
  _brake rq now wall ControllerLifecycle.STOPPED.

(** [hold] *)
Definition hold (rq : string) (now : float) (wall : option float) : ex ExecutionReceipt :=
  _brake rq now wall ControllerLifecycle.HOLDING.

(** The [try] block of [reset]: a refusal, or the feedback that allows it *)
Definition reset_gate (rq : string) (now : float) : ex (ExecutionReceipt + RobotState) :=
  let refuse := (receipt <- _reject rq ReceiptReason.NOT_READY None ;; ret (inl receipt)) in
  st <- _fresh now ;;
  fast <- lift (moving st) ;;
  ready <- (if negb fast then call_ready else ret false) ;;
  current <- (if ready : bool then call_config else ret false) ;;
  if negb current then refuse
  else
    s <- get ;;
    running <- match handle s with
               | None | Some EmptyString => ret false
               | Some h => r <- call_status h ;; ret (bool_decide (r = None))
               end ;;
    if running : bool then refuse
    else
      now <- call_now ;;
      st <- _fresh now ;;
      fast <- lift (moving st) ;;
      if fast : bool then refuse else ret (inr st).

(** [reset] *)
Definition reset (rq : string) (now : float) : ex ExecutionReceipt :=
  s <- get ;;
  let before := lifecycle s in
  if bool_decide (rq ∈ seen s) then _reject rq ReceiptReason.DUPLICATE_REQUEST None
  else if negb (bool_decide (before ∈ [ControllerLifecycle.STOPPED; ControllerLifecycle.HOLDING; ControllerLifecycle.FAULTED])) then
    _reject rq ReceiptReason.INVALID_LIFECYCLE None
  else
    g <- try_except (reset_gate rq now) is_gate_error
           (λ e, receipt <- _reject rq ReceiptReason.NOT_READY (Some (text e)) ;; ret (inl receipt)) ;;
    match g with
    | inl receipt => ret receipt
    | inr st =>
        s <- get ;;
        modify (set_seen ({[rq]} ∪ seen s)) ;;;
        modify (set_handle None) ;;;
        modify (set_lifecycle ControllerLifecycle.READY) ;;;
        receipt <- _receipt rq ReceiptReason.ACCEPTED before false true None ;;
        call_emit (ResetEvent receipt st) ;;;
        ret receipt
    end.

(** ** Histories *)

(** The public operations *)
Inductive operation : Type :=
| SubmitCommand (c : RobotCommand) (now : float) (wall : option float)
| SubmitTrajectory (rq : string) (t : option AcceptedTrajectory) (wall : option float)
| Stop (rq : string) (now : float) (wall : option float)
| Hold (rq : string) (now : float) (wall : option float)
| Reset (rq : string) (now : float)
| Poll (now : float) (wall : option float)
| Abort (d : string)
| GetState (now : float)
| UpdateState (st : RobotState).

Definition after {A} (m : ex A) (s : Executor) : Executor := (m s).2.

Definition perform (o : operation) : Executor → Executor :=
  match o with
  | SubmitCommand c now wall => after (submit_command c now wall)
  | SubmitTrajectory rq t wall => after (submit_trajectory rq t wall)
  | Stop rq now wall => after (stop rq now wall)
  | Hold rq now wall => after (hold rq now wall)
  | Reset rq now => after (reset rq now)
  | Poll now wall => after (poll now wall)
  | Abort d => after (abort d)
  | GetState now => after (get_state now)
  | UpdateState st => after (update_state st)
  end.

Definition performs (os : list operation) (s : Executor) : Executor := foldl (λ s o, perform o s) s os.

End Executor.
