(* ===== verification/TrajectoryExecutorGate.v ===== *)
(** * Motion control: every transmission passed the gate

    What the parts of the executor leave alone, the exact calls on the way to a
    transmission, and an invariant of all the calls that the executor makes, kept
    by every operation whatever the transport does. *)

From Stdlib Require Import ZArith Ascii String SpecFloat.
From S2P Require Import Prelude PyVal Json PyText PyFloat MotionTypes JointLimits JointLimitsTheorems Quintic MotionSafety MotionSafetyTheorems TrajectoryExecutor.
Local Open Scope Z_scope.

Section Proofs.
Context `{Libm} {W : Type} (cfg : configuration) (io : MotionTransport (W:=W)).
Abbreviation exec := (Executor (W:=W)).
Implicit Types (s : exec).
Let policy := motion_policy cfg.

(** ** Steps that keep everything but the feedback *)

(** Neither a transmission nor its announcement *)
Definition harmless (c : call) : bool :=
  match c with CallSend _ _ _ | CallEmit (DispatchIntent _) _ => false | _ => true end.

(** The feedback is about this robot and its joints *)
Definition known (s : exec) : Prop :=
  ∀ st, feedback s = Some st → robot_id st = executor_robot_id cfg ∧ joint_names st = expected_joint_names (context cfg).

Record calm (s s' : exec) : Prop := {
  calm_calls : ∃ new, calls s' = new ++ calls s ∧ Forall (λ c, harmless c = true) new;
  calm_rest : s' = set_calls (calls s') (set_world (world s') (set_feedback (feedback s') s));
  calm_known : known s → known s'
}.

#[local] Instance calm_refl : Reflexive calm.
Proof. intros s. split; [by exists []|by destruct s|done]. Qed.

#[local] Instance calm_trans : Transitive calm.
Proof.
  intros s1 s2 s3 [(n1 & H1 & F1) E1 K1] [(n2 & H2 & F2) E2 K2]. split; [| |auto].
  - exists (n2 ++ n1). rewrite H2, H1, app_assoc. split; [done|]. by apply Forall_app.
  - rewrite E2, E1. by destruct s1.
Qed.

(** A program that makes only such steps, whether it returns or raises *)
Definition stays_calm {A} (m : prog exec error A) : Prop := ∀ s, calm s (m s).2.

Lemma calm_ret {A} (a : A) : stays_calm (ret a).
Proof. intros s. simpl. reflexivity. Qed.
Lemma calm_raise {A} e : stays_calm (A:=A) (raise e).
Proof. intros s. simpl. reflexivity. Qed.
Lemma calm_get : stays_calm (get (S:=exec)).
Proof. intros s. simpl. reflexivity. Qed.
Lemma calm_lift {A} (o : outcome error A) : stays_calm (lift o).
Proof. intros s. simpl. reflexivity. Qed.

Lemma calm_bind {A B} (m : prog exec error A) (k : A → prog exec error B) :
  stays_calm m → (∀ a, stays_calm (k a)) → stays_calm (bind m k).
Proof.
  intros Hm Hk s. unfold bind. specialize (Hm s). destruct (m s) as [[a|e] s']; simpl in *; [|done].
  etrans; [exact Hm|apply Hk].
Qed.

Lemma calm_try {A} (m : prog exec error A) f h : stays_calm m → (∀ e, stays_calm (h e)) → stays_calm (try_except m f h).
Proof.
  intros Hm Hh s. unfold try_except. specialize (Hm s). destruct (m s) as [[a|e] s']; simpl in *; [done|].
  destruct (f e); [|done]. etrans; [exact Hm|apply Hh].
Qed.

Lemma calm_port {A} (f : W → outcome error A * W) log : (∀ r, harmless (log r) = true) → stays_calm (port f log).
Proof.
  intros Hlog s. unfold port. destruct (f (world s)) as [r w]. simpl. split; [|by destruct s|done].
  exists [log r]. split; [done|]. by repeat constructor.
Qed.

Lemma calm_update st : stays_calm (update_state cfg st).
Proof.
  intros s. unfold update_state, bind, get. simpl. destruct (_ && _) eqn:Hid; simpl; [|reflexivity].
  apply andb_true_iff in Hid as [Hr Hj]. apply String.eqb_eq in Hr. apply bool_decide_eq_true in Hj.
  destruct (match feedback s with Some _ => _ | None => _ end); simpl; [reflexivity|]. split; [by exists []|by destruct s|].
  intros _ st' [= <-]. done.
Qed.

Create HintDb calm.
#[local] Hint Resolve calm_ret calm_raise calm_get calm_lift calm_update : calm.

(** Follows the text of a program *)
Ltac calm_step :=
  first
    [ solve [eauto 1 with calm]
    | apply calm_bind; [|intros ?]
    | apply calm_try; [|intros ?]
    | apply calm_port; intros ?; reflexivity
    | case_match ].
Ltac calm := intros; cbv zeta; repeat calm_step.

Lemma get_state_calm now : stays_calm (get_state cfg io now).
Proof. unfold get_state, call_read. calm. Qed.
#[local] Hint Resolve get_state_calm : calm.

Lemma fresh_calm now : stays_calm (_fresh cfg io now).
Proof. unfold _fresh. calm. Qed.
#[local] Hint Resolve fresh_calm : calm.

Lemma receipt_calm rq r b att acc d : stays_calm (_receipt (W:=W) rq r b att acc d).
Proof. unfold _receipt. calm. Qed.
#[local] Hint Resolve receipt_calm : calm.

Lemma reject_calm rq r d : stays_calm (_reject io rq r d).
Proof. unfold _reject, call_emit. calm. Qed.
#[local] Hint Resolve reject_calm : calm.

Lemma gate_timing_calm rq first t sc issued splice : stays_calm (gate_timing cfg io rq first t sc issued splice).
Proof. unfold gate_timing, call_now. calm. Qed.
#[local] Hint Resolve gate_timing_calm : calm.

Lemma gate_scene_calm rq first t issued splice : stays_calm (gate_scene cfg io rq first t issued splice).
Proof. unfold gate_scene, call_scene, call_check, call_config. calm. Qed.
#[local] Hint Resolve gate_scene_calm : calm.

Lemma gate_calm rq t b issued splice : stays_calm (gate cfg io rq t b issued splice).
Proof. unfold gate, call_config, call_ready, call_now. calm. Qed.

Lemma brake_reference_calm st now : stays_calm (brake_reference (W:=W) cfg st now).
Proof. unfold brake_reference. calm. Qed.

Lemma reset_gate_calm rq now : stays_calm (reset_gate cfg io rq now).
Proof. unfold reset_gate, call_ready, call_config, call_status, call_now. calm. Qed.
#[local] Hint Resolve gate_calm brake_reference_calm reset_gate_calm : calm.

(** ** Faults *)

Lemma bind_modify {B} f (k : () → prog exec error B) s : bind (modify f) k s = k () (f s).
Proof. done. Qed.

Lemma fault_calm r d rq s :
  calm (set_lifecycle ControllerLifecycle.FAULTED s) (_fault io r d rq s).2.
Proof.
  unfold _fault, call_cancel, call_emit. rewrite bind_modify. generalize (set_lifecycle ControllerLifecycle.FAULTED s). clear s.
  match goal with |- ∀ s, calm s (?m s).2 => change (stays_calm m) end. calm.
Qed.

(** ** Reading a successful run *)

Lemma port_run {A} (f : W → outcome error A * W) log r s s' :
  port f log s = (r, s') → calls s' = log r :: calls s ∧ s' = set_calls (log r :: calls s) (set_world (world s') s).
Proof. unfold port. destruct (f (world s)) as [r' w]. intros [= <- <-]. by destruct s. Qed.

(** Every joint is measured within its motion limits *)
Definition inside_limits (st : RobotState) : Prop :=
  ∀ name q v, (name, (q, v)) ∈ zip (joint_names st) (zip (positions st) (velocities st)) →
    ∃ l, assoc_get name (limits cfg) = Some l ∧ float_le (motion_min l) q = true ∧ float_le q (motion_max l) = true ∧
      float_lt (motion_velocity l) (float_abs v) = false.

(** Feedback that is recent and within the motion limits *)
Definition fresh_at (now : float) (st : RobotState) : Prop :=
  isfinite now = true ∧ float_le float_zero (float_sub now (observed_at_s st)) = true ∧
  float_le (float_sub now (observed_at_s st)) (max_state_age_s policy) = true ∧
  inside_limits st ∧ joint_names st = expected_joint_names (context cfg).

(** The feedback after a reading, which may find nothing new *)
Definition latest (old read : option RobotState) : option RobotState :=
  match read with Some st => Some st | None => old end.

Lemma measured_within st :
  existsb (measured_outside cfg) (zip (joint_names st) (zip (positions st) (velocities st))) = false → inside_limits st.
Proof.
  intros He name q v Hin. apply list_elem_of_lookup_1 in Hin as [i Hi].
  assert (Hm : measured_outside cfg (name, (q, v)) = false).
  { apply not_true_iff_false. intros Hm. apply not_true_iff_false in He. apply He, existsb_exists. eexists. split; [|exact Hm].
    apply list_elem_of_In. by eapply list_elem_of_lookup_2. }
  unfold measured_outside, between in Hm. cbn [fst snd] in Hm. destruct (assoc_get name (limits cfg)) as [l|]; [|done].
  apply orb_false_iff in Hm as [Hm Hv]. apply negb_false_iff, andb_true_iff in Hm as [? ?]. by exists l.
Qed.

Lemma update_run st s r s' :
  update_state cfg st s = (r, s') → calls s' = calls s ∧ (r = Ok () → feedback s' = Some st).
Proof.
  unfold update_state, bind, get, modify, raise. simpl. destruct (negb _); [by intros [= <- <-]|].
  destruct (match feedback s with Some _ => _ | None => _ end); by intros [= <- <-].
Qed.

(** Fresh feedback is the latest that was read *)
Lemma fresh_run now s st s' :
  known s → _fresh cfg io now s = (Ok st, s') →
  ∃ read, calls s' = CallRead (Ok read) :: calls s ∧ latest (feedback s) read = Some st ∧ feedback s' = Some st ∧ fresh_at now st.
Proof.
  intros Hk Hf. pose proof (get_state_calm now s) as Hcalm. unfold _fresh in Hf. apply bind_Ok in Hf as (o & s1 & Hg & Hf).
  rewrite Hg in Hcalm. destruct o as [st'|]; [|done]. destruct (existsb _ _) eqn:He; [done|]. injection Hf as -> ->.
  apply calm_known in Hcalm; [|done]. unfold get_state in Hg. destruct (isfinite now) eqn:Hn; [|done]. cbn [negb] in Hg.
  apply bind_Ok in Hg as (r & s2 & Hr & Hg). apply bind_Ok in Hg as ([] & s3 & Hu & Hg). apply bind_Ok in Hg as (? & ? & [= <- <-] & Hg).
  apply port_run in Hr as [Hr Er].
  assert (calls s3 = calls s2 ∧ feedback s3 = latest (feedback s) r) as [Hc Hl].
  { destruct r as [st0|]; [|injection Hu as <-; by rewrite Er]. apply update_run in Hu as [Hc Hfb]. auto. }
  destruct (feedback s3) as [st'|] eqn:Hfb; [|done]. destruct (between _ _ _) eqn:Hb; [|done]. injection Hg as <- <-.
  apply andb_true_iff in Hb as [Hb1 Hb2]. exists r. split_and!; [congruence|done..|]. unfold fresh_at.
  split_and!; [done..|by apply measured_within|]. by apply (Hcalm st').
Qed.

(** The state the check of a path starts from is where a reference of the limits is *)
Lemma fresh_calm_run now s r s' : _fresh cfg io now s = (r, s') → calm s s'.
Proof. intros Hf. pose proof (fresh_calm now s) as Hc. by rewrite Hf in Hc. Qed.

(** The measured state is near the reference *)
Definition near (pos vel : list float) (st : RobotState) : Prop := discontinuous cfg pos vel st = Ok false.

(** What is known when the timing was checked *)
Definition timing_facts (s : exec) (first : NormalizedPoint) (splice : option float) (g : gated) : Prop :=
  fresh_at (g_now g) (g_state g) ∧
  float_le (g_epoch g) float_zero = false ∧ float_le (g_deadline g) (g_now g) = false ∧
  g_deadline g = float_sub (float_add (g_epoch g) (default (dispatch_lead_s policy) splice)) (dispatch_margin_s policy) ∧
  match splice with
  | None => near (point_positions first) (point_velocities first) (g_state g)
  | Some _ => g_epoch g = start_s s ∧ ∃ a r, trajectory s = Some a ∧
      sample_trajectory a (float_max float_zero (float_sub (observed_at_s (g_state g)) (g_epoch g))) = Ok r ∧
      near (sample_positions r) (sample_velocities r) (g_state g)
  end.

Lemma refuse_run {B} rq r d s (g : B) s' :
  bind (_reject io rq r d) (λ receipt, ret (inl receipt)) s ≠ (Ok (inr g), s').
Proof. intros Hx. by apply bind_Ok in Hx as (? & ? & _ & [=]). Qed.

Lemma gate_timing_run rq first t sc issued splice s g s' :
  known s → gate_timing cfg io rq first t sc issued splice s = (Ok (inr g), s') →
  (∃ r, calls s' = CallRead r :: CallNow (Ok (g_now g)) :: calls s) ∧ g_trajectory g = t ∧ g_scene g = sc ∧
  timing_facts s first splice g.
Proof.
  intros Hk Hg. unfold gate_timing in Hg. apply bind_Ok in Hg as (now & s1 & Hn & Hg). apply bind_Ok in Hg as (st & s2 & Hf & Hg).
  apply port_run in Hn as [Hn Es1]. assert (Hk1 : known s1) by (rewrite Es1; exact Hk).
  pose proof (fresh_calm_run _ _ _ _ Hf) as [_ Es2 _]. apply fresh_run in Hf as (read & Hr & _ & _ & Hf); [|done].
  destruct (match issued with Some _ => _ | None => _ end); [by apply refuse_run in Hg|].
  apply bind_Ok in Hg as (? & ? & [= <- <-] & Hg). apply bind_Ok in Hg as ([pos vel] & s3 & Hc & Hg).
  apply bind_Ok in Hg as (apart & s4 & Hd & Hg). unfold lift in Hd. injection Hd as Hd <-.
  destruct apart; [by apply refuse_run in Hg|]. apply bind_Ok in Hg as (epoch & s5 & He & Hg).
  destruct (float_le epoch float_zero || _) eqn:Ht; [by apply refuse_run in Hg|]. injection Hg as <- <-.
  apply orb_false_iff in Ht as [Ht1 Ht2]. cbn [g_now g_trajectory g_scene g_state g_epoch g_deadline] in *.
  assert (s3 = s2 ∧ s5 = s3) as [-> ->].
  { split; [|destruct splice; unfold ret, lift in He; congruence]. destruct splice; [|unfold ret in Hc; congruence].
    apply bind_Ok in Hc as (? & ? & Ha & Hc). apply bind_Ok in Hc as (? & ? & Hs & Hc). unfold lift, ret in *. congruence. }
  assert (Hsame : start_s s2 = start_s s ∧ trajectory s2 = trajectory s) by (rewrite Es2, Es1; by destruct s).
  destruct Hsame as [Hstart Htraj].
  split; [exists (Ok read); by rewrite Hr, Hn|]. split; [done|]. split; [done|]. unfold timing_facts. split_and!; [done..|].
  destruct splice as [x|]; [|unfold ret in Hc; by injection Hc as <- <-]. unfold ret in He. injection He as <-. split; [done|].
  apply bind_Ok in Hc as (a & ? & Ha & Hc). apply bind_Ok in Hc as (smp & ? & Hs & Hc).
  unfold lift in Ha, Hs. injection Ha as Ha <-. injection Hs as Hs <-. injection Hc as <- <-.
  exists a, smp. unfold active, or_raise in Ha. rewrite Htraj in Ha. destruct (trajectory s); [|done]. by simplify_eq/=.
Qed.

Lemma calm_run {A} (m : prog exec error A) s r s' : stays_calm m → m s = (r, s') → calm s s'.
Proof. intros Hm Hr. specialize (Hm s). by rewrite Hr in Hm. Qed.

Lemma port_calm {A} (f : W → outcome error A * W) log r s s' : port f log s = (r, s') → harmless (log r) = true → calm s s'.
Proof.
  unfold port. destruct (f (world s)) as [r' w]. intros [= <- <-] Hl. split; [|by destruct s|done].
  exists [log r']. split; [done|]. by repeat constructor.
Qed.

(** What is known when the gate lets a trajectory through, and the calls it made,
    the newest first *)
Definition gate_facts (s : exec) (splice : option float) (g : gated) (made : list call) : Prop :=
  (∃ read before, made = [CallRead read; CallNow (Ok (g_now g)); CallConfig (Ok true); CallScene (Ok (g_scene g));
     CallCheck (g_trajectory g) (collision_resolution_rad policy) (Ok true); CallScene (Ok (g_scene g))] ++ before) ∧
  g_scene g ≠ "" ∧ (splice ≠ None → g_scene g = scene s) ∧
  safe_motion (context cfg) (limits cfg) (expected_joint_names (context cfg)) (points (snapshot (g_trajectory g))) ∧
  ∃ first, head (points (snapshot (g_trajectory g))) = Some first ∧ timing_facts s first splice g.

(** The references of the gate: the accepted trajectory, with a held start unless
    it is spliced, begins at the first point that was given *)
Lemma gate_reference st first t t1 t2 anchor (splice : option float) :
  joint_names st = expected_joint_names (context cfg) → first_point t = Ok first →
  with_positions st (point_positions first) = Ok anchor →
  accept_motion (Accepted t) anchor (context cfg) (limits cfg) = Ok t1 →
  match splice with
  | None => with_start_hold t1 anchor (context cfg) (limits cfg) (dispatch_lead_s policy)
  | Some _ => Ok t1
  end = Ok t2 →
  safe_motion (context cfg) (limits cfg) (expected_joint_names (context cfg)) (points (snapshot t2)) ∧
  head (points (snapshot t2)) = Some first.
Proof.
  intros Hj Hf Ha H1 H2. unfold with_positions in Ha. run_outcome Ha. injection Ha as <-.
  pose proof (accept_motion_points (Accepted t) _ _ _ _ _ _ eq_refl H1) as Hp. unfold first_point, or_raise in Hf.
  destruct (head (points (snapshot t))) as [p|] eqn:Hh; [|done]. injection Hf as ->. destruct splice.
  - injection H2 as <-. split; [|by rewrite Hp]. apply accept_motion_safe in H1. cbn [joint_names] in H1. by rewrite <-Hj.
  - apply with_start_hold_run in H2 as (p & ns & Hp' & -> & Hs). rewrite Hp, Hh in Hp'. injection Hp' as <-.
    cbn [joint_names] in Hs. rewrite Hj in Hs. done.
Qed.

Lemma gate_scene_run rq first t issued splice s g s' :
  known s → gate_scene cfg io rq first t issued splice s = (Ok (inr g), s') →
  (∃ read, calls s' = [CallRead read; CallNow (Ok (g_now g)); CallConfig (Ok true); CallScene (Ok (g_scene g));
     CallCheck t (collision_resolution_rad policy) (Ok true); CallScene (Ok (g_scene g))] ++ calls s) ∧
  g_trajectory g = t ∧ g_scene g ≠ "" ∧ (splice ≠ None → g_scene g = scene s) ∧ timing_facts s first splice g.
Proof.
  intros Hk Hg. unfold gate_scene in Hg. apply bind_Ok in Hg as (sc & s1 & H1 & Hg). apply port_run in H1 as [C1 E1].
  apply bind_Ok in Hg as (? & ? & [= <- <-] & Hg).
  destruct (String.eqb_spec sc "") as [|Hsc]; [by apply refuse_run in Hg|].
  destruct (bool_decide (splice ≠ None) && _) eqn:Hsp; [by apply refuse_run in Hg|].
  apply bind_Ok in Hg as (clear & s2 & H2 & Hg). apply port_run in H2 as [C2 E2]. destruct clear; [|by apply refuse_run in Hg].
  apply bind_Ok in Hg as (sc' & s3 & H3 & Hg). apply port_run in H3 as [C3 E3]. cbn [negb] in Hg.
  destruct (String.eqb_spec sc' sc) as [->|]; [|by apply refuse_run in Hg]. cbn [negb] in Hg.
  apply bind_Ok in Hg as (cur & s4 & H4 & Hg). apply port_run in H4 as [C4 E4]. destruct cur; [|by apply refuse_run in Hg].
  assert (Hsame : feedback s4 = feedback s ∧ scene s1 = scene s ∧ start_s s4 = start_s s ∧ trajectory s4 = trajectory s)
    by (rewrite E4, E3, E2, E1; by destruct s).
  destruct Hsame as (Hf & Hscene & Hst & Htr).
  assert (Hk4 : known s4) by (unfold known; by rewrite Hf). apply gate_timing_run in Hg as ([r Hr] & <- & <- & Ht); [|done].
  split; [exists r; by rewrite Hr, C4, C3, C2, C1|]. split; [done|]. split; [done|]. split.
  - intros Hne. rewrite bool_decide_eq_true_2 in Hsp by done. rewrite Hscene in Hsp. simpl in Hsp. apply negb_false_iff in Hsp.
    by apply String.eqb_eq in Hsp.
  - unfold timing_facts in *. by rewrite Hst, Htr in Ht.
Qed.

Lemma gate_run rq t b issued splice s g s' :
  known s → gate cfg io rq t b issued splice s = (Ok (inr g), s') →
  ∃ made, calls s' = made ++ calls s ∧ gate_facts s splice g made.
Proof.
  intros Hk Hg. unfold gate in Hg.
  apply bind_Ok in Hg as (cur & s1 & H1 & Hg). apply port_calm in H1; [|done].
  apply bind_Ok in Hg as (ready & s2 & H2 & Hg). destruct ready; [|by apply refuse_run in Hg].
  assert (calm s1 s2) as H2' by (destruct cur; [by apply port_calm in H2|done]).
  cbn [negb] in Hg. apply bind_Ok in Hg as (now & s3 & H3 & Hg). apply port_calm in H3; [|done].
  apply bind_Ok in Hg as (st & s4 & H4 & Hg). pose proof (fresh_calm_run _ _ _ _ H4) as C4.
  assert (Hc : calm s s3) by (etrans; [exact H1|etrans; [exact H2'|exact H3]]).
  apply fresh_run in H4 as (_ & _ & _ & _ & _ & _ & _ & _ & Hj); [|by eapply calm_known].
  assert (Hc4 : calm s s4) by (etrans; [exact Hc|exact C4]).
  apply bind_Ok in Hg as (first & s5 & H5 & Hg). unfold lift in H5. injection H5 as H5 <-.
  apply bind_Ok in Hg as (fast & s6 & H6 & Hg). destruct fast; [by apply refuse_run in Hg|].
  assert (s6 = s4) as -> by (destruct b; unfold ret, lift in H6; congruence).
  apply bind_Ok in Hg as (anchor & s7 & H7 & Hg). unfold lift in H7. injection H7 as H7 <-.
  apply bind_Ok in Hg as (t1 & s8 & H8 & Hg). unfold lift in H8. injection H8 as H8 <-.
  apply bind_Ok in Hg as (t2 & s9 & H9 & Hg). unfold lift in H9. injection H9 as H9 <-.
  destruct (gate_reference st first t t1 t2 anchor splice Hj H5 H7 H8 H9) as [Hsafe Hhead].
  apply gate_scene_run in Hg as ([r Hr] & Ht & Hsc & Hsp & Htime); [|by eapply calm_known].
  destruct Hc4 as [(new & Hnew & _) Hrest _].
  assert (Hsame : scene s4 = scene s ∧ start_s s4 = start_s s ∧ trajectory s4 = trajectory s) by (rewrite Hrest; by destruct s).
  destruct Hsame as (E1 & E2 & E3). eexists (_ ++ new). split; [by rewrite Hr, Hnew, app_assoc|].
  unfold gate_facts. rewrite Ht. split; [by exists r, new|]. rewrite E1 in Hsp. split_and!; [done..|].
  exists first. split; [done|]. unfold timing_facts in *. by rewrite E2, E3 in Htime.
Qed.

End Proofs.

Local Open Scope Z_scope.

Section Gate.
Context `{Libm} {W : Type} (cfg : configuration) (io : MotionTransport (W:=W)).
Abbreviation exec := (Executor (W:=W)).
Implicit Types (s : exec).
Let policy := motion_policy cfg.

(** The requests that were announced, the latest first *)
Definition announced (l : list call) : list string :=
  omap (λ c, match c with CallEmit (DispatchIntent i) _ => Some (intent_request i) | _ => None end) l.

(** What holds when a transmission is announced, about the calls before it, the
    newest first: feedback was read at the announced time, after the configuration
    was found current and the path of this trajectory clear in this scene, which
    did not change meanwhile; the trajectory is safe; the feedback is fresh and
    near where the motion starts, or, for a splice, near the reference that was
    transmitted before with the same start; there is time left *)
Definition intent_ok (i : intent) (pre : list call) : Prop :=
  (∃ read before, pre = [CallRead read; CallNow (Ok (intent_sim_time i)); CallConfig (Ok true); CallScene (Ok (intent_scene i));
     CallCheck (intent_trajectory i) (collision_resolution_rad policy) (Ok true); CallScene (Ok (intent_scene i))] ++ before) ∧
  intent_scene i ≠ "" ∧
  safe_motion (context cfg) (limits cfg) (expected_joint_names (context cfg)) (points (snapshot (intent_trajectory i))) ∧
  fresh_at cfg (intent_sim_time i) (intent_state i) ∧
  float_le (intent_start i) float_zero = false ∧ float_le (intent_accept_before i) (intent_sim_time i) = false ∧
  intent_accept_before i =
    float_sub (float_add (intent_start i) (default (dispatch_lead_s policy) (intent_splice i))) (dispatch_margin_s policy) ∧
  ∃ first, head (points (snapshot (intent_trajectory i))) = Some first ∧
    match intent_splice i with
    | None => near cfg (point_positions first) (point_velocities first) (intent_state i)
    | Some _ => ∃ a h r, CallSend a (intent_start i) (Ok (Some h)) ∈ pre ∧
        sample_trajectory a (float_max float_zero (float_sub (observed_at_s (intent_state i)) (intent_start i))) = Ok r ∧
        near cfg (sample_positions r) (sample_velocities r) (intent_state i)
    end.

(** A transmission directly follows a reading of the clock before its deadline and
    its own announcement *)
Definition send_ok (t : AcceptedTrajectory) (start : float) (pre : list call) : Prop :=
  ∃ i n before, pre = [CallNow (Ok n); CallEmit (DispatchIntent i) (Ok ())] ++ before ∧
    intent_trajectory i = t ∧ intent_start i = start ∧ float_le (intent_accept_before i) n = false.

Definition call_ok (c : call) (pre : list call) : Prop :=
  match c with
  | CallSend t start _ => send_ok t start pre
  | CallEmit (DispatchIntent i) _ => intent_ok i pre ∧ intent_request i ∉ announced pre
  | _ => True
  end.

Fixpoint trace_ok (l : list call) : Prop :=
  match l with [] => True | c :: pre => call_ok c pre ∧ trace_ok pre end.

Record traced s : Prop := {
  tr_ok : trace_ok (calls s);
  tr_seen : ∀ rq, rq ∈ announced (calls s) → rq ∈ seen s;
  tr_known : known cfg s;
  tr_active : ∀ a, trajectory s = Some a → ∃ h, CallSend a (start_s s) (Ok (Some h)) ∈ calls s;
  tr_target : is_confirmed (stop_target s) = true
}.

(** ** Harmless calls *)

Lemma harmless_ok c pre : harmless c = true → call_ok c pre.
Proof. destruct c as [| | | | | | | |[]| |]; simpl; done. Qed.

Lemma harmless_announced new l : Forall (λ c, harmless c = true) new → announced (new ++ l) = announced l.
Proof. induction 1 as [|c new Hc _ IH]; [done|]. simpl. destruct c as [| | | | | | | |[]| |]; done. Qed.

Lemma harmless_trace new l : Forall (λ c, harmless c = true) new → trace_ok l → trace_ok (new ++ l).
Proof. induction 1 as [|c new Hc _ IH]; intros Hl; [done|]. simpl. split; [by apply harmless_ok|by apply IH]. Qed.

Lemma traced_calm s s' : calm cfg s s' → traced s → traced s'.
Proof.
  intros [(new & Hc & Hn) Hr Hk] [Hok Hseen Hknown Hact Htarget].
  assert (Hsame : seen s' = seen s ∧ trajectory s' = trajectory s ∧ start_s s' = start_s s ∧ stop_target s' = stop_target s)
    by (rewrite Hr; by destruct s).
  destruct Hsame as (E1 & E2 & E3 & E4). split; rewrite ?Hc, ?E4; [| | | |done].
  - by apply harmless_trace.
  - rewrite harmless_announced, E1 by done. done.
  - by apply Hk.
  - rewrite E2, E3. intros a Ha. destruct (Hact a Ha) as [h Hh]. exists h. apply elem_of_app. by right.
Qed.

Lemma calm_traced {A} (m : prog exec error A) : stays_calm cfg m → preserves traced m.
Proof. intros Hm s. apply traced_calm, Hm. Qed.

(** Assignments to fields that the invariant does not mention *)
Lemma traced_frame s s' :
  calls s' = calls s → seen s ⊆ seen s' → feedback s' = feedback s → trajectory s' = trajectory s → start_s s' = start_s s →
  stop_target s' = stop_target s → traced s → traced s'.
Proof.
  intros E1 E2 E3 E4 E5 E6 [Hok Hseen Hknown Hact Htarget]. split; rewrite ?E1, ?E4, ?E5, ?E6; [done|set_solver| |done..].
  unfold known. by rewrite E3.
Qed.

Lemma preserves_frame (f : exec → exec) :
  (∀ s, calls (f s) = calls s ∧ seen s ⊆ seen (f s) ∧ feedback (f s) = feedback s ∧ trajectory (f s) = trajectory s ∧
    start_s (f s) = start_s s ∧ stop_target (f s) = stop_target s) →
  preserves (E:=error) traced (modify f).
Proof. intros Hf. apply preserves_modify. intros s. destruct (Hf s) as (? & ? & ? & ? & ? & ?). by apply (traced_frame s (f s)). Qed.

Lemma preserves_try {A} (I : exec → Prop) (m : prog exec error A) f h :
  preserves I m → (∀ e, preserves I (h e)) → preserves I (try_except m f h).
Proof.
  intros Hm Hh s HI. unfold try_except. specialize (Hm s HI). destruct (m s) as [[a|e] s']; [done|]. simpl in *.
  destruct (f e); [by apply Hh|done].
Qed.

Lemma preserves_lift {A} (I : exec → Prop) (o : outcome error A) : preserves I (lift o).
Proof. by intros s. Qed.

Lemma traced_set_seen s rq : traced s → traced (set_seen ({[rq]} ∪ seen s) s).
Proof. apply (traced_frame s); [done|simpl; set_solver|done..]. Qed.

Lemma fault_traced r d rq : preserves traced (_fault io r d rq).
Proof. intros s Hs. eapply traced_calm; [apply fault_calm|]. by apply (traced_frame s). Qed.

(** ** Dispatch *)

Lemma port_traced {A} (f : W → outcome error A * W) log s r s' :
  port f log s = (r, s') → call_ok (log r) (calls s) → (∀ rq, rq ∈ announced [log r] → rq ∈ seen s) → traced s → traced s'.
Proof.
  intros Hp Hok Hann [Htr Hseen Hknown Hact Htarget]. apply port_run in Hp as [Hc Hs].
  assert (Hsame : seen s' = seen s ∧ trajectory s' = trajectory s ∧ start_s s' = start_s s ∧ feedback s' = feedback s ∧
    stop_target s' = stop_target s) by (rewrite Hs; by destruct s).
  destruct Hsame as (E1 & E2 & E3 & E4 & E5). split; rewrite ?Hc, ?E1, ?E2, ?E3, ?E5; [| | | |done].
  - by split.
  - intros rq Hrq. change (log r :: calls s) with ([log r] ++ calls s) in Hrq. unfold announced in Hrq. rewrite omap_app in Hrq.
    apply elem_of_app in Hrq as [Hrq|Hrq]; auto.
  - unfold known. by rewrite E4.
  - intros a Ha. destruct (Hact a Ha) as [h Hh]. exists h. by right.
Qed.

Lemma receipt_traced rq r b att acc d : preserves traced (_receipt (W:=W) rq r b att acc d).
Proof. apply calm_traced, receipt_calm. Qed.
Lemma reject_traced rq r d : preserves traced (_reject io rq r d).
Proof. apply calm_traced, reject_calm. Qed.
Lemma fresh_traced now : preserves traced (_fresh cfg io now).
Proof. apply calm_traced, fresh_calm. Qed.
Lemma get_state_traced now : preserves traced (get_state cfg io now).
Proof. apply calm_traced, get_state_calm. Qed.
Lemma port_kept {A} (f : W → outcome error A * W) log : (∀ r, harmless (log r) = true) → preserves traced (port f log).
Proof. intros Hl. by apply calm_traced, calm_port. Qed.

Create HintDb traced.
#[local] Hint Resolve preserves_ret preserves_raise preserves_get preserves_lift fault_traced receipt_traced reject_traced fresh_traced
  get_state_traced : traced.

(** Follows the text of a program *)
Ltac keep_step :=
  match goal with
  | |- preserves _ (bind _ _) => apply preserves_bind; [|intros ?]
  | |- preserves _ (try_except _ _ _) => apply preserves_try; [|intros ?]
  | |- preserves _ (modify _) => apply preserves_frame; by intros []
  | |- preserves _ (when ?b _) => unfold when; destruct b
  | |- preserves _ (match _ with _ => _ end) => case_match
  | |- preserves _ _ => solve [eauto 1 with traced]
  | |- preserves _ _ => apply port_kept; by intros ?
  end.
Ltac keep := cbv zeta; repeat keep_step.

Lemma dispatched_traced rq g h old wall b before : preserves traced (dispatched io rq g h old wall b before).
Proof. unfold dispatched. keep. Qed.
#[local] Hint Resolve dispatched_traced : traced.

(** Once a goal was accepted its trajectory is the active one *)
Lemma adopt_traced s g h rq :
  CallSend (g_trajectory g) (g_epoch g) (Ok (Some h)) ∈ calls s → traced s → traced (adopt rq g h s).
Proof. intros Hin [Hok Hseen Hknown Hact Htarget]. split; [done..| |done]. simpl. intros a [= <-]. by exists h. Qed.

Lemma taken_traced rq g h old wall b before : preserves traced (taken io rq g h old wall b before).
Proof. unfold taken. keep. Qed.

(** Two programs in sequence *)
Lemma bind_traced {A B} (m : prog exec error A) (k : A → prog exec error B) s :
  traced (m s).2 → (∀ a s', m s = (Ok a, s') → traced s' → traced (k a s').2) → traced (bind m k s).2.
Proof. intros Hm Hk. unfold bind. destruct (m s) as [[a|e] s'] eqn:Hms; [by apply Hk|done]. Qed.

Lemma try_run {A} (m : prog exec error A) f h s a s' :
  try_except m f h s = (Ok a, s') → m s = (Ok a, s') ∨ ∃ e s1, m s = (Raise e, s1) ∧ h e s1 = (Ok a, s').
Proof. unfold try_except. destruct (m s) as [[b|e] s1]; [by left|]. destruct (f e); [|done]. eauto. Qed.

Lemma transmit_traced rq g old wall b before s :
  send_ok (g_trajectory g) (g_epoch g) (calls s) → traced s → traced (transmit io rq g old wall b before s).2.
Proof.
  intros Hok Hs. assert (Hsend : ∀ r s1, call_send io (g_trajectory g) (g_epoch g) s = (r, s1) → traced s1).
  { intros r s1 Hr. eapply port_traced; [exact Hr|done|by intros ? ?%elem_of_nil|done]. }
  apply bind_traced.
  - unfold try_except, bind at 1. destruct (call_send _ _ _ s) as [[h|e] s1]; pose proof (Hsend _ _ eq_refl) as Hs1; [done|].
    destruct (is_exception e); [|done]. clear Hsend. revert s1 Hs1.
    match goal with |- ∀ s, traced s → traced (?m s).2 => change (preserves traced m) end. keep.
  - intros [rc|[h|]] s1 Hr Hs1; [done| |revert s1 Hs1 Hr; intros s1 Hs1 _; revert s1 Hs1; match goal with |- ∀ s, traced s → traced (?m s).2 => change (preserves traced m) end; keep].
    rewrite bind_modify. apply taken_traced, adopt_traced; [|done].
    apply try_run in Hr as [(h' & s2 & Hr & [= -> <-])%bind_Ok|(e & s2 & _ & (? & ? & _ & (? & ? & _ & [=])%bind_Ok)%bind_Ok)].
    apply port_run in Hr as [-> _]. by left.
Qed.

Lemma commit_traced rq g wall b splice before s :
  intent_ok (make_intent cfg rq g b splice) (calls s) → rq ∉ announced (calls s) → rq ∈ seen s → traced s →
  traced (commit cfg io rq g wall b splice before s).2.
Proof.
  intros Hok Hnew Hseen Hs. apply bind_traced.
  { destruct (call_emit io _ s) as [r s1] eqn:He. eapply port_traced; [exact He|done| |done].
    intros x ->%list_elem_of_singleton. done. }
  intros [] s1 He Hs1. apply bind_traced; [done|]. intros ? ? [= <- <-] _. apply bind_traced.
  { revert s1 He Hs1. intros s1 _ Hs1. revert s1 Hs1.
    match goal with |- ∀ s, traced s → traced (?m s).2 => change (preserves traced m) end. keep. }
  intros [rc|] s2 Hl Hs2; [done|].
  apply try_run in Hl as [(now & s3 & Hn & Hl)%bind_Ok|(e & s3 & _ & (? & ? & _ & [=])%bind_Ok)].
  destruct (float_le (g_deadline g) now) eqn:Hd; [by apply bind_Ok in Hl as (? & ? & _ & [=])|]. injection Hl as <-.
  apply transmit_traced; [|done]. exists (make_intent cfg rq g b splice), now, (calls s).
  apply port_run in Hn as [-> _]. apply port_run in He as [-> _]. by split_and!.
Qed.

Lemma dispatch_traced rq t wall b issued splice : preserves traced (_dispatch cfg io rq t wall b issued splice).
Proof.
  intros s Hs. unfold _dispatch. apply bind_traced; [done|]. intros ? ? [= <- <-] _. cbv zeta.
  destruct (negb (non_blank rq)); [done|]. case_bool_decide as Hseen; [by apply calm_traced; [apply reject_calm|]|].
  destruct (negb _); [by apply calm_traced; [apply reject_calm|]|]. destruct t as [t|]; [|by apply calm_traced; [apply reject_calm|]].
  destruct (negb _); [by apply calm_traced; [apply reject_calm|]|]. rewrite bind_modify.
  set (s1 := set_seen _ s). assert (Hs1 : traced s1) by (by apply traced_set_seen). apply bind_traced.
  { apply calm_traced; [|done]. apply calm_try; [apply gate_calm|]. intros e. apply calm_bind; [apply reject_calm|intros ?; apply calm_ret]. }
  intros [rc|g] s2 Hg Hs2; [done|].
  apply try_run in Hg as [Hg|(e & s3 & _ & (? & ? & _ & [=])%bind_Ok)].
  pose proof (calm_run _ _ _ _ _ (gate_calm cfg io rq t b issued splice) Hg) as [(new & Hnew & Hharm) Hrest _].
  apply gate_run in Hg as (made & Hmade & (read & before & Hread) & Hsc & _ & Hsafe & first & Hhead & Hfresh & He & Hd & Hdl & Hsp);
    [|by destruct Hs1]. apply commit_traced; [|..|done].
  - unfold intent_ok, make_intent. cbn [intent_request intent_trajectory intent_scene intent_state intent_sim_time intent_start
      intent_accept_before intent_splice].
    split; [rewrite Hmade, Hread; exists read, (before ++ calls s1); by rewrite <-app_assoc|]. split_and!; try done.
    exists first. split; [done|]. destruct splice as [x|]; [|done]. destruct Hsp as (Hst & a & r & Ha & Hr & Hnear).
    destruct (tr_active _ Hs1 a Ha) as [h Hh]. exists a, h, r. split_and!; [|done|done]. rewrite Hst, Hmade. apply elem_of_app. by right.
  - rewrite Hnew, harmless_announced by done. intros Hin. by apply Hseen, (tr_seen _ Hs).
  - rewrite Hrest. simpl. set_solver.
Qed.

(** ** Every operation *)

#[local] Hint Resolve dispatch_traced : traced.

Lemma submit_command_traced c now wall : preserves traced (submit_command cfg io c now wall).
Proof. unfold submit_command. keep. Qed.

Lemma set_target_traced target : is_confirmed target = true → preserves (E:=error) traced (modify (set_stop_target target)).
Proof. intros Ht. apply preserves_modify. intros s [Hok Hseen Hknown Hact _]. by split. Qed.

Lemma brake_body_traced rq now wall target : is_confirmed target = true → preserves traced (brake_body cfg io rq now wall target).
Proof.
  intros Ht. unfold brake_body. keep_step; [keep|]. keep_step; [apply calm_traced, brake_reference_calm|].
  keep_step; [by apply set_target_traced|]. keep.
Qed.

(** A request is noted *)
Lemma note_traced {A} rq (m : prog exec error A) :
  preserves traced m → preserves traced (s <- get ;; modify (set_seen ({[rq]} ∪ seen s)) ;;; m)%prog.
Proof. intros Hm s Hs. unfold bind at 1, get. rewrite bind_modify. by apply Hm, traced_set_seen. Qed.

Lemma brake_traced rq now wall target : is_confirmed target = true → preserves traced (_brake cfg io rq now wall target).
Proof.
  intros Ht. unfold _brake. keep_step; [keep|]. cbv zeta. keep_step; [keep|]. keep_step; [keep|].
  keep_step; [by apply brake_body_traced|].
  apply note_traced. keep.
Qed.

Lemma reset_traced rq now : preserves traced (reset cfg io rq now).
Proof.
  unfold reset. keep_step; [keep|]. cbv zeta. keep_step; [keep|]. keep_step; [keep|]. keep_step.
  - keep_step; [apply calm_traced, reset_gate_calm|keep].
  - keep_step; [keep|]. apply note_traced. keep.
Qed.

Lemma settle_traced now elapsed t st result : preserves traced (settle cfg io now elapsed t st result).
Proof. unfold settle. keep. Qed.
#[local] Hint Resolve settle_traced : traced.

Lemma watch_traced now wall : preserves traced (watch cfg io now wall).
Proof. unfold watch. keep. Qed.
#[local] Hint Resolve watch_traced : traced.

Lemma track_traced now st : preserves traced (track cfg io now st).
Proof. unfold track. keep. Qed.
#[local] Hint Resolve track_traced : traced.

Lemma poll_traced now wall : preserves traced (poll cfg io now wall).
Proof. unfold poll, poll_body. keep. Qed.

Lemma abort_traced d : preserves traced (abort io d).
Proof. unfold abort. keep. Qed.

Lemma perform_traced o s : traced s → traced (perform cfg io o s).
Proof.
  destruct o; simpl; unfold after.
  - apply submit_command_traced.
  - apply dispatch_traced.
  - by apply brake_traced.
  - by apply brake_traced.
  - apply reset_traced.
  - apply poll_traced.
  - apply abort_traced.
  - apply get_state_traced.
  - apply calm_traced, calm_update.
Qed.

Lemma performs_traced os s : traced s → traced (performs cfg io os s).
Proof. revert s. induction os as [|o os IH]; intros s Hs; [done|]. simpl. by apply IH, perform_traced. Qed.

Lemma fresh_executor_traced robot c l p w s0 : make_executor robot c l p w = Ok (cfg, s0) → traced s0.
Proof.
  unfold make_executor. intros Hm. run_outcome Hm. injection Hm as _ <-. split; [done|by intros ? ?%elem_of_nil|done..].
Qed.

Lemma trace_ok_app post pre : trace_ok (post ++ pre) → trace_ok pre.
Proof. induction post as [|c post IH]; [done|]. intros [_ Hp]. by apply IH. Qed.

(** What the trace of a fresh executor shows about a transmission *)
Lemma transmission_gated robot c l p w s0 os post t start r pre :
  make_executor robot c l p w = Ok (cfg, s0) →
  calls (performs cfg io os s0) = post ++ CallSend t start r :: pre →
  ∃ i n before, pre = [CallNow (Ok n); CallEmit (DispatchIntent i) (Ok ())] ++ before ∧
    intent_trajectory i = t ∧ intent_start i = start ∧ float_le (intent_accept_before i) n = false ∧
    intent_ok i before ∧ intent_request i ∉ announced before.
Proof.
  intros Hm Hc. pose proof (fresh_executor_traced _ _ _ _ _ _ Hm) as Hs0.
  pose proof (tr_ok _ (performs_traced os s0 Hs0)) as Hok. rewrite Hc in Hok. apply trace_ok_app in Hok as [Hsend Hpre].
  destruct Hsend as (i & n & before & -> & Ht & Hst & Hn). destruct Hpre as [_ [[Hi Hr] _]]. exists i, n, before. by split_and!.
Qed.

End Gate.
