(* ===== verification/TrajectoryExecutorSafety.v ===== *)
(** * Motion control: the lifecycle, and what a stop, a reset and a completion guarantee

    The abstract lifecycle machine, and that every operation makes one of its
    moves.  The receipt of a brake against the lifecycle, the checks before a fault is
    cleared, and what was measured when a motion counts as finished. *)

From Stdlib Require Import ZArith Ascii String SpecFloat.
From S2P Require Import Prelude PyVal Json PyText PyFloat MotionTypes JointLimits JointLimitsTheorems Quintic MotionSafety MotionSafetyTheorems TrajectoryExecutor TrajectoryExecutorGate.
Local Open Scope Z_scope.

Module L := ControllerLifecycle.

(** ** The abstract machine *)

(** The moves of each operation; it may also leave the lifecycle alone *)
Inductive lifecycle_move : operation → L.t → L.t → Prop :=
| Stay o l : lifecycle_move o l l
| StartCommand c now wall l : l ∈ [L.EXECUTING; L.FAULTED] → lifecycle_move (SubmitCommand c now wall) L.READY l
| StartTrajectory rq t wall l : l ∈ [L.EXECUTING; L.FAULTED] → lifecycle_move (SubmitTrajectory rq t wall) L.READY l
| BrakeStop rq now wall l l' : l ∈ [L.READY; L.EXECUTING] → l' ∈ [L.STOPPING; L.FAULTED] → lifecycle_move (Stop rq now wall) l l'
| BrakeHold rq now wall l l' : l ∈ [L.READY; L.EXECUTING] → l' ∈ [L.STOPPING; L.FAULTED] → lifecycle_move (Hold rq now wall) l l'
| Arrive now wall : lifecycle_move (Poll now wall) L.EXECUTING L.READY
| Rest now wall l : l ∈ [L.STOPPED; L.HOLDING] → lifecycle_move (Poll now wall) L.STOPPING l
| Lose now wall l : l ∈ [L.EXECUTING; L.STOPPING; L.HOLDING; L.STOPPED] → lifecycle_move (Poll now wall) l L.FAULTED
| AbortRun d l : l ∈ [L.EXECUTING; L.STOPPING] → lifecycle_move (Abort d) l L.FAULTED
| Recover rq now l : l ∈ [L.STOPPED; L.HOLDING; L.FAULTED] → lifecycle_move (Reset rq now) l L.READY.

Section Lifecycle.
Context `{Libm} {W : Type} (cfg : configuration) (io : MotionTransport (W:=W)).
Abbreviation exec := (Executor (W:=W)).
Implicit Types (s : exec).
Let policy := motion_policy cfg.

Lemma bind_get {B} (k : exec → prog exec error B) s : bind get k s = k s s.
Proof. done. Qed.

(** ** Programs that change the lifecycle to certain values only *)

Definition lands {A} (T : list L.t) (m : prog exec error A) : Prop :=
  ∀ s, (lifecycle (m s).2 = lifecycle s ∨ lifecycle (m s).2 ∈ T).

Lemma lands_calm {A} T (m : prog exec error A) : stays_calm cfg m → lands T m.
Proof. intros Hm s. left. destruct (Hm s) as [_ Hr _]. rewrite Hr. by destruct s. Qed.

Lemma lands_bind {A B} T (m : prog exec error A) (k : A → prog exec error B) : lands T m → (∀ a, lands T (k a)) → lands T (bind m k).
Proof.
  intros Hm Hk s. unfold bind. specialize (Hm s). destruct (m s) as [[a|e] s']; simpl in *; [|done].
  destruct (Hk a s') as [->|Hk']; [done|by right].
Qed.

Lemma lands_try {A} T (m : prog exec error A) f h : lands T m → (∀ e, lands T (h e)) → lands T (try_except m f h).
Proof.
  intros Hm Hh s. unfold try_except. specialize (Hm s). destruct (m s) as [[a|e] s']; simpl in *; [done|].
  destruct (f e); [|done]. destruct (Hh e s') as [->|Hh']; [done|by right].
Qed.

Lemma lands_ret {A} T (a : A) : lands T (ret a).
Proof. by left. Qed.
Lemma lands_raise {A} T e : lands (A:=A) T (raise e).
Proof. by left. Qed.
Lemma lands_get T : lands T (get (S:=exec)).
Proof. by left. Qed.
Lemma lands_lift {A} T (o : outcome error A) : lands T (lift o).
Proof. by left. Qed.
Lemma lands_port {A} T (f : W → outcome error A * W) log : lands T (port f log).
Proof. intros s. left. unfold port. by destruct (f (world s)). Qed.
Lemma lands_set T l : l ∈ T → lands T (modify (set_lifecycle (W:=W) l)).
Proof. intros Hl s. by right. Qed.
Lemma lands_modify T (f : exec → exec) : (∀ s, lifecycle (f s) = lifecycle s) → lands T (modify f).
Proof. intros Hf s. left. apply Hf. Qed.
Lemma lands_fault T r d rq : L.FAULTED ∈ T → lands T (_fault io r d rq).
Proof. intros HT s. right. destruct (fault_calm cfg io r d rq s) as [_ Hr _]. by rewrite Hr. Qed.
Lemma lands_receipt T rq r b att acc d : lands T (_receipt (W:=W) rq r b att acc d).
Proof. apply lands_calm, receipt_calm. Qed.
Lemma lands_reject T rq r d : lands T (_reject io rq r d).
Proof. apply lands_calm, reject_calm. Qed.
Lemma lands_fresh T now : lands T (_fresh cfg io now).
Proof. apply lands_calm, fresh_calm. Qed.

Create HintDb lands.
#[local] Hint Resolve lands_ret lands_raise lands_get lands_lift lands_port lands_receipt lands_reject lands_fresh : lands.

Ltac elem := solve [repeat first [by left | right]].
Ltac land_step :=
  match goal with
  | |- lands _ (bind _ _) => apply lands_bind; [|intros ?]
  | |- lands _ (try_except _ _ _) => apply lands_try; [|intros ?]
  | |- lands _ (modify (set_lifecycle _)) => apply lands_set; elem
  | |- lands _ (modify _) => apply lands_modify; by intros []
  | |- lands _ (_fault _ _ _ _) => apply lands_fault; elem
  | |- lands _ (when ?b _) => unfold when; destruct b
  | |- lands _ (match _ with _ => _ end) => case_match
  | |- lands _ _ => solve [eauto 1 with lands]
  | |- lands _ _ => apply lands_port
  end.
Ltac land := cbv zeta; repeat land_step.

(** ** Dispatch *)

Definition started (braking : bool) : L.t := if braking then L.STOPPING else L.EXECUTING.

Lemma commit_lands rq g wall b splice before : lands [started b; L.FAULTED] (commit cfg io rq g wall b splice before).
Proof. unfold commit, transmit, taken, dispatched. destruct b; land. Qed.

Lemma dispatch_lands rq t wall b issued splice s :
  let s' := (_dispatch cfg io rq t wall b issued splice s).2 in
  lifecycle s' = lifecycle s ∨
  ((lifecycle s = L.READY ∨ (b = true ∧ lifecycle s = L.EXECUTING)) ∧ lifecycle s' ∈ [started b; L.FAULTED]).
Proof.
  cbv zeta. destruct (decide (lifecycle s = L.READY ∨ (b = true ∧ lifecycle s = L.EXECUTING))) as [Hl|Hl].
  - assert (Hd : lands [started b; L.FAULTED] (_dispatch cfg io rq t wall b issued splice)).
    { unfold _dispatch. land; [apply lands_calm, gate_calm|apply commit_lands]. }
    destruct (Hd s) as [?|?]; [by left|by right].
  - left. unfold _dispatch. unfold bind at 1, get. cbv zeta. destruct (negb (non_blank rq)); [done|].
    case_bool_decide; [by destruct (lands_reject [] rq ReceiptReason.DUPLICATE_REQUEST None s) as [?|[]%elem_of_nil]|].
    destruct (negb _) eqn:Hn; [by destruct (lands_reject [] rq ReceiptReason.INVALID_LIFECYCLE None s) as [?|[]%elem_of_nil]|].
    exfalso. apply Hl. apply negb_false_iff, orb_true_iff in Hn as [Hn|Hn]; [left; by apply bool_decide_eq_true in Hn|].
    apply andb_true_iff in Hn as [-> Hn]. right. by apply bool_decide_eq_true in Hn.
Qed.

(** A program that leaves the lifecycle alone, then another one *)
Lemma lands_nil {A} (m : prog exec error A) s r s' : lands [] m → m s = (r, s') → lifecycle s' = lifecycle s.
Proof. intros Hm Hr. destruct (Hm s) as [Hl|[]%elem_of_nil]. by rewrite Hr in Hl. Qed.

Lemma after_same {A B} (m : prog exec error A) (k : A → prog exec error B) s (P : L.t → Prop) :
  lands [] m → P (lifecycle s) → (∀ a s', m s = (Ok a, s') → lifecycle s' = lifecycle s → P (lifecycle (k a s').2)) →
  P (lifecycle (bind m k s).2).
Proof.
  intros Hm Hs Hk. unfold bind. destruct (m s) as [[a|e] s'] eqn:Hr; simpl.
  - by eapply Hk, lands_nil.
  - by rewrite (lands_nil m s _ s' Hm Hr).
Qed.

Lemma same_lifecycle {A} (m : prog exec error A) s : lands [] m → lifecycle (m s).2 = lifecycle s.
Proof. intros Hm. by destruct (Hm s) as [?|[]%elem_of_nil]. Qed.

Lemma submit_command_lands c now wall s :
  let s' := (submit_command cfg io c now wall s).2 in
  lifecycle s' = lifecycle s ∨ (lifecycle s = L.READY ∧ lifecycle s' ∈ [L.EXECUTING; L.FAULTED]).
Proof.
  cbv zeta. unfold submit_command. cbv zeta. do 3 (destruct (negb _); [left; apply same_lifecycle; land|]).
  apply (after_same _ _ s (λ l, l = lifecycle s ∨ (lifecycle s = L.READY ∧ l ∈ [L.EXECUTING; L.FAULTED]))); [land|by left|].
  intros [rc|t] s' _ Hl; [left; exact Hl|].
  destruct (dispatch_lands (command_id c) (Some t) wall false (Some (issued_at_s c)) None s') as [->|[[Hr|[[=] _]] Hd]]; [left; exact Hl|].
  right. by rewrite <-Hl.
Qed.

(** ** Brakes *)

Lemma brake_body_lands rq now wall target : lands [L.STOPPING; L.FAULTED] (brake_body cfg io rq now wall target).
Proof.
  unfold brake_body. land; [apply lands_calm, brake_reference_calm|].
  intros s. destruct (dispatch_lands rq (Some a0.1) wall true None a0.2 s) as [Hs|[_ Hs]]; [by left|by right].
Qed.

Lemma brake_lands rq now wall target s :
  let s' := (_brake cfg io rq now wall target s).2 in
  lifecycle s' = lifecycle s ∨ (lifecycle s ∈ [L.READY; L.EXECUTING] ∧ lifecycle s' ∈ [L.STOPPING; L.FAULTED]).
Proof.
  cbv zeta. unfold _brake. rewrite bind_get. cbv zeta. case_bool_decide; [left; apply same_lifecycle; land|].
  case_bool_decide as Hl; simpl; [|left; apply same_lifecycle; land].
  match goal with |- context [(?m s).2] => assert (Hm : lands [L.STOPPING; L.FAULTED] m) end.
  { land. apply brake_body_lands. }
  destruct (Hm s) as [?|?]; [by left|by right].
Qed.

Lemma reset_lands rq now s :
  let s' := (reset cfg io rq now s).2 in
  lifecycle s' = lifecycle s ∨ (lifecycle s ∈ [L.STOPPED; L.HOLDING; L.FAULTED] ∧ lifecycle s' = L.READY).
Proof.
  cbv zeta. unfold reset. rewrite bind_get. cbv zeta. case_bool_decide; [left; apply same_lifecycle; land|].
  case_bool_decide as Hl; simpl; [|left; apply same_lifecycle; land].
  match goal with |- context [(?m s).2] => assert (Hm : lands [L.READY] m) end.
  { land. apply lands_calm, reset_gate_calm. }
  destruct (Hm s) as [?|Hx]; [by left|]. right. split; [done|]. by apply list_elem_of_singleton in Hx.
Qed.

(** ** Supervision *)

(** Where a motion that comes to rest leads *)
Definition rest_of s : L.t := if decide (lifecycle s = L.STOPPING) then stop_target s else L.READY.

Lemma settle_lands now elapsed t st result s :
  lifecycle (settle cfg io now elapsed t st result s).2 = lifecycle s ∨
  lifecycle (settle cfg io now elapsed t st result s).2 ∈ [rest_of s; L.FAULTED].
Proof.
  unfold settle. rewrite bind_get. cbv zeta.
  match goal with |- lifecycle (?m s).2 = _ ∨ _ => assert (Hm : lands [rest_of s; L.FAULTED] m) end.
  { assert (Hr : (if bool_decide (lifecycle s = L.STOPPING) then stop_target s else L.READY) = rest_of s)
      by (unfold rest_of; by case_bool_decide; case_decide). rewrite Hr. land. }
  apply Hm.
Qed.

(** A program that leaves the lifecycle and the target of a stop alone *)
Definition steady {A} (m : prog exec error A) : Prop :=
  ∀ s, lifecycle (m s).2 = lifecycle s ∧ stop_target (m s).2 = stop_target s.

Lemma steady_calm {A} (m : prog exec error A) : stays_calm cfg m → steady m.
Proof. intros Hm s. destruct (Hm s) as [_ Hr _]. rewrite Hr. by destruct s. Qed.

Lemma steady_bind {A B} (m : prog exec error A) (k : A → prog exec error B) : steady m → (∀ a, steady (k a)) → steady (bind m k).
Proof.
  intros Hm Hk s. unfold bind. specialize (Hm s). destruct (m s) as [[a|e] s']; simpl in *; [|done].
  destruct Hm as [<- <-]. apply Hk.
Qed.

Lemma steady_modify (f : exec → exec) : (∀ s, lifecycle (f s) = lifecycle s ∧ stop_target (f s) = stop_target s) → steady (modify f).
Proof. intros Hf s. apply Hf. Qed.

Ltac steady := cbv zeta; repeat first
  [ apply steady_modify; by intros [] | match goal with |- steady (when ?b _) => unfold when; destruct b end
  | match goal with |- steady (bind _ _) => apply steady_bind; [|intros ?] end
  | match goal with |- steady (match _ with _ => _ end) => case_match end
  | apply steady_calm; first [apply fresh_calm | apply calm_ret | apply calm_raise | apply calm_get | apply calm_lift
      | apply calm_port; by intros ?] ].

Lemma watch_steady now wall : steady (watch cfg io now wall).
Proof. unfold watch. steady. Qed.

(** A step to the rest position of the motion, or to a fault, at the end only *)
Definition arrives (s s' : exec) : Prop := lifecycle s' = lifecycle s ∨ lifecycle s' ∈ [rest_of s; L.FAULTED].
Definition toward {A} (m : prog exec error A) : Prop := ∀ s, arrives s (m s).2.

Lemma toward_steady {A} (m : prog exec error A) : steady m → toward m.
Proof. intros Hm s. left. apply Hm. Qed.

Lemma toward_bind {A B} (m : prog exec error A) (k : A → prog exec error B) : steady m → (∀ a, toward (k a)) → toward (bind m k).
Proof.
  intros Hm Hk s. unfold bind, arrives, rest_of. destruct (Hm s) as [<- <-]. destruct (m s) as [[a|e] s']; [apply Hk|by left].
Qed.

Lemma toward_ret {A B} (m : prog exec error A) (b : B) : toward m → toward (bind m (λ _, ret b)).
Proof. intros Hm s. specialize (Hm s). unfold bind. by destruct (m s) as [[a|e] s']. Qed.

Lemma fault_toward r d rq : toward (_fault io r d rq).
Proof. intros s. right. destruct (fault_calm cfg io r d rq s) as [_ Hr _]. rewrite Hr. elem. Qed.

Lemma track_toward now st : toward (track cfg io now st).
Proof.
  unfold track. cbv zeta. repeat first [apply fault_toward | intros ?; apply settle_lands
    | match goal with |- toward (bind _ _) => apply toward_bind; [steady|intros ?] end | case_match].
Qed.

Lemma lifecycle_confirmed s : lifecycle s ∈ [L.HOLDING; L.STOPPED] ↔ is_confirmed (lifecycle s) = true.
Proof. unfold is_confirmed. by rewrite bool_decide_eq_true. Qed.

(** The body of a poll keeps a confirmed stop, unless it raises *)
Lemma poll_body_lands now wall s :
  if is_confirmed (lifecycle s) then lifecycle (poll_body cfg io now wall s).2 = lifecycle s
  else arrives s (poll_body cfg io now wall s).2.
Proof.
  destruct (watch_steady now wall s) as [Hl Ht]. unfold arrives, rest_of. rewrite <-Hl, <-Ht. unfold poll_body.
  assert (Hb : ∀ k : RobotState → prog exec error (option RobotState),
    lifecycle (bind (watch cfg io now wall) k s).2 = lifecycle (watch cfg io now wall s).2 ∨
    ∃ st, lifecycle (bind (watch cfg io now wall) k s).2 = lifecycle (k st (watch cfg io now wall s).2).2).
  { intros k. unfold bind. destruct (watch cfg io now wall s) as [[st|e] s1]; [right; by exists st|by left]. }
  match goal with |- context [bind _ ?k s] => destruct (Hb k) as [->|[st ->]] end; [destruct (is_confirmed _); [done|by left]|].
  rewrite bind_get. generalize (watch cfg io now wall s).2. intros s1. destruct (is_confirmed (lifecycle s1)).
  - match goal with |- lifecycle (?m _).2 = _ => assert (Hm : steady m) by steady end. apply Hm.
  - apply toward_ret, track_toward.
Qed.

Lemma poll_moves now wall s : is_confirmed (stop_target s) = true →
  lifecycle_move (Poll now wall) (lifecycle s) (lifecycle (poll cfg io now wall s).2).
Proof.
  intros Htarget. unfold poll.
  assert (Hw : steady match wall with Some w => ret w | None => call_monotonic io end) by steady.
  set (clock := match wall with Some w => ret w | None => call_monotonic io end) in *. unfold bind at 1. specialize (Hw s).
  destruct (clock s) as [[w|e] s1]; destruct Hw as [Hl Ht]; cbn [fst snd] in *; [|rewrite Hl; apply Stay].
  rewrite <-Ht in Htarget. rewrite <-Hl. clear Hl Ht. rewrite bind_get. case_bool_decide as Hin; cbn [negb].
  2: { destruct (steady_calm _ (get_state_calm cfg io now) s1) as [-> _]. apply Stay. }
  unfold try_except. pose proof (poll_body_lands now w s1) as Hb. destruct (poll_body cfg io now w s1) as [r s2]. cbn [snd] in Hb.
  assert (Hbody : lifecycle_move (Poll now wall) (lifecycle s1) (lifecycle s2)).
  { destruct (is_confirmed (lifecycle s1)) eqn:Hc; [rewrite Hb; apply Stay|]. unfold arrives, rest_of in Hb.
    destruct Hb as [->|Hb]; [apply Stay|]. rewrite elem_of_cons, list_elem_of_singleton in Hb.
    destruct Hb as [->| ->]; [|by apply Lose].
    destruct (lifecycle s1) eqn:El; try done; case_decide as Hd; try done; try (by set_solver +Hin); [apply Arrive|].
    apply Rest. unfold is_confirmed in Htarget. apply bool_decide_eq_true in Htarget. set_solver +Htarget. }
  destruct r as [o|e]; [done|]. destruct (is_io_error e); [|done].
  assert (Hf : lands [L.FAULTED] (_fault io (if bool_decide (class e = FeedbackUnavailable) then ReceiptReason.STALE_STATE
    else ReceiptReason.BACKEND_FAILURE) (text e) None ;;; ret (None : option RobotState))%prog) by land.
  destruct (Hf s2) as [->| ->%list_elem_of_singleton]; [done|by apply Lose].
Qed.

Lemma move_of o (T T' : list L.t) (l l' : L.t) :
  (∀ x y, x ∈ T → y ∈ T' → lifecycle_move o x y) → l' = l ∨ (l ∈ T ∧ l' ∈ T') → lifecycle_move o l l'.
Proof. intros HT [->|[Hl Hl']]; [apply Stay|by apply HT]. Qed.

Lemma perform_moves o s : traced cfg s → lifecycle_move o (lifecycle s) (lifecycle (perform cfg io o s)).
Proof.
  intros Hs. destruct o; simpl; unfold after.
  - apply (move_of _ [L.READY] [L.EXECUTING; L.FAULTED]); [intros ? ? ->%list_elem_of_singleton; by apply StartCommand|].
    destruct (submit_command_lands c now wall s) as [|[-> ?]]; [by left|right; split; [elem|done]].
  - apply (move_of _ [L.READY] [L.EXECUTING; L.FAULTED]); [intros ? ? ->%list_elem_of_singleton; by apply StartTrajectory|].
    destruct (dispatch_lands rq t wall false None None s) as [|[[->|[[=] _]] ?]]; [by left|right; split; [elem|done]].
  - apply (move_of _ [L.READY; L.EXECUTING] [L.STOPPING; L.FAULTED]); [intros; by apply BrakeStop|apply brake_lands].
  - apply (move_of _ [L.READY; L.EXECUTING] [L.STOPPING; L.FAULTED]); [intros; by apply BrakeHold|apply brake_lands].
  - destruct (reset_lands rq now s) as [->|[? ->]]; [apply Stay|by apply Recover].
  - apply poll_moves, Hs.
  - unfold abort. rewrite bind_get. unfold when. case_bool_decide; [|apply Stay].
    destruct (lands_fault [L.FAULTED] ReceiptReason.BACKEND_FAILURE d None) with (s := s) as [->| ->%list_elem_of_singleton];
      [elem|apply Stay|by apply AbortRun].
  - destruct (steady_calm _ (get_state_calm cfg io now) s) as [-> _]. apply Stay.
  - destruct (steady_calm _ (calm_update cfg st) s) as [-> _]. apply Stay.
Qed.

End Lifecycle.

Local Open Scope Z_scope.

Section Safety.
Context `{Libm} {W : Type} (cfg : configuration) (io : MotionTransport (W:=W)).
Abbreviation exec := (Executor (W:=W)).
Implicit Types (s : exec).
Let policy := motion_policy cfg.

(** ** What a program returns *)

(** Whatever a program returns satisfies [Q], with the state it leaves *)
Definition yields {A} (Q : A → exec → Prop) (m : prog exec error A) : Prop := ∀ s a s', m s = (Ok a, s') → Q a s'.

Lemma yields_seq {A B} Q (m : prog exec error A) (k : A → prog exec error B) : (∀ a, yields Q (k a)) → yields Q (bind m k).
Proof. intros Hk s b s' (a & s1 & _ & Hr)%bind_Ok. by eapply Hk. Qed.

Lemma yields_after {A B} (R : A → exec → Prop) Q (m : prog exec error A) (k : A → prog exec error B) :
  yields R m → (∀ a s b s', R a s → k a s = (Ok b, s') → Q b s') → yields Q (bind m k).
Proof. intros Hm Hk s b s' (a & s1 & Ha & Hr)%bind_Ok. eapply Hk; [|exact Hr]. by eapply Hm. Qed.

Lemma yields_try {A} Q (m : prog exec error A) f h : yields Q m → (∀ e, yields Q (h e)) → yields Q (try_except m f h).
Proof. intros Hm Hh s a s' [Hr|(e & s1 & _ & Hr)]%try_run; [by eapply Hm|by eapply Hh]. Qed.

(** A receipt is a refusal, or an acceptance with the lifecycle of the motion *)
Definition settled (b : bool) (r : ExecutionReceipt) s : Prop :=
  status r = ReceiptStatus.REJECTED ∨ (status r = ReceiptStatus.ACCEPTED ∧ lifecycle s = started b).
Definition refused (r : ExecutionReceipt) s : Prop := status r = ReceiptStatus.REJECTED.
Definition refused_or {A} (R : A → exec → Prop) (g : ExecutionReceipt + A) s : Prop :=
  match g with inl r => refused r s | inr a => R a s end.

Lemma receipt_yields rq r before attempted accepted d s rc s' :
  _receipt rq r before attempted accepted d s = (Ok rc, s') →
  s' = s ∧ status rc = if accepted then ReceiptStatus.ACCEPTED else ReceiptStatus.REJECTED.
Proof.
  unfold _receipt. rewrite bind_get. unfold lift. intros [= Hr <-]. unfold make_receipt in Hr. run_outcome Hr. by injection Hr as <-.
Qed.

Lemma reject_yields rq r d : yields refused (_reject io rq r d).
Proof.
  intros s rc s'. unfold _reject. rewrite bind_get. intros (rc' & s1 & Hr & Hk)%bind_Ok. apply receipt_yields in Hr as [_ Hr].
  by apply bind_Ok in Hk as ([] & ? & _ & [= <- _]).
Qed.

(** A refusal of the gate *)
Lemma refuse_yields {A} (R : A → exec → Prop) rq r d : yields (refused_or R) (bind (_reject io rq r d) (λ receipt, ret (inl receipt))).
Proof. eapply yields_after; [apply reject_yields|]. intros rc s b s' Hr [= <- _]. done. Qed.

Lemma yields_inr {A} (a : A) : yields (refused_or (λ _ _, True)) (ret (inr a)).
Proof. by intros s b s' [= <- _]. Qed.
Lemma yields_raise {A} (Q : A → exec → Prop) e : yields Q (raise e).
Proof. by intros s b s'. Qed.

Ltac gate_step :=
  first
    [ apply refuse_yields | apply yields_inr | apply yields_raise
    | match goal with |- yields _ (try_except _ _ _) => apply yields_try; [|intros ?] end
    | match goal with |- yields _ (bind _ _) => apply yields_seq; intros ? end
    | case_match ].

Lemma gate_yields rq t b issued splice : yields (refused_or (λ _ _, True)) (gate cfg io rq t b issued splice).
Proof. unfold gate, gate_scene, gate_timing. cbv zeta. repeat gate_step. Qed.

Lemma dispatched_yields rq g h old wall b before : yields (settled b) (dispatched io rq g h old wall b before).
Proof.
  intros s rc s' Hd. unfold dispatched in Hd. rewrite bind_modify in Hd. apply bind_Ok in Hd as (w & s1 & _ & Hd).
  rewrite !bind_modify in Hd. apply bind_Ok in Hd as (rc' & s2 & Hr & Hd). apply receipt_yields in Hr as [-> Hst].
  apply bind_Ok in Hd as ([] & s3 & Ht & [= <- <-]). right. split; [done|].
  apply try_run in Ht as [[_ ->]%port_run|(e & s4 & _ & Ht)]; [by destruct b|].
  rewrite bind_modify in Ht. by apply bind_Ok in Ht as ([] & ? & _ & [=]).
Qed.

(** Programs that end with a refusal, or with a receipt of the motion *)
Lemma refusal_yields rq r before attempted d : yields refused (_receipt rq r before attempted false d).
Proof. intros s rc s' [_ Hr]%receipt_yields. done. Qed.
Lemma yields_settled b m : yields refused m → yields (settled b) m.
Proof. intros Hm s rc s' Hr. left. by eapply Hm. Qed.

(** A part that may end with a refusal, and what follows otherwise *)
Lemma yields_gate {A} b (m : prog exec error (ExecutionReceipt + A)) (k : A → prog exec error ExecutionReceipt) :
  yields (refused_or (λ _ _, True)) m → (∀ a, yields (settled b) (k a)) →
  yields (settled b) (bind m (λ g, match g with inl receipt => ret receipt | inr a => k a end)).
Proof.
  intros Hm Hk. eapply yields_after; [exact Hm|]. intros [rc|a] s x s' Hr; [intros [= <- <-]; by left|]. apply Hk.
Qed.

Lemma taken_yields rq g h old wall b before : yields (settled b) (taken io rq g h old wall b before).
Proof.
  unfold taken. apply yields_seq. intros now. case_match; [|apply dispatched_yields].
  apply yields_seq. intros []. apply yields_settled, refusal_yields.
Qed.

Lemma transmit_yields rq g old wall b before : yields (settled b) (transmit io rq g old wall b before).
Proof.
  unfold transmit. apply (yields_gate b _ (λ o, match o with Some h => _ | None => _ end)).
  - apply yields_try; [apply yields_seq; intros ?; apply yields_inr|]. intros e. apply yields_seq. intros [].
    eapply yields_after; [apply refusal_yields|]. by intros rc s x s' Hr [= <- _].
  - intros [h|]; apply yields_seq; intros []; [apply taken_yields|apply yields_settled, refusal_yields].
Qed.

Definition refusal (o : option ExecutionReceipt) s : Prop := match o with Some rc => refused rc s | None => True end.

Lemma late_yields rq r d : yields refusal (bind (_reject io rq r d) (λ receipt, ret (Some receipt))).
Proof. eapply yields_after; [apply reject_yields|]. by intros rc s b s' Hr [= <- _]. Qed.

Lemma commit_yields rq g wall b splice before : yields (settled b) (commit cfg io rq g wall b splice before).
Proof.
  unfold commit. apply yields_seq. intros []. apply yields_seq. intros s0. cbv zeta. eapply (yields_after refusal).
  - apply yields_try; [|intros e; apply late_yields]. apply yields_seq. intros now. case_match; [apply late_yields|].
    by intros s o s' [= <- _].
  - intros [rc|] s x s' Hr; [intros [= <- <-]; by left|]. apply transmit_yields.
Qed.

Lemma dispatch_yields rq t wall b issued splice : yields (settled b) (_dispatch cfg io rq t wall b issued splice).
Proof.
  unfold _dispatch. apply yields_seq. intros s0. cbv zeta.
  repeat (case_match; [first [apply yields_raise | apply yields_settled, reject_yields]|]).
  case_match; [|apply yields_settled, reject_yields]. case_match; [apply yields_settled, reject_yields|].
  apply yields_seq. intros []. apply yields_gate; [|intros; apply commit_yields].
  apply yields_try; [apply gate_yields|]. intros e. apply refuse_yields.
Qed.

(** ** Brakes *)

(** A fault leaves the executor faulted, whether its journal entry was written or not *)
Lemma fault_faults r d rq s : lifecycle (_fault io r d rq s).2 = L.FAULTED.
Proof. destruct (fault_calm cfg io r d rq s) as [_ Hr _]. by rewrite Hr. Qed.

Definition braked (r : ExecutionReceipt) s : Prop :=
  (status r = ReceiptStatus.ACCEPTED ∧ lifecycle s = L.STOPPING) ∨ (status r = ReceiptStatus.REJECTED ∧ lifecycle s = L.FAULTED).

Lemma fault_yields r d rq : yields (λ _ s, lifecycle s = L.FAULTED) (_fault io r d rq).
Proof. intros s [] s' Hf. pose proof (fault_faults r d rq s) as Hl. by rewrite Hf in Hl. Qed.

Lemma brake_body_yields rq now wall target : yields braked (brake_body cfg io rq now wall target).
Proof.
  unfold brake_body. apply yields_seq. intros st. apply yields_seq. intros reference. apply yields_seq. intros [].
  eapply yields_after; [apply dispatch_yields|]. intros rc s x s' Hrc. case_bool_decide as Hr.
  - intros ([] & s1 & Hf & Hx)%bind_Ok. rewrite bind_get in Hx. unfold lift in Hx. injection Hx as Hx <-.
    unfold make_receipt in Hx. run_outcome Hx. injection Hx as <-. right. split; [done|]. by eapply fault_yields.
  - intros [= <- <-]. left. by destruct Hrc as [?|?].
Qed.

Lemma brake_yields rq now wall target s rc s' :
  rq ∉ seen s → lifecycle s ∈ [L.READY; L.EXECUTING] → _brake cfg io rq now wall target s = (Ok rc, s') → braked rc s'.
Proof.
  intros Hs Hl. unfold _brake. rewrite bind_get. cbv zeta. rewrite bool_decide_eq_false_2, bool_decide_eq_true_2 by done. cbn [negb].
  intros Hb. revert Hb. match goal with |- ?m s = _ → _ => assert (Hy : yields braked m); [|by intros ?%Hy] end.
  apply yields_try; [apply brake_body_yields|]. intros e. do 2 (apply yields_seq; intros ?).
  eapply yields_after; [apply fault_yields|]. intros [] s1 rc1 s2 Hf Hr. apply receipt_yields in Hr as [-> Hr]. by right.
Qed.

(** ** Resets *)

(** No joint moves faster than an arm at rest may *)
Definition still (st : RobotState) : Prop :=
  ∃ m, max_abs (velocities st) = Some m ∧ float_lt (stopped_velocity_rad_s policy) m = false.

Lemma moving_still st : moving cfg st = Ok false → still st.
Proof. unfold moving, or_raise. destruct (max_abs (velocities st)) as [m|] eqn:Hm; [|done]. intros [= Hlt]. by exists m. Qed.

(** The calls of a reset that is allowed, the newest first: a reading of the
    feedback, the backend ready, the configuration current, the last goal ended, the
    clock, and a second reading *)
Definition reset_checks s (read1 read2 : option RobotState) (word : string) (n : float) : list call :=
  [CallRead (Ok read2); CallNow (Ok n)] ++
  match handle s with None | Some EmptyString => [] | Some h => [CallStatus h (Ok (Some word))] end ++
  [CallConfig (Ok true); CallReady (Ok true); CallRead (Ok read1)].

(** What the two readings found: each time the latest feedback was fresh, within
    the limits and still *)
Definition rest_seen (now n : float) (old read1 read2 : option RobotState) (st : RobotState) : Prop :=
  ∃ st1, latest old read1 = Some st1 ∧ fresh_at cfg now st1 ∧ still st1 ∧
    latest (Some st1) read2 = Some st ∧ fresh_at cfg n st ∧ still st.

Lemma moving_rest st s r s' : lift (moving cfg st) s = (Ok r, s') → s' = s ∧ moving cfg st = Ok r.
Proof. unfold lift. by intros [= -> ->]. Qed.

Lemma reset_gate_run rq now s st s' :
  known cfg s → reset_gate cfg io rq now s = (Ok (inr st), s') →
  ∃ read1 read2 word n, calls s' = reset_checks s read1 read2 word n ++ calls s ∧ feedback s' = Some st ∧
    rest_seen now n (feedback s) read1 read2 st.
Proof.
  intros Hk Hg. unfold reset_gate in Hg. cbv zeta in Hg. apply bind_Ok in Hg as (st1 & s1 & H1 & Hg).
  pose proof (fresh_calm_run _ _ _ _ _ _ H1) as C1. apply fresh_run in H1 as (read1 & R1 & L1 & F1 & A1); [|done].
  apply bind_Ok in Hg as (fast & s2 & [-> M1]%moving_rest & Hg). apply bind_Ok in Hg as (ready & s3 & H3 & Hg).
  apply bind_Ok in Hg as (current & s4 & H4 & Hg). destruct current; [|by apply refuse_run in Hg]. cbn [negb] in Hg.
  destruct ready; [|discriminate H4]. destruct fast; [discriminate H3|]. cbn [negb] in H3.
  apply port_run in H3 as [R3 E3], H4 as [R4 E4]. rewrite bind_get in Hg. apply bind_Ok in Hg as (running & s5 & H5 & Hg).
  destruct running; [by apply refuse_run in Hg|]. apply bind_Ok in Hg as (n & s6 & H6 & Hg). apply port_run in H6 as [R6 E6].
  apply bind_Ok in Hg as (st2 & s7 & H7 & Hg). apply bind_Ok in Hg as (fast & s8 & [-> Hm]%moving_rest & Hg).
  destruct fast; [by apply refuse_run in Hg|]. injection Hg as -> <-.
  assert (Hh : handle s4 = handle s) by (rewrite E4, E3, (calm_rest _ _ _ C1); by destruct s). rewrite Hh in H5.
  assert (∃ word, calls s5 = match handle s with None | Some EmptyString => [] | Some h => [CallStatus h (Ok (Some word))] end ++ calls s4 ∧
    feedback s5 = feedback s4) as (word & R5 & F5).
  { destruct (handle s) as [[|c h]|]; [injection H5 as <-; by exists ""| |injection H5 as <-; by exists ""].
    apply bind_Ok in H5 as (r & s9 & Hr & H5). injection H5 as H5 <-. apply port_run in Hr as [Hr Er].
    destruct r as [word|]; [|by rewrite bool_decide_eq_true_2 in H5]. exists word. split; [done|]. rewrite Er. by destruct s4. }
  assert (F6 : feedback s6 = Some st1).
  { assert (feedback s6 = feedback s5 ∧ feedback s4 = feedback s3 ∧ feedback s3 = feedback s1) as (-> & F4 & F3)
      by (rewrite E6, E4, E3; done). by rewrite F5, F4, F3. }
  apply fresh_run in H7 as (read2 & R7 & L7 & F7 & A7).
  - exists read1, read2, word, n. split; [|split; [done|]].
    + unfold reset_checks. rewrite R7, R6, R5, R4, R3, R1. simpl. by rewrite <-app_assoc.
    + rewrite F6 in L7. exists st1. split_and!; try done; by apply moving_still.
  - apply calm_known in C1; [|done]. unfold known in *. by rewrite F6, <-F1.
Qed.

Lemma bind_step {A B} (m : prog exec error A) (k : A → prog exec error B) s :
  bind m k s = match m s with (Ok a, s1) => k a s1 | (Raise e, s1) => (Raise e, s1) end.
Proof. done. Qed.

Lemma calm_lifecycle {A} (m : prog exec error A) s : stays_calm cfg m → lifecycle (m s).2 = lifecycle s.
Proof. intros Hm. by destruct (steady_calm cfg m Hm s) as [Hl _]. Qed.

(** The end of a reset: a receipt and at most its journal entry *)
Lemma reset_reports rq before st s :
  let s' := (receipt <- _receipt rq ReceiptReason.ACCEPTED before false true None ;; call_emit io (ResetEvent receipt st) ;;; ret receipt)%prog s in
  lifecycle s'.2 = lifecycle s ∧ feedback s'.2 = feedback s ∧
  (calls s'.2 = calls s ∨ ∃ receipt r, calls s'.2 = CallEmit (ResetEvent receipt st) r :: calls s).
Proof.
  cbv zeta. rewrite bind_step. unfold _receipt. rewrite bind_get. unfold lift.
  destruct (make_receipt _ _ _ _ _ _ _) as [rc|e]; [|by split_and!; [..|left]]. rewrite bind_step.
  destruct (call_emit io _ s) as [r s1] eqn:He. apply port_run in He as [Hc Hs].
  assert (Hk : lifecycle s1 = lifecycle s ∧ feedback s1 = feedback s) by (rewrite Hs; by destruct s).
  destruct r; (split_and!; [apply Hk..|right; by eexists _, _]).
Qed.

(** What a reset that clears a fault has checked *)
Definition cleared (rq : string) (now : float) s s' : Prop :=
  ∃ emitted read1 read2 word n st,
    calls s' = emitted ++ reset_checks s read1 read2 word n ++ calls s ∧
    (emitted = [] ∨ ∃ receipt r, emitted = [CallEmit (ResetEvent receipt st) r]) ∧
    lifecycle s' = L.READY ∧ feedback s' = Some st ∧ rest_seen now n (feedback s) read1 read2 st.

Lemma reset_clears rq now s :
  known cfg s → lifecycle s = L.FAULTED → lifecycle (reset cfg io rq now s).2 ≠ L.FAULTED →
  rq ∉ seen s ∧ cleared rq now s (reset cfg io rq now s).2.
Proof.
  intros Hk Hl. unfold reset. rewrite bind_get. cbv zeta.
  case_bool_decide as Hs; [by rewrite (calm_lifecycle _ _ (reject_calm _ _ _ _ _))|].
  rewrite Hl, bool_decide_eq_true_2 by (by right; right; left). cbn [negb].
  match goal with |- context [bind ?m _ s] => assert (Hc : stays_calm cfg m); [|pose proof (calm_lifecycle m s Hc) as Hsame; rewrite (bind_step m _ s);
    destruct (m s) as [[[rc|st]|e] s1] eqn:Hg] end.
  { apply calm_try; [apply reset_gate_calm|]. intros e. apply calm_bind; [apply reject_calm|intros; apply calm_ret]. }
  all: simpl in Hsame; try (simpl; intros; congruence). intros _. split; [done|].
  apply try_run in Hg as [Hg|(e & s2 & _ & Hx)]; [|by apply refuse_run in Hx].
  apply reset_gate_run in Hg as (read1 & read2 & word & n & Hcalls & Hf & Hm); [|done].
  rewrite bind_get, !bind_modify. set (s2 := set_lifecycle _ _). destruct (reset_reports rq L.FAULTED st s2) as (E1 & E2 & E3).
  assert (Hnew : ∃ emitted, calls ((receipt <- _receipt rq ReceiptReason.ACCEPTED L.FAULTED false true None ;;
    call_emit io (ResetEvent receipt st) ;;; ret receipt)%prog s2).2 = emitted ++ calls s1 ∧
    (emitted = [] ∨ ∃ receipt r, emitted = [CallEmit (ResetEvent receipt st) r])).
  { destruct E3 as [->|(receipt & r & ->)]; [exists []; auto|]. exists [CallEmit (ResetEvent receipt st) r]. eauto. }
  destruct Hnew as (emitted & Hnew & Hem). exists emitted, read1, read2, word, n, st. rewrite Hcalls in Hnew.
  split_and!; [exact Hnew|exact Hem|exact E1|by rewrite E2|done].
Qed.

Lemma fault_cleared o s :
  traced cfg s → lifecycle s = L.FAULTED → lifecycle (perform cfg io o s) ≠ L.FAULTED →
  ∃ rq now, o = Reset rq now ∧ rq ∉ seen s ∧ cleared rq now s (perform cfg io o s).
Proof.
  intros Hs Hl Hn. pose proof (perform_moves cfg io o s Hs) as Hmove. rewrite Hl in Hmove.
  destruct o as [| | | |rq now| | | |]; try (exfalso; inversion Hmove; subst; try congruence; set_solver).
  exists rq, now. split; [done|]. by apply reset_clears; [apply tr_known|..].
Qed.

(** ** Completion *)

(** The motion that started at a time had its time, and the arm is still, each
    joint near the end of its trajectory *)
Definition reached (t : AcceptedTrajectory) (start : float) (st : RobotState) : Prop :=
  ∃ target duration, last_point t = Ok target ∧ seconds (time_from_start_ns target) = Ok duration ∧
    float_le duration (float_max float_zero (float_sub (observed_at_s st) start)) = true ∧ still st ∧
    Forall2 (λ q goal, float_lt (goal_tolerance_rad policy) (float_abs (float_sub q goal)) = false)
      (positions st) (point_positions target).

(** The dwell time is over *)
Definition dwelt s (st : RobotState) : Prop :=
  float_le (stopped_dwell_s policy) (float_sub (observed_at_s st) (default (observed_at_s st) (dwell_start s))) = true.

Lemma bind_lift {A B} (o : outcome error A) (k : A → prog exec error B) s :
  bind (lift o) k s = match o with Ok a => k a s | Raise e => (Raise e, s) end.
Proof. by destruct o. Qed.

(** The end of a motion: its journal entry follows *)
Lemma finish_run next e s :
  let s' := (modify (set_lifecycle next) ;;; call_emit io e ;;; modify (set_handle None))%prog s in
  lifecycle s'.2 = next ∧ feedback s'.2 = feedback s ∧ ∃ r, calls s'.2 = CallEmit e r :: calls s.
Proof.
  cbv zeta. rewrite bind_modify, bind_step. destruct (call_emit io e _) as [r s1] eqn:He. apply port_run in He as [Hc Hs].
  assert (Hk : lifecycle s1 = next ∧ feedback s1 = feedback s) by (rewrite Hs; by destruct s).
  destruct r; (split_and!; [apply Hk..|by eexists]).
Qed.

(** The last step of a motion is recorded *)
Definition finished s s' (e : event) : Prop := feedback s' = feedback s ∧ ∃ r, calls s' = CallEmit e r :: calls s.

(** The journal entry of a motion that ends *)
Definition completion s (st : RobotState) : event :=
  CompletedEvent (request s) (bool_decide (lifecycle s = L.STOPPING))
    (if bool_decide (lifecycle s = L.STOPPING) then stop_target s else L.READY) st (elapsed_at st s).

Lemma settle_completes now t st result s :
  lifecycle (settle cfg io now (elapsed_at st s) t st result s).2 ≠ lifecycle s →
  lifecycle (settle cfg io now (elapsed_at st s) t st result s).2 ≠ L.FAULTED →
  result = Some "succeeded" ∧ reached t (start_s s) st ∧ dwelt s st ∧
  finished s (settle cfg io now (elapsed_at st s) t st result s).2 (completion s st).
Proof.
  unfold settle. rewrite bind_get. cbv zeta. rewrite !bind_lift. destruct (last_point t) as [target|e] eqn:Ht; [|done].
  rewrite bind_lift. destruct (seconds _) as [duration|e] eqn:Hd; [|done]. case_match; [by rewrite fault_faults|].
  rewrite bind_lift. destruct (moving cfg st) as [fast|e] eqn:Hm; [|done]. rewrite bind_lift.
  destruct (any_zip _ _ _) as [apart|e] eqn:Ha; [|done]. case_bool_decide as Hr; [|done].
  destruct (float_le duration _) eqn:He; [|done]. destruct fast; [done|]. destruct apart; [done|]. cbn [andb negb].
  rewrite bind_step. set (s1 := (when (bool_decide (dwell_start s = None)) (modify (set_dwell_start (Some (observed_at_s st)))) s).2).
  assert (Hs1 : when (bool_decide (dwell_start s = None)) (modify (set_dwell_start (Some (observed_at_s st)))) s = (Ok (), s1))
    by (unfold s1, when; by case_bool_decide).
  assert (Hk : lifecycle s1 = lifecycle s ∧ feedback s1 = feedback s ∧ calls s1 = calls s) by (unfold s1, when; by case_bool_decide).
  rewrite Hs1. destruct Hk as (El & Ef & Ec). unfold dwelt. fold policy.
  destruct (float_le (stopped_dwell_s policy) _) eqn:Hw; cbn [when]; [|intros Hx; by destruct (Hx El)]. intros _ _.
  match goal with |- context [call_emit io ?e] => destruct (finish_run (if bool_decide (lifecycle s = L.STOPPING) then stop_target s
    else L.READY) e s1) as (_ & F2 & F3) end.
  split_and!; [done| |done|].
  - exists target, duration. split_and!; try done; [by apply moving_still|by apply any_zip_false].
  - unfold finished. rewrite <-Ef, <-Ec. by split.
Qed.

(** A poll that ends a motion, from the tracking on: the sample is journalled, the
    backend reports success for the goal, and the end is journalled *)
Definition arrival s (st : RobotState) (h : string) (desired : TrajectorySample) (r : outcome error ()) : list call :=
  [CallEmit (completion s st) r; CallStatus h (Ok (Some "succeeded"));
   CallEmit (SampleEvent (request s) st desired (elapsed_at st s)) (Ok ())].

Definition ended s s' (st : RobotState) : Prop :=
  ∃ t h desired r, trajectory s = Some t ∧ handle s = Some h ∧ reached t (start_s s) st ∧ dwelt s st ∧
    feedback s' = feedback s ∧ calls s' = arrival s st h desired r ++ calls s.

Lemma track_completes now st s :
  lifecycle (track cfg io now st s).2 ≠ lifecycle s → lifecycle (track cfg io now st s).2 ≠ L.FAULTED →
  ended s (track cfg io now st s).2 st.
Proof.
  unfold track. rewrite bind_get. cbv zeta. rewrite bind_lift. unfold active, or_raise.
  destruct (trajectory s) as [t|] eqn:Ht; [|done]. rewrite bind_lift. destruct (sample_trajectory t _) as [desired|e]; [|done].
  rewrite bind_lift. destruct (tracking_error _ _) as [err|e]; [|done]. rewrite bind_step.
  destruct (call_emit io _ s) as [[[]|e] s1] eqn:He; apply port_run in He as [C1 E1]; [|by rewrite E1].
  case_match; [by rewrite fault_faults|]. rewrite bind_lift. destruct (handle s) as [h|] eqn:Hh; [|by rewrite E1].
  rewrite bind_step. destruct (call_status io h s1) as [[r|e] s2] eqn:Hs; apply port_run in Hs as [C2 E2]; [|by rewrite E2, E1].
  assert (Hk : lifecycle s2 = lifecycle s ∧ feedback s2 = feedback s ∧ start_s s2 = start_s s ∧ dwell_start s2 = dwell_start s ∧
    completion s2 st = completion s st ∧ elapsed_at st s = elapsed_at st s2) by (rewrite E2, E1; by destruct s).
  destruct Hk as (Hl & Hf & Hst & Hdw & Hcm & Hel). rewrite <-Hl, Hel. intros Hn Hx.
  destruct r as [word|]; [destruct (String.eqb_spec word "succeeded") as [->|]; [|by rewrite fault_faults in Hx]|].
  all: destruct (settle_completes _ _ _ _ _ Hn Hx) as (Hr & R & D & F & r' & C3); try discriminate Hr. exists t, h, desired, r'.
  unfold dwelt in *. rewrite Hst in R. rewrite Hdw in D. split_and!; try done; [by rewrite F|].
  rewrite C3, C2, C1, Hcm. unfold arrival. by rewrite Hel.
Qed.

(** The active motion, with its goal and its times *)
Definition motion_of s := (lifecycle s, stop_target s, request s, scene s, trajectory s, handle s, start_s s, dwell_start s).
Definition same_motion {A} (m : prog exec error A) : Prop := ∀ s, motion_of (m s).2 = motion_of s.

Lemma motion_calm {A} (m : prog exec error A) : stays_calm cfg m → same_motion m.
Proof. intros Hm s. destruct (Hm s) as [_ Hr _]. rewrite Hr. by destruct s. Qed.
Lemma motion_bind {A B} (m : prog exec error A) (k : A → prog exec error B) : same_motion m → (∀ a, same_motion (k a)) → same_motion (bind m k).
Proof. intros Hm Hk s. rewrite bind_step, <-(Hm s). destruct (m s) as [[a|e] s1]; [apply Hk|done]. Qed.
Lemma motion_modify (f : exec → exec) : (∀ s, motion_of (f s) = motion_of s) → same_motion (modify f).
Proof. intros Hf s. apply Hf. Qed.

Lemma watch_motion now wall : same_motion (watch cfg io now wall).
Proof.
  unfold watch. cbv zeta. repeat first [apply motion_modify; by intros []
    | match goal with |- same_motion (when ?b _) => unfold when; destruct b end
    | match goal with |- same_motion (bind _ _) => apply motion_bind; [|intros ?] end | case_match
    | apply motion_calm; first [apply fresh_calm | apply calm_get | apply calm_raise | apply calm_ret | by apply calm_port] ].
Qed.

(** The calls of a watch that found all in order *)
Definition watched s (read : option RobotState) : list call :=
  [CallScene (Ok (scene s)); CallConfig (Ok true); CallRead (Ok read)].

Lemma watch_run now wall s st s' :
  known cfg s → watch cfg io now wall s = (Ok st, s') →
  ∃ read, latest (feedback s) read = Some st ∧ feedback s' = Some st ∧ fresh_at cfg now st ∧ calls s' = watched s read ++ calls s.
Proof.
  intros Hk. unfold watch. case_match; [done|]. intros (st1 & s1 & Hf & Hw)%bind_Ok.
  assert (Hsc : scene s1 = scene s) by (rewrite (calm_rest _ _ _ (fresh_calm_run _ _ _ _ _ _ Hf)); by destruct s).
  apply fresh_run in Hf as (read & R & L & F & A); [|done]. rewrite bind_get in Hw. case_match; [done|].
  rewrite bind_modify in Hw. case_match; [done|]. apply bind_Ok in Hw as ([] & s2 & Hstamp & Hw).
  assert (E2 : calls s2 = calls s1 ∧ feedback s2 = feedback s1).
  { unfold when in Hstamp. case_match; [|by injection Hstamp as <-]. rewrite bind_modify in Hstamp. by injection Hstamp as <-. }
  destruct E2 as [C2 F2]. apply bind_Ok in Hw as (current & s3 & [C3 E3]%port_run & Hw).
  apply bind_Ok in Hw as (same & s4 & H4 & Hw). destruct same; [|done]. injection Hw as <- <-.
  destruct current; [|done]. apply bind_Ok in H4 as (sc & s5 & [C5 E5]%port_run & H4). injection H4 as Heq <-.
  apply String.eqb_eq in Heq as ->. exists read. rewrite Hsc in *. split_and!; [done| |done|].
  - rewrite E5, E3. simpl. congruence.
  - unfold watched. rewrite C5, C3, C2, R. done.
Qed.

(** What a poll that ends a motion without a fault has seen, on feedback it read *)
Definition poll_ended (now : float) s s' (clock : list call) : Prop :=
  ∃ t h read st desired r,
    calls s' = arrival s st h desired r ++ watched s read ++ clock ++ calls s ∧
    latest (feedback s) read = Some st ∧ feedback s' = Some st ∧ fresh_at cfg now st ∧
    trajectory s = Some t ∧ handle s = Some h ∧ reached t (start_s s) st ∧ dwelt s st.

Lemma same_arrival s1 s st h desired r : motion_of s1 = motion_of s → arrival s1 st h desired r = arrival s st h desired r.
Proof. unfold arrival, completion, elapsed_at. intros [= -> -> -> _ _ _ -> _]. done. Qed.

Lemma poll_body_completes now wall s :
  known cfg s → lifecycle (poll_body cfg io now wall s).2 ≠ lifecycle s → lifecycle (poll_body cfg io now wall s).2 ≠ L.FAULTED →
  poll_ended now s (poll_body cfg io now wall s).2 [].
Proof.
  intros Hk. unfold poll_body. rewrite bind_step. pose proof (watch_motion now wall s) as Hsame.
  destruct (watch cfg io now wall s) as [[st|e] s1] eqn:Hw; [|by injection Hsame]. apply watch_run in Hw as (read & L & F & A & C); [|done].
  simpl in Hsame. injection Hsame as Hl ? ? ? Ht Hh Hst Hd. rewrite bind_get, <-Hl. case_match.
  { rewrite bind_lift. destruct (active s1); [|done]. rewrite bind_lift. by destruct (revoked _ _ _) as [[]|]. }
  rewrite bind_step. pose proof (track_completes now st s1) as Hc.
  destruct (track cfg io now st s1) as [[[]|e] s2]; intros Hn Hf;
    destruct (Hc Hn Hf) as (t & h & desired & r & E1 & E2 & E3 & E4 & E5 & E6); exists t, h, read, st, desired, r;
    unfold dwelt in *; rewrite Ht in E1; rewrite Hh in E2; rewrite Hst in E3; rewrite Hd in E4; cbn [fst snd] in *;
    (split_and!; [|done|exact (eq_trans E5 F)|done..]); refine (eq_trans E6 _); rewrite C, (same_arrival s1 s) by (unfold motion_of; congruence); done.
Qed.

Lemma poll_completes now wall s :
  known cfg s → lifecycle (poll cfg io now wall s).2 ≠ lifecycle s → lifecycle (poll cfg io now wall s).2 ≠ L.FAULTED →
  ∃ clock, (wall ≠ None → clock = []) ∧ (wall = None → ∃ w, clock = [CallMonotonic (Ok w)]) ∧
    poll_ended now s (poll cfg io now wall s).2 clock.
Proof.
  intros Hk. unfold poll. rewrite bind_step. set (read_clock := match wall with Some w => ret w | None => call_monotonic io end).
  assert (Hc : stays_calm cfg read_clock) by (unfold read_clock; destruct wall; [apply calm_ret|by apply calm_port]).
  pose proof (motion_calm _ Hc s) as Hsame. pose proof (calm_known _ _ _ (Hc s) Hk) as Hk1.
  assert (Hclock : ∀ w s1, read_clock s = (Ok w, s1) → ∃ clock, (wall ≠ None → clock = []) ∧
    (wall = None → ∃ w, clock = [CallMonotonic (Ok w)]) ∧ calls s1 = clock ++ calls s ∧ feedback s1 = feedback s).
  { unfold read_clock. destruct wall as [w0|]; intros w s1; [intros [= _ <-]; by exists []|]. intros [C E]%port_run.
    exists [CallMonotonic (Ok w)]. split_and!; [done|eauto|done|]. rewrite E. by destruct s. }
  destruct (read_clock s) as [[w|e] s1]; [|by injection Hsame]. destruct (Hclock w s1 eq_refl) as (clock & K1 & K2 & K3 & K4).
  simpl in Hsame. pose proof Hsame as Hmotion. injection Hsame as Hl ? ? Hsc Ht Hh Hst Hd. cbn [snd] in Hk1. rewrite bind_get, <-Hl.
  case_bool_decide; cbn [negb]; [|by rewrite (calm_lifecycle _ _ (get_state_calm _ _ _))].
  pose proof (poll_body_completes now w s1 Hk1) as Hb. unfold try_except. destruct (poll_body cfg io now w s1) as [[o|e] s2].
  2: destruct (is_io_error e).
  2: { rewrite bind_step. pose proof (fault_faults (if bool_decide (class e = FeedbackUnavailable) then ReceiptReason.STALE_STATE
         else ReceiptReason.BACKEND_FAILURE) (text e) None s2) as Hf. by destruct (_fault _ _ _ _ s2) as [[]]. }
  all: intros Hn Hf; destruct (Hb Hn Hf) as (t & h & read & st & desired & r & E1 & E2 & E3 & E4 & E5 & E6 & E7 & E8);
    exists clock; (split_and!; [done..|]); exists t, h, read, st, desired, r; unfold dwelt in *;
    rewrite Ht in E5; rewrite Hh in E6; rewrite Hst in E7; rewrite Hd in E8; rewrite K4 in E2; (split_and!; [|done..]);
    cbn [fst snd] in *; rewrite E1, K3, (same_arrival s1 s) by done; unfold watched; by rewrite Hsc.
Qed.

End Safety.
