(* ===== verification/TrajectoryExecutorDwell.v ===== *)
(** * Motion control: what the dwell time counts from

    A motion counts as finished when the arm rested at its end for the dwell time.
    The executor keeps only the time at which the rest began; here that time is tied
    to the journal, for every sequence of operations: all the samples from that time
    on that the backend answered were taken of an arm at rest at the end of a
    trajectory that was transmitted, with success reported for its goal. *)

From Stdlib Require Import ZArith Ascii String SpecFloat.
From S2P Require Import Prelude PyVal Json PyText PyFloat MotionTypes JointLimits JointLimitsTheorems Quintic MotionSafety MotionSafetyTheorems TrajectoryExecutor TrajectoryExecutorGate TrajectoryExecutorSafety.
Local Open Scope Z_scope.

(** An answer of the backend about a goal *)
Definition answers (c : call) : bool := match c with CallStatus _ (Ok _) => true | _ => false end.

Section Dwell.
Context `{Libm} {W : Type} (cfg : configuration) (io : MotionTransport (W:=W)).
Abbreviation exec := (Executor (W:=W)).
Implicit Types (s : exec).

(** The goal of a handle was transmitted, and the arm is at rest at its end *)
Definition rest_sample (h : string) (st : RobotState) (l : list call) : Prop :=
  ∃ t start, CallSend t start (Ok (Some h)) ∈ l ∧ reached cfg t start st.

(** In the calls, the newest first: from a sample taken at the given time on, every
    sample that the backend answered was at rest, and the answer was success *)
Inductive rested_since (since : float) : list call → Prop :=
| RestBegins h rq st desired elapsed l :
    rest_sample h st l → observed_at_s st = since →
    rested_since since (CallStatus h (Ok (Some "succeeded")) :: CallEmit (SampleEvent rq st desired elapsed) (Ok ()) :: l)
| RestGoesOn h rq st desired elapsed l :
    rest_sample h st l → rested_since since l →
    rested_since since (CallStatus h (Ok (Some "succeeded")) :: CallEmit (SampleEvent rq st desired elapsed) (Ok ()) :: l)
| NothingAnswered c l : answers c = false → rested_since since l → rested_since since (c :: l).

Definition under_way (l : L.t) : Prop := l ∈ [L.EXECUTING; L.STOPPING].

(** The active goal is that of a transmission *)
Definition goal_sent s : Prop :=
  ∀ t h, trajectory s = Some t → handle s = Some h → CallSend t (start_s s) (Ok (Some h)) ∈ calls s.

Record dwelling s : Prop := {
  dw_goal : goal_sent s;
  dw_rest : ∀ since, dwell_start s = Some since → under_way (lifecycle s) → rested_since since (calls s)
}.

(** No rest has begun *)
Record restless s : Prop := { rl_goal : goal_sent s; rl_none : dwell_start s = None }.
(** No motion is under way *)
Record halted s : Prop := { ha_goal : goal_sent s; ha_lifecycle : ¬ under_way (lifecycle s) }.

Lemma restless_dwelling s : restless s → dwelling s.
Proof. intros [Hg Hn]. split; [done|]. intros since. by rewrite Hn. Qed.
Lemma halted_dwelling s : halted s → dwelling s.
Proof. intros [Hg Hn]. split; [done|]. by intros since _ ?. Qed.

Lemma rested_dwelling s since : goal_sent s → dwell_start s = Some since → rested_since since (calls s) → dwelling s.
Proof. intros Hg Hd Hr. split; [done|]. rewrite Hd. by intros ? [= <-] _. Qed.

(** ** Calls and assignments *)

Lemma goal_port {A} (f : W → outcome error A * W) log : preserves goal_sent (port f log).
Proof. intros s Hs. unfold port. destruct (f (world s)) as [r w]. intros t h Ht Hh. right. by apply Hs. Qed.

Lemma dwelling_port {A} (f : W → outcome error A * W) log : (∀ r, answers (log r) = false) → preserves dwelling (port f log).
Proof.
  intros Hl s [Hg Hr]. split; [by apply goal_port|]. unfold port. destruct (f (world s)) as [r w]. intros since Hs Hu.
  apply NothingAnswered; [apply Hl|]. by apply Hr.
Qed.
Lemma restless_port {A} (f : W → outcome error A * W) log : preserves restless (port f log).
Proof. intros s [Hg Hn]. split; [by apply goal_port|]. unfold port. by destruct (f (world s)). Qed.
Lemma halted_port {A} (f : W → outcome error A * W) log : preserves halted (port f log).
Proof. intros s [Hg Hn]. split; [by apply goal_port|]. unfold port. by destruct (f (world s)). Qed.

(** The goal stays the same, or there is none any more *)
Definition same_goal s s' : Prop :=
  calls s' = calls s ∧ trajectory s' = trajectory s ∧ start_s s' = start_s s ∧ (handle s' = handle s ∨ handle s' = None).

Lemma goal_frame s s' : same_goal s s' → goal_sent s → goal_sent s'.
Proof. intros (E1 & E2 & E3 & E4) Hs t h. rewrite E1, E2, E3. destruct E4 as [->| ->]; [apply Hs|done]. Qed.

Lemma dwelling_modify (f : exec → exec) :
  (∀ s, same_goal s (f s) ∧ (dwell_start (f s) = None ∨ lifecycle (f s) = L.FAULTED ∨
    dwell_start (f s) = dwell_start s ∧ lifecycle (f s) = lifecycle s)) → preserves (E:=error) dwelling (modify f).
Proof.
  intros Hf s [Hg Hr]. destruct (Hf s) as [Hsame Hd]. split; [by eapply goal_frame|]. simpl. destruct Hsame as (-> & _).
  intros since. destruct Hd as [->|[->|[-> ->]]]; [done| |apply Hr]. intros _ Hu. set_solver +Hu.
Qed.
Lemma restless_modify (f : exec → exec) :
  (∀ s, same_goal s (f s) ∧ (dwell_start (f s) = None ∨ dwell_start (f s) = dwell_start s)) → preserves (E:=error) restless (modify f).
Proof.
  intros Hf s [Hg Hr]. destruct (Hf s) as [Hsame Hd]. split; [by eapply goal_frame|]. simpl. destruct Hd; congruence.
Qed.
Lemma halted_modify (f : exec → exec) :
  (∀ s, same_goal s (f s) ∧ (lifecycle (f s) = L.READY ∨ lifecycle (f s) = L.FAULTED ∨ lifecycle (f s) = lifecycle s)) →
  preserves (E:=error) halted (modify f).
Proof.
  intros Hf s [Hg Hr]. destruct (Hf s) as [Hsame Hd]. split; [by eapply goal_frame|]. simpl.
  destruct Hd as [->|[->| ->]]; [set_solver..|done].
Qed.

Create HintDb dwell.
#[local] Hint Resolve preserves_ret preserves_raise preserves_get preserves_lift : dwell.

Ltac frame := intros []; unfold same_goal; simpl; tauto.
(** Follows the text of a program *)
Ltac dwell_step :=
  match goal with
  | |- preserves _ (bind _ _) => apply preserves_bind; [|intros ?]
  | |- preserves _ (try_except _ _ _) => apply preserves_try; [|intros ?]
  | |- preserves _ (when ?b _) => unfold when; destruct b
  | |- preserves _ (match _ with _ => _ end) => case_match
  | |- preserves dwelling (modify _) => apply dwelling_modify; frame
  | |- preserves restless (modify _) => apply restless_modify; frame
  | |- preserves halted (modify _) => apply halted_modify; frame
  | |- preserves _ _ => solve [eauto 1 with dwell]
  | |- preserves dwelling _ => apply dwelling_port; by intros ?
  | |- preserves restless _ => apply restless_port
  | |- preserves halted _ => apply halted_port
  end.
Ltac dwell := cbv zeta; repeat dwell_step.

(** ** Programs without an answer *)

Lemma update_dwelling st : preserves dwelling (update_state cfg st).
Proof. unfold update_state. dwell. Qed.
#[local] Hint Resolve update_dwelling : dwell.
Lemma get_state_dwelling now : preserves dwelling (get_state cfg io now).
Proof. unfold get_state. dwell. Qed.
#[local] Hint Resolve get_state_dwelling : dwell.
Lemma fresh_dwelling now : preserves dwelling (_fresh cfg io now).
Proof. unfold _fresh. dwell. Qed.
Lemma receipt_dwelling rq r b att acc d : preserves dwelling (_receipt (W:=W) rq r b att acc d).
Proof. unfold _receipt. dwell. Qed.
#[local] Hint Resolve fresh_dwelling receipt_dwelling : dwell.
Lemma reject_dwelling rq r d : preserves dwelling (_reject io rq r d).
Proof. unfold _reject. dwell. Qed.
Lemma fault_dwelling r d rq : preserves dwelling (_fault io r d rq).
Proof. unfold _fault. dwell. Qed.
#[local] Hint Resolve reject_dwelling fault_dwelling : dwell.
Lemma gate_dwelling rq t b issued splice : preserves dwelling (gate cfg io rq t b issued splice).
Proof. unfold gate, gate_scene, gate_timing. dwell. Qed.
Lemma brake_reference_dwelling st now : preserves dwelling (brake_reference (W:=W) cfg st now).
Proof. unfold brake_reference. dwell. Qed.
#[local] Hint Resolve gate_dwelling brake_reference_dwelling : dwell.
Lemma watch_dwelling now wall : preserves dwelling (watch cfg io now wall).
Proof. unfold watch. dwell. Qed.

(** ** Dispatch *)

Lemma receipt_restless rq r b att acc d : preserves restless (_receipt (W:=W) rq r b att acc d).
Proof. unfold _receipt. dwell. Qed.
#[local] Hint Resolve receipt_restless : dwell.

(** Two programs in sequence *)
Lemma bind_dwelling {A B} (m : prog exec error A) (k : A → prog exec error B) s :
  dwelling (m s).2 → (∀ a s', m s = (Ok a, s') → dwelling s' → dwelling (k a s').2) → dwelling (bind m k s).2.
Proof. intros Hm Hk. unfold bind. destruct (m s) as [[a|e] s'] eqn:Hms; [by apply Hk|done]. Qed.

(** A new motion starts without a rest *)
Lemma dispatched_dwelling rq g h old wall b before : preserves dwelling (dispatched io rq g h old wall b before).
Proof.
  unfold dispatched. do 4 (apply preserves_bind; [dwell|intros ?]). intros s [Hg _]. rewrite bind_modify.
  apply restless_dwelling. cut (restless (set_dwell_start None s)); [|by split].
  match goal with |- restless ?x → restless (?m ?x).2 => generalize x; change (preserves restless m) end. dwell.
Qed.
#[local] Hint Resolve dispatched_dwelling : dwell.

Lemma taken_dwelling rq g h old wall b before : preserves dwelling (taken io rq g h old wall b before).
Proof. unfold taken. dwell. Qed.

Lemma adopt_dwelling rq g h s :
  CallSend (g_trajectory g) (g_epoch g) (Ok (Some h)) ∈ calls s → dwelling s → dwelling (adopt rq g h s).
Proof. intros Hin [Hg Hr]. split; [|done]. intros t h'. simpl. by intros [= <-] [= <-]. Qed.

Lemma transmit_dwelling rq g old wall b before : preserves dwelling (transmit io rq g old wall b before).
Proof.
  intros s Hs. unfold transmit. apply bind_dwelling.
  { revert s Hs. match goal with |- ∀ s, dwelling s → dwelling (?m s).2 => change (preserves dwelling m) end. dwell. }
  intros [rc|[h|]] s1 Hr Hs1; [done| |].
  - rewrite bind_modify. apply taken_dwelling, adopt_dwelling; [|done].
    apply try_run in Hr as [(h' & s2 & Hr & [= -> <-])%bind_Ok|(e & s2 & _ & (? & ? & _ & (? & ? & _ & [=])%bind_Ok)%bind_Ok)].
    apply port_run in Hr as [-> _]. by left.
  - clear Hr. revert s1 Hs1. match goal with |- ∀ s, dwelling s → dwelling (?m s).2 => change (preserves dwelling m) end. dwell.
Qed.
#[local] Hint Resolve transmit_dwelling : dwell.

Lemma dispatch_dwelling rq t wall b issued splice : preserves dwelling (_dispatch cfg io rq t wall b issued splice).
Proof. unfold _dispatch, commit. dwell. Qed.
#[local] Hint Resolve dispatch_dwelling : dwell.

Lemma submit_command_dwelling c now wall : preserves dwelling (submit_command cfg io c now wall).
Proof. unfold submit_command. dwell. Qed.

Lemma brake_dwelling rq now wall target : preserves dwelling (_brake cfg io rq now wall target).
Proof. unfold _brake, brake_body. dwell. Qed.

(** ** Resets *)

Lemma update_halted st : preserves halted (update_state cfg st).
Proof. unfold update_state. dwell. Qed.
#[local] Hint Resolve update_halted : dwell.
Lemma fresh_halted now : preserves halted (_fresh cfg io now).
Proof. unfold _fresh, get_state. dwell. Qed.
Lemma reject_halted rq r d : preserves halted (_reject io rq r d).
Proof. unfold _reject, _receipt. dwell. Qed.
#[local] Hint Resolve fresh_halted reject_halted : dwell.
Lemma reset_gate_halted rq now : preserves halted (reset_gate cfg io rq now).
Proof. unfold reset_gate. dwell. Qed.
#[local] Hint Resolve reset_gate_halted : dwell.

Lemma resettable_halted l : l ∈ [L.STOPPED; L.HOLDING; L.FAULTED] → ¬ under_way l.
Proof. unfold under_way. rewrite !elem_of_cons, !elem_of_nil. intuition congruence. Qed.

(** The backend is asked about a goal only when no motion is under way *)
Lemma reset_dwelling rq now : preserves dwelling (reset cfg io rq now).
Proof.
  intros s Hs. unfold reset. rewrite bind_get. cbv zeta. case_bool_decide; [by apply reject_dwelling|].
  case_bool_decide as Hl; cbn [negb]; [|by apply reject_dwelling]. apply halted_dwelling.
  assert (Hh : halted s) by (split; [apply Hs|by apply resettable_halted]).
  match goal with |- halted (?m s).2 => cut (preserves halted m); [intros Hp; by apply Hp|] end. unfold _receipt. dwell.
Qed.

(** ** Supervision *)

(** What holds after a part of a poll: the invariant, unless an error was raised that
    the poll turns into a fault *)
Definition supervised {A} (r : outcome error A * exec) : Prop :=
  goal_sent r.2 ∧ (dwelling r.2 ∨ match r.1 with Raise e => is_io_error e = true | Ok _ => False end).

Lemma dwelling_supervised {A} (r : outcome error A * exec) : dwelling r.2 → supervised r.
Proof. intros Hd. split; [apply Hd|by left]. Qed.

Lemma or_raise_value {A} (o : option A) msg e : or_raise o (value_error msg) = Raise e → is_io_error e = true.
Proof. destruct o; [done|]. by intros [= <-]. Qed.
Lemma moving_io st e : moving cfg st = Raise e → is_io_error e = true.
Proof.
  unfold moving. destruct (or_raise (max_abs (velocities st)) _) as [m|e'] eqn:Hm; [done|]. intros [= <-]. by eapply or_raise_value.
Qed.
Lemma any_zip_io f l k e : any_zip f l k = Raise e → is_io_error e = true.
Proof. revert k. induction l as [|x l IH]; intros [|y k]; simpl; try done; try (by intros [= <-]). case_match; [done|apply IH]. Qed.

(** The arm rests from the first sample on that found it so *)
Lemma rest_recorded s h rq st desired elapsed l :
  rest_sample h st l → (∀ since, dwell_start s = Some since → rested_since since l) →
  rested_since (default (observed_at_s st) (dwell_start s))
    (CallStatus h (Ok (Some "succeeded")) :: CallEmit (SampleEvent rq st desired elapsed) (Ok ()) :: l).
Proof. intros Hr Hd. destruct (dwell_start s) as [d|]; [apply RestGoesOn; auto|by apply RestBegins]. Qed.

(** A fault ends the motion, whatever was recorded *)
Lemma fault_halts r d rq s : goal_sent s → dwelling (_fault io r d rq s).2.
Proof.
  intros Hg. apply halted_dwelling. split; [|rewrite (fault_faults cfg); apply resettable_halted; set_solver].
  destruct (fault_calm cfg io r d rq s) as [(new & Hnew & _) Hr _]. intros t h Ht Hh. rewrite Hnew. apply elem_of_app. right.
  rewrite Hr in Ht, Hh |- *. by apply Hg.
Qed.

(** After a sample and the answer of the backend *)
Definition sampled s (t : AcceptedTrajectory) (st : RobotState) (h : string) (result : option string) (l : list call) : Prop :=
  ∃ rq desired elapsed, calls s = CallStatus h (Ok result) :: CallEmit (SampleEvent rq st desired elapsed) (Ok ()) :: l ∧
    CallSend t (start_s s) (Ok (Some h)) ∈ l ∧ goal_sent s ∧ ∀ since, dwell_start s = Some since → rested_since since l.

Lemma settle_supervised now t st h result target duration s l :
  last_point t = Ok target → seconds (time_from_start_ns target) = Ok duration → sampled s t st h result l →
  supervised (settle cfg io now (elapsed_at st s) t st result s).
Proof.
  intros Ht Hd (rq & desired & elapsed & Hc & Hsend & Hg & Hrest). unfold settle. rewrite bind_get. cbv zeta.
  rewrite !bind_lift, Ht, bind_lift, Hd. case_match; [by apply dwelling_supervised, fault_halts|].
  rewrite bind_lift. destruct (moving cfg st) as [fast|e] eqn:Hm; [|split; [done|right; by eapply moving_io]].
  rewrite bind_lift. destruct (any_zip _ _ _) as [apart|e] eqn:Ha; [|split; [done|right; by eapply any_zip_io]].
  case_bool_decide as Hr; [|by apply dwelling_supervised, restless_dwelling].
  destruct (float_le duration _) eqn:He; [|by apply dwelling_supervised, restless_dwelling].
  destruct fast; [by apply dwelling_supervised, restless_dwelling|]. destruct apart; [by apply dwelling_supervised, restless_dwelling|].
  cbn [andb negb]. subst result.
  assert (Hat : rest_sample h st l).
  { exists t, (start_s s). split; [done|]. exists target, duration. split_and!; try done; [by apply moving_still|by apply any_zip_false]. }
  apply dwelling_supervised. rewrite bind_step. set (since := default (observed_at_s st) (dwell_start s)).
  assert (Hs1 : ∃ s1, when (bool_decide (dwell_start s = None)) (modify (set_dwell_start (Some (observed_at_s st)))) s = (Ok (), s1) ∧
    same_goal s s1 ∧ dwell_start s1 = Some since).
  { unfold when, since. case_bool_decide as Hn; (eexists; split; [reflexivity|]; split; [by repeat split; left|]); simpl;
      [by rewrite Hn|by destruct (dwell_start s)]. }
  destruct Hs1 as (s1 & -> & Hsame & Hd1).
  assert (Hrec : rested_since since (calls s1)) by (rewrite (proj1 Hsame), Hc; by apply rest_recorded).
  apply (goal_frame _ s1) in Hg; [|done]. unfold when. case_match; [|by eapply rested_dwelling]. rewrite bind_modify, bind_step.
  destruct (call_emit io _ _) as [r s2] eqn:Hemit. apply port_run in Hemit as [Hc2 Hs2]. simpl in Hc2.
  assert (E : goal_sent s2 ∧ dwell_start s2 = Some since ∧ rested_since since (calls s2)).
  { split_and!; [|rewrite Hs2; by rewrite <-Hd1|rewrite Hc2; by apply NothingAnswered].
    intros a h' Ha' Hh'. rewrite Hc2. right. rewrite Hs2 in Ha', Hh' |- *. by apply Hg. }
  destruct E as (E1 & E2 & E3).
  destruct r; [|by eapply rested_dwelling]. eapply rested_dwelling; [|exact E2|exact E3]. eapply goal_frame; [|exact E1]. by repeat split; right.
Qed.

Lemma sample_last t time r :
  sample_trajectory t time = Ok r → ∃ target duration, last_point t = Ok target ∧ seconds (time_from_start_ns target) = Ok duration.
Proof.
  unfold sample_trajectory. intros Hs. destruct (_ && _); [|done]. destruct (last_point t) as [target|]; [|done]. cbn [outcome_bind] in Hs.
  destruct (seconds _) as [d|] eqn:Hd; [|done]. by exists target, d.
Qed.

Lemma track_supervised now st s : under_way (lifecycle s) → dwelling s → supervised (track cfg io now st s).
Proof.
  intros Hu Hs. unfold track. rewrite bind_get. cbv zeta. rewrite bind_lift. unfold active, or_raise.
  destruct (trajectory s) as [t|] eqn:Ht; [|by apply dwelling_supervised]. rewrite bind_lift.
  destruct (sample_trajectory t _) as [desired|e] eqn:Hsample; [|by apply dwelling_supervised].
  apply sample_last in Hsample as (target & duration & Hlast & Hsec). rewrite bind_lift.
  destruct (tracking_error _ _) as [err|e]; [|by apply dwelling_supervised]. rewrite bind_step.
  assert (Hport : ∀ e, preserves dwelling (call_emit io e)) by (intros e; by apply dwelling_port).
  specialize (Hport (SampleEvent (request s) st desired (elapsed_at st s)) s Hs) as Hs1.
  destruct (call_emit io _ s) as [[[]|e] s1] eqn:He; [|by apply dwelling_supervised].
  apply port_run in He as [C1 E1]. case_match; [by apply dwelling_supervised, fault_dwelling|].
  rewrite bind_lift. destruct (handle s) as [h|] eqn:Hh; [|by apply dwelling_supervised]. rewrite bind_step.
  destruct (call_status io h s1) as [[r|e] s2] eqn:Hstatus; unfold call_status in Hstatus; apply port_run in Hstatus as [C2 E2].
  - assert (Hk : start_s s2 = start_s s ∧ dwell_start s2 = dwell_start s ∧ trajectory s2 = Some t ∧ handle s2 = Some h ∧
      elapsed_at st s2 = elapsed_at st s) by (rewrite E2, E1; simpl; by rewrite Ht, Hh).
    destruct Hk as (K1 & K2 & K3 & K4 & K5). pose proof (dw_goal _ Hs t h Ht Hh) as Hsend.
    assert (Hg2 : goal_sent s2).
    { intros a h'. rewrite K3, K4, K1, C2, C1. intros [= <-] [= <-]. by do 2 right. }
    assert (Hsampled : sampled s2 t st h r (calls s)).
    { exists (request s), desired, (elapsed_at st s). rewrite C2, C1, K1. split_and!; [done..|]. rewrite K2. intros since Hd.
      by apply (dw_rest _ Hs). }
    rewrite <-K5. destruct r as [word|]; [|by eapply settle_supervised].
    case_match; [by eapply settle_supervised|by apply dwelling_supervised, fault_halts].
  - apply dwelling_supervised. cbn [snd]. destruct Hs1 as [Hg1 Hr1]. split.
    + intros a h'. rewrite C2. intros Ha Hh'. right. rewrite E2 in Ha, Hh' |- *. by apply Hg1.
    + intros since Hd Hu2. rewrite C2. apply NothingAnswered; [done|]. rewrite E2 in Hd, Hu2. by apply Hr1.
Qed.

Lemma poll_body_supervised now wall s :
  lifecycle s ∈ [L.EXECUTING; L.STOPPING; L.HOLDING; L.STOPPED] → dwelling s → supervised (poll_body cfg io now wall s).
Proof.
  intros Hl Hs. unfold poll_body. rewrite bind_step. pose proof (watch_dwelling now wall s Hs) as Hw.
  destruct (watch_steady cfg io now wall s) as [Hsame _]. destruct (watch cfg io now wall s) as [[st|e] s1]; [|by apply dwelling_supervised].
  rewrite bind_get. cbn [snd] in *. rewrite <-Hsame in Hl. destruct (is_confirmed (lifecycle s1)) eqn:Hc.
  { rewrite bind_lift. destruct (active s1); [|by apply dwelling_supervised]. rewrite bind_lift.
    by destruct (revoked _ _ _) as [[]|]; apply dwelling_supervised. }
  assert (Hu : under_way (lifecycle s1)).
  { unfold under_way. apply not_true_iff_false in Hc. rewrite <-lifecycle_confirmed in Hc. rewrite !elem_of_cons in Hl.
    rewrite !elem_of_cons in Hc. rewrite !elem_of_cons. tauto. }
  pose proof (track_supervised now st s1 Hu Hw) as Ht. rewrite bind_step. by destruct (track cfg io now st s1) as [[[]|e] s2].
Qed.

Lemma poll_dwelling now wall : preserves dwelling (poll cfg io now wall).
Proof.
  intros s Hs. unfold poll. apply bind_dwelling.
  { revert s Hs. match goal with |- ∀ s, dwelling s → dwelling (?m s).2 => change (preserves dwelling m) end. dwell. }
  intros w s1 _ Hs1. rewrite bind_get. case_bool_decide as Hl; cbn [negb]; [|by apply get_state_dwelling].
  destruct (poll_body_supervised now w s1 Hl Hs1) as [Hg Hr]. unfold try_except.
  destruct (poll_body cfg io now w s1) as [[o|e] s2]; [by destruct Hr|]. cbn [fst snd] in *. destruct (is_io_error e); [|by destruct Hr].
  rewrite bind_step. pose proof (fault_halts (if bool_decide (class e = FeedbackUnavailable) then ReceiptReason.STALE_STATE
    else ReceiptReason.BACKEND_FAILURE) (text e) None s2 Hg) as Hf. by destruct (_fault _ _ _ _ s2) as [[]].
Qed.

(** ** Every operation *)

Lemma perform_dwelling o s : dwelling s → dwelling (perform cfg io o s).
Proof.
  destruct o; simpl; unfold after.
  - apply submit_command_dwelling.
  - apply dispatch_dwelling.
  - apply brake_dwelling.
  - apply brake_dwelling.
  - apply reset_dwelling.
  - apply poll_dwelling.
  - match goal with |- dwelling s → dwelling (?m s).2 => cut (preserves dwelling m); [by intros Hp; apply Hp|] end. unfold abort. dwell.
  - apply get_state_dwelling.
  - apply update_dwelling.
Qed.

Lemma performs_dwelling os s : dwelling s → dwelling (performs cfg io os s).
Proof. revert s. induction os as [|o os IH]; intros s Hs; [done|]. simpl. by apply IH, perform_dwelling. Qed.

Lemma fresh_executor_dwelling robot c l p w s0 : make_executor robot c l p w = Ok (cfg, s0) → dwelling s0.
Proof. unfold make_executor. intros Hm. run_outcome Hm. injection Hm as _ <-. by split. Qed.

(** The rest that a poll finds over has lasted since the recorded time *)
Lemma rest_lasted s st t h read desired r clock :
  dwelling s → under_way (lifecycle s) → trajectory s = Some t → handle s = Some h → reached cfg t (start_s s) st →
  Forall (λ c, answers c = false) clock →
  rested_since (default (observed_at_s st) (dwell_start s)) (arrival s st h desired r ++ watched s read ++ clock ++ calls s).
Proof.
  intros [Hg Hr] Hu Ht Hh Hreach Hclock. apply NothingAnswered; [done|].
  assert (Hquiet : ∀ since new l, Forall (λ c, answers c = false) new → rested_since since l → rested_since since (new ++ l)).
  { intros since new l. induction 1 as [|c new Hc _ IH]; intros Hl; [done|]. by apply NothingAnswered, IH. }
  apply rest_recorded.
  - exists t, (start_s s). split; [|done]. rewrite !elem_of_app. right. right. by apply Hg.
  - intros since Hd. apply (Hquiet since (watched s read)); [by repeat constructor|]. apply Hquiet; [done|]. by apply Hr.
Qed.

End Dwell.
