(* ===== verification/TrajectoryExecutorTheorems.v ===== *)
(** * Motion control: theorems about the executor

    The executor against any transport, event sink and clocks, with a concrete
    arm on which the hypotheses hold. *)

From Stdlib Require Import ZArith Ascii String SpecFloat.
From S2P Require Import Prelude PyVal Json PyText PyFloat MotionTypes JointLimits JointLimitsTheorems Quintic MotionSafety MotionSafetyTheorems TrajectoryExecutor TrajectoryExecutorGate TrajectoryExecutorSafety TrajectoryExecutorDwell.
Local Open Scope Z_scope.

(** ** A concrete arm *)

#[local] Existing Instance sample_libm.

Definition sample_motion_policy : MotionPolicy := {|
  max_state_age_s := float_dec 2 (-1); max_feedback_wall_age_s := float_dec 5 (-1); max_command_age_s := float_dec 5 (-1);
  start_position_tolerance_rad := float_dec 5 (-3); start_velocity_tolerance_rad_s := float_dec 1 (-2);
  tracking_tolerance_rad := float_dec 5 (-2); goal_tolerance_rad := float_dec 2 (-2); goal_time_s := float_dec 5 (-1);
  stopped_velocity_rad_s := float_dec 1 (-2); stopped_dwell_s := float_dec 2 (-1); max_braking_time_s := float_dec 5 0;
  collision_resolution_rad := float_dec 5 (-2); dispatch_lead_s := float_dec 25 (-2); dispatch_margin_s := float_dec 2 (-2) |}.

(** A world that gives one answer to each question: the clock stands at one
    second, the way is clear, goals are taken, and they succeed *)
Definition sample_transport : MotionTransport (W:=()) := {|
  now_s w := (Ok (float_dec 1 0), w); read_state w := (Ok None, w); readiness w := (Ok true, w);
  scene_revision w := (Ok "scene-1", w); check_path _ _ w := (Ok true, w); send _ _ w := (Ok (Some "goal-1"), w);
  backend_status _ w := (Ok (Some "succeeded"), w); cancel _ w := (Ok (), w); emit _ w := (Ok (), w);
  configuration_current w := (Ok true, w); monotonic w := (Ok (float_dec 1 0), w) |}.

Definition no_executor : configuration * Executor (W:=()) :=
  ({| executor_robot_id := ""; context := sample_context; limits := []; motion_policy := sample_motion_policy; configuration_sha256 := "" |},
   {| lifecycle := L.FAULTED; feedback := None; seen := ∅; handle := None; trajectory := None; request := ""; scene := "";
      start_s := float_zero; last_feedback_wall := float_zero; last_stamp := minus_infinity; last_now := minus_infinity;
      dwell_start := None; stop_target := L.STOPPED; world := (); calls := [] |}).
Definition sample_executor : configuration * Executor (W:=()) :=
  Eval vm_compute in
  match make_executor "arm" sample_context sample_motion_limits sample_motion_policy () with Ok e => e | Raise _ => no_executor end.

(** The arm at rest, observed at a time *)
Definition at_rest (pos : list float) (time : float) : RobotState := {|
  robot_id := "arm"; joint_names := sample_joints; positions := pos; velocities := [float_zero; float_zero];
  observed_at_s := time; clock_id := "monotonic"; accelerations := None |}.
Definition home : list float := [float_zero; float_zero].

(** The motion is started, and its end is seen twice, over the dwell time apart *)
Definition sample_start : list operation :=
  [UpdateState (at_rest home (float_dec 1 0)); SubmitTrajectory "move-1" (Some sample_accepted) (Some float_zero)].
Definition sample_arrival : list operation :=
  sample_start ++ [UpdateState (at_rest sample_target (float_dec 28 (-1))); Poll (float_dec 28 (-1)) (Some float_zero);
                   UpdateState (at_rest sample_target (float_dec 31 (-1)))].
(** The motion is started, and the operator aborts *)
Definition sample_abort : list operation := sample_start ++ [Abort "operator"].

Abbreviation run_sample os := (performs sample_executor.1 sample_transport os sample_executor.2).

Section Theorems.
Context `{Libm} {W : Type} (cfg : configuration) (io : MotionTransport (W:=W)).
Let policy := motion_policy cfg.

(** C30: Whatever operations are called in whatever order, and whatever the
    transport, the event sink and the clocks return or raise, every transmission of
    a trajectory directly follows a reading of the clock before its deadline and
    the journal entry that announces it under a request identifier that was never
    announced before; that entry follows the checks of [intent_ok]: a safe
    trajectory, a clear path in one unchanged scene, a current configuration, and
    fresh feedback near the start of the motion. *)
Theorem transmissions_pass_the_gate robot c l p w s0 os post t start r pre :
  make_executor robot c l p w = Ok (cfg, s0) →
  calls (performs cfg io os s0) = post ++ CallSend t start r :: pre →
  ∃ i n before, pre = [CallNow (Ok n); CallEmit (DispatchIntent i) (Ok ())] ++ before ∧
    intent_trajectory i = t ∧ intent_start i = start ∧ float_le (intent_accept_before i) n = false ∧
    intent_ok cfg i before ∧ intent_request i ∉ announced before.
Proof. apply transmission_gated. Qed.

(** C31: The executor refines the abstract machine of [ControllerLifecycle]: after
    any history, and whatever the transport does, each operation makes one of the
    moves that [lifecycle_move] allows it, or leaves the lifecycle alone. *)
Theorem executor_follows_the_lifecycle robot c l p w s0 os o :
  make_executor robot c l p w = Ok (cfg, s0) →
  lifecycle s0 = L.READY ∧
  lifecycle_move o (lifecycle (performs cfg io os s0)) (lifecycle (perform cfg io o (performs cfg io os s0))).
Proof.
  intros Hm. split; [unfold make_executor in Hm; run_outcome Hm; by injection Hm as _ <-|].
  by eapply perform_moves, performs_traced, fresh_executor_traced.
Qed.

(** C33: A stop under a new identifier, of an arm that is ready or moving, never
    returns with the arm still going: its receipt either accepts it and the arm is
    stopping, or refuses it and the executor is faulted, whatever the transport
    returned or raised on the way. *)
Theorem stop_is_fail_closed rq now wall s rc s' :
  rq ∉ seen s → lifecycle s ∈ [L.READY; L.EXECUTING] → stop cfg io rq now wall s = (Ok rc, s') →
  (status rc = ReceiptStatus.ACCEPTED ∧ lifecycle s' = L.STOPPING) ∨
  (status rc = ReceiptStatus.REJECTED ∧ lifecycle s' = L.FAULTED).
Proof. apply brake_yields. Qed.

(** C34: After any history, an operation clears a fault only when it is a reset
    under a new identifier, and its calls are exactly those of [reset_checks],
    before at most its own journal entry: a reading of the feedback, the backend
    ready, the configuration current, the status of the last goal final, the clock,
    and a second reading.  After each reading, the latest feedback (the one that was
    read, or the earlier one when nothing new was) is fresh, at the time that was
    given and then at the time of the clock, within the limits, and still; the
    second is the feedback that the executor has when it is ready again. *)
Theorem faults_are_cleared_by_checked_resets robot c l p w s0 os o s s' :
  make_executor robot c l p w = Ok (cfg, s0) → s = performs cfg io os s0 → s' = perform cfg io o s →
  lifecycle s = L.FAULTED → lifecycle s' ≠ L.FAULTED →
  ∃ rq now emitted read1 read2 word n st1 st2, o = Reset rq now ∧ rq ∉ seen s ∧ lifecycle s' = L.READY ∧
    calls s' = emitted ++ reset_checks s read1 read2 word n ++ calls s ∧
    (emitted = [] ∨ ∃ receipt r, emitted = [CallEmit (ResetEvent receipt st2) r]) ∧
    latest (feedback s) read1 = Some st1 ∧ fresh_at cfg now st1 ∧ still cfg st1 ∧
    latest (Some st1) read2 = Some st2 ∧ feedback s' = Some st2 ∧ fresh_at cfg n st2 ∧ still cfg st2.
Proof.
  intros Hm -> -> Hl Hn. apply fault_cleared in Hn as (rq & now & -> & Hseen & Hc); [|by eapply performs_traced, fresh_executor_traced|done].
  destruct Hc as (emitted & read1 & read2 & word & n & st2 & E1 & E2 & E3 & E4 & st1 & E5).
  exists rq, now, emitted, read1, read2, word, n, st1, st2. tauto.
Qed.

(** C35: After any history, a poll ends a motion without a fault only when its own
    calls are those of [watched] and [arrival]: it read the feedback, found the
    configuration and the scene unchanged, journalled the sample, and the backend
    reported success for the goal that was transmitted for this motion.  The latest
    feedback is fresh and within the limits, the motion had its time, and the arm is
    still with every joint within the goal tolerance of the end of the trajectory.
    So it was in every sample that the backend answered since a time at least the
    dwell time ago. *)
Theorem completed_motions_have_come_to_rest robot c l p w s0 os now wall s s' :
  make_executor robot c l p w = Ok (cfg, s0) → s = performs cfg io os s0 → s' = perform cfg io (Poll now wall) s →
  lifecycle s' ≠ lifecycle s → lifecycle s' ≠ L.FAULTED →
  ∃ t h read st desired r clock since, trajectory s = Some t ∧ handle s = Some h ∧
    CallSend t (start_s s) (Ok (Some h)) ∈ calls s ∧
    calls s' = arrival s st h desired r ++ watched s read ++ clock ++ calls s ∧
    (clock = [] ∨ ∃ time, clock = [CallMonotonic (Ok time)]) ∧
    latest (feedback s) read = Some st ∧ feedback s' = Some st ∧ fresh_at cfg now st ∧ reached cfg t (start_s s) st ∧
    rested_since cfg since (calls s') ∧ float_le (stopped_dwell_s policy) (float_sub (observed_at_s st) since) = true.
Proof.
  intros Hm Hs Hs' Hn Hf. assert (Htr : traced cfg s) by (subst s; by eapply performs_traced, fresh_executor_traced).
  assert (Hdw : dwelling cfg s) by (subst s; by eapply performs_dwelling, fresh_executor_dwelling).
  pose proof (perform_moves cfg io (Poll now wall) s Htr) as Hmove. rewrite <-Hs' in Hmove.
  assert (Hu : under_way (lifecycle s)) by (unfold under_way; inversion Hmove; subst; try congruence; set_solver).
  rewrite Hs' in Hn, Hf. destruct (poll_completes cfg io now wall s (tr_known _ _ Htr) Hn Hf) as (clock & K1 & K2 & Hend).
  assert (Hclock : clock = [] ∨ ∃ time, clock = [CallMonotonic (Ok time)]) by (destruct wall; [left; by apply K1|right; by apply K2]).
  destruct Hend as (t & h & read & st & desired & r & E1 & E2 & E3 & E4 & E5 & E6 & E7 & E8).
  exists t, h, read, st, desired, r, clock, (default (observed_at_s st) (dwell_start s)). rewrite Hs'.
  split_and!; try done; [by apply (dw_goal _ _ Hdw)|]. unfold perform, after. rewrite E1. apply (rest_lasted cfg s st t); try done.
  destruct Hclock as [->|[time ->]]; by repeat constructor.
Qed.

End Theorems.

(** ** Witnesses *)

Lemma sample_made : make_executor "arm" sample_context sample_motion_limits sample_motion_policy () = Ok (sample_executor.1, sample_executor.2).
Proof. vm_compute. reflexivity. Qed.

Lemma sample_started : lifecycle (run_sample sample_start) = L.EXECUTING.
Proof. vm_compute. reflexivity. Qed.
Lemma sample_aborted : lifecycle (run_sample sample_abort) = L.FAULTED.
Proof. vm_compute. reflexivity. Qed.
Lemma sample_aborts : lifecycle (perform sample_executor.1 sample_transport (Abort "operator") (run_sample sample_start)) = L.FAULTED.
Proof. vm_compute. reflexivity. Qed.
Lemma not_in_set (x : string) (X : gset string) : bool_decide (x ∈ X) = false → x ∉ X.
Proof. apply bool_decide_eq_false. Qed.
Lemma sample_new : "stop-1" ∉ seen (run_sample sample_start).
Proof. apply not_in_set. vm_compute. reflexivity. Qed.
Lemma sample_moving : lifecycle (run_sample sample_start) ∈ [L.READY; L.EXECUTING].
Proof. rewrite sample_started. right. left. Qed.
Lemma sample_resets :
  lifecycle (perform sample_executor.1 sample_transport (Reset "reset-1" (float_dec 1 0)) (run_sample sample_abort)) = L.READY.
Proof. vm_compute. reflexivity. Qed.
Lemma sample_arriving : lifecycle (run_sample sample_arrival) = L.EXECUTING.
Proof. vm_compute. reflexivity. Qed.
Lemma sample_arrives :
  lifecycle (perform sample_executor.1 sample_transport (Poll (float_dec 31 (-1)) (Some float_zero)) (run_sample sample_arrival)) = L.READY.
Proof. vm_compute. reflexivity. Qed.
Lemma sample_sends : ∃ post t start pre, calls (run_sample sample_start) = post ++ CallSend t start (Ok (Some "goal-1")) :: pre.
Proof. vm_compute. eexists [_; _], _, _, _. reflexivity. Qed.
Lemma sample_stops : ∃ rc s',
  stop sample_executor.1 sample_transport "stop-1" (float_dec 1 0) (Some float_zero) (run_sample sample_start) = (Ok rc, s').
Proof. vm_compute. do 2 eexists. reflexivity. Qed.

Lemma transmissions_pass_the_gate_witness :
  ∃ t start i n before, CallSend t start (Ok (Some "goal-1")) ∈ calls (run_sample sample_start) ∧
    intent_trajectory i = t ∧ intent_start i = start ∧ float_le (intent_accept_before i) n = false ∧
    intent_ok sample_executor.1 i before ∧ intent_request i ∉ announced before.
Proof.
  destruct sample_sends as (post & t & start & pre & Hc).
  destruct (transmissions_pass_the_gate sample_executor.1 sample_transport "arm" sample_context sample_motion_limits sample_motion_policy ()
    sample_executor.2 sample_start post t start (Ok (Some "goal-1")) pre sample_made Hc) as (i & n & before & _ & Hfacts).
  exists t, start, i, n, before. split; [|exact Hfacts]. rewrite Hc. apply elem_of_app. right. left.
Defined.

Lemma executor_follows_the_lifecycle_witness :
  lifecycle (run_sample sample_start) = L.EXECUTING ∧ lifecycle_move (Abort "operator") L.EXECUTING L.FAULTED.
Proof.
  split; [exact sample_started|].
  destruct (executor_follows_the_lifecycle sample_executor.1 sample_transport "arm" sample_context sample_motion_limits
    sample_motion_policy () sample_executor.2 sample_start (Abort "operator") sample_made) as [_ Hm].
  rewrite sample_aborts, sample_started in Hm. exact Hm.
Defined.

Lemma stop_is_fail_closed_witness :
  ∃ rc s', stop sample_executor.1 sample_transport "stop-1" (float_dec 1 0) (Some float_zero) (run_sample sample_start) = (Ok rc, s') ∧
    ((status rc = ReceiptStatus.ACCEPTED ∧ lifecycle s' = L.STOPPING) ∨ (status rc = ReceiptStatus.REJECTED ∧ lifecycle s' = L.FAULTED)).
Proof.
  destruct sample_stops as (rc & s' & Hs). exists rc, s'. split; [exact Hs|].
  exact (stop_is_fail_closed sample_executor.1 sample_transport "stop-1" (float_dec 1 0) (Some float_zero) (run_sample sample_start) rc s'
    sample_new sample_moving Hs).
Defined.

Lemma faults_are_cleared_by_checked_resets_witness :
  lifecycle (run_sample sample_abort) = L.FAULTED ∧
  ∃ n st, feedback (perform sample_executor.1 sample_transport (Reset "reset-1" (float_dec 1 0)) (run_sample sample_abort)) = Some st ∧
    fresh_at sample_executor.1 n st ∧ still sample_executor.1 st.
Proof.
  split; [exact sample_aborted|].
  destruct (faults_are_cleared_by_checked_resets sample_executor.1 sample_transport "arm" sample_context sample_motion_limits
    sample_motion_policy () sample_executor.2 sample_abort (Reset "reset-1" (float_dec 1 0)) (run_sample sample_abort)
    (perform sample_executor.1 sample_transport (Reset "reset-1" (float_dec 1 0)) (run_sample sample_abort)) sample_made eq_refl eq_refl
    sample_aborted) as (rq & now & emitted & read1 & read2 & word & n & st1 & st2 & _ & _ & _ & _ & _ & _ & _ & _ & _ & Hfacts);
    [rewrite sample_resets; discriminate|].
  exists n, st2. exact Hfacts.
Defined.

Lemma completed_motions_have_come_to_rest_witness :
  lifecycle (run_sample sample_arrival) = L.EXECUTING ∧
  ∃ t st since, trajectory (run_sample sample_arrival) = Some t ∧ fresh_at sample_executor.1 (float_dec 31 (-1)) st ∧
    reached sample_executor.1 t (start_s (run_sample sample_arrival)) st ∧
    float_le (stopped_dwell_s sample_motion_policy) (float_sub (observed_at_s st) since) = true.
Proof.
  split; [exact sample_arriving|].
  destruct (completed_motions_have_come_to_rest sample_executor.1 sample_transport "arm" sample_context sample_motion_limits
    sample_motion_policy () sample_executor.2 sample_arrival (float_dec 31 (-1)) (Some float_zero) (run_sample sample_arrival)
    (perform sample_executor.1 sample_transport (Poll (float_dec 31 (-1)) (Some float_zero)) (run_sample sample_arrival))
    sample_made eq_refl eq_refl)
    as (t & h & read & st & desired & r & clock & since & Ht & _ & _ & _ & _ & _ & _ & Hf & Hr & _ & Hd);
    [rewrite sample_arrives, sample_arriving; discriminate|rewrite sample_arrives; discriminate|].
  exists t, st, since. exact (conj Ht (conj Hf (conj Hr Hd))).
Defined.

(** ** Where the executor is not fail-closed *)

(** A reset under a blank identifier clears the fault, and then raises without a
    receipt or a journal entry *)
Lemma blank_reset_clears_the_fault :
  let s := run_sample sample_abort in
  let '(r, s') := reset sample_executor.1 sample_transport "" (float_dec 1 0) s in
  r = Raise (value_error "request_id must be a non-blank string") ∧ lifecycle s = L.FAULTED ∧ lifecycle s' = L.READY.
Proof. vm_compute. auto. Qed.

(** The world of the sample, in which an event has a number and one reading of the clock fails *)
Definition failing_clock (k : nat) : MotionTransport (W:=nat) := {|
  now_s w := (if Nat.eqb w k then Raise {| class := TimeoutError; text := "clock" |} else Ok (float_dec 1 0), S w);
  read_state w := (Ok None, w); readiness w := (Ok true, w); scene_revision w := (Ok "scene-1", w); check_path _ _ w := (Ok true, w);
  send _ _ w := (Ok (Some "goal-1"), w); backend_status _ w := (Ok None, w); cancel _ w := (Ok (), w); emit _ w := (Ok (), w);
  configuration_current w := (Ok true, w); monotonic w := (Ok (float_dec 1 0), w) |}.

Definition failing_executor : Executor (W:=nat) :=
  match make_executor "arm" sample_context sample_motion_limits sample_motion_policy 0%nat with
  | Ok e => e.2
  | Raise _ => set_world 0%nat {| lifecycle := L.FAULTED; feedback := None; seen := ∅; handle := None; trajectory := None; request := "";
      scene := ""; start_s := float_zero; last_feedback_wall := float_zero; last_stamp := minus_infinity; last_now := minus_infinity;
      dwell_start := None; stop_target := L.STOPPED; world := 0%nat; calls := [] |}
  end.
Definition sent_goals (l : list call) : nat := length (filter (λ c, match c with CallSend _ _ (Ok (Some _)) => true | _ => false end = true) l).

(** When the clock fails right after the backend took a goal, the error escapes and
    the executor stays ready: nothing supervises the goal that is under way, and the
    next motion is transmitted on top of it *)
Lemma unsupervised_goal_under_way :
  let run os := performs sample_executor.1 (failing_clock 3) os failing_executor in
  let again := sample_start ++ [SubmitTrajectory "move-2" (Some sample_accepted) (Some float_zero)] in
  lifecycle (run sample_start) = L.READY ∧ sent_goals (calls (run sample_start)) = 1%nat ∧
  lifecycle (run again) = L.EXECUTING ∧ sent_goals (calls (run again)) = 2%nat.
Proof. vm_compute. auto. Qed.

(** An error without a text makes the refusal itself fail *)
Lemma silent_error_escapes :
  let io := {| now_s := now_s sample_transport; read_state := read_state sample_transport;
    readiness w := (Raise {| class := TimeoutError; text := "" |}, w); scene_revision := scene_revision sample_transport;
    check_path := check_path sample_transport; send := send sample_transport; backend_status := backend_status sample_transport;
    cancel := cancel sample_transport; emit := emit sample_transport; configuration_current := configuration_current sample_transport;
    monotonic := monotonic sample_transport |} in
  (submit_trajectory sample_executor.1 io "move-1" (Some sample_accepted) (Some float_zero) sample_executor.2).1 =
  Raise (value_error "detail must be a non-empty string when present").
Proof. vm_compute. reflexivity. Qed.
