(* ===== verification/ReferenceController.v ===== *)
(** * Motion control: the in-memory controller

    [robot/control/workbench_motion/workbench_motion/reference_controller.py]: the
    controller that admits requests and never moves anything. *)

From Stdlib Require Import ZArith Ascii String SpecFloat.
From S2P Require Import Prelude PyVal PyFloat MotionTypes JointLimits.
Local Open Scope Z_scope.

(** What the constructor fixes *)
Record reference_settings := {
  ref_robot_id : string;
  ref_joint_names : list string;
  ref_context : PreflightContext;
  ref_clock_id : string;
  ref_max_state_age_s : float;
  ref_max_command_age_s : float;
  ref_max_future_skew_s : float;
  ref_start_state_tolerance : float;
  ref_stop_failure_reason : option string
}.

Record InMemoryController := {
  ref_lifecycle : ControllerLifecycle.t;
  ref_state : option RobotState;
  ref_accepted : gset string
}.

(** [_finite] *)
Definition _finite (v : pyval) (label : string) : outcome error float := finite_item (label +:+ " must be a finite number") v.

(** [InMemoryController.__init__]; a context of another class is [None] *)
Definition make_reference (robot : pyval) (names : list string) (c : option PreflightContext) (state_age command_age future_skew : pyval)
    (tolerance : option pyval) (stop_failure : option pyval) (clock : pyval) : outcome error (reference_settings * InMemoryController) :=
  let* c := or_raise c (other_error "preflight_context must be PreflightContext") in
  ensure bool_decide (expected_joint_names c = names) else value_error "preflight_context joint schema must match controller" in
  let* robot := _nonblank robot "robot_id" in
  let* clock := _nonblank clock "clock_id" in
  let* state_age := _finite state_age "max_state_age_s" in
  let* command_age := _finite command_age "max_command_age_s" in
  let* future_skew := _finite future_skew "max_future_skew_s" in
  let* tolerance := match tolerance with
                    | None => Ok (max_start_state_delta_rad (policy c))
                    | Some v => _finite v "start_state_tolerance"
                    end in
  ensure negb (float_lt (foldl float_min state_age [command_age; future_skew; tolerance]) float_zero)
    else value_error "controller timing and tolerance values must be non-negative" in
  let* stop_failure := match stop_failure with
                       | None => Ok None
                       | Some v => let* s := _nonblank v "stop_failure_reason" in Ok (Some s)
                       end in
  Ok ({| ref_robot_id := robot; ref_joint_names := expected_joint_names c; ref_context := c; ref_clock_id := clock;
         ref_max_state_age_s := state_age; ref_max_command_age_s := command_age; ref_max_future_skew_s := future_skew;
         ref_start_state_tolerance := tolerance; ref_stop_failure_reason := stop_failure |},
      {| ref_lifecycle := ControllerLifecycle.READY; ref_state := None; ref_accepted := ∅ |}).

Definition set_ref_lifecycle (l : ControllerLifecycle.t) (s : InMemoryController) : InMemoryController :=
  {| ref_lifecycle := l; ref_state := ref_state s; ref_accepted := ref_accepted s |}.
Definition set_ref_state (st : RobotState) (s : InMemoryController) : InMemoryController :=
  {| ref_lifecycle := ref_lifecycle s; ref_state := Some st; ref_accepted := ref_accepted s |}.
Definition note_ref (rq : string) (s : InMemoryController) : InMemoryController :=
  {| ref_lifecycle := ref_lifecycle s; ref_state := ref_state s; ref_accepted := {[rq]} ∪ ref_accepted s |}.

Section Reference.
Context (cfg : reference_settings).
Abbreviation ref := (prog InMemoryController error).
Local Open Scope prog_scope.

Definition answer {A} (o : outcome error A) : ref A := λ s, (o, s).

(** The first lines of an operation *)
Definition ref_request (rq : string) : outcome error () :=
  ensure non_blank rq else value_error "request_id must be a non-blank string" in Ok ().
Definition ref_now (now : float) : outcome error () := ensure isfinite now else value_error "now_s must be a finite number" in Ok ().

(** [update_state] *)
Definition ref_update_state (st : RobotState) : ref () :=
  s <- get ;;
  if negb (String.eqb (robot_id st) (ref_robot_id cfg) && bool_decide (joint_names st = ref_joint_names cfg)) then
    raise (value_error "state robot identity and joint schema must match controller")
  else if negb (String.eqb (clock_id st) (ref_clock_id cfg)) then raise (value_error "state clock_id must match controller")
  else if match ref_state s with Some old => float_lt (observed_at_s st) (observed_at_s old) | None => false end then
    raise (value_error "state feedback timestamp must not move backwards")
  else modify (set_ref_state st).

(** [get_state] *)
Definition known_state (now : float) (s : InMemoryController) : option RobotState :=
  match ref_state s with
  | None => None
  | Some st =>
      let age := float_sub now (observed_at_s st) in
      if float_lt age (float_opp (ref_max_future_skew_s cfg)) then None
      else if float_lt (ref_max_state_age_s cfg) age then None
      else Some st
  end.
Definition ref_get_state (now : float) : ref (option RobotState) := answer (ref_now now) ;;; s <- get ;; ret (known_state now s).

(** [_state_reason] *)
Definition _state_reason (now : float) (s : InMemoryController) : ReceiptReason.t :=
  match ref_state s with
  | None => ReceiptReason.NO_STATE
  | Some st =>
      let age := float_sub now (observed_at_s st) in
      if float_lt age (float_opp (ref_max_future_skew_s cfg)) then ReceiptReason.FUTURE_STATE
      else if float_lt (ref_max_state_age_s cfg) age then ReceiptReason.STALE_STATE
      else ReceiptReason.NO_STATE
  end.

(** [_reject] *)
Definition ref_reject (rq : string) (r : ReceiptReason.t) : ref ExecutionReceipt :=
  s <- get ;; answer (make_receipt rq ReceiptStatus.REJECTED r (ref_lifecycle s) (ref_lifecycle s) false None).

(** [_transition] *)
Definition _transition (rq : string) (target : ControllerLifecycle.t) : ref ExecutionReceipt :=
  s <- get ;;
  modify (set_ref_lifecycle target) ;;;
  answer (make_receipt rq ReceiptStatus.ACCEPTED ReceiptReason.ACCEPTED (ref_lifecycle s) target false None).

(** [_admit] *)
Definition _admit (rq : string) (now : float) : ref ExecutionReceipt :=
  s <- get ;;
  if bool_decide (rq ∈ ref_accepted s) then ref_reject rq ReceiptReason.DUPLICATE_REQUEST
  else if negb (bool_decide (ref_lifecycle s = ControllerLifecycle.READY)) then ref_reject rq ReceiptReason.INVALID_LIFECYCLE
  else
    st <- ref_get_state now ;;
    match st with
    | None => ref_reject rq (_state_reason now s)
    | Some _ =>
        modify (note_ref rq) ;;;
        answer (make_receipt rq ReceiptStatus.ACCEPTED ReceiptReason.ACCEPTED (ref_lifecycle s) (ref_lifecycle s) false None)
    end.

(** One joint of a command: the reason to refuse it *)
Definition value_refused (m : CommandMode.t) (jv : string * float) : outcome error (option ReceiptReason.t) :=
  let* limit := or_raise (assoc_get jv.1 (effective_limits_of (ref_context cfg))) (other_error jv.1) in
  let epsilon := limit_epsilon (policy (ref_context cfg)) in
  Ok match m with
     | CommandMode.POSITION =>
         if float_le (float_add (min_position limit) epsilon) jv.2 && float_le jv.2 (float_sub (max_position limit) epsilon) then None
         else Some ReceiptReason.POSITION_LIMIT
     | CommandMode.VELOCITY =>
         if float_lt (float_max float_zero (float_sub (max_velocity limit) epsilon)) (float_abs jv.2) then Some ReceiptReason.VELOCITY_LIMIT
         else None
     end.
Fixpoint values_refused (m : CommandMode.t) (l : list (string * float)) : outcome error (option ReceiptReason.t) :=
  match l with
  | [] => Ok None
  | jv :: l' => let* r := value_refused m jv in match r with Some r => Ok (Some r) | None => values_refused m l' end
  end.

(** [submit_command]; the values of a command are as many as its joints *)
Definition ref_submit_command (c : RobotCommand) (now : float) : ref ExecutionReceipt :=
  answer (ref_now now) ;;;
  let age := float_sub now (issued_at_s c) in
  if negb (String.eqb (command_robot_id c) (ref_robot_id cfg)) then ref_reject (command_id c) ReceiptReason.ROBOT_ID_MISMATCH
  else if negb (bool_decide (command_joint_names c = ref_joint_names cfg)) then
    ref_reject (command_id c) ReceiptReason.JOINT_SCHEMA_MISMATCH
  else if negb (String.eqb (command_clock_id c) (ref_clock_id cfg)) then ref_reject (command_id c) ReceiptReason.CLOCK_MISMATCH
  else if float_lt age float_zero then ref_reject (command_id c) ReceiptReason.FUTURE_COMMAND
  else if float_lt (ref_max_command_age_s cfg) age then ref_reject (command_id c) ReceiptReason.STALE_COMMAND
  else
    r <- answer (values_refused (mode c) (zip (command_joint_names c) (values c))) ;;
    match r with
    | Some r => ref_reject (command_id c) r
    | None => _admit (command_id c) now
    end.

(** [submit_trajectory]; an object of another class is no trajectory *)
Definition ref_submit_trajectory (rq : string) (t : option AcceptedTrajectory) (now : float) : ref ExecutionReceipt :=
  answer (ref_request rq) ;;;
  answer (ref_now now) ;;;
  match t with
  | None => ref_reject rq ReceiptReason.INVALID_TRAJECTORY
  | Some t =>
      if negb (bool_decide (trajectory_joint_names (snapshot t) = ref_joint_names cfg)) then
        ref_reject rq ReceiptReason.JOINT_SCHEMA_MISMATCH
      else if negb (String.eqb (accepted_context_sha256 t) (context_sha256 (ref_context cfg))) then
        ref_reject rq ReceiptReason.TRAJECTORY_CONTEXT_MISMATCH
      else
        st <- ref_get_state now ;;
        s <- get ;;
        match st with
        | None => ref_reject rq (_state_reason now s)
        | Some st =>
            first <- answer (or_raise (head (points (snapshot t))) (other_error "tuple index out of range")) ;;
            apart <- answer (any_zip (λ x y, float_lt (ref_start_state_tolerance cfg) (float_abs (float_sub x y)))
                               (point_positions first) (positions st)) ;;
            if apart : bool then ref_reject rq ReceiptReason.START_STATE_DISCONTINUITY else _admit rq now
        end
  end.

(** [hold] *)
Definition ref_hold (rq : string) (now : float) : ref ExecutionReceipt :=
  answer (ref_request rq) ;;;
  answer (ref_now now) ;;;
  s <- get ;;
  if negb (bool_decide (ref_lifecycle s = ControllerLifecycle.READY)) then ref_reject rq ReceiptReason.INVALID_LIFECYCLE
  else
    st <- ref_get_state now ;;
    match st with
    | None => ref_reject rq (_state_reason now s)
    | Some _ => modify (note_ref rq) ;;; _transition rq ControllerLifecycle.HOLDING
    end.

(** [stop] *)
Definition ref_stop (rq : string) (now : float) : ref ExecutionReceipt :=
  answer (ref_request rq) ;;;
  answer (ref_now now) ;;;
  s <- get ;;
  if bool_decide (rq ∈ ref_accepted s) then ref_reject rq ReceiptReason.DUPLICATE_REQUEST
  else if bool_decide (ref_lifecycle s = ControllerLifecycle.FAULTED) then ref_reject rq ReceiptReason.INVALID_LIFECYCLE
  else
    match ref_stop_failure_reason cfg with
    | Some r =>
        modify (set_ref_lifecycle ControllerLifecycle.FAULTED) ;;;
        answer (make_receipt rq ReceiptStatus.REJECTED ReceiptReason.SAFE_STOP_FAILURE (ref_lifecycle s) ControllerLifecycle.FAULTED false
                  (Some r))
    | None => modify (note_ref rq) ;;; _transition rq ControllerLifecycle.STOPPED
    end.

(** [reset] *)
Definition ref_reset (rq : string) (now : float) : ref ExecutionReceipt :=
  answer (ref_request rq) ;;;
  answer (ref_now now) ;;;
  s <- get ;;
  if bool_decide (rq ∈ ref_accepted s) then ref_reject rq ReceiptReason.DUPLICATE_REQUEST
  else if negb (bool_decide (ref_lifecycle s ∈ [ControllerLifecycle.HOLDING; ControllerLifecycle.STOPPED; ControllerLifecycle.FAULTED]))
  then ref_reject rq ReceiptReason.INVALID_LIFECYCLE
  else modify (note_ref rq) ;;; _transition rq ControllerLifecycle.READY.

End Reference.
