(* ===== verification/ControllerPort.v ===== *)
(** * Motion control: the controller port

    The protocol of [robot/control/workbench_motion/workbench_motion/controller.py]
    as a class of operations, the laws a client relies on, and what follows from
    them about any client that talks to any controller.  [ControllerTheorems.v]
    discharges the laws for the in-memory controller and for the executor. *)

From Stdlib Require Import ZArith Ascii String SpecFloat.
From S2P Require Import Prelude PyVal PyFloat MotionTypes JointLimits.
Local Open Scope Z_scope.

(** [Controller]; what a controller does between the calls is its own type of
    activities *)
Class Controller (S : Type) := {
  port_update_state : RobotState → prog S error ();
  port_submit_command : RobotCommand → float → prog S error ExecutionReceipt;
  port_submit_trajectory : string → option AcceptedTrajectory → float → prog S error ExecutionReceipt;
  port_get_state : float → prog S error (option RobotState);
  port_hold : string → float → prog S error ExecutionReceipt;
  port_stop : string → float → prog S error ExecutionReceipt;
  port_reset : string → float → prog S error ExecutionReceipt;
  activity : Type;
  act : activity → S → S;
  port_lifecycle : S → ControllerLifecycle.t;
  accepted_ids : S → gset string
}.

(** ** Calls of a client *)

Section Client.
Context {S : Type} `{!Controller S}.
Implicit Types (s : S).

Inductive client_call : Type :=
| DoUpdate (st : RobotState)
| DoCommand (c : RobotCommand) (now : float)
| DoTrajectory (rq : string) (t : option AcceptedTrajectory) (now : float)
| DoGetState (now : float)
| DoHold (rq : string) (now : float)
| DoStop (rq : string) (now : float)
| DoReset (rq : string) (now : float)
| DoActivity (a : activity).

(** The receipt, when there is one *)
Definition receipt_of {A} (r : outcome error A) (f : A → option ExecutionReceipt) : option ExecutionReceipt :=
  match r with Ok a => f a | Raise _ => None end.
Definition receipted (m : prog S error ExecutionReceipt) s : option ExecutionReceipt * S := (receipt_of (m s).1 Some, (m s).2).

Definition serve (c : client_call) s : option ExecutionReceipt * S :=
  match c with
  | DoUpdate st => (None, (port_update_state st s).2)
  | DoCommand c now => receipted (port_submit_command c now) s
  | DoTrajectory rq t now => receipted (port_submit_trajectory rq t now) s
  | DoGetState now => (None, (port_get_state now s).2)
  | DoHold rq now => receipted (port_hold rq now) s
  | DoStop rq now => receipted (port_stop rq now) s
  | DoReset rq now => receipted (port_reset rq now) s
  | DoActivity a => (None, act a s)
  end.

(** The calls with their receipts, in order *)
Fixpoint session (cs : list client_call) s : list (client_call * option ExecutionReceipt) * S :=
  match cs with
  | [] => ([], s)
  | c :: cs' =>
      let '(r, s1) := serve c s in
      let '(l, s2) := session cs' s1 in ((c, r) :: l, s2)
  end.

Definition is_submission (c : client_call) : bool := match c with DoCommand _ _ | DoTrajectory _ _ _ => true | _ => false end.
Definition is_reset (c : client_call) : bool := match c with DoReset _ _ => true | _ => false end.
Definition is_accepted (r : option ExecutionReceipt) : bool :=
  match r with Some r => bool_decide (status r = ReceiptStatus.ACCEPTED) | None => false end.

(** The identifier of a call that a controller must not accept twice *)
Definition call_id (c : client_call) : option string :=
  match c with
  | DoCommand c _ => Some (command_id c)
  | DoTrajectory rq _ _ | DoStop rq _ | DoReset rq _ => Some rq
  | _ => None
  end.

(** The arm is not to move *)
Definition quiet (l : ControllerLifecycle.t) : bool :=
  match l with ControllerLifecycle.READY | ControllerLifecycle.EXECUTING => false | _ => true end.

(** ** The laws *)

(** [I] holds of the states that a controller reaches *)
Class ControllerLaws (I : S → Prop) := {
  law_invariant c s : I s → I (serve c s).2;
  (** submissions are accepted only when the controller is ready *)
  law_ready c s : I s → is_submission c = true → is_accepted (serve c s).1 = true → port_lifecycle s = ControllerLifecycle.READY;
  (** only a reset ends the quiet *)
  law_quiet c s : I s → quiet (port_lifecycle s) = true → is_reset c = false → quiet (port_lifecycle (serve c s).2) = true;
  (** an accepted stop or hold, or one that fails, begins it *)
  law_stop rq now s : I s → is_accepted (serve (DoStop rq now) s).1 = true → quiet (port_lifecycle (serve (DoStop rq now) s).2) = true;
  law_hold rq now s : I s → is_accepted (serve (DoHold rq now) s).1 = true → quiet (port_lifecycle (serve (DoHold rq now) s).2) = true;
  (** an accepted reset begins in the quiet and makes the controller ready *)
  law_reset rq now s : I s → is_accepted (serve (DoReset rq now) s).1 = true →
    quiet (port_lifecycle s) = true ∧ port_lifecycle (serve (DoReset rq now) s).2 = ControllerLifecycle.READY;
  (** identifiers are noted and never forgotten *)
  law_grows c s : I s → accepted_ids s ⊆ accepted_ids (serve c s).2;
  law_fresh c s rq : I s → call_id c = Some rq → is_accepted (serve c s).1 = true → rq ∉ accepted_ids s ∧ rq ∈ accepted_ids (serve c s).2
}.

(** ** What a client may rely on *)

Context (I : S → Prop) `{!ControllerLaws I}.

Lemma session_cons c cs s : session (c :: cs) s =
  (((c, (serve c s).1) :: (session cs (serve c s).2).1), (session cs (serve c s).2).2).
Proof. simpl. destruct (serve c s) as [r s1]. simpl. by destruct (session cs s1). Qed.

Lemma quiet_session cs s :
  I s → quiet (port_lifecycle s) = true → Forall (λ c, is_reset c = false) cs →
  quiet (port_lifecycle (session cs s).2) = true ∧
  Forall (λ cr, is_submission cr.1 = true → is_accepted cr.2 = false) (session cs s).1.
Proof.
  revert s. induction cs as [|c cs IH]; intros s HI Hq Hcs; [by split|]. inversion Hcs as [|? ? Hc Hcs']; subst.
  rewrite session_cons. cbn [fst snd]. destruct (IH (serve c s).2) as [IH1 IH2]; [by apply law_invariant|by apply (law_quiet c s)|done|].
  split; [done|]. constructor; [|done]. cbn [fst snd]. intros Hsub. apply not_true_iff_false. intros Ha.
  pose proof (law_ready c s HI Hsub Ha) as Hr. by rewrite Hr in Hq.
Qed.

(** The identifiers that were accepted in a session, in order *)
Definition accepted_calls (l : list (client_call * option ExecutionReceipt)) : list string :=
  omap (λ cr, if is_accepted cr.2 then call_id cr.1 else None) l.

Lemma accepted_session cs s :
  I s → NoDup (accepted_calls (session cs s).1) ∧ (∀ rq, rq ∈ accepted_calls (session cs s).1 → rq ∉ accepted_ids s).
Proof.
  revert s. induction cs as [|c cs IH]; intros s HI; [split; [constructor|by intros rq ?%elem_of_nil]|].
  rewrite session_cons. cbn [fst snd]. destruct (IH (serve c s).2 (law_invariant c s HI)) as [IH1 IH2].
  pose proof (law_grows c s HI) as Hg. pose proof (law_fresh c s) as Hf. unfold accepted_calls in *. cbn [omap list_omap fst snd].
  destruct (is_accepted (serve c s).1); [|split; [done|intros rq Hin Hs; by apply (IH2 rq Hin), Hg]].
  destruct (call_id c) as [x|]; [|split; [done|intros rq Hin Hs; by apply (IH2 rq Hin), Hg]].
  destruct (Hf x HI eq_refl eq_refl) as [H1 H2]. split.
  - constructor; [|done]. intros Hin. by apply (IH2 x Hin).
  - intros rq [->|Hin]%elem_of_cons; [done|]. intros Hs. by apply (IH2 rq Hin), Hg.
Qed.

End Client.
Arguments client_call S {_}.
