(* ===== verification/ControllerTheorems.v ===== *)
(** * Motion control: theorems about the controllers

    [InMemoryController] and [TrajectoryExecutor] satisfy the laws of the port,
    whatever the transport of the latter does; what their clients may rely on. *)

From Stdlib Require Import ZArith Ascii String SpecFloat.
From S2P Require Import Prelude PyVal Json PyText PyFloat MotionTypes JointLimits JointLimitsTheorems Quintic MotionSafety MotionSafetyTheorems TrajectoryExecutor TrajectoryExecutorGate TrajectoryExecutorSafety TrajectoryExecutorTheorems ReferenceController ControllerPort.
Local Open Scope Z_scope.

(** ** The in-memory controller *)

Section Reference.
Context (cfg : reference_settings).

#[export] Instance reference_controller : Controller InMemoryController := {|
  port_update_state := ref_update_state cfg;
  port_submit_command := ref_submit_command cfg;
  port_submit_trajectory := ref_submit_trajectory cfg;
  port_get_state := ref_get_state cfg;
  port_hold := ref_hold cfg;
  port_stop := ref_stop cfg;
  port_reset := ref_reset;
  activity := Empty_set;
  act a s := s;
  port_lifecycle := ref_lifecycle;
  accepted_ids := ref_accepted
|}.

(** What a call may do: refuse and change nothing, except that a stop that fails
    leaves a fault, or accept under a new identifier *)
Record ref_outcome (c : client_call InMemoryController) (s : InMemoryController) (r : option ExecutionReceipt) (s' : InMemoryController)
    : Prop := {
  ro_refused : is_accepted r = false → ref_accepted s ⊆ ref_accepted s' ∧
    (ref_lifecycle s' = ref_lifecycle s ∨ ref_lifecycle s' = ControllerLifecycle.FAULTED);
  ro_accepted : is_accepted r = true →
    match c with
    | DoCommand c _ => command_id c ∉ ref_accepted s ∧ ref_accepted s' = {[command_id c]} ∪ ref_accepted s ∧
        ref_lifecycle s = ControllerLifecycle.READY ∧ ref_lifecycle s' = ControllerLifecycle.READY
    | DoTrajectory rq _ _ => rq ∉ ref_accepted s ∧ ref_accepted s' = {[rq]} ∪ ref_accepted s ∧
        ref_lifecycle s = ControllerLifecycle.READY ∧ ref_lifecycle s' = ControllerLifecycle.READY
    | DoHold rq _ => ref_accepted s' = {[rq]} ∪ ref_accepted s ∧
        ref_lifecycle s = ControllerLifecycle.READY ∧ ref_lifecycle s' = ControllerLifecycle.HOLDING
    | DoStop rq _ => rq ∉ ref_accepted s ∧ ref_accepted s' = {[rq]} ∪ ref_accepted s ∧ ref_lifecycle s' = ControllerLifecycle.STOPPED
    | DoReset rq _ => rq ∉ ref_accepted s ∧ ref_accepted s' = {[rq]} ∪ ref_accepted s ∧
        ref_lifecycle s ∈ [ControllerLifecycle.HOLDING; ControllerLifecycle.STOPPED; ControllerLifecycle.FAULTED] ∧
        ref_lifecycle s' = ControllerLifecycle.READY
    | _ => False
    end
}.

Definition ref_ok c s (m : prog InMemoryController error ExecutionReceipt) : Prop := ref_outcome c s (receipted m s).1 (receipted m s).2.

Lemma refused_ok c s m : (m s).2 = s → (∀ r, (m s).1 = Ok r → status r = ReceiptStatus.REJECTED) → ref_ok c s m.
Proof.
  intros Hs Hr. unfold ref_ok, receipted. destruct (m s) as [[r|e] s1]; simpl in *; subst s1; [|by split; auto].
  split; simpl; rewrite (Hr r eq_refl); [by auto|]. by rewrite bool_decide_eq_false_2.
Qed.

Lemma receipt_status rq st r before after att d rc : make_receipt rq st r before after att d = Ok rc → status rc = st.
Proof. unfold make_receipt. intros Hr. run_outcome Hr. by injection Hr as <-. Qed.

Lemma reject_ok c s rq r : ref_ok c s (ref_reject rq r).
Proof. apply refused_ok; [done|]. intros rc. apply receipt_status. Qed.

Lemma answer_ok {A} c s (o : outcome error A) k : (∀ a, o = Ok a → ref_ok c s (k a)) → ref_ok c s (bind (answer o) k).
Proof. intros Hk. destruct o as [a|e]; [by apply (Hk a)|]. by apply refused_ok. Qed.

Lemma get_state_ok c s now k : ref_ok c s (k (known_state cfg now s)) → ref_ok c s (bind (ref_get_state cfg now) k).
Proof. intros Hk. unfold ref_get_state, ref_now. destruct (isfinite now); [exact Hk|by apply refused_ok]. Qed.

Lemma if_ok c s (b : bool) m k : (b = true → ref_ok c s m) → (b = false → ref_ok c s k) → ref_ok c s (if b then m else k).
Proof. by destruct b; auto. Qed.

Lemma request_ok c s rq k : (non_blank rq = true → ref_ok c s k) → ref_ok c s (bind (answer (ref_request rq)) (λ _ : (), k)).
Proof. intros Hk. unfold ref_request. destruct (non_blank rq); [by apply Hk|by apply refused_ok]. Qed.

Lemma get_ok c s k : ref_ok c s (k s) → ref_ok c s (bind get k).
Proof. done. Qed.

Lemma admit_ok c s rq now : call_id c = Some rq → is_submission c = true → ref_ok c s (_admit cfg rq now).
Proof.
  intros Hid Hsub. unfold _admit. apply get_ok, if_ok; intros Hseen; [apply reject_ok|]. apply bool_decide_eq_false in Hseen.
  apply if_ok; intros Hl; [apply reject_ok|]. apply negb_false_iff, bool_decide_eq_true in Hl.
  apply get_state_ok. destruct (known_state cfg now s); [|apply reject_ok].
  unfold ref_ok, receipted, bind, modify, answer, make_receipt. rewrite Hl.
  destruct (non_blank rq); simpl; split; simpl; try done; try (intros _; split; [set_solver|by left]).
  intros _. destruct c; try discriminate Hsub; injection Hid as ->; by split_and!.
Qed.

(** Follows the text of an operation *)
Ltac ref_step :=
  match goal with
  | |- ref_ok _ _ (bind get _) => apply get_ok
  | |- ref_ok _ _ (bind (answer (ref_request _)) _) => apply request_ok; intros ?
  | |- ref_ok _ _ (bind (answer _) _) => apply answer_ok; intros ? ?
  | |- ref_ok _ _ (bind (ref_get_state _ _) _) => apply get_state_ok
  | |- ref_ok _ _ (ref_reject _ _) => apply reject_ok
  | |- ref_ok _ _ (_admit _ _ _) => by apply admit_ok
  | |- ref_ok _ _ (if _ then _ else _) => apply if_ok; intros ?
  | |- ref_ok _ _ (match ?x with _ => _ end) => destruct x eqn:?
  end.

(** A change of the lifecycle with its receipt *)
Ltac ref_last :=
  unfold ref_ok, receipted, _transition, bind, get, modify, answer, make_receipt;
  repeat match goal with Hb : non_blank _ = true |- _ => rewrite Hb; clear Hb end; simpl;
  try match goal with |- context [negb ?b] => destruct b end; simpl; split; simpl; try done; intros _;
  repeat match goal with
  | Hn : negb _ = false |- _ => apply negb_false_iff in Hn
  | Hd : bool_decide _ = true |- _ => apply bool_decide_eq_true in Hd
  | Hd : bool_decide _ = false |- _ => apply bool_decide_eq_false in Hd
  end; try (split_and!; done); try (split; [done|by right]).

Lemma serve_ok (c : client_call InMemoryController) s : ref_outcome c s (serve c s).1 (serve c s).2.
Proof.
  destruct c as [st|c now|rq t now|now|rq now|rq now|rq now|[]].
  - unfold serve. simpl. unfold ref_update_state, bind, get. split; simpl; [|done]. intros _. by repeat case_match; auto.
  - change (ref_ok (DoCommand c now) s (ref_submit_command cfg c now)). unfold ref_submit_command. cbv zeta. repeat ref_step.
  - change (ref_ok (DoTrajectory rq t now) s (ref_submit_trajectory cfg rq t now)). unfold ref_submit_trajectory. repeat ref_step.
  - unfold serve. simpl. unfold ref_get_state, ref_now. split; simpl; [|done]. intros _. by destruct (isfinite now); simpl; auto.
  - change (ref_ok (DoHold rq now) s (ref_hold cfg rq now)). unfold ref_hold. repeat ref_step. ref_last.
  - change (ref_ok (DoStop rq now) s (ref_stop cfg rq now)). unfold ref_stop. repeat ref_step; ref_last.
  - change (ref_ok (DoReset rq now) s (ref_reset rq now)). unfold ref_reset. repeat ref_step. ref_last.
Qed.

#[export] Instance reference_laws : ControllerLaws (λ _ : InMemoryController, True).
Proof.
  split.
  - done.
  - intros c s _ Hsub Ha. pose proof (ro_accepted _ _ _ _ (serve_ok c s) Ha) as Hx. destruct c; try done; apply Hx.
  - intros c s _ Hq Hr. simpl port_lifecycle in *. destruct (is_accepted (serve c s).1) eqn:Ha.
    + pose proof (ro_accepted _ _ _ _ (serve_ok c s) Ha) as Hx. destruct c; try done.
      * destruct Hx as (_ & _ & Hl & _). by rewrite Hl in Hq.
      * destruct Hx as (_ & _ & Hl & _). by rewrite Hl in Hq.
      * destruct Hx as (_ & _ & ->). done.
      * destruct Hx as (_ & _ & ->). done.
    + destruct (ro_refused _ _ _ _ (serve_ok c s) Ha) as [_ [->| ->]]; done.
  - intros rq now s _ Ha. destruct (ro_accepted _ _ _ _ (serve_ok (DoStop rq now) s) Ha) as (_ & _ & Hx).
    exact (f_equal quiet Hx).
  - intros rq now s _ Ha. destruct (ro_accepted _ _ _ _ (serve_ok (DoHold rq now) s) Ha) as (_ & _ & Hx).
    exact (f_equal quiet Hx).
  - intros rq now s _ Ha. destruct (ro_accepted _ _ _ _ (serve_ok (DoReset rq now) s) Ha) as (_ & _ & Hl & Hx). split; [|done].
    simpl port_lifecycle. destruct (ref_lifecycle s); try done; set_solver.
  - intros c s _. simpl accepted_ids. destruct (is_accepted (serve c s).1) eqn:Ha; [|by apply (ro_refused _ _ _ _ (serve_ok c s))].
    pose proof (ro_accepted _ _ _ _ (serve_ok c s) Ha) as Hx. destruct c; try done; first [destruct Hx as (_ & -> & _) | destruct Hx as (-> & _)]; set_solver.
  - intros c s rq _ Hid Ha. simpl accepted_ids. pose proof (ro_accepted _ _ _ _ (serve_ok c s) Ha) as Hx.
    destruct c; try done; injection Hid as <-; destruct Hx as (? & -> & _); split; [done|set_solver|done|set_solver|done|set_solver|done|set_solver].
Qed.

End Reference.

(** ** The executor *)

Section Executor.
Context `{Libm} {W : Type} (cfg : configuration) (io : MotionTransport (W:=W)).
Abbreviation exec := (Executor (W:=W)).
Implicit Types (s : exec).

(** Programs that leave the identifiers alone *)
Definition same_seen {A} (m : prog exec error A) : Prop := ∀ s, seen (m s).2 = seen s.

Lemma seen_calm {A} (m : prog exec error A) : stays_calm cfg m → same_seen m.
Proof. intros Hm s. destruct (Hm s) as [_ Hr _]. rewrite Hr. by destruct s. Qed.
Lemma seen_bind {A B} (m : prog exec error A) (k : A → prog exec error B) : same_seen m → (∀ a, same_seen (k a)) → same_seen (bind m k).
Proof. intros Hm Hk s. rewrite bind_step, <-(Hm s). destruct (m s) as [[a|e] s1]; [apply Hk|done]. Qed.
Lemma seen_try {A} (m : prog exec error A) f h : same_seen m → (∀ e, same_seen (h e)) → same_seen (try_except m f h).
Proof.
  intros Hm Hh s. unfold try_except. rewrite <-(Hm s). destruct (m s) as [[a|e] s1]; [done|]. destruct (f e); [apply Hh|done].
Qed.
Lemma seen_modify (f : exec → exec) : (∀ s, seen (f s) = seen s) → same_seen (modify f).
Proof. intros Hf s. apply Hf. Qed.
Lemma seen_fault r d rq : same_seen (_fault io r d rq).
Proof. intros s. destruct (fault_calm cfg io r d rq s) as [_ Hr _]. rewrite Hr. by destruct s. Qed.

Lemma seen_port {A} (f : W → outcome error A * W) log : same_seen (port f log).
Proof. intros s. unfold port. by destruct (f (world s)). Qed.

Ltac seen_step :=
  match goal with
  | |- same_seen (bind _ _) => apply seen_bind; [|intros ?]
  | |- same_seen (try_except _ _ _) => apply seen_try; [|intros ?]
  | |- same_seen (modify _) => apply seen_modify; by intros []
  | |- same_seen (_fault _ _ _ _) => apply seen_fault
  | |- same_seen (when ?b _) => unfold when; destruct b
  | |- same_seen (match _ with _ => _ end) => case_match
  | |- same_seen _ => apply seen_calm; first [apply calm_ret | apply calm_raise | apply calm_get | apply calm_lift
      | apply receipt_calm | apply reject_calm | apply fresh_calm | apply get_state_calm | apply calm_update]
  | |- same_seen _ => apply seen_port
  end.
Ltac same := cbv zeta; repeat seen_step.

Lemma commit_seen rq g wall b splice before : same_seen (commit cfg io rq g wall b splice before).
Proof. unfold commit, transmit, taken, dispatched. same. Qed.
Lemma poll_seen now wall : same_seen (poll cfg io now wall).
Proof. unfold poll, poll_body, watch, track, settle. same. Qed.
Lemma abort_seen d : same_seen (abort io d).
Proof. unfold abort. same. Qed.

(** What the admission of a request needs, and that it is noted *)
Definition admits (ls : list L.t) (rq : string) s (rc : ExecutionReceipt) s' : Prop :=
  status rc = ReceiptStatus.ACCEPTED → lifecycle s ∈ ls ∧ rq ∉ seen s ∧ rq ∈ seen s'.

Lemma refused_admits ls rq s rc s' : refused rc s' → admits ls rq s rc s'.
Proof. intros Hr Ha. unfold refused in Hr. congruence. Qed.

Lemma reject_seen rq r d : same_seen (_reject io rq r d).
Proof. same. Qed.

(** What follows once the request was noted *)
Lemma noted rq s (m : prog exec error ExecutionReceipt) rc s' :
  same_seen m → m (set_seen ({[rq]} ∪ seen s) s) = (Ok rc, s') → rq ∈ seen s'.
Proof. intros Hm Hr. specialize (Hm (set_seen ({[rq]} ∪ seen s) s)). rewrite Hr in Hm. simpl in Hm. rewrite Hm. set_solver. Qed.

Lemma dispatch_admits rq t wall b issued splice s rc s' :
  _dispatch cfg io rq t wall b issued splice s = (Ok rc, s') → admits (if b then [L.READY; L.EXECUTING] else [L.READY]) rq s rc s'.
Proof.
  unfold _dispatch. rewrite bind_get. cbv zeta. destruct (negb (non_blank rq)); [done|].
  case_bool_decide as Hseen; [by intros Hr; eapply refused_admits, reject_yields|].
  destruct (negb (bool_decide (lifecycle s = _) || _)) eqn:Hl; [by intros Hr; eapply refused_admits, reject_yields|].
  destruct t as [t|]; [|by intros Hr; eapply refused_admits, reject_yields].
  destruct (negb (String.eqb (accepted_context_sha256 t) _)); [by intros Hr; eapply refused_admits, reject_yields|]. rewrite bind_modify. intros Hr _. split_and!; [|done|].
  - apply negb_false_iff, orb_true_iff in Hl as [Hl%bool_decide_eq_true|[-> Hl%bool_decide_eq_true]%andb_true_iff]; rewrite Hl.
    + destruct b; left.
    + right. left.
  - eapply noted; [|exact Hr]. apply seen_bind; [|intros [rc1|g]; [same|apply commit_seen]].
    apply seen_try; [apply seen_calm, gate_calm|intros e; same].
Qed.

Lemma dispatch_grows rq t wall b issued splice s : seen s ⊆ seen (_dispatch cfg io rq t wall b issued splice s).2.
Proof.
  unfold _dispatch. rewrite bind_get. cbv zeta. repeat (case_match; [first [done | by rewrite reject_seen]|]).
  case_match; [|by rewrite reject_seen]. case_match; [by rewrite reject_seen|]. rewrite bind_modify.
  match goal with |- _ ⊆ seen (?m ?s1).2 => assert (Hm : same_seen m); [|rewrite Hm; simpl; set_solver] end.
  apply seen_bind; [|intros [rc1|g]; [same|apply commit_seen]]. apply seen_try; [apply seen_calm, gate_calm|intros e; same].
Qed.

(** The first part of a command: feedback and a trajectory to the target *)
Definition plan_command (c : RobotCommand) (now : float) : prog exec error (ExecutionReceipt + AcceptedTrajectory) :=
  (try_except
    (st <- _fresh cfg io now ;;
     if negb (String.eqb (command_clock_id c) (clock_id st)) then
       receipt <- _reject io (command_id c) ReceiptReason.CLOCK_MISMATCH None ;; ret (inl receipt)
     else t <- lift (point_to_point st (values c) (context cfg) (limits cfg)) ;; ret (inr t))
    is_value_error
    (λ e, receipt <- _reject io (command_id c) ReceiptReason.INVALID_TRAJECTORY (Some (text e)) ;; ret (inl receipt)))%prog.

Lemma plan_calm c now : stays_calm cfg (plan_command c now).
Proof.
  unfold plan_command. apply calm_try.
  - apply calm_bind; [apply fresh_calm|]. intros st. case_match; (apply calm_bind; [|intros ?; apply calm_ret]); [apply reject_calm|apply calm_lift].
  - intros e. apply calm_bind; [apply reject_calm|intros ?; apply calm_ret].
Qed.

Lemma plan_yields c now : yields (refused_or (λ _ _, True)) (plan_command c now).
Proof.
  unfold plan_command. apply yields_try; [|intros e; apply refuse_yields]. apply yields_seq. intros st. case_match; [apply refuse_yields|].
  apply yields_seq. intros t. apply yields_inr.
Qed.

(** A command is refused at once, or planned and dispatched *)
Lemma submit_command_steps c now wall s :
  (∃ r d, submit_command cfg io c now wall s = _reject io (command_id c) r d s) ∨
  submit_command cfg io c now wall s = bind (plan_command c now) (λ t, match t with
    | inl receipt => ret receipt
    | inr t => _dispatch cfg io (command_id c) (Some t) wall false (Some (issued_at_s c)) None
    end) s.
Proof. unfold submit_command. cbv zeta. do 3 (case_match; [left; by do 2 eexists|]). by right. Qed.

Lemma submit_command_admits c now wall s rc s' :
  submit_command cfg io c now wall s = (Ok rc, s') → admits [L.READY] (command_id c) s rc s'.
Proof.
  destruct (submit_command_steps c now wall s) as [(r & d & ->)| ->]; [by intros Hr; eapply refused_admits, reject_yields|].
  intros (g & s1 & Hp & Hd)%bind_Ok. pose proof (calm_run _ _ _ _ _ (plan_calm c now) Hp) as [_ Hrest _].
  assert (seen s1 = seen s ∧ lifecycle s1 = lifecycle s) as [E1 E2] by (rewrite Hrest; by destruct s).
  destruct g as [rc1|t]; [apply plan_yields in Hp; injection Hd as <- <-; by apply refused_admits|].
  apply dispatch_admits in Hd. unfold admits in *. by rewrite <-E1, <-E2.
Qed.

Lemma submit_command_grows c now wall s : seen s ⊆ seen (submit_command cfg io c now wall s).2.
Proof.
  destruct (submit_command_steps c now wall s) as [(r & d & ->)| ->]; [by rewrite reject_seen|]. rewrite bind_step.
  rewrite <-(seen_calm _ (plan_calm c now) s). destruct (plan_command c now s) as [[[rc|t]|e] s1]; [done|apply dispatch_grows|done].
Qed.

(** ** Brakes and resets *)

Lemma brake_body_admits rq now wall target s rc s' :
  brake_body cfg io rq now wall target s = (Ok rc, s') → admits [L.READY; L.EXECUTING] rq s rc s'.
Proof.
  unfold brake_body. intros (st & s1 & Hf & Hb)%bind_Ok. apply bind_Ok in Hb as (reference & s2 & Hr & Hb). rewrite bind_modify in Hb.
  pose proof (calm_run _ _ _ _ _ (fresh_calm cfg io now) Hf) as [_ E1 _].
  pose proof (calm_run _ _ _ _ _ (brake_reference_calm cfg st now) Hr) as [_ E2 _].
  apply bind_Ok in Hb as (rc1 & s3 & Hd & Hb). apply dispatch_admits in Hd.
  assert (seen (set_stop_target target s2) = seen s ∧ lifecycle (set_stop_target target s2) = lifecycle s) as [E3 E4]
    by (rewrite E2, E1; by destruct s).
  case_bool_decide as Hst.
  - apply bind_Ok in Hb as ([] & s4 & _ & Hb). rewrite bind_get in Hb. unfold lift in Hb. injection Hb as Hb <-.
    apply receipt_status in Hb. apply refused_admits. unfold refused. by rewrite Hb.
  - injection Hb as <- <-. unfold admits in *. by rewrite <-E3, <-E4.
Qed.

Lemma brake_admits rq now wall target s rc s' :
  _brake cfg io rq now wall target s = (Ok rc, s') → admits [L.READY; L.EXECUTING] rq s rc s'.
Proof.
  unfold _brake. rewrite bind_get. cbv zeta. case_bool_decide; [by intros Hr; eapply refused_admits, reject_yields|].
  destruct (negb _); [by intros Hr; eapply refused_admits, reject_yields|].
  intros [Hr|(e & s1 & _ & Hr)]%try_run; [by apply brake_body_admits in Hr|].
  rewrite bind_get, bind_modify in Hr. apply bind_Ok in Hr as ([] & s2 & _ & Hr). apply refusal_yields in Hr. by apply refused_admits.
Qed.

Lemma brake_grows rq now wall target s : seen s ⊆ seen (_brake cfg io rq now wall target s).2.
Proof.
  assert (Hb : seen s ⊆ seen (brake_body cfg io rq now wall target s).2).
  { unfold brake_body. rewrite bind_step, <-(seen_calm _ (fresh_calm cfg io now) s). destruct (_fresh cfg io now s) as [[st|e] s1]; [|done].
    rewrite bind_step. cbn [snd]. rewrite <-(seen_calm _ (brake_reference_calm cfg st now) s1).
    destruct (brake_reference cfg st now s1) as [[reference|e] s2]; [|done]. rewrite bind_modify, bind_step.
    pose proof (dispatch_grows rq (Some reference.1) wall true None reference.2 (set_stop_target target s2)) as Hd.
    destruct (_dispatch _ _ _ _ _ _ _ _ _) as [[rc|e] s3]; [|done]. simpl in Hd. etrans; [exact Hd|].
    match goal with |- _ ⊆ seen (?m s3).2 => assert (Hm : same_seen m) by same; by rewrite Hm end. }
  unfold _brake. rewrite bind_get. cbv zeta. case_bool_decide; [by rewrite reject_seen|]. destruct (negb _); [by rewrite reject_seen|].
  unfold try_except. destruct (brake_body cfg io rq now wall target s) as [[rc|e] s1]; [done|]. destruct (is_io_error e); [|done].
  rewrite bind_get, bind_modify. match goal with |- _ ⊆ seen (?m _).2 => assert (Hm : same_seen m) by same; rewrite Hm end.
  simpl in *. set_solver.
Qed.

Lemma reset_end_seen st rq before :
  same_seen (receipt <- _receipt rq ReceiptReason.ACCEPTED before false true None ;; call_emit io (ResetEvent receipt st) ;;; ret receipt)%prog.
Proof. same. Qed.

Lemma reset_gate_calm' rq now : stays_calm cfg (try_except (reset_gate cfg io rq now) is_gate_error
  (λ e, receipt <- _reject io rq ReceiptReason.NOT_READY (Some (text e)) ;; ret (inl receipt))%prog).
Proof. apply calm_try; [apply reset_gate_calm|]. intros e. apply calm_bind; [apply reject_calm|intros ?; apply calm_ret]. Qed.

Lemma reset_gate_yields rq now : yields (refused_or (λ _ _, True)) (reset_gate cfg io rq now).
Proof.
  unfold reset_gate. cbv zeta.
  repeat first [apply refuse_yields | apply yields_inr | match goal with |- yields _ (bind _ _) => apply yields_seq; intros ? end | case_match].
Qed.

Lemma reset_admits rq now s rc s' :
  reset cfg io rq now s = (Ok rc, s') → admits [L.STOPPED; L.HOLDING; L.FAULTED] rq s rc s' ∧
    (status rc = ReceiptStatus.ACCEPTED → lifecycle s' = L.READY).
Proof.
  assert (Href : refused rc s' → admits [L.STOPPED; L.HOLDING; L.FAULTED] rq s rc s' ∧ (status rc = ReceiptStatus.ACCEPTED → lifecycle s' = L.READY)).
  { intros Hr. split; [by apply refused_admits|]. unfold refused in Hr. congruence. }
  unfold reset. rewrite bind_get. cbv zeta. case_bool_decide as Hseen; [by intros Hr; eapply Href, reject_yields|].
  case_bool_decide as Hl; cbn [negb]; [|by intros Hr; eapply Href, reject_yields].
  intros (g & s1 & Hg & Hr)%bind_Ok. pose proof (calm_run _ _ _ _ _ (reset_gate_calm' rq now) Hg) as [_ Hrest _].
  assert (Hy : refused_or (λ _ _, True) g s1).
  { revert Hg. apply yields_try; [apply reset_gate_yields|intros e; apply refuse_yields]. }
  destruct g as [rc1|st]; [injection Hr as <- <-; by apply Href|]. rewrite bind_get, !bind_modify in Hr.
  apply bind_Ok in Hr as (rc1 & s2 & Hrc & Hr). apply receipt_yields in Hrc as [-> _]. apply bind_Ok in Hr as ([] & s3 & He & Hr).
  injection Hr as <- <-. apply port_run in He as [_ He]. split.
  - intros _. split; [done|]. split; [done|]. rewrite He. simpl. set_solver.
  - intros _. by rewrite He.
Qed.

Lemma reset_grows rq now s : seen s ⊆ seen (reset cfg io rq now s).2.
Proof.
  unfold reset. rewrite bind_get. cbv zeta. case_bool_decide; [by rewrite reject_seen|]. destruct (negb _); [by rewrite reject_seen|].
  rewrite bind_step, <-(seen_calm _ (reset_gate_calm' rq now) s).
  destruct (try_except (reset_gate cfg io rq now) _ _ s) as [[[rc|st]|e] s1]; [done| |done].
  rewrite bind_get, !bind_modify, reset_end_seen. simpl. set_solver.
Qed.

(** ** The port *)

(** Between the calls of a client, the executor is polled and aborted *)
Inductive executor_activity : Type :=
| Polled (now : float) (wall : option float)
| Aborted (d : string).

#[export] Instance executor_controller : Controller exec := {|
  port_update_state := update_state cfg;
  port_submit_command c now := submit_command cfg io c now None;
  port_submit_trajectory rq t now := submit_trajectory cfg io rq t None;
  port_get_state := get_state cfg io;
  port_hold rq now := hold cfg io rq now None;
  port_stop rq now := stop cfg io rq now None;
  port_reset := reset cfg io;
  activity := executor_activity;
  act a := match a with Polled now wall => perform cfg io (Poll now wall) | Aborted d => perform cfg io (Abort d) end;
  port_lifecycle := lifecycle;
  accepted_ids := seen
|}.

Definition operation_of (c : client_call exec) : operation :=
  match c with
  | DoUpdate st => UpdateState st
  | DoCommand c now => SubmitCommand c now None
  | DoTrajectory rq t now => SubmitTrajectory rq t None
  | DoGetState now => GetState now
  | DoHold rq now => Hold rq now None
  | DoStop rq now => Stop rq now None
  | DoReset rq now => Reset rq now
  | DoActivity a => match a with Polled now wall => Poll now wall | Aborted d => Abort d end
  end.

Lemma serve_performs c s : (serve c s).2 = perform cfg io (operation_of c) s.
Proof. by destruct c as [| | | | | | |[]]. Qed.

Lemma perform_grows o s : seen s ⊆ seen (perform cfg io o s).
Proof.
  destruct o; simpl; unfold after.
  - apply submit_command_grows.
  - apply dispatch_grows.
  - apply brake_grows.
  - apply brake_grows.
  - apply reset_grows.
  - by rewrite poll_seen.
  - by rewrite abort_seen.
  - by rewrite (seen_calm _ (get_state_calm cfg io now)).
  - by rewrite (seen_calm _ (calm_update cfg st)).
Qed.

(** An accepted call *)
Lemma receipted_accepted (m : prog exec error ExecutionReceipt) s :
  is_accepted (receipted m s).1 = true → ∃ rc, m s = (Ok rc, (receipted m s).2) ∧ status rc = ReceiptStatus.ACCEPTED.
Proof.
  unfold receipted, is_accepted, receipt_of. destruct (m s) as [[rc|e] s']; simpl; [|done]. intros Hs%bool_decide_eq_true. by exists rc.
Qed.

Lemma serve_admits c s rq : call_id c = Some rq → is_accepted (serve c s).1 = true →
  rq ∉ seen s ∧ rq ∈ seen (serve c s).2 ∧ (is_submission c = true → lifecycle s = L.READY).
Proof.
  intros Hid Ha. destruct c; try discriminate Hid; injection Hid as <-; apply receipted_accepted in Ha as (rc & Hr & Hs).
  - destruct (submit_command_admits _ _ _ _ _ _ Hr Hs) as (Hl & ? & ?). split_and!; [done..|]. intros _. by apply list_elem_of_singleton in Hl.
  - destruct (dispatch_admits _ _ _ _ _ _ _ _ _ Hr Hs) as (Hl & ? & ?). split_and!; [done..|]. intros _. by apply list_elem_of_singleton in Hl.
  - by destruct (brake_admits _ _ _ _ _ _ _ Hr Hs) as (_ & ? & ?).
  - by destruct (reset_admits _ _ _ _ _ Hr) as [(_ & ? & ?) _].
Qed.

(** A brake that is accepted *)
Lemma brake_quiet rq now target s : is_accepted (receipted (_brake cfg io rq now None target) s).1 = true →
  quiet (lifecycle (receipted (_brake cfg io rq now None target) s).2) = true.
Proof.
  intros (rc & Hr & Hs)%receipted_accepted. destruct (brake_admits _ _ _ _ _ _ _ Hr Hs) as (Hl & Hn & _).
  apply brake_yields in Hr as [[_ ->]|[Hx _]]; [done|congruence|done|done].
Qed.

(** Only a reset leaves the quiet *)
Lemma lifecycle_move_quiet o l l' : lifecycle_move o l l' → quiet l = true → (∀ rq now, o ≠ Reset rq now) → quiet l' = true.
Proof.
  intros Hm Hq Hn. destruct Hm as [| | |rq now wall l l' Hl Hl'|rq now wall l l' Hl Hl'| |now wall l Hl| | |rq now l Hl]; try done.
  - destruct l; try done; set_solver +Hl.
  - destruct l; try done; set_solver +Hl.
  - destruct l; try done; set_solver +Hl.
  - by destruct (Hn rq now).
Qed.

#[export] Instance executor_laws : ControllerLaws (traced cfg (W:=W)).
Proof.
  split.
  - intros c s Hs. rewrite serve_performs. by apply perform_traced.
  - intros c s _ Hsub Ha. destruct (call_id c) as [rq|] eqn:Hid; [|by destruct c]. by apply (serve_admits c s rq).
  - intros c s Hs Hq Hr. change (quiet (lifecycle (serve c s).2) = true). change (quiet (lifecycle s) = true) in Hq. rewrite serve_performs.
    pose proof (perform_moves cfg io (operation_of c) s Hs) as Hm. destruct c as [| | | | | | |[]]; try discriminate Hr; simpl operation_of in *.
    all: by eapply lifecycle_move_quiet.
  - intros rq now s _. apply brake_quiet.
  - intros rq now s _. apply brake_quiet.
  - intros rq now s _ (rc & Hr & Hs)%receipted_accepted. destruct (reset_admits _ _ _ _ _ Hr) as [Ha Hl]. split; [|by apply Hl].
    destruct (Ha Hs) as (Hin & _ & _). simpl port_lifecycle. destruct (lifecycle s); try done; set_solver.
  - intros c s _. change (seen s ⊆ seen (serve c s).2). rewrite serve_performs. apply perform_grows.
  - intros c s rq _ Hid Ha. by destruct (serve_admits c s rq Hid Ha) as (? & ? & _).
Qed.

End Executor.

Local Open Scope Z_scope.

Section Clients.
Context `{Libm} {W : Type} (cfg : configuration) (io : MotionTransport (W:=W)) (ref : reference_settings).

#[local] Instance the_executor : Controller (Executor (W:=W)) := executor_controller cfg io.
#[local] Instance the_executor_laws : ControllerLaws (S:=Executor (W:=W)) (traced cfg) := executor_laws cfg io.
#[local] Instance the_reference : Controller InMemoryController := reference_controller ref.
#[local] Instance the_reference_laws : ControllerLaws (S:=InMemoryController) (λ _, True) := reference_laws ref.

(** No submission among the calls is accepted, and the arm is not to move *)
Definition stays_quiet {S} `{!Controller S} (cs : list (client_call S)) (s : S) : Prop :=
  quiet (port_lifecycle (session cs s).2) = true ∧
  Forall (λ cr, is_submission cr.1 = true → is_accepted cr.2 = false) (session cs s).1.

Lemma stop_then_quiet {S} `{!Controller S} (I : S → Prop) `{!ControllerLaws I} rq now cs s :
  I s → is_accepted (serve (DoStop rq now) s).1 = true → Forall (λ c, is_reset c = false) cs →
  stays_quiet cs (serve (DoStop rq now) s).2.
Proof. intros HI Ha Hcs. apply (quiet_session I); [by apply law_invariant|by apply (law_stop (I:=I))|done]. Qed.

(** C32: After a stop that a controller accepted, and until it is reset, no command
    and no trajectory of any client is accepted, and the lifecycle stays one in
    which the arm is not to move: this holds of the executor after any history,
    whatever its transport does and however it is polled in between, and of the
    in-memory controller in any state. *)
Theorem no_motion_between_stop_and_reset robot c l p w s0 os rq now
    (cs : list (client_call (Executor (W:=W)))) s rq' now' (cs' : list (client_call InMemoryController)) r :
  make_executor robot c l p w = Ok (cfg, s0) → s = performs cfg io os s0 →
  is_accepted (serve (DoStop rq now) s).1 = true →
  Forall (λ c, is_reset c = false) cs →
  is_accepted (serve (DoStop rq' now') r).1 = true →
  Forall (λ c, is_reset c = false) cs' →
  stays_quiet cs (serve (DoStop rq now) s).2 ∧ stays_quiet cs' (serve (DoStop rq' now') r).2.
Proof.
  intros Hm -> Ha Hcs Ha' Hcs'. split.
  - apply (stop_then_quiet (traced cfg)); [|done..]. by eapply performs_traced, fresh_executor_traced.
  - by apply (stop_then_quiet (λ _, True)).
Qed.

(** C36: No identifier is accepted twice: in any sequence of calls of any clients,
    the accepted commands, trajectories, stops and resets of a controller have
    distinct identifiers, whatever the transport of the executor does and however
    it is polled in between. *)
Theorem identifiers_are_accepted_once robot c l p w s0 (cs : list (client_call (Executor (W:=W))))
    (cs' : list (client_call InMemoryController)) r :
  make_executor robot c l p w = Ok (cfg, s0) →
  NoDup (accepted_calls (session cs s0).1) ∧ NoDup (accepted_calls (session cs' r).1).
Proof.
  intros Hm. split.
  - apply (accepted_session (traced cfg)). by eapply fresh_executor_traced.
  - by apply (accepted_session (λ _, True)).
Qed.

End Clients.

(** ** Witnesses *)

#[local] Existing Instance sample_libm.

Definition sample_reference : reference_settings * InMemoryController :=
  Eval vm_compute in
  match make_reference (VStr "arm") sample_joints (Some sample_context) (VFloat (float_dec 2 (-1))) (VFloat (float_dec 5 (-1)))
          (VInt 0) None None (VStr "monotonic") with
  | Ok r => r
  | Raise _ => ({| ref_robot_id := ""; ref_joint_names := []; ref_context := sample_context; ref_clock_id := "";
                   ref_max_state_age_s := float_zero; ref_max_command_age_s := float_zero; ref_max_future_skew_s := float_zero;
                   ref_start_state_tolerance := float_zero; ref_stop_failure_reason := Some "failed" |},
                {| ref_lifecycle := ControllerLifecycle.FAULTED; ref_state := None; ref_accepted := ∅ |})
  end.

Abbreviation sample_port := (executor_controller sample_executor.1 sample_transport).
Definition sample_clients : list (client_call (Executor (W:=())) (Controller0:=sample_port)) :=
  [DoTrajectory "move-2" (Some sample_accepted) (float_dec 1 0); DoActivity (Controller0:=sample_port) (Polled (float_dec 1 0) (Some float_zero))].

Lemma sample_stop_accepted :
  is_accepted (serve (Controller0:=the_executor sample_executor.1 sample_transport) (DoStop "stop-1" (float_dec 1 0)) (run_sample sample_start)).1 = true.
Proof. vm_compute. reflexivity. Qed.
Lemma sample_reference_stops :
  is_accepted (serve (Controller0:=the_reference sample_reference.1) (DoStop "stop-1" (float_dec 1 0)) sample_reference.2).1 = true.
Proof. vm_compute. reflexivity. Qed.

Lemma no_motion_between_stop_and_reset_witness :
  stays_quiet (Controller0:=the_executor sample_executor.1 sample_transport) sample_clients
    (serve (Controller0:=the_executor sample_executor.1 sample_transport) (DoStop "stop-1" (float_dec 1 0)) (run_sample sample_start)).2 ∧
  stays_quiet (Controller0:=the_reference sample_reference.1) [DoTrajectory "move-2" (Some sample_accepted) (float_dec 1 0)]
    (serve (Controller0:=the_reference sample_reference.1) (DoStop "stop-1" (float_dec 1 0)) sample_reference.2).2.
Proof.
  apply (no_motion_between_stop_and_reset sample_executor.1 sample_transport sample_reference.1 "arm" sample_context sample_motion_limits
    sample_motion_policy () sample_executor.2 sample_start "stop-1" (float_dec 1 0) sample_clients (run_sample sample_start) "stop-1"
    (float_dec 1 0) [DoTrajectory "move-2" (Some sample_accepted) (float_dec 1 0)] sample_reference.2 sample_made eq_refl
    sample_stop_accepted); [repeat constructor|exact sample_reference_stops|repeat constructor].
Defined.

Lemma identifiers_are_accepted_once_witness :
  NoDup (accepted_calls (Controller0:=the_executor sample_executor.1 sample_transport)
    (session (Controller0:=the_executor sample_executor.1 sample_transport) sample_clients sample_executor.2).1) ∧
  NoDup (accepted_calls (Controller0:=the_reference sample_reference.1)
    (session (Controller0:=the_reference sample_reference.1) [DoStop "stop-1" (float_dec 1 0); DoStop "stop-1" (float_dec 2 0)] sample_reference.2).1).
Proof.
  apply (identifiers_are_accepted_once sample_executor.1 sample_transport sample_reference.1 "arm" sample_context sample_motion_limits
    sample_motion_policy () sample_executor.2 sample_clients [DoStop "stop-1" (float_dec 1 0); DoStop "stop-1" (float_dec 2 0)]
    sample_reference.2 sample_made).
Defined.
