(* ===== verification/CanWire.v ===== *)
(** * CAN Wire V1: frames, their decoding and their external projection

    The first part of [libs/hardware/workbench/hardware/can_driver_safe.py]: the
    frame classes, the configuration, [decode_can_frame] and its helpers,
    [CanExternalRecord] and the projection of malformed metadata.  A transport is
    foreign code, so the fields of a frame it hands over are arbitrary objects;
    the payload is [None] when it is not [bytes].  The text of a message is not
    modelled. *)

From Stdlib Require Import ZArith Ascii String SpecFloat.
From S2P Require Import Prelude PyVal.
Local Open Scope Z_scope.

Definition MCU_WIRE_VERSION_V1 : Z := 0x10.
Definition MCU_WIRE_DLC : Z := 8.
Definition MCU_CAN_ID_STOP : Z := 0x080.
Definition MCU_CAN_ID_STOP_ACK : Z := 0x081.
Definition MCU_CAN_ID_COMMAND : Z := 0x100.
Definition MCU_CAN_ID_ACK : Z := 0x101.
Definition MCU_CAN_ID_TELEMETRY : Z := 0x180.
Definition _CAN_ERR_BUSOFF : Z := 0x00000040.
Definition _CAN_EFF_FLAG : Z := 0x80000000.
Definition _CAN_RTR_FLAG : Z := 0x40000000.
Definition _CAN_ERR_FLAG : Z := 0x20000000.

Module CanFrameKind.
Inductive t : Type :=
| COMMAND | ACK | TELEMETRY | STOP | STOP_ACK.
#[global] Instance eq_dec : EqDecision t.
Proof. solve_decision. Defined.
#[global] Instance enum : StrEnum t := {|
  value x := match x with
    | COMMAND => "command"
    | ACK => "ack"
    | TELEMETRY => "telemetry"
    | STOP => "stop"
    | STOP_ACK => "stop_ack"
    end;
  members := [COMMAND; ACK; TELEMETRY; STOP; STOP_ACK]
|}.
#[global] Instance laws : StrEnumLaws t.
Proof. solve_enum_laws. Qed.
End CanFrameKind.

Module CanLinkState.
Inductive t : Type :=
| NEW | STARTING | ACTIVE | STOPPING | SAFE_STOPPED | BUS_OFF | LINK_LOST | SHUTDOWN.
#[global] Instance eq_dec : EqDecision t.
Proof. solve_decision. Defined.
#[global] Instance enum : StrEnum t := {|
  value x := match x with
    | NEW => "new"
    | STARTING => "starting"
    | ACTIVE => "active"
    | STOPPING => "stopping"
    | SAFE_STOPPED => "safe_stopped"
    | BUS_OFF => "bus_off"
    | LINK_LOST => "link_lost"
    | SHUTDOWN => "shutdown"
    end;
  members := [NEW; STARTING; ACTIVE; STOPPING; SAFE_STOPPED; BUS_OFF; LINK_LOST; SHUTDOWN]
|}.
#[global] Instance laws : StrEnumLaws t.
Proof. solve_enum_laws. Qed.
End CanLinkState.

Module DeviceRuntimeState.
Inductive t : Type :=
| NEW | CONFIGURING | CONFIGURED | ACTIVATING | ACTIVE | DEACTIVATING | CLEANED
| FAILED.
#[global] Instance eq_dec : EqDecision t.
Proof. solve_decision. Defined.
#[global] Instance enum : StrEnum t := {|
  value x := match x with
    | NEW => "new"
    | CONFIGURING => "configuring"
    | CONFIGURED => "configured"
    | ACTIVATING => "activating"
    | ACTIVE => "active"
    | DEACTIVATING => "deactivating"
    | CLEANED => "cleaned"
    | FAILED => "failed"
    end;
  members := [NEW; CONFIGURING; CONFIGURED; ACTIVATING; ACTIVE; DEACTIVATING; CLEANED; FAILED]
|}.
#[global] Instance laws : StrEnumLaws t.
Proof. solve_enum_laws. Qed.
End DeviceRuntimeState.

Module CanSendStatus.
Inductive t : Type :=
| QUEUED | BACKPRESSURE | INVALID_FRAME | CORRELATION_CONFLICT | NOT_RUNNING
| LINK_UNAVAILABLE.
#[global] Instance eq_dec : EqDecision t.
Proof. solve_decision. Defined.
#[global] Instance enum : StrEnum t := {|
  value x := match x with
    | QUEUED => "queued"
    | BACKPRESSURE => "backpressure"
    | INVALID_FRAME => "invalid_frame"
    | CORRELATION_CONFLICT => "correlation_conflict"
    | NOT_RUNNING => "not_running"
    | LINK_UNAVAILABLE => "link_unavailable"
    end;
  members := [QUEUED; BACKPRESSURE; INVALID_FRAME; CORRELATION_CONFLICT; NOT_RUNNING; LINK_UNAVAILABLE]
|}.
#[global] Instance laws : StrEnumLaws t.
Proof. solve_enum_laws. Qed.
End CanSendStatus.

Module CanReceiveStatus.
Inductive t : Type :=
| ACCEPTED | INVALID_FRAME | DUPLICATE | LATE | UNCORRELATED.
#[global] Instance eq_dec : EqDecision t.
Proof. solve_decision. Defined.
#[global] Instance enum : StrEnum t := {|
  value x := match x with
    | ACCEPTED => "accepted"
    | INVALID_FRAME => "invalid_frame"
    | DUPLICATE => "duplicate"
    | LATE => "late"
    | UNCORRELATED => "uncorrelated"
    end;
  members := [ACCEPTED; INVALID_FRAME; DUPLICATE; LATE; UNCORRELATED]
|}.
#[global] Instance laws : StrEnumLaws t.
Proof. solve_enum_laws. Qed.
End CanReceiveStatus.

Module CanDiagnosticCode.
Inductive t : Type :=
| INVALID_FRAME | BACKPRESSURE | CORRELATION_CONFLICT | ACK_TIMEOUT | STOP_TIMEOUT
| STOP_REJECTED | BUS_OFF | LINK_LOST | DUPLICATE_ACK | LATE_ACK | UNCORRELATED_ACK
| COMMAND_REJECTED | DUPLICATE_TELEMETRY | STALE_TELEMETRY | CLOCK_ROLLBACK
| SUBSCRIBER_ERROR | STOP_PREEMPTED | SHUTDOWN_TIMEOUT | TRANSPORT_BACKPRESSURE
| EXTERNAL_BACKPRESSURE.
#[global] Instance eq_dec : EqDecision t.
Proof. solve_decision. Defined.
#[global] Instance enum : StrEnum t := {|
  value x := match x with
    | INVALID_FRAME => "invalid_frame"
    | BACKPRESSURE => "backpressure"
    | CORRELATION_CONFLICT => "correlation_conflict"
    | ACK_TIMEOUT => "ack_timeout"
    | STOP_TIMEOUT => "stop_timeout"
    | STOP_REJECTED => "stop_rejected"
    | BUS_OFF => "bus_off"
    | LINK_LOST => "link_lost"
    | DUPLICATE_ACK => "duplicate_ack"
    | LATE_ACK => "late_ack"
    | UNCORRELATED_ACK => "uncorrelated_ack"
    | COMMAND_REJECTED => "command_rejected"
    | DUPLICATE_TELEMETRY => "duplicate_telemetry"
    | STALE_TELEMETRY => "stale_telemetry"
    | CLOCK_ROLLBACK => "clock_rollback"
    | SUBSCRIBER_ERROR => "subscriber_error"
    | STOP_PREEMPTED => "stop_preempted"
    | SHUTDOWN_TIMEOUT => "shutdown_timeout"
    | TRANSPORT_BACKPRESSURE => "transport_backpressure"
    | EXTERNAL_BACKPRESSURE => "external_backpressure"
    end;
  members := [INVALID_FRAME; BACKPRESSURE; CORRELATION_CONFLICT; ACK_TIMEOUT; STOP_TIMEOUT; STOP_REJECTED; BUS_OFF; LINK_LOST; DUPLICATE_ACK; LATE_ACK; UNCORRELATED_ACK; COMMAND_REJECTED; DUPLICATE_TELEMETRY; STALE_TELEMETRY; CLOCK_ROLLBACK; SUBSCRIBER_ERROR; STOP_PREEMPTED; SHUTDOWN_TIMEOUT; TRANSPORT_BACKPRESSURE; EXTERNAL_BACKPRESSURE]
|}.
#[global] Instance laws : StrEnumLaws t.
Proof. solve_enum_laws. Qed.
End CanDiagnosticCode.

Module _WireOpcode.
Definition RESERVED : Z := 0.
Definition MOVE : Z := 1.
Definition GRIP_OPEN : Z := 2.
Definition GRIP_CLOSE : Z := 3.
Definition HOLD : Z := 4.
Definition STOP : Z := 5.
Definition HEARTBEAT : Z := 6.
End _WireOpcode.

Module _WireResult.
Definition ACCEPTED : Z := 0.
Definition REJECTED : Z := 1.
End _WireResult.

Module _WireFault.
Definition NONE : Z := 0.
Definition ACK_TIMEOUT : Z := 1.
Definition STOP_TIMEOUT : Z := 2.
Definition STOP_REJECTED : Z := 3.
Definition LINK_LOST : Z := 4.
Definition DUPLICATE_FRAME : Z := 5.
Definition WATCHDOG_EXPIRED : Z := 6.
Definition MALFORMED_FRAME : Z := 7.
End _WireFault.

Module _WireMode.
Definition IDLE : Z := 0.
Definition MOVING : Z := 1.
Definition HOLDING : Z := 2.
Definition STOPPED : Z := 3.
Definition FAULTED : Z := 4.
End _WireMode.

Definition _ID_TO_KIND (id : Z) : option CanFrameKind.t :=
  if id =? MCU_CAN_ID_COMMAND then Some CanFrameKind.COMMAND
  else if id =? MCU_CAN_ID_ACK then Some CanFrameKind.ACK
  else if id =? MCU_CAN_ID_TELEMETRY then Some CanFrameKind.TELEMETRY
  else if id =? MCU_CAN_ID_STOP then Some CanFrameKind.STOP
  else if id =? MCU_CAN_ID_STOP_ACK then Some CanFrameKind.STOP_ACK
  else None.

Definition Z_in (z : Z) (l : list Z) : bool := existsb (Z.eqb z) l.

Definition _ORDINARY_OPCODES : list Z :=
  [_WireOpcode.MOVE; _WireOpcode.GRIP_OPEN; _WireOpcode.GRIP_CLOSE; _WireOpcode.HOLD; _WireOpcode.HEARTBEAT].

Definition _INBOUND_KINDS (k : CanFrameKind.t) : bool :=
  match k with CanFrameKind.ACK | CanFrameKind.STOP_ACK | CanFrameKind.TELEMETRY => true | _ => false end.
Definition _OUTBOUND_KINDS (k : CanFrameKind.t) : bool :=
  match k with CanFrameKind.COMMAND | CanFrameKind.STOP => true | _ => false end.

(** [CanFrameValidationError], and what [math.isfinite] raises for an integer
    that no float approximates *)
Inductive wire_exn : Type := CanFrameValidationError | IntTooLarge.

(** ** Frames *)

Abbreviation bytes := (list Z).
Definition is_byte (b : Z) : Prop := 0 <= b < 256.

Record CanFrame := {
  arbitration_id : pyval;
  data : option bytes;
  is_extended_id : pyval;
  is_remote_frame : pyval;
  is_error_frame : pyval;
  dlc : pyval;
  kernel_timestamp_ns : pyval;
  kernel_drop_count : pyval;
  observed_monotonic_ts : pyval;
  observed_wall_ts : pyval;
  raw_can_id : pyval
}.

(** [CanFrame(arbitration_id, data)] *)
Definition plain_frame (id : Z) (d : bytes) : CanFrame := {|
  arbitration_id := VInt id; data := Some d; is_extended_id := VBool false; is_remote_frame := VBool false;
  is_error_frame := VBool false; dlc := VNone; kernel_timestamp_ns := VNone; kernel_drop_count := VNone;
  observed_monotonic_ts := VNone; observed_wall_ts := VNone; raw_can_id := VNone |}.

(** What a transport hands over: a frame or some other object *)
Inductive received : Type := IsFrame (f : CanFrame) | OtherObject.

Record CanWireFrame := {
  frame : CanFrame;
  kind : CanFrameKind.t;
  command_id : option Z;
  sequence_no : option Z;
  opcode : option Z;
  retry_count : option Z;
  result_code : option Z;
  fault_code : option Z;
  device_mode : option Z
}.

(** [bool(v)] *)
Definition truthy (v : pyval) : bool :=
  match v with
  | VNone => false
  | VBool b => b
  | VInt z => negb (z =? 0)
  | VFloat (S754_zero _) => false
  | VFloat _ => true
  | VStr s | VEnum _ s => negb (String.eqb s "")
  | VList l | VTuple l | VSet l | VFrozenset l => match l with [] => false | _ => true end
  | VDict l => match l with [] => false | _ => true end
  | VObj _ _ => true
  end.

(** [isinstance(v, int | float) and not isinstance(v, bool) and math.isfinite(v)] *)
Definition finite_number (v : pyval) : outcome wire_exn bool :=
  match v with
  | VInt z => if isfinite (float_of_Z z) then Ok true else Raise IntTooLarge
  | VFloat f => Ok (isfinite f)
  | _ => Ok false
  end.

(** [float(v)] of a finite number *)
Definition to_float (v : pyval) : spec_float :=
  match v with VInt z => float_of_Z z | VFloat f => f | _ => S754_nan end.

(** [type(v) is int and lo <= v <= hi] *)
Definition int_between (lo hi : Z) (v : pyval) : bool :=
  match v with VInt z => (lo <=? z) && (z <=? hi) | _ => false end.
Definition is_none (v : pyval) : bool := match v with VNone => true | _ => false end.

(** ** Decoding *)

(** The flag bits of a frame *)
Definition frame_flags (f : CanFrame) : Z :=
  Z.lor (Z.lor (if truthy (is_extended_id f) then _CAN_EFF_FLAG else 0)
               (if truthy (is_remote_frame f) then _CAN_RTR_FLAG else 0))
        (if truthy (is_error_frame f) then _CAN_ERR_FLAG else 0).

(** [_validate_raw_can_id]; the arbitration identifier was checked before *)
Definition _validate_raw_can_id (f : CanFrame) : outcome wire_exn () :=
  match raw_can_id f with
  | VNone => Ok ()
  | VInt raw =>
      ensure (0 <=? raw) && (raw <=? 0xFFFFFFFF) else CanFrameValidationError in
      ensure raw =? Z.lor (match arbitration_id f with VInt id => id | _ => 0 end) (frame_flags f)
        else CanFrameValidationError in
      Ok ()
  | _ => Raise CanFrameValidationError
  end.

(** A timestamp of the host: absent or finite *)
Definition host_timestamp_ok (v : pyval) : outcome wire_exn () :=
  if is_none v then Ok ()
  else let* ok := finite_number v in ensure ok else CanFrameValidationError in Ok ().

(** [_validate_frame_timestamps] *)
Definition _validate_frame_timestamps (f : CanFrame) : outcome wire_exn () :=
  let* _ := _validate_raw_can_id f in
  ensure is_none (kernel_timestamp_ns f) ||
         match kernel_timestamp_ns f with VInt t => 0 <=? t | _ => false end else CanFrameValidationError in
  ensure is_none (kernel_drop_count f) || int_between 0 0xFFFFFFFF (kernel_drop_count f) else CanFrameValidationError in
  let* _ := host_timestamp_ok (observed_monotonic_ts f) in
  host_timestamp_ok (observed_wall_ts f).

(** [effective_dlc] *)
Definition effective_dlc (f : CanFrame) (d : bytes) : Z :=
  match dlc f with VInt n => n | _ => Z.of_nat (length d) end.

(** [type(v) is bool and not v] *)
Definition is_false (v : pyval) : bool := match v with VBool false => true | _ => false end.

(** The checks of [decode_can_frame] before the payload is looked at: the kind
    and the payload *)
Definition frame_envelope (f : CanFrame) : outcome wire_exn (CanFrameKind.t * bytes) :=
  ensure int_between 0 0x7FF (arbitration_id f) else CanFrameValidationError in
  ensure is_false (is_extended_id f) else CanFrameValidationError in
  ensure is_false (is_remote_frame f) else CanFrameValidationError in
  ensure is_false (is_error_frame f) else CanFrameValidationError in
  match data f with
  | None => Raise CanFrameValidationError
  | Some d =>
      let* _ := _validate_raw_can_id f in
      ensure is_none (dlc f) || int_between 0 8 (dlc f) else CanFrameValidationError in
      ensure is_none (dlc f) || (effective_dlc f d =? Z.of_nat (length d)) else CanFrameValidationError in
      let* _ := _validate_frame_timestamps f in
      ensure effective_dlc f d =? MCU_WIRE_DLC else CanFrameValidationError in
      match arbitration_id f with
      | VInt id => match _ID_TO_KIND id with Some k => Ok (k, d) | None => Raise CanFrameValidationError end
      | _ => Raise CanFrameValidationError
      end
  end.

(** [int.from_bytes(..., "big")] *)
Definition from_bytes_big (l : bytes) : Z := foldl (λ acc b, acc * 256 + b) 0 l.

(** [_WireMode.IDLE <= device_mode <= _WireMode.STOPPED] *)
Definition running_mode (m : Z) : bool := (_WireMode.IDLE <=? m) && (m <=? _WireMode.STOPPED).

(** An ordinary identifier and opcode, or those of a STOP *)
Definition in_partition (stop : bool) (id op : Z) : bool :=
  if stop then (0x8000 <=? id) && (op =? _WireOpcode.STOP) else (id <=? 0x7FFF) && Z_in op _ORDINARY_OPCODES.

(** [valid_result] of an acknowledgement *)
Definition valid_result (stop : bool) (result fault mode : Z) : bool :=
  if stop then
    ((result =? _WireResult.ACCEPTED) && (fault =? _WireFault.NONE) && (mode =? _WireMode.STOPPED)) ||
    ((result =? _WireResult.REJECTED) && (fault =? _WireFault.STOP_REJECTED) && (mode =? _WireMode.FAULTED))
  else
    ((result =? _WireResult.ACCEPTED) && (fault =? _WireFault.NONE) && running_mode mode) ||
    ((result =? _WireResult.REJECTED) && Z_in fault [_WireFault.DUPLICATE_FRAME; _WireFault.MALFORMED_FRAME] &&
     (mode =? _WireMode.FAULTED)).

(** [valid_telemetry] *)
Definition valid_telemetry (fault mode : Z) : bool :=
  ((fault =? _WireFault.NONE) && running_mode mode) ||
  (Z_in fault [_WireFault.LINK_LOST; _WireFault.WATCHDOG_EXPIRED] && (mode =? _WireMode.FAULTED)).

Definition request_frame (f : CanFrame) (k : CanFrameKind.t) (id op retry : Z) : CanWireFrame := {|
  frame := f; kind := k; command_id := Some id; sequence_no := None; opcode := Some op; retry_count := Some retry;
  result_code := None; fault_code := None; device_mode := None |}.
Definition response_frame (f : CanFrame) (k : CanFrameKind.t) (id op retry result fault mode : Z) : CanWireFrame := {|
  frame := f; kind := k; command_id := Some id; sequence_no := None; opcode := Some op; retry_count := Some retry;
  result_code := Some result; fault_code := Some fault; device_mode := Some mode |}.
Definition telemetry_frame (f : CanFrame) (seq fault mode : Z) : CanWireFrame := {|
  frame := f; kind := CanFrameKind.TELEMETRY; command_id := None; sequence_no := Some seq; opcode := None;
  retry_count := None; result_code := None; fault_code := Some fault; device_mode := Some mode |}.

(** The payload of each kind of frame *)
Definition decode_payload (f : CanFrame) (k : CanFrameKind.t) (d : bytes) : option CanWireFrame :=
  match d with
  | [b0; b1; b2; b3; b4; b5; b6; b7] =>
      if negb (b0 =? MCU_WIRE_VERSION_V1) then None
      else
        let id := from_bytes_big [b1; b2] in
        match k with
        | CanFrameKind.COMMAND | CanFrameKind.STOP =>
            let stop := bool_decide (k = CanFrameKind.STOP) in
            if negb ((b5 =? 0) && (b6 =? 0) && (b7 =? 0)) then None
            else if in_partition stop id b3 then Some (request_frame f k id b3 b4) else None
        | CanFrameKind.ACK | CanFrameKind.STOP_ACK =>
            let stop := bool_decide (k = CanFrameKind.STOP_ACK) in
            if in_partition stop id b3 && valid_result stop b5 b6 b7
            then Some (response_frame f k id b3 b4 b5 b6 b7) else None
        | CanFrameKind.TELEMETRY =>
            if negb (b7 =? 0) then None
            else if valid_telemetry b5 b6 then Some (telemetry_frame f (from_bytes_big [b1; b2; b3; b4]) b5 b6) else None
        end
  | _ => None
  end.

(** [decode_can_frame] *)
Definition decode_can_frame (x : received) : outcome wire_exn CanWireFrame :=
  match x with
  | OtherObject => Raise CanFrameValidationError
  | IsFrame f =>
      let* kd := frame_envelope f in
      match decode_payload f kd.1 kd.2 with Some w => Ok w | None => Raise CanFrameValidationError end
  end.

(** ** Retries and correlation *)

(** [_with_retry_count]: the frame without its timestamps, its fourth byte replaced *)
Definition _with_retry_count (w : CanWireFrame) (n : Z) : outcome wire_exn CanWireFrame :=
  let f := frame w in
  decode_can_frame (IsFrame {|
    arbitration_id := arbitration_id f; data := <[4%nat := n]> <$> data f; is_extended_id := is_extended_id f;
    is_remote_frame := is_remote_frame f; is_error_frame := is_error_frame f; dlc := dlc f;
    kernel_timestamp_ns := VNone; kernel_drop_count := VNone; observed_monotonic_ts := VNone;
    observed_wall_ts := VNone; raw_can_id := VNone |}).

Abbreviation CorrelationKey := (CanFrameKind.t * Z * Z)%type.

(** [_correlation_key]; [None] when it raises *)
Definition _correlation_key (w : CanWireFrame) : option CorrelationKey :=
  id ← command_id w; op ← opcode w; Some (kind w, id, op).

(** [_response_key] *)
Definition _response_key (w : CanWireFrame) : option CorrelationKey :=
  id ← command_id w; op ← opcode w;
  Some (if decide (kind w = CanFrameKind.COMMAND) then CanFrameKind.ACK else CanFrameKind.STOP_ACK, id, op).

(** ** Configuration *)

Record CanTransportConfig := {
  queue_capacity : nat;
  ack_timeout_s : spec_float;
  ack_retry_budget : Z;
  stop_timeout_s : spec_float;
  stop_retry_budget : Z;
  max_subscribers_per_id : nat;
  diagnostic_capacity : nat;
  correlation_capacity : nat;
  initial_stop_command_id : Z;
  telemetry_capacity : nat;
  health_capacity : nat;
  source : string;
  interface : string;
  transport_backpressure_budget : Z;
  external_capacity : nat
}.

(** [CanTransportConfig.__post_init__] on fields of the declared types, the two
    timeouts that the bus itself uses converted to floats *)
Definition valid_config (c : CanTransportConfig) : bool :=
  (0 <? queue_capacity c)%nat && (0 <? telemetry_capacity c)%nat && (0 <? health_capacity c)%nat &&
  (0 <? external_capacity c)%nat && (0 <? max_subscribers_per_id c)%nat && (0 <? correlation_capacity c)%nat &&
  forallb (λ z, (0 <=? z) && (z <=? 255)) [ack_retry_budget c; stop_retry_budget c; transport_backpressure_budget c] &&
  forallb (λ t, isfinite t && float_lt float_zero t) [ack_timeout_s c; stop_timeout_s c] &&
  (0x8000 <=? initial_stop_command_id c) && (initial_stop_command_id c <=? 0xFFFF) &&
  (0 <? diagnostic_capacity c)%nat && non_blank (source c) && non_blank (interface c).

(** ** The external projection *)

Record CanExternalRecord := {
  x_status : CanReceiveStatus.t;
  x_source : string;
  x_interface : string;
  x_ingress_sequence : Z;
  x_health : CanLinkState.t;
  x_frame_valid : bool;
  x_exposure_allowed : bool;
  x_event_type : option string;
  x_frame_kind : option CanFrameKind.t;
  x_arbitration_id : option Z;
  x_raw_can_id : option Z;
  x_dlc : option Z;
  x_data : option bytes;
  x_is_extended_id : option bool;
  x_is_remote_frame : option bool;
  x_is_error_frame : option bool;
  x_monotonic_ts : option spec_float;
  x_wall_ts : option spec_float;
  x_kernel_timestamp_ns : option Z;
  x_kernel_drop_count : option Z;
  x_timestamp_source : string;
  x_callback_errors : Z;
  x_confirmed : bool;
  x_command_id : option Z;
  x_sequence_no : option Z;
  x_opcode : option Z;
  x_retry_count : option Z;
  x_result_code : option Z;
  x_fault_code : option Z;
  x_device_mode : option Z;
  x_evidence_refs : list string
}.

(** A condition on an optional field *)
Definition opt_ok {A} (p : A → bool) (o : option A) : bool := match o with Some a => p a | None => true end.
Definition flag_bit (o : option bool) (bit : Z) : Z := match o with Some true => bit | _ => 0 end.

(** [CanExternalRecord.__post_init__]: [true] when it does not raise *)
Definition record_ok (r : CanExternalRecord) : bool :=
  (0 <=? x_ingress_sequence r) && non_blank (x_source r) && non_blank (x_interface r) &&
  opt_ok (λ n, (0 <=? n) && (n <=? 8)) (x_dlc r) &&
  match x_data r, x_dlc r with Some d, Some n => Z.of_nat (length d) <=? n | _, _ => true end &&
  opt_ok (λ t, str_in t ["telemetry"; "action_result"]) (x_event_type r) &&
  opt_ok (λ n, (0 <=? n) && (n <=? 0xFFFFFFFF)) (x_kernel_drop_count r) &&
  opt_ok isfinite (x_monotonic_ts r) && opt_ok isfinite (x_wall_ts r) &&
  opt_ok (λ n, 0 <=? n) (x_kernel_timestamp_ns r) &&
  str_in (x_timestamp_source r) ["none"; "adapter"; "host"; "kernel"; "kernel+host"] &&
  (0 <=? x_callback_errors r) &&
  (negb (x_exposure_allowed r) || (x_frame_valid r && bool_decide (x_status r = CanReceiveStatus.ACCEPTED))) &&
  (negb (x_confirmed r) || x_exposure_allowed r) &&
  (negb (x_confirmed r) || bool_decide (x_status r = CanReceiveStatus.ACCEPTED)) &&
  forallb (opt_ok (λ n, 0 <=? n))
    [x_arbitration_id r; x_raw_can_id r; x_command_id r; x_sequence_no r; x_opcode r; x_retry_count r; x_result_code r;
     x_fault_code r; x_device_mode r] &&
  match x_raw_can_id r with
  | None => true
  | Some raw =>
      match x_arbitration_id r, x_is_extended_id r, x_is_remote_frame r, x_is_error_frame r with
      | Some id, Some e, Some t, Some x =>
          raw =? Z.lor id (Z.lor (Z.lor (if e then _CAN_EFF_FLAG else 0) (if t then _CAN_RTR_FLAG else 0))
                                 (if x then _CAN_ERR_FLAG else 0))
      | _, _, _, _ => false
      end
  end &&
  forallb non_blank (x_evidence_refs r).

(** [_external_event_type] *)
Definition _external_event_type (k : option CanFrameKind.t) : option string :=
  match k with
  | Some CanFrameKind.TELEMETRY => Some "telemetry"
  | Some (CanFrameKind.ACK | CanFrameKind.STOP_ACK) => Some "action_result"
  | _ => None
  end.

Record frame_metadata := {
  m_arbitration_id : option Z;
  m_raw_can_id : option Z;
  m_dlc : option Z;
  m_data : option bytes;
  m_is_extended_id : option bool;
  m_is_remote_frame : option bool;
  m_is_error_frame : option bool
}.

Definition bool_of (v : pyval) : option bool := match v with VBool b => Some b | _ => None end.

(** [_safe_external_frame_metadata] *)
Definition _safe_external_frame_metadata (o : option CanFrame) (frame_valid : bool) : frame_metadata :=
  match o with
  | None => {| m_arbitration_id := None; m_raw_can_id := None; m_dlc := None; m_data := None; m_is_extended_id := None;
               m_is_remote_frame := None; m_is_error_frame := None |}
  | Some f =>
      let id := match arbitration_id f with VInt z => if 0 <=? z then Some z else None | _ => None end in
      let e := bool_of (is_extended_id f) in
      let t := bool_of (is_remote_frame f) in
      let x := bool_of (is_error_frame f) in
      let raw := match raw_can_id f with VInt z => if (0 <=? z) && (z <=? 0xFFFFFFFF) then Some z else None | _ => None end in
      {| m_arbitration_id := id;
         m_raw_can_id :=
           match raw, id, e, t, x with
           | Some r, Some i, Some e, Some t, Some x =>
               let i1 := if e then Z.lor i _CAN_EFF_FLAG else i in
               let i2 := if t then Z.lor i1 _CAN_RTR_FLAG else i1 in
               let i3 := if x then Z.lor i2 _CAN_ERR_FLAG else i2 in
               if r =? i3 then Some r else None
           | _, _, _, _, _ => None
           end;
         m_dlc :=
           match dlc f, data f with
           | VInt n, Some d => if (0 <=? n) && (n <=? 8) then Some n
                               else if (length d <=? 8)%nat then Some (Z.of_nat (length d)) else None
           | VInt n, None => if (0 <=? n) && (n <=? 8) then Some n else None
           | _, Some d => if (length d <=? 8)%nat then Some (Z.of_nat (length d)) else None
           | _, None => None
           end;
         m_data := if frame_valid then data f else None;
         m_is_extended_id := e; m_is_remote_frame := t; m_is_error_frame := x |}
  end.
