(* ===== verification/CanWireTheorems.v ===== *)
(** * CAN Wire V1: the decoder accepts exactly the encodings of messages

    [message] is the protocol of [protocol_v1] as a type: what a controller can
    ask for and what a device can answer.  [encode] is its reference encoding in
    one classic CAN frame.  [decode_can_frame] is shown to accept a frame if and
    only if it carries the encoding of a message. *)

From Stdlib Require Import ZArith Ascii String SpecFloat.
From S2P Require Import Prelude PyVal CanWire.
Local Open Scope Z_scope.

(** ** Messages and their reference encoding *)

Inductive command_op : Type := Move | GripOpen | GripClose | Hold | Heartbeat.
Inductive run_mode : Type := Idle | Moving | Holding | Stopped.
Inductive command_answer : Type := Done (m : run_mode) | DuplicateFrame | MalformedFrame.
Inductive health : Type := Running (m : run_mode) | LinkLost | WatchdogExpired.

Inductive message : Type :=
| Command (id : Z) (op : command_op) (retry : Z)
| Stop (id retry : Z)
| Ack (id : Z) (op : command_op) (retry : Z) (a : command_answer)
| StopAck (id retry : Z) (accepted : bool)
| Telemetry (seq : Z) (h : health).

Definition op_code (o : command_op) : Z :=
  match o with Move => 1 | GripOpen => 2 | GripClose => 3 | Hold => 4 | Heartbeat => 6 end.
Definition mode_code (m : run_mode) : Z := match m with Idle => 0 | Moving => 1 | Holding => 2 | Stopped => 3 end.
(** Result, fault and mode bytes *)
Definition answer_codes (a : command_answer) : Z * Z * Z :=
  match a with Done m => (0, 0, mode_code m) | DuplicateFrame => (1, 5, 4) | MalformedFrame => (1, 7, 4) end.
Definition stop_codes (accepted : bool) : Z * Z * Z := if accepted then (0, 0, 3) else (1, 3, 4).
Definition health_codes (h : health) : Z * Z :=
  match h with Running m => (0, mode_code m) | LinkLost => (4, 4) | WatchdogExpired => (6, 4) end.

(** Commands use the lower half of the identifiers, STOP the upper half *)
Definition valid_message (m : message) : Prop :=
  match m with
  | Command id _ retry | Ack id _ retry _ => 0 <= id < 0x8000 ∧ is_byte retry
  | Stop id retry | StopAck id retry _ => 0x8000 <= id < 0x10000 ∧ is_byte retry
  | Telemetry seq _ => 0 <= seq < 2 ^ 32
  end.

Definition hi (z : Z) : Z := z / 256.
Definition lo (z : Z) : Z := z mod 256.

(** The arbitration identifier and the payload of a message *)
Definition encode (m : message) : Z * bytes :=
  match m with
  | Command id op retry => (0x100, [0x10; hi id; lo id; op_code op; retry; 0; 0; 0])
  | Stop id retry => (0x080, [0x10; hi id; lo id; 5; retry; 0; 0; 0])
  | Ack id op retry a =>
      let '(r, f, d) := answer_codes a in (0x101, [0x10; hi id; lo id; op_code op; retry; r; f; d])
  | StopAck id retry ok =>
      let '(r, f, d) := stop_codes ok in (0x081, [0x10; hi id; lo id; 5; retry; r; f; d])
  | Telemetry seq h =>
      let '(f, d) := health_codes h in
      (0x180, [0x10; hi (hi (hi seq)); lo (hi (hi seq)); lo (hi seq); lo seq; f; d; 0])
  end.

(** The decoded form of a message carried by [f] *)
Definition decoded (f : CanFrame) (m : message) : CanWireFrame :=
  match m with
  | Command id op retry => request_frame f CanFrameKind.COMMAND id (op_code op) retry
  | Stop id retry => request_frame f CanFrameKind.STOP id 5 retry
  | Ack id op retry a =>
      let '(r, ft, d) := answer_codes a in response_frame f CanFrameKind.ACK id (op_code op) retry r ft d
  | StopAck id retry ok =>
      let '(r, ft, d) := stop_codes ok in response_frame f CanFrameKind.STOP_ACK id 5 retry r ft d
  | Telemetry seq h => let '(ft, d) := health_codes h in telemetry_frame f seq ft d
  end.

(** A classic data frame of eight bytes whose metadata, where present, is sane *)
Record carrier (f : CanFrame) (id : Z) : Prop := {
  carrier_flags : is_extended_id f = VBool false ∧ is_remote_frame f = VBool false ∧ is_error_frame f = VBool false;
  carrier_dlc : dlc f = VNone ∨ dlc f = VInt 8;
  carrier_raw : raw_can_id f = VNone ∨ raw_can_id f = VInt id;
  carrier_kernel : kernel_timestamp_ns f = VNone ∨ ∃ t, kernel_timestamp_ns f = VInt t ∧ 0 <= t;
  carrier_drops : kernel_drop_count f = VNone ∨ ∃ n, kernel_drop_count f = VInt n ∧ 0 <= n <= 0xFFFFFFFF;
  carrier_monotonic : observed_monotonic_ts f = VNone ∨ finite_number (observed_monotonic_ts f) = Ok true;
  carrier_wall : observed_wall_ts f = VNone ∨ finite_number (observed_wall_ts f) = Ok true
}.

(** The frame is the encoding of the message *)
Definition carries (f : CanFrame) (m : message) : Prop :=
  carrier f (encode m).1 ∧ arbitration_id f = VInt (encode m).1 ∧ data f = Some (encode m).2.

(** ** The envelope *)

Lemma ensure_Ok {A} (b : bool) e (k : outcome wire_exn A) a : (ensure b else e in k) = Ok a ↔ b = true ∧ k = Ok a.
Proof. destruct b; naive_solver. Qed.

Lemma let_Ok {A B} (m : outcome wire_exn A) (k : A → outcome wire_exn B) b :
  outcome_bind m k = Ok b ↔ ∃ a, m = Ok a ∧ k a = Ok b.
Proof. destruct m; naive_solver. Qed.

Lemma host_timestamp_ok_Ok v u : host_timestamp_ok v = Ok u ↔ v = VNone ∨ finite_number v = Ok true.
Proof.
  unfold host_timestamp_ok. destruct (is_none v) eqn:Hn.
  - destruct v; try done. destruct u. naive_solver.
  - rewrite let_Ok. setoid_rewrite ensure_Ok. destruct u. split.
    + intros (a & Ha & -> & _). by right.
    + intros [->|H]; [done|eauto].
Qed.

Lemma raw_can_id_Ok f id u :
  arbitration_id f = VInt id → 0 <= id <= 0x7FF →
  is_extended_id f = VBool false → is_remote_frame f = VBool false → is_error_frame f = VBool false →
  _validate_raw_can_id f = Ok u ↔ raw_can_id f = VNone ∨ raw_can_id f = VInt id.
Proof.
  intros Hid Hr He Ht Hx. unfold _validate_raw_can_id, frame_flags. rewrite Hid, He, Ht, Hx. simpl truthy. cbv iota.
  rewrite Z.lor_0_r. destruct u. destruct (raw_can_id f); try naive_solver.
  rewrite !ensure_Ok, Z.eqb_eq, andb_true_iff, !Z.leb_le. naive_solver lia.
Qed.

Lemma absent_or_int (P : Z → bool) v :
  is_none v || match v with VInt z => P z | _ => false end = true ↔ (v = VNone ∨ ∃ z, v = VInt z ∧ P z = true).
Proof.
  split.
  - destruct v; simpl; try done; [by left|]. intros H. right. eauto.
  - intros [->|(z & -> & H)]; done.
Qed.

Lemma timestamps_Ok f u :
  _validate_frame_timestamps f = Ok u ↔
  (∃ u, _validate_raw_can_id f = Ok u) ∧
  (kernel_timestamp_ns f = VNone ∨ ∃ t, kernel_timestamp_ns f = VInt t ∧ 0 <= t) ∧
  (kernel_drop_count f = VNone ∨ ∃ n, kernel_drop_count f = VInt n ∧ 0 <= n <= 0xFFFFFFFF) ∧
  (observed_monotonic_ts f = VNone ∨ finite_number (observed_monotonic_ts f) = Ok true) ∧
  (observed_wall_ts f = VNone ∨ finite_number (observed_wall_ts f) = Ok true).
Proof.
  unfold _validate_frame_timestamps. rewrite let_Ok. setoid_rewrite ensure_Ok. setoid_rewrite ensure_Ok.
  setoid_rewrite let_Ok. setoid_rewrite host_timestamp_ok_Ok.
  assert (Hk := absent_or_int (λ t, 0 <=? t) (kernel_timestamp_ns f)).
  assert (Hd := absent_or_int (λ n, (0 <=? n) && (n <=? 0xFFFFFFFF)) (kernel_drop_count f)).
  setoid_rewrite Z.leb_le in Hk. setoid_rewrite andb_true_iff in Hd. setoid_rewrite Z.leb_le in Hd.
  unfold int_between.
  setoid_rewrite Hk. setoid_rewrite Hd. split; [naive_solver|].
  intros ((u' & Hu) & H1 & H2 & H3 & H4). exists u'. split; [done|]. split; [done|]. split; [done|]. by exists ().
Qed.

Lemma is_false_spec v : is_false v = true ↔ v = VBool false.
Proof. destruct v as [|[]| | | | | | | | | |]; naive_solver. Qed.

Lemma int_between_spec lo hi v : int_between lo hi v = true ↔ ∃ z, v = VInt z ∧ lo <= z <= hi.
Proof.
  destruct v; simpl; try (split; [done|by intros (? & ? & _)]).
  rewrite andb_true_iff, !Z.leb_le. naive_solver.
Qed.

Lemma dlc_is_eight f d :
  (is_none (dlc f) || int_between 0 8 (dlc f) = true ∧
   is_none (dlc f) || (effective_dlc f d =? Z.of_nat (length d)) = true ∧ (effective_dlc f d =? MCU_WIRE_DLC) = true) ↔
  (dlc f = VNone ∨ dlc f = VInt 8) ∧ length d = 8%nat.
Proof.
  unfold effective_dlc, MCU_WIRE_DLC. destruct (dlc f); simpl; rewrite ?andb_true_iff, ?Z.leb_le, ?Z.eqb_eq;
    try (split; [by intros (? & _)|by intros ([]&_)]).
  - split; [intros (_ & _ & H)|intros (_ & H)]; (split_and!; [auto..|lia]).
  - split; [intros (? & ? & ?); split; [right; f_equal; lia|lia]|].
    intros ([|[= ->]] & Hl); [done|]. split_and!; lia.
Qed.

Lemma ID_TO_KIND_range id k : _ID_TO_KIND id = Some k → 0 <= id <= 0x7FF.
Proof.
  unfold _ID_TO_KIND, MCU_CAN_ID_COMMAND, MCU_CAN_ID_ACK, MCU_CAN_ID_TELEMETRY, MCU_CAN_ID_STOP, MCU_CAN_ID_STOP_ACK.
  repeat (case_match; [lia|]). done.
Qed.

Lemma frame_envelope_Ok f k d :
  frame_envelope f = Ok (k, d) ↔
  ∃ id, arbitration_id f = VInt id ∧ _ID_TO_KIND id = Some k ∧ data f = Some d ∧ length d = 8%nat ∧ carrier f id.
Proof.
  unfold frame_envelope. rewrite !ensure_Ok, int_between_spec, !is_false_spec. split.
  - intros ((id & Hid & Hr) & He & Ht & Hx & H). exists id. destruct (data f) as [d'|] eqn:Hd; [|done].
    rewrite let_Ok in H. destruct H as (u & Hu & H). rewrite !ensure_Ok in H. destruct H as (H1 & H2 & H).
    rewrite let_Ok in H. destruct H as (u' & Hts & H). rewrite ensure_Ok in H. destruct H as (H3 & H). rewrite Hid in H.
    destruct (_ID_TO_KIND id); [|done]. simplify_eq. destruct (proj1 (dlc_is_eight f d) (conj H1 (conj H2 H3))).
    apply timestamps_Ok in Hts as (_ & ? & ? & ? & ?). eapply raw_can_id_Ok in Hu; try done.
  - intros (id & Hid & Hk & Hd & Hlen & C). destruct (C) as [(He & Ht & Hx) Hdlc Hraw ? ? ? ?].
    assert (Hr := ID_TO_KIND_range _ _ Hk). split_and!; [by exists id|done..|]. rewrite Hd, let_Ok.
    destruct (proj2 (dlc_is_eight f d) (conj Hdlc Hlen)) as (H1 & H2 & H3).
    exists (). split; [by eapply raw_can_id_Ok|]. rewrite !ensure_Ok. split_and!; [done..|].
    rewrite let_Ok. exists (). split; [|by rewrite ensure_Ok, Hid, Hk].
    apply timestamps_Ok. split_and!; [|done..]. exists (). by eapply raw_can_id_Ok.
Qed.

(** ** The payload *)

Lemma pair_bytes b1 b2 : is_byte b1 → is_byte b2 →
  hi (from_bytes_big [b1; b2]) = b1 ∧ lo (from_bytes_big [b1; b2]) = b2 ∧ 0 <= from_bytes_big [b1; b2] < 0x10000.
Proof. unfold is_byte, hi, lo, from_bytes_big. cbn [foldl]. intros. split_and!; Z.to_euclidean_division_equations; lia. Qed.

Lemma quad_bytes b1 b2 b3 b4 : is_byte b1 → is_byte b2 → is_byte b3 → is_byte b4 →
  let z := from_bytes_big [b1; b2; b3; b4] in
  hi (hi (hi z)) = b1 ∧ lo (hi (hi z)) = b2 ∧ lo (hi z) = b3 ∧ lo z = b4 ∧ 0 <= z < 2 ^ 32.
Proof. unfold is_byte, hi, lo, from_bytes_big. cbn [foldl]. intros. split_and!; Z.to_euclidean_division_equations; lia. Qed.

Lemma bytes_pair z : 0 <= z < 0x10000 → from_bytes_big [hi z; lo z] = z.
Proof. unfold hi, lo, from_bytes_big. cbn [foldl]. intros. Z.to_euclidean_division_equations. lia. Qed.

Lemma bytes_quad z : 0 <= z < 2 ^ 32 → from_bytes_big [hi (hi (hi z)); lo (hi (hi z)); lo (hi z); lo z] = z.
Proof. unfold hi, lo, from_bytes_big. cbn [foldl]. intros. Z.to_euclidean_division_equations. lia. Qed.

Lemma Z_in_spec z l : Z_in z l = true ↔ z ∈ l.
Proof.
  unfold Z_in. rewrite existsb_exists. setoid_rewrite Z.eqb_eq. setoid_rewrite <- list_elem_of_In. naive_solver.
Qed.

Lemma ordinary_opcode op : Z_in op _ORDINARY_OPCODES = true ↔ ∃ o, op_code o = op.
Proof.
  rewrite Z_in_spec. unfold _ORDINARY_OPCODES. rewrite !elem_of_cons, elem_of_nil. split.
  - intros [->|[->|[->|[->|[->|[]]]]]]; [by exists Move|by exists GripOpen|by exists GripClose|by exists Hold|by exists Heartbeat].
  - intros [[] <-]; tauto.
Qed.

Lemma running_mode_spec m : running_mode m = true ↔ ∃ r, mode_code r = m.
Proof.
  unfold running_mode, _WireMode.IDLE, _WireMode.STOPPED. rewrite andb_true_iff, !Z.leb_le. split.
  - intros H. assert (m = 0 ∨ m = 1 ∨ m = 2 ∨ m = 3) as [->|[->|[->| ->]]] by lia;
      [by exists Idle|by exists Moving|by exists Holding|by exists Stopped].
  - by intros [[] <-].
Qed.

Lemma valid_result_spec (stop : bool) r f d :
  valid_result stop r f d = true ↔
  if stop then ∃ ok, stop_codes ok = (r, f, d) else ∃ a, answer_codes a = (r, f, d).
Proof.
  unfold valid_result. destruct stop; rewrite !orb_true_iff, !andb_true_iff, ?running_mode_spec, ?Z_in_spec, !Z.eqb_eq.
  - split; [intros [((-> & ->) & ->)|((-> & ->) & ->)]; [by exists true|by exists false]|].
    intros [[] [= <- <- <-]]; naive_solver.
  - rewrite !elem_of_cons, elem_of_nil. split.
    + intros [((-> & ->) & m & <-)|((-> & [->|[->|[]]]) & ->)];
        [by exists (Done m)|by exists DuplicateFrame|by exists MalformedFrame].
    + intros [[m| |] [= <- <- <-]]; [left; eauto|right; tauto..].
Qed.

Lemma valid_telemetry_spec f d : valid_telemetry f d = true ↔ ∃ h, health_codes h = (f, d).
Proof.
  unfold valid_telemetry. rewrite !orb_true_iff, !andb_true_iff, running_mode_spec, Z_in_spec, !Z.eqb_eq.
  rewrite !elem_of_cons, elem_of_nil. split.
  - intros [(-> & m & <-)|([->|[->|[]]] & ->)]; [by exists (Running m)|by exists LinkLost|by exists WatchdogExpired].
  - intros [[m| |] [= <- <-]]; [left; eauto|right; tauto..].
Qed.

Lemma in_partition_spec (stop : bool) id op :
  in_partition stop id op = true ↔ if stop then 0x8000 <= id ∧ op = 5 else id < 0x8000 ∧ ∃ o, op_code o = op.
Proof.
  unfold in_partition. destruct stop; rewrite andb_true_iff, Z.leb_le.
  - by rewrite Z.eqb_eq.
  - rewrite ordinary_opcode. split; intros []; (split; [lia|done]).
Qed.

Lemma payload_sound f k d w :
  Forall is_byte d → decode_payload f k d = Some w →
  ∃ m, valid_message m ∧ d = (encode m).2 ∧ w = decoded f m ∧ _ID_TO_KIND (encode m).1 = Some k.
Proof.
  intros Hd. destruct d as [|b0 [|b1 [|b2 [|b3 [|b4 [|b5 [|b6 [|b7 [|]]]]]]]]]; try done.
  rewrite !Forall_cons in Hd. destruct Hd as (H0 & H1 & H2 & H3 & H4 & H5 & H6 & H7 & _).
  destruct (pair_bytes b1 b2 H1 H2) as (Hhi & Hlo & Hid). destruct (quad_bytes b1 b2 b3 b4 H1 H2 H3 H4) as (Q1 & Q2 & Q3 & Q4 & Q5).
  cbn [decode_payload]. destruct (b0 =? MCU_WIRE_VERSION_V1) eqn:E; [|done]. apply Z.eqb_eq in E as ->. cbn [negb].
  destruct k; cbv zeta.
  - destruct ((b5 =? 0) && (b6 =? 0) && (b7 =? 0)) eqn:E; [|done]. rewrite !andb_true_iff, !Z.eqb_eq in E. destruct E as ((-> & ->) & ->).
    rewrite bool_decide_false by done. cbn [negb]. case_match eqn:P; [|done]. apply in_partition_spec in P as (? & o & <-). intros [= <-].
    exists (Command (from_bytes_big [b1; b2]) o b4). cbn [valid_message encode decoded fst snd]. rewrite Hhi, Hlo.
    split_and!; try done; lia.
  - destruct (in_partition _ _ _) eqn:P; [|done]. destruct (valid_result _ _ _ _) eqn:V; [|done].
    rewrite bool_decide_false in P, V by done. apply in_partition_spec in P as (? & o & <-). apply valid_result_spec in V as [a Ha].
    cbn [andb]. intros [= <-]. exists (Ack (from_bytes_big [b1; b2]) o b4 a). cbn [valid_message encode decoded]. rewrite Ha, Hhi, Hlo.
    cbn [fst snd]. split_and!; try done; lia.
  - destruct (b7 =? 0) eqn:E; [|done]. apply Z.eqb_eq in E as ->. cbn [negb]. case_match eqn:V; [|done].
    apply valid_telemetry_spec in V as [h Hh]. intros [= <-]. exists (Telemetry (from_bytes_big [b1; b2; b3; b4]) h).
    cbn [valid_message encode decoded]. rewrite Hh, Q1, Q2, Q3, Q4. cbn [fst snd]. split_and!; try done; lia.
  - destruct ((b5 =? 0) && (b6 =? 0) && (b7 =? 0)) eqn:E; [|done]. rewrite !andb_true_iff, !Z.eqb_eq in E. destruct E as ((-> & ->) & ->).
    rewrite bool_decide_true by done. cbn [negb]. case_match eqn:P; [|done]. apply in_partition_spec in P as (? & ->). intros [= <-].
    exists (Stop (from_bytes_big [b1; b2]) b4). cbn [valid_message encode decoded fst snd]. rewrite Hhi, Hlo. split_and!; try done; lia.
  - destruct (in_partition _ _ _) eqn:P; [|done]. destruct (valid_result _ _ _ _) eqn:V; [|done].
    rewrite bool_decide_true in P, V by done. apply in_partition_spec in P as (? & ->). apply valid_result_spec in V as [a Ha].
    cbn [andb]. intros [= <-]. exists (StopAck (from_bytes_big [b1; b2]) b4 a). cbn [valid_message encode decoded]. rewrite Ha, Hhi, Hlo.
    cbn [fst snd]. split_and!; try done; lia.
Qed.

Lemma payload_complete f m k :
  valid_message m → _ID_TO_KIND (encode m).1 = Some k → decode_payload f k (encode m).2 = Some (decoded f m).
Proof.
  destruct m as [id op n|id n|id op n a|id n ok|seq h]; cbn [valid_message encode decoded].
  - intros [Hid _] [= <-]. cbn [snd decode_payload]. rewrite bytes_pair by lia. cbv zeta.
    by rewrite bool_decide_false, (proj2 (in_partition_spec false _ _)) by first [done | split; [lia|eauto]].
  - intros [Hid _] [= <-]. cbn [snd decode_payload]. rewrite bytes_pair by lia. cbv zeta.
    by rewrite bool_decide_true, (proj2 (in_partition_spec true _ _)) by first [done | split; [lia|done]].
  - destruct (answer_codes a) as [[r ft] d] eqn:Ha. intros [Hid _] [= <-]. cbn [snd decode_payload]. rewrite bytes_pair by lia.
    cbv zeta. rewrite bool_decide_false by done.
    by rewrite (proj2 (in_partition_spec false _ _)), (proj2 (valid_result_spec false _ _ _)) by first [solve [eauto] | split; [lia|eauto]].
  - destruct (stop_codes ok) as [[r ft] d] eqn:Ha. intros [Hid _] [= <-]. cbn [snd decode_payload]. rewrite bytes_pair by lia.
    cbv zeta. rewrite bool_decide_true by done.
    by rewrite (proj2 (in_partition_spec true _ _)), (proj2 (valid_result_spec true _ _ _)) by first [solve [eauto] | split; [lia|eauto]].
  - destruct (health_codes h) as [ft d] eqn:Ha. intros Hs [= <-]. cbn [snd decode_payload]. rewrite bytes_quad by done.
    by rewrite (proj2 (valid_telemetry_spec _ _)) by eauto.
Qed.

Lemma encoded_length m : length (encode m).2 = 8%nat.
Proof. destruct m as [| | ? ? ? []|? ? []|? []]; done. Qed.

Lemma encode_kind m : ∃ k, _ID_TO_KIND (encode m).1 = Some k.
Proof. destruct m as [| | ? ? ? []|? ? []|? []]; by eexists. Qed.

Lemma kind_to_id id id' k : _ID_TO_KIND id = Some k → _ID_TO_KIND id' = Some k → id = id'.
Proof.
  unfold _ID_TO_KIND. intros H1 H2. repeat (case_match; simplify_eq; try lia).
Qed.

(** C20: [decode_can_frame] accepts a frame if and only if the frame carries the
    reference encoding of a Wire V1 message, and then returns that message: no
    malformed frame is accepted, no well-formed one is refused. *)
Theorem decoder_accepts_exactly_the_messages (f : CanFrame) (w : CanWireFrame) :
  (∀ d, data f = Some d → Forall is_byte d) →
  decode_can_frame (IsFrame f) = Ok w ↔ ∃ m, valid_message m ∧ carries f m ∧ w = decoded f m.
Proof.
  intros Hb. cbn [decode_can_frame]. rewrite let_Ok. split.
  - intros ([k d] & He & Hw). cbn [fst snd] in Hw. destruct (decode_payload f k d) eqn:Hp; [|done].
    injection Hw as ->. apply frame_envelope_Ok in He as (id & Hid & Hk & Hd & _ & C).
    destruct (payload_sound _ _ _ _ (Hb _ Hd) Hp) as (m & Hv & -> & -> & Hk').
    assert (id = (encode m).1) as -> by by eapply kind_to_id. exists m. by split_and!.
  - intros (m & Hv & (C & Hid & Hd) & ->). destruct (encode_kind m) as [k Hk].
    exists (k, (encode m).2). cbn [fst snd]. rewrite payload_complete by done. split; [|done].
    apply frame_envelope_Ok. exists (encode m).1. by rewrite encoded_length.
Qed.

Definition sample_ack : message := Ack 0x1234 GripClose 2 (Done Holding).
Definition sample_frame : CanFrame := plain_frame 0x101 [0x10; 0x12; 0x34; 3; 2; 0; 0; 2].

Lemma decoder_accepts_exactly_the_messages_witness :
  decode_can_frame (IsFrame sample_frame) = Ok (decoded sample_frame sample_ack).
Proof.
  apply (decoder_accepts_exactly_the_messages sample_frame (decoded sample_frame sample_ack)).
  - intros d [= <-]. rewrite !Forall_cons. unfold is_byte. split_and!; try lia. by apply Forall_nil.
  - exists sample_ack. split; [unfold valid_message, is_byte; simpl; lia|]. split; [|reflexivity].
    split; [|by split]. split; [by split_and!|by left..].
Defined.
