(* ===== verification/CanState.v ===== *)
(** * CAN bus adapter: state

    The state of [DeviceRuntime] and [SafeCANBus] in
    [libs/hardware/workbench/hardware/can_driver_safe.py], grouped into the
    runtime's lifecycle, the protocol state, the bounded planes and the ingress
    clocks.  One lock guards all of it.  A subscriber is a number, since handlers
    are compared by identity; a dispatch carries a number for the same reason. *)

From Stdlib Require Import ZArith Ascii String SpecFloat.
From S2P Require Import Prelude PyVal CanWire.
Local Open Scope Z_scope.

#[global] Instance can_frame_kind_countable : Countable CanFrameKind.t :=
  inj_countable value of_value of_value_value.

(** [_PendingRequest] *)
Record PendingRequest := {
  wire_frame : CanWireFrame;
  deadline : spec_float;
  retry_budget_used : Z;
  sent_retry_counts : gset Z
}.

(** [_Dispatch], with its identity *)
Record Dispatch := {
  dispatch_frame : CanWireFrame;
  is_retry : bool;
  dispatch_id : nat
}.

(** [_IngressObservation] *)
Record IngressObservation := {
  o_sequence : Z;
  o_monotonic_ts : option spec_float;
  o_wall_ts : option spec_float;
  o_kernel_timestamp_ns : option Z;
  o_kernel_drop_count : option Z;
  o_timestamp_source : string;
  o_valid : bool
}.

Record CanDiagnostic := {
  diagnostic_code : CanDiagnosticCode.t;
  observed_at : spec_float;
  diagnostic_command_id : option Z
}.

(** A correlation window: the retry counts of each key, and the keys by age *)
Record window := { retries_of : gmap CorrelationKey (gset Z); key_order : list CorrelationKey }.
Definition empty_window : window := {| retries_of := ∅; key_order := [] |}.

(** The lifecycle of [DeviceRuntime]; a worker thread is alive or not *)
Record Lifecycle := {
  rt_state : DeviceRuntimeState.t;
  worker : option bool;
  lifecycle_operation : bool;
  active_operations : nat;
  generation : nat;
  configured : bool;
  activated : bool;
  cleanup_in_progress : bool;
  shutdown_requested : bool;
  shutdown_result : option bool;
  shutdown_timeout_reported : bool;
  cancelled : bool
}.

(** The protocol state of [SafeCANBus] and the command plane *)
Record Protocol := {
  link : CanLinkState.t;
  pending_command : option PendingRequest;
  pending_stop : option PendingRequest;
  dispatching : option Dispatch;
  command_queue : list CanWireFrame;
  backpressure_key : option (CanFrameKind.t * option Z * option Z);
  backpressure_attempts : Z;
  completed : window;
  timed_out : window;
  next_stop_command_id : Z;
  last_telemetry_sequence : option Z;
  dispatch_count : nat
}.

(** The other bounded planes and the subscribers *)
Record Planes := {
  telemetry_queue : list CanWireFrame;
  health_queue : list CanDiagnostic;
  external_queue : list CanExternalRecord;
  telemetry_drop_count : Z;
  health_drop_count : Z;
  external_drop_count : Z;
  error_count : Z;
  subscribers : gmap Z (list nat)
}.

Record Ingress := {
  ingress_sequence : Z;
  last_monotonic_ts : option spec_float;
  last_wall_ts : option spec_float;
  last_observation : option IngressObservation
}.

(** The whole object; the last three fields are how often each clock was read *)
Record Bus := {
  life : Lifecycle;
  proto : Protocol;
  planes : Planes;
  ingress : Ingress;
  opened : bool;
  clock_reads : nat;
  wall_reads : nat;
  time_reads : nat
}.

(** ** Assignments *)

Definition set_rt_state (v : DeviceRuntimeState.t) (l : Lifecycle) : Lifecycle := {|
  rt_state := v; worker := worker l; lifecycle_operation := lifecycle_operation l; active_operations :=
  active_operations l; generation := generation l; configured := configured l; activated := activated l;
  cleanup_in_progress := cleanup_in_progress l; shutdown_requested := shutdown_requested l; shutdown_result :=
  shutdown_result l; shutdown_timeout_reported := shutdown_timeout_reported l; cancelled := cancelled l |}.
Definition set_worker (v : option bool) (l : Lifecycle) : Lifecycle := {|
  rt_state := rt_state l; worker := v; lifecycle_operation := lifecycle_operation l; active_operations :=
  active_operations l; generation := generation l; configured := configured l; activated := activated l;
  cleanup_in_progress := cleanup_in_progress l; shutdown_requested := shutdown_requested l; shutdown_result :=
  shutdown_result l; shutdown_timeout_reported := shutdown_timeout_reported l; cancelled := cancelled l |}.
Definition set_lifecycle_operation (v : bool) (l : Lifecycle) : Lifecycle := {|
  rt_state := rt_state l; worker := worker l; lifecycle_operation := v; active_operations := active_operations l;
  generation := generation l; configured := configured l; activated := activated l; cleanup_in_progress :=
  cleanup_in_progress l; shutdown_requested := shutdown_requested l; shutdown_result := shutdown_result l;
  shutdown_timeout_reported := shutdown_timeout_reported l; cancelled := cancelled l |}.
Definition set_active_operations (v : nat) (l : Lifecycle) : Lifecycle := {|
  rt_state := rt_state l; worker := worker l; lifecycle_operation := lifecycle_operation l; active_operations :=
  v; generation := generation l; configured := configured l; activated := activated l; cleanup_in_progress :=
  cleanup_in_progress l; shutdown_requested := shutdown_requested l; shutdown_result := shutdown_result l;
  shutdown_timeout_reported := shutdown_timeout_reported l; cancelled := cancelled l |}.
Definition set_generation (v : nat) (l : Lifecycle) : Lifecycle := {|
  rt_state := rt_state l; worker := worker l; lifecycle_operation := lifecycle_operation l; active_operations :=
  active_operations l; generation := v; configured := configured l; activated := activated l; cleanup_in_progress
  := cleanup_in_progress l; shutdown_requested := shutdown_requested l; shutdown_result := shutdown_result l;
  shutdown_timeout_reported := shutdown_timeout_reported l; cancelled := cancelled l |}.
Definition set_configured (v : bool) (l : Lifecycle) : Lifecycle := {|
  rt_state := rt_state l; worker := worker l; lifecycle_operation := lifecycle_operation l; active_operations :=
  active_operations l; generation := generation l; configured := v; activated := activated l; cleanup_in_progress
  := cleanup_in_progress l; shutdown_requested := shutdown_requested l; shutdown_result := shutdown_result l;
  shutdown_timeout_reported := shutdown_timeout_reported l; cancelled := cancelled l |}.
Definition set_activated (v : bool) (l : Lifecycle) : Lifecycle := {|
  rt_state := rt_state l; worker := worker l; lifecycle_operation := lifecycle_operation l; active_operations :=
  active_operations l; generation := generation l; configured := configured l; activated := v; cleanup_in_progress
  := cleanup_in_progress l; shutdown_requested := shutdown_requested l; shutdown_result := shutdown_result l;
  shutdown_timeout_reported := shutdown_timeout_reported l; cancelled := cancelled l |}.
Definition set_cleanup_in_progress (v : bool) (l : Lifecycle) : Lifecycle := {|
  rt_state := rt_state l; worker := worker l; lifecycle_operation := lifecycle_operation l; active_operations :=
  active_operations l; generation := generation l; configured := configured l; activated := activated l;
  cleanup_in_progress := v; shutdown_requested := shutdown_requested l; shutdown_result := shutdown_result l;
  shutdown_timeout_reported := shutdown_timeout_reported l; cancelled := cancelled l |}.
Definition set_shutdown_requested (v : bool) (l : Lifecycle) : Lifecycle := {|
  rt_state := rt_state l; worker := worker l; lifecycle_operation := lifecycle_operation l; active_operations :=
  active_operations l; generation := generation l; configured := configured l; activated := activated l;
  cleanup_in_progress := cleanup_in_progress l; shutdown_requested := v; shutdown_result := shutdown_result l;
  shutdown_timeout_reported := shutdown_timeout_reported l; cancelled := cancelled l |}.
Definition set_shutdown_result (v : option bool) (l : Lifecycle) : Lifecycle := {|
  rt_state := rt_state l; worker := worker l; lifecycle_operation := lifecycle_operation l; active_operations :=
  active_operations l; generation := generation l; configured := configured l; activated := activated l;
  cleanup_in_progress := cleanup_in_progress l; shutdown_requested := shutdown_requested l; shutdown_result := v;
  shutdown_timeout_reported := shutdown_timeout_reported l; cancelled := cancelled l |}.
Definition set_shutdown_timeout_reported (v : bool) (l : Lifecycle) : Lifecycle := {|
  rt_state := rt_state l; worker := worker l; lifecycle_operation := lifecycle_operation l; active_operations :=
  active_operations l; generation := generation l; configured := configured l; activated := activated l;
  cleanup_in_progress := cleanup_in_progress l; shutdown_requested := shutdown_requested l; shutdown_result :=
  shutdown_result l; shutdown_timeout_reported := v; cancelled := cancelled l |}.
Definition set_cancelled (v : bool) (l : Lifecycle) : Lifecycle := {|
  rt_state := rt_state l; worker := worker l; lifecycle_operation := lifecycle_operation l; active_operations :=
  active_operations l; generation := generation l; configured := configured l; activated := activated l;
  cleanup_in_progress := cleanup_in_progress l; shutdown_requested := shutdown_requested l; shutdown_result :=
  shutdown_result l; shutdown_timeout_reported := shutdown_timeout_reported l; cancelled := v |}.

Definition set_link (v : CanLinkState.t) (p : Protocol) : Protocol := {|
  link := v; pending_command := pending_command p; pending_stop := pending_stop p; dispatching := dispatching p;
  command_queue := command_queue p; backpressure_key := backpressure_key p; backpressure_attempts :=
  backpressure_attempts p; completed := completed p; timed_out := timed_out p; next_stop_command_id :=
  next_stop_command_id p; last_telemetry_sequence := last_telemetry_sequence p; dispatch_count := dispatch_count p |}.
Definition set_pending_command (v : option PendingRequest) (p : Protocol) : Protocol := {|
  link := link p; pending_command := v; pending_stop := pending_stop p; dispatching := dispatching p;
  command_queue := command_queue p; backpressure_key := backpressure_key p; backpressure_attempts :=
  backpressure_attempts p; completed := completed p; timed_out := timed_out p; next_stop_command_id :=
  next_stop_command_id p; last_telemetry_sequence := last_telemetry_sequence p; dispatch_count := dispatch_count p |}.
Definition set_pending_stop (v : option PendingRequest) (p : Protocol) : Protocol := {|
  link := link p; pending_command := pending_command p; pending_stop := v; dispatching := dispatching p;
  command_queue := command_queue p; backpressure_key := backpressure_key p; backpressure_attempts :=
  backpressure_attempts p; completed := completed p; timed_out := timed_out p; next_stop_command_id :=
  next_stop_command_id p; last_telemetry_sequence := last_telemetry_sequence p; dispatch_count := dispatch_count p |}.
Definition set_dispatching (v : option Dispatch) (p : Protocol) : Protocol := {|
  link := link p; pending_command := pending_command p; pending_stop := pending_stop p; dispatching := v;
  command_queue := command_queue p; backpressure_key := backpressure_key p; backpressure_attempts :=
  backpressure_attempts p; completed := completed p; timed_out := timed_out p; next_stop_command_id :=
  next_stop_command_id p; last_telemetry_sequence := last_telemetry_sequence p; dispatch_count := dispatch_count p |}.
Definition set_command_queue (v : list CanWireFrame) (p : Protocol) : Protocol := {|
  link := link p; pending_command := pending_command p; pending_stop := pending_stop p; dispatching := dispatching
  p; command_queue := v; backpressure_key := backpressure_key p; backpressure_attempts := backpressure_attempts p;
  completed := completed p; timed_out := timed_out p; next_stop_command_id := next_stop_command_id p;
  last_telemetry_sequence := last_telemetry_sequence p; dispatch_count := dispatch_count p |}.
Definition set_backpressure_key (v : option (CanFrameKind.t * option Z * option Z)) (p : Protocol) : Protocol := {|
  link := link p; pending_command := pending_command p; pending_stop := pending_stop p; dispatching := dispatching
  p; command_queue := command_queue p; backpressure_key := v; backpressure_attempts := backpressure_attempts p;
  completed := completed p; timed_out := timed_out p; next_stop_command_id := next_stop_command_id p;
  last_telemetry_sequence := last_telemetry_sequence p; dispatch_count := dispatch_count p |}.
Definition set_backpressure_attempts (v : Z) (p : Protocol) : Protocol := {|
  link := link p; pending_command := pending_command p; pending_stop := pending_stop p; dispatching := dispatching
  p; command_queue := command_queue p; backpressure_key := backpressure_key p; backpressure_attempts := v;
  completed := completed p; timed_out := timed_out p; next_stop_command_id := next_stop_command_id p;
  last_telemetry_sequence := last_telemetry_sequence p; dispatch_count := dispatch_count p |}.
Definition set_completed (v : window) (p : Protocol) : Protocol := {|
  link := link p; pending_command := pending_command p; pending_stop := pending_stop p; dispatching := dispatching
  p; command_queue := command_queue p; backpressure_key := backpressure_key p; backpressure_attempts :=
  backpressure_attempts p; completed := v; timed_out := timed_out p; next_stop_command_id := next_stop_command_id
  p; last_telemetry_sequence := last_telemetry_sequence p; dispatch_count := dispatch_count p |}.
Definition set_timed_out (v : window) (p : Protocol) : Protocol := {|
  link := link p; pending_command := pending_command p; pending_stop := pending_stop p; dispatching := dispatching
  p; command_queue := command_queue p; backpressure_key := backpressure_key p; backpressure_attempts :=
  backpressure_attempts p; completed := completed p; timed_out := v; next_stop_command_id := next_stop_command_id
  p; last_telemetry_sequence := last_telemetry_sequence p; dispatch_count := dispatch_count p |}.
Definition set_next_stop_command_id (v : Z) (p : Protocol) : Protocol := {|
  link := link p; pending_command := pending_command p; pending_stop := pending_stop p; dispatching := dispatching
  p; command_queue := command_queue p; backpressure_key := backpressure_key p; backpressure_attempts :=
  backpressure_attempts p; completed := completed p; timed_out := timed_out p; next_stop_command_id := v;
  last_telemetry_sequence := last_telemetry_sequence p; dispatch_count := dispatch_count p |}.
Definition set_last_telemetry_sequence (v : option Z) (p : Protocol) : Protocol := {|
  link := link p; pending_command := pending_command p; pending_stop := pending_stop p; dispatching := dispatching
  p; command_queue := command_queue p; backpressure_key := backpressure_key p; backpressure_attempts :=
  backpressure_attempts p; completed := completed p; timed_out := timed_out p; next_stop_command_id :=
  next_stop_command_id p; last_telemetry_sequence := v; dispatch_count := dispatch_count p |}.
Definition set_dispatch_count (v : nat) (p : Protocol) : Protocol := {|
  link := link p; pending_command := pending_command p; pending_stop := pending_stop p; dispatching := dispatching
  p; command_queue := command_queue p; backpressure_key := backpressure_key p; backpressure_attempts :=
  backpressure_attempts p; completed := completed p; timed_out := timed_out p; next_stop_command_id :=
  next_stop_command_id p; last_telemetry_sequence := last_telemetry_sequence p; dispatch_count := v |}.

Definition set_telemetry_queue (v : list CanWireFrame) (q : Planes) : Planes := {|
  telemetry_queue := v; health_queue := health_queue q; external_queue := external_queue q; telemetry_drop_count
  := telemetry_drop_count q; health_drop_count := health_drop_count q; external_drop_count := external_drop_count
  q; error_count := error_count q; subscribers := subscribers q |}.
Definition set_health_queue (v : list CanDiagnostic) (q : Planes) : Planes := {|
  telemetry_queue := telemetry_queue q; health_queue := v; external_queue := external_queue q;
  telemetry_drop_count := telemetry_drop_count q; health_drop_count := health_drop_count q; external_drop_count :=
  external_drop_count q; error_count := error_count q; subscribers := subscribers q |}.
Definition set_external_queue (v : list CanExternalRecord) (q : Planes) : Planes := {|
  telemetry_queue := telemetry_queue q; health_queue := health_queue q; external_queue := v; telemetry_drop_count
  := telemetry_drop_count q; health_drop_count := health_drop_count q; external_drop_count := external_drop_count
  q; error_count := error_count q; subscribers := subscribers q |}.
Definition set_telemetry_drop_count (v : Z) (q : Planes) : Planes := {|
  telemetry_queue := telemetry_queue q; health_queue := health_queue q; external_queue := external_queue q;
  telemetry_drop_count := v; health_drop_count := health_drop_count q; external_drop_count := external_drop_count
  q; error_count := error_count q; subscribers := subscribers q |}.
Definition set_health_drop_count (v : Z) (q : Planes) : Planes := {|
  telemetry_queue := telemetry_queue q; health_queue := health_queue q; external_queue := external_queue q;
  telemetry_drop_count := telemetry_drop_count q; health_drop_count := v; external_drop_count :=
  external_drop_count q; error_count := error_count q; subscribers := subscribers q |}.
Definition set_external_drop_count (v : Z) (q : Planes) : Planes := {|
  telemetry_queue := telemetry_queue q; health_queue := health_queue q; external_queue := external_queue q;
  telemetry_drop_count := telemetry_drop_count q; health_drop_count := health_drop_count q; external_drop_count :=
  v; error_count := error_count q; subscribers := subscribers q |}.
Definition set_error_count (v : Z) (q : Planes) : Planes := {|
  telemetry_queue := telemetry_queue q; health_queue := health_queue q; external_queue := external_queue q;
  telemetry_drop_count := telemetry_drop_count q; health_drop_count := health_drop_count q; external_drop_count :=
  external_drop_count q; error_count := v; subscribers := subscribers q |}.
Definition set_subscribers (v : gmap Z (list nat)) (q : Planes) : Planes := {|
  telemetry_queue := telemetry_queue q; health_queue := health_queue q; external_queue := external_queue q;
  telemetry_drop_count := telemetry_drop_count q; health_drop_count := health_drop_count q; external_drop_count :=
  external_drop_count q; error_count := error_count q; subscribers := v |}.

Definition set_ingress_sequence (v : Z) (i : Ingress) : Ingress := {|
  ingress_sequence := v; last_monotonic_ts := last_monotonic_ts i; last_wall_ts := last_wall_ts i;
  last_observation := last_observation i |}.
Definition set_last_monotonic_ts (v : option spec_float) (i : Ingress) : Ingress := {|
  ingress_sequence := ingress_sequence i; last_monotonic_ts := v; last_wall_ts := last_wall_ts i; last_observation
  := last_observation i |}.
Definition set_last_wall_ts (v : option spec_float) (i : Ingress) : Ingress := {|
  ingress_sequence := ingress_sequence i; last_monotonic_ts := last_monotonic_ts i; last_wall_ts := v;
  last_observation := last_observation i |}.
Definition set_last_observation (v : option IngressObservation) (i : Ingress) : Ingress := {|
  ingress_sequence := ingress_sequence i; last_monotonic_ts := last_monotonic_ts i; last_wall_ts := last_wall_ts
  i; last_observation := v |}.

Definition set_life (v : Lifecycle) (b : Bus) : Bus := {|
  life := v; proto := proto b; planes := planes b; ingress := ingress b; opened := opened b; clock_reads :=
  clock_reads b; wall_reads := wall_reads b; time_reads := time_reads b |}.
Definition set_proto (v : Protocol) (b : Bus) : Bus := {|
  life := life b; proto := v; planes := planes b; ingress := ingress b; opened := opened b; clock_reads :=
  clock_reads b; wall_reads := wall_reads b; time_reads := time_reads b |}.
Definition set_planes (v : Planes) (b : Bus) : Bus := {|
  life := life b; proto := proto b; planes := v; ingress := ingress b; opened := opened b; clock_reads :=
  clock_reads b; wall_reads := wall_reads b; time_reads := time_reads b |}.
Definition set_ingress (v : Ingress) (b : Bus) : Bus := {|
  life := life b; proto := proto b; planes := planes b; ingress := v; opened := opened b; clock_reads :=
  clock_reads b; wall_reads := wall_reads b; time_reads := time_reads b |}.
Definition set_opened (v : bool) (b : Bus) : Bus := {|
  life := life b; proto := proto b; planes := planes b; ingress := ingress b; opened := v; clock_reads :=
  clock_reads b; wall_reads := wall_reads b; time_reads := time_reads b |}.
Definition set_clock_reads (v : nat) (b : Bus) : Bus := {|
  life := life b; proto := proto b; planes := planes b; ingress := ingress b; opened := opened b; clock_reads :=
  v; wall_reads := wall_reads b; time_reads := time_reads b |}.
Definition set_wall_reads (v : nat) (b : Bus) : Bus := {|
  life := life b; proto := proto b; planes := planes b; ingress := ingress b; opened := opened b; clock_reads :=
  clock_reads b; wall_reads := v; time_reads := time_reads b |}.
Definition set_time_reads (v : nat) (b : Bus) : Bus := {|
  life := life b; proto := proto b; planes := planes b; ingress := ingress b; opened := opened b; clock_reads :=
  clock_reads b; wall_reads := wall_reads b; time_reads := v |}.

Definition on_life (f : Lifecycle → Lifecycle) (b : Bus) : Bus := set_life (f (life b)) b.
Definition on_proto (f : Protocol → Protocol) (b : Bus) : Bus := set_proto (f (proto b)) b.
Definition on_planes (f : Planes → Planes) (b : Bus) : Bus := set_planes (f (planes b)) b.
Definition on_ingress (f : Ingress → Ingress) (b : Bus) : Bus := set_ingress (f (ingress b)) b.

(** [DeviceRuntime.__init__] and [SafeCANBus.__init__] *)
Definition new_bus (c : CanTransportConfig) : Bus := {|
  life := {| rt_state := DeviceRuntimeState.NEW; worker := None; lifecycle_operation := false; active_operations := 0;
             generation := 0; configured := false; activated := false; cleanup_in_progress := false;
             shutdown_requested := false; shutdown_result := None; shutdown_timeout_reported := false; cancelled := false |};
  proto := {| link := CanLinkState.NEW; pending_command := None; pending_stop := None; dispatching := None;
              command_queue := []; backpressure_key := None; backpressure_attempts := 0; completed := empty_window;
              timed_out := empty_window; next_stop_command_id := initial_stop_command_id c;
              last_telemetry_sequence := None; dispatch_count := 0 |};
  planes := {| telemetry_queue := []; health_queue := []; external_queue := []; telemetry_drop_count := 0;
               health_drop_count := 0; external_drop_count := 0; error_count := 0; subscribers := ∅ |};
  ingress := {| ingress_sequence := 0; last_monotonic_ts := None; last_wall_ts := None; last_observation := None |};
  opened := false; clock_reads := 0; wall_reads := 0; time_reads := 0 |}.
