(* ===== verification/CanBus.v ===== *)
(** * CAN bus adapter: operations

    [SafeCANBus] and the planes of [DeviceRuntime] in
    [libs/hardware/workbench/hardware/can_driver_safe.py].  Every definition is a
    section that runs under the lock; [poll] is cut into the sections between its
    calls of the transport and of the subscribers.  The injected clocks and
    [time.monotonic] are parameters: what the n-th reading gives, [None] when the
    call raises. *)

From Stdlib Require Import ZArith Ascii String SpecFloat.
From S2P Require Import Prelude PyVal Json CanWire CanState.
Local Open Scope prog_scope.
Local Open Scope Z_scope.

(** [RuntimeError], or an exception of the frame helpers *)
Inductive bus_exn : Type := RuntimeError | WireError (e : wire_exn).

Abbreviation bus A := (prog Bus bus_exn A).

Definition lift_wire {A} (o : outcome wire_exn A) : bus A :=
  match o with Ok a => ret a | Raise e => raise (WireError e) end.

(** [urllib.parse.quote(s, safe="")] *)
Definition unreserved (c : ascii) : bool :=
  let n := code c in
  ((48 <=? n) && (n <=? 57)) || ((65 <=? n) && (n <=? 90)) || ((97 <=? n) && (n <=? 122)) || Z_in n [45; 46; 95; 126].
Definition hex_digit (n : Z) : ascii := ascii_of_nat (Z.to_nat (if n <? 10 then 48 + n else 55 + n)).
Definition percent (n : Z) : string := String "%" (String (hex_digit (n / 16)) (String (hex_digit (n mod 16)) "")).
Definition quote_char (c : ascii) : string :=
  if unreserved c then String c ""
  else if code c <? 128 then percent (code c)
  else percent (192 + code c / 64) +:+ percent (128 + code c mod 64).
Definition quote (s : string) : string := String.concat "" (quote_char <$> list_ascii_of_string s).

(** ** Bounded planes *)

(** A queue that drops its oldest item when it is full: the queue and the number dropped *)
Definition push_bounded {A} (cap : nat) (l : list A) (a : A) : list A * Z :=
  if (cap <=? length l)%nat then (tail l ++ [a], 1) else (l ++ [a], 0).

Section Bus.
Context (c : CanTransportConfig) (clock wall_clock : nat → option pyval) (time_monotonic : nat → spec_float).

(** The [health_capacity] argument of the runtime *)
Definition health_bound : nat := Nat.min (health_capacity c) (diagnostic_capacity c).

(** [_record_health_locked] *)
Definition _record_health_locked (d : CanDiagnostic) (q : Planes) : Planes :=
  let '(l, n) := push_bounded health_bound (health_queue q) d in
  set_error_count (error_count q + 1) (set_health_drop_count (health_drop_count q + n) (set_health_queue l q)).

(** [publish_telemetry] *)
Definition publish_telemetry (w : CanWireFrame) (q : Planes) : Planes :=
  let '(l, n) := push_bounded (telemetry_capacity c) (telemetry_queue q) w in
  set_telemetry_drop_count (telemetry_drop_count q + n) (set_telemetry_queue l q).

(** [take_telemetry] *)
Definition take_telemetry : bus (option CanWireFrame) :=
  b <- get ;;
  match telemetry_queue (planes b) with
  | [] => ret None
  | w :: l => modify (on_planes (set_telemetry_queue l)) ;;; ret (Some w)
  end.

(** [publish_external] *)
Definition publish_external (r : CanExternalRecord) (q : Planes) : Planes :=
  let '(l, n) := push_bounded (external_capacity c) (external_queue q) r in
  set_external_drop_count (external_drop_count q + n) (set_external_queue l q).

(** [take_external] *)
Definition take_external : bus (option CanExternalRecord) :=
  b <- get ;;
  match external_queue (planes b) with
  | [] => ret None
  | r :: l => modify (on_planes (set_external_queue l)) ;;; ret (Some r)
  end.

(** [DeviceRuntime.subscribe] *)
Definition subscribe (id : Z) (handler : nat) : bus bool :=
  b <- get ;;
  let handlers := default [] (subscribers (planes b) !! id) in
  let put l := modify (on_planes (set_subscribers (<[id := l]> (subscribers (planes b))))) in
  put handlers ;;;
  if bool_decide (handler ∈ handlers) || (max_subscribers_per_id c <=? length handlers)%nat then ret false
  else put (handlers ++ [handler]) ;;; ret true.

(** [DeviceRuntime.unsubscribe] *)
Definition unsubscribe (id : Z) (handler : nat) : bus bool :=
  b <- get ;;
  match subscribers (planes b) !! id with
  | None => ret false
  | Some handlers =>
      if decide (handler ∈ handlers) then
        let rest := list_difference handlers [handler] in
        modify (on_planes (set_subscribers
          (match rest with [] => delete id (subscribers (planes b)) | _ => <[id := rest]> (subscribers (planes b)) end))) ;;;
        ret true
      else ret false
  end.

(** ** Clocks and diagnostics *)

Definition read_clock : bus (option pyval) :=
  b <- get ;; modify (set_clock_reads (S (clock_reads b))) ;;; ret (clock (clock_reads b)).
Definition read_wall_clock : bus (option pyval) :=
  b <- get ;; modify (set_wall_reads (S (wall_reads b))) ;;; ret (wall_clock (wall_reads b)).
Definition read_time : bus spec_float :=
  b <- get ;; modify (set_time_reads (S (time_reads b))) ;;; ret (time_monotonic (time_reads b)).

(** [_safe_monotonic_locked] *)
Definition _safe_monotonic_locked : bus spec_float :=
  v <- read_clock ;;
  match v with
  | None => read_time
  | Some v => ok <- lift_wire (finite_number v) ;; if (ok : bool) then ret (to_float v) else read_time
  end.

(** [_record_diagnostic_locked] *)
Definition _record_diagnostic_locked (code : CanDiagnosticCode.t) (command : option Z) : bus () :=
  t <- _safe_monotonic_locked ;;
  modify (on_planes (_record_health_locked {| diagnostic_code := code; observed_at := t; diagnostic_command_id := command |})).

(** ** Correlation *)

(** The eviction loop of [_remember_correlation_locked] *)
Fixpoint evict (n : nat) (w : window) : window :=
  match n, key_order w with
  | S n', k :: ks => evict n' {| retries_of := delete k (retries_of w); key_order := ks |}
  | _, _ => w
  end.

Fixpoint remove_first (k : CorrelationKey) (l : list CorrelationKey) : list CorrelationKey :=
  match l with [] => [] | x :: l' => if decide (x = k) then l' else x :: remove_first k l' end.

Definition remember_key (k : CorrelationKey) (retries : gset Z) (w : window) : window :=
  let order := if decide (k ∈ dom (retries_of w)) then remove_first k (key_order w) else key_order w in
  let w' := {| retries_of := <[k := retries]> (retries_of w); key_order := order ++ [k] |} in
  evict (length (key_order w') - correlation_capacity c) w'.

(** [_remember_correlation_locked] in the window of timed-out requests, and in
    the one of completed requests *)
Definition remember_timed_out (r : PendingRequest) : bus () :=
  k <- of_option (_response_key (wire_frame r)) RuntimeError ;;
  modify (on_proto (λ p, set_timed_out (remember_key k (sent_retry_counts r) (timed_out p)) p)).
Definition remember_completed (r : PendingRequest) : bus () :=
  k <- of_option (_response_key (wire_frame r)) RuntimeError ;;
  modify (on_proto (λ p, set_completed (remember_key k (sent_retry_counts r) (completed p)) p)).

Definition option_frames (o : option PendingRequest) : list CanWireFrame :=
  match o with Some r => [wire_frame r] | None => [] end.

(** The request frames that are queued, being sent or pending *)
Definition request_candidates (p : Protocol) : list CanWireFrame :=
  command_queue p ++ match dispatching p with Some d => [dispatch_frame d] | None => [] end ++
  option_frames (pending_command p) ++ option_frames (pending_stop p).

(** [_correlation_id_in_use_locked] *)
Definition _correlation_id_in_use_locked (k : CanFrameKind.t) (id : option Z) (p : Protocol) : bool :=
  match id with
  | None => false
  | Some id =>
      let stop := match k with CanFrameKind.STOP | CanFrameKind.STOP_ACK => true | _ => false end in
      let request := if stop then CanFrameKind.STOP else CanFrameKind.COMMAND in
      let response := if stop then CanFrameKind.STOP_ACK else CanFrameKind.ACK in
      existsb (λ w, bool_decide (kind w = request) && bool_decide (command_id w = Some id)) (request_candidates p) ||
      existsb (λ key, bool_decide (key.1.1 = response) && (key.1.2 =? id))
        (elements (dom (retries_of (completed p))) ++ elements (dom (retries_of (timed_out p))))
  end.

(** The frame of a STOP request *)
Definition stop_payload (id : Z) : bytes :=
  [MCU_WIRE_VERSION_V1; Z.shiftr id 8; Z.land id 0xFF; _WireOpcode.STOP; 0; 0; 0; 0].

(** The loop of [_new_stop_frame_locked] *)
Fixpoint new_stop_frame (n : nat) : bus CanWireFrame :=
  match n with
  | O => raise RuntimeError
  | S n' =>
      b <- get ;;
      let id := next_stop_command_id (proto b) in
      modify (on_proto (set_next_stop_command_id (if id =? 0xFFFF then 0x8000 else id + 1))) ;;;
      if _correlation_id_in_use_locked CanFrameKind.STOP (Some id) (proto b) then new_stop_frame n'
      else lift_wire (decode_can_frame (IsFrame (plain_frame MCU_CAN_ID_STOP (stop_payload id))))
  end.

(** [_new_stop_frame_locked] *)
Definition _new_stop_frame_locked : bus CanWireFrame := new_stop_frame (S (correlation_capacity c)).

(** ** Faults *)

Definition _reset_transport_backpressure_locked (p : Protocol) : Protocol :=
  set_backpressure_key None (set_backpressure_attempts 0 p).

(** The assignments that drop all requests *)
Definition drop_requests (p : Protocol) : Protocol :=
  _reset_transport_backpressure_locked
    (set_dispatching None (set_pending_stop None (set_pending_command None (set_command_queue [] p)))).

Definition remember_option (o : option PendingRequest) : bus () :=
  match o with Some r => remember_timed_out r | None => ret () end.

(** [_handle_transport_error] *)
Definition _handle_transport_error (bus_off : bool) : bus () :=
  b <- get ;;
  remember_option (pending_command (proto b)) ;;;
  remember_option (pending_stop (proto b)) ;;;
  modify (on_proto (λ p,
    let p := drop_requests p in
    if decide (link p = CanLinkState.SHUTDOWN) then p
    else set_link (if bus_off then CanLinkState.BUS_OFF else CanLinkState.LINK_LOST) p)) ;;;
  _record_diagnostic_locked (if bus_off then CanDiagnosticCode.BUS_OFF else CanDiagnosticCode.LINK_LOST) None.

Definition on_runtime_error : bus () := _handle_transport_error false.

(** [_fail_clock_locked] *)
Definition _fail_clock_locked : bus () :=
  _handle_transport_error false ;;; _record_diagnostic_locked CanDiagnosticCode.CLOCK_ROLLBACK None.

(** [_handle_transport_backpressure] *)
Definition _handle_transport_backpressure : bus () :=
  b <- get ;;
  let dispatch := dispatching (proto b) in
  modify (on_proto (set_dispatching None)) ;;;
  _record_diagnostic_locked CanDiagnosticCode.TRANSPORT_BACKPRESSURE None ;;;
  match dispatch with
  | None => ret ()
  | Some d =>
      let w := dispatch_frame d in
      let key := (kind w, command_id w, retry_count w) in
      modify (on_proto (λ p,
        if decide (backpressure_key p = Some key) then set_backpressure_attempts (backpressure_attempts p + 1) p
        else set_backpressure_attempts 1 (set_backpressure_key (Some key) p))) ;;;
      b <- get ;;
      if transport_backpressure_budget c <? backpressure_attempts (proto b) then _handle_transport_error false
      else if decide (pending_command (proto b) = None ∧ pending_stop (proto b) = None) then
        modify (on_proto (λ p, set_command_queue
          (w :: (if decide (kind w = CanFrameKind.STOP) then [] else command_queue p)) p))
      else ret ()
  end.

(** ** Admission *)

Record CanSendResult := { send_status : CanSendStatus.t; send_command_id : option Z }.

Definition send_result (s : CanSendStatus.t) (w : CanWireFrame) : CanSendResult :=
  {| send_status := s; send_command_id := command_id w |}.

(** [_preempt_for_stop_locked] *)
Definition _preempt_for_stop_locked : bus () :=
  b <- get ;;
  let p := proto b in
  modify (on_proto (λ p, set_link CanLinkState.STOPPING (_reset_transport_backpressure_locked (set_command_queue [] p)))) ;;;
  let in_flight := match dispatching p with
                   | Some d => if decide (kind (dispatch_frame d) = CanFrameKind.COMMAND) then Some (dispatch_frame d) else None
                   | None => None
                   end in
  (match pending_command p, in_flight with
   | Some r, _ =>
       let extra := match in_flight with Some w => match retry_count w with Some n => {[n]} | None => ∅ end | None => ∅ end in
       remember_timed_out {| wire_frame := wire_frame r; deadline := deadline r; retry_budget_used := retry_budget_used r;
                             sent_retry_counts := sent_retry_counts r ∪ extra |} ;;;
       modify (on_proto (set_pending_command None))
   | None, Some w =>
       n <- of_option (retry_count w) RuntimeError ;;
       remember_timed_out {| wire_frame := w; deadline := float_zero; retry_budget_used := 0; sent_retry_counts := {[n]} |}
   | None, None => ret ()
   end) ;;;
  (match in_flight with Some _ => modify (on_proto (set_dispatching None)) | None => ret () end) ;;;
  if match command_queue p, pending_command p, in_flight with [], None, None => false | _, _, _ => true end
  then _record_diagnostic_locked CanDiagnosticCode.STOP_PREEMPTED None
  else ret ().

Definition stop_outstanding (p : Protocol) : bool :=
  bool_decide (is_Some (pending_stop p)) ||
  match dispatching p with Some d => bool_decide (kind (dispatch_frame d) = CanFrameKind.STOP) | None => false end ||
  existsb (λ w, bool_decide (kind w = CanFrameKind.STOP)) (command_queue p).

(** [_admit_command_locked] *)
Definition _admit_command_locked (w : CanWireFrame) : bus CanSendResult :=
  b <- get ;;
  if negb (bool_decide (rt_state (life b) = DeviceRuntimeState.ACTIVE)) then ret (send_result CanSendStatus.NOT_RUNNING w)
  else if bool_decide (kind w = CanFrameKind.COMMAND) && negb (bool_decide (link (proto b) = CanLinkState.ACTIVE))
  then ret (send_result CanSendStatus.LINK_UNAVAILABLE w)
  else if bool_decide (kind w = CanFrameKind.STOP) &&
          negb (bool_decide (link (proto b) ∈ [CanLinkState.ACTIVE; CanLinkState.STOPPING]))
  then ret (send_result CanSendStatus.LINK_UNAVAILABLE w)
  else if (bool_decide (kind w = CanFrameKind.STOP) && stop_outstanding (proto b)) ||
          _correlation_id_in_use_locked (kind w) (command_id w) (proto b)
  then _record_diagnostic_locked CanDiagnosticCode.CORRELATION_CONFLICT (command_id w) ;;;
       ret (send_result CanSendStatus.CORRELATION_CONFLICT w)
  else ret (send_result CanSendStatus.QUEUED w).

(** [submit_command] with the callbacks of [send] *)
Definition submit_command (w : CanWireFrame) : bus CanSendResult :=
  let priority := bool_decide (kind w = CanFrameKind.STOP) in
  result <- _admit_command_locked w ;;
  if negb (bool_decide (send_status result = CanSendStatus.QUEUED)) then ret result
  else
    b <- get ;;
    if negb priority && (queue_capacity c <=? length (command_queue (proto b)))%nat then
      _record_diagnostic_locked CanDiagnosticCode.BACKPRESSURE (command_id w) ;;;
      ret (send_result CanSendStatus.BACKPRESSURE w)
    else
      (if priority then _preempt_for_stop_locked else ret ()) ;;;
      modify (on_proto (λ p, set_command_queue (if priority then w :: command_queue p else command_queue p ++ [w]) p)) ;;;
      ret result.

(** [send] *)
Definition send (x : received) : bus CanSendResult :=
  match decode_can_frame x with
  | Raise CanFrameValidationError =>
      _record_diagnostic_locked CanDiagnosticCode.INVALID_FRAME None ;;;
      ret {| send_status := CanSendStatus.INVALID_FRAME; send_command_id := None |}
  | Raise e => raise (WireError e)
  | Ok w =>
      if _OUTBOUND_KINDS (kind w) then submit_command w
      else _record_diagnostic_locked CanDiagnosticCode.INVALID_FRAME (command_id w) ;;;
           ret (send_result CanSendStatus.INVALID_FRAME w)
  end.

(** ** Dispatching *)

(** [_retry_or_timeout_locked] for the pending request of one kind *)
Definition _retry_or_timeout_locked (r : PendingRequest) (now : spec_float) (budget : Z) (timeout_code : CanDiagnosticCode.t)
    : bus (option CanWireFrame) :=
  if float_lt now (deadline r) then ret None
  else
    current <- of_option (retry_count (wire_frame r)) RuntimeError ;;
    if (retry_budget_used r <? budget) && (current <? 0xFF) then
      w <- lift_wire (_with_retry_count (wire_frame r) (current + 1)) ;; ret (Some w)
    else
      _record_diagnostic_locked timeout_code (command_id (wire_frame r)) ;;;
      remember_timed_out r ;;;
      modify (on_proto (λ p,
        if decide (kind (wire_frame r) = CanFrameKind.STOP)
        then set_link CanLinkState.LINK_LOST (set_command_queue [] (set_pending_stop None p))
        else set_command_queue [] (set_pending_command None p))) ;;;
      ret None.

(** [_next_dispatch_locked]: the frame and whether it is a retry *)
Definition _next_dispatch_locked (now : spec_float) : bus (option (CanWireFrame * bool)) :=
  b <- get ;;
  match pending_stop (proto b) with
  | Some r =>
      o <- _retry_or_timeout_locked r now (stop_retry_budget c) CanDiagnosticCode.STOP_TIMEOUT ;;
      ret ((λ w, (w, true)) <$> o)
  | None =>
      match pending_command (proto b) with
      | Some r =>
          o <- _retry_or_timeout_locked r now (ack_retry_budget c) CanDiagnosticCode.ACK_TIMEOUT ;;
          b' <- get ;;
          match o, pending_command (proto b') with
          | Some w, _ => ret (Some (w, true))
          | None, Some _ => ret None
          | None, None =>
              w <- _new_stop_frame_locked ;;
              modify (on_proto (set_link CanLinkState.STOPPING)) ;;;
              ret (Some (w, false))
          end
      | None =>
          match command_queue (proto b) with
          | [] => ret None
          | w :: l => modify (on_proto (set_command_queue l)) ;;; ret (Some (w, false))
          end
      end
  end.

(** The first section of [poll]: [None] when the link takes no traffic, else the
    dispatch to hand to the transport *)
Definition poll_begin : bus (option (option Dispatch)) :=
  b <- get ;;
  if negb (bool_decide (link (proto b) ∈ [CanLinkState.ACTIVE; CanLinkState.STOPPING])) then ret None
  else
    now <- _safe_monotonic_locked ;;
    o <- _next_dispatch_locked now ;;
    match o with
    | None => ret (Some None)
    | Some (w, retry) =>
        b' <- get ;;
        let d := {| dispatch_frame := w; is_retry := retry; dispatch_id := dispatch_count (proto b') |} in
        modify (on_proto (λ p, set_dispatch_count (S (dispatch_count p)) (set_dispatching (Some d) p))) ;;;
        ret (Some (Some d))
    end.

(** The request that a dispatch starts or continues *)
Definition next_pending (o : option PendingRequest) (d : Dispatch) (n : Z) (until : spec_float) : option PendingRequest :=
  if is_retry d then
    (λ r, {| wire_frame := dispatch_frame d; deadline := until; retry_budget_used := retry_budget_used r + 1;
             sent_retry_counts := {[n]} ∪ sent_retry_counts r |}) <$> o
  else Some {| wire_frame := dispatch_frame d; deadline := until; retry_budget_used := 0; sent_retry_counts := {[n]} |}.

(** [_record_dispatch_locked] *)
Definition _record_dispatch_locked (d : Dispatch) (now : spec_float) : bus () :=
  n <- of_option (retry_count (dispatch_frame d)) RuntimeError ;;
  b <- get ;;
  match kind (dispatch_frame d) with
  | CanFrameKind.COMMAND =>
      r <- of_option (next_pending (pending_command (proto b)) d n (SFadd 53 1024 now (ack_timeout_s c))) RuntimeError ;;
      modify (on_proto (set_pending_command (Some r)))
  | CanFrameKind.STOP =>
      modify (on_proto (set_link CanLinkState.STOPPING)) ;;;
      r <- of_option (next_pending (pending_stop (proto b)) d n (SFadd 53 1024 now (stop_timeout_s c))) RuntimeError ;;
      modify (on_proto (set_pending_stop (Some r)))
  | _ => ret ()
  end.

(** What [transport.send] does *)
Inductive send_outcome : Type := SendDone | SendBackpressure | SendError (bus_off : bool).

(** The section of [poll] after [transport.send]: whether it goes on to receive *)
Definition poll_sent (d : Dispatch) (o : send_outcome) : bus bool :=
  match o with
  | SendBackpressure => _handle_transport_backpressure ;;; ret false
  | SendError bus_off => _handle_transport_error bus_off ;;; ret false
  | SendDone =>
      b <- get ;;
      if decide ((dispatch_id <$> dispatching (proto b)) = Some (dispatch_id d) ∧
                 rt_state (life b) = DeviceRuntimeState.ACTIVE) then
        modify (on_proto (λ p, _reset_transport_backpressure_locked (set_dispatching None p))) ;;;
        now <- _safe_monotonic_locked ;;
        _record_dispatch_locked d now ;;;
        ret true
      else ret false
  end.

(** ** Ingress *)

(** [_runtime_accepts_ingress_locked] *)
Definition _runtime_accepts_ingress_locked (b : Bus) : bool :=
  bool_decide (rt_state (life b) = DeviceRuntimeState.ACTIVE) && negb (shutdown_requested (life b)).

(** An optional field of the kernel, dropped when it is malformed *)
Definition kernel_field (lo : Z) (hi : option Z) (v : pyval) : option Z :=
  match v with
  | VInt z => if (lo <=? z) && match hi with Some h => z <=? h | None => true end then Some z else None
  | _ => None
  end.

Definition invalid_observation (seq : Z) (ts drop : option Z) : IngressObservation := {|
  o_sequence := seq; o_monotonic_ts := None; o_wall_ts := None; o_kernel_timestamp_ns := ts; o_kernel_drop_count := drop;
  o_timestamp_source := "none"; o_valid := false |}.

(** A reading: the value that the frame supplies, when it is a finite number, or
    the clock's; [None] when the clock raises or the value is not finite *)
Definition ingress_time (provided : bool) (given : pyval) (read : bus (option pyval)) : bus (option spec_float) :=
  v <- (if provided then ret (Some given) else read) ;;
  match v with
  | None => ret None
  | Some v => ok <- lift_wire (finite_number v) ;; ret (if (ok : bool) then Some (to_float v) else None)
  end.

(** [monotonic_ts < self._last_monotonic_ts] *)
Definition regressed (last : option spec_float) (t : spec_float) : bool :=
  match last with Some l => float_lt t l | None => false end.

(** [_observe_ingress_locked] *)
Definition _observe_ingress_locked (f : option CanFrame) : bus IngressObservation :=
  b <- get ;;
  let seq := ingress_sequence (ingress b) in
  modify (on_ingress (set_ingress_sequence (seq + 1))) ;;;
  let field g := match f with Some f => g f | None => VNone end in
  let ts := kernel_field 0 None (field kernel_timestamp_ns) in
  let drop := kernel_field 0 (Some 0xFFFFFFFF) (field kernel_drop_count) in
  let invalid := _fail_clock_locked ;;; ret (invalid_observation seq ts drop) in
  mono_given <- lift_wire (finite_number (field observed_monotonic_ts)) ;;
  mono <- ingress_time mono_given (field observed_monotonic_ts) read_clock ;;
  match mono with
  | None => invalid
  | Some mono =>
      if regressed (last_monotonic_ts (ingress b)) mono then invalid
      else
        wall_given <- lift_wire (finite_number (field observed_wall_ts)) ;;
        wall <- ingress_time wall_given (field observed_wall_ts) read_wall_clock ;;
        match wall with
        | None => invalid
        | Some wall =>
            if regressed (last_wall_ts (ingress b)) wall then invalid
            else
              modify (on_ingress (λ i, set_last_wall_ts (Some wall) (set_last_monotonic_ts (Some mono) i))) ;;;
              let host : bool := (mono_given || wall_given)%bool in
              ret {| o_sequence := seq; o_monotonic_ts := Some mono; o_wall_ts := Some wall; o_kernel_timestamp_ns := ts;
                     o_kernel_drop_count := drop;
                     o_timestamp_source := match ts, host with
                                           | Some _, true => "kernel+host" | Some _, false => "kernel"
                                           | None, true => "host" | None, false => "adapter" end;
                     o_valid := true |}
        end
  end.

Definition _evidence_ref (seq : Z) : string :=
  "can-ingress://" +:+ quote (source c) +:+ "/" +:+ quote (interface c) +:+ "/" +:+ pretty seq.

(** [CanTransportEnvelope]; the frame is kept beside it *)
Record CanTransportEnvelope := {
  e_observation : IngressObservation;
  e_health : CanLinkState.t;
  e_evidence_refs : list string
}.

(** [_make_envelope_locked] *)
Definition _make_envelope_locked (w : CanWireFrame) : bus (option CanTransportEnvelope) :=
  o <- _observe_ingress_locked (Some (frame w)) ;;
  if o_valid o then
    modify (on_ingress (set_last_observation None)) ;;;
    b <- get ;;
    ret (Some {| e_observation := o; e_health := link (proto b); e_evidence_refs := [_evidence_ref (o_sequence o)] |})
  else modify (on_ingress (set_last_observation (Some o))) ;;; ret None.

(** The arguments of [_make_external_record_locked] *)
Record record_args := {
  a_status : CanReceiveStatus.t;
  a_frame : option CanFrame;
  a_wire : option CanWireFrame;
  a_envelope : option CanTransportEnvelope;
  a_frame_valid : bool;
  a_exposure : bool;
  a_confirmed : bool;
  a_callback_errors : Z
}.

Definition external_record (a : record_args) (o : IngressObservation) (health : CanLinkState.t) (refs : list string)
    : CanExternalRecord :=
  let src := match a_wire a with Some w => Some (frame w) | None => a_frame a end in
  let m := _safe_external_frame_metadata src (a_frame_valid a) in
  let field (g : CanWireFrame → option Z) := a_wire a ≫= g in
  {| x_status := a_status a; x_source := source c; x_interface := interface c; x_ingress_sequence := o_sequence o;
     x_health := health; x_frame_valid := a_frame_valid a; x_exposure_allowed := a_exposure a;
     x_event_type := _external_event_type (kind <$> a_wire a); x_frame_kind := kind <$> a_wire a;
     x_arbitration_id := m_arbitration_id m; x_raw_can_id := m_raw_can_id m; x_dlc := m_dlc m; x_data := m_data m;
     x_is_extended_id := m_is_extended_id m; x_is_remote_frame := m_is_remote_frame m; x_is_error_frame := m_is_error_frame m;
     x_monotonic_ts := o_monotonic_ts o; x_wall_ts := o_wall_ts o; x_kernel_timestamp_ns := o_kernel_timestamp_ns o;
     x_kernel_drop_count := o_kernel_drop_count o; x_timestamp_source := o_timestamp_source o;
     x_callback_errors := a_callback_errors a; x_confirmed := a_confirmed a; x_command_id := field command_id;
     x_sequence_no := field sequence_no; x_opcode := field opcode; x_retry_count := field retry_count;
     x_result_code := field result_code; x_fault_code := field fault_code; x_device_mode := field device_mode;
     x_evidence_refs := refs |}.

(** [_make_external_record_locked]; [RuntimeError] stands for what
    [CanExternalRecord.__post_init__] raises *)
Definition _make_external_record_locked (a : record_args) : bus CanExternalRecord :=
  b <- get ;;
  let src := match a_wire a with Some w => Some (frame w) | None => a_frame a end in
  o <- (match a_envelope a with
        | Some e => ret (e_observation e)
        | None =>
            o <- (match last_observation (ingress b) with Some o => ret o | None => _observe_ingress_locked src end) ;;
            modify (on_ingress (set_last_observation None)) ;;; ret o
        end) ;;
  b <- get ;;
  let r := external_record a o
             (match a_envelope a with Some e => e_health e | None => link (proto b) end)
             (match a_envelope a with Some e => e_evidence_refs e | None => [_evidence_ref (o_sequence o)] end) in
  require (record_ok r) RuntimeError ;;;
  (if a_exposure a && _runtime_accepts_ingress_locked b then
     modify (on_planes (publish_external r)) ;;;
     b' <- get ;;
     if external_drop_count (planes b) <? external_drop_count (planes b')
     then _record_diagnostic_locked CanDiagnosticCode.EXTERNAL_BACKPRESSURE None else ret ()
   else ret ()) ;;;
  ret r.

(** [_correlate_received_locked] on telemetry *)
Definition correlate_telemetry (w : CanWireFrame) : bus (CanReceiveStatus.t * bool) :=
  seq <- of_option (sequence_no w) RuntimeError ;;
  b <- get ;;
  let delta := match last_telemetry_sequence (proto b) with
               | Some last => Z.land (seq - last) 0xFFFFFFFF
               | None => 1
               end in
  if delta =? 0 then
    _record_diagnostic_locked CanDiagnosticCode.DUPLICATE_TELEMETRY None ;;; ret (CanReceiveStatus.DUPLICATE, false)
  else if 0x80000000 <=? delta then
    _record_diagnostic_locked CanDiagnosticCode.STALE_TELEMETRY None ;;; ret (CanReceiveStatus.LATE, false)
  else
    modify (on_proto (set_last_telemetry_sequence (Some seq))) ;;;
    (if decide (fault_code w = Some _WireFault.NONE) then ret () else _handle_transport_error false) ;;;
    ret (CanReceiveStatus.ACCEPTED, false).

Definition retries_at (w : window) (k : CorrelationKey) : gset Z := default ∅ (retries_of w !! k).

(** An acknowledgement of the pending request *)
Definition complete_request (w : CanWireFrame) (r : PendingRequest) : bus (CanReceiveStatus.t * bool) :=
  let accepted := bool_decide (result_code w = Some _WireResult.ACCEPTED) in
  remember_completed r ;;;
  if decide (kind w = CanFrameKind.STOP_ACK) then
    modify (on_proto (λ p, set_link (if accepted then CanLinkState.SAFE_STOPPED else CanLinkState.LINK_LOST)
                             (set_command_queue [] (set_pending_stop None p)))) ;;;
    (if accepted then ret () else _record_diagnostic_locked CanDiagnosticCode.STOP_REJECTED (command_id w)) ;;;
    ret (CanReceiveStatus.ACCEPTED, accepted)
  else
    modify (on_proto (set_pending_command None)) ;;;
    (if accepted then ret ()
     else
       modify (on_proto (λ p, set_link CanLinkState.LINK_LOST (set_command_queue [] p))) ;;;
       _record_diagnostic_locked CanDiagnosticCode.COMMAND_REJECTED (command_id w)) ;;;
    ret (CanReceiveStatus.ACCEPTED, accepted).

(** An acknowledgement of no pending request *)
Definition unmatched (w : CanWireFrame) (key : CorrelationKey) (n : Z) : bus (CanReceiveStatus.t * bool) :=
  b <- get ;;
  if decide (n ∈ retries_at (completed (proto b)) key) then
    _record_diagnostic_locked CanDiagnosticCode.DUPLICATE_ACK (command_id w) ;;; ret (CanReceiveStatus.DUPLICATE, false)
  else if decide (n ∈ retries_at (timed_out (proto b)) key) then
    _record_diagnostic_locked CanDiagnosticCode.LATE_ACK (command_id w) ;;; ret (CanReceiveStatus.LATE, false)
  else
    _record_diagnostic_locked CanDiagnosticCode.UNCORRELATED_ACK (command_id w) ;;;
    ret (CanReceiveStatus.UNCORRELATED, false).

(** [_correlate_received_locked] *)
Definition _correlate_received_locked (w : CanWireFrame) : bus (CanReceiveStatus.t * bool) :=
  if decide (kind w = CanFrameKind.TELEMETRY) then correlate_telemetry w
  else
    key <- of_option (_correlation_key w) RuntimeError ;;
    n <- of_option (retry_count w) RuntimeError ;;
    b <- get ;;
    match (if decide (kind w = CanFrameKind.STOP_ACK) then pending_stop (proto b) else pending_command (proto b)) with
    | None => unmatched w key n
    | Some r =>
        pending_key <- of_option (_response_key (wire_frame r)) RuntimeError ;;
        if decide (key = pending_key ∧ n ∈ sent_retry_counts r) then complete_request w r else unmatched w key n
    end.

(** ** [_handle_received] *)

Record CanReceiveResult := {
  receive_status : CanReceiveStatus.t;
  receive_wire : option CanWireFrame;
  receive_confirmed : bool;
  receive_callback_errors : Z;
  receive_record : option CanExternalRecord
}.

(** An accepted frame on its way to the subscribers *)
Record delivery := {
  v_wire : CanWireFrame;
  v_dispatch : CanWireFrame;
  v_envelope : CanTransportEnvelope;
  v_confirmed : bool
}.

Inductive ingress_step : Type :=
| Ignored
| Refused (r : CanReceiveResult)
| Deliver (v : delivery).

Definition refusal (s : CanReceiveStatus.t) (w : option CanWireFrame) (r : CanExternalRecord) : ingress_step :=
  Refused {| receive_status := s; receive_wire := w; receive_confirmed := false; receive_callback_errors := 0;
             receive_record := Some r |}.

(** A record of a frame that is not exposed *)
Definition hidden_record (s : CanReceiveStatus.t) (f : option CanFrame) (w : option CanWireFrame)
    (e : option CanTransportEnvelope) (valid : bool) : record_args := {|
  a_status := s; a_frame := f; a_wire := w; a_envelope := e; a_frame_valid := valid; a_exposure := false;
  a_confirmed := false; a_callback_errors := 0 |}.

Definition is_bus_off (f : CanFrame) : bool :=
  match arbitration_id f with VInt id => negb (Z.land id _CAN_ERR_BUSOFF =? 0) | _ => false end.

(** The branch for error frames *)
Definition ingress_error_frame (f : CanFrame) : bus ingress_step :=
  (if is_bus_off f then _handle_transport_error true else ret ()) ;;;
  _record_diagnostic_locked CanDiagnosticCode.INVALID_FRAME None ;;;
  r <- _make_external_record_locked (hidden_record CanReceiveStatus.INVALID_FRAME (Some f) None None false) ;;
  ret (refusal CanReceiveStatus.INVALID_FRAME None r).

(** The section for a valid frame of an inbound kind *)
Definition ingress_valid (w : CanWireFrame) : bus ingress_step :=
  env <- _make_envelope_locked w ;;
  match env with
  | None =>
      r <- _make_external_record_locked
             (hidden_record CanReceiveStatus.INVALID_FRAME (Some (frame w)) (Some w) None false) ;;
      ret (refusal CanReceiveStatus.INVALID_FRAME (Some w) r)
  | Some env =>
      sc <- _correlate_received_locked w ;;
      b <- get ;;
      let env := {| e_observation := e_observation env; e_health := link (proto b); e_evidence_refs := e_evidence_refs env |} in
      if negb (bool_decide (sc.1 = CanReceiveStatus.ACCEPTED)) then
        r <- _make_external_record_locked (hidden_record sc.1 (Some (frame w)) (Some w) (Some env) true) ;;
        ret (refusal sc.1 (Some w) r)
      else
        d <- (if decide (kind w = CanFrameKind.TELEMETRY)
              then modify (on_planes (publish_telemetry w)) ;;; take_telemetry else ret (Some w)) ;;
        d <- of_option d RuntimeError ;;
        ret (Deliver {| v_wire := w; v_dispatch := d; v_envelope := env; v_confirmed := sc.2 |})
  end.

(** [_handle_received] after its first look at the runtime, up to the subscribers *)
Definition ingress_main (x : received) : bus ingress_step :=
  let other :=
    match decode_can_frame x with
    | Raise CanFrameValidationError =>
        b <- get ;;
        if negb (_runtime_accepts_ingress_locked b) then ret Ignored
        else
          _record_diagnostic_locked CanDiagnosticCode.INVALID_FRAME None ;;;
          r <- _make_external_record_locked
                 (hidden_record CanReceiveStatus.INVALID_FRAME (match x with IsFrame f => Some f | OtherObject => None end)
                    None None false) ;;
          ret (refusal CanReceiveStatus.INVALID_FRAME None r)
    | Raise e => raise (WireError e)
    | Ok w =>
        b <- get ;;
        if negb (_runtime_accepts_ingress_locked b) then ret Ignored
        else if _INBOUND_KINDS (kind w) then ingress_valid w
        else
          _record_diagnostic_locked CanDiagnosticCode.INVALID_FRAME (command_id w) ;;;
          r <- _make_external_record_locked
                 (hidden_record CanReceiveStatus.INVALID_FRAME (Some (frame w)) (Some w) None true) ;;
          ret (refusal CanReceiveStatus.INVALID_FRAME (Some w) r)
    end in
  match x with
  | IsFrame f => if truthy (is_error_frame f) then ingress_error_frame f else other
  | OtherObject => other
  end.

Fixpoint repeat_diagnostic (n : nat) (command : option Z) : bus () :=
  match n with
  | O => ret ()
  | S n' => _record_diagnostic_locked CanDiagnosticCode.SUBSCRIBER_ERROR command ;;; repeat_diagnostic n' command
  end.

(** The last section of [_handle_received]: [None] when the runtime stopped
    while the subscribers ran *)
Definition ingress_finish (v : delivery) (callback_errors : nat) : bus (option CanReceiveResult) :=
  b <- get ;;
  if negb (_runtime_accepts_ingress_locked b) then ret None
  else
    repeat_diagnostic callback_errors (command_id (v_wire v)) ;;;
    r <- _make_external_record_locked
           {| a_status := CanReceiveStatus.ACCEPTED; a_frame := Some (frame (v_wire v)); a_wire := Some (v_wire v);
              a_envelope := Some (v_envelope v); a_frame_valid := true; a_exposure := true;
              a_confirmed := v_confirmed v; a_callback_errors := Z.of_nat callback_errors |} ;;
    ret (Some {| receive_status := CanReceiveStatus.ACCEPTED; receive_wire := Some (v_wire v);
                 receive_confirmed := v_confirmed v; receive_callback_errors := Z.of_nat callback_errors;
                 receive_record := Some r |}).

(** [_handle_transport_frame_error] *)
Definition _handle_transport_frame_error : bus ingress_step :=
  b <- get ;;
  if negb (_runtime_accepts_ingress_locked b) then ret Ignored
  else
    _record_diagnostic_locked CanDiagnosticCode.INVALID_FRAME None ;;;
    r <- _make_external_record_locked (hidden_record CanReceiveStatus.INVALID_FRAME None None None false) ;;
    ret (refusal CanReceiveStatus.INVALID_FRAME None r).

(** ** Recovery and shutdown hooks *)

(** [begin_operation] *)
Definition begin_operation : bus (option nat) :=
  b <- get ;;
  if decide (rt_state (life b) = DeviceRuntimeState.ACTIVE) then
    modify (on_life (λ l, set_active_operations (S (active_operations l)) l)) ;;; ret (Some (generation (life b)))
  else ret None.

(** [operation_is_current] *)
Definition operation_is_current (token : nat) (l : Lifecycle) : bool :=
  bool_decide (rt_state l = DeviceRuntimeState.ACTIVE) && (token =? generation l)%nat.

Definition link_failed (p : Protocol) : bool := bool_decide (link p ∈ [CanLinkState.BUS_OFF; CanLinkState.LINK_LOST]).

(** [recover] before [transport.recover] *)
Definition recover_begin : bus (option nat) :=
  b <- get ;; if link_failed (proto b) then begin_operation else ret None.

(** [recover] after [transport.recover] returned [true] *)
Definition recover_apply (token : nat) : bus bool :=
  b <- get ;;
  if operation_is_current token (life b) && link_failed (proto b) then
    modify (on_proto (λ p, set_link CanLinkState.ACTIVE (set_last_telemetry_sequence None (drop_requests p)))) ;;; ret true
  else ret false.

(** The first half of [end_operation]: whether it finalizes a shutdown *)
Definition end_operation : bus bool :=
  modify (on_life (λ l, set_active_operations (pred (active_operations l)) l)) ;;;
  b <- get ;;
  let l := life b in
  ret (shutdown_requested l && bool_decide (rt_state l = DeviceRuntimeState.DEACTIVATING) &&
       (active_operations l =? 0)%nat && negb (lifecycle_operation l) && negb (default false (worker l))).

(** [on_runtime_shutdown_requested] *)
Definition on_runtime_shutdown_requested : bus () :=
  modify (on_proto (λ p, set_link CanLinkState.SHUTDOWN (drop_requests p))).

(** [on_runtime_shutdown_timeout] *)
Definition on_runtime_shutdown_timeout : bus () := _record_diagnostic_locked CanDiagnosticCode.SHUTDOWN_TIMEOUT None.

(** [configure] *)
Definition configure (b : Bus) : bool := bool_decide (link (proto b) = CanLinkState.NEW).

(** [activate] before and after [transport.open] *)
Definition activate_begin : bus () := modify (on_proto (set_link CanLinkState.STARTING)).
Definition activate_opened (ok : bool) : bus bool :=
  if ok then
    modify (λ b, set_opened true (on_proto (set_link
      (if decide (rt_state (life b) = DeviceRuntimeState.ACTIVATING) then CanLinkState.ACTIVE else CanLinkState.SHUTDOWN)) b)) ;;;
    ret true
  else
    modify (on_proto (set_link CanLinkState.LINK_LOST)) ;;;
    _record_diagnostic_locked CanDiagnosticCode.LINK_LOST None ;;; ret false.

(** [deactivate] before [transport.close]: whether the port is open *)
Definition deactivate_begin : bus bool :=
  modify (λ b, on_proto (λ p,
    let p := drop_requests p in
    if shutdown_requested (life b) || negb (link_failed p) then set_link CanLinkState.SHUTDOWN p else p) b) ;;;
  b <- get ;; ret (opened b).

(** [deactivate] after [transport.close] *)
Definition deactivate_closed (ok : bool) : bus bool :=
  if ok then modify (set_opened false) ;;; ret true
  else _record_diagnostic_locked CanDiagnosticCode.LINK_LOST None ;;; ret false.

(** [cleanup] *)
Definition cleanup : bus bool :=
  modify (λ b, on_planes (λ q, set_subscribers ∅ (set_external_queue [] (set_telemetry_queue [] q)))
    (set_ingress {| ingress_sequence := 0; last_monotonic_ts := None; last_wall_ts := None; last_observation := None |}
       (on_proto (λ p, set_last_telemetry_sequence None (drop_requests p)) b))) ;;;
  b <- get ;; ret (negb (opened b)).
End Bus.
