(* ===== verification/CanSystem.v ===== *)
(** * CAN bus adapter: lifecycle and threads

    [DeviceRuntime.start], [service_once], [shutdown], [end_operation] and their
    helpers in [libs/hardware/workbench/hardware/can_driver_safe.py], and the
    interleaving of the threads that use one bus: one poller (the worker or a
    manual caller), and any number of threads that start, shut down, recover,
    send and subscribe.  A step is one section under the lock, or one call of the
    transport, which is made after the lock was released: other threads may run
    between the section that decides on the call and the call itself.  What a call
    of the transport, of a subscriber or of [join] returns is up to the
    environment. *)

From Stdlib Require Import ZArith Ascii String SpecFloat.
From S2P Require Import Prelude PyVal Json CanWire CanState CanBus.
Local Open Scope prog_scope.
Local Open Scope Z_scope.

(** ** Lifecycle sections *)

(** [start], first section: whether this call starts the runtime *)
Definition start_enter (l : Lifecycle) : option Lifecycle :=
  if decide (rt_state l = DeviceRuntimeState.NEW) then
    Some (set_cancelled false (set_generation (S (generation l)) (set_lifecycle_operation true
           (set_rt_state DeviceRuntimeState.CONFIGURING l))))
  else None.

(** [start] after [configure]: whether it goes on *)
Definition start_configured (ok : bool) (l : Lifecycle) : Lifecycle * bool :=
  if ok then
    let l := set_configured true l in
    if decide (rt_state l = DeviceRuntimeState.CONFIGURING) then (set_rt_state DeviceRuntimeState.CONFIGURED l, true)
    else (l, false)
  else (if decide (rt_state l = DeviceRuntimeState.DEACTIVATING) then l else set_rt_state DeviceRuntimeState.FAILED l, false).

(** [start] before [activate] *)
Definition start_activating (l : Lifecycle) : Lifecycle * bool :=
  if decide (rt_state l = DeviceRuntimeState.CONFIGURED) then (set_rt_state DeviceRuntimeState.ACTIVATING l, true)
  else (l, false).

(** [start] after [activate]: whether the runtime is active *)
Definition start_activated (background ok : bool) (l : Lifecycle) : Lifecycle * bool :=
  let l := set_activated ok l in
  if ok && bool_decide (rt_state l = DeviceRuntimeState.ACTIVATING) && negb (shutdown_requested l) then
    (set_worker (if background then Some true else worker l) (set_lifecycle_operation false
       (set_rt_state DeviceRuntimeState.ACTIVE l)), true)
  else (l, false).

(** [_finish_start] before the cleanup: whether a shutdown was requested *)
Definition finish_start_begin (l : Lifecycle) : Lifecycle * bool :=
  (set_cleanup_in_progress true (set_rt_state DeviceRuntimeState.DEACTIVATING l),
   shutdown_requested l || bool_decide (rt_state l = DeviceRuntimeState.DEACTIVATING)).

(** The end of a cleanup *)
Definition cleanup_done (l : Lifecycle) : Lifecycle := set_worker None (set_activated false (set_cleanup_in_progress false l)).

(** [_finish_start] after the cleanup *)
Definition finish_start_end (requested ok : bool) (l : Lifecycle) : Lifecycle :=
  let l := set_lifecycle_operation false (cleanup_done l) in
  if requested then
    set_shutdown_result (Some ok)
      (set_rt_state (if ok then DeviceRuntimeState.CLEANED else DeviceRuntimeState.FAILED) l)
  else set_rt_state DeviceRuntimeState.FAILED l.

(** [shutdown], first section: [None] when the runtime is already clean *)
Definition shutdown_enter (b : Bus) : option Bus :=
  if decide (rt_state (life b) = DeviceRuntimeState.CLEANED) then None
  else Some
    (on_planes (λ q, set_external_queue [] (set_telemetry_queue [] q))
      (on_proto (set_command_queue [])
        (on_life (λ l, set_rt_state DeviceRuntimeState.DEACTIVATING (set_cancelled true (set_shutdown_requested true l))) b))).

(** [shutdown] after the join: the result, or the call of [_finalize_shutdown] *)
Definition shutdown_check (l : Lifecycle) : option bool :=
  if cleanup_in_progress l then Some false
  else if lifecycle_operation l || (0 <? active_operations l)%nat then Some false
  else if decide (rt_state l = DeviceRuntimeState.CLEANED) then Some (bool_decide (shutdown_result l = Some true))
  else None.

(** [_finalize_shutdown] before the cleanup: the lifecycle with this call as the
    owner of the cleanup, or what it returns *)
Definition finalize_begin (l : Lifecycle) : Lifecycle + option bool :=
  if decide (rt_state l = DeviceRuntimeState.CLEANED) then inr (shutdown_result l)
  else if negb (bool_decide (rt_state l = DeviceRuntimeState.DEACTIVATING)) then inr (Some false)
  else if default false (worker l) then inr (Some false)
  else if lifecycle_operation l || (0 <? active_operations l)%nat || cleanup_in_progress l then inr None
  else inl (set_cleanup_in_progress true l).

(** [_finalize_shutdown] after the cleanup *)
Definition finalize_end (ok : bool) (l : Lifecycle) : Lifecycle :=
  set_shutdown_result (Some ok)
    (set_rt_state (if ok then DeviceRuntimeState.CLEANED else DeviceRuntimeState.FAILED) (cleanup_done l)).

(** [_notify_shutdown_timeout]: whether it calls the adapter *)
Definition notify_shutdown_timeout (l : Lifecycle) : Lifecycle * bool :=
  (set_shutdown_timeout_reported true l, negb (shutdown_timeout_reported l)).

(** ** Threads *)

Inductive poll_pc : Type :=
| PIdle
| PService                        (* [service_once] saw an active runtime *)
| PHandOff (d : Dispatch)         (* [poll] picked a frame and released the lock *)
| PSending (d : Dispatch)         (* in [transport.send] *)
| PReceiving                      (* in [transport.receive] *)
| PIngress (x : received)         (* [_handle_received] saw an active runtime *)
| PDeliver (v : delivery)         (* before the look that precedes the subscribers *)
| PCallbacks (v : delivery)       (* the subscribers run *)
| PRaised.                        (* an exception is on its way to [on_runtime_error] *)

Inductive owner : Type := FinishStart (requested : bool) | Finalizer.

Inductive clean_stage : Type :=
| Deactivate (activated : bool)
| ToClose                         (* [deactivate] released the lock *)
| Closing                         (* in [transport.close] *)
| CloseRaised                     (* an exception that [deactivate] does not handle *)
| Cleaning (deactivated : bool)
| Cleaned (ok : bool).

Inductive thread : Type :=
| TConfigure (background : bool)
| TConfigured (background ok : bool)
| TActivating (background : bool)
| TActivate (background : bool)
| TOpening (background : bool)    (* in [transport.open] *)
| TOpenRaised (background : bool) (* an exception that [activate] does not handle *)
| TActivated (background ok : bool)
| TFinish (activated : bool)
| TClean (o : owner) (s : clean_stage)
| TShutdownHook (worker : bool)   (* the adapter is to be told *)
| TJoin                           (* in [worker.join] *)
| TJoinTimeout
| TShutdownCheck
| TFinalize
| TRecovering (token : nat)       (* in [transport.recover] *)
| TRecovered (token : nat)
| TEndOperation.

(** What the threads did, latest last *)
Inductive event : Type :=
| EPick (w : CanWireFrame) (retry : bool)       (* [poll] picked a frame, under the lock *)
| ESend (w : CanWireFrame) (retry : bool)       (* [transport.send] was called, outside the lock *)
| EAdmit (w : CanWireFrame)                     (* [send] returned QUEUED *)
| EConfirm (w : CanWireFrame)                   (* an acknowledgement confirmed a request *)
| EResult (r : CanReceiveResult)                (* [_handle_received] returned an accepted frame *)
| ERecovered                                    (* [recover] made the link active *)
| EClose.                                       (* [transport.close] was called *)

Record Sys := { bus_of : Bus; poller : poll_pc; threads : list thread; trace : list event }.

(** The poller after [ingress_main] *)
Definition after_ingress (s : ingress_step) : poll_pc := match s with Deliver v => PDeliver v | _ => PIdle end.
Definition ingress_events (s : ingress_step) : list event :=
  match s with Deliver v => if v_confirmed v then [EConfirm (v_wire v)] else [] | _ => [] end.
Definition picks (o : option (option Dispatch)) : list event :=
  match o with Some (Some d) => [EPick (dispatch_frame d) (is_retry d)] | _ => [] end.
Definition after_begin (o : option (option Dispatch)) : poll_pc :=
  match o with None => PIdle | Some None => PReceiving | Some (Some d) => PHandOff d end.

Section System.
Context (c : CanTransportConfig) (clock wall_clock : nat → option pyval) (time_monotonic : nat → spec_float).

(** What [transport.receive] does; the last is an exception that is no
    [CanTransportError] *)
Inductive receive_outcome : Type :=
| Got (x : received) | GotNothing | GotFrameError | GotBackpressure | GotError (bus_off : bool) | GotOther.

(** The poller after [transport.receive] *)
Definition receive_step (o : receive_outcome) (b : Bus) : poll_pc * Bus :=
  let finish {A} (k : A → poll_pc) (m : outcome bus_exn A * Bus) :=
    match m with (Ok a, b') => (k a, b') | (Raise _, b') => (PRaised, b') end in
  match o with
  | Got x => (if _runtime_accepts_ingress_locked b then PIngress x else PIdle, b)
  | GotNothing => (PIdle, b)
  | GotFrameError => finish after_ingress (_handle_transport_frame_error c clock wall_clock time_monotonic b)
  | GotBackpressure => finish (λ _, PIdle) (_handle_transport_backpressure c clock time_monotonic b)
  | GotError bus_off => finish (λ _, PIdle) (_handle_transport_error c clock time_monotonic bus_off b)
  | GotOther => (PRaised, b)
  end.

(** An exception of [on_runtime_error] ends a worker; a manual caller gets it *)
Definition worker_dies (b : Bus) : Bus :=
  on_life (λ l, if default false (worker l) then set_worker (Some false) l else l) b.

(** One step of the poller *)
Inductive poll_step : Bus → poll_pc → list event → Bus → poll_pc → Prop :=
| step_service b :
    rt_state (life b) = DeviceRuntimeState.ACTIVE → poll_step b PIdle [] b PService
| step_begin b o b' :
    poll_begin c clock time_monotonic b = (Ok o, b') → poll_step b PService (picks o) b' (after_begin o)
| step_begin_raise b e b' :
    poll_begin c clock time_monotonic b = (Raise e, b') → poll_step b PService [] b' PRaised
(** The lock is free between the choice and the call: any section of another
    thread may run before it *)
| step_hand_off b d :
    poll_step b (PHandOff d) [ESend (dispatch_frame d) (is_retry d)] b (PSending d)
| step_sent b d o more b' :
    poll_sent c clock time_monotonic d o b = (Ok more, b') →
    poll_step b (PSending d) [] b' (if more : bool then PReceiving else PIdle)
| step_sent_raise b d o e b' :
    poll_sent c clock time_monotonic d o b = (Raise e, b') → poll_step b (PSending d) [] b' PRaised
(** An exception of [transport.send] that is no [CanTransportError] *)
| step_sent_other b d : poll_step b (PSending d) [] b PRaised
| step_receive b o pc b' :
    receive_step o b = (pc, b') → poll_step b PReceiving [] b' pc
| step_ingress b x s b' :
    ingress_main c clock wall_clock time_monotonic x b = (Ok s, b') →
    poll_step b (PIngress x) (ingress_events s) b' (after_ingress s)
| step_ingress_raise b x e b' :
    ingress_main c clock wall_clock time_monotonic x b = (Raise e, b') → poll_step b (PIngress x) [] b' PRaised
| step_deliver b v :
    poll_step b (PDeliver v) [] b (if _runtime_accepts_ingress_locked b then PCallbacks v else PIdle)
| step_finish b v errors r b' :
    ingress_finish c clock wall_clock time_monotonic v errors b = (Ok r, b') →
    poll_step b (PCallbacks v) (match r with Some r => [EResult r] | None => [] end) b' PIdle
| step_finish_raise b v errors e b' :
    ingress_finish c clock wall_clock time_monotonic v errors b = (Raise e, b') → poll_step b (PCallbacks v) [] b' PRaised
| step_raised b r b' :
    on_runtime_error c clock time_monotonic b = (r, b') →
    poll_step b PRaised [] (match r with Ok _ => b' | Raise _ => worker_dies b' end) PIdle.

(** One section of a thread: the thread goes on or ends *)
Inductive thread_step : Bus → thread → list event → Bus → option thread → Prop :=
| step_configure b bg : thread_step b (TConfigure bg) [] b (Some (TConfigured bg (configure b)))
| step_configured b bg ok l more :
    start_configured ok (life b) = (l, more) →
    thread_step b (TConfigured bg ok) [] (set_life l b) (Some (if more : bool then TActivating bg else TFinish false))
| step_activating b bg l more :
    start_activating (life b) = (l, more) →
    thread_step b (TActivating bg) [] (set_life l b) (Some (if more : bool then TActivate bg else TFinish false))
| step_activate b bg r b' :
    activate_begin b = (r, b') → thread_step b (TActivate bg) [] b' (Some (TOpening bg))
| step_opened b bg opened r b' :
    activate_opened c clock time_monotonic opened b = (r, b') →
    thread_step b (TOpening bg) [] b' (Some (match r with Ok ok => TActivated bg ok | Raise _ => TOpenRaised bg end))
| step_open_other b bg : thread_step b (TOpening bg) [] b (Some (TOpenRaised bg))
(** [_notify_adapter_error]; what it raises leaves [start] *)
| step_open_raised b bg r b' :
    on_runtime_error c clock time_monotonic b = (r, b') →
    thread_step b (TOpenRaised bg) [] b' (match r with Ok _ => Some (TActivated bg false) | Raise _ => None end)
| step_activated b bg ok l accepted :
    start_activated bg ok (life b) = (l, accepted) →
    thread_step b (TActivated bg ok) [] (set_life l b) (if accepted : bool then None else Some (TFinish ok))
| step_finish_start b ok l requested :
    finish_start_begin (life b) = (l, requested) →
    thread_step b (TFinish ok) [] (set_life l b) (Some (TClean (FinishStart requested) (Deactivate ok)))
| step_deactivate b o active r b' :
    deactivate_begin b = (r, b') → active || configured (life b) = true →
    thread_step b (TClean o (Deactivate active)) [] b'
      (Some (TClean o (match r with Ok true => ToClose | _ => Cleaning true end)))
| step_deactivate_skipped b o active :
    active || configured (life b) = false →
    thread_step b (TClean o (Deactivate active)) [] b (Some (TClean o (Cleaning true)))
| step_close b o : thread_step b (TClean o ToClose) [EClose] b (Some (TClean o Closing))
| step_closed b o closed r b' :
    deactivate_closed c clock time_monotonic closed b = (r, b') →
    thread_step b (TClean o Closing) [] b' (Some (TClean o (match r with Ok ok => Cleaning ok | Raise _ => CloseRaised end)))
| step_close_other b o : thread_step b (TClean o Closing) [] b (Some (TClean o CloseRaised))
| step_close_raised b o r b' :
    on_runtime_error c clock time_monotonic b = (r, b') →
    thread_step b (TClean o CloseRaised) [] b' (match r with Ok _ => Some (TClean o (Cleaning false)) | Raise _ => None end)
| step_cleanup b o deactivated r b' :
    cleanup b = (r, b') →
    thread_step b (TClean o (Cleaning deactivated)) [] b'
      (Some (TClean o (Cleaned (deactivated && match r with Ok ok => ok | Raise _ => false end))))
| step_cleaned_start b requested ok :
    thread_step b (TClean (FinishStart requested) (Cleaned ok)) [] (on_life (finish_start_end requested ok) b) None
| step_cleaned_finalizer b ok : thread_step b (TClean Finalizer (Cleaned ok)) [] (on_life (finalize_end ok) b) None
| step_hook b w r b' :
    on_runtime_shutdown_requested b = (r, b') →
    thread_step b (TShutdownHook w) [] b' (Some (if w : bool then TJoin else TShutdownCheck))
| step_joined b : worker (life b) ≠ Some true → thread_step b TJoin [] b (Some TShutdownCheck)
| step_join_timeout b l tell :
    notify_shutdown_timeout (life b) = (l, tell) →
    thread_step b TJoin [] (set_life l b) (if tell : bool then Some TJoinTimeout else None)
| step_timeout_told b r b' :
    on_runtime_shutdown_timeout c clock time_monotonic b = (r, b') → thread_step b TJoinTimeout [] b' None
| step_shutdown_check b :
    thread_step b TShutdownCheck [] b (match shutdown_check (life b) with Some _ => None | None => Some TFinalize end)
| step_finalize b l : finalize_begin (life b) = inl l →
    thread_step b TFinalize [] (set_life l b) (Some (TClean Finalizer (Deactivate (activated (life b)))))
| step_finalize_over b r : finalize_begin (life b) = inr r → thread_step b TFinalize [] b None
| step_recover_failed b token : thread_step b (TRecovering token) [] b (Some TEndOperation)
| step_recover_error b token bus_off r b' :
    _handle_transport_error c clock time_monotonic bus_off b = (r, b') →
    thread_step b (TRecovering token) [] b' (match r with Ok _ => Some TEndOperation | Raise _ => None end)
(** An exception that is no [CanTransportError] leaves [recover] *)
| step_recover_other b token : thread_step b (TRecovering token) [] b None
| step_recover_ok b token : thread_step b (TRecovering token) [] b (Some (TRecovered token))
| step_recovered b token r b' :
    recover_apply token b = (r, b') →
    thread_step b (TRecovered token) (match r with Ok true => [ERecovered] | _ => [] end) b' (Some TEndOperation)
| step_end_operation b r b' :
    end_operation b = (r, b') →
    thread_step b TEndOperation [] b' (match r with Ok true => Some TFinalize | _ => None end).

(** A call that is one section, or the first section of a longer call *)
Inductive call_step : Bus → list event → Bus → list thread → Prop :=
| call_start b bg l : start_enter (life b) = Some l → call_step b [] (set_life l b) [TConfigure bg]
| call_shutdown b b' : shutdown_enter b = Some b' → call_step b [] b' [TShutdownHook (bool_decide (is_Some (worker (life b))))]
| call_recover b token b' : recover_begin b = (Ok (Some token), b') → call_step b [] b' [TRecovering token]
| call_send b x r b' :
    send c clock time_monotonic x b = (r, b') →
    call_step b (match r, decode_can_frame x with
                 | Ok r, Ok w => if decide (send_status r = CanSendStatus.QUEUED) then [EAdmit w] else []
                 | _, _ => []
                 end) b' []
| call_subscribe b id h r b' : subscribe c id h b = (r, b') → call_step b [] b' []
| call_unsubscribe b id h r b' : unsubscribe id h b = (r, b') → call_step b [] b' []
| call_take_external b r b' : take_external b = (r, b') → call_step b [] b' []
(** The worker ends when it is idle and cancelled or the runtime is not active *)
| call_worker_exit b :
    worker (life b) = Some true → cancelled (life b) = true ∨ rt_state (life b) ≠ DeviceRuntimeState.ACTIVE →
    call_step b [] (on_life (set_worker (Some false)) b) [].

Inductive sys_step : Sys → Sys → Prop :=
| sys_poll s es b' pc :
    poll_step (bus_of s) (poller s) es b' pc →
    sys_step s {| bus_of := b'; poller := pc; threads := threads s; trace := trace s ++ es |}
| sys_thread s before t after es b' o :
    threads s = before ++ t :: after → thread_step (bus_of s) t es b' o →
    sys_step s {| bus_of := b'; poller := poller s; threads := before ++ option_list o ++ after; trace := trace s ++ es |}
| sys_call s es b' ts :
    call_step (bus_of s) es b' ts → (worker (life b') = worker (life (bus_of s)) ∨ poller s = PIdle) →
    sys_step s {| bus_of := b'; poller := poller s; threads := threads s ++ ts; trace := trace s ++ es |}.

Definition init : Sys := {| bus_of := new_bus c; poller := PIdle; threads := []; trace := [] |}.

Definition reachable_sys (s : Sys) : Prop := rtc sys_step init s.
End System.
