(* ===== verification/CanScheduler.v ===== *)
(** * CAN bus adapter: an executable scheduler

    Chosen interleavings of the system of [CanSystem], with the choices of the
    transport and of the device given as actions; the example runs of the
    theorems are evaluated with it. *)

From Stdlib Require Import ZArith Ascii String SpecFloat.
From S2P Require Import Prelude PyVal Json CanWire CanState CanBus CanSystem.
Local Open Scope Z_scope.

Inductive action : Type :=
| AStart                                          (* [start(background=False)] *)
| AThread                                         (* the next section of the first thread; [open] succeeds *)
| ASend (x : received)                            (* [send] *)
| AShutdown                                       (* [shutdown] *)
| ARecover                                        (* [recover] *)
| APoll (sent : send_outcome) (got : receive_outcome).   (* the next section of the poller *)

Definition idle (pc : poll_pc) : bool := match pc with PIdle => true | _ => false end.

Section Scheduler.
Context (c : CanTransportConfig) (clock wall_clock : nat → option pyval) (time_monotonic : nat → spec_float).

Definition admitted (x : received) (r : outcome bus_exn CanSendResult) : list event :=
  match r, decode_can_frame x with
  | Ok r, Ok w => if decide (send_status r = CanSendStatus.QUEUED) then [EAdmit w] else []
  | _, _ => []
  end.

(** A section of a thread; the transport succeeds, [join] returns when it may *)
Definition thread_section (t : thread) (b : Bus) : option (list event * Bus * option thread) :=
  match t with
  | TConfigure bg => Some ([], b, Some (TConfigured bg (configure b)))
  | TConfigured bg ok =>
      let '(l, more) := start_configured ok (life b) in
      Some ([], set_life l b, Some (if more : bool then TActivating bg else TFinish false))
  | TActivating bg =>
      let '(l, more) := start_activating (life b) in
      Some ([], set_life l b, Some (if more : bool then TActivate bg else TFinish false))
  | TActivate bg => let '(_, b') := activate_begin b in Some ([], b', Some (TOpening bg))
  | TOpening bg =>
      let '(r, b') := activate_opened c clock time_monotonic true b in
      Some ([], b', Some (match r with Ok ok => TActivated bg ok | Raise _ => TOpenRaised bg end))
  | TActivated bg ok =>
      let '(l, accepted) := start_activated bg ok (life b) in
      Some ([], set_life l b, if accepted : bool then None else Some (TFinish ok))
  | TShutdownHook w =>
      let '(_, b') := on_runtime_shutdown_requested b in Some ([], b', Some (if w : bool then TJoin else TShutdownCheck))
  | TShutdownCheck => Some ([], b, match shutdown_check (life b) with Some _ => None | None => Some TFinalize end)
  | TFinalize =>
      match finalize_begin (life b) with
      | inl l => Some ([], set_life l b, Some (TClean Finalizer (Deactivate (activated (life b)))))
      | inr _ => Some ([], b, None)
      end
  | TFinish ok =>
      let '(l, requested) := finish_start_begin (life b) in
      Some ([], set_life l b, Some (TClean (FinishStart requested) (Deactivate ok)))
  | TClean o stage =>
      match stage with
      | Deactivate active =>
          if active || configured (life b) then
            let '(r, b') := deactivate_begin b in
            Some ([], b', Some (TClean o (match r with Ok true => ToClose | _ => Cleaning true end)))
          else Some ([], b, Some (TClean o (Cleaning true)))
      | ToClose => Some ([EClose], b, Some (TClean o Closing))
      | Closing =>
          let '(r, b') := deactivate_closed c clock time_monotonic true b in
          Some ([], b', Some (TClean o (match r with Ok ok => Cleaning ok | Raise _ => CloseRaised end)))
      | CloseRaised => None
      | Cleaning deactivated =>
          let '(r, b') := cleanup b in
          Some ([], b', Some (TClean o (Cleaned (deactivated && match r with Ok ok => ok | Raise _ => false end))))
      | Cleaned ok =>
          Some ([], on_life (match o with FinishStart requested => finish_start_end requested ok | Finalizer => finalize_end ok end) b,
                None)
      end
  | TRecovering token => Some ([], b, Some (TRecovered token))
  | TRecovered token =>
      let '(r, b') := recover_apply token b in
      Some (match r with Ok true => [ERecovered] | _ => [] end, b', Some TEndOperation)
  | TEndOperation =>
      let '(r, b') := end_operation b in Some ([], b', match r with Ok true => Some TFinalize | _ => None end)
  | _ => None
  end.

(** A section of the poller *)
Definition poll_section (sent : send_outcome) (got : receive_outcome) (pc : poll_pc) (b : Bus)
    : option (list event * Bus * poll_pc) :=
  match pc with
  | PIdle => if decide (rt_state (life b) = DeviceRuntimeState.ACTIVE) then Some ([], b, PService) else None
  | PService =>
      match poll_begin c clock time_monotonic b with
      | (Ok o, b') => Some (picks o, b', after_begin o)
      | (Raise _, b') => Some ([], b', PRaised)
      end
  | PHandOff d => Some ([ESend (dispatch_frame d) (is_retry d)], b, PSending d)
  | PSending d =>
      match poll_sent c clock time_monotonic d sent b with
      | (Ok more, b') => Some ([], b', if more : bool then PReceiving else PIdle)
      | (Raise _, b') => Some ([], b', PRaised)
      end
  | PReceiving => let '(pc', b') := receive_step c clock wall_clock time_monotonic got b in Some ([], b', pc')
  | PIngress x =>
      match ingress_main c clock wall_clock time_monotonic x b with
      | (Ok s, b') => Some (ingress_events s, b', after_ingress s)
      | (Raise _, b') => Some ([], b', PRaised)
      end
  | PDeliver v => Some ([], b, if _runtime_accepts_ingress_locked b then PCallbacks v else PIdle)
  | PCallbacks v =>
      match ingress_finish c clock wall_clock time_monotonic v 0 b with
      | (Ok r, b') => Some (match r with Some r => [EResult r] | None => [] end, b', PIdle)
      | (Raise _, b') => Some ([], b', PRaised)
      end
  | PRaised =>
      let '(r, b') := on_runtime_error c clock time_monotonic b in
      Some ([], match r with Ok _ => b' | Raise _ => worker_dies b' end, PIdle)
  end.

Definition act (a : action) (s : Sys) : option Sys :=
  let call es b' ts :=
    if idle (poller s) || bool_decide (worker (life b') = worker (life (bus_of s))) then
      Some {| bus_of := b'; poller := poller s; threads := threads s ++ ts; trace := trace s ++ es |}
    else None in
  match a with
  | AStart => l ← start_enter (life (bus_of s)); call [] (set_life l (bus_of s)) [TConfigure false]
  | AThread =>
      match threads s with
      | [] => None
      | t :: ts =>
          '(es, b', o) ← thread_section t (bus_of s);
          Some {| bus_of := b'; poller := poller s; threads := option_list o ++ ts; trace := trace s ++ es |}
      end
  | ASend x =>
      let '(r, b') := send c clock time_monotonic x (bus_of s) in
      call (admitted x r) b' []
  | AShutdown => b' ← shutdown_enter (bus_of s); call [] b' [TShutdownHook (bool_decide (is_Some (worker (life (bus_of s)))))]
  | ARecover =>
      match recover_begin (bus_of s) with (Ok (Some token), b') => call [] b' [TRecovering token] | _ => None end
  | APoll sent got =>
      '(es, b', pc) ← poll_section sent got (poller s) (bus_of s);
      Some {| bus_of := b'; poller := pc; threads := threads s; trace := trace s ++ es |}
  end.

Fixpoint acts (l : list action) (s : Sys) : option Sys :=
  match l with [] => Some s | a :: l' => s' ← act a s; acts l' s' end.

Lemma thread_section_step t b es b' o :
  thread_section t b = Some (es, b', o) → thread_step c clock time_monotonic b t es b' o.
Proof.
  destruct t as [| | | | | | | |o' []| | | | | | | |]; cbn [thread_section]; try done; intros H; try (injection H as <- <- <-; by econstructor);
    try (case_match eqn:E; injection H as <- <- <-; by econstructor).
  destruct (_ || _) eqn:Hc; [|injection H as <- <- <-; by apply step_deactivate_skipped].
  destruct (deactivate_begin b) as [r b1] eqn:E. injection H as <- <- <-. by eapply step_deactivate.
Qed.

Lemma poll_section_step sent got pc b es b' pc' :
  poll_section sent got pc b = Some (es, b', pc') → poll_step c clock wall_clock time_monotonic b pc es b' pc'.
Proof.
  destruct pc; cbn [poll_section]; intros H.
  - case_decide; simplify_eq. by constructor.
  - destruct (poll_begin _ _ _ _) as [[|] ?] eqn:E; simplify_eq; by econstructor.
  - simplify_eq. constructor.
  - destruct (poll_sent _ _ _ _ _ _) as [[|] ?] eqn:E; simplify_eq; by econstructor.
  - destruct (receive_step _ _ _ _ _ _) eqn:E; simplify_eq; by econstructor.
  - destruct (ingress_main _ _ _ _ _ _) as [[|] ?] eqn:E; simplify_eq; by econstructor.
  - simplify_eq. constructor.
  - destruct (ingress_finish _ _ _ _ _ _ _) as [[|] ?] eqn:E; simplify_eq; by econstructor.
  - destruct (on_runtime_error _ _ _ _) eqn:E. simplify_eq. by econstructor.
Qed.

Lemma act_step a s s' : act a s = Some s' → sys_step c clock wall_clock time_monotonic s s'.
Proof.
  assert (Hcall : ∀ es b' ts,
    (if idle (poller s) || bool_decide (worker (life b') = worker (life (bus_of s))) then Some {| bus_of := b'; poller := poller s; threads := threads s ++ ts; trace := trace s ++ es |} else None)
    = Some s' → call_step c clock time_monotonic (bus_of s) es b' ts → sys_step c clock wall_clock time_monotonic s s').
  { intros es b' ts H Hc. case_match eqn:E; [|done]. injection H as <-. apply sys_call; [done|].
    apply orb_true_iff in E as [E|E%bool_decide_eq_true]; [right; by destruct (poller s)|by left]. }
  destruct a as [| |x| | |sent got]; cbn [act].
  - destruct (start_enter _) eqn:E; [|done]. intros H. eapply Hcall; [done|]. by constructor.
  - destruct (threads s) as [|t ts] eqn:Ht; [done|]. destruct (thread_section _ _) as [[[es b'] o]|] eqn:E; [|done].
    intros [= <-]. eapply (sys_thread _ _ _ _ s [] t ts); [done|]. by apply thread_section_step.
  - destruct (send _ _ _ _ _) as [r b'] eqn:E. intros H. eapply Hcall; [done|]. by apply call_send.
  - destruct (shutdown_enter _) eqn:E; [|done]. intros H. eapply Hcall; [done|]. by constructor.
  - destruct (recover_begin _) as [[[token|]|] b'] eqn:E; try done. intros H. eapply Hcall; [done|]. by constructor.
  - destruct (poll_section _ _ _ _) as [[[es b'] pc]|] eqn:E; [|done]. intros [= <-]. apply sys_poll. by eapply poll_section_step.
Qed.

Lemma acts_rtc l s s' : acts l s = Some s' → rtc (sys_step c clock wall_clock time_monotonic) s s'.
Proof.
  revert s. induction l as [|a l IH]; intros s; simpl; [intros [= ->]; constructor|].
  destruct (act a s) as [s1|] eqn:E; [|done]. intros H. eapply rtc_l; [by eapply act_step|]. by apply IH.
Qed.
End Scheduler.

(** A run that succeeds, by evaluation of one boolean *)
Lemma default_runs {A} (d : A) (o : option A) : (if o then true else false) = true → o = Some (default d o).
Proof. by destruct o. Qed.

Ltac runs := apply default_runs; vm_compute; reflexivity.

(** ** An example run *)

Definition zero_clock (n : nat) : option pyval := Some (VFloat float_zero).
Definition zero_time (n : nat) : spec_float := float_zero.

Definition sample_config : CanTransportConfig := {|
  queue_capacity := 4; ack_timeout_s := float_of_Z 1; ack_retry_budget := 2; stop_timeout_s := float_of_Z 1; stop_retry_budget := 2;
  max_subscribers_per_id := 8; diagnostic_capacity := 16; correlation_capacity := 8; initial_stop_command_id := 0x8000;
  telemetry_capacity := 4; health_capacity := 16; source := "can"; interface := "can0"; transport_backpressure_budget := 3;
  external_capacity := 4 |}.

Definition start_actions : list action := AStart :: repeat AThread 6.
Definition a_command : received := IsFrame (plain_frame 0x100 [0x10; 0; 7; 1; 0; 0; 0; 0]).
Definition a_command_ack : received := IsFrame (plain_frame 0x101 [0x10; 0; 7; 1; 0; 0; 0; 1]).
Definition a_stop : received := IsFrame (plain_frame 0x080 [0x10; 0x90; 0; 5; 0; 0; 0; 0]).
Definition poll (x : receive_outcome) : action := APoll SendDone x.

(** A command is sent and confirmed, then a STOP is accepted and sent *)
Definition sample_actions : list action :=
  start_actions ++ [ASend a_command] ++ repeat (poll (Got a_command_ack)) 8 ++ [ASend a_stop] ++ repeat (poll GotNothing) 3.

Definition evaluate (c : CanTransportConfig) (l : list action) : Sys :=
  default (init c) (acts c zero_clock zero_clock zero_time l (init c)).
Definition sample_state : Sys := evaluate sample_config sample_actions.

Definition event_code (e : event) : string :=
  match e with
  | EAdmit w => "admit " +:+ value (kind w) | EPick w _ => "pick " +:+ value (kind w)
  | ESend w _ => "send " +:+ value (kind w) | EConfirm w => "confirm " +:+ value (kind w)
  | EResult _ => "result" | ERecovered => "recovered" | EClose => "close"
  end.

Lemma sample_runs : acts sample_config zero_clock zero_clock zero_time sample_actions (init sample_config) = Some sample_state.
Proof. runs. Qed.

Lemma sample_trace :
  event_code <$> trace sample_state = 
    ["admit command"; "pick command"; "send command"; "confirm ack"; "result"; "admit stop"; "pick stop"; "send stop"].
Proof. vm_compute. reflexivity. Qed.

(** Started and shut down: in the cleanup, and after it *)
Definition cleaning_state : Sys := evaluate sample_config (start_actions ++ AShutdown :: repeat AThread 4).
Definition cleaned_state : Sys := evaluate sample_config (start_actions ++ AShutdown :: repeat AThread 8).

Lemma cleaning_runs :
  acts sample_config zero_clock zero_clock zero_time (start_actions ++ AShutdown :: repeat AThread 4) (init sample_config)
  = Some cleaning_state.
Proof. runs. Qed.

Lemma cleaned_runs :
  acts sample_config zero_clock zero_clock zero_time (start_actions ++ AShutdown :: repeat AThread 8) (init sample_config)
  = Some cleaned_state.
Proof. runs. Qed.

(** A STOP can no longer be sent afterwards *)
Definition after_cleaned_state : Sys :=
  default cleaned_state (acts sample_config zero_clock zero_clock zero_time [ASend a_stop] cleaned_state).
Lemma after_cleaned_runs :
  acts sample_config zero_clock zero_clock zero_time [ASend a_stop] cleaned_state = Some after_cleaned_state.
Proof. runs. Qed.

(** ** Running out of STOP identifiers

    Two correlation windows of two keys each remember three STOP identifiers in
    use, as many as [_new_stop_frame_locked] tries. *)

Definition ticking_clock (n : nat) : option pyval := Some (VFloat (float_of_Z (Z.of_nat n))).

Definition small_config : CanTransportConfig := {|
  queue_capacity := 4; ack_timeout_s := float_of_Z 1; ack_retry_budget := 0; stop_timeout_s := float_of_Z 1; stop_retry_budget := 0;
  max_subscribers_per_id := 8; diagnostic_capacity := 16; correlation_capacity := 2; initial_stop_command_id := 0x8000;
  telemetry_capacity := 4; health_capacity := 16; source := "can"; interface := "can0"; transport_backpressure_budget := 3;
  external_capacity := 4 |}.

Definition stop_request (id : Z) : received := IsFrame (plain_frame 0x080 [0x10; Z.shiftr id 8; Z.land id 0xFF; 5; 0; 0; 0; 0]).
Definition stop_rejection (id : Z) : received := IsFrame (plain_frame 0x081 [0x10; Z.shiftr id 8; Z.land id 0xFF; 5; 0; 1; 3; 4]).

(** A STOP that the device rejects, one that it does not answer, and recovery *)
Definition rejected_stop (id : Z) : list action :=
  ASend (stop_request id) :: repeat (poll (Got (stop_rejection id))) 8 ++ ARecover :: repeat AThread 3.
Definition unanswered_stop (id : Z) : list action :=
  ASend (stop_request id) :: repeat (poll GotNothing) 8 ++ ARecover :: repeat AThread 3.

Definition exhaustion_actions : list action :=
  start_actions ++ rejected_stop 0x8000 ++ rejected_stop 0x8001 ++ unanswered_stop 0x8002 ++
  [ASend a_command] ++ repeat (poll GotNothing) 7.

Definition evaluate_ticking (l : list action) : Sys :=
  default (init small_config) (acts small_config ticking_clock ticking_clock zero_time l (init small_config)).

Definition exhausted_state : Sys := evaluate_ticking exhaustion_actions.
Lemma exhaustion_runs :
  acts small_config ticking_clock ticking_clock zero_time exhaustion_actions (init small_config) = Some exhausted_state.
Proof. runs. Qed.

(** ** A queue of one more than its capacity

    The transport refuses a request while another one was admitted. *)

Definition one_place : CanTransportConfig := {|
  queue_capacity := 1; ack_timeout_s := float_of_Z 1; ack_retry_budget := 0; stop_timeout_s := float_of_Z 1; stop_retry_budget := 0;
  max_subscribers_per_id := 8; diagnostic_capacity := 16; correlation_capacity := 2; initial_stop_command_id := 0x8000;
  telemetry_capacity := 4; health_capacity := 16; source := "can"; interface := "can0"; transport_backpressure_budget := 3;
  external_capacity := 4 |}.
Definition another_command : received := IsFrame (plain_frame 0x100 [0x10; 0; 8; 1; 0; 0; 0; 0]).
Definition requeue_actions : list action :=
  start_actions ++ [ASend a_command; poll GotNothing; poll GotNothing; poll GotNothing; ASend another_command; APoll SendBackpressure GotNothing].

Lemma requeue_exceeds_the_capacity :
  ∃ s, acts one_place zero_clock zero_clock zero_time requeue_actions (init one_place) = Some s ∧
       length (command_queue (proto (bus_of s))) = 2%nat.
Proof.
  exists (evaluate one_place requeue_actions). split; [runs|vm_compute; reflexivity].
Qed.

(** ** A recovery that ends by an exception, and a shutdown after it *)

Definition recovering_actions : list action :=
  start_actions ++ repeat (poll (GotError false)) 3 ++ [ARecover].
Definition recovering_state : Sys := evaluate sample_config recovering_actions.
Lemma recovering_runs :
  acts sample_config zero_clock zero_clock zero_time recovering_actions (init sample_config) = Some recovering_state.
Proof. runs. Qed.

Definition escaped_state : Sys := {|
  bus_of := bus_of recovering_state; poller := poller recovering_state; threads := [] ++ option_list None ++ [];
  trace := trace recovering_state ++ [] |}.
Definition crashed_state : Sys :=
  default escaped_state (acts sample_config zero_clock zero_clock zero_time (AShutdown :: repeat AThread 2) escaped_state).
Lemma crashed_runs :
  acts sample_config zero_clock zero_clock zero_time (AShutdown :: repeat AThread 2) escaped_state = Some crashed_state.
Proof. runs. Qed.
