(* ===== verification/CanLifecycle.v ===== *)
(** * CAN bus adapter: who cleans up

    The lifecycle of [DeviceRuntime]: at any time at most one thread deactivates
    and cleans up the adapter, none while [recover] is inside the transport, and a
    clean runtime stays clean. *)

From Stdlib Require Import ZArith Ascii String SpecFloat.
From S2P Require Import Prelude PyVal Json CanWire CanState CanBus CanSystem CanScheduler.
Local Open Scope nat_scope.

(** ** Threads by their part in the lifecycle *)

(** [start] before its cleanup *)
Definition w_start (t : thread) : nat :=
  match t with
  | TConfigure _ | TConfigured _ _ | TActivating _ | TActivate _ | TOpening _ | TOpenRaised _ | TActivated _ _ | TFinish _ => 1
  | _ => 0
  end.
(** [_finish_start] and [_finalize_shutdown] in the cleanup *)
Definition w_finish (t : thread) : nat := match t with TClean (FinishStart _) _ => 1 | _ => 0 end.
Definition w_finalize (t : thread) : nat := match t with TClean Finalizer _ => 1 | _ => 0 end.
(** [recover] between [begin_operation] and [end_operation] *)
Definition w_operation (t : thread) : nat := match t with TRecovering _ | TRecovered _ | TEndOperation => 1 | _ => 0 end.

Definition count (w : thread → nat) (ts : list thread) : nat := sum_list_with w ts.
Definition weigh (w : thread → nat) (o : option thread) : nat := match o with Some t => w t | None => 0 end.
Definition flag (b : bool) : nat := if b then 1 else 0.

Lemma count_split w before t after : count w (before ++ t :: after) = w t + count w (before ++ after).
Proof. unfold count. rewrite !sum_list_with_app. simpl. lia. Qed.

Lemma count_option w before o after : count w (before ++ option_list o ++ after) = weigh w o + count w (before ++ after).
Proof. unfold count. rewrite !sum_list_with_app. destruct o; simpl; lia. Qed.

Lemma count_app w t1 t2 : count w (t1 ++ t2) = count w t1 + count w t2.
Proof. apply sum_list_with_app. Qed.

(** ** Ownership *)

Record owned (l : Lifecycle) (start finish finalize operation : nat) : Prop := {
  o_start : start + finish ≤ flag (lifecycle_operation l);
  o_clean : finish + finalize ≤ flag (cleanup_in_progress l);
  o_operation : operation ≤ active_operations l;
  o_new : rt_state l = DeviceRuntimeState.NEW →
    lifecycle_operation l = false ∧ cleanup_in_progress l = false ∧ active_operations l = 0;
  o_starting : lifecycle_operation l = true →
    rt_state l ≠ DeviceRuntimeState.NEW ∧ rt_state l ≠ DeviceRuntimeState.ACTIVE ∧ rt_state l ≠ DeviceRuntimeState.CLEANED ∧
    active_operations l = 0;
  o_cleaning : cleanup_in_progress l = true → rt_state l = DeviceRuntimeState.DEACTIVATING ∧ active_operations l = 0;
  o_finalize : 0 < finalize → lifecycle_operation l = false;
  o_begin : 0 < start → cleanup_in_progress l = false
}.

Definition owned_by (l : Lifecycle) (ts : list thread) : Prop :=
  owned l (count w_start ts) (count w_finish ts) (count w_finalize ts) (count w_operation ts).

(** The fields of the lifecycle that ownership is about *)
Record same_owner (l l' : Lifecycle) : Prop := {
  same_rt : rt_state l' = rt_state l;
  same_operation : lifecycle_operation l' = lifecycle_operation l;
  same_cleanup : cleanup_in_progress l' = cleanup_in_progress l;
  same_active : active_operations l' = active_operations l
}.

Lemma owned_same l l' a f z o : same_owner l l' → owned l a f z o → owned l' a f z o.
Proof. intros [H1 H2 H3 H4] []. by split; rewrite ?H1, ?H2, ?H3, ?H4. Qed.

(** ** The sections that leave the lifecycle alone *)

Section Sections.
Context (c : CanTransportConfig) (clock wall_clock : nat → option pyval) (time_monotonic : nat → spec_float).

Definition same_life {A} (m : bus A) : Prop := ∀ l, preserves (λ b, life b = l) m.

Create HintDb life.

Ltac life_tac :=
  repeat first
    [ progress (unfold same_life; intros) | assumption | solve [eauto 1 with life] | apply preserves_bind | apply preserves_ret | apply preserves_raise
    | apply preserves_get | apply preserves_require | apply preserves_of_option
    | match goal with H : ∀ _, preserves _ _ |- _ => apply H end
    | apply preserves_modify; intros; simpl; solve [assumption | repeat case_match; assumption] | case_match ].

Lemma life_lift {A} (o : outcome wire_exn A) : same_life (lift_wire o).
Proof. intros l. by destruct o; intros b. Qed.
Hint Extern 0 (preserves _ (lift_wire _)) => apply life_lift : life.
Lemma life_diagnostic code id : same_life (_record_diagnostic_locked c clock time_monotonic code id).
Proof. unfold _record_diagnostic_locked, _safe_monotonic_locked, read_clock, read_time. life_tac. Qed.
Hint Extern 0 (preserves _ (_record_diagnostic_locked _ _ _ _ _)) => apply life_diagnostic : life.
Lemma life_error off : same_life (_handle_transport_error c clock time_monotonic off).
Proof. unfold _handle_transport_error, remember_option, remember_timed_out. life_tac. Qed.
Hint Extern 0 (preserves _ (_handle_transport_error _ _ _ _)) => apply life_error : life.
Lemma life_backpressure : same_life (_handle_transport_backpressure c clock time_monotonic).
Proof. unfold _handle_transport_backpressure. life_tac. Qed.
Hint Extern 0 (preserves _ (_handle_transport_backpressure _ _ _)) => apply life_backpressure : life.
Lemma life_send x : same_life (send c clock time_monotonic x).
Proof. unfold send, submit_command, _admit_command_locked, _preempt_for_stop_locked, remember_timed_out. life_tac. Qed.
Lemma life_new_stop n : same_life (new_stop_frame n).
Proof. intros l. induction n as [|n IH]; simpl; life_tac. Qed.
Hint Extern 0 (preserves _ (new_stop_frame _)) => apply life_new_stop : life.
Lemma life_poll_begin : same_life (poll_begin c clock time_monotonic).
Proof.
  unfold poll_begin, _next_dispatch_locked, _new_stop_frame_locked, _retry_or_timeout_locked, remember_timed_out,
    _safe_monotonic_locked, read_clock, read_time. life_tac.
Qed.
Lemma life_poll_sent d o : same_life (poll_sent c clock time_monotonic d o).
Proof. unfold poll_sent, _record_dispatch_locked, _safe_monotonic_locked, read_clock, read_time. life_tac. Qed.
Lemma life_observe f : same_life (_observe_ingress_locked c clock wall_clock time_monotonic f).
Proof. unfold _observe_ingress_locked, ingress_time, read_clock, read_wall_clock, _fail_clock_locked. cbv zeta. life_tac. Qed.
Hint Extern 0 (preserves _ (_observe_ingress_locked _ _ _ _ _)) => apply life_observe : life.
Lemma life_record a : same_life (_make_external_record_locked c clock wall_clock time_monotonic a).
Proof. unfold _make_external_record_locked. cbv zeta. life_tac. Qed.
Hint Extern 0 (preserves _ (_make_external_record_locked _ _ _ _ _)) => apply life_record : life.
Lemma life_correlate w : same_life (_correlate_received_locked c clock time_monotonic w).
Proof.
  unfold _correlate_received_locked, correlate_telemetry, complete_request, unmatched, remember_completed. life_tac.
Qed.
Hint Extern 0 (preserves _ (_correlate_received_locked _ _ _ _)) => apply life_correlate : life.
Lemma life_ingress_main x : same_life (ingress_main c clock wall_clock time_monotonic x).
Proof. unfold ingress_main, ingress_valid, ingress_error_frame, _make_envelope_locked, take_telemetry. cbv zeta. life_tac. Qed.
Lemma life_ingress_finish v n : same_life (ingress_finish c clock wall_clock time_monotonic v n).
Proof.
  intros l. unfold ingress_finish. assert (H : ∀ o, preserves (λ b, life b = l) (repeat_diagnostic c clock time_monotonic n o)).
  { intros o. induction n; simpl; life_tac. }
  life_tac.
Qed.
Lemma life_frame_error : same_life (_handle_transport_frame_error c clock wall_clock time_monotonic).
Proof. unfold _handle_transport_frame_error. life_tac. Qed.

Lemma life_run {A} (m : bus A) b r b' : m b = (r, b') → same_life m → life b' = life b.
Proof. intros Hm Hl. specialize (Hl (life b) b eq_refl). by rewrite Hm in Hl. Qed.

Lemma receive_life o b pc b' : receive_step c clock wall_clock time_monotonic o b = (pc, b') → life b' = life b.
Proof.
  intros H. destruct o as [x| | | |off|]; simpl in H; [by injection H as _ <-..| | | |by injection H as _ <-].
  - destruct (_handle_transport_frame_error c clock wall_clock time_monotonic b) as [r b1] eqn:E.
    apply life_run in E; [|apply life_frame_error]. by destruct r; injection H as _ <-.
  - destruct (_handle_transport_backpressure c clock time_monotonic b) as [r b1] eqn:E.
    apply life_run in E; [|apply life_backpressure]. by destruct r; injection H as _ <-.
  - destruct (_handle_transport_error c clock time_monotonic off b) as [r b1] eqn:E.
    apply life_run in E; [|apply life_error]. by destruct r; injection H as _ <-.
Qed.

Lemma same_owner_eq l l' : l' = l → same_owner l l'.
Proof. by intros ->. Qed.

Lemma poll_owner b pc es b' pc' : poll_step c clock wall_clock time_monotonic b pc es b' pc' → same_owner (life b) (life b').
Proof.
  intros Hstep. destruct Hstep; try done.
  - eapply same_owner_eq, life_run; [eassumption|apply life_poll_begin].
  - eapply same_owner_eq, life_run; [eassumption|apply life_poll_begin].
  - eapply same_owner_eq, life_run; [eassumption|apply life_poll_sent].
  - eapply same_owner_eq, life_run; [eassumption|apply life_poll_sent].
  - by eapply same_owner_eq, receive_life.
  - eapply same_owner_eq, life_run; [eassumption|apply life_ingress_main].
  - eapply same_owner_eq, life_run; [eassumption|apply life_ingress_main].
  - eapply same_owner_eq, life_run; [eassumption|apply life_ingress_finish].
  - eapply same_owner_eq, life_run; [eassumption|apply life_ingress_finish].
  - apply life_run in H; [|apply life_error]. destruct r; [by rewrite H|]. unfold worker_dies. simpl. rewrite H. by case_match.
Qed.

(** ** Steps *)

(** The counts with one thread apart *)
Definition owned_with (l : Lifecycle) (o : option thread) (a f z n : nat) : Prop :=
  owned l (weigh w_start o + a) (weigh w_finish o + f) (weigh w_finalize o + z) (weigh w_operation o + n).

(** The states in which a thread of [start] still runs *)
Lemma owned_starting l t a f z n :
  owned_with l (Some t) a f z n → w_start t = 1 →
  lifecycle_operation l = true ∧ a = 0 ∧ f = 0 ∧ z = 0 ∧ n = 0 ∧ cleanup_in_progress l = false ∧ active_operations l = 0 ∧
  w_finish t = 0 ∧ w_finalize t = 0 ∧ w_operation t = 0.
Proof.
  intros [H1 H2 H3 _ H5 H6 H7 H8] Ht. simpl in *. destruct (lifecycle_operation l), (cleanup_in_progress l); simpl in *;
    try lia; destruct t; simpl in *; naive_solver lia.
Qed.

(** A section that leaves the lifecycle alone and keeps the part of its thread *)
Lemma owned_idle l l' t o a f z n :
  owned_with l (Some t) a f z n → l' = l →
  weigh w_start o = w_start t → weigh w_finish o = w_finish t → weigh w_finalize o = w_finalize t →
  weigh w_operation o = w_operation t → owned_with l' o a f z n.
Proof. unfold owned_with. by intros H -> -> -> -> ->. Qed.

(** A thread that ends by an exception leaves its marks behind *)
Lemma owned_dies l l' t a f z n : owned_with l (Some t) a f z n → l' = l → owned_with l' None a f z n.
Proof. intros [H1 H2 H3 H4 H5 H6 H7 H8] ->. simpl in *. split; simpl; try done; try lia; intros; [apply H7|apply H8]; lia. Qed.

Ltac by_cases := repeat case_match; simplify_eq; reflexivity.

Lemma thread_owned b t es b' o a f z n :
  thread_step c clock time_monotonic b t es b' o → owned_with (life b) (Some t) a f z n → owned_with (life b') o a f z n.
Proof.
  intros Hstep H. destruct Hstep.
  - by eapply owned_idle.
  - destruct (owned_starting _ _ _ _ _ _ H eq_refl) as (Hop & -> & -> & -> & -> & Hcl & Hac & _).
    unfold start_configured in H0. destruct H as [H1 H2 H3 H4 H5 H6 H7 H8].
    repeat case_match; simplify_eq/=; split; simpl in *; rewrite ?Hop, ?Hcl, ?Hac in *; naive_solver.
  - destruct (owned_starting _ _ _ _ _ _ H eq_refl) as (Hop & -> & -> & -> & -> & Hcl & Hac & _).
    unfold start_activating in H0. destruct H as [H1 H2 H3 H4 H5 H6 H7 H8].
    repeat case_match; simplify_eq/=; split; simpl in *; rewrite ?Hop, ?Hcl, ?Hac in *; naive_solver.
  - eapply owned_idle; try done. by injection H0 as _ <-.
  - eapply owned_idle; try done; [|by_cases..]. unfold activate_opened in H0. eapply life_run; [eassumption|]. life_tac.
  - by eapply owned_idle.
  - apply life_run in H0; [|apply life_error]. destruct r; [by eapply owned_idle|by eapply owned_dies].
  - destruct (owned_starting _ _ _ _ _ _ H eq_refl) as (Hop & -> & -> & -> & -> & Hcl & Hac & _).
    unfold start_activated in H0. destruct H as [H1 H2 H3 H4 H5 H6 H7 H8].
    case_match eqn:E; injection H0 as <- <-; split; simpl in *; rewrite ?Hop, ?Hcl, ?Hac in *; naive_solver.
  - destruct (owned_starting _ _ _ _ _ _ H eq_refl) as (Hop & -> & -> & -> & -> & Hcl & Hac & _).
    destruct H as [H1 H2 H3 H4 H5 H6 H7 H8]. injection H0 as <- _. split; simpl in *; rewrite ?Hop, ?Hcl, ?Hac in *; naive_solver.
  - injection H0 as <- <-. eapply owned_idle; try done; by_cases.
  - by eapply owned_idle.
  - by eapply owned_idle.
  - eapply owned_idle; try done; [|by_cases..]. unfold deactivate_closed in H0. eapply life_run; [eassumption|]. life_tac.
  - by eapply owned_idle.
  - apply life_run in H0; [|apply life_error]. destruct r; [by eapply owned_idle|by eapply owned_dies].
  - injection H0 as _ <-. by eapply owned_idle.
  - destruct H as [H1 H2 H3 H4 H5 H6 H7 H8]. simpl in *.
    destruct (lifecycle_operation (life b)) eqn:Hop; [|simpl in *; lia]. destruct (cleanup_in_progress (life b)) eqn:Hcl; [|simpl in *; lia].
    unfold finish_start_end. destruct requested, ok; split; simpl in *; try lia; naive_solver lia.
  - destruct H as [H1 H2 H3 H4 H5 H6 H7 H8]. simpl in *. assert (Hop : lifecycle_operation (life b) = false) by (apply H7; lia).
    destruct (cleanup_in_progress (life b)) eqn:Hcl; [|simpl in *; lia].
    unfold finalize_end. destruct ok; split; simpl in *; rewrite ?Hop in *; simpl in *; try lia; naive_solver lia.
  - injection H0 as _ <-. eapply owned_idle; try done; by_cases.
  - by eapply owned_idle.
  - injection H0 as <- _. eapply owned_same; [|eapply (owned_idle (life b) (life b)); [exact H|done|..]]; try done; by_cases.
  - eapply owned_idle; try done. eapply life_run; [eassumption|]. apply life_diagnostic.
  - eapply owned_idle; try done; by_cases.
  - destruct H as [H1 H2 H3 H4 H5 H6 H7 H8]. unfold finalize_begin in H0. repeat case_match; simplify_eq.
    match goal with E : _ || _ || _ = false |- _ => rewrite !orb_false_iff, Nat.ltb_ge in E; destruct E as ((Hop & Hac) & Hcl) end.
    match goal with E : negb _ = false |- _ => rewrite negb_false_iff, bool_decide_eq_true in E; rename E into Hrt end.
    rewrite Hop, Hcl in *. split; simpl in *; rewrite ?Hop, ?Hrt; try done; try lia. intros _. split; [done|lia].
  - by eapply owned_idle.
  - by eapply owned_idle.
  - apply life_run in H0; [|apply life_error]. destruct r; [by eapply owned_idle|by eapply owned_dies].
  - by eapply owned_dies.
  - by eapply owned_idle.
  - eapply owned_idle; try done. unfold recover_apply in H0. eapply life_run; [eassumption|]. life_tac.
  - injection H0 as <- <-. destruct H as [H1 H2 H3 H4 H5 H6 H7 H8]. simpl in *.
    case_match; split; simpl in *; try lia; naive_solver lia.
Qed.

Lemma call_owned b es b' ts th :
  call_step c clock time_monotonic b es b' ts → owned_by (life b) th → owned_by (life b') (th ++ ts).
Proof.
  intros Hstep H. unfold owned_by in *. rewrite !count_app.
  assert (Hsame : ∀ b1 ts1, life b1 = life b → (∀ w, count w ts1 = 0) → owned (life b1) (count w_start th + count w_start ts1)
    (count w_finish th + count w_finish ts1) (count w_finalize th + count w_finalize ts1) (count w_operation th + count w_operation ts1)).
  { intros b1 ts1 -> Hts. by rewrite !Hts, !Nat.add_0_r. }
  destruct Hstep.
  - unfold start_enter in H0. case_decide as E; [|done]. injection H0 as <-. destruct H as [H1 H2 H3 H4 H5 H6 H7 H8].
    destruct (H4 E) as (Hop & Hcl & Hac). rewrite Hop, Hcl in *. simpl in *.
    split; simpl; rewrite ?Hcl, ?Hac in *; simpl; try done; lia.
  - unfold shutdown_enter in H0. case_decide; [done|]. injection H0 as <-. destruct H as [J1 J2 J3 J4 J5 J6 J7 J8].
    split; simpl in *; rewrite ?Nat.add_0_r; naive_solver.
  - unfold recover_begin, begin_operation, bind, get in H0. simpl in H0. repeat case_match; try done. injection H0 as _ <-.
    destruct H as [J1 J2 J3 J4 J5 J6 J7 J8].
    split; simpl in *; rewrite ?Nat.add_0_r; try done; try lia; intros Hx; exfalso.
    + congruence.
    + destruct (J5 Hx) as (_ & ? & _). congruence.
    + destruct (J6 Hx). congruence.
  - apply Hsame; [|done]. eapply life_run; [eassumption|apply life_send].
  - apply Hsame; [|done]. unfold subscribe in H0. eapply life_run; [eassumption|]. life_tac.
  - apply Hsame; [|done]. unfold unsubscribe in H0. eapply life_run; [eassumption|]. life_tac.
  - apply Hsame; [|done]. unfold take_external in H0. eapply life_run; [eassumption|]. life_tac.
  - unfold count at 2 4 6 8. simpl. rewrite !Nat.add_0_r. eapply owned_same; [|exact H]. done.
Qed.

Lemma step_owned s s' :
  sys_step c clock wall_clock time_monotonic s s' → owned_by (life (bus_of s)) (threads s) → owned_by (life (bus_of s')) (threads s').
Proof.
  intros Hstep H; destruct Hstep; simpl.
  - eapply owned_same; [by eapply poll_owner|done].
  - unfold owned_by in *. match goal with E : threads _ = _ |- _ => rewrite E in H end.
    rewrite !count_split in H. rewrite !count_option. by eapply thread_owned.
  - by eapply call_owned.
Qed.

Lemma reachable_owned s :
  reachable_sys c clock wall_clock time_monotonic s → owned_by (life (bus_of s)) (threads s).
Proof.
  intros H. unfold reachable_sys in H. remember (init c) as s0 eqn:E.
  assert (H0 : owned_by (life (bus_of s0)) (threads s0)) by (subst; by split). clear E.
  induction H; eauto using step_owned.
Qed.

(** ** A clean runtime *)

Lemma thread_cleaned b t es b' o :
  thread_step c clock time_monotonic b t es b' o → rt_state (life b) = DeviceRuntimeState.CLEANED →
  w_start t + w_finish t + w_finalize t = 0 → rt_state (life b') = DeviceRuntimeState.CLEANED ∧ EClose ∉ es.
Proof.
  intros Hstep Hrt Hw. destruct Hstep; simpl in *; try lia; try (destruct o; simpl in *; lia); try (split; [|set_solver]); try done.
  - by injection H as _ <-.
  - by injection H as <- _.
  - by rewrite (life_run _ _ _ _ H (life_diagnostic _ _)).
  - unfold finalize_begin in H. by rewrite decide_True in H.
  - by rewrite (life_run _ _ _ _ H (life_error _)).
  - unfold recover_apply, bind, get in H. simpl in H. unfold operation_is_current in H. rewrite Hrt in H.
    rewrite bool_decide_false in H by done. cbn [andb] in H. injection H as <- <-. split; [done|set_solver].
  - injection H as _ <-. done.
Qed.

Lemma poll_no_close b pc es b' pc' : poll_step c clock wall_clock time_monotonic b pc es b' pc' → EClose ∉ es.
Proof.
  intros []; try set_solver.
  - destruct o as [[d|]|]; simpl; set_solver.
  - unfold ingress_events. repeat case_match; set_solver.
  - case_match; set_solver.
Qed.

Lemma life_subscribe id h : same_life (subscribe c id h).
Proof. unfold subscribe. life_tac. Qed.
Lemma life_unsubscribe id h : same_life (unsubscribe id h).
Proof. unfold unsubscribe. life_tac. Qed.
Lemma life_take_external : same_life take_external.
Proof. unfold take_external. life_tac. Qed.

Lemma call_cleaned b es b' ts :
  call_step c clock time_monotonic b es b' ts → rt_state (life b) = DeviceRuntimeState.CLEANED →
  rt_state (life b') = DeviceRuntimeState.CLEANED ∧ EClose ∉ es.
Proof.
  intros [] Hrt.
  - unfold start_enter in H. rewrite decide_False in H by by rewrite Hrt. done.
  - unfold shutdown_enter in H. by rewrite decide_True in H.
  - unfold recover_begin, begin_operation, bind, get in H. simpl in H. repeat case_match; try done. congruence.
  - rewrite (life_run _ _ _ _ H (life_send _)). split; [done|]. repeat case_match; set_solver.
  - split; [|set_solver]. by rewrite (life_run _ _ _ _ H (life_subscribe _ _)).
  - split; [|set_solver]. by rewrite (life_run _ _ _ _ H (life_unsubscribe _ _)).
  - split; [|set_solver]. by rewrite (life_run _ _ _ _ H life_take_external).
  - split; [done|set_solver].
Qed.

(** Nothing of the lifecycle is left to do *)
Lemma cleaned_threads l a f z n :
  owned l a f z n → rt_state l = DeviceRuntimeState.CLEANED → a = 0 ∧ f = 0 ∧ z = 0.
Proof.
  intros [H1 H2 H3 H4 H5 H6 H7 H8] Hrt. destruct (lifecycle_operation l); [by destruct (H5 eq_refl) as (_ & _ & ? & _)|].
  destruct (cleanup_in_progress l); [destruct (H6 eq_refl); congruence|]. simpl in *. lia.
Qed.

Lemma step_cleaned s s' :
  sys_step c clock wall_clock time_monotonic s s' → owned_by (life (bus_of s)) (threads s) →
  rt_state (life (bus_of s)) = DeviceRuntimeState.CLEANED →
  rt_state (life (bus_of s')) = DeviceRuntimeState.CLEANED ∧ ∃ es, trace s' = trace s ++ es ∧ EClose ∉ es.
Proof.
  intros Hstep Ho Hrt. destruct Hstep; simpl.
  - rewrite (same_rt _ _ (poll_owner _ _ _ _ _ H)). split; [done|]. exists es. by split; [|eapply poll_no_close].
  - unfold owned_by in Ho. rewrite H, !count_split in Ho. apply cleaned_threads in Ho as (? & ? & ?); [|done].
    destruct (thread_cleaned _ _ _ _ _ H0 Hrt) as [? ?]; [lia|]. split; [done|]. by exists es.
  - destruct (call_cleaned _ _ _ _ H Hrt). split; [done|]. by exists es.
Qed.

(** ** An operation that never ended *)

Ltac same_life_of H := first
  [ rewrite (life_run _ _ _ _ H (life_error _)) | rewrite (life_run _ _ _ _ H (life_diagnostic _ _))
  | rewrite (life_run _ _ _ _ H ltac:(unfold activate_opened; life_tac))
  | rewrite (life_run _ _ _ _ H ltac:(unfold deactivate_closed; life_tac))
  | rewrite (life_run _ _ _ _ H ltac:(unfold recover_apply; life_tac)) ].

(** A section of a lifecycle thread never takes more off the count of operations
    than its thread stood for, and only a cleanup makes the runtime CLEANED *)
Lemma thread_leaks b t es b' o :
  thread_step c clock time_monotonic b t es b' o →
  active_operations (life b) + weigh w_operation o ≤ active_operations (life b') + w_operation t ∧
  (rt_state (life b') = DeviceRuntimeState.CLEANED →
   rt_state (life b) = DeviceRuntimeState.CLEANED ∨ 0 < w_finish t + w_finalize t).
Proof.
  intros Hstep. destruct Hstep; simpl; try (split; [lia|by auto]);
    try (same_life_of H; split; [destruct r as [[]|]; simpl; lia|by auto]);
    try (injection H as <- <-; simpl; split; [repeat case_match; simpl; lia|by auto]).
  - unfold start_configured in H. repeat case_match; simplify_eq/=; (split; [lia|naive_solver]).
  - unfold start_activating in H. repeat case_match; simplify_eq/=; (split; [lia|naive_solver]).
  - unfold start_activated in H. repeat case_match; simplify_eq/=; (split; [lia|naive_solver]).
  - unfold finish_start_end. destruct requested, ok; simpl; split; try lia; auto.
  - split; [|by auto]. case_match; simpl; lia.
  - unfold finalize_begin in H. repeat case_match; simplify_eq/=. split; [lia|by auto].
Qed.
End Sections.

Section Leak.
Context (c : CanTransportConfig) (clock wall_clock : nat → option pyval) (time_monotonic : nat → spec_float).

(** An operation was begun whose thread is gone *)
Record leaking (s : Sys) : Prop := {
  l_owned : owned_by (life (bus_of s)) (threads s);
  l_leak : count w_operation (threads s) < active_operations (life (bus_of s));
  l_rt : rt_state (life (bus_of s)) ≠ DeviceRuntimeState.CLEANED
}.

Lemma call_leaks b es b' ts :
  call_step c clock time_monotonic b es b' ts →
  active_operations (life b) + count w_operation ts ≤ active_operations (life b') ∧
  (rt_state (life b') = DeviceRuntimeState.CLEANED → rt_state (life b) = DeviceRuntimeState.CLEANED).
Proof.
  intros Hstep. destruct Hstep; simpl; try (split; [lia|done]).
  - unfold start_enter in H. case_decide; simplify_eq/=. by split; [lia|].
  - unfold shutdown_enter in H. case_decide; simplify_eq/=. by split; [lia|].
  - unfold recover_begin, begin_operation, bind, get in H. simpl in H. repeat case_match; try done. injection H as _ <-. simpl.
    split; [lia|done].
  - rewrite (life_run _ _ _ _ H (life_send _ _ _ _)). by split; [lia|].
  - rewrite (life_run _ _ _ _ H (life_subscribe _ _ _)). by split; [lia|].
  - rewrite (life_run _ _ _ _ H (life_unsubscribe _ _)). by split; [lia|].
  - rewrite (life_run _ _ _ _ H life_take_external). by split; [lia|].
Qed.

Lemma step_leaking s s' : sys_step c clock wall_clock time_monotonic s s' → leaking s → leaking s'.
Proof.
  intros Hstep [Ho Hl Hr]. split; [by eapply step_owned| |]; destruct Hstep; simpl.
  - by rewrite (same_active _ _ (poll_owner _ _ _ _ _ _ _ _ _ H)).
  - destruct (thread_leaks _ _ _ _ _ _ _ _ H0) as [Hk _]. rewrite H, count_split in Hl. rewrite count_option. lia.
  - destruct (call_leaks _ _ _ _ H) as [Hk _]. rewrite count_app. lia.
  - by rewrite (same_rt _ _ (poll_owner _ _ _ _ _ _ _ _ _ H)).
  - intros Hc. destruct (thread_leaks _ _ _ _ _ _ _ _ H0) as [_ Hk]. destruct (Hk Hc) as [|Hw]; [done|].
    destruct Ho as [_ H2 _ _ _ H6 _ _]. rewrite H, !count_split in H2.
    destruct (cleanup_in_progress _); [|simpl in H2; lia]. destruct (H6 eq_refl). lia.
  - intros Hc. by apply Hr, (call_leaks _ _ _ _ H).
Qed.
End Leak.

Section Theorems.
Context (c : CanTransportConfig) (clock wall_clock : nat → option pyval) (time_monotonic : nat → spec_float).
Abbreviation reachable := (reachable_sys c clock wall_clock time_monotonic).

(** C26: However [start], [shutdown], [recover] and the end of an operation race,
    at most one thread is in the deactivate-and-cleanup sequence; while one is,
    the runtime is DEACTIVATING, no [start] goes on opening the port, and no
    [recover] is inside the transport. *)
Theorem cleanup_has_one_owner (s : Sys) :
  reachable s →
  let cleaners := count w_finish (threads s) + count w_finalize (threads s) in
  cleaners ≤ 1 ∧
  (0 < cleaners → rt_state (life (bus_of s)) = DeviceRuntimeState.DEACTIVATING ∧
     count w_start (threads s) = 0 ∧ count w_operation (threads s) = 0).
Proof.
  intros H cleaners. destruct (reachable_owned _ _ _ _ _ H) as [H1 H2 H3 H4 H5 H6 H7 H8]. fold cleaners in H2.
  destruct (cleanup_in_progress _); simpl in H2; [|lia]. split; [lia|]. intros _. destruct (H6 eq_refl) as [Hrt Hac].
  split_and!; [done| |lia]. destruct (lifecycle_operation _) eqn:E; simpl in H1; [|lia].
  unfold cleaners in H2. destruct (count w_finalize (threads s)); [lia|]. by specialize (H7 ltac:(lia)).
Qed.

(** A runtime that is CLEANED stays CLEANED, and its port is never closed
    again, whatever is called afterwards. *)
Theorem cleaned_is_final (s s' : Sys) :
  reachable s → rt_state (life (bus_of s)) = DeviceRuntimeState.CLEANED →
  rtc (sys_step c clock wall_clock time_monotonic) s s' →
  rt_state (life (bus_of s')) = DeviceRuntimeState.CLEANED ∧ ∃ es, trace s' = trace s ++ es ∧ EClose ∉ es.
Proof.
  intros Hr Hrt Hsteps. apply reachable_owned in Hr.
  induction Hsteps as [s|s s1 s' Hstep _ IH].
  - split; [done|]. exists []. split; [by rewrite app_nil_r|set_solver].
  - destruct (step_cleaned _ _ _ _ _ _ Hstep Hr Hrt) as (Hrt1 & es & E & Hes).
    destruct IH as (Hrt' & es' & E' & Hes'); [by eapply step_owned|done|]. split; [done|].
    exists (es ++ es'). split; [by rewrite E', E, app_assoc|set_solver].
Qed.

(** An exception that leaves [recover], because it is no [CanTransportError],
    skips [end_operation]: from then on no [shutdown] ever makes the runtime
    CLEANED. *)
Theorem escaped_recover_blocks_cleanup (s s' : Sys) (token : nat) (before after : list thread) :
  reachable s → threads s = before ++ TRecovering token :: after →
  rt_state (life (bus_of s)) ≠ DeviceRuntimeState.CLEANED →
  rtc (sys_step c clock wall_clock time_monotonic)
    {| bus_of := bus_of s; poller := poller s; threads := before ++ option_list None ++ after; trace := trace s ++ [] |} s' →
  rt_state (life (bus_of s')) ≠ DeviceRuntimeState.CLEANED.
Proof.
  intros Hs Ht Hrt Hsteps. apply reachable_owned in Hs.
  assert (Hstep : sys_step c clock wall_clock time_monotonic s
    {| bus_of := bus_of s; poller := poller s; threads := before ++ option_list None ++ after; trace := trace s ++ [] |}).
  { eapply sys_thread; [done|]. apply step_recover_other. }
  assert (H : leaking {| bus_of := bus_of s; poller := poller s; threads := before ++ option_list None ++ after; trace := trace s ++ [] |}).
  { split; [by eapply step_owned| |done]. simpl. destruct Hs as [_ _ H3 _ _ _ _ _]. rewrite Ht, count_split in H3. simpl in H3. lia. }
  clear Hstep. apply (l_rt s'). induction Hsteps; eauto using step_leaking.
Qed.
End Theorems.

Lemma cleanup_has_one_owner_witness :
  count w_finalize (threads cleaning_state) = 1 ∧
  rt_state (life (bus_of cleaning_state)) = DeviceRuntimeState.DEACTIVATING ∧ count w_operation (threads cleaning_state) = 0.
Proof.
  split; [vm_compute; reflexivity|].
  destruct (cleanup_has_one_owner sample_config zero_clock zero_clock zero_time cleaning_state
    (acts_rtc _ _ _ _ _ _ _ cleaning_runs)) as [_ H].
  destruct H as (H1 & _ & H3); [vm_compute; lia|]. exact (conj H1 H3).
Defined.

Lemma cleaned_is_final_witness :
  rt_state (life (bus_of cleaned_state)) = DeviceRuntimeState.CLEANED ∧
  rt_state (life (bus_of after_cleaned_state)) = DeviceRuntimeState.CLEANED.
Proof.
  assert (E : rt_state (life (bus_of cleaned_state)) = DeviceRuntimeState.CLEANED) by (vm_compute; reflexivity).
  split; [exact E|].
  exact (proj1 (cleaned_is_final sample_config zero_clock zero_clock zero_time cleaned_state after_cleaned_state
    (acts_rtc _ _ _ _ _ _ _ cleaned_runs) E (acts_rtc _ _ _ _ _ _ _ after_cleaned_runs))).
Defined.

Lemma escaped_recover_blocks_cleanup_witness :
  threads recovering_state = [] ++ TRecovering 1 :: [] ∧
  rt_state (life (bus_of crashed_state)) ≠ DeviceRuntimeState.CLEANED.
Proof.
  assert (E : threads recovering_state = [] ++ TRecovering 1 :: []) by (vm_compute; reflexivity).
  split; [exact E|].
  refine (escaped_recover_blocks_cleanup sample_config zero_clock zero_clock zero_time recovering_state crashed_state 1 [] []
    (acts_rtc _ _ _ _ _ _ _ recovering_runs) E _ (acts_rtc _ _ _ _ _ _ _ crashed_runs)).
  vm_compute. discriminate.
Defined.
