(* ===== verification/CanRefinement.v ===== *)
(** * CAN bus adapter: every section makes a move

    What each section of [CanBus] changes, and the abstract request machine.
    Each section of [CanBus] that touches the protocol state is one [move] of the
    abstract machine, whether it returns or raises. *)

From Stdlib Require Import ZArith Ascii String SpecFloat.
From S2P Require Import Prelude PyVal Json CanWire CanWireTheorems CanState CanBus CanSystem.
Local Open Scope prog_scope.
Local Open Scope Z_scope.

(** ** Request frames *)

(** A frame that [send] or [_new_stop_frame_locked] decoded *)
Definition genuine (w : CanWireFrame) : Prop :=
  decode_can_frame (IsFrame (frame w)) = Ok w ∧ _OUTBOUND_KINDS (kind w) = true.

Definition same_request (w w' : CanWireFrame) : Prop :=
  kind w' = kind w ∧ command_id w' = command_id w ∧ opcode w' = opcode w.

Lemma decode_Ok f w :
  decode_can_frame (IsFrame f) = Ok w ↔ ∃ k d, frame_envelope f = Ok (k, d) ∧ decode_payload f k d = Some w.
Proof.
  cbn [decode_can_frame]. rewrite let_Ok. split.
  - intros ([k d] & He & H). cbn [fst snd] in H. case_match; [|done]. simplify_eq. eauto.
  - intros (k & d & He & H). exists (k, d). cbn [fst snd]. by rewrite H.
Qed.

Lemma payload_frame f k d w : decode_payload f k d = Some w → frame w = f ∧ kind w = k.
Proof.
  destruct d as [|b0 [|b1 [|b2 [|b3 [|b4 [|b5 [|b6 [|b7 [|]]]]]]]]]; try done. cbn [decode_payload].
  destruct k; repeat (case_match; try done); by intros [= <-].
Qed.

Lemma decode_genuine x w : decode_can_frame x = Ok w → _OUTBOUND_KINDS (kind w) = true → genuine w.
Proof.
  intros H Hk. destruct x as [f|]; [|done]. pose proof H as (k & d & _ & Hp)%decode_Ok.
  split; [|done]. by destruct (payload_frame _ _ _ _ Hp) as [-> _].
Qed.

(** The payload of a request *)
Lemma request_payload f k d w :
  _OUTBOUND_KINDS k = true →
  decode_payload f k d = Some w ↔
  ∃ b1 b2 op n, d = [MCU_WIRE_VERSION_V1; b1; b2; op; n; 0; 0; 0] ∧
    in_partition (bool_decide (k = CanFrameKind.STOP)) (from_bytes_big [b1; b2]) op = true ∧
    w = request_frame f k (from_bytes_big [b1; b2]) op n.
Proof.
  intros Hk. split.
  - destruct d as [|b0 [|b1 [|b2 [|b3 [|b4 [|b5 [|b6 [|b7 [|]]]]]]]]]; try done. cbn [decode_payload]. cbv zeta.
    destruct (b0 =? MCU_WIRE_VERSION_V1) eqn:E; [|done]. apply Z.eqb_eq in E as ->. cbn [negb].
    destruct k; try done; (destruct ((b5 =? 0) && (b6 =? 0) && (b7 =? 0)) eqn:E; [|done]);
      rewrite !andb_true_iff, !Z.eqb_eq in E; destruct E as ((-> & ->) & ->); cbn [negb];
      (case_match eqn:P; [|done]); intros [= <-]; by exists b1, b2, b3, b4.
  - intros (b1 & b2 & op & n & -> & P & ->). cbn [decode_payload]. rewrite P. by destruct k.
Qed.

Lemma genuine_request w :
  genuine w → ∃ id op n, w = request_frame (frame w) (kind w) id op n.
Proof.
  intros [H Hk]. apply decode_Ok in H as (k & d & _ & Hp). destruct (payload_frame _ _ _ _ Hp) as [_ Hk']. rewrite Hk' in Hk.
  apply request_payload in Hp as (b1 & b2 & op & n & _ & _ & Hw); [|done]. rewrite Hk'. eauto.
Qed.

Lemma genuine_response_key w : genuine w → ∃ k, _response_key w = Some k.
Proof. intros (id & op & n & ->)%genuine_request. by eexists. Qed.

Lemma genuine_retry w : genuine w → ∃ n, retry_count w = Some n.
Proof. intros (id & op & n & ->)%genuine_request. by exists n. Qed.

(** A retry is the same request with another count *)
Lemma with_retry_count_genuine w n :
  genuine w → ∃ w', _with_retry_count w n = Ok w' ∧ genuine w' ∧ same_request w w' ∧ retry_count w' = Some n.
Proof.
  intros [H Hk]. apply decode_Ok in H as (k & d & He & Hp). destruct (payload_frame _ _ _ _ Hp) as [_ Hk']. rewrite Hk' in Hk.
  apply request_payload in Hp as (b1 & b2 & op & n0 & -> & P & Hw); [|done].
  apply frame_envelope_Ok in He as (id & Hid & Hki & Hd & Hlen & C). unfold _with_retry_count. rewrite Hd.
  match goal with |- context [decode_can_frame (IsFrame ?f)] => set (f' := f) end.
  assert (Hdec : decode_can_frame (IsFrame f') = Ok (request_frame f' k (from_bytes_big [b1; b2]) op n)).
  { apply decode_Ok. exists k, [MCU_WIRE_VERSION_V1; b1; b2; op; n; 0; 0; 0]. split.
    - apply frame_envelope_Ok. exists id. split_and!; try done. destruct C. by split; [..|left|left|left|left|left].
    - apply request_payload; [done|]. by exists b1, b2, op, n. }
  eexists. split; [done|]. split; [by eapply decode_genuine|]. by rewrite Hw.
Qed.

(** ** Sections *)

(** From lifecycle [l] and protocol state [p], [m] returns into [Q] or raises
    into [R] *)
Definition wpc {A} (m : bus A) (Q : A → Lifecycle → Protocol → Prop) (R : Lifecycle → Protocol → Prop)
    (l : Lifecycle) (p : Protocol) : Prop :=
  ∀ b, life b = l → proto b = p →
  match m b with (Ok a, b') => Q a (life b') (proto b') | (Raise _, b') => R (life b') (proto b') end.

Lemma wpc_ret {A} (a : A) Q R l p : Q a l p → wpc (ret a) Q R l p.
Proof. by intros H b <- <-. Qed.

Lemma wpc_raise {A} e (Q : A → _) (R : _ → _ → Prop) l p : R l p → wpc (raise e) Q R l p.
Proof. by intros H b <- <-. Qed.

Lemma wpc_bind {A B} (m : bus A) (k : A → bus B) Q R l p :
  wpc m (λ a l p, wpc (k a) Q R l p) R l p → wpc (bind m k) Q R l p.
Proof.
  intros H b Hl Hp. unfold bind. specialize (H b Hl Hp). destruct (m b) as [[a|e] b']; [|done]. by apply H.
Qed.

Lemma wpc_mono {A} (m : bus A) (Q Q' : A → _ → _ → Prop) (R R' : _ → _ → Prop) l p :
  wpc m Q R l p → (∀ a l p, Q a l p → Q' a l p) → (∀ l p, R l p → R' l p) → wpc m Q' R' l p.
Proof. intros H HQ HR b Hl Hp. specialize (H b Hl Hp). destruct (m b) as [[a|e] b']; auto. Qed.

Lemma wpc_get Q R l p : (∀ b, life b = l → proto b = p → Q b l p) → wpc get Q R l p.
Proof. intros H b Hl Hp. simpl. rewrite Hl, Hp. by apply H. Qed.

Lemma wpc_modify f (Q : () → _ → _ → Prop) R l p :
  (∀ b, life b = l → proto b = p → Q () (life (f b)) (proto (f b))) → wpc (modify f) Q R l p.
Proof. intros H b Hl Hp. by apply H. Qed.

Lemma wpc_on_proto f (Q : () → _ → _ → Prop) R l p : Q () l (f p) → wpc (modify (on_proto f)) Q R l p.
Proof. intros H. apply wpc_modify. by intros b <- <-. Qed.

Lemma wpc_on_planes f (Q : () → _ → _ → Prop) R l p : Q () l p → wpc (modify (on_planes f)) Q R l p.
Proof. intros H. apply wpc_modify. by intros b <- <-. Qed.

Lemma wpc_on_ingress f (Q : () → _ → _ → Prop) R l p : Q () l p → wpc (modify (on_ingress f)) Q R l p.
Proof. intros H. apply wpc_modify. by intros b <- <-. Qed.

Lemma wpc_of_option {A} (o : option A) e Q (R : _ → _ → Prop) l p :
  (∀ a, o = Some a → Q a l p) → R l p → wpc (of_option o e) Q R l p.
Proof. intros H HR. destruct o; [by apply wpc_ret, H|by apply wpc_raise]. Qed.

Lemma wpc_require b e (Q : () → _) (R : _ → _ → Prop) l p : (b = true → Q () l p) → R l p → wpc (require b e) Q R l p.
Proof. intros H HR. destruct b; [by apply wpc_ret, H|by apply wpc_raise]. Qed.

Lemma wpc_lift {A} (o : outcome wire_exn A) Q (R : _ → _ → Prop) l p :
  (∀ a, o = Ok a → Q a l p) → R l p → wpc (lift_wire o) Q R l p.
Proof. intros H HR. destruct o; [by apply wpc_ret, H|by apply wpc_raise]. Qed.

(** A section that leaves the lifecycle and the protocol state alone *)
Definition neutral {A} (m : bus A) : Prop := ∀ b, life (m b).2 = life b ∧ proto (m b).2 = proto b.

Lemma wpc_neutral {A} (m : bus A) (Q : A → _ → _ → Prop) (R : _ → _ → Prop) l p :
  neutral m → (∀ a, Q a l p) → R l p → wpc m Q R l p.
Proof.
  intros Hm HQ HR b <- <-. destruct (Hm b) as [H1 H2]. destruct (m b) as [[a|e] b']; simpl in *; rewrite H1, H2; [apply HQ|done].
Qed.

Lemma neutral_ret {A} (a : A) : neutral (ret a).
Proof. by intros b. Qed.
Lemma neutral_raise {A} e : neutral (A:=A) (raise e).
Proof. by intros b. Qed.
Lemma neutral_get : neutral get.
Proof. by intros b. Qed.
Lemma neutral_bind {A B} (m : bus A) (k : A → bus B) : neutral m → (∀ a, neutral (k a)) → neutral (bind m k).
Proof.
  intros Hm Hk b. unfold bind. destruct (Hm b) as [H1 H2]. destruct (m b) as [[a|e] b']; simpl in *; [|done].
  destruct (Hk a b') as [H3 H4]. by rewrite H3, H4.
Qed.
Lemma neutral_lift {A} (o : outcome wire_exn A) : neutral (lift_wire o).
Proof. by destruct o; intros b. Qed.
Lemma neutral_of_option {A} (o : option A) e : neutral (of_option o e).
Proof. by destruct o; intros b. Qed.
Lemma neutral_require b e : neutral (require b e).
Proof. by destruct b; split. Qed.
Lemma neutral_modify (f : Bus → Bus) : (∀ b, life (f b) = life b ∧ proto (f b) = proto b) → neutral (modify f).
Proof. intros H b. apply H. Qed.

Create HintDb neutral.
#[export] Hint Resolve neutral_ret neutral_raise neutral_get neutral_bind neutral_lift neutral_of_option neutral_require
  neutral_modify : neutral.
#[export] Hint Extern 1 (life _ = life _ ∧ proto _ = proto _) => split; reflexivity : neutral.

(** Decomposes a program into its binds and cases; neutral leaves are closed *)
Ltac neutral_tac :=
  repeat first
    [ progress (intros) | apply neutral_bind | apply neutral_ret | apply neutral_raise | apply neutral_get
    | apply neutral_lift | apply neutral_of_option | apply neutral_require
    | solve [eauto 1 with neutral] | apply neutral_modify; intros; split; reflexivity | case_match ].

Section Proofs.
Context (c : CanTransportConfig) (clock wall_clock : nat → option pyval) (time_monotonic : nat → spec_float).

Lemma neutral_safe_monotonic : neutral (_safe_monotonic_locked clock time_monotonic).
Proof. unfold _safe_monotonic_locked, read_clock, read_time. neutral_tac. Qed.
Hint Resolve neutral_safe_monotonic : neutral.

Lemma neutral_diagnostic code id : neutral (_record_diagnostic_locked c clock time_monotonic code id).
Proof. unfold _record_diagnostic_locked. neutral_tac. Qed.
Hint Resolve neutral_diagnostic : neutral.
End Proofs.
#[export] Hint Resolve neutral_safe_monotonic neutral_diagnostic : neutral.

Local Open Scope prog_scope.
Local Open Scope Z_scope.

Record Core := core_at {
  k_link : CanLinkState.t;
  k_command : option PendingRequest;
  k_stop : option PendingRequest;
  k_sending : option Dispatch;
  k_queue : list CanWireFrame
}.

Definition core (p : Protocol) : Core :=
  core_at (link p) (pending_command p) (pending_stop p) (dispatching p) (command_queue p).

(** No request anywhere *)
Definition quiet (l : CanLinkState.t) : Core := core_at l None None None [].

Definition carries_traffic (l : CanLinkState.t) : Prop := l = CanLinkState.ACTIVE ∨ l = CanLinkState.STOPPING.

Definition request (k : CanFrameKind.t) (w : CanWireFrame) : Prop := genuine w ∧ kind w = k.

(** The dispatch repeats the pending request *)
Definition repeats (r : PendingRequest) (d : Dispatch) : Prop :=
  is_retry d = true ∧ genuine (dispatch_frame d) ∧ same_request (wire_frame r) (dispatch_frame d).

(** The acknowledgement answers a transmission of the pending request *)
Definition answers (r : PendingRequest) (w : CanWireFrame) : Prop :=
  ∃ n, _correlation_key w = _response_key (wire_frame r) ∧ retry_count w = Some n ∧ n ∈ sent_retry_counts r.

Definition accepted (w : CanWireFrame) : Prop := result_code w = Some _WireResult.ACCEPTED.

(** What a fault makes of the link; a link that was shut down stays so *)
Definition faults (l l' : CanLinkState.t) : Prop :=
  if decide (l = CanLinkState.SHUTDOWN) then l' = CanLinkState.SHUTDOWN
  else l' = CanLinkState.BUS_OFF ∨ l' = CanLinkState.LINK_LOST.

(** The link after [deactivate] or a shutdown request *)
Definition taken_down (l l' : CanLinkState.t) : Prop :=
  l' = CanLinkState.SHUTDOWN ∨ l' = l ∧ (l = CanLinkState.BUS_OFF ∨ l = CanLinkState.LINK_LOST).

(** How far the runtime is *)
Inductive mode : Type := Starting | Running | Ending.
#[global] Instance mode_eq_dec : EqDecision mode.
Proof. solve_decision. Defined.

Definition mode_of (r : DeviceRuntimeState.t) : mode :=
  match r with
  | DeviceRuntimeState.NEW | DeviceRuntimeState.CONFIGURING | DeviceRuntimeState.CONFIGURED | DeviceRuntimeState.ACTIVATING => Starting
  | DeviceRuntimeState.ACTIVE => Running
  | _ => Ending
  end.

(** A section under the lock that chooses no frame and records no transmission *)
Inductive move (cap : nat) (m : mode) : Core → list event → Core → Prop :=
| m_idle s : move cap m s [] s
(** A fault drops every request *)
| m_fault s l : faults (k_link s) l → move cap m s [] (quiet l)
(** Opening and closing the port *)
| m_open l l' : m ≠ Running → (l' = CanLinkState.ACTIVE → m = Starting) → move cap m (quiet l) [] (quiet l')
| m_down s l : m = Ending → taken_down (k_link s) l → move cap m s [] (quiet l)
| m_cleanup s : m = Ending → move cap m s [] (quiet (k_link s))
(** Admission *)
| m_admit pc ps d q w :
    m = Running → request CanFrameKind.COMMAND w → (length q < cap)%nat →
    move cap m (core_at CanLinkState.ACTIVE pc ps d q) [EAdmit w] (core_at CanLinkState.ACTIVE pc ps d (q ++ [w]))
| m_preempt s w :
    m = Running → carries_traffic (k_link s) → request CanFrameKind.STOP w → k_stop s = None →
    move cap m s [EAdmit w] (core_at CanLinkState.STOPPING None None None [w])
| m_preempt_raise s :
    m = Running → carries_traffic (k_link s) → k_stop s = None → move cap m s [] (quiet CanLinkState.STOPPING)
(** The end of a request that was not answered *)
| m_command_timeout_raise l r d0 q :
    carries_traffic l → move cap m (core_at l (Some r) None d0 q) [] (core_at l None None d0 [])
| m_stop_timeout l pc r d0 q :
    carries_traffic l → move cap m (core_at l pc (Some r) d0 q) [] (core_at CanLinkState.LINK_LOST pc None d0 [])
(** The transport did not take the frame *)
| m_unsent l pc ps d q : move cap m (core_at l pc ps d q) [] (core_at l pc ps None q)
| m_requeue l d q :
    move cap m (core_at l None None (Some d) q) []
      (core_at l None None None (dispatch_frame d :: (if decide (kind (dispatch_frame d) = CanFrameKind.STOP) then [] else q)))
(** Acknowledgement, while nothing is being sent *)
| m_ack l r ps q w :
    answers r w → accepted w → move cap m (core_at l (Some r) ps None q) [EConfirm w] (core_at l None ps None q)
| m_ack_rejected l r ps q w :
    answers r w → ¬ accepted w → move cap m (core_at l (Some r) ps None q) [] (core_at CanLinkState.LINK_LOST None ps None [])
| m_stop_ack l pc r q w :
    answers r w → accepted w →
    move cap m (core_at l pc (Some r) None q) [EConfirm w] (core_at CanLinkState.SAFE_STOPPED pc None None [])
| m_stop_ack_rejected l pc r q w :
    answers r w → ¬ accepted w → move cap m (core_at l pc (Some r) None q) [] (core_at CanLinkState.LINK_LOST pc None None [])
| m_recover s :
    m = Running → k_link s = CanLinkState.BUS_OFF ∨ k_link s = CanLinkState.LINK_LOST →
    move cap m s [ERecovered] (quiet CanLinkState.ACTIVE).

(** The choice of the next frame *)
Inductive pick (d : Dispatch) : Core → Core → Prop :=
| p_first l d0 q :
    carries_traffic l → is_retry d = false →
    pick d (core_at l None None d0 (dispatch_frame d :: q)) (core_at l None None (Some d) q)
| p_retry_command l d0 q r :
    carries_traffic l → repeats r d → pick d (core_at l (Some r) None d0 q) (core_at l (Some r) None (Some d) q)
| p_retry_stop l pc d0 q r :
    carries_traffic l → repeats r d → pick d (core_at l pc (Some r) d0 q) (core_at l pc (Some r) (Some d) q)
| p_command_timeout l r d0 q :
    carries_traffic l → request CanFrameKind.STOP (dispatch_frame d) → is_retry d = false →
    pick d (core_at l (Some r) None d0 q) (core_at CanLinkState.STOPPING None None (Some d) []).

(** The record of a frame that the transport took *)
Inductive record (d : Dispatch) : Core → Core → Prop :=
| r_command l pc ps q n t :
    kind (dispatch_frame d) = CanFrameKind.COMMAND → retry_count (dispatch_frame d) = Some n →
    record d (core_at l pc ps (Some d) q) (core_at l (next_pending pc d n t) ps None q)
| r_stop l pc ps q n t :
    kind (dispatch_frame d) = CanFrameKind.STOP → retry_count (dispatch_frame d) = Some n →
    record d (core_at l pc ps (Some d) q) (core_at CanLinkState.STOPPING pc (next_pending ps d n t) None q).

(** Where the frame is that the poller picked *)
Inductive hand : Type := Empty | Picked (d : Dispatch) | Handed (d : Dispatch).

Record Machine := machine_at { m_core : Core; m_hand : hand; m_mode : mode }.

(** The machine: sections under the lock, and the call of [transport.send] between
    the section that picks a frame and the one that records it *)
Inductive mstep (cap : nat) : Machine → list event → Machine → Prop :=
| ms_section s h m es s' : move cap m s es s' → mstep cap (machine_at s h m) es (machine_at s' h m)
| ms_pick s d m s' :
    pick d s s' → mstep cap (machine_at s Empty m) [EPick (dispatch_frame d) (is_retry d)] (machine_at s' (Picked d) m)
| ms_hand_off s d m :
    mstep cap (machine_at s (Picked d) m) [ESend (dispatch_frame d) (is_retry d)] (machine_at s (Handed d) m)
| ms_recorded s d m s' :
    m = Running → record d s s' → mstep cap (machine_at s (Handed d) m) [] (machine_at s' Empty m)
| ms_returned s d m s' : move cap m s [] s' → mstep cap (machine_at s (Handed d) m) [] (machine_at s' Empty m)
| ms_activated l : mstep cap (machine_at (quiet l) Empty Starting) [] (machine_at (quiet l) Empty Running)
| ms_ended s h m : m ≠ Running → mstep cap (machine_at s h m) [] (machine_at s h Ending)
| ms_shutdown l pc ps d q h m :
    mstep cap (machine_at (core_at l pc ps d q) h m) [] (machine_at (core_at l pc ps d []) h Ending).

(** ** Consistency: only commands while the link is active, only STOP afterwards *)

Definition phase (l : CanLinkState.t) : CanFrameKind.t :=
  if decide (l = CanLinkState.ACTIVE) then CanFrameKind.COMMAND else CanFrameKind.STOP.

Definition requests (s : Core) : list CanWireFrame :=
  k_queue s ++ match k_sending s with Some d => [dispatch_frame d] | None => [] end ++
  option_frames (k_command s) ++ option_frames (k_stop s).

Record consistent (s : Core) : Prop := {
  c_requests : ∀ w, w ∈ requests s → request (phase (k_link s)) w;
  c_command : ∀ r, k_command s = Some r → kind (wire_frame r) = CanFrameKind.COMMAND;
  c_stop : ∀ r, k_stop s = Some r → kind (wire_frame r) = CanFrameKind.STOP
}.

Lemma elem_of_requests w s :
  w ∈ requests s ↔ w ∈ k_queue s ∨ (∃ d, k_sending s = Some d ∧ dispatch_frame d = w) ∨
    (∃ r, k_command s = Some r ∧ wire_frame r = w) ∨ (∃ r, k_stop s = Some r ∧ wire_frame r = w).
Proof.
  unfold requests, option_frames. rewrite !elem_of_app.
  destruct (k_sending s), (k_command s), (k_stop s); rewrite ?elem_of_nil, ?list_elem_of_singleton; naive_solver.
Qed.

Lemma phase_other l : l ≠ CanLinkState.ACTIVE → phase l = CanFrameKind.STOP.
Proof. intros. unfold phase. by rewrite decide_False. Qed.
Lemma phase_command l : phase l = CanFrameKind.COMMAND → l = CanLinkState.ACTIVE.
Proof. unfold phase. by case_decide. Qed.
Lemma phase_stop l : phase l = CanFrameKind.STOP → l ≠ CanLinkState.ACTIVE.
Proof. unfold phase. by case_decide. Qed.

(** The same, field by field *)
Lemma consistent_at l pc ps d q :
  consistent (core_at l pc ps d q) ↔
  Forall (request (phase l)) q ∧ (∀ d', d = Some d' → request (phase l) (dispatch_frame d')) ∧
  (∀ r, pc = Some r → genuine (wire_frame r) ∧ kind (wire_frame r) = CanFrameKind.COMMAND ∧ l = CanLinkState.ACTIVE) ∧
  (∀ r, ps = Some r → genuine (wire_frame r) ∧ kind (wire_frame r) = CanFrameKind.STOP ∧ l ≠ CanLinkState.ACTIVE).
Proof.
  split.
  - intros [HR HC HS]. simpl in *. split; [apply Forall_forall; intros w Hw; apply HR, elem_of_requests; by left|].
    split; [intros d' ->; apply HR, elem_of_requests; naive_solver|].
    split; intros r ->; (destruct (HR (wire_frame r)) as [? Hk]; [apply elem_of_requests; naive_solver|]).
    + rewrite HC in Hk by done. eauto using phase_command.
    + rewrite HS in Hk by done. eauto using phase_stop.
  - intros (HQ & HD & HC & HS). split; simpl; [|naive_solver..].
    intros w [Hw|[(d' & Hd & <-)|[(r & Hr & <-)|(r & Hr & <-)]]]%elem_of_requests; simpl in *.
    + rewrite Forall_forall in HQ. by apply HQ.
    + by apply HD.
    + destruct (HC r Hr) as (? & ? & ->). by split.
    + destruct (HS r Hr) as (? & ? & ?). split; [done|]. by rewrite phase_other.
Qed.

Lemma consistent_quiet l : consistent (quiet l).
Proof. by apply consistent_at. Qed.

Lemma next_pending_frame o d n t r : next_pending o d n t = Some r → wire_frame r = dispatch_frame d.
Proof. unfold next_pending. destruct (is_retry d), o; simpl; naive_solver. Qed.

Lemma move_consistent cap m s es s' : move cap m s es s' → consistent s → consistent s'.
Proof.
  intros Hm Hc. destruct Hm; try done; try apply consistent_quiet;
    try (match goal with s : Core |- _ => destruct s end; simpl in * );
    rewrite consistent_at in Hc |- *; destruct Hc as (HQ & HD & HC & HS).
  - split_and!; try done. apply Forall_app; split; [done|]. by apply Forall_singleton.
  - split_and!; try done. by apply Forall_singleton.
  - by split_and!.
  - destruct (HS r eq_refl) as (_ & _ & Hl). rewrite phase_other in HD by done. split_and!; try done.
    intros r' Hr'. by destruct (HC r' Hr') as (_ & _ & ->).
  - by split_and!.
  - split_and!; try done. apply Forall_cons. split; [by apply HD|]. by case_decide.
  - by split_and!.
  - split_and!; try done. intros r' Hr'. destruct (HS r' Hr') as (_ & _ & Hl), (HC r eq_refl) as (_ & _ & ->). done.
  - split_and!; try done. intros r' Hr'. destruct (HC r' Hr') as (_ & _ & ->), (HS r eq_refl) as (_ & _ & Hl). done.
  - split_and!; try done. intros r' Hr'. destruct (HC r' Hr') as (_ & _ & ->), (HS r eq_refl) as (_ & _ & Hl). done.
Qed.

Lemma pick_consistent d s s' : pick d s s' → consistent s → consistent s'.
Proof.
  intros Hp Hc. destruct Hp; rewrite consistent_at in Hc |- *; destruct Hc as (HQ & HD & HC & HS).
  - apply Forall_cons in HQ as [Hw HQ]. split_and!; try done. by intros d' [= <-].
  - split_and!; try done. intros d' [= <-]. destruct (HC r eq_refl) as (_ & Hk & ->).
    destruct H0 as (_ & Hg & He & _). split; [done|]. by rewrite He.
  - split_and!; try done. intros d' [= <-]. destruct (HS r eq_refl) as (_ & Hk & Hl).
    destruct H0 as (_ & Hg & He & _). split; [done|]. by rewrite He, phase_other.
  - split_and!; try done. by intros d' [= <-].
Qed.

Lemma record_consistent d s s' : record d s s' → consistent s → consistent s'.
Proof.
  intros Hr Hc. destruct Hr; rewrite consistent_at in Hc |- *; destruct Hc as (HQ & HD & HC & HS);
    destruct (HD d eq_refl) as [Hg Hk]; rewrite H in Hk; symmetry in Hk.
  - split_and!; try done. intros r ->%next_pending_frame. eauto using phase_command.
  - apply phase_stop in Hk as Hl. rewrite phase_other in HQ, HD by done. split_and!; try done.
    + intros r Hr. by destruct (HC r Hr) as (_ & _ & ->).
    + by intros r ->%next_pending_frame.
Qed.

Lemma mstep_consistent cap a es a' : mstep cap a es a' → consistent (m_core a) → consistent (m_core a').
Proof.
  intros [] C; simpl in *; eauto using move_consistent, pick_consistent, record_consistent.
  apply consistent_at in C as (? & ? & ? & ?). by apply consistent_at.
Qed.

(** ** Executions of the machine *)

(** The events that are traffic, and what [recover] does to the link *)
Definition is_traffic (e : event) : bool := match e with EClose | EResult _ => false | _ => true end.
Definition traffic (tr : list event) : list event := List.filter is_traffic tr.

Inductive run (cap : nat) : list event → Machine → Prop :=
| run_start : run cap [] (machine_at (quiet CanLinkState.NEW) Empty Starting)
| run_step tr a es a' : run cap tr a → mstep cap a es a' → run cap (tr ++ es) a'.

Lemma run_consistent cap tr a : run cap tr a → consistent (m_core a).
Proof. induction 1; eauto using consistent_quiet, mstep_consistent. Qed.

Lemma traffic_app t1 t2 : traffic (t1 ++ t2) = traffic t1 ++ traffic t2.
Proof. apply List.filter_app. Qed.

(** Only a choice puts a request into [_dispatching] *)
Lemma move_sending cap m s es s' d : move cap m s es s' → k_sending s' = Some d → k_sending s = Some d.
Proof. by intros [] Hd. Qed.

Lemma mstep_sending cap a es a' d :
  mstep cap a es a' → k_sending (m_core a') = Some d → k_sending (m_core a) = Some d ∨ m_hand a' = Picked d.
Proof.
  intros [] Hd; simpl in *; eauto using move_sending; [destruct H; simpl in *; naive_solver|by destruct H0].
Qed.

(** Before the runtime is active, and in a shutdown that comes before that, there
    are no requests *)
Lemma move_quiet cap m l es s' : move cap m (quiet l) es s' → m ≠ Running → ∃ l', s' = quiet l'.
Proof.
  intros H Hm. inversion H; simplify_eq; eauto.
  all: repeat match goal with E : core_at _ _ _ _ _ = quiet _ |- _ => injection E as; simplify_eq end; eauto.
Qed.

Lemma mstep_quiet cap a es a' l :
  mstep cap a es a' → m_core a = quiet l → m_mode a ≠ Running → ∃ l', m_core a' = quiet l'.
Proof.
  intros [] Hq Hm; simpl in *; subst; eauto using move_quiet.
  - by inversion H.
  - by inversion H0.
  - injection Hq as -> -> -> -> ->. by exists l.
Qed.

Lemma mstep_ending cap a es a' : mstep cap a es a' → m_mode a = Ending → m_mode a' = Ending.
Proof. by intros []. Qed.

Local Open Scope prog_scope.
Local Open Scope Z_scope.

(** The protocol state is as it was *)
Definition kept (l : Lifecycle) (p : Protocol) (l' : Lifecycle) (p' : Protocol) : Prop := l' = l ∧ core p' = core p.
(** Every request was dropped *)
Definition failed (l : Lifecycle) (p : Protocol) (l' : Lifecycle) (p' : Protocol) : Prop :=
  l' = l ∧ ∃ k, faults (link p) k ∧ core p' = quiet k.

Lemma faults_trans k1 k2 k3 : faults k1 k2 → faults k2 k3 → faults k1 k3.
Proof. unfold faults. repeat case_decide; naive_solver. Qed.

(** One step of a symbolic run of a section *)
Ltac wpc_step :=
  match goal with
  | |- wpc (bind _ _) _ _ _ _ => apply wpc_bind
  | |- wpc (ret _) _ _ _ _ => apply wpc_ret
  | |- wpc (raise _) _ _ _ _ => apply wpc_raise
  | |- wpc (modify (on_proto _)) _ _ _ _ => apply wpc_on_proto
  | |- wpc (modify (on_planes _)) _ _ _ _ => apply wpc_on_planes
  | |- wpc (modify (on_ingress _)) _ _ _ _ => apply wpc_on_ingress
  | |- wpc get _ _ _ _ =>
      let b := fresh "b" in let Hl := fresh "Hl" in let Hp := fresh "Hp" in
      apply wpc_get; intros b Hl Hp; cbv beta; rewrite ?Hl, ?Hp
  | |- wpc (of_option (Some ?a) _) _ _ _ _ => cbn [of_option]; apply wpc_ret
  | |- wpc (of_option _ _) _ _ _ _ => apply wpc_of_option
  | |- wpc (require _ _) _ _ _ _ => apply wpc_require
  | |- wpc (lift_wire _) _ _ _ _ => apply wpc_lift
  | |- wpc _ _ _ _ _ => apply wpc_neutral; [solve [eauto 1 with neutral]|intros|]
  end.
Ltac wpc_steps := repeat (wpc_step; cbv beta).

Section Refinement.
Context (c : CanTransportConfig) (clock wall_clock : nat → option pyval) (time_monotonic : nat → spec_float).

Lemma failed_move l l' p p' : failed l p l' p' → l' = l ∧ move (queue_capacity c) (mode_of (rt_state l)) (core p) [] (core p').
Proof. intros (-> & k & Hk & ->). split; [done|]. by apply m_fault. Qed.

Lemma kept_move l l' p p' : kept l p l' p' → l' = l ∧ move (queue_capacity c) (mode_of (rt_state l)) (core p) [] (core p').
Proof. intros (-> & ->). split; [done|]. apply m_idle. Qed.

(** [m] makes one move, with the events [ev] of its result *)
Definition moves {A} (m : bus A) (ev : A → list event) (l : Lifecycle) (p : Protocol) : Prop :=
  wpc m (λ a l' p', l' = l ∧ move (queue_capacity c) (mode_of (rt_state l)) (core p) (ev a) (core p'))
        (λ l' p', l' = l ∧ move (queue_capacity c) (mode_of (rt_state l)) (core p) [] (core p')) l p.

Lemma consistent_command p r : consistent (core p) → pending_command p = Some r → genuine (wire_frame r).
Proof. intros H Hr. by apply consistent_at in H as (_ & _ & (? & _)%(λ H, H r Hr) & _). Qed.

Lemma consistent_stop p r : consistent (core p) → pending_stop p = Some r → genuine (wire_frame r).
Proof. intros H Hr. by apply consistent_at in H as (_ & _ & _ & (? & _)%(λ H, H r Hr)). Qed.

Lemma remember_timed_out_wpc r (Q : () → _ → _ → Prop) (R : _ → _ → Prop) l p :
  genuine (wire_frame r) → (∀ w, Q () l (set_timed_out w p)) → wpc (remember_timed_out c r) Q R l p.
Proof. intros [k Hk]%genuine_response_key HQ. unfold remember_timed_out. rewrite Hk. wpc_steps. apply HQ. Qed.

Lemma remember_completed_wpc r (Q : () → _ → _ → Prop) (R : _ → _ → Prop) l p :
  genuine (wire_frame r) → (∀ w, Q () l (set_completed w p)) → wpc (remember_completed c r) Q R l p.
Proof. intros [k Hk]%genuine_response_key HQ. unfold remember_completed. rewrite Hk. wpc_steps. apply HQ. Qed.

Lemma remember_option_wpc o (Q : () → _ → _ → Prop) (R : _ → _ → Prop) l p :
  (∀ r, o = Some r → genuine (wire_frame r)) → Q () l p → (∀ w, Q () l (set_timed_out w p)) →
  wpc (remember_option c o) Q R l p.
Proof. intros Hg HQ HQ'. destruct o as [r|]; simpl; [by apply remember_timed_out_wpc; auto|wpc_steps]. done. Qed.

Lemma handle_transport_error_wpc off l p :
  consistent (core p) →
  wpc (_handle_transport_error c clock time_monotonic off) (λ _, failed l p) (failed l p) l p.
Proof.
  intros C. unfold _handle_transport_error. wpc_steps.
  assert (H : ∀ p0, core p0 = core p →
    wpc (remember_option c (pending_stop p);;; modify (on_proto (λ p,
      let p := drop_requests p in
      if decide (link p = CanLinkState.SHUTDOWN) then p
      else set_link (if off then CanLinkState.BUS_OFF else CanLinkState.LINK_LOST) p)) ;;;
     _record_diagnostic_locked c clock time_monotonic (if off then CanDiagnosticCode.BUS_OFF else CanDiagnosticCode.LINK_LOST) None)
     (λ _, failed l p) (failed l p) l p0).
  { intros p0 Hp0. apply (f_equal k_link) in Hp0 as Hk. simpl in Hk.
    wpc_steps. apply remember_option_wpc; [eauto using consistent_stop|..]; intros; wpc_steps;
      (split; [done|]); unfold core, faults; simpl; rewrite Hk; (case_decide as E; simpl;
      [exists CanLinkState.SHUTDOWN; split; [done|by rewrite Hk, E]|eexists; split; [|reflexivity]; destruct off; auto]). }
  apply remember_option_wpc; [eauto using consistent_command|by apply H|intros; by apply H].
Qed.

Lemma fail_clock_wpc l p :
  consistent (core p) → wpc (_fail_clock_locked c clock time_monotonic) (λ _, failed l p) (failed l p) l p.
Proof.
  intros C. unfold _fail_clock_locked. apply wpc_bind. eapply wpc_mono; [by apply handle_transport_error_wpc| |done].
  intros [] l' p' (-> & H). wpc_steps; by split.
Qed.

(** ** Ingress *)

Definition kept_or_failed (l : Lifecycle) (p : Protocol) (l' : Lifecycle) (p' : Protocol) : Prop :=
  kept l p l' p' ∨ failed l p l' p'.

Lemma kept_or_failed_move l l' p p' : kept_or_failed l p l' p' → l' = l ∧ move (queue_capacity c) (mode_of (rt_state l)) (core p) [] (core p').
Proof. intros [?|?]; eauto using kept_move, failed_move. Qed.

Lemma neutral_ingress_time b v m : neutral m → neutral (ingress_time b v m).
Proof. intros Hm. unfold ingress_time. destruct b; neutral_tac. Qed.
Lemma neutral_read_clock : neutral (read_clock clock).
Proof. unfold read_clock. neutral_tac. Qed.
Lemma neutral_read_wall_clock : neutral (read_wall_clock wall_clock).
Proof. unfold read_wall_clock. neutral_tac. Qed.
Hint Resolve neutral_ingress_time neutral_read_clock neutral_read_wall_clock : neutral.

Lemma observe_ingress_wpc f l p :
  consistent (core p) →
  wpc (_observe_ingress_locked c clock wall_clock time_monotonic f)
    (λ o l' p', if o_valid o then kept l p l' p' else failed l p l' p') (kept_or_failed l p) l p.
Proof.
  intros C. unfold _observe_ingress_locked. cbv zeta.
  assert (Hinv : ∀ seq ts drop,
    wpc (_fail_clock_locked c clock time_monotonic ;;; ret (invalid_observation seq ts drop))
      (λ o l' p', if o_valid o then kept l p l' p' else failed l p l' p') (kept_or_failed l p) l p).
  { intros. apply wpc_bind. eapply wpc_mono; [by apply fail_clock_wpc| |by right].
    intros [] l' p' H. by apply wpc_ret. }
  assert (Hk : kept_or_failed l p l p) by by left.
  wpc_step. wpc_step. wpc_step. wpc_step. wpc_step. wpc_step; [|done]. intros given _.
  wpc_step. apply wpc_neutral; [eauto with neutral|intros mono|done]. destruct mono as [mono|]; [|apply Hinv].
  case_match; [apply Hinv|]. wpc_step. wpc_step; [|done]. intros wgiven _.
  wpc_step. apply wpc_neutral; [eauto with neutral|intros wall|done]. destruct wall as [wall|]; [|apply Hinv].
  case_match; [apply Hinv|]. wpc_steps. done.
Qed.

Lemma make_envelope_wpc w l p :
  consistent (core p) →
  wpc (_make_envelope_locked c clock wall_clock time_monotonic w)
    (λ e l' p', match e with Some _ => kept l p l' p' | None => failed l p l' p' end) (kept_or_failed l p) l p.
Proof.
  intros C. unfold _make_envelope_locked. apply wpc_bind. eapply wpc_mono; [by apply observe_ingress_wpc| |done].
  intros o l' p'. cbv beta. destruct (o_valid o); intros H; wpc_steps; done.
Qed.

Lemma neutral_publish_external r : neutral (modify (on_planes (publish_external c r))).
Proof. neutral_tac. Qed.
Hint Resolve neutral_publish_external : neutral.

Lemma make_external_record_wpc a l p :
  consistent (core p) →
  wpc (_make_external_record_locked c clock wall_clock time_monotonic a)
    (λ _ l' p', match a_envelope a with Some _ => kept l p l' p' | None => kept_or_failed l p l' p' end)
    (λ l' p', match a_envelope a with Some _ => kept l p l' p' | None => kept_or_failed l p l' p' end) l p.
Proof.
  intros C. unfold _make_external_record_locked. wpc_step. wpc_step. cbv zeta. apply wpc_bind.
  destruct (a_envelope a) as [e|] eqn:Ee.
  - apply wpc_ret. apply wpc_neutral; [neutral_tac|done..].
  - apply wpc_bind.
    apply wpc_mono with (Q := λ _, kept_or_failed l p) (R := kept_or_failed l p); [|intros o l' p' H|done].
    + destruct (last_observation _); [by apply wpc_ret; left|].
      eapply wpc_mono; [by apply observe_ingress_wpc|intros o l' p'; cbv beta|done].
      destruct (o_valid o); [by left|by right].
    + do 3 wpc_step. apply wpc_neutral; [neutral_tac|done..].
Qed.

Definition confirms (w : CanWireFrame) (confirmed : bool) : list event := if confirmed then [EConfirm w] else [].

(** What correlation does to the protocol state *)
Definition correlated (w : CanWireFrame) (l : Lifecycle) (p : Protocol) (sc : CanReceiveStatus.t * bool)
    (l' : Lifecycle) (p' : Protocol) : Prop :=
  (l' = l ∧ move (queue_capacity c) (mode_of (rt_state l)) (core p) (confirms w sc.2) (core p')) ∧
  (sc.2 = true → sc.1 = CanReceiveStatus.ACCEPTED ∧ kind w ≠ CanFrameKind.TELEMETRY).

Definition moved (l : Lifecycle) (p : Protocol) (l' : Lifecycle) (p' : Protocol) : Prop :=
  l' = l ∧ move (queue_capacity c) (mode_of (rt_state l)) (core p) [] (core p').

Lemma moved_refl l p : moved l p l p.
Proof. split; [done|apply m_idle]. Qed.
Hint Resolve moved_refl : core.

Lemma correlate_telemetry_wpc w l p :
  consistent (core p) →
  wpc (correlate_telemetry c clock time_monotonic w) (correlated w l p) (moved l p) l p.
Proof.
  intros C. unfold correlate_telemetry.
  assert (Hidle : ∀ s, correlated w l p (s, false) l p) by (split; [apply moved_refl|done]).
  wpc_step. wpc_step; [intros seq _|done]. wpc_step. wpc_step.
  generalize (match last_telemetry_sequence p with Some last => Z.land (seq - last) 0xFFFFFFFF | None => 1 end). intros delta.
  destruct (delta =? 0); [wpc_steps; auto|]. destruct (_ <=? delta); [wpc_steps; auto|]. wpc_step. wpc_step. wpc_step.
  case_decide; [wpc_steps; apply Hidle|]. eapply wpc_mono; [by apply handle_transport_error_wpc|..]; intros.
  - apply wpc_ret. split; [by apply failed_move|done].
  - by apply failed_move.
Qed.

Lemma unmatched_wpc w key n l p :
  wpc (unmatched c clock time_monotonic w key n) (correlated w l p) (moved l p) l p.
Proof.
  unfold unmatched. assert (Hidle : ∀ s, correlated w l p (s, false) l p) by (split; [apply moved_refl|done]).
  wpc_step. wpc_step. case_decide; [wpc_steps; auto|]. case_decide; wpc_steps; auto.
Qed.

Lemma complete_request_wpc w r l p :
  consistent (core p) → dispatching p = None → answers r w → kind w ≠ CanFrameKind.TELEMETRY →
  (if decide (kind w = CanFrameKind.STOP_ACK) then pending_stop p else pending_command p) = Some r →
  wpc (complete_request c clock time_monotonic w r) (correlated w l p) (moved l p) l p.
Proof.
  intros C Hd Ha Hk Hr. unfold complete_request. cbv zeta. wpc_step.
  apply remember_completed_wpc.
  { case_decide; eauto using consistent_command, consistent_stop. }
  intros win. destruct p as [lk pc ps d q ? ? ? ? ? ? ?]. simpl in Hd. subst d.
  unfold correlated, moved, confirms, core. case_decide; simpl in Hr; subst; case_bool_decide as Hacc.
  - wpc_steps. simpl. split; [|done]. split; [done|]. by eapply m_stop_ack.
  - wpc_steps; simpl; split_and?; try done; by eapply m_stop_ack_rejected.
  - wpc_steps. simpl. split; [|done]. split; [done|]. by eapply m_ack.
  - wpc_steps; simpl; split_and?; try done; by eapply m_ack_rejected.
Qed.

Lemma correlate_received_wpc w l p :
  consistent (core p) → dispatching p = None →
  wpc (_correlate_received_locked c clock time_monotonic w) (correlated w l p) (moved l p) l p.
Proof.
  intros C Hd. unfold _correlate_received_locked. case_decide; [by apply correlate_telemetry_wpc|].
  wpc_step. wpc_step; [intros key Hkey|done]. wpc_step. wpc_step; [intros n Hn|done]. wpc_step. wpc_step.
  destruct (if decide _ then _ else _) as [r|] eqn:Hr; [|by apply unmatched_wpc].
  wpc_step. wpc_step; [intros pk Hpk|done].
  destruct (decide (key = pk ∧ n ∈ sent_retry_counts r)) as [[<- Hin]|]; [|by apply unmatched_wpc].
  apply complete_request_wpc; [done..| |done|done]. exists n. by rewrite Hkey, Hpk.
Qed.

Lemma kept_or_failed_trans l p l1 p1 l2 p2 :
  kept_or_failed l p l1 p1 → kept_or_failed l1 p1 l2 p2 → kept_or_failed l p l2 p2.
Proof.
  unfold kept_or_failed, kept, failed. intros [[-> H1]|(-> & k & Hk & H1)] [[-> H2]|(-> & k' & Hk' & H2)];
    apply (f_equal k_link) in H1 as E; simpl in E.
  - left. by rewrite H2.
  - right. rewrite <- E. eauto.
  - right. rewrite H2. eauto.
  - right. rewrite E in Hk'. eauto using faults_trans.
Qed.

Lemma kept_or_failed_consistent l p l' p' : kept_or_failed l p l' p' → consistent (core p) → consistent (core p').
Proof. intros [[_ ->]|(_ & k & _ & ->)] H; [done|apply consistent_quiet]. Qed.

(** A refusal after an observation that may have failed the link *)
Lemma refuse_wpc l p ev s w a l' p' :
  (∀ r, ev (refusal s w r) = []) → kept_or_failed l p l' p' → consistent (core p) → a_envelope a = None →
  wpc (r <- _make_external_record_locked c clock wall_clock time_monotonic a ;; ret (refusal s w r))
    (λ s l' p', l' = l ∧ move (queue_capacity c) (mode_of (rt_state l)) (core p) (ev s) (core p')) (moved l p) l' p'.
Proof.
  intros Hev H C Ha. wpc_step.
  eapply wpc_mono; [by apply make_external_record_wpc; eapply kept_or_failed_consistent| |]; rewrite Ha; intros; [wpc_step; rewrite Hev|];
    eapply kept_or_failed_move, kept_or_failed_trans; done.
Qed.

Lemma ingress_valid_wpc w l p :
  consistent (core p) → dispatching p = None →
  wpc (ingress_valid c clock wall_clock time_monotonic w)
    (λ s l' p', l' = l ∧ move (queue_capacity c) (mode_of (rt_state l)) (core p) (ingress_events s) (core p')) (moved l p) l p.
Proof.
  intros C Hd. unfold ingress_valid. wpc_step. eapply wpc_mono; [by apply make_envelope_wpc| |by intros ? ? ?%kept_or_failed_move].
  intros [env|] l' p'; cbv beta iota.
  - intros [-> Hp]. wpc_step. assert (C' : consistent (core p')) by by rewrite Hp.
    assert (Hd' : dispatching p' = None). { by apply (f_equal k_sending) in Hp; simpl in Hp; rewrite Hp. }
    eapply wpc_mono; [by apply correlate_received_wpc| |by intros ? ? [-> Hm]; rewrite Hp in Hm].
    intros [st cf] l' p'' [[-> Hm] Hcf]. rewrite Hp in Hm. wpc_step. wpc_step. cbv zeta. cbn [fst snd] in *.
    case_bool_decide as Hst; cbn [negb].
    + destruct cf.
      * destruct (Hcf eq_refl) as [_ Hk]. rewrite decide_False by done. wpc_steps. done.
      * wpc_step. apply wpc_neutral; [case_decide; unfold take_telemetry; neutral_tac|intros d|done].
        wpc_step. wpc_step; [intros d' _|done]. by wpc_step.
    + destruct cf; [by destruct (Hcf eq_refl)|]. wpc_step. assert (C'' : consistent (core p'')) by by eapply move_consistent.
      eapply wpc_mono; [by apply make_external_record_wpc| |]; simpl.
      * intros r l' p3 [-> Hp3]. wpc_step. by rewrite Hp3.
      * intros l' p3 [-> Hp3]. unfold moved. by rewrite Hp3.
  - intros H. apply (refuse_wpc l p ingress_events); try done. by right.
Qed.

Lemma ingress_main_wpc x l p :
  consistent (core p) → (rt_state l = DeviceRuntimeState.ACTIVE → dispatching p = None) →
  moves (ingress_main c clock wall_clock time_monotonic x) ingress_events l p.
Proof.
  intros C Hd. unfold moves, ingress_main. cbv zeta.
  assert (Hidle : kept_or_failed l p l p) by by left. assert (Hm := kept_or_failed_move _ _ _ _ Hidle).
  assert (Hother : ∀ d, wpc (match d with
    | Raise CanFrameValidationError =>
        b <- get ;;
        if negb (_runtime_accepts_ingress_locked b) then ret Ignored
        else
          _record_diagnostic_locked c clock time_monotonic CanDiagnosticCode.INVALID_FRAME None ;;;
          r <- _make_external_record_locked c clock wall_clock time_monotonic
                 (hidden_record CanReceiveStatus.INVALID_FRAME (match x with IsFrame f => Some f | OtherObject => None end)
                    None None false) ;;
          ret (refusal CanReceiveStatus.INVALID_FRAME None r)
    | Raise e => raise (WireError e)
    | Ok w =>
        b <- get ;;
        if negb (_runtime_accepts_ingress_locked b) then ret Ignored
        else if _INBOUND_KINDS (kind w) then ingress_valid c clock wall_clock time_monotonic w
        else
          _record_diagnostic_locked c clock time_monotonic CanDiagnosticCode.INVALID_FRAME (command_id w) ;;;
          r <- _make_external_record_locked c clock wall_clock time_monotonic
                 (hidden_record CanReceiveStatus.INVALID_FRAME (Some (frame w)) (Some w) None true) ;;
          ret (refusal CanReceiveStatus.INVALID_FRAME (Some w) r)
    end) (λ s l' p', l' = l ∧ move (queue_capacity c) (mode_of (rt_state l)) (core p) (ingress_events s) (core p')) (moved l p) l p).
  { intros [w|[]]; [| |by wpc_step].
    - wpc_step. wpc_step. destruct (_runtime_accepts_ingress_locked b) eqn:Hr; cbn [negb]; [|by wpc_steps].
      apply andb_true_iff in Hr as [Hr%bool_decide_eq_true _]. rewrite Hl in Hr.
      destruct (_INBOUND_KINDS (kind w)); [by apply ingress_valid_wpc; auto|].
      wpc_step. wpc_step; [|done]. by apply (refuse_wpc l p ingress_events).
    - wpc_step. wpc_step. destruct (_runtime_accepts_ingress_locked b); cbn [negb]; [|by wpc_steps].
      wpc_step. wpc_step; [|done]. by apply (refuse_wpc l p ingress_events). }
  destruct x as [f|]; [|apply Hother]. destruct (truthy (is_error_frame f)); [|apply Hother].
  unfold ingress_error_frame. wpc_step.
  assert (Htail : ∀ l' p', kept_or_failed l p l' p' → wpc (_record_diagnostic_locked c clock time_monotonic
      CanDiagnosticCode.INVALID_FRAME None ;;;
    r <- _make_external_record_locked c clock wall_clock time_monotonic
           (hidden_record CanReceiveStatus.INVALID_FRAME (Some f) None None false) ;;
    ret (refusal CanReceiveStatus.INVALID_FRAME None r))
    (λ s l' p', l' = l ∧ move (queue_capacity c) (mode_of (rt_state l)) (core p) (ingress_events s) (core p')) (moved l p) l' p').
  { intros l' p' H. wpc_step. wpc_step; [|by apply kept_or_failed_move]. by apply (refuse_wpc l p ingress_events). }
  destruct (is_bus_off f); [|by apply wpc_ret, Htail].
  eapply wpc_mono; [by apply handle_transport_error_wpc|intros; apply Htail; by right|intros; by apply failed_move].
Qed.

Lemma frame_error_wpc l p :
  consistent (core p) → moves (_handle_transport_frame_error c clock wall_clock time_monotonic) (λ _, []) l p.
Proof.
  intros C. unfold moves, _handle_transport_frame_error. wpc_step. wpc_step.
  destruct (_runtime_accepts_ingress_locked b); cbn [negb]; [|by wpc_steps; apply moved_refl].
  wpc_step. wpc_step; [|by apply moved_refl]. apply (refuse_wpc l p (λ _, [])); [done|by left|done..].
Qed.

Lemma ingress_finish_wpc v n l p :
  consistent (core p) → moves (ingress_finish c clock wall_clock time_monotonic v n) (λ _, []) l p.
Proof.
  intros C. unfold moves, ingress_finish. assert (Hm := moved_refl l p). wpc_step. wpc_step.
  destruct (_runtime_accepts_ingress_locked b); cbn [negb]; [|by wpc_steps].
  wpc_step. apply wpc_neutral; [|intros []|done].
  { generalize (command_id (v_wire v)). induction n as [|n IH]; intros o; simpl; neutral_tac. }
  wpc_step. eapply wpc_mono; [by apply make_external_record_wpc| |]; simpl.
  - intros r l' p' [-> Hc]. wpc_step. unfold moved in Hm. by rewrite Hc.
  - intros l' p' [-> Hc]. unfold moved in Hm. by rewrite Hc.
Qed.

(** ** Admission *)

Lemma preempt_wpc l p :
  consistent (core p) → stop_outstanding p = false →
  wpc (_preempt_for_stop_locked c clock time_monotonic)
    (λ _ l' p', l' = l ∧ core p' = quiet CanLinkState.STOPPING) (λ l' p', l' = l ∧ core p' = quiet CanLinkState.STOPPING) l p.
Proof.
  intros C Hs. unfold _preempt_for_stop_locked. unfold stop_outstanding in Hs.
  apply orb_false_iff in Hs as [[Hps%bool_decide_eq_false Hd]%orb_false_iff _].
  destruct p as [lk pc ps d q ? ? ? ? ? ? ?]. apply consistent_at in C as (_ & HD & HC & _). simpl in *.
  destruct ps; [by destruct Hps|].
  assert (Hin : match d with
    | Some d => if decide (kind (dispatch_frame d) = CanFrameKind.COMMAND) then Some (dispatch_frame d) else None
    | None => None end = dispatch_frame <$> d).
  { destruct d as [d|]; [|done]. apply bool_decide_eq_false in Hd. destruct (HD d eq_refl) as [_ Hk]. unfold phase in Hk.
    rewrite decide_True; [done|]. by case_decide. }
  wpc_step. wpc_step. cbv zeta. wpc_step. wpc_step. cbn [dispatching pending_command command_queue]. rewrite Hin. wpc_step.
  destruct pc as [r|], d as [d|]; cbn [fmap option_fmap option_map].
  - wpc_step. apply remember_timed_out_wpc; [by apply (HC r)|]. intros. wpc_steps; destruct q; wpc_steps; done.
  - wpc_step. apply remember_timed_out_wpc; [by apply (HC r)|]. intros. wpc_steps; destruct q; wpc_steps; done.
  - destruct (genuine_retry _ (proj1 (HD d eq_refl))) as [n Hn]. rewrite Hn. wpc_step. wpc_step.
    apply remember_timed_out_wpc; [by apply (HD d)|]. intros. wpc_steps; destruct q; wpc_steps; done.
  - wpc_steps. destruct q; wpc_steps; done.
Qed.

(** What an admission decides, without a change of the protocol state *)
Lemma admit_wpc w l p :
  wpc (_admit_command_locked c clock time_monotonic w)
    (λ r l' p', (l' = l ∧ p' = p) ∧
       (send_status r = CanSendStatus.QUEUED →
        rt_state l = DeviceRuntimeState.ACTIVE ∧
        (kind w = CanFrameKind.COMMAND → link p = CanLinkState.ACTIVE) ∧
        (kind w = CanFrameKind.STOP → carries_traffic (link p) ∧ stop_outstanding p = false)))
    (λ l' p', l' = l ∧ p' = p) l p.
Proof.
  unfold _admit_command_locked. wpc_step. wpc_step. case_bool_decide as Hrt; cbn [negb]; [|by wpc_step].
  destruct (bool_decide (kind w = CanFrameKind.COMMAND) && _) eqn:H1; [by wpc_step|].
  destruct (bool_decide (kind w = CanFrameKind.STOP) && negb _) eqn:H2; [by wpc_step|].
  destruct (_ || _) eqn:H3; [by wpc_steps|]. wpc_step. split; [done|]. intros _.
  apply orb_false_iff in H3 as [H3 _]. split; [done|]. split; intros Hk; rewrite Hk in *; simpl in *.
  - by apply negb_false_iff, bool_decide_eq_true in H1.
  - split; [|done]. apply negb_false_iff, bool_decide_eq_true in H2. unfold carries_traffic. set_solver.
Qed.

Definition admits (w : CanWireFrame) (r : CanSendResult) : list event :=
  if decide (send_status r = CanSendStatus.QUEUED) then [EAdmit w] else [].

Lemma submit_wpc w l p :
  consistent (core p) → genuine w → moves (submit_command c clock time_monotonic w) (admits w) l p.
Proof.
  intros C Hg. unfold moves, submit_command. cbv zeta. assert (Hm := moved_refl l p). wpc_step.
  eapply wpc_mono; [apply admit_wpc| |intros ? ? [-> ->]; exact Hm].
  intros r ? ? [[-> ->] Hadm]. destruct (decide (send_status r = CanSendStatus.QUEUED)) as [Hq|Hq].
  2: { rewrite (bool_decide_false (send_status r = _)) by done. cbn [negb]. wpc_step. unfold admits. rewrite decide_False by done. exact Hm. }
  destruct (Hadm Hq) as (Hrt & Hcmd & Hstop).
  assert (Hrun : mode_of (rt_state l) = Running) by by rewrite Hrt.
  rewrite (bool_decide_true (send_status r = _)) by done. cbn [negb]. wpc_step. wpc_step.
  destruct (decide (kind w = CanFrameKind.STOP)) as [Hk|Hk].
  - rewrite bool_decide_true by done. cbn [negb andb]. destruct (Hstop Hk) as [Hl' Ho]. wpc_step.
    assert (Hps : k_stop (core p) = None).
    { simpl. unfold stop_outstanding in Ho. by destruct (pending_stop p). }
    eapply wpc_mono; [by apply preempt_wpc| |].
    + intros [] ? p' [-> Hp']. wpc_steps. split; [done|]. unfold admits. rewrite decide_True by done.
      unfold core in Hp'. injection Hp' as H1 H2 H3 H4 H5. unfold core at 2. simpl. rewrite H1, H2, H3, H4, H5. by apply m_preempt.
    + intros ? p' [-> ->]. split; [done|]. by apply m_preempt_raise.
  - rewrite bool_decide_false by done. cbn [negb andb]. case_match eqn:Hlen; [by wpc_steps|]. apply Nat.leb_gt in Hlen.
    wpc_steps. split; [done|]. unfold admits. rewrite decide_True by done.
    assert (Hkc : kind w = CanFrameKind.COMMAND). { destruct Hg as [_ Hg]. by destruct (kind w). }
    unfold core. simpl. rewrite (Hcmd Hkc). by apply m_admit.
Qed.

Lemma send_wpc x l p :
  consistent (core p) →
  moves (send c clock time_monotonic x)
    (λ r, match decode_can_frame x with Ok w => admits w r | Raise _ => [] end) l p.
Proof.
  intros C. unfold moves, send. assert (Hm := moved_refl l p). destruct (decode_can_frame x) as [w|[]] eqn:Hx; [|by wpc_steps..].
  destruct (_OUTBOUND_KINDS (kind w)) eqn:Hk; [|by wpc_steps]. apply submit_wpc; [done|]. by eapply decode_genuine.
Qed.

(** ** Transmission *)

(** The end of [_handle_transport_backpressure] *)
Lemma requeue_wpc lk pc ps d q l p :
  consistent (core_at lk pc ps (Some d) q) → core p = core_at lk pc ps None q →
  let w := dispatch_frame d in
  wpc (b <- get ;;
      if transport_backpressure_budget c <? backpressure_attempts (proto b)
      then _handle_transport_error c clock time_monotonic false
      else if decide (pending_command (proto b) = None ∧ pending_stop (proto b) = None) then
        modify (on_proto (λ p, set_command_queue
          (w :: (if decide (kind w = CanFrameKind.STOP) then [] else command_queue p)) p))
      else ret ())
    (λ _ l' p', (l' = l ∧ move (queue_capacity c) (mode_of (rt_state l)) (core_at lk pc ps (Some d) q) [] (core p')) ∧ dispatching p' = None)
    (λ l' p', (l' = l ∧ move (queue_capacity c) (mode_of (rt_state l)) (core_at lk pc ps (Some d) q) [] (core p')) ∧ dispatching p' = None) l p.
Proof.
  intros C Hp w. wpc_step. wpc_step. assert (Hd : dispatching p = None) by by apply (f_equal k_sending) in Hp.
  apply (f_equal k_link) in Hp as Hlk; simpl in Hlk.
  destruct (_ <? _).
  - eapply wpc_mono; [apply handle_transport_error_wpc; rewrite Hp| |].
    { apply (move_consistent (queue_capacity c) (mode_of (rt_state l)) _ [] _ (m_unsent _ _ _ _ _ _ _) C). }
    1: intros []. all: intros l' p' (-> & k & Hk & Hq);
      rewrite Hq; apply (f_equal k_sending) in Hq; (split; [split; [done|apply m_fault; simpl; by rewrite <- Hlk]|done]).
  - case_decide as E.
    + destruct E as [E1 E2]. wpc_step. unfold core in *. injection Hp as H1 H2 H3 H4 H5. simpl.
      rewrite E1 in H2. rewrite E2 in H3. rewrite E1, E2, H1, H4, H5. subst pc ps. split; [|done]. split; [done|]. apply m_requeue.
    + wpc_step. rewrite Hp. split; [|done]. split; [done|]. apply m_unsent.
Qed.

Lemma backpressure_wpc l p :
  consistent (core p) →
  wpc (_handle_transport_backpressure c clock time_monotonic)
    (λ _ l' p', moved l p l' p' ∧ dispatching p' = None) (λ l' p', moved l p l' p' ∧ dispatching p' = None) l p.
Proof.
  intros C. unfold _handle_transport_backpressure. cbv zeta. wpc_step. wpc_step. wpc_step. wpc_step.
  assert (Hun : moved l p l (set_dispatching None p)) by (split; [done|apply m_unsent]).
  wpc_step. wpc_step; [|done]. destruct (dispatching p) as [d|] eqn:Hd; [|by wpc_step].
  wpc_step. wpc_step. unfold core in C. rewrite Hd in C. unfold moved, core at 1 3. rewrite Hd.
  apply requeue_wpc; [done|]. by case_decide.
Qed.

Lemma retry_or_timeout_wpc r now budget code l p :
  genuine (wire_frame r) →
  wpc (_retry_or_timeout_locked c clock time_monotonic r now budget code)
    (λ o l' p', l' = l ∧
       match o with
       | Some w => p' = p ∧ genuine w ∧ same_request (wire_frame r) w
       | None => p' = p ∨ ∃ win, p' =
           if decide (kind (wire_frame r) = CanFrameKind.STOP)
           then set_link CanLinkState.LINK_LOST (set_command_queue [] (set_pending_stop None (set_timed_out win p)))
           else set_command_queue [] (set_pending_command None (set_timed_out win p))
       end)
    (λ l' p', l' = l ∧ p' = p) l p.
Proof.
  intros Hg. unfold _retry_or_timeout_locked. case_match; [by wpc_step; auto|].
  wpc_step. wpc_step; [intros n Hn|done]. case_match.
  - destruct (with_retry_count_genuine _ (n + 1) Hg) as (w & Hw & ? & ? & _). rewrite Hw. cbn [lift_wire]. by wpc_steps.
  - wpc_step. wpc_step; [|done]. wpc_step. apply remember_timed_out_wpc; [done|]. intros win. wpc_steps. eauto.
Qed.

Lemma new_stop_frame_wpc n l p :
  wpc (new_stop_frame n)
    (λ w l' p', kept l p l' p' ∧ request CanFrameKind.STOP w) (kept l p) l p.
Proof.
  assert (H : ∀ p', core p' = core p → wpc (new_stop_frame n)
    (λ w l' p', kept l p l' p' ∧ request CanFrameKind.STOP w) (kept l p) l p').
  { induction n as [|n IH]; intros p' Hp'; [by apply wpc_raise|]. cbn [new_stop_frame]. wpc_step. wpc_step. cbv zeta. wpc_step. wpc_step.
    case_match; [by apply IH|]. wpc_step; [|done]. intros w Hw. split; [done|].
    assert (Hk : kind w = CanFrameKind.STOP).
    { apply decode_Ok in Hw as (k & d & He & Hw). apply payload_frame in Hw as [_ ->].
      apply frame_envelope_Ok in He as (id & [= <-] & [= <-] & _). done. }
    split; [|done]. eapply decode_genuine; [done|]. by rewrite Hk. }
  by apply H.
Qed.

(** [_next_dispatch_locked] followed by the assignment of [_dispatching] is a choice *)
Definition selected (l : Lifecycle) (p : Protocol) (o : option (CanWireFrame * bool)) (l' : Lifecycle) (p' : Protocol) : Prop :=
  l' = l ∧
  match o with
  | None => move (queue_capacity c) (mode_of (rt_state l)) (core p) [] (core p')
  | Some (w, retry) => ∀ d, dispatch_frame d = w → is_retry d = retry →
      pick d (core p) (core (set_dispatching (Some d) p'))
  end.

Lemma next_dispatch_wpc now l p :
  consistent (core p) → carries_traffic (link p) →
  wpc (_next_dispatch_locked c clock time_monotonic now) (selected l p) (moved l p) l p.
Proof.
  intros C Ht. unfold _next_dispatch_locked. wpc_step. wpc_step. pose proof C as (HQ & HD & HC & HS)%consistent_at.
  destruct (pending_stop p) as [r|] eqn:Hps; [|destruct (pending_command p) as [r|] eqn:Hpc].
  - destruct (HS r eq_refl) as (Hg & Hk & _). wpc_step.
    eapply wpc_mono; [by apply retry_or_timeout_wpc| |by intros ? ? [-> ->]].
    intros [w|] l' p' [-> H]; wpc_step; (split; [done|]); cbn [fmap option_fmap option_map].
    + destruct H as (-> & Hw & Hsame). intros d <- Hr. unfold core. simpl. rewrite Hps. by apply p_retry_stop.
    + destruct H as [->|[win ->]]; [apply m_idle|]. rewrite decide_True by done. unfold core. simpl. rewrite Hps. by apply m_stop_timeout.
  - destruct (HC r eq_refl) as (Hg & Hk & _). wpc_step.
    eapply wpc_mono; [by apply retry_or_timeout_wpc| |by intros ? ? [-> ->]].
    intros [w|] l' p' [-> H]; wpc_step; wpc_step.
    + destruct H as (-> & Hw & Hsame). wpc_step. split; [done|]. intros d <- Hr. unfold core. simpl. rewrite Hps, Hpc. by apply p_retry_command.
    + destruct H as [->|[win ->]].
      { rewrite Hpc. wpc_step. split; [done|]. apply m_idle. }
      rewrite decide_False by by rewrite Hk. cbn [set_command_queue set_pending_command pending_command]. wpc_step.
      eapply wpc_mono; [apply new_stop_frame_wpc| |].
      * intros w l' p' [[-> Hp'] Hw]. wpc_steps. split; [done|]. intros d <- Hr. unfold core in *. simpl in *.
        injection Hp' as H1 H2 H3 H4 H5. rewrite H2, H3, H5, Hps, Hpc. by apply p_command_timeout.
      * intros l' p' [-> Hp']. split; [done|]. rewrite Hp'. unfold core. simpl. rewrite Hps, Hpc. by apply m_command_timeout_raise.
  - destruct (command_queue p) as [|w q] eqn:Hq.
    + wpc_step. split; [done|]. apply m_idle.
    + wpc_steps. split; [done|]. intros d <- Hr. unfold core. simpl. rewrite Hps, Hpc, Hq. by apply p_first.
Qed.

Lemma poll_begin_wpc l p :
  consistent (core p) →
  wpc (poll_begin c clock time_monotonic)
    (λ o l' p', match o with
       | Some (Some d) => l' = l ∧ pick d (core p) (core p') ∧ dispatching p' = Some d
       | _ => moved l p l' p'
       end)
    (moved l p) l p.
Proof.
  intros C. unfold poll_begin. assert (Hm : moved l p l p) by apply moved_refl. wpc_step. wpc_step. case_bool_decide as Hl'; cbn [negb]; [|by wpc_step].
  wpc_step. wpc_step; [|done]. wpc_step.
  eapply wpc_mono; [apply next_dispatch_wpc; [done|unfold carries_traffic; set_solver]| |done].
  intros [[w retry]|] l' p' [-> H]; cbv beta iota.
  - wpc_steps. split; [done|]. split; [|done]. simpl. by apply (H {| dispatch_frame := w; is_retry := retry; dispatch_id := dispatch_count p' |}).
  - by wpc_step.
Qed.

(** What happens to a frame that was handed over *)
Definition recorded (d : Dispatch) (l : Lifecycle) (p : Protocol) (l' : Lifecycle) (p' : Protocol) : Prop :=
  moved l p l' p' ∨ l' = l ∧ record d (core p) (core p').

Lemma record_dispatch_wpc d now l p p0 :
  genuine (dispatch_frame d) → dispatching p = Some d → core p0 = core (set_dispatching None p) →
  wpc (_record_dispatch_locked c d now) (λ _ l' p', recorded d l p l' p' ∧ dispatching p' = None)
    (λ l' p', recorded d l p l' p' ∧ dispatching p' = None) l p0.
Proof.
  intros Hg Hd Hp0. assert (Hd0 : dispatching p0 = None) by by apply (f_equal k_sending) in Hp0.
  destruct (genuine_retry _ Hg) as [n Hn]. unfold _record_dispatch_locked. rewrite Hn. wpc_step. wpc_step. wpc_step. wpc_step.
  unfold core in Hp0. simpl in Hp0. injection Hp0 as H1 H2 H3 _ H5. unfold recorded, moved, core. rewrite Hd.
  destruct (kind (dispatch_frame d)) eqn:Hk; try (by destruct Hg as [_ Hg]; rewrite Hk in Hg).
  - assert (Hm : ∀ o t, o = next_pending (pending_command p0) d n t → record d
      (core_at (link p) (pending_command p) (pending_stop p) (Some d) (command_queue p))
      (core_at (link p0) o (pending_stop p0) None (command_queue p0))).
    { intros o t ->. rewrite H1, H2, H3, H5. by eapply r_command. }
    wpc_step. wpc_step; [intros r Hr; wpc_step; simpl|]; rewrite Hd0; (split; [|done]).
    + right. split; [done|]. by eapply Hm.
    + left. split; [done|]. rewrite H1, H2, H3, H5. apply m_unsent.
  - assert (Hm : ∀ o t, o = next_pending (pending_stop p0) d n t → record d
      (core_at (link p) (pending_command p) (pending_stop p) (Some d) (command_queue p))
      (core_at CanLinkState.STOPPING (pending_command p0) o None (command_queue p0))).
    { intros o t ->. rewrite H2, H3, H5. by eapply r_stop. }
    wpc_step. wpc_step. wpc_step. destruct (next_pending _ _ _ _) as [r|] eqn:Hr; cbn [of_option]; wpc_steps; simpl; rewrite Hd0;
      (split; [|done]); right; (split; [done|]).
    + by eapply Hm.
    + eapply Hm. rewrite Hr. unfold next_pending in Hr. by destruct (is_retry d), (pending_stop p0).
Qed.

Lemma poll_sent_wpc d o l p :
  consistent (core p) →
  (rt_state l = DeviceRuntimeState.ACTIVE → ∀ d', dispatching p = Some d' → d' = d) →
  let after l' p' :=
    (moved l p l' p' ∨ rt_state l = DeviceRuntimeState.ACTIVE ∧ l' = l ∧ record d (core p) (core p')) ∧
    (rt_state l = DeviceRuntimeState.ACTIVE → dispatching p' = None) in
  wpc (poll_sent c clock time_monotonic d o) (λ _, after) after l p.
Proof.
  intros C Hd after. destruct o as [| |off]; cbn [poll_sent].
  - wpc_step. wpc_step. case_decide as E.
    + destruct E as [E Hrt]. destruct (dispatching p) as [d'|] eqn:Hd'; [|done]. specialize (Hd Hrt d' eq_refl) as ->.
      assert (Hg : genuine (dispatch_frame d)). { by apply consistent_at in C as (_ & [? _]%(λ H, H d Hd') & _). }
      wpc_step. wpc_step. wpc_step. wpc_step.
      * wpc_step. unfold after, recorded.
        eapply wpc_mono; [by apply (record_dispatch_wpc _ _ l p)| |]; unfold recorded; intros; [wpc_step|]; naive_solver.
      * split; [left|done]. split; [done|]. unfold core. simpl. rewrite Hd'. apply m_unsent.
    + wpc_step. split; [left; apply moved_refl|]. intros Hrt. destruct (dispatching p) as [d'|] eqn:Hd'; [|done].
      destruct E. split; [|done]. by rewrite (Hd Hrt d' eq_refl).
  - wpc_step. eapply wpc_mono; [by apply backpressure_wpc| |]; [intros [] ? ? [? ?]; wpc_step|intros ? ? [? ?]]; unfold after; auto.
  - wpc_step. eapply wpc_mono; [by apply handle_transport_error_wpc| |];
      [intros [] ? ? H; wpc_step|intros ? ? H]; (split; [left; by apply failed_move|]); intros _;
      destruct H as (_ & k & _ & Hk); by apply (f_equal k_sending) in Hk.
Qed.
End Refinement.
