(* ===== verification/CanSystemProofs.v ===== *)
(** * CAN bus adapter: the interleaved system runs the abstract machine

    Every interleaving of the poller, of the lifecycle threads and of the callers
    is an execution of the machine of [CanRefinement]. *)

From Stdlib Require Import ZArith Ascii String SpecFloat.
From S2P Require Import Prelude PyVal Json CanWire CanWireTheorems CanState CanBus CanSystem CanRefinement.
Local Open Scope Z_scope.

(** A thread of [start] before its cleanup *)
Definition starting (t : thread) : bool :=
  match t with
  | TConfigure _ | TConfigured _ _ | TActivating _ | TActivate _ | TOpening _ | TOpenRaised _ | TActivated _ _ | TFinish _ => true
  | _ => false
  end.
Definition starters (ts : list thread) : nat := length (List.filter starting ts).

Definition rt (s : Sys) : DeviceRuntimeState.t := rt_state (life (bus_of s)).
Definition proto_of (s : Sys) : Core := core (proto (bus_of s)).

(** The frame that the poller is about to hand over, or has handed over *)
Definition hand_of (pc : poll_pc) : hand :=
  match pc with PHandOff d => Picked d | PSending d => Handed d | _ => Empty end.

(** The state of the machine that stands for a state of the system *)
Definition machine_of (s : Sys) : Machine := machine_at (proto_of s) (hand_of (poller s)) (mode_of (rt s)).

(** A thread that takes the link down or cleans up *)
Definition ending (t : thread) : bool := match t with TClean _ _ | TShutdownHook _ => true | _ => false end.

Definition before_active (r : DeviceRuntimeState.t) : Prop :=
  r ∈ [DeviceRuntimeState.NEW; DeviceRuntimeState.CONFIGURING; DeviceRuntimeState.CONFIGURED; DeviceRuntimeState.ACTIVATING].

(** The runtime has not been active yet *)
Definition fresh (s : Sys) : Prop := before_active (rt s) ∨ (0 < starters (threads s))%nat.

Lemma starters_app t1 t2 : starters (t1 ++ t2) = (starters t1 + starters t2)%nat.
Proof. unfold starters. by rewrite List.filter_app, length_app. Qed.

Section Sys.
Context (c : CanTransportConfig) (clock wall_clock : nat → option pyval) (time_monotonic : nat → spec_float).

Record sound (s : Sys) : Prop := {
  s_run : run (queue_capacity c) (traffic (trace s)) (machine_of s);
  s_starters : (starters (threads s) ≤ 1)%nat;
  s_settled : rt s = DeviceRuntimeState.NEW ∨ rt s = DeviceRuntimeState.ACTIVE → starters (threads s) = 0%nat;
  s_fresh : fresh s → poller s = PIdle ∧ ∃ l, proto_of s = quiet l;
  s_sending : rt s = DeviceRuntimeState.ACTIVE → ∀ d, k_sending (proto_of s) = Some d →
    poller s = PHandOff d ∨ poller s = PSending d ∨ poller s = PRaised;
  s_ending : ∀ t, t ∈ threads s → ending t = true → mode_of (rt s) = Ending
}.

Lemma init_sound : sound (init c).
Proof.
  split; simpl; try done; [apply run_start|unfold starters; simpl; lia|..].
  - intros _. split_and!; try done. by eexists.
  - intros t []%elem_of_nil.
Qed.

Lemma running_active r : mode_of r = Running → r = DeviceRuntimeState.ACTIVE.
Proof. by destruct r. Qed.

Lemma active_not_fresh s : sound s → rt s = DeviceRuntimeState.ACTIVE → ¬ fresh s.
Proof.
  intros Hs Hrt [H|H].
  - rewrite Hrt in H. unfold before_active in H. set_solver.
  - rewrite (s_settled _ Hs) in H by auto. lia.
Qed.

Lemma fresh_not_running s : sound s → fresh s → mode_of (rt s) ≠ Running.
Proof. intros Hs Hf Hm%running_active. by apply (active_not_fresh s). Qed.

(** A step of the machine keeps the invariant *)
Lemma sound_step s s' es :
  sound s → trace s' = trace s ++ es → mstep (queue_capacity c) (machine_of s) (traffic es) (machine_of s') →
  (starters (threads s') ≤ 1)%nat →
  (rt s' = DeviceRuntimeState.NEW ∨ rt s' = DeviceRuntimeState.ACTIVE → starters (threads s') = 0%nat) →
  (fresh s' → fresh s ∧ poller s' = PIdle) →
  (rt s' = DeviceRuntimeState.ACTIVE → ∀ d, k_sending (proto_of s') = Some d →
    poller s' = PHandOff d ∨ poller s' = PSending d ∨ poller s' = PRaised) →
  (∀ t, t ∈ threads s' → ending t = true → t ∈ threads s ∨ mode_of (rt s') = Ending) →
  sound s'.
Proof.
  intros Hs Ht Hm H1 H2 H3 H4 H5. split; try done.
  - rewrite Ht, traffic_app. by apply (run_step _ _ _ _ _ (s_run _ Hs)).
  - intros Hf'. destruct (H3 Hf') as [Hf Hpo]. destruct (s_fresh _ Hs Hf) as (_ & l & Hl). split; [done|].
    apply (mstep_quiet _ _ _ _ l Hm); [done|]. by apply fresh_not_running.
  - intros t Hin He. destruct (H5 t Hin He) as [Hin'|]; [|done]. by apply (mstep_ending _ _ _ _ Hm), (s_ending _ Hs t).
Qed.

(** The same for a step that leaves the poller alone *)
Lemma sound_other s s' es :
  sound s → trace s' = trace s ++ es → poller s' = poller s →
  mstep (queue_capacity c) (machine_of s) (traffic es) (machine_of s') →
  (starters (threads s') ≤ 1)%nat →
  (rt s' = DeviceRuntimeState.NEW ∨ rt s' = DeviceRuntimeState.ACTIVE → starters (threads s') = 0%nat) →
  (fresh s' → fresh s) →
  (rt s' = DeviceRuntimeState.ACTIVE → rt s = DeviceRuntimeState.ACTIVE ∨ fresh s) →
  (∀ t, t ∈ threads s' → ending t = true → t ∈ threads s ∨ mode_of (rt s') = Ending) →
  sound s'.
Proof.
  intros Hs Ht Hpo Hm H1 H2 H3 H4 H5. eapply sound_step; try done.
  - intros Hf%H3. split; [done|]. rewrite Hpo. by apply (s_fresh _ Hs).
  - intros Hrt' d Hd. rewrite Hpo. destruct (H4 Hrt') as [Hrt|Hf].
    + destruct (mstep_sending _ _ _ _ d Hm Hd) as [Hd'|Hd']; [by apply (s_sending _ Hs Hrt)|].
      simpl in Hd'. rewrite Hpo in Hd'. destruct (poller s); simplify_eq/=; auto.
    + exfalso. destruct (s_fresh _ Hs Hf) as (_ & l & Hl).
      destruct (mstep_quiet _ _ _ _ l Hm Hl (fresh_not_running _ Hs Hf)) as [l' Hl']. simpl in Hl'. by rewrite Hl' in Hd.
Qed.

(** ** The poller *)

Lemma wpc_Ok {A} (m : bus A) Q R b a b' :
  wpc m Q R (life b) (proto b) → m b = (Ok a, b') → Q a (life b') (proto b').
Proof. intros H Hm. specialize (H b eq_refl eq_refl). by rewrite Hm in H. Qed.

Lemma wpc_Raise {A} (m : bus A) Q R b e b' :
  wpc m Q R (life b) (proto b) → m b = (Raise e, b') → R (life b') (proto b').
Proof. intros H Hm. specialize (H b eq_refl eq_refl). by rewrite Hm in H. Qed.

Lemma wpc_any {A} (m : bus A) (Q : A → _ → _ → Prop) R b r b' :
  wpc m Q R (life b) (proto b) → m b = (r, b') → (∀ a l p, Q a l p → R l p) → R (life b') (proto b').
Proof. intros H Hm HQ. specialize (H b eq_refl eq_refl). rewrite Hm in H. destruct r; eauto. Qed.

Lemma sound_poll s es b' pc :
  sound s → ¬ fresh s → rt_state (life b') = rt s →
  mstep (queue_capacity c) (machine_of s) (traffic es) (machine_at (core (proto b')) (hand_of pc) (mode_of (rt s))) →
  (rt s = DeviceRuntimeState.ACTIVE → ∀ d, dispatching (proto b') = Some d → pc = PHandOff d ∨ pc = PSending d ∨ pc = PRaised) →
  sound {| bus_of := b'; poller := pc; threads := threads s; trace := trace s ++ es |}.
Proof.
  intros Hs Hf Hl Hm Hd. eapply (sound_step s _ es); simpl; try done; unfold machine_of, fresh, rt in *; simpl; rewrite ?Hl; try done.
  - apply (s_starters _ Hs).
  - apply (s_settled _ Hs).
  - by left.
Qed.

Lemma polling_not_fresh s : sound s → poller s ≠ PIdle → ¬ fresh s.
Proof. intros Hs Hp Hf. by destruct (s_fresh _ Hs Hf). Qed.

(** The poller between two calls of [transport.send], with no exception on its way *)
Definition between (pc : poll_pc) : Prop := hand_of pc = Empty ∧ pc ≠ PRaised.

Lemma between_idle s d :
  sound s → between (poller s) → rt s = DeviceRuntimeState.ACTIVE → dispatching (proto (bus_of s)) ≠ Some d.
Proof.
  intros Hs [Hh Hp] Hrt Hd. destruct (s_sending _ Hs Hrt d Hd) as [E|[E|E]]; [by rewrite E in Hh..|done].
Qed.

(** A section of the poller that chooses nothing *)
Lemma sound_poll_quiet s b' pc es :
  sound s → poller s ≠ PIdle → between (poller s) → hand_of pc = Empty →
  life b' = life (bus_of s) ∧ move (queue_capacity c) (mode_of (rt s)) (proto_of s) (traffic es) (core (proto b')) →
  sound {| bus_of := b'; poller := pc; threads := threads s; trace := trace s ++ es |}.
Proof.
  intros Hs Hp Hb Hpc [Hl Hm]. apply sound_poll; try done; [by apply polling_not_fresh|by rewrite Hl| |].
  - unfold machine_of. destruct Hb as [-> _]. rewrite Hpc. by apply ms_section.
  - intros Hrt d Hd. by destruct (between_idle s d Hs Hb Hrt); eapply move_sending in Hm.
Qed.

Lemma not_sending_idle s :
  sound s → between (poller s) → rt s = DeviceRuntimeState.ACTIVE → dispatching (proto (bus_of s)) = None.
Proof.
  intros Hs Hb Hrt. destruct (dispatching (proto (bus_of s))) as [d|] eqn:Hd; [|done]. by destruct (between_idle s d Hs Hb Hrt).
Qed.

Lemma sound_consistent s : sound s → consistent (core (proto (bus_of s))).
Proof. intros Hs. apply (run_consistent _ _ _ (s_run _ Hs)). Qed.

Lemma receive_step_moves o b pc b' :
  consistent (core (proto b)) → receive_step c clock wall_clock time_monotonic o b = (pc, b') →
  life b' = life b ∧ move (queue_capacity c) (mode_of (rt_state (life b))) (core (proto b)) [] (core (proto b')).
Proof.
  intros C. destruct o as [x| | | |off|]; simpl.
  - intros [= <- <-]. split; [done|apply m_idle].
  - intros [= <- <-]. split; [done|apply m_idle].
  - destruct (_handle_transport_frame_error c clock wall_clock time_monotonic b) as [r b1] eqn:Hm.
    eapply (wpc_any _ _ (moved c (life b) (proto b))) in Hm; [|by apply frame_error_wpc|done]. by destruct r; intros [= _ <-].
  - destruct (_handle_transport_backpressure c clock time_monotonic b) as [r b1] eqn:Hm.
    pose proof (wpc_any _ _ _ _ _ _ (backpressure_wpc c clock time_monotonic _ _ C) Hm (λ _ _ _ H, H)) as [? _].
    by destruct r; intros [= _ <-].
  - destruct (_handle_transport_error c clock time_monotonic off b) as [r b1] eqn:Hm.
    eapply wpc_any in Hm; [|by apply handle_transport_error_wpc|done]. apply (failed_move c) with (p := proto b) in Hm.
    by destruct r; intros [= _ <-].
  - intros [= <- <-]. split; [done|apply m_idle].
Qed.

Lemma receive_step_hand o b pc b' :
  receive_step c clock wall_clock time_monotonic o b = (pc, b') → hand_of pc = Empty.
Proof.
  destruct o; simpl; repeat case_match; intros [= <- _]; try done; unfold after_ingress; by case_match.
Qed.

(** The return of [transport.send] *)
Lemma poll_sent_sound s d o r b' pc :
  sound s → poller s = PSending d → poll_sent c clock time_monotonic d o (bus_of s) = (r, b') → hand_of pc = Empty →
  sound {| bus_of := b'; poller := pc; threads := threads s; trace := trace s ++ [] |}.
Proof.
  intros Hs Hpo Hr Hpc.
  assert (Hd : rt_state (life (bus_of s)) = DeviceRuntimeState.ACTIVE → ∀ d', dispatching (proto (bus_of s)) = Some d' → d' = d).
  { intros Hrt d' Hd'. destruct (s_sending _ Hs Hrt d' Hd') as [E|[E|E]]; rewrite Hpo in E; by simplify_eq. }
  pose proof (wpc_any _ _ _ _ _ _ (poll_sent_wpc c clock time_monotonic d o _ _ (run_consistent _ _ _ (s_run _ Hs)) Hd) Hr (λ _ _ _ H, H))
    as [Hm Hidle].
  assert (Hl : life b' = life (bus_of s)) by by destruct Hm as [[? _]|(_ & ? & _)].
  apply sound_poll; try done.
  - apply polling_not_fresh; [done|by rewrite Hpo].
  - by rewrite Hl.
  - unfold machine_of, rt. rewrite Hpo, Hpc. destruct Hm as [[_ Hm]|(Hrt & _ & Hm)]; [by apply ms_returned|].
    apply ms_recorded; [by rewrite Hrt|done].
  - intros Hrt d' Hd'. unfold rt in Hrt. by rewrite Hidle in Hd'.
Qed.

Lemma poll_step_sound s es b' pc :
  sound s → poll_step c clock wall_clock time_monotonic (bus_of s) (poller s) es b' pc →
  sound {| bus_of := b'; poller := pc; threads := threads s; trace := trace s ++ es |}.
Proof.
  intros Hs Hstep. assert (C := sound_consistent _ Hs). assert (Hnf := polling_not_fresh s Hs).
  assert (Hidle := not_sending_idle s Hs). remember (bus_of s) as b eqn:Hb. remember (poller s) as po eqn:Hpo.
  assert (Hmach : machine_of s = machine_at (proto_of s) (hand_of po) (mode_of (rt s))) by by rewrite Hpo.
  assert (Hbt : ∀ po', po = po' → between po' → between (poller s)) by by intros ? <-; rewrite Hpo.
  destruct Hstep; subst b.
  - apply sound_poll; try done; [by apply active_not_fresh|rewrite Hmach; apply ms_section, m_idle|].
    intros Hrt d Hd. rewrite Hidle in Hd; done.
  - pose proof (wpc_Ok _ _ _ _ _ _ (poll_begin_wpc c clock time_monotonic _ _ C) H) as Hm. destruct o as [[d|]|].
    + destruct Hm as (Hl & Hm & Hd). apply sound_poll; try done; [by apply Hnf|by rewrite Hl|rewrite Hmach; by apply ms_pick|].
      intros _ d' Hd'. left. simpl. congruence.
    + apply sound_poll_quiet; auto; by rewrite <- Hpo.
    + apply sound_poll_quiet; auto; by rewrite <- Hpo.
  - eapply wpc_Raise in H; [|by apply poll_begin_wpc]. by apply sound_poll_quiet; auto; rewrite <- Hpo.
  - apply sound_poll; try done; [by apply Hnf|rewrite Hmach; apply ms_hand_off|].
    intros Hrt d' Hd'. destruct (s_sending _ Hs Hrt d' Hd') as [E|[E|E]]; rewrite <- Hpo in E; simplify_eq; auto.
  - eapply poll_sent_sound; [done..|]. by destruct more.
  - by eapply poll_sent_sound.
  - apply sound_poll; try done; [by apply Hnf|rewrite Hmach; apply ms_returned, m_idle|auto].
  - apply sound_poll_quiet; auto; try by rewrite <- Hpo. { by eapply receive_step_hand. } by eapply receive_step_moves.
  - eapply wpc_Ok in H; [|apply ingress_main_wpc; [done|by apply Hidle]].
    assert (Hev : traffic (ingress_events s0) = ingress_events s0) by by destruct s0 as [| |[? ? ? []]].
    apply sound_poll_quiet; auto; rewrite <- ?Hpo; try done; [by destruct s0|by rewrite Hev].
  - eapply wpc_Raise in H; [|apply ingress_main_wpc; [done|by apply Hidle]].
    by apply sound_poll_quiet; auto; rewrite <- Hpo.
  - apply sound_poll_quiet; auto; rewrite <- ?Hpo; try done; [by case_match|]. split; [done|apply m_idle].
  - eapply wpc_Ok in H; [|by apply ingress_finish_wpc].
    apply sound_poll_quiet; auto; rewrite <- ?Hpo; try done; by destruct r.
  - eapply wpc_Raise in H; [|by apply ingress_finish_wpc]. by apply sound_poll_quiet; auto; rewrite <- Hpo.
  - pose proof (wpc_any _ _ _ _ _ _ (handle_transport_error_wpc c clock time_monotonic false _ _ C) H (λ _ _ _ H, H)) as (Hl & k & Hk & Hq).
    assert (E : core (proto (match r with Ok _ => b' | Raise _ => worker_dies b' end)) = quiet k) by by destruct r.
    apply sound_poll; [done|by apply Hnf| | |].
    + destruct r; [by rewrite Hl|]. unfold worker_dies, rt. simpl. rewrite Hl. by case_match.
    + rewrite Hmach, E. by apply ms_section, m_fault.
    + intros _ d Hd. apply (f_equal k_sending) in E. simpl in E. congruence.
Qed.

(** ** Lifecycle threads and callers *)

Definition weight (t : thread) : nat := if starting t then 1 else 0.

Lemma starters_split before t after : starters (before ++ t :: after) = (starters before + weight t + starters after)%nat.
Proof. rewrite starters_app. unfold starters, weight. simpl. destruct (starting t); simpl; lia. Qed.

Lemma starters_option before o after :
  starters (before ++ option_list o ++ after) = (starters before + match o with Some t => weight t | None => 0 end + starters after)%nat.
Proof. destruct o; simpl; [by rewrite starters_split|]. rewrite starters_app. lia. Qed.

(** The states a section of [t] that goes on as [o] may lead to *)
Definition advances (t : thread) (o : option thread) (r r' : DeviceRuntimeState.t) : Prop :=
  r' = r ∨
  (r' ≠ DeviceRuntimeState.NEW ∧ (r' = DeviceRuntimeState.ACTIVE → starting t = true ∧ o = None) ∧
   (before_active r' → starting t = true)).

(** The state after a section of another thread than the poller *)
Definition machine_after (s : Sys) (b' : Bus) : Machine :=
  machine_at (core (proto b')) (hand_of (poller s)) (mode_of (rt_state (life b'))).

Lemma sound_thread s before t after es b' o :
  sound s → threads s = before ++ t :: after →
  mstep (queue_capacity c) (machine_of s) (traffic es) (machine_after s b') →
  (∀ t', o = Some t' → starting t' = true → starting t = true) →
  (∀ t', o = Some t' → ending t' = true → ending t = true ∨ mode_of (rt_state (life b')) = Ending) →
  advances t o (rt s) (rt_state (life b')) →
  sound {| bus_of := b'; poller := poller s; threads := before ++ option_list o ++ after; trace := trace s ++ es |}.
Proof.
  intros Hs Ht Hm Ho Hen Hadv. assert (H1 := s_starters _ Hs). assert (H2 := s_settled _ Hs).
  rewrite Ht, starters_split in H1, H2.
  assert (Hst : starting t = true → fresh s).
  { intros E. right. rewrite Ht, starters_split. unfold weight. rewrite E. lia. }
  assert (Hw : (match o with Some t => weight t | None => 0 end ≤ weight t)%nat).
  { unfold weight. destruct o as [t'|]; [|lia]. specialize (Ho t' eq_refl). destruct (starting t'), (starting t); naive_solver. }
  eapply (sound_other s _ es); simpl; try done.
  - rewrite starters_option. lia.
  - rewrite starters_option. unfold rt in *. simpl. intros Hr. destruct Hadv as [E|(Hn & Ha & _)]; [rewrite E in Hr; apply H2 in Hr; lia|].
    destruct Hr as [Hr|Hr]; [done|]. destruct (Ha Hr) as [E ->]. unfold weight in *. rewrite E in *. lia.
  - intros [H|H]; simpl in H.
    + destruct Hadv as [E|(_ & _ & E)]; [left; unfold rt in *; simpl in *; by rewrite <- E|by auto].
    + right. rewrite starters_option in H. rewrite Ht, starters_split. lia.
  - unfold rt in *. simpl. intros Hr. destruct Hadv as [E|(_ & Ha & _)]; [left; congruence|]. right. destruct (Ha Hr). auto.
  - intros t' Hin He. rewrite Ht. rewrite !elem_of_app in Hin. destruct Hin as [Hin|[Hin|Hin]]; [left; set_solver| |left; set_solver].
    destruct o as [t0|]; [|by apply elem_of_nil in Hin]. apply list_elem_of_singleton in Hin as ->.
    destruct (Hen t0 eq_refl He) as [E|E]; [|by right]. right.
    apply (mstep_ending _ _ _ _ Hm). simpl. apply (s_ending _ Hs t); [rewrite Ht; set_solver|done].
Qed.

(** A section that makes a move without a change of the lifecycle *)
Lemma sound_thread_move s before t after es b' o :
  sound s → threads s = before ++ t :: after → life b' = life (bus_of s) →
  move (queue_capacity c) (mode_of (rt s)) (proto_of s) (traffic es) (core (proto b')) →
  (∀ t', o = Some t' → starting t' = true → starting t = true) → (∀ t', o = Some t' → ending t' = true → ending t = true) →
  sound {| bus_of := b'; poller := poller s; threads := before ++ option_list o ++ after; trace := trace s ++ es |}.
Proof.
  intros Hs Ht Hl Hm Ho He. eapply sound_thread; try done.
  - unfold machine_after. rewrite Hl. by apply ms_section.
  - intros t' E E'. left. eauto.
  - left. unfold rt. by rewrite Hl.
Qed.

(** A section that changes the lifecycle only *)
Lemma sound_thread_life s before t after l o :
  sound s → threads s = before ++ t :: after → advances t o (rt s) (rt_state l) →
  (∀ t', o = Some t' → starting t' = true → starting t = true) →
  (∀ t', o = Some t' → ending t' = true → ending t = true ∨ mode_of (rt_state l) = Ending) →
  (mode_of (rt_state l) = mode_of (rt s) ∨ starting t = true ∨ mode_of (rt s) ≠ Running ∧ mode_of (rt_state l) = Ending) →
  (starting t = true → mode_of (rt s) = Ending → mode_of (rt_state l) = Ending) →
  sound {| bus_of := set_life l (bus_of s); poller := poller s; threads := before ++ option_list o ++ after; trace := trace s ++ [] |}.
Proof.
  intros Hs Ht Ha Ho He Hmode Hst. eapply sound_thread; try done. unfold machine_of, machine_after. simpl.
  destruct Hmode as [->|[Hstart|[Hr ->]]]; [apply ms_section, m_idle| |by apply ms_ended].
  assert (Hf : fresh s). { right. rewrite Ht, starters_split. unfold weight. rewrite Hstart. lia. }
  pose proof (fresh_not_running _ Hs Hf) as Hr. destruct (s_fresh _ Hs Hf) as (Hpo & k & Hk). unfold proto_of in *. rewrite Hpo, Hk. simpl.
  specialize (Hst Hstart). destruct (mode_of (rt s)), (mode_of (rt_state l)); try done; try apply ms_activated;
    try (by apply ms_ended); try (apply ms_section, m_idle); by specialize (Hst eq_refl).
Qed.

Ltac solve_starting :=
  match goal with |- ∀ t', _ = Some t' → _ => intros ? ?; repeat case_match; simplify_eq; solve [done|by left|by right] end.

Lemma advances_dead t o r r' :
  r' = DeviceRuntimeState.DEACTIVATING ∨ r' = DeviceRuntimeState.CLEANED ∨ r' = DeviceRuntimeState.FAILED → advances t o r r'.
Proof. intros H. right. unfold before_active. naive_solver set_solver. Qed.

Lemma advances_start t o r r' :
  starting t = true → r' ≠ DeviceRuntimeState.NEW → r' ≠ DeviceRuntimeState.ACTIVE → advances t o r r'.
Proof. intros. right. naive_solver. Qed.

Lemma neutral_run {A} (m : bus A) b r b' : neutral m → m b = (r, b') → life b' = life b ∧ core (proto b') = core (proto b).
Proof. intros Hn Hm. destruct (Hn b) as [H1 H2]. rewrite Hm in H1, H2. simpl in *. by rewrite H2. Qed.

Lemma activate_opened_wpc ok l p k :
  core p = quiet k →
  let after l' p' := l' = l ∧ ∃ k, (k = CanLinkState.ACTIVE → mode_of (rt_state l) = Starting) ∧ core p' = quiet k in
  wpc (activate_opened c clock time_monotonic ok) (λ _, after) after l p.
Proof.
  intros Hp after. unfold core in Hp. injection Hp as _ H2 H3 H4 H5.
  assert (Hq : ∀ k', core (set_link k' p) = quiet k'). { intros. unfold core. simpl. by rewrite H2, H3, H4, H5. }
  unfold activate_opened, after. destruct ok.
  - apply wpc_bind, wpc_modify. intros b Hl Hp. apply wpc_ret. subst. split; [done|]. eexists. split; [|apply Hq].
    case_decide as E; [by rewrite E|done].
  - apply wpc_bind, wpc_on_proto, wpc_bind, wpc_neutral; [auto with neutral|intros; apply wpc_ret|]; rewrite Hq;
      (split; [done|]); by exists CanLinkState.LINK_LOST.
Qed.

Lemma link_failed_inv p : link_failed p = true → link p = CanLinkState.BUS_OFF ∨ link p = CanLinkState.LINK_LOST.
Proof. unfold link_failed. intros H%bool_decide_eq_true. set_solver. Qed.

Lemma deactivate_begin_run b :
  ∃ b', deactivate_begin b = (Ok (opened b), b') ∧ life b' = life b ∧ ∃ l, taken_down (link (proto b)) l ∧ core (proto b') = quiet l.
Proof.
  eexists. split; [reflexivity|]. split; [done|]. simpl. case_match eqn:E; eexists; (split; [|reflexivity]); [by left|].
  right. split; [done|]. rewrite orb_false_iff in E. destruct E as [_ E]. rewrite negb_false_iff in E. by apply link_failed_inv in E.
Qed.

Lemma transport_error_moves off b r b' :
  consistent (core (proto b)) → _handle_transport_error c clock time_monotonic off b = (r, b') →
  life b' = life b ∧ move (queue_capacity c) (mode_of (rt_state (life b))) (core (proto b)) [] (core (proto b')).
Proof.
  intros C H.
  pose proof (wpc_any _ _ _ _ _ _ (handle_transport_error_wpc c clock time_monotonic off _ _ C) H (λ _ _ _ H, H)) as Hf.
  by apply (failed_move c) with (p := proto b) in Hf.
Qed.

Lemma runtime_error_moves b r b' :
  consistent (core (proto b)) → on_runtime_error c clock time_monotonic b = (r, b') →
  life b' = life b ∧ move (queue_capacity c) (mode_of (rt_state (life b))) (core (proto b)) [] (core (proto b')).
Proof. apply transport_error_moves. Qed.

Lemma thread_step_sound s before t after es b' o :
  sound s → threads s = before ++ t :: after → thread_step c clock time_monotonic (bus_of s) t es b' o →
  sound {| bus_of := b'; poller := poller s; threads := before ++ option_list o ++ after; trace := trace s ++ es |}.
Proof.
  intros Hs Ht Hstep. assert (C := sound_consistent _ Hs).
  assert (Hfr : starting t = true → fresh s).
  { intros E. right. rewrite Ht, starters_split. unfold weight. rewrite E. lia. }
  assert (Hen : ending t = true → mode_of (rt s) = Ending).
  { apply (s_ending _ Hs). rewrite Ht. set_solver. }
  assert (Hopen : ∀ l b1 o1, starting t = true → life b1 = life (bus_of s) → (l = CanLinkState.ACTIVE → mode_of (rt s) = Starting) →
    core (proto b1) = quiet l →
    (∀ t', o1 = Some t' → starting t' = true → starting t = true) → (∀ t', o1 = Some t' → ending t' = true → ending t = true) →
    sound {| bus_of := b1; poller := poller s; threads := before ++ option_list o1 ++ after; trace := trace s ++ [] |}).
  { intros l b1 o1 E Hl Hact Hq. destruct (s_fresh _ Hs (Hfr E)) as (_ & k & Hk). apply sound_thread_move with (1:=Hs) (2:=Ht); [done|].
    rewrite Hk, Hq. apply m_open; [by apply fresh_not_running; auto|done]. }
  remember (bus_of s) as b eqn:Hb. destruct Hstep; subst b.
  - eapply sound_thread_move; try done; try solve_starting. apply m_idle.
  - unfold start_configured in H. unfold rt in *. eapply sound_thread_life; try done; try solve_starting; unfold rt;
      repeat case_match; simplify_eq/=; auto; first [by left|by apply advances_start|congruence|by rewrite e|done].
  - unfold start_activating in H. unfold rt in *. eapply sound_thread_life; try done; try solve_starting; unfold rt;
      repeat case_match; simplify_eq/=; auto; first [by left|by apply advances_start|congruence|by rewrite e|done].
  - injection H as <- <-. destruct (s_fresh _ Hs (Hfr eq_refl)) as (_ & k & Hk). apply (Hopen CanLinkState.STARTING); try done; try solve_starting.
    unfold proto_of, core in *. simpl. by injection Hk as _ -> -> -> ->.
  - destruct (s_fresh _ Hs (Hfr eq_refl)) as (_ & k & Hk).
    pose proof (wpc_any _ _ _ _ _ _ (activate_opened_wpc opened _ _ _ Hk) H (λ _ _ _ H, H)) as (Hl & k' & Hact & Hq).
    apply (Hopen k'); try done; solve_starting.
  - eapply sound_thread_move; try done; try solve_starting. apply m_idle.
  - destruct (runtime_error_moves _ _ _ C H) as [Hl Hm]. destruct r; eapply sound_thread_move; try done; solve_starting.
  - unfold start_activated in H. unfold rt in *. eapply sound_thread_life; try done; try solve_starting; unfold rt.
    + case_match; injection H as <- <-; [right; by split_and!|by left].
    + auto.
    + intros _ Hm. case_match eqn:E; injection H as <- _; [|done]. simpl in *.
      rewrite !andb_true_iff, bool_decide_eq_true in E. destruct E as [[_ E] _]. by rewrite E in Hm.
  - injection H as <- _. eapply sound_thread_life; try done; try solve_starting.
    + apply advances_dead. by left.
    + by right; left.
  - destruct (deactivate_begin_run (bus_of s)) as (b1 & Hrun & Hl & k & Hk & Hq). rewrite Hrun in H. injection H as <- <-.
    eapply sound_thread_move; try done; try solve_starting. rewrite Hq. apply m_down; auto.
  - eapply sound_thread_move; try done; try solve_starting. apply m_idle.
  - eapply sound_thread_move; try done; try solve_starting. apply m_idle.
  - apply neutral_run in H as [Hl Hq]; [|unfold deactivate_closed; destruct closed; neutral_tac].
    eapply sound_thread_move; try done; try solve_starting. rewrite Hq. apply m_idle.
  - eapply sound_thread_move; try done; try solve_starting. apply m_idle.
  - destruct (runtime_error_moves _ _ _ C H) as [Hl Hm]. destruct r; eapply sound_thread_move; try done; solve_starting.
  - injection H as _ <-. eapply sound_thread_move; try done; try solve_starting. apply (m_cleanup _ _ (proto_of s)); auto.
  - eapply sound_thread_life; try done; try solve_starting.
    + apply advances_dead. unfold finish_start_end. destruct requested, ok; simpl; auto.
    + left. rewrite Hen by done. unfold finish_start_end. by destruct requested, ok.
  - eapply sound_thread_life; try done; try solve_starting.
    + apply advances_dead. unfold finalize_end. destruct ok; simpl; auto.
    + left. rewrite Hen by done. unfold finalize_end. by destruct ok.
  - injection H as _ <-. eapply sound_thread_move; try done; try solve_starting. apply m_down; [auto|by left].
  - eapply sound_thread_move; try done; try solve_starting. apply m_idle.
  - injection H as <- _. eapply sound_thread_life; try done; try solve_starting; by left.
  - apply neutral_run in H as [Hl Hq]; [|unfold on_runtime_shutdown_timeout; neutral_tac].
    eapply sound_thread_move; try done; try solve_starting. rewrite Hq. apply m_idle.
  - eapply sound_thread_move; try done; try solve_starting. apply m_idle.
  - assert (Hrt : rt_state (life (bus_of s)) = DeviceRuntimeState.DEACTIVATING ∧ rt_state l = rt_state (life (bus_of s))).
    { unfold finalize_begin in H. repeat case_match; simplify_eq. split; [|done]. by eapply bool_decide_eq_true, negb_false_iff. }
    destruct Hrt as [Hrt Hl]. eapply sound_thread_life; try done; unfold rt; rewrite ?Hl; auto; try solve_starting; [by left|].
    right. by rewrite Hrt.
  - eapply sound_thread_move; try done; try solve_starting. apply m_idle.
  - eapply sound_thread_move; try done; try solve_starting. apply m_idle.
  - destruct (transport_error_moves _ _ _ _ C H) as [Hl Hm]. destruct r; eapply sound_thread_move; try done; solve_starting.
  - eapply sound_thread_move; try done; try solve_starting. apply m_idle.
  - eapply sound_thread_move; try done; try solve_starting. apply m_idle.
  - unfold recover_apply, bind, get in H. simpl in H. case_match eqn:E; injection H as <- <-.
    + apply andb_true_iff in E as [[Hrt%bool_decide_eq_true _]%andb_true_iff Hlf%link_failed_inv].
      eapply sound_thread_move; try done; try solve_starting. apply m_recover; [unfold rt; by rewrite Hrt|done].
    + eapply sound_thread_move; try done; try solve_starting. apply m_idle.
  - injection H as <- <-. eapply sound_thread; try done; try solve_starting; [apply ms_section, m_idle|by left].
Qed.

Lemma sound_call s es b' ts :
  sound s → mstep (queue_capacity c) (machine_of s) (traffic es) (machine_after s b') → starters ts = 0%nat →
  rt_state (life b') = rt s ∧ (∀ t, t ∈ ts → ending t = false) ∨ rt_state (life b') = DeviceRuntimeState.DEACTIVATING →
  sound {| bus_of := b'; poller := poller s; threads := threads s ++ ts; trace := trace s ++ es |}.
Proof.
  intros Hs Hm Hts Hrt. unfold fresh, rt in *.
  eapply (sound_other s _ es); simpl; rewrite ?starters_app, ?Hts, ?Nat.add_0_r; try done; unfold fresh, rt in *; simpl;
    rewrite ?starters_app, ?Hts, ?Nat.add_0_r.
  - apply (s_starters _ Hs).
  - destruct Hrt as [[-> _]| ->]; [apply (s_settled _ Hs)|by intros []].
  - intros [H|]; [|by right]. destruct Hrt as [[<- _]|E]; [by left|]. rewrite E in H. unfold before_active in H. set_solver.
  - intros H. left. destruct Hrt as [[]|]; congruence.
  - intros t [Hin|Hin]%elem_of_app He; [by left|]. right. destruct Hrt as [[_ Hn]| ->]; [|done]. by rewrite (Hn t Hin) in He.
Qed.

(** A call that does not change the lifecycle *)
Lemma sound_call_move s es b' :
  sound s → life b' = life (bus_of s) →
  move (queue_capacity c) (mode_of (rt s)) (proto_of s) (traffic es) (core (proto b')) →
  sound {| bus_of := b'; poller := poller s; threads := threads s ++ []; trace := trace s ++ es |}.
Proof.
  intros Hs Hl Hm. apply sound_call; try done.
  - unfold machine_after. rewrite Hl. by apply ms_section.
  - left. unfold rt. rewrite Hl. split; [done|]. intros t []%elem_of_nil.
Qed.

Lemma call_step_sound s es b' ts :
  sound s → call_step c clock time_monotonic (bus_of s) es b' ts →
  sound {| bus_of := b'; poller := poller s; threads := threads s ++ ts; trace := trace s ++ es |}.
Proof.
  intros Hs Hstep. assert (C := sound_consistent _ Hs). remember (bus_of s) as b eqn:Hb. destruct Hstep; subst b.
  - unfold start_enter in H. case_decide as E; [|done]. injection H as <-.
    assert (Hf : fresh s) by (left; unfold rt, before_active; set_solver). assert (H0 := s_settled _ Hs (or_introl E)).
    eapply (sound_other s _ []); simpl; rewrite ?starters_app; unfold machine_of, rt; simpl; rewrite ?H0; auto; try (by intros []); try done.
    + rewrite E. apply ms_section, m_idle.
    + intros t [Hin|Hin]%elem_of_app He; [by left|]. by apply list_elem_of_singleton in Hin as ->.
  - unfold shutdown_enter in H. case_decide; [done|]. injection H as <-. apply sound_call; auto. apply ms_shutdown.
  - unfold recover_begin, begin_operation, bind, get in H. simpl in H. repeat case_match; try done.
    injection H as _ <-. apply sound_call; auto; [apply ms_section, m_idle|].
    left. split; [done|]. by intros t ->%list_elem_of_singleton.
  - pose proof (send_wpc c clock time_monotonic x (life (bus_of s)) _ C) as Hw. destruct r as [r|e].
    + pose proof (wpc_Ok _ _ _ _ _ _ Hw H) as [Hl Hm]. destruct (decode_can_frame x) as [w|]; [|by apply sound_call_move].
      unfold admits in Hm. case_decide as E; by apply sound_call_move.
    + pose proof (wpc_Raise _ _ _ _ _ _ Hw H) as [Hl Hm]. by apply sound_call_move.
  - apply neutral_run in H as [Hl Hq]; [|unfold subscribe; neutral_tac]. apply sound_call_move; auto. rewrite Hq. apply m_idle.
  - apply neutral_run in H as [Hl Hq]; [|unfold unsubscribe; neutral_tac]. apply sound_call_move; auto. rewrite Hq. apply m_idle.
  - apply neutral_run in H as [Hl Hq]; [|unfold take_external; neutral_tac]. apply sound_call_move; auto. rewrite Hq. apply m_idle.
  - apply sound_call; auto; [apply ms_section, m_idle|]. left. split; [done|]. intros t []%elem_of_nil.
Qed.

Lemma sys_step_sound s s' : sound s → sys_step c clock wall_clock time_monotonic s s' → sound s'.
Proof.
  intros Hs Hstep. destruct Hstep.
  - by eapply poll_step_sound.
  - by eapply thread_step_sound.
  - by eapply call_step_sound.
Qed.

Lemma reachable_sound s : reachable_sys c clock wall_clock time_monotonic s → sound s.
Proof.
  intros H. unfold reachable_sys in H. remember (init c) as s0 eqn:E. assert (H0 : sound s0) by (subst; apply init_sound). clear E.
  induction H; eauto using sys_step_sound.
Qed.
End Sys.
