(* ===== verification/CanTheorems.v ===== *)
(** * CAN bus adapter: what goes on the wire

    The properties of every interleaving of the adapter: they are proved on the
    abstract machine and transferred by the refinement. *)

From Stdlib Require Import ZArith Ascii String SpecFloat.
From S2P Require Import Prelude PyVal Json CanWire CanWireTheorems CanState CanBus CanSystem CanScheduler CanRefinement CanSystemProofs.
Local Open Scope Z_scope.

(** ** STOP latches the wire *)

(** A STOP request is accepted by [send] or picked by [poll] *)
Definition announces_stop (e : event) : Prop :=
  match e with EAdmit w | EPick w _ => kind w = CanFrameKind.STOP | _ => False end.
#[global] Instance announces_stop_dec e : Decision (announces_stop e).
Proof. destruct e; simpl; apply _. Defined.

(** A STOP was announced and the link was not recovered since *)
Definition latch (l : bool) (e : event) : bool :=
  match e with ERecovered => false | _ => l || bool_decide (announces_stop e) end.
Definition latched (tr : list event) : bool := foldl latch false tr.

Lemma latched_app t1 t2 : latched (t1 ++ t2) = foldl latch (latched t1) t2.
Proof. apply foldl_app. Qed.

Lemma latch_stays tr : ERecovered ∉ tr → foldl latch true tr = true.
Proof.
  induction tr as [|e tr IH]; intros H; [done|]. apply not_elem_of_cons in H as [He H]. simpl. by destruct e; auto.
Qed.

Lemma latched_after t1 e t2 : announces_stop e → ERecovered ∉ t2 → latched (t1 ++ e :: t2) = true.
Proof.
  intros He Ht. rewrite latched_app. simpl.
  replace (latch (latched t1) e) with true; [by apply latch_stays|].
  destruct e; simpl in *; try done; by rewrite bool_decide_true, orb_true_r by done.
Qed.

(** The frame that is picked fits the phase of the link *)
Lemma pick_kind d s s' :
  pick d s s' → consistent s →
  (kind (dispatch_frame d) = CanFrameKind.STOP ∧ k_link s' ≠ CanLinkState.ACTIVE) ∨
  (kind (dispatch_frame d) = CanFrameKind.COMMAND ∧ k_link s = CanLinkState.ACTIVE ∧ k_link s' = k_link s).
Proof.
  intros Hp C. destruct Hp; apply consistent_at in C as (HQ & HD & HC & HS).
  - apply Forall_cons in HQ as [[_ Hk] _]. simpl. unfold phase in Hk. case_decide; [right|left]; done.
  - right. destruct (HC r eq_refl) as (_ & Hk & ->). destruct H0 as (_ & _ & Hs & _). by rewrite Hs.
  - left. destruct (HS r eq_refl) as (_ & Hk & Hl). destruct H0 as (_ & _ & Hs & _). by rewrite Hs.
  - left. by destruct H0.
Qed.

Lemma move_latched cap m s es s' l :
  move cap m s es s' → m ≠ Starting → (l = true → k_link s ≠ CanLinkState.ACTIVE) →
  foldl latch l es = true → k_link s' ≠ CanLinkState.ACTIVE.
Proof.
  intros Hm Hst Hl Hf. destruct Hm; simpl in *; rewrite ?orb_false_r in Hf; auto.
  - unfold faults in H. case_decide; naive_solver.
  - unfold taken_down in *. naive_solver.
  - destruct H0 as [_ Hc]. rewrite Hc, bool_decide_false, orb_false_r in Hf by done. auto.
Qed.

Lemma record_link d s s' : record d s s' → k_link s ≠ CanLinkState.ACTIVE → k_link s' ≠ CanLinkState.ACTIVE.
Proof. by intros []. Qed.

(** Nothing is announced before the runtime is active *)
Lemma move_starting cap es s' l : move cap Starting (quiet l) es s' → es = [].
Proof. by inversion 1. Qed.

Lemma run_starting cap tr a :
  run cap tr a → m_mode a = Starting → tr = [] ∧ m_hand a = Empty ∧ ∃ l, m_core a = quiet l.
Proof.
  induction 1 as [|tr a es a' Hrun IH Hm]; [naive_solver|]. intros Hst. destruct Hm; simpl in *; simplify_eq.
  - destruct (IH eq_refl) as (-> & -> & l & ->). rewrite (move_starting _ _ _ _ H). split_and!; try done.
    by eapply move_quiet.
  - by destruct (IH eq_refl) as (_ & _ & l & ->); inversion H.
  - by destruct (IH eq_refl) as (_ & ? & _).
  - by destruct (IH eq_refl) as (_ & ? & _).
Qed.

Lemma mstep_latched cap tr a es a' :
  run cap tr a → mstep cap a es a' → (latched tr = true → k_link (m_core a) ≠ CanLinkState.ACTIVE) →
  foldl latch (latched tr) es = true → k_link (m_core a') ≠ CanLinkState.ACTIVE.
Proof.
  intros Hrun Hm Hl Hf. assert (C := run_consistent _ _ _ Hrun). assert (Hst := run_starting _ _ _ Hrun).
  destruct (decide (m_mode a = Starting)) as [E|E].
  - destruct (Hst E) as (-> & Hh & l & Hq). destruct Hm; simpl in *; simplify_eq; try done.
    + by rewrite (move_starting _ _ _ _ H) in Hf.
    + by inversion H.
  - destruct Hm; simpl in *; eauto using move_latched, record_link; [|rewrite orb_false_r in Hf; auto].
    destruct (pick_kind _ _ _ H C) as [[]|(Hc & Ha & ->)]; [done|]. rewrite Hc, bool_decide_false, orb_false_r in Hf by done. auto.
Qed.

Lemma run_latched cap tr a : run cap tr a → latched tr = true → k_link (m_core a) ≠ CanLinkState.ACTIVE.
Proof. induction 1 as [|tr a es a' Hrun IH Hm]; [done|]. rewrite latched_app. by eapply mstep_latched. Qed.

(** A step makes at most one event *)
Lemma mstep_events cap a es a' : mstep cap a es a' → es = [] ∨ ∃ e, es = [e].
Proof. intros []; eauto. destruct H; eauto. Qed.

(** The last event of an execution *)
Lemma run_last cap tr e a :
  run cap (tr ++ [e]) a → ∃ a0 a1, run cap tr a0 ∧ mstep cap a0 [e] a1.
Proof.
  remember (tr ++ [e]) as t eqn:E. intros H. induction H as [|tr0 a es a' Hrun IH Hm].
  - by destruct tr.
  - destruct (mstep_events _ _ _ _ Hm) as [-> |[e1 ->]].
    + rewrite app_nil_r in E. by apply IH.
    + apply app_inj_2 in E as [-> [= ->]]; [|done]. by exists a, a'.
Qed.

(** Every prefix of an execution is one *)
Lemma run_prefix cap t1 t2 a : run cap (t1 ++ t2) a → ∃ a', run cap t1 a'.
Proof.
  remember (t1 ++ t2) as t eqn:E. intros H. revert t1 t2 E. induction H as [|tr a es a' Hrun IH Hm]; intros t1 t2 E.
  - apply eq_sym, app_eq_nil in E as [-> _]. eexists. apply run_start.
  - destruct (mstep_events _ _ _ _ Hm) as [-> |[e1 ->]]; [|destruct t2 as [|e2 t2 _] using rev_ind].
    + rewrite app_nil_r in E. by eapply IH.
    + rewrite app_nil_r in E. subst t1. exists a'. by eapply run_step.
    + rewrite app_assoc in E. apply app_inj_2 in E as [E _]; [|done]. by eapply IH.
Qed.

(** The execution up to an event *)
Lemma run_split cap t1 e t2 a :
  run cap (t1 ++ e :: t2) a → ∃ a0 a1, run cap t1 a0 ∧ mstep cap a0 [e] a1.
Proof.
  replace (t1 ++ e :: t2) with ((t1 ++ [e]) ++ t2) by by rewrite <- app_assoc.
  intros [a' H]%run_prefix. by eapply run_last.
Qed.

(** ** A frame that is handed over was picked, and nothing was handed over since *)

Definition picked_last (w : CanWireFrame) (retry : bool) (tr : list event) : Prop :=
  ∃ t1 t2, tr = t1 ++ EPick w retry :: t2 ∧ ∀ w' retry', ESend w' retry' ∉ t2.

Lemma picked_last_app w retry tr es :
  picked_last w retry tr → (∀ w' retry', ESend w' retry' ∉ es) → picked_last w retry (tr ++ es).
Proof.
  intros (t1 & t2 & -> & H) He. exists t1, (t2 ++ es). rewrite <- app_assoc. split; [done|]. set_solver.
Qed.

Lemma move_no_send cap m s es s' : move cap m s es s' → ∀ w retry, ESend w retry ∉ es.
Proof. intros []; set_solver. Qed.

Lemma run_picked cap tr a d :
  run cap tr a → m_hand a = Picked d → picked_last (dispatch_frame d) (is_retry d) tr.
Proof.
  induction 1 as [|tr a es a' Hrun IH Hm]; [done|]. intros Hh. destruct Hm; simpl in *; simplify_eq.
  - apply picked_last_app; [auto|by eapply move_no_send].
  - exists tr, []. split; [done|]. set_solver.
  - rewrite app_nil_r. auto.
  - rewrite app_nil_r. auto.
Qed.

Lemma run_send cap t1 w retry t2 a : run cap (t1 ++ ESend w retry :: t2) a → picked_last w retry t1.
Proof.
  intros (a0 & a1 & Hrun & Hm)%run_split. inversion Hm; subst.
  - exfalso. eapply move_no_send; [eassumption|]. by apply list_elem_of_singleton.
  - by apply (run_picked _ _ _ _ Hrun).
Qed.

Lemma run_pick_kind cap t1 w retry t2 a :
  run cap (t1 ++ EPick w retry :: t2) a → latched t1 = true → kind w = CanFrameKind.STOP.
Proof.
  intros (a0 & a1 & Hrun & Hm)%run_split Hl. assert (Hk := run_latched _ _ _ Hrun Hl). assert (C := run_consistent _ _ _ Hrun).
  inversion Hm as [? ? ? ? ? H|? ? ? ? H| | | | | | ]; subst; [by inversion H|].
  destruct (pick_kind _ _ _ H C) as [[]|(_ & Ha & _)]; done.
Qed.

(** A split of the traffic is a split of the trace *)
Lemma traffic_split tr t1 e t2 :
  traffic tr = t1 ++ e :: t2 → ∃ tr1 tr2, tr = tr1 ++ e :: tr2 ∧ traffic tr1 = t1 ∧ traffic tr2 = t2.
Proof.
  revert t1. induction tr as [|e0 tr IH]; intros t1 H; [by destruct t1|]. unfold traffic in H. simpl in H.
  destruct (is_traffic e0) eqn:E.
  - destruct t1 as [|e1 t1]; simpl in H; injection H as -> H; [by exists [], tr|].
    destruct (IH t1 H) as (tr1 & tr2 & -> & <- & <-). exists (e1 :: tr1), tr2. split_and!; try done. unfold traffic. simpl. by rewrite E.
  - destruct (IH t1 H) as (tr1 & tr2 & -> & <- & <-). exists (e0 :: tr1), tr2. split_and!; try done. unfold traffic. simpl. by rewrite E.
Qed.

Lemma traffic_cons e tr : is_traffic e = true → traffic (e :: tr) = e :: traffic tr.
Proof. intros H. unfold traffic. simpl. by rewrite H. Qed.

Lemma elem_of_traffic e tr : e ∈ traffic tr → e ∈ tr.
Proof. unfold traffic. rewrite !list_elem_of_In, List.filter_In. by intros []. Qed.

(** ** A confirmation answers a transmission *)

(** Every retry count that a pending request accepts was transmitted *)
Definition transmitted (tr : list event) (r : PendingRequest) : Prop :=
  ∀ n, n ∈ sent_retry_counts r → ∃ w retry, ESend w retry ∈ tr ∧ same_request (wire_frame r) w ∧ retry_count w = Some n.

Record history (tr : list event) (a : Machine) : Prop := {
  h_command : ∀ r, k_command (m_core a) = Some r → transmitted tr r;
  h_stop : ∀ r, k_stop (m_core a) = Some r → transmitted tr r;
  h_handed : ∀ d, m_hand a = Handed d → ESend (dispatch_frame d) (is_retry d) ∈ tr;
  (** A retry in flight repeats what is pending *)
  h_retry : ∀ d r, k_sending (m_core a) = Some d → is_retry d = true →
    k_command (m_core a) = Some r ∧ kind (dispatch_frame d) = CanFrameKind.COMMAND ∨
    k_stop (m_core a) = Some r ∧ kind (dispatch_frame d) = CanFrameKind.STOP → same_request (wire_frame r) (dispatch_frame d)
}.

Lemma transmitted_app tr es r : transmitted tr r → transmitted (tr ++ es) r.
Proof. intros H n Hn. destruct (H n Hn) as (w & b & ? & ?). exists w, b. split; [|done]. apply elem_of_app. by left. Qed.

Lemma same_request_refl w : same_request w w.
Proof. done. Qed.

Lemma same_request_trans w1 w2 w3 : same_request w1 w2 → same_request w2 w3 → same_request w1 w3.
Proof. unfold same_request. intros (? & ? & ?) (? & ? & ?). split_and!; congruence. Qed.

Lemma same_request_sym w1 w2 : same_request w1 w2 → same_request w2 w1.
Proof. unfold same_request. intros (? & ? & ?). split_and!; congruence. Qed.

Lemma transmitted_next tr o d n t r :
  (∀ r, o = Some r → transmitted tr r) → ESend (dispatch_frame d) (is_retry d) ∈ tr →
  retry_count (dispatch_frame d) = Some n →
  (∀ r, o = Some r → is_retry d = true → same_request (wire_frame r) (dispatch_frame d)) →
  next_pending o d n t = Some r → transmitted tr r.
Proof.
  intros Ho Hd Hn Hsame Hr. unfold next_pending in Hr. destruct (is_retry d) eqn:Er.
  - destruct o as [r0|]; [|done]. injection Hr as <-. intros m [Hm%elem_of_singleton|Hm]%elem_of_union; simpl in *.
    + subst m. by exists (dispatch_frame d), true.
    + destruct (Ho r0 eq_refl m Hm) as (w & b & ? & Hs & ?). exists w, b. split_and!; try done.
      eapply same_request_trans; [|done]. apply same_request_sym. auto.
  - injection Hr as <-. intros m Hm. simpl in *. apply elem_of_singleton in Hm as ->. by exists (dispatch_frame d), false.
Qed.

(** What a section that picks and records nothing keeps *)
Lemma move_pending cap m s es s' :
  move cap m s es s' →
  (∀ r, k_command s' = Some r → k_command s = Some r) ∧ (∀ r, k_stop s' = Some r → k_stop s = Some r).
Proof. by intros []. Qed.

Lemma move_history cap tr s h m es s' h' :
  move cap m s es s' → (h' = h ∨ h' = Empty) → history tr (machine_at s h m) → history (tr ++ es) (machine_at s' h' m).
Proof.
  intros Hm Hh [H1 H2 H3 H4]. destruct (move_pending _ _ _ _ _ Hm) as [P1 P2]. simpl in *. split; simpl.
  - intros r Hr. apply transmitted_app. auto.
  - intros r Hr. apply transmitted_app. auto.
  - intros d Hd. apply elem_of_app. left. destruct Hh as [->| ->]; [auto|done].
  - intros d r Hd Hr Hp. apply (H4 d r); [by eapply move_sending|done|naive_solver].
Qed.

Lemma pick_history tr s d m es s' :
  pick d s s' → consistent s → history tr (machine_at s Empty m) → history (tr ++ es) (machine_at s' (Picked d) m).
Proof.
  intros Hp C [H1 H2 _ H4]. destruct Hp; simpl in *; split; simpl; try done; eauto using transmitted_app.
  - naive_solver.
  - intros d' r' [= <-] _ [[[= <-] _]|[? _]]; [by destruct H0 as (_ & _ & ?)|done].
  - intros d' r' [= <-] _ Hr. destruct H0 as (_ & _ & Hsame). destruct Hr as [[_ Hk]|[[= <-] _]]; [|done].
    destruct Hsame as (E & _). by rewrite E, (c_stop _ C r eq_refl) in Hk.
  - intros d' r' [= <-] Hr. congruence.
Qed.

Lemma record_history tr s d m s' :
  record d s s' → history tr (machine_at s (Handed d) m) → history tr (machine_at s' Empty m).
Proof.
  intros Hr [H1 H2 H3 H4]. destruct Hr; simpl in *; split; simpl; try done; eauto; intros r Hr.
  - eapply (transmitted_next tr pc); eauto.
  - eapply (transmitted_next tr ps); eauto.
Qed.

Lemma mstep_history cap tr a es a' :
  mstep cap a es a' → consistent (m_core a) → history tr a → history (tr ++ es) a'.
Proof.
  intros Hm C Hh. destruct Hm; rewrite ?app_nil_r; eauto using move_history, pick_history, record_history.
  - destruct Hh as [H1 H2 _ H4]. split; simpl in *; eauto using transmitted_app.
    intros d' [= <-]. apply elem_of_app. right. by apply list_elem_of_singleton.
  - rewrite <- (app_nil_r tr). eauto using move_history.
  - by destruct Hh as [H1 H2 H3 H4]; split.
  - by destruct Hh as [H1 H2 H3 H4]; split.
  - by destruct Hh as [H1 H2 H3 H4]; split.
Qed.

Lemma run_history cap tr a : run cap tr a → history tr a.
Proof.
  induction 1 as [|tr a es a' Hrun IH Hm]; [by split|]. eapply mstep_history; [done|by eapply run_consistent|done].
Qed.

Lemma same_response_key w w' : same_request w w' → _response_key w' = _response_key w.
Proof. unfold same_request, _response_key. by intros (-> & -> & ->). Qed.

(** What the move that confirms knows *)
Lemma mstep_confirm cap a w a' :
  mstep cap a [EConfirm w] a' →
  ∃ r, (k_command (m_core a) = Some r ∨ k_stop (m_core a) = Some r) ∧ answers r w ∧ accepted w.
Proof. inversion 1 as [? ? ? ? ? Hm| | | | | | | ]; subst. inversion Hm; subst; eexists; simpl; eauto. Qed.

(** ** No request is confirmed twice *)

Definition key_weight (o : option CorrelationKey) (k : CorrelationKey) : nat := if decide (o = Some k) then 1 else 0.

(** The acknowledgements of [k] that confirmed a request *)
Definition confirmations (k : CorrelationKey) (tr : list event) : nat :=
  sum_list_with (λ e, match e with EConfirm w => key_weight (_correlation_key w) k | _ => 0%nat end) tr.
(** The requests answered by [k] that were transmitted, retries not counted *)
Definition transmissions (k : CorrelationKey) (tr : list event) : nat :=
  sum_list_with (λ e, match e with ESend w false => key_weight (_response_key w) k | _ => 0%nat end) tr.

(** The transmitted requests that may still be confirmed *)
Definition pending_weight (k : CorrelationKey) (o : option PendingRequest) : nat :=
  match o with Some r => key_weight (_response_key (wire_frame r)) k | None => 0%nat end.
Definition outstanding (k : CorrelationKey) (a : Machine) : nat :=
  (pending_weight k (k_command (m_core a)) + pending_weight k (k_stop (m_core a)) +
   match m_hand a with
   | Handed d => if is_retry d then 0 else key_weight (_response_key (dispatch_frame d)) k
   | _ => 0
   end)%nat.

Lemma outstanding_next k o d n t :
  (∀ r, o = Some r → is_retry d = true → same_request (wire_frame r) (dispatch_frame d)) →
  (pending_weight k (next_pending o d n t) ≤
   pending_weight k o + if is_retry d then 0 else key_weight (_response_key (dispatch_frame d)) k)%nat.
Proof.
  intros Hs. unfold next_pending. destruct (is_retry d), o as [r|]; simpl; try lia.
  rewrite (same_response_key _ _ (Hs r eq_refl eq_refl)). lia.
Qed.

Lemma move_counts cap k m s es s' :
  move cap m s es s' →
  (confirmations k es + pending_weight k (k_command s') + pending_weight k (k_stop s') ≤
   pending_weight k (k_command s) + pending_weight k (k_stop s))%nat ∧ transmissions k es = 0%nat.
Proof.
  intros []; unfold confirmations, transmissions, pending_weight; simpl; split; try lia.
  - destruct H as (n & -> & _). lia.
  - destruct H as (n & -> & _). lia.
Qed.

Lemma mstep_counts cap k tr a es a' :
  mstep cap a es a' → history tr a → (confirmations k es + outstanding k a' ≤ outstanding k a + transmissions k es)%nat.
Proof.
  intros Hm [_ _ _ H4]. unfold outstanding. destruct Hm; simpl in *; try lia.
  - destruct (move_counts _ k _ _ _ _ H) as [? ->]. lia.
  - unfold confirmations, transmissions. simpl. by destruct H; simpl; lia.
  - destruct H0; simpl in *; assert (Hn := outstanding_next k).
    + specialize (Hn pc d n t). specialize (Hn ltac:(intros; apply H4; auto)). unfold confirmations, transmissions. simpl. lia.
    + specialize (Hn ps d n t). specialize (Hn ltac:(intros; apply H4; auto)). unfold confirmations, transmissions. simpl. lia.
  - destruct (move_counts _ k _ _ _ _ H) as [? _]. lia.
Qed.

Lemma run_counts cap k tr a :
  run cap tr a → (confirmations k tr + outstanding k a ≤ transmissions k tr)%nat.
Proof.
  induction 1 as [|tr a es a' Hrun IH Hm]; [done|]. unfold confirmations, transmissions in *. rewrite !sum_list_with_app.
  assert (H := mstep_counts cap k tr a es a' Hm (run_history _ _ _ Hrun)).
  unfold confirmations, transmissions in H. lia.
Qed.

(** ** The command queue *)

(** A request is in flight or pending *)
Definition busy (s : Core) : nat :=
  match k_sending s, k_command s, k_stop s with None, None, None => 0 | _, _, _ => 1 end.

Lemma mstep_queue cap a es a' :
  (0 < cap)%nat → mstep cap a es a' → (length (k_queue (m_core a)) + busy (m_core a) ≤ S cap)%nat →
  (length (k_queue (m_core a')) + busy (m_core a') ≤ S cap)%nat.
Proof.
  intros Hcap Hm. unfold busy. destruct Hm as [? ? ? ? ? H|? ? ? ? H|?|? ? ? ? ? H|? ? ? ? H|?|? ? ? Hne|?]; try destruct H; simpl;
    rewrite ?length_app; simpl; try lia.
  all: repeat case_match; simplify_eq/=; try lia.
Qed.

Lemma run_queue cap tr a :
  (0 < cap)%nat → run cap tr a → (length (k_queue (m_core a)) + busy (m_core a) ≤ S cap)%nat.
Proof. intros Hcap. induction 1; [unfold busy; simpl; lia|]. by eapply mstep_queue. Qed.

Section Theorems.
Context (c : CanTransportConfig) (clock wall_clock : nat → option pyval) (time_monotonic : nat → spec_float).
Abbreviation reachable := (reachable_sys c clock wall_clock time_monotonic).

(** C21: Every interleaving of the poller, the lifecycle threads and the callers
    of [SafeCANBus] is an execution of the abstract request machine: each section
    under the lock, whether it returns or raises, makes one of its moves, with the
    guards of that move, and [transport.send] is called between the section that
    picks a frame and the one that records it, so that sections of other threads
    may come in between. *)
Theorem adapter_refines_the_request_machine (s : Sys) :
  reachable s → run (queue_capacity c) (traffic (trace s)) (machine_of s).
Proof. intros H. apply (s_run _ _ (reachable_sound _ _ _ _ _ H)). Qed.

Lemma stop_latches_picks s before e between after w retry :
  reachable s → trace s = before ++ e :: between ++ EPick w retry :: after →
  announces_stop e → ERecovered ∉ between → kind w = CanFrameKind.STOP.
Proof.
  intros H Ht He Hb. assert (Hrun := s_run _ _ (reachable_sound _ _ _ _ _ H)).
  assert (Htr : traffic (trace s) = (traffic before ++ e :: traffic between) ++ EPick w retry :: traffic after).
  { rewrite Ht, traffic_app, traffic_cons, traffic_app, traffic_cons by (done || by destruct e). by rewrite <- app_assoc. }
  rewrite Htr in Hrun. eapply run_pick_kind; [done|]. apply latched_after; [done|]. by intros ?%elem_of_traffic.
Qed.

(** A frame that is handed over was picked before, with no other hand-over since *)
Lemma sends_were_picked s before after w retry :
  reachable s → trace s = before ++ ESend w retry :: after → picked_last w retry before.
Proof.
  intros H Ht. assert (Hrun := s_run _ _ (reachable_sound _ _ _ _ _ H)).
  rewrite Ht, traffic_app, traffic_cons in Hrun by done. apply run_send in Hrun as (t1 & t2 & Hb & Hno).
  apply traffic_split in Hb as (b1 & b2 & -> & _ & <-). exists b1, b2. split; [done|].
  intros w' retry' Hin. apply (Hno w' retry'). unfold traffic. rewrite list_elem_of_In in Hin |- *. by apply List.filter_In.
Qed.

(** C22: Once [send] accepted a STOP, or [poll] picked one, [poll] picks only STOP
    frames until [recover] makes the link active again, whatever the callers, the
    clocks, the transport and the device do; and a command frame that is handed to
    the transport nevertheless was picked before the STOP, with no other frame
    handed over between the choice and the hand-over, so that there is at most
    one. *)
Theorem stop_latches_the_wire (s : Sys) (before between after : list event) (e x : event) :
  reachable s → trace s = before ++ e :: between ++ x :: after → announces_stop e → ERecovered ∉ between →
  match x with
  | EPick w _ => kind w = CanFrameKind.STOP
  | ESend w retry =>
      kind w = CanFrameKind.STOP ∨
      ∃ earlier since, before = earlier ++ EPick w retry :: since ∧ ∀ w' retry', ESend w' retry' ∉ since ++ between
  | _ => True
  end.
Proof.
  intros H Ht He Hb. destruct x as [| |w retry| | | |]; try done; [by eapply stop_latches_picks|].
  destruct (decide (kind w = CanFrameKind.STOP)) as [|Hk]; [by left|right].
  destruct (sends_were_picked s (before ++ e :: between) after w retry) as (t1 & t2 & Hp & Hno); [done|by rewrite <- app_assoc|].
  apply app_eq_inv in Hp as [(k & -> & Hk')|(k & -> & Hk')].
  - destruct k as [|e' k]; simpl in Hk'; injection Hk' as <- ->; [by destruct He; destruct Hk|].
    exists t1, k. split; [done|]. intros w' retry' Hin. apply (Hno w' retry'). set_solver.
  - exfalso. destruct k as [|e' k]; simpl in Hk'; [injection Hk' as -> _; by destruct Hk|]. injection Hk' as <- Hbt. apply Hk.
    eapply (stop_latches_picks s before e k _ w retry H); [|done|].
    + rewrite Ht, Hbt, <- app_assoc. done.
    + rewrite Hbt in Hb. set_solver.
Qed.

(** C23: A request is reported as confirmed only for an accepted acknowledgement
    that answers a frame which was handed to the transport before it: the same
    kind of request, command identifier, opcode and retry count. *)
Theorem confirmations_answer_transmissions (s : Sys) (before after : list event) (w : CanWireFrame) :
  reachable s → trace s = before ++ EConfirm w :: after →
  result_code w = Some _WireResult.ACCEPTED ∧
  ∃ sent retry, ESend sent retry ∈ before ∧ _response_key sent = _correlation_key w ∧ retry_count sent = retry_count w.
Proof.
  intros H Ht. assert (Hrun := s_run _ _ (reachable_sound _ _ _ _ _ H)).
  rewrite Ht, traffic_app, traffic_cons in Hrun by done. apply run_split in Hrun as (s0 & s1 & Hrun & Hm).
  apply mstep_confirm in Hm as (r & Hr & (n & Hkey & Hn & Hin) & Hacc). split; [done|].
  destruct (run_history _ _ _ Hrun) as [H1 H2 _ _].
  assert (Htr : transmitted (traffic before) r) by (destruct Hr; auto).
  destruct (Htr n Hin) as (sent & retry & Hs & Hsame & Hc). exists sent, retry. split; [by apply elem_of_traffic|].
  by rewrite (same_response_key _ _ Hsame), Hkey, Hn.
Qed.

Lemma confirmations_traffic k tr : confirmations k (traffic tr) = confirmations k tr.
Proof. unfold confirmations, traffic. induction tr as [|[] tr IH]; simpl; auto. Qed.

Lemma transmissions_traffic k tr : transmissions k (traffic tr) = transmissions k tr.
Proof. unfold transmissions, traffic. induction tr as [|[] tr IH]; simpl; auto. Qed.

(** A request is confirmed at most once: for every correlation key, at any
    time, there are no more confirmations than first transmissions of a request
    that the key answers, however often the device repeats its acknowledgement
    and however often the request was retried. *)
Theorem requests_are_confirmed_at_most_once (s : Sys) (k : CorrelationKey) :
  reachable s → (confirmations k (trace s) ≤ transmissions k (trace s))%nat.
Proof.
  intros H. assert (Hc := run_counts _ k _ _ (s_run _ _ (reachable_sound _ _ _ _ _ H))).
  rewrite confirmations_traffic, transmissions_traffic in Hc. lia.
Qed.
End Theorems.

(** ** The example run *)

Lemma sample_reachable : reachable_sys sample_config zero_clock zero_clock zero_time sample_state.
Proof. exact (acts_rtc _ _ _ _ _ _ _ sample_runs). Qed.

Definition sample_ack_wire : CanWireFrame :=
  response_frame (plain_frame 0x101 [0x10; 0; 7; 1; 0; 0; 0; 1]) CanFrameKind.ACK 7 1 0 0 0 1.
Definition sample_stop_wire : CanWireFrame :=
  request_frame (plain_frame 0x080 [0x10; 0x90; 0; 5; 0; 0; 0; 0]) CanFrameKind.STOP 0x9000 5 0.

Lemma adapter_refines_the_request_machine_witness :
  reachable_sys sample_config zero_clock zero_clock zero_time sample_state ∧
  run 4 (traffic (trace sample_state)) (machine_of sample_state).
Proof.
  split; [exact sample_reachable|].
  exact (adapter_refines_the_request_machine sample_config zero_clock zero_clock zero_time sample_state sample_reachable).
Defined.

(** A STOP is accepted after a command was picked and before it is handed over *)
Definition raced_actions : list action :=
  start_actions ++ [ASend a_command] ++ repeat (poll GotNothing) 2 ++ [ASend a_stop] ++ repeat (poll GotNothing) 1.
Definition raced_state : Sys := evaluate sample_config raced_actions.
Lemma raced_runs : acts sample_config zero_clock zero_clock zero_time raced_actions (init sample_config) = Some raced_state.
Proof. runs. Qed.

Definition sample_command_wire : CanWireFrame :=
  request_frame (plain_frame 0x100 [0x10; 0; 7; 1; 0; 0; 0; 0]) CanFrameKind.COMMAND 7 1 0.

(** [poll] hands its frame over after it released the lock: a STOP that [send]
    accepts in between does not hold the command back. *)
Theorem accepted_stop_lets_a_picked_command_out :
  reachable_sys sample_config zero_clock zero_clock zero_time raced_state ∧
  trace raced_state = [EAdmit sample_command_wire; EPick sample_command_wire false; EAdmit sample_stop_wire;
                       ESend sample_command_wire false].
Proof. split; [exact (acts_rtc _ _ _ _ _ _ _ raced_runs)|vm_compute; reflexivity]. Qed.

Lemma stop_latches_the_wire_witness :
  (trace raced_state = take 2 (trace raced_state) ++ EAdmit sample_stop_wire :: [] ++ [ESend sample_command_wire false] ∧
   (kind sample_command_wire = CanFrameKind.STOP ∨
    ∃ earlier since, take 2 (trace raced_state) = earlier ++ EPick sample_command_wire false :: since ∧
      ∀ w' retry', ESend w' retry' ∉ since ++ [])) ∧
  trace sample_state = take 5 (trace sample_state) ++ EAdmit sample_stop_wire :: [] ++ EPick sample_stop_wire false :: drop 7 (trace sample_state) ∧
  kind sample_stop_wire = CanFrameKind.STOP.
Proof.
  assert (E : trace raced_state = take 2 (trace raced_state) ++ EAdmit sample_stop_wire :: [] ++ [ESend sample_command_wire false])
    by (vm_compute; reflexivity).
  assert (E' : trace sample_state = take 5 (trace sample_state) ++ EAdmit sample_stop_wire :: [] ++ EPick sample_stop_wire false :: drop 7 (trace sample_state))
    by (vm_compute; reflexivity).
  split; split; [exact E| |exact E'|].
  - exact (stop_latches_the_wire sample_config zero_clock zero_clock zero_time raced_state _ [] [] _ _
      (acts_rtc _ _ _ _ _ _ _ raced_runs) E eq_refl (not_elem_of_nil _)).
  - exact (stop_latches_the_wire sample_config zero_clock zero_clock zero_time sample_state _ [] _ _ _
      sample_reachable E' eq_refl (not_elem_of_nil _)).
Defined.

Lemma confirmations_answer_transmissions_witness :
  trace sample_state = take 3 (trace sample_state) ++ EConfirm sample_ack_wire :: drop 4 (trace sample_state) ∧
  result_code sample_ack_wire = Some _WireResult.ACCEPTED ∧
  ∃ sent retry, ESend sent retry ∈ take 3 (trace sample_state) ∧ _response_key sent = _correlation_key sample_ack_wire ∧
    retry_count sent = retry_count sample_ack_wire.
Proof.
  assert (E : trace sample_state = take 3 (trace sample_state) ++ EConfirm sample_ack_wire :: drop 4 (trace sample_state))
    by (vm_compute; reflexivity).
  split; [exact E|].
  exact (confirmations_answer_transmissions sample_config zero_clock zero_clock zero_time sample_state _ _ _ sample_reachable E).
Defined.

Lemma requests_are_confirmed_at_most_once_witness :
  confirmations (CanFrameKind.ACK, 7%Z, 1%Z) (trace sample_state) = 1%nat ∧
  (confirmations (CanFrameKind.ACK, 7%Z, 1%Z) (trace sample_state) ≤ transmissions (CanFrameKind.ACK, 7%Z, 1%Z) (trace sample_state))%nat.
Proof.
  split; [vm_compute; reflexivity|].
  exact (requests_are_confirmed_at_most_once sample_config zero_clock zero_clock zero_time sample_state _ sample_reachable).
Defined.

(** The loop of [_new_stop_frame_locked] tries one identifier more than one
    window holds, but two windows remember identifiers: after two rejected STOPs
    and an unanswered one, a command that is not acknowledged makes [poll] raise
    [RuntimeError] while the link is still ACTIVE, and no STOP is sent. *)
Theorem stop_identifiers_can_run_out :
  valid_config small_config = true ∧
  reachable_sys small_config ticking_clock ticking_clock zero_time exhausted_state ∧
  poller exhausted_state = PRaised ∧ link (proto (bus_of exhausted_state)) = CanLinkState.ACTIVE ∧
  pending_command (proto (bus_of exhausted_state)) = None ∧
  last (event_code <$> trace exhausted_state) = Some "send command".
Proof.
  split; [vm_compute; reflexivity|]. split; [exact (acts_rtc _ _ _ _ _ _ _ exhaustion_runs)|].
  split_and!; vm_compute; reflexivity.
Qed.
