(* ===== verification/CanBounds.v ===== *)
(** * CAN bus adapter: every plane is bounded

    The health, telemetry and external planes, the subscriber lists and the two
    correlation windows keep to their configured capacities in every reachable
    state, and the external plane holds accepted frames only. *)

From Stdlib Require Import ZArith Ascii String SpecFloat.
From S2P Require Import Prelude PyVal Json CanWire CanWireTheorems CanState CanBus CanSystem CanScheduler CanRefinement CanSystemProofs CanTheorems.
Local Open Scope Z_scope.

(** ** Correlation windows *)

Record window_ok (cap : nat) (w : window) : Prop := {
  w_length : (length (key_order w) ≤ cap)%nat;
  w_nodup : NoDup (key_order w);
  w_keys : ∀ k, k ∈ key_order w ↔ is_Some (retries_of w !! k)
}.

Lemma window_ok_empty cap : window_ok cap empty_window.
Proof. split; simpl; [lia|constructor|]. intros k. rewrite elem_of_nil, lookup_empty. by split; [|intros []]. Qed.

Lemma window_size cap w : window_ok cap w → (size (retries_of w) ≤ cap)%nat.
Proof.
  intros [Hl Hn Hk]. rewrite <- size_dom. transitivity (size (list_to_set (key_order w) : gset CorrelationKey)).
  - apply subseteq_size. intros k Hin. apply elem_of_list_to_set, Hk. by apply elem_of_dom.
  - rewrite size_list_to_set by done. done.
Qed.

Lemma elem_of_remove_key k x l : NoDup l → x ∈ remove_first k l ↔ x ∈ l ∧ x ≠ k.
Proof.
  induction l as [|y l IH]; simpl; intros Hn; [set_solver|]. apply NoDup_cons in Hn as [Hy Hn].
  case_decide as E; [subst y|rewrite elem_of_cons, IH by done]; set_solver.
Qed.

Lemma remove_first_nodup k l : NoDup l → NoDup (remove_first k l).
Proof.
  induction l as [|y l IH]; simpl; intros Hn; [done|]. pose proof Hn as [Hy Hn']%NoDup_cons.
  case_decide; [done|]. apply NoDup_cons. split; [|auto]. rewrite elem_of_remove_key by done. tauto.
Qed.

Lemma evict_ok n cap w :
  NoDup (key_order w) → (∀ k, k ∈ key_order w ↔ is_Some (retries_of w !! k)) → (length (key_order w) ≤ cap + n)%nat →
  window_ok cap (evict n w).
Proof.
  revert w. induction n as [|n IH]; intros w Hn Hk Hl; [split; simpl; [lia|done..]|]. simpl.
  destruct (key_order w) as [|k ks] eqn:E; [split; rewrite ?E in *; simpl in *; [lia|done..]|].
  apply NoDup_cons in Hn as [Hnk Hn]. apply IH; simpl in *; [done| |lia].
  intros k'. destruct (decide (k' = k)) as [->|Hne].
  - rewrite lookup_delete_eq. split; [done|by intros []].
  - rewrite lookup_delete_ne by done. rewrite <- Hk. set_solver.
Qed.

Lemma remember_key_ok c k retries w :
  window_ok (correlation_capacity c) w → window_ok (correlation_capacity c) (remember_key c k retries w).
Proof.
  intros [Hl Hn Hk]. unfold remember_key. cbv zeta.
  set (order := if decide (k ∈ dom (retries_of w)) then remove_first k (key_order w) else key_order w).
  assert (Ho : ∀ x, x ∈ order ↔ x ∈ key_order w ∧ x ≠ k).
  { intros x. unfold order. case_decide as E; [by apply elem_of_remove_key|].
    split; [|by intros []]. intros Hx. split; [done|]. intros ->. apply E, elem_of_dom, Hk, Hx. }
  assert (Hon : NoDup order) by (unfold order; case_decide; auto using remove_first_nodup).
  apply evict_ok; simpl.
  - apply NoDup_app. split_and!; [done| |apply NoDup_singleton]. intros x [_ Hx]%Ho. by rewrite list_elem_of_singleton.
  - intros x. rewrite elem_of_app, list_elem_of_singleton, Ho, Hk. destruct (decide (x = k)) as [->|Hne].
    + rewrite lookup_insert_eq. naive_solver.
    + rewrite lookup_insert_ne by done. naive_solver.
  - rewrite length_app. simpl. lia.
Qed.

(** ** The planes *)

Definition exposed_ok (r : CanExternalRecord) : Prop :=
  record_ok r = true ∧ x_exposure_allowed r = true ∧ x_status r = CanReceiveStatus.ACCEPTED ∧ x_frame_valid r = true.

Record bounded (c : CanTransportConfig) (b : Bus) : Prop := {
  b_health : (length (health_queue (planes b)) ≤ health_bound c)%nat;
  b_telemetry : (length (telemetry_queue (planes b)) ≤ telemetry_capacity c)%nat;
  b_external : (length (external_queue (planes b)) ≤ external_capacity c)%nat;
  b_exposed : Forall exposed_ok (external_queue (planes b));
  b_subscribers : ∀ id l, subscribers (planes b) !! id = Some l → (length l ≤ max_subscribers_per_id c)%nat;
  b_completed : window_ok (correlation_capacity c) (completed (proto b));
  b_timed_out : window_ok (correlation_capacity c) (timed_out (proto b));
  b_stop_id : 0x8000 <= next_stop_command_id (proto b) <= 0xFFFF
}.

Lemma push_bounded_length {A} cap (l : list A) a :
  (0 < cap)%nat → (length l ≤ cap)%nat → (length (push_bounded cap l a).1 ≤ cap)%nat.
Proof.
  intros Hc Hl. unfold push_bounded. case_match eqn:E; simpl; rewrite length_app; simpl.
  - apply Nat.leb_le in E. destruct l; simpl in *; lia.
  - apply Nat.leb_gt in E. lia.
Qed.

Lemma push_bounded_Forall {A} (P : A → Prop) cap l a : Forall P l → P a → Forall P (push_bounded cap l a).1.
Proof.
  intros Hl Ha. unfold push_bounded. case_match; simpl; apply Forall_app; (split; [|by apply Forall_singleton]); [|done].
  destruct l; [done|]. by apply Forall_cons in Hl as [_ ?].
Qed.

(** What a section may assign without touching a bounded plane *)
Lemma bounded_same c b b' :
  planes b' = planes b → completed (proto b') = completed (proto b) → timed_out (proto b') = timed_out (proto b) →
  next_stop_command_id (proto b') = next_stop_command_id (proto b) → bounded c b → bounded c b'.
Proof. intros H1 H2 H3 H4 []. by split; rewrite ?H1, ?H2, ?H3, ?H4. Qed.

Section Bounded.
Context (c : CanTransportConfig) (clock wall_clock : nat → option pyval) (time_monotonic : nat → spec_float).
Hypothesis Hc : valid_config c = true.

Lemma capacities_positive :
  (0 < queue_capacity c ∧ 0 < telemetry_capacity c ∧ 0 < health_bound c ∧ 0 < external_capacity c ∧
   0 < max_subscribers_per_id c)%nat.
Proof.
  unfold valid_config in Hc. rewrite !andb_true_iff, !Nat.ltb_lt in Hc. unfold health_bound. naive_solver lia.
Qed.

Abbreviation keeps m := (preserves (E := bus_exn) (bounded c) m).

Lemma keeps_health d : keeps (modify (on_planes (_record_health_locked c d))).
Proof.
  apply preserves_modify. intros b []. destruct capacities_positive as (_ & _ & Hh & _).
  unfold on_planes, _record_health_locked. destruct (push_bounded _ _ _) as [l n] eqn:E. split; simpl; try done.
  replace l with (push_bounded (health_bound c) (health_queue (planes b)) d).1 by by rewrite E. by apply push_bounded_length.
Qed.

Lemma keeps_publish_telemetry w : keeps (modify (on_planes (publish_telemetry c w))).
Proof.
  apply preserves_modify. intros b []. destruct capacities_positive as (_ & Hh & _).
  unfold on_planes, publish_telemetry. destruct (push_bounded _ _ _) as [l n] eqn:E. split; simpl; try done.
  replace l with (push_bounded (telemetry_capacity c) (telemetry_queue (planes b)) w).1 by by rewrite E. by apply push_bounded_length.
Qed.

Lemma keeps_publish_external r : exposed_ok r → keeps (modify (on_planes (publish_external c r))).
Proof.
  intros Hr. apply preserves_modify. intros b []. destruct capacities_positive as (_ & _ & _ & Hh & _).
  unfold on_planes, publish_external. destruct (push_bounded _ _ _) as [l n] eqn:E.
  assert (El : l = (push_bounded (external_capacity c) (external_queue (planes b)) r).1) by by rewrite E.
  split; simpl; try done; rewrite El; [by apply push_bounded_length|by apply push_bounded_Forall].
Qed.

Lemma keeps_lift {A} (o : outcome wire_exn A) : keeps (lift_wire o).
Proof. by destruct o; intros b. Qed.

Create HintDb keeps.
Hint Resolve keeps_health keeps_publish_telemetry keeps_lift : keeps.

(** Cuts a section into its assignments; those that touch no bounded plane are closed *)
Ltac keeps_tac :=
  repeat first
    [ progress intros | solve [eauto 1 with keeps] | apply preserves_bind | apply preserves_ret | apply preserves_raise | apply preserves_get
    | apply preserves_require | apply preserves_of_option
    | apply preserves_modify; intros; eapply bounded_same; [..|eassumption]; solve [simpl; repeat case_match; reflexivity]
    | case_match ].

Lemma keeps_monotonic : keeps (_safe_monotonic_locked clock time_monotonic).
Proof. unfold _safe_monotonic_locked, read_clock, read_time. keeps_tac. Qed.
Hint Resolve keeps_monotonic : keeps.

Lemma keeps_diagnostic code id : keeps (_record_diagnostic_locked c clock time_monotonic code id).
Proof. unfold _record_diagnostic_locked. keeps_tac. Qed.
Hint Resolve keeps_diagnostic : keeps.

Lemma keeps_timed_out r : keeps (remember_timed_out c r).
Proof.
  unfold remember_timed_out. apply preserves_bind; [apply preserves_of_option|intros k]. apply preserves_modify.
  intros b []. split; simpl; try done. by apply remember_key_ok.
Qed.
Lemma keeps_completed r : keeps (remember_completed c r).
Proof.
  unfold remember_completed. apply preserves_bind; [apply preserves_of_option|intros k]. apply preserves_modify.
  intros b []. split; simpl; try done. by apply remember_key_ok.
Qed.
Hint Resolve keeps_timed_out keeps_completed : keeps.

Lemma keeps_remember_option o : keeps (remember_option c o).
Proof. unfold remember_option. keeps_tac. Qed.
Hint Resolve keeps_remember_option : keeps.

Lemma keeps_transport_error off : keeps (_handle_transport_error c clock time_monotonic off).
Proof. unfold _handle_transport_error. keeps_tac. Qed.
Hint Resolve keeps_transport_error : keeps.

Lemma keeps_fail_clock : keeps (_fail_clock_locked c clock time_monotonic).
Proof. unfold _fail_clock_locked. keeps_tac. Qed.
Hint Resolve keeps_fail_clock : keeps.

Lemma keeps_backpressure : keeps (_handle_transport_backpressure c clock time_monotonic).
Proof. unfold _handle_transport_backpressure. keeps_tac. Qed.

Lemma keeps_preempt : keeps (_preempt_for_stop_locked c clock time_monotonic).
Proof. unfold _preempt_for_stop_locked. keeps_tac. Qed.
Lemma keeps_admit w : keeps (_admit_command_locked c clock time_monotonic w).
Proof. unfold _admit_command_locked. keeps_tac. Qed.
Hint Resolve keeps_preempt keeps_admit keeps_backpressure : keeps.

Lemma keeps_send x : keeps (send c clock time_monotonic x).
Proof. unfold send, submit_command. keeps_tac. Qed.

Lemma keeps_new_stop n : keeps (new_stop_frame n).
Proof.
  induction n as [|n IH]; [apply preserves_raise|]. intros b Hb. cbn [new_stop_frame]. unfold bind, get, modify. cbv beta iota zeta.
  match goal with |- context [on_proto ?f b] => assert (H : bounded c (on_proto f b)) end.
  { destruct Hb. split; simpl; try done. destruct (_ =? _) eqn:E; [lia|]. apply Z.eqb_neq in E. lia. }
  destruct (_correlation_id_in_use_locked _ _ _); [by apply IH|by apply keeps_lift].
Qed.
Lemma keeps_retry r now budget code : keeps (_retry_or_timeout_locked c clock time_monotonic r now budget code).
Proof. unfold _retry_or_timeout_locked. keeps_tac. Qed.
Hint Resolve keeps_new_stop keeps_retry : keeps.

Lemma keeps_poll_begin : keeps (poll_begin c clock time_monotonic).
Proof. unfold poll_begin, _next_dispatch_locked, _new_stop_frame_locked. keeps_tac. Qed.

Lemma keeps_poll_sent d o : keeps (poll_sent c clock time_monotonic d o).
Proof. unfold poll_sent, _record_dispatch_locked. keeps_tac. Qed.

Lemma keeps_observe f : keeps (_observe_ingress_locked c clock wall_clock time_monotonic f).
Proof. unfold _observe_ingress_locked, ingress_time, read_clock, read_wall_clock. cbv zeta. keeps_tac. Qed.
Hint Resolve keeps_observe : keeps.

Lemma keeps_envelope w : keeps (_make_envelope_locked c clock wall_clock time_monotonic w).
Proof. unfold _make_envelope_locked. keeps_tac. Qed.
Hint Resolve keeps_envelope : keeps.

Lemma keeps_require {A} t e (k : bus A) : (t = true → keeps k) → keeps (bind (require t e) (λ _, k)).
Proof. intros H s Hs. rewrite bind_require. destruct t; [by apply H|done]. Qed.

Lemma record_exposed a o h refs :
  record_ok (external_record c a o h refs) = true → a_exposure a = true → exposed_ok (external_record c a o h refs).
Proof.
  intros H Ha. split; [done|]. split; [done|]. unfold record_ok in H. rewrite !andb_true_iff in H.
  assert (Hx : negb (x_exposure_allowed (external_record c a o h refs)) || (x_frame_valid (external_record c a o h refs) &&
    bool_decide (x_status (external_record c a o h refs) = CanReceiveStatus.ACCEPTED)) = true) by tauto.
  cbn [x_exposure_allowed external_record] in Hx. rewrite Ha in Hx. cbn [negb orb] in Hx.
  apply andb_true_iff in Hx as [? ?%bool_decide_eq_true]. done.
Qed.

Lemma keeps_external_record a : keeps (_make_external_record_locked c clock wall_clock time_monotonic a).
Proof.
  unfold _make_external_record_locked. cbv zeta.
  apply preserves_bind; [apply preserves_get|intros b0]. apply preserves_bind; [keeps_tac|intros o].
  apply preserves_bind; [apply preserves_get|intros b]. 
  set (r := external_record _ _ _ _ _). apply keeps_require. intros Hr. apply preserves_bind; [|intros; apply preserves_ret].
  destruct (a_exposure a) eqn:Ha; [|apply preserves_ret]. cbn [andb]. case_match; [|apply preserves_ret].
  apply preserves_bind; [apply keeps_publish_external, record_exposed; done|keeps_tac].
Qed.
Hint Resolve keeps_external_record : keeps.

Lemma keeps_correlate w : keeps (_correlate_received_locked c clock time_monotonic w).
Proof. unfold _correlate_received_locked, correlate_telemetry, complete_request, unmatched. keeps_tac. Qed.
Lemma keeps_take_telemetry : keeps take_telemetry.
Proof.
  unfold take_telemetry. intros b Hb. unfold bind, get. simpl. destruct (telemetry_queue (planes b)) eqn:E; [done|].
  destruct Hb. rewrite E in b_telemetry0. split; simpl in *; try done; lia.
Qed.
Hint Resolve keeps_correlate keeps_take_telemetry : keeps.

Lemma keeps_ingress_main x : keeps (ingress_main c clock wall_clock time_monotonic x).
Proof. unfold ingress_main, ingress_valid, ingress_error_frame. cbv zeta. keeps_tac. Qed.

Lemma keeps_repeat n id : keeps (repeat_diagnostic c clock time_monotonic n id).
Proof. induction n; simpl; keeps_tac. Qed.
Hint Resolve keeps_repeat : keeps.

Lemma keeps_ingress_finish v n : keeps (ingress_finish c clock wall_clock time_monotonic v n).
Proof. unfold ingress_finish. keeps_tac. Qed.

Lemma keeps_frame_error : keeps (_handle_transport_frame_error c clock wall_clock time_monotonic).
Proof. unfold _handle_transport_frame_error. keeps_tac. Qed.

Lemma keeps_recover token : keeps (recover_apply token).
Proof. unfold recover_apply. keeps_tac. Qed.
Lemma keeps_recover_begin : keeps recover_begin.
Proof. unfold recover_begin, begin_operation. keeps_tac. Qed.
Lemma keeps_end_operation : keeps end_operation.
Proof. unfold end_operation. keeps_tac. Qed.
Lemma keeps_shutdown_hook : keeps on_runtime_shutdown_requested.
Proof. unfold on_runtime_shutdown_requested. keeps_tac. Qed.
Lemma keeps_shutdown_timeout : keeps (on_runtime_shutdown_timeout c clock time_monotonic).
Proof. unfold on_runtime_shutdown_timeout. keeps_tac. Qed.
Lemma keeps_activate : keeps activate_begin.
Proof. unfold activate_begin. keeps_tac. Qed.
Lemma keeps_opened ok : keeps (activate_opened c clock time_monotonic ok).
Proof. unfold activate_opened. keeps_tac. Qed.
Lemma keeps_deactivate : keeps deactivate_begin.
Proof. unfold deactivate_begin. keeps_tac. Qed.
Lemma keeps_closed ok : keeps (deactivate_closed c clock time_monotonic ok).
Proof. unfold deactivate_closed. keeps_tac. Qed.

(** The planes a section empties *)
Lemma bounded_emptied b b' :
  health_queue (planes b') = health_queue (planes b) → telemetry_queue (planes b') = [] → external_queue (planes b') = [] →
  (subscribers (planes b') = subscribers (planes b) ∨ subscribers (planes b') = ∅) →
  completed (proto b') = completed (proto b) → timed_out (proto b') = timed_out (proto b) →
  next_stop_command_id (proto b') = next_stop_command_id (proto b) → bounded c b → bounded c b'.
Proof.
  intros H1 H2 H3 H4 H5 H6 H7 []. split; rewrite ?H1, ?H2, ?H3, ?H5, ?H6, ?H7; simpl; try done; try lia.
  destruct H4 as [->| ->]; [done|]. by intros id l; rewrite lookup_empty.
Qed.

Lemma keeps_cleanup : keeps cleanup.
Proof.
  unfold cleanup. apply preserves_bind; [|keeps_tac]. apply preserves_modify. intros b. apply bounded_emptied; try done. by right.
Qed.

Lemma keeps_take_external : keeps take_external.
Proof.
  unfold take_external. intros b Hb. unfold bind, get. simpl. destruct (external_queue (planes b)) eqn:E; [done|].
  destruct Hb. rewrite E in b_external0, b_exposed0. split; simpl in *; try done; [lia|]. by apply Forall_cons in b_exposed0 as [_ ?].
Qed.

Lemma keeps_subscribe id h : keeps (subscribe c id h).
Proof.
  unfold subscribe. intros b Hb. destruct capacities_positive as (_ & _ & _ & _ & Hm).
  set (old := default [] (subscribers (planes b) !! id)).
  assert (Hold : (length old ≤ max_subscribers_per_id c)%nat).
  { unfold old. destruct (subscribers (planes b) !! id) eqn:E; simpl; [by eapply b_subscribers|lia]. }
  assert (Hput : ∀ l b0, bounded c b0 → (length l ≤ max_subscribers_per_id c)%nat →
    bounded c (on_planes (set_subscribers (<[id:=l]> (subscribers (planes b)))) b0)).
  { intros l b0 [] Hl. split; simpl; try done. intros id' l' [[_ <-]|[_ H]]%lookup_insert_Some; [done|]. by eapply b_subscribers. }
  unfold bind, get, modify. cbv beta iota zeta. fold old. destruct (_ || _) eqn:E; simpl; [by apply Hput|].
  apply Hput; [by apply Hput|]. rewrite length_app. apply orb_false_iff in E as [_ E%Nat.leb_gt]. simpl. lia.
Qed.

Lemma list_difference_length {A} `{EqDecision A} (l k : list A) : (length (list_difference l k) ≤ length l)%nat.
Proof. induction l as [|x l IH]; simpl; [lia|]. case_decide; simpl; lia. Qed.

Lemma keeps_unsubscribe id h : keeps (unsubscribe id h).
Proof.
  unfold unsubscribe. intros b Hb. unfold bind, get. simpl. destruct (subscribers (planes b) !! id) as [l|] eqn:El; [|done].
  case_decide; [|done]. simpl. destruct Hb. split; simpl; try done. intros id' l'.
  assert (Hd := list_difference_length l [h]). assert (Hl := b_subscribers0 id l El).
  destruct (list_difference l [h]) eqn:Ed.
  - intros [_ H']%lookup_delete_Some. eauto.
  - intros [[_ <-]|[_ H']]%lookup_insert_Some; [lia|eauto].
Qed.

(** ** Every step *)

Lemma keeps_run {A} (m : bus A) b r b' : m b = (r, b') → keeps m → bounded c b → bounded c b'.
Proof. intros Hm Hk Hb. specialize (Hk b Hb). by rewrite Hm in Hk. Qed.

Lemma bounded_life l b : bounded c b → bounded c (set_life l b).
Proof. by apply bounded_same. Qed.
Hint Resolve bounded_life : keeps.
Hint Resolve keeps_send keeps_poll_begin keeps_poll_sent keeps_ingress_main keeps_ingress_finish keeps_frame_error keeps_recover
  keeps_recover_begin keeps_end_operation keeps_shutdown_hook keeps_shutdown_timeout keeps_activate keeps_opened keeps_deactivate
  keeps_closed keeps_cleanup keeps_take_external keeps_subscribe keeps_unsubscribe : keeps.

Lemma keeps_runtime_error : keeps (on_runtime_error c clock time_monotonic).
Proof. apply keeps_transport_error. Qed.
Hint Resolve keeps_runtime_error : keeps.

Lemma receive_bounded o b pc b' :
  receive_step c clock wall_clock time_monotonic o b = (pc, b') → bounded c b → bounded c b'.
Proof.
  intros H Hb. destruct o as [x| | | |off|]; simpl in H; [by injection H as _ <-..| | | |by injection H as _ <-].
  - destruct (_handle_transport_frame_error c clock wall_clock time_monotonic b) as [r b1] eqn:E.
    eapply keeps_run in E; [|auto with keeps|done]. by destruct r; injection H as _ <-.
  - destruct (_handle_transport_backpressure c clock time_monotonic b) as [r b1] eqn:E.
    eapply keeps_run in E; [|auto with keeps|done]. by destruct r; injection H as _ <-.
  - destruct (_handle_transport_error c clock time_monotonic off b) as [r b1] eqn:E.
    eapply keeps_run in E; [|auto with keeps|done]. by destruct r; injection H as _ <-.
Qed.

Lemma poll_bounded b pc es b' pc' :
  poll_step c clock wall_clock time_monotonic b pc es b' pc' → bounded c b → bounded c b'.
Proof.
  intros Hstep Hb; destruct Hstep; try done; try (by eapply keeps_run; [eassumption|auto with keeps|done]);
    [by eapply receive_bounded|].
  eapply keeps_run in H; [|auto with keeps|done]. destruct r; [done|]. by apply bounded_life.
Qed.

Lemma thread_bounded b t es b' o : thread_step c clock time_monotonic b t es b' o → bounded c b → bounded c b'.
Proof.
  intros [] Hb; try done; try (by apply bounded_life); by eapply keeps_run; [eassumption|auto with keeps|done].
Qed.

Lemma call_bounded b es b' ts : call_step c clock time_monotonic b es b' ts → bounded c b → bounded c b'.
Proof.
  intros [] Hb; try (by apply bounded_life); try (by eapply keeps_run; [eassumption|auto with keeps|done]).
  unfold shutdown_enter in H. case_decide; [done|]. injection H as <-. eapply bounded_emptied; [..|exact Hb]; try done. by left.
Qed.

Lemma new_bounded : bounded c (new_bus c).
Proof.
  split; simpl; try lia; try apply window_ok_empty; [by apply Forall_nil|intros id l; by rewrite lookup_empty|].
  unfold valid_config in Hc. rewrite !andb_true_iff in Hc. destruct Hc as (((((_ & H2%Z.leb_le) & H3%Z.leb_le) & _) & _) & _). lia.
Qed.

Lemma reachable_bounded s : reachable_sys c clock wall_clock time_monotonic s → bounded c (bus_of s).
Proof.
  intros H. unfold reachable_sys in H. remember (init c) as s0 eqn:E.
  assert (H0 : bounded c (bus_of s0)) by (subst; apply new_bounded). clear E.
  induction H as [|x y z Hstep _ IH]; [done|]. apply IH. destruct Hstep; simpl; eauto using poll_bounded, thread_bounded, call_bounded.
Qed.
End Bounded.

(** C24: Whatever the callers, the transport and the device do, the planes keep
    to their configured sizes: the health, telemetry and external queues, the
    handlers of every identifier and both correlation windows to their capacity,
    and the command queue to one more than its capacity (the request that
    [_handle_transport_backpressure] puts back). *)
Theorem planes_are_bounded c clock wall_clock time_monotonic (s : Sys) :
  valid_config c = true → reachable_sys c clock wall_clock time_monotonic s →
  let q := planes (bus_of s) in let p := proto (bus_of s) in
  (length (command_queue p) ≤ S (queue_capacity c) ∧
   length (health_queue q) ≤ Nat.min (health_capacity c) (diagnostic_capacity c) ∧
   length (telemetry_queue q) ≤ telemetry_capacity c ∧
   length (external_queue q) ≤ external_capacity c ∧
   (∀ id handlers, subscribers q !! id = Some handlers → length handlers ≤ max_subscribers_per_id c) ∧
   size (retries_of (completed p)) ≤ correlation_capacity c ∧
   size (retries_of (timed_out p)) ≤ correlation_capacity c)%nat.
Proof.
  intros Hc Hs. destruct (reachable_bounded c clock wall_clock time_monotonic Hc s Hs) as [Hh Ht Hx _ Hsub Hco Hti _].
  assert (Hq := run_queue _ _ _ (proj1 (capacities_positive c Hc)) (s_run _ _ (reachable_sound _ _ _ _ _ Hs))).
  simpl in *. split_and!; try done; [lia|by apply window_size..].
Qed.

Lemma planes_are_bounded_witness :
  valid_config sample_config = true ∧ (length (command_queue (proto (bus_of sample_state))) ≤ 5)%nat.
Proof.
  split; [vm_compute; reflexivity|].
  exact (proj1 (planes_are_bounded sample_config zero_clock zero_clock zero_time sample_state
    ltac:(vm_compute; reflexivity) sample_reachable)).
Defined.

(** A record on the external plane is always of an accepted frame, valid and
    allowed for exposure, and passes [CanExternalRecord]'s own checks: a frame
    that was malformed, duplicate, late or uncorrelated is never exposed. *)
Theorem only_accepted_frames_are_exposed c clock wall_clock time_monotonic (s : Sys) (r : CanExternalRecord) :
  valid_config c = true → reachable_sys c clock wall_clock time_monotonic s →
  r ∈ external_queue (planes (bus_of s)) →
  x_status r = CanReceiveStatus.ACCEPTED ∧ x_frame_valid r = true ∧ x_exposure_allowed r = true ∧ record_ok r = true.
Proof.
  intros Hc Hs Hr. destruct (reachable_bounded c clock wall_clock time_monotonic Hc s Hs) as [_ _ _ He _ _ _ _].
  rewrite Forall_forall in He. destruct (He r Hr) as (? & ? & ? & ?). done.
Qed.

Lemma only_accepted_frames_are_exposed_witness :
  ∃ r, r ∈ external_queue (planes (bus_of sample_state)) ∧ x_status r = CanReceiveStatus.ACCEPTED.
Proof.
  destruct (external_queue (planes (bus_of sample_state))) as [|r l] eqn:E; [exfalso; revert E; vm_compute; discriminate|].
  exists r. split; [apply list_elem_of_here|].
  refine (proj1 (only_accepted_frames_are_exposed sample_config zero_clock zero_clock zero_time sample_state r
    ltac:(vm_compute; reflexivity) sample_reachable _)).
  rewrite E. apply list_elem_of_here.
Defined.
