(* ===== verification/CanTimeout.v ===== *)
(** * CAN bus adapter: an unanswered command ends in a STOP

    The escalation of [_retry_or_timeout_locked], [_next_dispatch_locked] and
    [_new_stop_frame_locked]: with a working clock and an unused STOP identifier,
    [poll] hands a STOP to the transport when the retries of a command are used
    up. *)

From Stdlib Require Import ZArith Ascii String SpecFloat.
From S2P Require Import Prelude PyVal Json CanWire CanWireTheorems CanState CanBus CanSystem CanScheduler CanRefinement CanSystemProofs CanTheorems CanBounds.
Local Open Scope prog_scope.
Local Open Scope Z_scope.

(** [m] returns from [b], into [Q] *)
Definition yields {A} (m : bus A) (b : Bus) (Q : A → Bus → Prop) : Prop := ∃ a b', m b = (Ok a, b') ∧ Q a b'.

Lemma yields_ret {A} (a : A) b (Q : A → Bus → Prop) : Q a b → yields (ret a) b Q.
Proof. intros H. by exists a, b. Qed.
Lemma yields_get b (Q : Bus → Bus → Prop) : Q b b → yields get b Q.
Proof. intros H. by exists b, b. Qed.
Lemma yields_modify f b (Q : () → Bus → Prop) : Q () (f b) → yields (modify f) b Q.
Proof. intros H. by exists (), (f b). Qed.
Lemma yields_bind {A B} (m : bus A) (k : A → bus B) b Q :
  yields m b (λ a b', yields (k a) b' Q) → yields (bind m k) b Q.
Proof. intros (a & b' & Hm & a' & b'' & Hk & HQ). exists a', b''. split; [|done]. unfold bind. by rewrite Hm. Qed.
Lemma yields_mono {A} (m : bus A) b (Q Q' : A → Bus → Prop) : yields m b Q → (∀ a b', Q a b' → Q' a b') → yields m b Q'.
Proof. intros (a & b' & Hm & HQ) H. exists a, b'. eauto. Qed.

Ltac yields_step :=
  match goal with
  | |- yields (bind _ _) _ _ => apply yields_bind
  | |- yields (ret _) _ _ => apply yields_ret
  | |- yields get _ _ => apply yields_get
  | |- yields (modify _) _ _ => apply yields_modify
  end; cbv beta.

(** ** STOP identifiers *)

Definition next_id (id : Z) : Z := if id =? 0xFFFF then 0x8000 else id + 1.

(** The STOP identifiers that the two windows remember *)
Definition used_ids (p : Protocol) : list Z :=
  (λ k : CorrelationKey, k.1.2) <$> filter (λ k, k.1.1 = CanFrameKind.STOP_ACK)
    (elements (dom (retries_of (completed p))) ++ elements (dom (retries_of (timed_out p)))).

Lemma in_use_stop p id :
  (∀ w, w ∈ request_candidates p → kind w ≠ CanFrameKind.STOP) →
  _correlation_id_in_use_locked CanFrameKind.STOP (Some id) p = true → id ∈ used_ids p.
Proof.
  intros Hno. unfold _correlation_id_in_use_locked. cbv zeta. rewrite orb_true_iff, !existsb_exists.
  intros [(w & Hw%list_elem_of_In & H)|(k & Hk%list_elem_of_In & H)].
  - apply andb_true_iff in H as [H%bool_decide_eq_true _]. by destruct (Hno w Hw).
  - apply andb_true_iff in H as [H1%bool_decide_eq_true H2%Z.eqb_eq]. apply list_elem_of_fmap. exists k. split; [done|].
    by apply list_elem_of_filter.
Qed.

Lemma used_in_use p id : id ∈ used_ids p → _correlation_id_in_use_locked CanFrameKind.STOP (Some id) p = true.
Proof.
  intros (k & -> & [H1 H2]%list_elem_of_filter)%list_elem_of_fmap. unfold _correlation_id_in_use_locked. cbv zeta.
  rewrite orb_true_iff, !existsb_exists. right. exists k. split; [by apply list_elem_of_In|].
  by rewrite bool_decide_true, Z.eqb_refl by done.
Qed.

Lemma iter_next_id j id :
  0x8000 <= id <= 0xFFFF → Nat.iter j next_id id = 0x8000 + (id - 0x8000 + Z.of_nat j) mod 0x8000.
Proof.
  intros Hid. induction j as [|j IH]; [simpl; rewrite Z.add_0_r, Z.mod_small by lia; lia|].
  cbn [Nat.iter nat_rect]. change (nat_rect _ id (λ _, next_id) j) with (Nat.iter j next_id id). rewrite IH. unfold next_id.
  destruct (_ =? _) eqn:E; [apply Z.eqb_eq in E|apply Z.eqb_neq in E]; Z.to_euclidean_division_equations; lia.
Qed.

(** Not all of the first identifiers are remembered *)
Lemma unused_id (used : list Z) id :
  0x8000 <= id <= 0xFFFF → (Z.of_nat (length used) < 0x8000) →
  ∃ j, (j ≤ length used)%nat ∧ Nat.iter j next_id id ∉ used.
Proof.
  intros Hid Hlen. set (l := (λ j, Nat.iter j next_id id) <$> seq 0 (S (length used))).
  assert (Hnd : NoDup l).
  { apply NoDup_fmap_2_strong; [|apply NoDup_seq]. intros i j Hi%elem_of_seq Hj%elem_of_seq.
    rewrite !iter_next_id by done. intros E. Z.to_euclidean_division_equations. lia. }
  destruct (decide (Forall (λ x, x ∈ used) l)) as [Hall|Hex].
  - exfalso. assert (Hsub : l ⊆+ used).
    { apply NoDup_submseteq; [exact Hnd|]. by apply Forall_forall. }
    apply submseteq_length in Hsub. unfold l in Hsub. rewrite length_fmap, length_seq in Hsub. lia.
  - apply not_Forall_Exists in Hex; [|apply _]. apply Exists_exists in Hex as (x & Hx & Hn).
    unfold l in Hx. apply list_elem_of_fmap in Hx as (j & -> & Hj%elem_of_seq). exists j. split; [lia|done].
Qed.

Lemma stop_frame_decodes id :
  0x8000 <= id <= 0xFFFF →
  decode_can_frame (IsFrame (plain_frame MCU_CAN_ID_STOP (stop_payload id))) =
  Ok (request_frame (plain_frame MCU_CAN_ID_STOP (stop_payload id)) CanFrameKind.STOP id _WireOpcode.STOP 0).
Proof.
  intros Hid. apply decode_Ok. exists CanFrameKind.STOP, (stop_payload id). split.
  - apply frame_envelope_Ok. exists MCU_CAN_ID_STOP. split_and!; try done. by split; [|left..].
  - assert (E : from_bytes_big [Z.shiftr id 8; Z.land id 0xFF] = id).
    { unfold from_bytes_big. cbn [foldl]. rewrite Z.shiftr_div_pow2 by lia. change 0xFF with (Z.ones 8). rewrite Z.land_ones by lia.
      change (2 ^ 8) with 256. Z.to_euclidean_division_equations. lia. }
    apply request_payload; [done|]. exists (Z.shiftr id 8), (Z.land id 0xFF), _WireOpcode.STOP, 0. rewrite E. split_and!; try done.
    apply in_partition_spec. rewrite bool_decide_true by done. split; [lia|done].
Qed.

(** The frame of the first identifier that is not in use *)
Lemma new_stop_frame_yields n b id :
  next_stop_command_id (proto b) = id → 0x8000 <= id <= 0xFFFF →
  (∃ j, (j < n)%nat ∧ _correlation_id_in_use_locked CanFrameKind.STOP (Some (Nat.iter j next_id id)) (proto b) = false) →
  yields (new_stop_frame n) b (λ w b', request CanFrameKind.STOP w ∧ core (proto b') = core (proto b) ∧
    used_ids (proto b') = used_ids (proto b) ∧ ∃ id, command_id w = Some id ∧ id ∉ used_ids (proto b)).
Proof.
  revert b id. induction n as [|n IH]; intros b id Hnext Hid (j & Hj & Hfree); [lia|]. cbn [new_stop_frame].
  yields_step. yields_step. cbv zeta. rewrite Hnext. yields_step. yields_step. fold (next_id id).
  destruct (_correlation_id_in_use_locked CanFrameKind.STOP (Some id) (proto b)) eqn:E.
  - destruct j as [|j]; [change (Nat.iter 0 next_id id) with id in Hfree; congruence|]. eapply yields_mono; [eapply (IH _ (next_id id)); [done| |]|done].
    + unfold next_id. case_match; [lia|]. apply Z.eqb_neq in H. lia.
    + exists j. split; [lia|]. rewrite Nat.iter_succ_r in Hfree. exact Hfree.
  - rewrite stop_frame_decodes by done. cbn [lift_wire]. yields_step. split_and!; try done.
    + split; [|done]. by eapply decode_genuine; [apply stop_frame_decodes|].
    + exists id. split; [done|]. intros H%used_in_use. congruence.
Qed.

(** Remembering a command forgets STOP identifiers, if anything *)
Lemma evict_keys n w k : is_Some (retries_of (evict n w) !! k) → is_Some (retries_of w !! k).
Proof.
  revert w. induction n as [|n IH]; intros w; simpl; [done|]. destruct (key_order w) as [|k' ks]; [done|].
  intros [x Hx]%IH. simpl in Hx. apply lookup_delete_Some in Hx as [_ Hx]. by exists x.
Qed.

Lemma remember_key_keys c k rs w x :
  is_Some (retries_of (remember_key c k rs w) !! x) → x = k ∨ is_Some (retries_of w !! x).
Proof.
  unfold remember_key. intros [y Hy]%evict_keys. simpl in Hy. apply lookup_insert_Some in Hy as [[-> _]|[_ Hy]]; [by left|right; by exists y].
Qed.

Lemma used_ids_timed_out c k rs p id :
  k.1.1 ≠ CanFrameKind.STOP_ACK → id ∈ used_ids (set_timed_out (remember_key c k rs (timed_out p)) p) → id ∈ used_ids p.
Proof.
  intros Hk (x & -> & [H1 H2]%list_elem_of_filter)%list_elem_of_fmap. apply list_elem_of_fmap. exists x. split; [done|].
  apply list_elem_of_filter. split; [done|]. rewrite !elem_of_app, !elem_of_elements, !elem_of_dom in *. simpl in H2.
  destruct H2 as [H2|[->|H2]%remember_key_keys]; [by left|done|by right].
Qed.

Section Timeout.
Context (c : CanTransportConfig) (clock : nat → option pyval) (time_monotonic : nat → spec_float).
Hypothesis working_clock : ∀ n, ∃ v, clock n = Some v ∧ finite_number v = Ok true.

Lemma monotonic_yields b v (Q : spec_float → Bus → Prop) :
  clock (clock_reads b) = Some v → (∀ b', proto b' = proto b → Q (to_float v) b') →
  yields (_safe_monotonic_locked clock time_monotonic) b Q.
Proof.
  intros Hv HQ. destruct (working_clock (clock_reads b)) as (v' & Hv' & Hf). assert (v' = v) as -> by congruence.
  unfold _safe_monotonic_locked, read_clock. repeat yields_step. rewrite Hv, Hf. cbn [lift_wire]. repeat yields_step. by apply HQ.
Qed.

Lemma diagnostic_yields code id b (Q : () → Bus → Prop) :
  (∀ b', proto b' = proto b → Q () b') → yields (_record_diagnostic_locked c clock time_monotonic code id) b Q.
Proof.
  intros HQ. destruct (working_clock (clock_reads b)) as (v & Hv & _). unfold _record_diagnostic_locked. yields_step.
  eapply monotonic_yields; [done|]. intros b' Hb'. yields_step. by apply HQ.
Qed.

(** The retries of a command are used up *)
Lemma timeout_yields r now b (Q : option CanWireFrame → Bus → Prop) :
  genuine (wire_frame r) → kind (wire_frame r) = CanFrameKind.COMMAND → float_lt now (deadline r) = false →
  ack_retry_budget c <= retry_budget_used r ∨ retry_count (wire_frame r) = Some 0xFF →
  (∀ b' k, k.1.1 = CanFrameKind.ACK → proto b' = set_command_queue [] (set_pending_command None
      (set_timed_out (remember_key c k (sent_retry_counts r) (timed_out (proto b))) (proto b))) → Q None b') →
  yields (_retry_or_timeout_locked c clock time_monotonic r now (ack_retry_budget c) CanDiagnosticCode.ACK_TIMEOUT) b Q.
Proof.
  intros Hg Hk Hlate Hused HQ. unfold _retry_or_timeout_locked. rewrite Hlate.
  destruct (genuine_request _ Hg) as (id & op & n & Hw). assert (Hn : retry_count (wire_frame r) = Some n) by by rewrite Hw.
  assert (Hkey : _response_key (wire_frame r) = Some (CanFrameKind.ACK, id, op)).
  { unfold _response_key. rewrite Hk, decide_True by done. by rewrite Hw. }
  rewrite Hn in *. cbn [of_option]. yields_step. yields_step.
  replace (_ && _) with false by (symmetry; apply andb_false_iff; destruct Hused as [?|[= ->]]; [left|right]; apply Z.ltb_ge; lia).
  yields_step. apply diagnostic_yields. intros b1 Hb1. unfold remember_timed_out. rewrite Hkey. cbn [of_option].
  repeat yields_step. apply (HQ _ (CanFrameKind.ACK, id, op)); [done|]. simpl. rewrite Hb1, decide_False by by rewrite Hk. done.
Qed.

Lemma next_dispatch_yields now b r :
  consistent (core (proto b)) → pending_command (proto b) = Some r → float_lt now (deadline r) = false →
  ack_retry_budget c <= retry_budget_used r ∨ retry_count (wire_frame r) = Some 0xFF →
  0x8000 <= next_stop_command_id (proto b) <= 0xFFFF →
  (length (used_ids (proto b)) ≤ correlation_capacity c)%nat → Z.of_nat (length (used_ids (proto b))) < 0x8000 →
  yields (_next_dispatch_locked c clock time_monotonic now) b (λ o b', ∃ w id,
    o = Some (w, false) ∧ request CanFrameKind.STOP w ∧ command_id w = Some id ∧ id ∉ used_ids (proto b') ∧
    core (proto b') = core_at CanLinkState.STOPPING None None (dispatching (proto b)) []).
Proof.
  intros C Hr Hlate Hused Hid Hcap Hlen. unfold _next_dispatch_locked. apply consistent_at in C as (_ & HD & HC & HS).
  destruct (HC r Hr) as (Hg & Hk & Hl).
  assert (Hps : pending_stop (proto b) = None). { destruct (pending_stop (proto b)) as [r'|]; [|done]. by destruct (HS r' eq_refl) as (_ & _ & []). }
  yields_step. yields_step. rewrite Hps, Hr. yields_step. apply timeout_yields; [done..|]. intros b1 k Hkk Hb1.
  yields_step. yields_step. rewrite Hb1; cbn [set_command_queue set_pending_command pending_command]. yields_step.
  eapply yields_mono; [eapply (new_stop_frame_yields _ b1 (next_stop_command_id (proto b)))|].
  - by rewrite Hb1.
  - done.
  - destruct (unused_id (used_ids (proto b)) _ Hid Hlen) as (j & Hj & Hn). exists j. split; [lia|].
    apply not_true_iff_false. intros Huse. apply Hn. apply in_use_stop in Huse.
    + rewrite Hb1 in Huse. eapply (used_ids_timed_out c k); [by rewrite Hkk|exact Huse].
    + rewrite Hb1. intros w. unfold request_candidates. simpl. rewrite Hps. simpl. rewrite app_nil_r.
      destruct (dispatching (proto b)) as [d|] eqn:Hd; [|by intros ?%elem_of_nil]. intros ->%list_elem_of_singleton.
      destruct (HD d eq_refl) as [_ E]. unfold core in E. simpl in E. rewrite Hl in E. by rewrite E.
  - intros w b2 (Hw & Hc2 & Hu & id & Hcid & Hn). repeat yields_step. exists w, id. split_and!; try done.
    + by rewrite <- Hu in Hn.
    + unfold core in *. simpl. injection Hc2 as E1 E2 E3 E4 E5. rewrite E2, E3, E4, E5, Hb1. simpl. by rewrite Hps.
Qed.
End Timeout.

(** C25: When a command has gone unanswered past its deadline and its retries are
    used up, the next [poll] clears the queue and hands the transport a STOP with
    an identifier that no window remembers, provided the clock works and the two
    windows together remember no more STOP identifiers than one may hold. *)
Theorem unanswered_command_ends_in_stop c clock wall_clock time_monotonic (s : Sys) (r : PendingRequest) (v : pyval) :
  valid_config c = true → (∀ n, ∃ v, clock n = Some v ∧ finite_number v = Ok true) →
  reachable_sys c clock wall_clock time_monotonic s →
  pending_command (proto (bus_of s)) = Some r →
  clock (clock_reads (bus_of s)) = Some v → float_lt (to_float v) (deadline r) = false →
  ack_retry_budget c <= retry_budget_used r ∨ retry_count (wire_frame r) = Some 0xFF →
  (length (used_ids (proto (bus_of s))) ≤ correlation_capacity c)%nat → Z.of_nat (length (used_ids (proto (bus_of s)))) < 0x8000 →
  ∃ d id b', poll_begin c clock time_monotonic (bus_of s) = (Ok (Some (Some d)), b') ∧
    kind (dispatch_frame d) = CanFrameKind.STOP ∧ is_retry d = false ∧ dispatching (proto b') = Some d ∧
    command_id (dispatch_frame d) = Some id ∧ id ∉ used_ids (proto b') ∧
    link (proto b') = CanLinkState.STOPPING ∧ pending_command (proto b') = None ∧ command_queue (proto b') = [].
Proof.
  intros Hc Hclock Hs Hr Hv Hlate Hused Hcap Hlen.
  assert (C := sound_consistent _ _ (reachable_sound _ _ _ _ _ Hs)).
  assert (Hid := b_stop_id _ _ (reachable_bounded _ _ _ _ Hc _ Hs)).
  assert (Hl : link (proto (bus_of s)) = CanLinkState.ACTIVE). { apply consistent_at in C as (_ & _ & HC & _). by destruct (HC r Hr) as (_ & _ & ?). }
  assert (H : yields (poll_begin c clock time_monotonic) (bus_of s) (λ o b', ∃ d id, o = Some (Some d) ∧
    kind (dispatch_frame d) = CanFrameKind.STOP ∧ is_retry d = false ∧ dispatching (proto b') = Some d ∧
    command_id (dispatch_frame d) = Some id ∧ id ∉ used_ids (proto b') ∧
    link (proto b') = CanLinkState.STOPPING ∧ pending_command (proto b') = None ∧ command_queue (proto b') = [])).
  { unfold poll_begin. yields_step. yields_step. rewrite Hl, bool_decide_true by set_solver. cbn [negb]. yields_step.
    eapply monotonic_yields; [done..|]. intros b1 Hb1. yields_step.
    eapply yields_mono; [eapply (next_dispatch_yields c clock time_monotonic Hclock _ b1 r); rewrite ?Hb1; done|].
    intros o b2 (w & id & -> & [_ Hk] & Hcid & Hn & Hc2). repeat yields_step. simpl.
    unfold core in Hc2. injection Hc2 as E1 E2 E3 E4 E5. eexists _, id. split_and!; try done. }
  destruct H as (o & b' & Hm & d & id & -> & H). by exists d, id, b'.
Qed.

(** ** An example: a clock that ticks at each reading, up to a hundred *)

Definition hundred_clock (n : nat) : option pyval := Some (VFloat (float_of_Z (Z.of_nat (Nat.min n 100)))).

Lemma hundred_clock_works n : ∃ v, hundred_clock n = Some v ∧ finite_number v = Ok true.
Proof.
  eexists. split; [done|]. cbn [finite_number].
  assert (H : forallb (λ k, isfinite (float_of_Z (Z.of_nat k))) (seq 0 101) = true) by (vm_compute; reflexivity).
  rewrite forallb_forall in H. rewrite H; [done|]. apply list_elem_of_In, elem_of_seq. lia.
Qed.

Definition waiting_actions : list action := start_actions ++ [ASend a_command] ++ repeat (poll GotNothing) 4.
Definition waiting_state : Sys :=
  default (init small_config) (acts small_config hundred_clock hundred_clock zero_time waiting_actions (init small_config)).
Lemma waiting_runs : acts small_config hundred_clock hundred_clock zero_time waiting_actions (init small_config) = Some waiting_state.
Proof. vm_compute. reflexivity. Qed.

Definition waiting_command : PendingRequest := {|
  wire_frame := request_frame (plain_frame 0x100 [0x10; 0; 7; 1; 0; 0; 0; 0]) CanFrameKind.COMMAND 7 1 0;
  deadline := float_of_Z 2; retry_budget_used := 0; sent_retry_counts := {[0]} |}.

Lemma unanswered_command_ends_in_stop_witness :
  pending_command (proto (bus_of waiting_state)) = Some waiting_command ∧
  ∃ d id b', poll_begin small_config hundred_clock zero_time (bus_of waiting_state) = (Ok (Some (Some d)), b') ∧
    kind (dispatch_frame d) = CanFrameKind.STOP ∧ is_retry d = false ∧ dispatching (proto b') = Some d ∧
    command_id (dispatch_frame d) = Some id ∧ id ∉ used_ids (proto b') ∧
    link (proto b') = CanLinkState.STOPPING ∧ pending_command (proto b') = None ∧ command_queue (proto b') = [].
Proof.
  assert (E : pending_command (proto (bus_of waiting_state)) = Some waiting_command) by (vm_compute; reflexivity).
  split; [exact E|].
  apply (unanswered_command_ends_in_stop small_config hundred_clock hundred_clock zero_time waiting_state waiting_command
    (VFloat (float_of_Z 2))).
  - vm_compute. reflexivity.
  - exact hundred_clock_works.
  - exact (acts_rtc _ _ _ _ _ _ _ waiting_runs).
  - exact E.
  - vm_compute. reflexivity.
  - vm_compute. reflexivity.
  - left. vm_compute. discriminate.
  - vm_compute. lia.
  - vm_compute. reflexivity.
Defined.
